(* ===== verification/_CoqProject ===== *)
-Q . S2P
Prelude.v
Text.v
Utf8.v
Primitives.v
Crypto.v
Ids.v
Events.v
GroupAuthority.v
GroupInvariant.v
GroupSpec.v
GroupTheorems.v
LocalGroups.v
LocalGroupTheorems.v
Invites.v
SenderKeys.v
SenderKeyTheorems.v
GroupFrames.v
Messages.v
MessageTheorems.v
WebSocket.v
WebSocketTheorems.v
Json.v
ChannelFrames.v
Handshake.v
ChatSession.v
ChatFrames.v
ChatInvariant.v
ChatTheorems.v
ChatDelivery.v
Chunking.v
TransferStorage.v
Transfer.v
TransferInvariant.v
TransferPump.v
TransferDelivery.v
TransferTheorems.v
ChatTransfers.v
GaloisField.v
ReedSolomon.v
QR.v
QRPlacement.v
QRScan.v
QRSymbol.v
QRRoom.v
QRTheorems.v
RelayPackets.v
RelayState.v
RelayPacketTheorems.v
RelayServer.v
RelayEffects.v
RelaySteps.v
RelayInvariant.v
RelayTheorems.v
RelayRates.v
RelayScenario.v
Heartbeat.v
Connection.v
RelayClient.v
RelayClientTheorems.v
RelayConversation.v
