(* ===== verification/Prelude.v ===== *)
(** * GhostLink: a verification library

    GhostLink (src/ghostlink) is an end-to-end encrypted messenger: clients
    talk over WebSockets to a relay that forwards sealed packets, keeps
    invites and signs nothing itself; two peers run a secure channel for
    messages and files, and groups are rosters whose changes their members
    sign.  This library translates the parts that carry this logic into
    executable definitions and proves what they promise.

    ** Parts and files

    - [Prelude], [Text], [Utf8], [Json]: Python's results and exceptions
      ([result], [outcome]), dictionaries as ordered association lists,
      strings, base64 and hex, UTF-8, and [json.dumps]/[json.loads] with
      their round trip.
    - [Primitives]: SHA-256, Ed25519, HKDF and ChaCha20-Poly1305 as a class
      of parameters with their documented laws and an executable instance.
    - [Ids]: identifiers, fingerprints, invite tokens and links
      (groups/ids.py, identity/fingerprint.py, invites/tokens.py).
    - [Events]: signed membership events (groups/events.py).
    - [GroupAuthority], [GroupInvariant], [GroupSpec], [GroupTheorems]: the
      relay's authority over groups (groups/authority.py), its invariant, an
      abstract registry and the refinement, and the theorems.
    - [LocalGroups], [LocalGroupTheorems]: a client's copy of its groups
      (groups/models.py, groups/lifecycle.py, groups/registry.py), proved to
      follow the authority and to accept only what members signed.
    - [Invites]: invite records and the invite authority (invites/models.py,
      invites/authority.py).
    - [SenderKeys], [SenderKeyTheorems]: sender-key chains, receiver windows
      and the key store (groups/senderkeys.py).
    - [GroupFrames]: duplicate filter, sequence tracker and receipt ledger
      (groups/frames.py).
    - [Messages], [MessageTheorems]: messages, inbox, outbox, receipts and
      typing (messaging/models, messaging/queue, messaging/receipts.py,
      messaging/typing.py).
    - [WebSocket], [WebSocketTheorems]: the framing of RFC 6455
      (transport/websocket/protocol.py).
    - [ChannelFrames]: the frames of the secure channel, their validation and
      codec (messaging/packets/frames.py).
    - [Crypto], [Handshake]: sealing of bodies and the authenticated key
      exchange (messaging/protocol/crypto.py, messaging/protocol/handshake.py).
    - [ChatSession]: the session of two peers (messaging/session/chat.py) with
      its queues, its pump and its tasks.  [ChatFrames] shows that its frames
      fit the wire, [ChatInvariant] that every call keeps its invariant,
      [ChatTheorems] and [ChatDelivery] state the results, [ChatTransfers]
      joins a session with the transfer manager that listens to it.
    - [GaloisField], [ReedSolomon], [QR]: QR symbols (utils/qr.py), with
      [QRPlacement], [QRScan], [QRSymbol], [QRRoom] and [QRTheorems] for a
      reference reader and the proof that it inverts the generator.
    - [Chunking], [TransferStorage], [Transfer]: file transfer: bitmaps, chunk
      reader and writer, names and part files, and the manager with every
      handler (transfer/).  [TransferInvariant] and [TransferPump] relate each
      step to the manager's invariant, [TransferDelivery] follows an honest
      sender's chunks, [TransferTheorems] states the results.

    - [RelayPackets], [RelayPacketTheorems]: the packets between clients and
      the relay, their schemas and their JSON envelope
      (transport/relay/protocol.py).
    - [RelayState], [RelayServer]: the relay (transport/relay/server.py,
      transport/session.py): connections, sessions, channels, every packet
      handler, rate limits, sweeps and teardown.  It owns a
      [GroupAuthority] and an [Invites] authority and drives them by their
      calls.  An [event] is what the network or the clock gives it
      (a connection, a message, the end of a stream, a sweep, the shutdown) and
      [run_event] is its reaction.  [RelayEffects] classifies the elementary
      changes a handler makes, [RelaySteps] shows that every event is a
      sequence of them, [RelayInvariant] gives the invariant and the reachable
      states, [RelayTheorems] and [RelayRates] state the results, and
      [RelayScenario] runs the relay on whole conversations of bytes.
    - [Heartbeat], [Connection], [RelayClient]: the client's end of the relay
      connection: the heartbeat monitor (transport/heartbeat.py), the manager
      that dials and recovers (transport/connection.py) and the client that
      owns both (transport/relay/client.py).  Coroutines are cut at their
      waits: a request is a call that files a future, and its end when an
      answer, an error or the clock settles it, so that packets, other
      requests and reconnections come in between.  [RelayClientTheorems] gives
      the invariant of its tables of futures; [RelayConversation] joins the
      client with [RelayServer] over the bytes they exchange.

    ** How code is modelled

    A method becomes a function on an explicit record of its object's state;
    a call returns its result or exception together with the state it leaves
    ([outcome]), since Python does not undo what precedes a [raise].  Objects
    that are shared (members of a roster held by queued operations) live in a
    store.  Dictionaries keep their insertion order.  Clock readings, random
    draws, the session's key and the state of the link are arguments.
    Coroutines run from their call to their end, except where the code
    schedules another one, which is queued and run as a step of its own, and
    except those of the relay client and its connection, which are cut where
    they wait for the network or the clock: the wait for [on_connected] and
    each send of the client's re-attachment are such cuts, and a reader task
    starts in a step of its own.  The handlers [accept] and
    [_finish_receiving] of a transfer exist as the pieces between their waits
    for a thread; the manager's operations compose these pieces directly, and
    examples show what another call in between does.  A float is its text,
    [float] of an integer rounds to the nearest double ([float_round]).
    Logging, listeners and texts shown to the user are left out.  The relay
    handles one event at a time: what a handler sends is appended to a list of
    packets on the wire, and whether a socket still accepts data is an argument.

    ** What the theorems show

    - Group authority: it refines an abstract registry of signed operations;
      its bounds hold in every reachable state; only a valid signature of the
      designated signer commits; a dissolved group stays dissolved.
    - Client groups: a client follows the authority event by event; a relay
      cannot forge a roster; a client signs only what it is authorised to.
    - Messages and sender keys: in-order delivery, no loss, round trips of
      sealed messages, each message key at most once, bounded stores.
    - Framing: WebSocket and secure-channel frames decode to what was encoded,
      fragments are reassembled, every decoded frame satisfies its schema.
    - Key exchange and chat sessions: both sides derive the same key and
      transcript, an initiator accepts only a peer that proves the key, the
      transcript binds everything presented; a session keeps its invariant
      along every run, its pump ends for nothing but a failing socket, a message sent between two ready
      sessions is shown once and marked delivered.
    - QR symbols: the reader gets the payload back for every version, level
      and mask; the tables multiply in GF(2^8); damage within the correction
      capacity is unambiguous; the mask has the least penalty; the
      constructor ends and fails only when nothing fits.
    - File transfer: the manager's invariant along every run, transfers only
      move along their lifecycle, downloads have the announced size and hash,
      an honest sender's file arrives, the pump keeps its window and sends a
      chunk [retry_limit] times at most, closing leaves no part file.
    - Relay: in every reachable state channels, clients and sessions agree and
      the brakes are within their bounds; a packet reaches only clients that
      may have it, with bodies untouched; an event of one client leaves the
      others as they were, and a departed client leaves no trace; the
      authorities it owns are only driven by their calls, so their bounds
      hold under any traffic; a group invite is redeemed entirely or not at
      all; an envelope to an attached peer is delivered; packets survive the
      wire and a decoded packet has every field its handler reads.
    - Relay client: the connection takes only allowed transitions, a
      connection in progress has exactly one coroutine that carries it on, a
      connection that stands is read or about to be as long as [on_connected]
      does not raise, and by one task only while calls do not overlap
      ([orderly]); CLOSED is final; recovery with [a] attempts makes at most
      [3 * a + 2] steps and is never stuck; a silent peer is declared dead
      after three misses, and again every three as long as it stays silent, a
      live one never; a coroutine that waits for an answer only
      gets one that arrived, while it waited, in bytes the reader received and
      that suits its request.  With the relay: an
      [attach] returns and both sides hold the attachment, and a body sent by
      one client reaches the listener of the other, exactly once and unaltered.
    - Behaviour that departs from the documentation is stated as theorems on
      concrete runs (for instance [same_name_downloads_overwrite],
      [promotion_exceeds_concurrency], [queued_expiry_stops_sweep],
      [removal_after_leave_desynchronizes],
      [prune_never_prunes], [two_readers], [loose_request_signed],
      [socket_failure_stops_pump], [cancelled_while_accepting] and
      [paused_while_hashing], and the conversations of [RelayScenario] and
      [RelayConversation]).

    ** Bounds and fuel

    [loads] recurses with fuel [2 * length + 1], more than the nesting and the
    elements of any text of that length; the round trip is proved with it.
    [read_message] of the WebSocket has as much fuel as there are bytes, and
    [read_message_total] shows that it is enough.  The placement of a QR
    symbol has as much fuel for a pair of columns as the symbol has rows,
    which [place_data_path] shows to be enough.  A run of the reconnection
    loop needs no fuel: [reconnection_ends] bounds its steps by the attempts of
    its policy.  Facts about the forty versions
    are computed from the tables.  Other recursion is structural.

    ** Not modelled

    The group service and mesh (orchestration of the modelled parts), the
    connection probe of the client ([probe_relay]), interleavings of the
    relay's handlers at their awaits, the HTTP upgrade, stored forms of records,
    history, configuration, internationalisation, command line and user
    interface, and the separate web portal. *)

From Stdlib Require Export ZArith Lia.
From stdpp Require Export prelude gmap strings.

#[export] Set Default Goal Selector "!".

(** ** Results: the value of a Python call, or the exception it raised. *)

Inductive result (E A : Type) : Type :=
| Ok (a : A)
| Err (e : E).
Arguments Ok {E A} a.
Arguments Err {E A} e.

#[export] Instance result_ret E : MRet (result E) := λ A a, Ok a.
#[export] Instance result_bind E : MBind (result E) := λ A B f m,
  match m with Ok a => f a | Err e => Err e end.

Definition is_ok {E A} (r : result E A) : bool :=
  match r with Ok _ => true | Err _ => false end.

(** [guard_or b e]: the Python idiom [if not b: raise e]. *)
Definition guard_or {E} (b : bool) (e : E) : result E unit :=
  if b then Ok tt else Err e.

(** [of_option o e]: a lookup that raises [e] when the key is absent. *)
Definition of_option {E A} (o : option A) (e : E) : result E A :=
  match o with Some a => Ok a | None => Err e end.

(** A stateful call returns its result together with the state it left
    behind, whether it returned or raised: Python does not roll back the
    mutations that precede a [raise]. *)
Definition outcome (S E A : Type) : Type := result E A * S.

Declare Scope py_scope.
Delimit Scope py_scope with py.
Open Scope py_scope.

(** [try? x := r @ s in k]: run the read-only check [r]; when it raises,
    the call ends with that exception and the state [s] as it is. *)
Notation "'try?' x ':=' r '@' s 'in' k" :=
  (match r with Ok x => k | Err e => (Err e, s) end)
  (at level 10, x pattern, r at level 100, s at level 0, k at level 200)
  : py_scope.

(** [run? (x, s) := o in k]: the stateful call [o] is made; what it raises
    is raised. *)
Notation "'run?' ( x ',' s ) ':=' o 'in' k" :=
  (match o with (Ok x, s) => k | (Err e, s) => (Err e, s) end)
  (at level 10, x pattern, s name, o at level 100, k at level 200)
  : py_scope.

Lemma bind_Ok {E A B} (m : result E A) (f : A → result E B) b :
  (m ≫= f) = Ok b ↔ ∃ a, m = Ok a ∧ f a = Ok b.
Proof. destruct m; naive_solver. Qed.

Lemma guard_or_Ok {E} (b : bool) (e : E) u : guard_or b e = Ok u ↔ b = true.
Proof. destruct b, u; naive_solver. Qed.

Lemma of_option_Ok {E A} (o : option A) (e : E) a :
  of_option o e = Ok a ↔ o = Some a.
Proof. destruct o; naive_solver. Qed.

(** ** Python dictionaries

    A [dict] (or [OrderedDict]) keeps its insertion order: assigning an
    existing key keeps its position, a new key goes last.  An association
    list in that order, with distinct keys ([dict_wf]). *)

Section dict.
Context {K V : Type} `{EqDecision K}.
Implicit Types d : list (K * V).

Definition keys d : list K := d.*1.
Definition values d : list V := d.*2.
Definition dict_wf d : Prop := NoDup (keys d).

(** [d.get(k)] *)
Fixpoint dget d (k : K) : option V :=
  match d with
  | [] => None
  | (k', v) :: d' => if decide (k' = k) then Some v else dget d' k
  end.

(** [k in d] *)
Definition dmem d (k : K) : bool := bool_decide (is_Some (dget d k)).

(** [d[k] = v] *)
Fixpoint dset d (k : K) (v : V) : list (K * V) :=
  match d with
  | [] => [(k, v)]
  | (k', v') :: d' =>
      if decide (k' = k) then (k', v) :: d' else (k', v') :: dset d' k v
  end.

(** [d.pop(k, None)] / [del d[k]]: the dictionary that remains. *)
Fixpoint dpop d (k : K) : list (K * V) :=
  match d with
  | [] => []
  | (k', v') :: d' => if decide (k' = k) then d' else (k', v') :: dpop d' k
  end.

(** [d.move_to_end(k)] *)
Definition dmove_to_end d (k : K) : list (K * V) :=
  match dget d k with
  | Some v => dpop d k ++ [(k, v)]
  | None => d
  end.

Lemma dget_Some_elem d k v : dget d k = Some v → (k, v) ∈ d.
Proof.
  induction d as [|[k' v'] d IH]; simpl; [done|].
  case_decide; naive_solver set_solver.
Qed.

Lemma dget_is_Some d k : is_Some (dget d k) ↔ k ∈ keys d.
Proof.
  induction d as [|[k' v'] d IH]; simpl.
  - split; [intros [??]; done | set_solver].
  - case_decide as H; [subst; split; [set_solver | eauto]|].
    rewrite IH. set_solver.
Qed.

Lemma dget_None d k : dget d k = None ↔ k ∉ keys d.
Proof. rewrite <- dget_is_Some, eq_None_not_Some. done. Qed.

Lemma elem_dget d k v : dict_wf d → (k, v) ∈ d → dget d k = Some v.
Proof.
  unfold dict_wf. induction d as [|[k' v'] d IH]; simpl; [set_solver|].
  rewrite NoDup_cons. intros [Hn Hnd] Hin. case_decide as H.
  - subst. apply elem_of_cons in Hin as [[=->]|Hin]; [done|].
    exfalso. apply Hn, list_elem_of_fmap. by exists (k, v).
  - apply elem_of_cons in Hin as [[=]|Hin]; [congruence|]. auto.
Qed.

Lemma dmem_spec d k : dmem d k = true ↔ k ∈ keys d.
Proof. unfold dmem. by rewrite bool_decide_eq_true, dget_is_Some. Qed.

Lemma dmem_false d k : dmem d k = false ↔ dget d k = None.
Proof.
  unfold dmem. by rewrite bool_decide_eq_false, eq_None_not_Some.
Qed.

Lemma dget_dset d k v k' :
  dget (dset d k v) k' = if decide (k = k') then Some v else dget d k'.
Proof.
  induction d as [|[k0 v0] d IH]; simpl; [by repeat case_decide|].
  repeat case_decide; subst; simpl; repeat case_decide; congruence.
Qed.

Lemma keys_dset d k v :
  keys (dset d k v) = if decide (k ∈ keys d) then keys d else keys d ++ [k].
Proof.
  induction d as [|[k0 v0] d IH]; simpl; [done|].
  destruct (decide (k0 = k)) as [->|Hne]; simpl.
  - rewrite decide_True by set_solver. done.
  - change (k0 :: keys (dset d k v) = if decide (k ∈ k0 :: keys d)
      then k0 :: keys d else (k0 :: keys d) ++ [k]).
    rewrite IH. repeat case_decide; try done; set_solver.
Qed.

Lemma keys_dpop_subset d k k' : k' ∈ keys (dpop d k) → k' ∈ keys d.
Proof.
  induction d as [|[k0 v0] d IH]; simpl; [done|]. case_decide; set_solver.
Qed.

Lemma keys_dpop d k k' :
  dict_wf d → k' ∈ keys (dpop d k) ↔ k' ∈ keys d ∧ k' ≠ k.
Proof.
  unfold dict_wf. induction d as [|[k0 v0] d IH]; simpl; [set_solver|].
  rewrite NoDup_cons. intros [? ?]. case_decide; set_solver.
Qed.

Lemma dget_dpop d k k' :
  dict_wf d → dget (dpop d k) k' = if decide (k = k') then None else dget d k'.
Proof.
  unfold dict_wf. induction d as [|[k0 v0] d IH]; simpl; [by case_decide|].
  rewrite NoDup_cons. intros [Hn Hnd].
  destruct (decide (k0 = k)) as [->|]; simpl.
  - destruct (decide (k = k')) as [->|]; [by apply dget_None | done].
  - destruct (decide (k0 = k')) as [->|]; [by rewrite decide_False by congruence|].
    by rewrite IH.
Qed.

Lemma dict_wf_nil : dict_wf [].
Proof. constructor. Qed.

Lemma dict_wf_dset d k v : dict_wf d → dict_wf (dset d k v).
Proof.
  unfold dict_wf. intros H. rewrite keys_dset. case_decide; [done|].
  apply NoDup_app. split; [done|]. split; [set_solver|]. apply NoDup_singleton.
Qed.

Lemma dict_wf_dpop d k : dict_wf d → dict_wf (dpop d k).
Proof.
  unfold dict_wf. induction d as [|[k0 v0] d IH]; simpl; [done|].
  rewrite NoDup_cons. intros [Hn Hnd]. case_decide; [done|]. simpl.
  apply NoDup_cons. split; [|auto]. intros Hin. by apply Hn, (keys_dpop_subset _ k).
Qed.

Lemma dpop_elem d k x : x ∈ dpop d k → x ∈ d.
Proof.
  induction d as [|[k0 v0] d IH]; simpl; [done|]. case_decide; set_solver.
Qed.

Lemma dpop_dset_fresh d k v : k ∉ keys d → dpop (dset d k v) k = d.
Proof.
  induction d as [|[k0 v0] d IH]; simpl; [by rewrite decide_True|].
  intros [Hn Hd]%not_elem_of_cons. rewrite decide_False by done. simpl. rewrite decide_False by done. by rewrite IH.
Qed.

Lemma length_dset d k v :
  length (dset d k v) = if decide (k ∈ keys d) then length d else S (length d).
Proof.
  transitivity (length (keys (dset d k v))); [unfold keys; by rewrite length_fmap|].
  rewrite keys_dset. case_decide; unfold keys; rewrite ?length_app, length_fmap; simpl; lia.
Qed.

Lemma length_dpop d k :
  length d = (length (dpop d k) + if decide (k ∈ keys d) then 1 else 0)%nat.
Proof.
  induction d as [|[k0 v0] d IH]; simpl; [done|].
  destruct (decide (k0 = k)) as [->|Hne]; simpl.
  - rewrite decide_True by set_solver. lia.
  - rewrite IH. change (keys ((k0, v0) :: d)) with (k0 :: keys d).
    repeat case_decide; try lia; set_solver.
Qed.

Lemma dict_wf_filter (Q : K * V → Prop) `{∀ x, Decision (Q x)} d :
  dict_wf d → dict_wf (filter Q d).
Proof.
  unfold dict_wf, keys. intros Hd. eapply sublist_NoDup; [exact Hd|].
  apply fmap_sublist, sublist_filter.
Qed.

Lemma dget_filter (Q : K * V → Prop) `{∀ x, Decision (Q x)} d k v :
  dict_wf d → dget (filter Q d) k = Some v ↔ dget d k = Some v ∧ Q (k, v).
Proof.
  intros Hd. split.
  - intros Hin%dget_Some_elem. apply list_elem_of_filter in Hin as [? Hin].
    split; [by apply elem_dget|done].
  - intros [Hin%dget_Some_elem HQ]. apply elem_dget; [by apply dict_wf_filter|].
    by apply list_elem_of_filter.
Qed.
End dict.

(** Applying a function to every value of a dictionary. *)
Lemma dget_fmap {K V W} `{EqDecision K} (f : V → W) (d : list (K * V)) k :
  dget ((λ x, (x.1, f x.2)) <$> d) k = f <$> dget d k.
Proof. induction d as [|[k0 v0] d IH]; [done|]. simpl. by case_decide. Qed.

Lemma dict_wf_fmap {K V W} (f : V → W) (d : list (K * V)) :
  dict_wf d → dict_wf ((λ x, (x.1, f x.2)) <$> d).
Proof. unfold dict_wf, keys. by rewrite <- list_fmap_compose. Qed.

Arguments keys : simpl never.
Arguments values : simpl never.

(** ** Shared automation *)

Create HintDb ghost.
#[export] Hint Resolve dict_wf_nil dict_wf_dset dict_wf_dpop dict_wf_filter : ghost.

(** Turn boolean tests of the code into propositions. *)
Ltac breflect :=
  repeat match goal with
  | H : _ && _ = true |- _ => apply andb_true_iff in H as [? ?]
  | H : _ || _ = false |- _ => apply orb_false_iff in H as [? ?]
  | H : negb _ = true |- _ => apply negb_true_iff in H
  | H : negb _ = false |- _ => apply negb_false_iff in H
  | H : bool_decide _ = true |- _ => apply bool_decide_eq_true in H
  | H : bool_decide _ = false |- _ => apply bool_decide_eq_false in H
  | H : (_ <? _)%Z = true |- _ => apply Z.ltb_lt in H
  | H : (_ <? _)%Z = false |- _ => apply Z.ltb_ge in H
  | H : (_ <=? _)%Z = true |- _ => apply Z.leb_le in H
  | H : (_ <=? _)%Z = false |- _ => apply Z.leb_gt in H
  | H : (_ =? _)%Z = true |- _ => apply Z.eqb_eq in H
  | H : (_ =? _)%Z = false |- _ => apply Z.eqb_neq in H
  | H : (_ <? _)%nat = true |- _ => apply Nat.ltb_lt in H
  | H : (_ <? _)%nat = false |- _ => apply Nat.ltb_ge in H
  | H : (_ <=? _)%nat = true |- _ => apply Nat.leb_le in H
  | H : (_ <=? _)%nat = false |- _ => apply Nat.leb_gt in H
  end.

(** Split a call into the paths of the code: one goal per combination of
    test results, the impossible ones closed. *)
Ltac paths :=
  repeat (case_match; simplify_eq/=; try done).

(** ** Lists *)

Lemma drop_seqZ (k : nat) (m n : Z) :
  drop k (seqZ m n) = seqZ (m + Z.of_nat k) (n - Z.of_nat k).
Proof.
  apply list_eq. intros i. rewrite lookup_drop.
  destruct (decide (Z.of_nat (k + i) < n)%Z).
  - rewrite !lookup_seqZ_lt by lia. f_equal. lia.
  - by rewrite !lookup_seqZ_ge by lia.
Qed.

Lemma filter_keep {A} (Q : A → Prop) `{∀ x, Decision (Q x)} (l : list A) :
  Forall Q l → filter Q l = l.
Proof. induction 1 as [|x l Hx _ IH]; [done|]. rewrite filter_cons_True by done. by rewrite IH. Qed.

(** A boolean fact checked on every element of a finite range. *)
Lemma forallb_range (f : Z → bool) (n : Z) :
  forallb f (seqZ 0 n) = true → ∀ i, (0 <= i < n)%Z → f i = true.
Proof.
  intros H%Is_true_true i Hi. rewrite forallb_True in H. rewrite Forall_forall in H.
  apply Is_true_true, H, elem_of_seqZ. lia.
Qed.
