(* ===== verification/Text.v ===== *)
(** * Text and byte strings of the Python standard library

    What GhostLink's identifier, event and invite code uses of [str],
    [bytes], [base64], [bytes.fromhex], [str(int)] and
    [datetime.isoformat].  A [str] is a [string] of ASCII characters; a
    [bytes] value is a list of integers, each in [0, 255] ([bytes_ok]). *)

From Stdlib Require Import Ascii DecimalString DecimalZ DecimalPos DecimalFacts.
From S2P Require Import Prelude.

Open Scope Z_scope.

(** ** Characters *)

Fixpoint chars (s : string) : list ascii :=
  match s with EmptyString => [] | String c s' => c :: chars s' end.

Fixpoint of_chars (l : list ascii) : string :=
  match l with [] => EmptyString | c :: l' => String c (of_chars l') end.

Definition code (c : ascii) : Z := Z.of_N (N_of_ascii c).

Lemma of_chars_chars s : of_chars (chars s) = s.
Proof. induction s; simpl; congruence. Qed.

Lemma chars_of_chars l : chars (of_chars l) = l.
Proof. induction l; simpl; congruence. Qed.

Lemma chars_app s t : chars (s +:+ t) = chars s ++ chars t.
Proof. induction s as [|c s IH]; [done|]. simpl. by f_equal. Qed.

Lemma chars_inj s t : chars s = chars t → s = t.
Proof. intros H. by rewrite <- (of_chars_chars s), H, of_chars_chars. Qed.

Definition str_len (s : string) : nat := length (chars s).

(** [str.isspace] on ASCII. *)
Definition is_space (c : ascii) : bool :=
  let n := code c in
  ((9 <=? n) && (n <=? 13)) || ((28 <=? n) && (n <=? 32)).

Definition is_lower (c : ascii) : bool := (97 <=? code c) && (code c <=? 122).
Definition is_upper (c : ascii) : bool := (65 <=? code c) && (code c <=? 90).

Definition up_char (c : ascii) : ascii :=
  if is_lower c then ascii_of_N (N_of_ascii c - 32) else c.
Definition low_char (c : ascii) : ascii :=
  if is_upper c then ascii_of_N (N_of_ascii c + 32) else c.

Fixpoint lstrip (l : list ascii) : list ascii :=
  match l with
  | [] => []
  | c :: l' => if is_space c then lstrip l' else l
  end.

(** [s.strip()], [s.upper()], [s.lower()] *)
Definition strip (s : string) : string :=
  of_chars (reverse (lstrip (reverse (lstrip (chars s))))).
Definition upper (s : string) : string := of_chars (up_char <$> chars s).
Definition lower (s : string) : string := of_chars (low_char <$> chars s).

(** [s.startswith(p)] and [s[len(p):]] in one step. *)
Fixpoint strip_prefix (p l : list ascii) : option (list ascii) :=
  match p, l with
  | [], _ => Some l
  | a :: p', b :: l' => if decide (a = b) then strip_prefix p' l' else None
  | _ :: _, [] => None
  end.

Definition startswith (s p : string) : bool :=
  bool_decide (is_Some (strip_prefix (chars p) (chars s))).

(** Characters that neither [strip] nor [upper] touches. *)
Definition plain (c : ascii) : bool := negb (is_space c) && negb (is_lower c).

Lemma lstrip_id l : Forall (λ c, is_space c = false) l → lstrip l = l.
Proof.
  destruct l as [|c l]; [done|]. rewrite Forall_cons. intros [Hc _]. simpl.
  by rewrite Hc.
Qed.

Lemma strip_id s : Forall (λ c, is_space c = false) (chars s) → strip s = s.
Proof.
  intros H. unfold strip. rewrite (lstrip_id (chars s)) by done.
  rewrite lstrip_id by by apply Forall_reverse.
  by rewrite reverse_involutive, of_chars_chars.
Qed.

Lemma strip_plain s : Forall (λ c, plain c = true) (chars s) → strip s = s.
Proof.
  intros H. apply strip_id. eapply Forall_impl; [done|].
  intros c Hc. unfold plain in Hc. by breflect.
Qed.

Lemma upper_plain s : Forall (λ c, plain c = true) (chars s) → upper s = s.
Proof.
  intros H. unfold upper. rewrite <- (of_chars_chars s) at 2. f_equal.
  induction H as [|c l Hc _ IH]; [done|]. rewrite fmap_cons, IH. f_equal.
  unfold up_char, plain in *. breflect. by rewrite H0.
Qed.

(** ** Decimal numbers: [str(n)] *)

Definition str_of_Z (z : Z) : string := NilZero.string_of_int (Z.to_int z).

(** Zero-padded fields of fixed width ([f"{n:02d}"] for [n] in range). *)
Definition digit_char (d : Z) : ascii := ascii_of_N (Z.to_N (48 + d)).

Fixpoint padded (width : nat) (z : Z) : list ascii :=
  match width with
  | O => []
  | S w => padded w (z / 10) ++ [digit_char (z mod 10)]
  end.

Definition is_digit (c : ascii) : bool := (48 <=? code c) && (code c <=? 57).

Lemma digits_of_uint (d : Decimal.uint) :
  Forall (λ c, is_digit c = true) (chars (NilEmpty.string_of_uint d)).
Proof. induction d; simpl; constructor; done. Qed.

Lemma str_of_Z_nonneg z :
  0 <= z → ∃ u, Z.to_int z = Decimal.Pos u ∧
    str_of_Z z = NilZero.string_of_uint u.
Proof.
  intros Hz. unfold str_of_Z. destruct z; simpl; [eauto..|lia].
Qed.

Lemma str_of_Z_digits z :
  0 <= z → Forall (λ c, is_digit c = true) (chars (str_of_Z z)).
Proof.
  intros Hz. destruct (str_of_Z_nonneg z Hz) as (u & _ & ->).
  destruct u; simpl; try apply digits_of_uint; repeat constructor.
  all: try apply digits_of_uint.
Qed.

Lemma to_int_not_nil z :
  Z.to_int z ≠ Decimal.Pos Decimal.Nil ∧ Z.to_int z ≠ Decimal.Neg Decimal.Nil.
Proof.
  destruct z as [|p|p]; simpl; [done|..];
    pose proof (DecimalPos.Unsigned.to_uint_nonnil p); split; congruence.
Qed.

Lemma str_of_Z_inj z1 z2 : str_of_Z z1 = str_of_Z z2 → z1 = z2.
Proof.
  unfold str_of_Z. intros H.
  apply (f_equal NilZero.int_of_string) in H.
  rewrite !NilZero.isi in H by apply to_int_not_nil.
  apply (f_equal (fmap Z.of_int)) in H. simpl in H.
  rewrite !DecimalZ.of_to in H. by simplify_eq.
Qed.

(** The value of a sequence of decimal digits. *)
Fixpoint uint_val (acc : Z) (d : Decimal.uint) : Z :=
  match d with
  | Decimal.Nil => acc
  | Decimal.D0 l => uint_val (acc * 10 + 0) l
  | Decimal.D1 l => uint_val (acc * 10 + 1) l
  | Decimal.D2 l => uint_val (acc * 10 + 2) l
  | Decimal.D3 l => uint_val (acc * 10 + 3) l
  | Decimal.D4 l => uint_val (acc * 10 + 4) l
  | Decimal.D5 l => uint_val (acc * 10 + 5) l
  | Decimal.D6 l => uint_val (acc * 10 + 6) l
  | Decimal.D7 l => uint_val (acc * 10 + 7) l
  | Decimal.D8 l => uint_val (acc * 10 + 8) l
  | Decimal.D9 l => uint_val (acc * 10 + 9) l
  end.

Lemma of_uint_acc_val d p : Z.pos (Pos.of_uint_acc d p) = uint_val (Z.pos p) d.
Proof. revert p. induction d; intros p; cbn [Pos.of_uint_acc uint_val]; [done|rewrite IHd; f_equal; lia..]. Qed.

Lemma of_uint_val d : Z.of_uint d = uint_val 0 d.
Proof.
  unfold Z.of_uint. induction d; cbn [Pos.of_uint uint_val]; [done|exact IHd|..]; simpl Z.of_N;
    by rewrite of_uint_acc_val.
Qed.

Lemma str_of_Z_val z :
  0 <= z → ∃ u, str_of_Z z = NilEmpty.string_of_uint u ∧ u ≠ Decimal.Nil ∧ uint_val 0 u = z.
Proof.
  intros Hz. destruct (str_of_Z_nonneg z Hz) as (u & Hu & ->). exists u.
  assert (Hn : u ≠ Decimal.Nil) by (intros ->; exact (proj1 (to_int_not_nil z) Hu)).
  split; [by destruct u|]. split; [exact Hn|].
  rewrite <- of_uint_val. rewrite <- (DecimalZ.of_to z), Hu. done.
Qed.

(** No leading zeros. *)
Lemma str_of_Z_head z :
  0 < z → ∃ d l, chars (str_of_Z z) = d :: l ∧ 49 <= code d <= 57.
Proof.
  intros Hz. destruct z as [|p|p]; try lia. unfold str_of_Z. simpl.
  assert (Hu : Pos.to_uint p = Decimal.unorm (Pos.to_uint p)).
  { rewrite <- DecimalN.Unsigned.to_of. unfold N.of_uint.
    by rewrite DecimalPos.Unsigned.of_to. }
  assert (Hz0 : Pos.to_uint p ≠ Decimal.D0 Decimal.Nil).
  { intros E. pose proof (DecimalPos.Unsigned.of_to p) as H. rewrite E in H. discriminate. }
  unfold Decimal.unorm in Hu. destruct (Decimal.nzhead (Pos.to_uint p)) as [|x|x|x|x|x|x|x|x|x|x] eqn:E;
    [by rewrite Hu in Hz0|exfalso; exact (DecimalFacts.nzhead_nonzero _ _ E)|..];
    rewrite Hu; simpl; eexists _, _; (split; [reflexivity|vm_compute; split; discriminate]).
Qed.

(** ** Bytes *)

Definition bytes : Type := list Z.
Definition byte_ok (b : Z) : Prop := 0 <= b < 256.
Definition bytes_ok (bs : bytes) : Prop := Forall byte_ok bs.

(** [s.encode()]: ASCII text encodes one byte per character. *)
Definition encode (s : string) : bytes := code <$> chars s.

Lemma code_bound c : byte_ok (code c).
Proof.
  unfold byte_ok, code. pose proof (N_ascii_bounded c). lia.
Qed.

#[export] Instance code_inj : Inj (=) (=) code.
Proof.
  intros c1 c2 H. unfold code in H. apply N2Z.inj in H.
  by rewrite <- (ascii_N_embedding c1), H, ascii_N_embedding.
Qed.

Lemma encode_ok s : bytes_ok (encode s).
Proof. unfold bytes_ok, encode. apply Forall_fmap, Forall_true, code_bound. Qed.

Lemma encode_inj s t : encode s = encode t → s = t.
Proof. intros H. by apply chars_inj, (inj (fmap code)). Qed.

(** ** Hexadecimal: [bytes.hex] / [hexdigest] and [bytes.fromhex] *)

Definition hex_digits : list ascii := chars "0123456789abcdef".

Definition hex_char (n : Z) : ascii := nth (Z.to_nat n) hex_digits "0"%char.

Definition hexdigest (bs : bytes) : string :=
  of_chars (concat ((λ b, [hex_char (b / 16); hex_char (b mod 16)]) <$> bs)).

Definition hex_val (c : ascii) : option Z :=
  let n := code c in
  if (48 <=? n) && (n <=? 57) then Some (n - 48)
  else if (97 <=? n) && (n <=? 102) then Some (n - 87)
  else if (65 <=? n) && (n <=? 70) then Some (n - 55)
  else None.

(** The whitespace [bytes.fromhex] skips between two digits pairs. *)
Definition hex_space (c : ascii) : bool :=
  let n := code c in ((9 <=? n) && (n <=? 13)) || (n =? 32).

Fixpoint fromhex_go (l : list ascii) : option bytes :=
  match l with
  | [] => Some []
  | c :: l1 =>
      if hex_space c then fromhex_go l1
      else match l1 with
           | [] => None
           | c' :: l2 =>
               h ← hex_val c; h' ← hex_val c'; bs ← fromhex_go l2;
               Some (16 * h + h' :: bs)
           end
  end.

Definition fromhex (s : string) : option bytes := fromhex_go (chars s).

Lemma hex_char_val n : 0 <= n < 16 → hex_val (hex_char n) = Some n ∧ hex_space (hex_char n) = false.
Proof.
  intros H. pose proof (forallb_range (λ n, bool_decide (hex_val (hex_char n) = Some n) &&
    negb (hex_space (hex_char n))) 16 ltac:(by vm_compute) n H) as Hn. simpl in Hn. by breflect.
Qed.

Lemma fromhex_hexdigest bs : bytes_ok bs → fromhex (hexdigest bs) = Some bs.
Proof.
  unfold fromhex, hexdigest. rewrite chars_of_chars.
  induction 1 as [|b bs Hb _ IH]; [done|]. unfold byte_ok in Hb.
  rewrite fmap_cons, concat_cons.
  destruct (hex_char_val (b / 16)) as [E1 E2]; [split; [apply Z.div_pos|apply Z.div_lt_upper_bound]; lia|].
  destruct (hex_char_val (b mod 16)) as [E3 E4]; [apply Z.mod_pos_bound; lia|].
  cbn [app fromhex_go]. rewrite E2, E1, E3. cbn [mbind option_bind].
  rewrite IH. cbn [mbind option_bind]. repeat f_equal.
  pose proof (Z_div_mod_eq_full b 16). lia.
Qed.

Definition is_hex_lower (c : ascii) : bool := is_digit c || ((97 <=? code c) && (code c <=? 102)).
Definition is_hex_upper (c : ascii) : bool := is_digit c || ((65 <=? code c) && (code c <=? 70)).

Lemma hex_char_lower n : 0 <= n < 16 → is_hex_lower (hex_char n) = true.
Proof.
  by apply (forallb_range (λ n, is_hex_lower (hex_char n)) 16 ltac:(by vm_compute)).
Qed.

Lemma hexdigest_hex bs :
  bytes_ok bs → Forall (λ c, is_hex_lower c = true) (chars (hexdigest bs)).
Proof.
  intros H. unfold hexdigest. rewrite chars_of_chars.
  induction H as [|b bs Hb _ IH]; [constructor|]. unfold byte_ok in Hb.
  rewrite fmap_cons, concat_cons. simpl. repeat constructor; [..|done].
  - apply hex_char_lower. split; [apply Z.div_pos|apply Z.div_lt_upper_bound]; lia.
  - apply hex_char_lower, Z.mod_pos_bound. lia.
Qed.

Lemma hexdigest_length bs : str_len (hexdigest bs) = (2 * length bs)%nat.
Proof.
  unfold str_len, hexdigest. rewrite chars_of_chars.
  induction bs as [|b bs IH]; [done|]. rewrite fmap_cons, concat_cons. simpl. rewrite IH. lia.
Qed.

(** ** Base64: [base64.b64encode], [base64.b64decode(..., validate=True)] *)

Definition b64_alphabet : list ascii :=
  chars "ABCDEFGHIJKLMNOPQRSTUVWXYZabcdefghijklmnopqrstuvwxyz0123456789+/".

Definition b64_char (n : Z) : ascii := nth (Z.to_nat n) b64_alphabet "A"%char.

Definition b64_val (c : ascii) : option Z :=
  let n := code c in
  if is_upper c then Some (n - 65)
  else if is_lower c then Some (n - 71)
  else if is_digit c then Some (n + 4)
  else if n =? 43 then Some 62
  else if n =? 47 then Some 63
  else None.

Definition b64_pad : ascii := "="%char.

Fixpoint b64encode_go (bs : bytes) : list ascii :=
  match bs with
  | [] => []
  | [a] => [b64_char (a / 4); b64_char (a mod 4 * 16); b64_pad; b64_pad]
  | [a; b] =>
      [b64_char (a / 4); b64_char (a mod 4 * 16 + b / 16);
       b64_char (b mod 16 * 4); b64_pad]
  | a :: b :: c :: bs' =>
      b64_char (a / 4) :: b64_char (a mod 4 * 16 + b / 16) ::
      b64_char (b mod 16 * 4 + c / 64) :: b64_char (c mod 64) :: b64encode_go bs'
  end.

Definition b64encode (bs : bytes) : string := of_chars (b64encode_go bs).

(** Strict decoding: whole groups of four characters, padding only in the
    last group, nothing after it; [None] is [binascii.Error]. *)
Fixpoint b64decode_go (l : list ascii) : option bytes :=
  match l with
  | [] => Some []
  | c0 :: c1 :: c2 :: c3 :: rest =>
      s0 ← b64_val c0; s1 ← b64_val c1;
      if decide (c3 = b64_pad) then
        match rest with
        | _ :: _ => None
        | [] =>
            if decide (c2 = b64_pad) then Some [s0 * 4 + s1 / 16]
            else s2 ← b64_val c2;
                 Some [s0 * 4 + s1 / 16; s1 mod 16 * 16 + s2 / 4]
        end
      else
        s2 ← b64_val c2; s3 ← b64_val c3; bs ← b64decode_go rest;
        Some (s0 * 4 + s1 / 16 :: s1 mod 16 * 16 + s2 / 4 :: s2 mod 4 * 64 + s3 :: bs)
  | _ => None
  end.

Definition b64decode (s : string) : option bytes := b64decode_go (chars s).

Lemma b64_char_val n :
  0 <= n < 64 → b64_val (b64_char n) = Some n ∧ b64_char n ≠ b64_pad.
Proof.
  intros H. pose proof (forallb_range (λ n, bool_decide (b64_val (b64_char n) = Some n) &&
    bool_decide (b64_char n ≠ b64_pad)) 64 ltac:(by vm_compute) n H) as Hn. simpl in Hn.
  by breflect.
Qed.

Ltac b64_digit n :=
  let E := fresh "E" in let N := fresh "N" in
  destruct (b64_char_val n) as [E N]; [Z.to_euclidean_division_equations; lia|];
  rewrite E; cbn [mbind option_bind]; try rewrite (decide_False _ _ N).

Lemma b64_roundtrip_go n : ∀ bs, (length bs <= n)%nat → bytes_ok bs →
  b64decode_go (b64encode_go bs) = Some bs.
Proof.
  induction n as [|n IH]; intros bs Hn Hok; [by destruct bs; simpl in Hn; [|lia]|].
  unfold bytes_ok, byte_ok in Hok.
  destruct bs as [|a [|b [|c bs]]]; [done|..].
  - apply Forall_cons in Hok as [Ha _]. cbn [b64encode_go b64decode_go].
    b64_digit (a / 4). b64_digit (a mod 4 * 16).
    rewrite !decide_True by done. do 2 f_equal. Z.to_euclidean_division_equations; lia.
  - rewrite !Forall_cons in Hok. destruct Hok as (Ha & Hb & _).
    cbn [b64encode_go b64decode_go].
    b64_digit (a / 4). b64_digit (a mod 4 * 16 + b / 16).
    rewrite decide_True by done. b64_digit (b mod 16 * 4).
    do 3 f_equal; [|f_equal]; Z.to_euclidean_division_equations; lia.
  - rewrite !Forall_cons in Hok. destruct Hok as (Ha & Hb & Hc & Hok).
    cbn [b64encode_go b64decode_go].
    b64_digit (a / 4). b64_digit (a mod 4 * 16 + b / 16).
    destruct (b64_char_val (c mod 64)) as [E3 N3]; [Z.to_euclidean_division_equations; lia|].
    rewrite (decide_False _ _ N3). b64_digit (b mod 16 * 4 + c / 64).
    rewrite E3. cbn [mbind option_bind].
    rewrite IH by (simpl in *; first [lia|done]). cbn [mbind option_bind].
    do 2 f_equal; [|f_equal; [|f_equal]]; Z.to_euclidean_division_equations; lia.
Qed.

Lemma b64_roundtrip bs : bytes_ok bs → b64decode (b64encode bs) = Some bs.
Proof.
  intros H. unfold b64decode, b64encode. rewrite chars_of_chars.
  by apply (b64_roundtrip_go (length bs)).
Qed.

Lemma b64_val_bound c n : b64_val c = Some n → 0 <= n < 64.
Proof.
  unfold b64_val, is_upper, is_lower, is_digit. intros H.
  repeat case_match; simplify_eq; breflect; lia.
Qed.

(** What is decoded are bytes. *)
Lemma b64decode_go_ok n : ∀ l bs, (length l <= n)%nat → b64decode_go l = Some bs → bytes_ok bs.
Proof.
  induction n as [|n IH]; intros l bs Hn H; [by destruct l; simplify_eq/=; [constructor|lia]|].
  destruct l as [|c0 [|c1 [|c2 [|c3 l]]]]; simplify_eq/=; [constructor|].
  destruct (b64_val c0) as [s0|] eqn:E0; [|done]. destruct (b64_val c1) as [s1|] eqn:E1; [|done].
  apply b64_val_bound in E0, E1. cbn [mbind option_bind] in H. unfold bytes_ok, byte_ok in *.
  case_decide.
  - destruct l; [|done]. case_decide.
    + injection H as <-. repeat constructor; Z.to_euclidean_division_equations; lia.
    + destruct (b64_val c2) as [s2|] eqn:E2; [|done]. apply b64_val_bound in E2. injection H as <-.
      repeat constructor; Z.to_euclidean_division_equations; lia.
  - destruct (b64_val c2) as [s2|] eqn:E2; [|done]. destruct (b64_val c3) as [s3|] eqn:E3; [|done].
    cbn [mbind option_bind] in H. destruct (b64decode_go l) as [bs'|] eqn:E; [|done].
    apply b64_val_bound in E2, E3. injection H as <-.
    repeat apply Forall_cons_2; try (Z.to_euclidean_division_equations; lia).
    apply (IH l); [lia|done].
Qed.

Lemma b64decode_ok s bs : b64decode s = Some bs → bytes_ok bs.
Proof. by apply (b64decode_go_ok (length (chars s))). Qed.

(** Hexadecimal digits are read in either case. *)
Lemma low_char_hex c : hex_val (low_char c) = hex_val c ∧ hex_space (low_char c) = hex_space c.
Proof. destruct c as [[] [] [] [] [] [] [] []]; vm_compute; done. Qed.

Lemma fromhex_go_lower n : ∀ l, (length l <= n)%nat → fromhex_go (low_char <$> l) = fromhex_go l.
Proof.
  induction n as [|n IH]; intros [|c l] Hn; simpl in Hn; try done; [lia|].
  rewrite fmap_cons. cbn [fromhex_go]. destruct (low_char_hex c) as [-> ->].
  rewrite IH by lia. case_match; [done|]. destruct l as [|c' l]; [done|]. rewrite fmap_cons.
  destruct (low_char_hex c') as [-> _]. simpl in Hn. by rewrite IH by lia.
Qed.

Lemma fromhex_lower s : fromhex (lower s) = fromhex s.
Proof.
  unfold fromhex, lower. rewrite chars_of_chars. by apply (fromhex_go_lower (length (chars s))).
Qed.

(** ** Wall-clock instants

    An aware UTC [datetime] is the number of microseconds since the Unix
    epoch; [isoformat] prints its civil date and time. *)

Definition datetime : Type := Z.

Definition civil_of_days (days : Z) : Z * Z * Z :=
  let z := days + 719468 in
  let era := z / 146097 in
  let doe := z mod 146097 in
  let yoe := (doe - doe / 1460 + doe / 36524 - doe / 146096) / 365 in
  let doy := doe - (365 * yoe + yoe / 4 - yoe / 100) in
  let mp := (5 * doy + 2) / 153 in
  let d := doy - (153 * mp + 2) / 5 + 1 in
  let m := if mp <? 10 then mp + 3 else mp - 9 in
  let y := yoe + era * 400 + (if m <=? 2 then 1 else 0) in
  (y, m, d).

Definition isoformat (t : datetime) : string :=
  let micros := t mod 1000000 in
  let secs := t / 1000000 in
  let days := secs / 86400 in
  let sod := secs mod 86400 in
  let '(y, m, d) := civil_of_days days in
  of_chars (padded 4 y ++ chars "-" ++ padded 2 m ++ chars "-" ++ padded 2 d ++
    chars "T" ++ padded 2 (sod / 3600) ++ chars ":" ++
    padded 2 (sod / 60 mod 60) ++ chars ":" ++ padded 2 (sod mod 60) ++
    (if micros =? 0 then [] else chars "." ++ padded 6 micros) ++ chars "+00:00").

Example isoformat_epoch : isoformat 0 = "1970-01-01T00:00:00+00:00".
Proof. reflexivity. Qed.
Example isoformat_2026 : isoformat 1786277106000007 = "2026-08-09T12:05:06.000007+00:00".
Proof. vm_compute. reflexivity. Qed.
