(* ===== verification/Utf8.v ===== *)
(** * UTF-8, as [str.encode("utf-8")] and [bytes.decode("utf-8")] do it

    A [str] that may hold any Unicode text is a list of code points.  The
    strict codec of the standard library: a lone surrogate has no encoding
    ([UnicodeEncodeError]); a truncated, overlong, surrogate or out-of-range
    sequence has no decoding ([UnicodeDecodeError]). *)

From S2P Require Import Prelude Text.

Open Scope Z_scope.

Definition unicode : Type := list Z.

(** Unicode scalar values: code points that are not surrogates. *)
Definition is_scalar (c : Z) : bool :=
  ((0 <=? c) && (c <? 55296)) || ((57344 <=? c) && (c <=? 1114111)).

Definition utf8_char (c : Z) : bytes :=
  if c <? 128 then [c]
  else if c <? 2048 then [192 + c / 64; 128 + c mod 64]
  else if c <? 65536 then
    [224 + c / 64 / 64; 128 + (c / 64) mod 64; 128 + c mod 64]
  else
    [240 + c / 64 / 64 / 64; 128 + (c / 64 / 64) mod 64; 128 + (c / 64) mod 64;
     128 + c mod 64].

(** [s.encode("utf-8")] *)
Fixpoint utf8_encode (s : unicode) : option bytes :=
  match s with
  | [] => Some []
  | c :: s' => if is_scalar c then (utf8_char c ++.) <$> utf8_encode s' else None
  end.

Definition is_cont (b : Z) : bool := (128 <=? b) && (b <=? 191).

Definition between (lo b hi : Z) : bool := (lo <=? b) && (b <=? hi).

(** [b.decode("utf-8")] *)
Fixpoint utf8_decode (l : bytes) : option unicode :=
  match l with
  | [] => Some []
  | b0 :: l1 =>
      if b0 <? 128 then (b0 ::.) <$> utf8_decode l1 else
      match l1 with
      | [] => None
      | b1 :: l2 =>
          if negb (is_cont b1) then None
          else if between 192 b0 223 then
            let c := (b0 - 192) * 64 + (b1 - 128) in
            if 128 <=? c then (c ::.) <$> utf8_decode l2 else None
          else
          match l2 with
          | [] => None
          | b2 :: l3 =>
              if negb (is_cont b2) then None
              else if between 224 b0 239 then
                let c := ((b0 - 224) * 64 + (b1 - 128)) * 64 + (b2 - 128) in
                if (2048 <=? c) && is_scalar c
                then (c ::.) <$> utf8_decode l3 else None
              else
              match l3 with
              | [] => None
              | b3 :: l4 =>
                  if negb (is_cont b3) then None
                  else if between 240 b0 247 then
                    let c := (((b0 - 240) * 64 + (b1 - 128)) * 64 + (b2 - 128)) * 64
                             + (b3 - 128) in
                    if (65536 <=? c) && is_scalar c
                    then (c ::.) <$> utf8_decode l4 else None
                  else None
              end
          end
      end
  end.

Lemma is_cont_tail x : is_cont (128 + x mod 64) = true.
Proof. unfold is_cont. pose proof (Z.mod_pos_bound x 64). apply andb_true_iff. lia. Qed.

Lemma is_scalar_bounds c : is_scalar c = true → 0 <= c <= 1114111.
Proof. unfold is_scalar. rewrite orb_true_iff, !andb_true_iff. lia. Qed.

Lemma between_true lo b hi : lo <= b <= hi → between lo b hi = true.
Proof. unfold between. rewrite andb_true_iff. lia. Qed.

Lemma between_false lo b hi : hi < b → between lo b hi = false.
Proof. unfold between. rewrite andb_false_iff. lia. Qed.

Lemma ltb_no a b : b <= a → (a <? b) = false.
Proof. rewrite Z.ltb_ge. done. Qed.

(** One character decodes to itself, whatever follows. *)
Lemma utf8_decode_char c l :
  is_scalar c = true → utf8_decode (utf8_char c ++ l) = (c ::.) <$> utf8_decode l.
Proof.
  intros Hc. pose proof (is_scalar_bounds c Hc) as Hb. unfold utf8_char.
  pose proof (Z.div_mod c 64 ltac:(lia)) as D0. pose proof (Z.mod_pos_bound c 64 ltac:(lia)) as M0.
  pose proof (Z.div_mod (c / 64) 64 ltac:(lia)) as D1.
  pose proof (Z.mod_pos_bound (c / 64) 64 ltac:(lia)) as M1.
  pose proof (Z.div_mod (c / 64 / 64) 64 ltac:(lia)) as D2.
  pose proof (Z.mod_pos_bound (c / 64 / 64) 64 ltac:(lia)) as M2.
  destruct (Z.ltb_spec c 128); [simpl; by rewrite (proj2 (Z.ltb_lt c 128))|].
  destruct (Z.ltb_spec c 2048); [|destruct (Z.ltb_spec c 65536)];
    cbn [app utf8_decode]; rewrite !is_cont_tail; cbn [negb].
  - rewrite ltb_no by lia. rewrite between_true by lia.
    replace ((192 + c / 64 - 192) * 64 + (128 + c mod 64 - 128)) with c by lia.
    by rewrite (proj2 (Z.leb_le 128 c)).
  - rewrite ltb_no by lia. rewrite between_false, between_true by lia.
    match goal with |- context [2048 <=? ?x] => replace x with c by lia end.
    rewrite Hc. by rewrite (proj2 (Z.leb_le 2048 c)).
  - rewrite ltb_no by lia. rewrite !between_false, between_true by lia.
    match goal with |- context [65536 <=? ?x] => replace x with c by lia end.
    rewrite Hc. by rewrite (proj2 (Z.leb_le 65536 c)).
Qed.

Lemma utf8_roundtrip s b : utf8_encode s = Some b → utf8_decode b = Some s.
Proof.
  revert b. induction s as [|c s IH]; intros b; simpl; [by intros [= <-]|].
  destruct (is_scalar c) eqn:Hc; [|done].
  destruct (utf8_encode s) as [b'|] eqn:Hs; [|done]. intros [= <-].
  rewrite utf8_decode_char by done. by rewrite (IH b').
Qed.

Lemma utf8_char_ok c : is_scalar c = true → bytes_ok (utf8_char c).
Proof.
  intros Hb%is_scalar_bounds. unfold utf8_char, bytes_ok, byte_ok.
  repeat case_match; breflect; repeat constructor; Z.to_euclidean_division_equations; lia.
Qed.

Lemma utf8_encode_ok s b : utf8_encode s = Some b → bytes_ok b.
Proof.
  revert b. induction s as [|c s IH]; intros b; simpl; [intros [= <-]; constructor|].
  destruct (is_scalar c) eqn:Hc; [|done].
  destruct (utf8_encode s) as [b'|] eqn:Hs; [|done]. intros [= <-].
  apply Forall_app. split; [by apply utf8_char_ok | by apply IH].
Qed.

(** [text.encode("ascii")], as the text the byte functions take *)
Definition ascii_text (s : unicode) : option string :=
  if forallb (λ c, (0 <=? c) && (c <? 128)) s
  then Some (of_chars ((λ c, Ascii.ascii_of_N (Z.to_N c)) <$> s)) else None.

(** Text of ASCII characters. *)
Definition ascii_string (s : string) : Prop := Forall (λ c, code c < 128) (chars s).

Lemma ascii_text_encode s : ascii_string s → ascii_text (encode s) = Some s.
Proof.
  intros H. unfold ascii_text, encode.
  assert (forallb (λ c, (0 <=? c) && (c <? 128)) (code <$> chars s) = true) as ->.
  { apply forallb_forall. intros c Hc. apply list_elem_of_In, list_elem_of_fmap in Hc as (a & -> & Ha).
    unfold ascii_string in H. rewrite Forall_forall in H. pose proof (H a Ha) as Hl. destruct (code_bound a) as [Hg _].
    cbn in Hl. apply andb_true_iff. split; lia. }
  f_equal. rewrite <- (of_chars_chars s) at 2. f_equal. rewrite <- list_fmap_compose.
  rewrite <- (list_fmap_id (chars s)) at 2. apply list_fmap_ext. intros i c _. cbn.
  unfold code. rewrite N2Z.id. apply Ascii.ascii_N_embedding.
Qed.

Lemma nth_ascii (l : list Ascii.ascii) d n :
  code d < 128 → Forall (λ c, code c < 128) l → code (nth n l d) < 128.
Proof.
  intros Hd Hl. destruct (nth_in_or_default n l d) as [Hin|Hdef]; [|by rewrite Hdef].
  rewrite Forall_forall in Hl. by apply Hl, list_elem_of_In.
Qed.

Lemma all_ascii_spec s : forallb (λ c, code c <? 128) (chars s) = true → ascii_string s.
Proof.
  intros H. apply Forall_forall. intros c Hc%list_elem_of_In. rewrite forallb_forall in H.
  pose proof (H c Hc). lia.
Qed.

Lemma hexdigest_ascii bs : ascii_string (hexdigest bs).
Proof.
  unfold ascii_string, hexdigest. rewrite chars_of_chars.
  assert (Hc : ∀ n, code (hex_char n) < 128).
  { intros n. apply nth_ascii; [by vm_compute|]. by apply (all_ascii_spec "0123456789abcdef"). }
  induction bs as [|b bs IH]; cbn; [constructor|]. by do 2 (constructor; [apply Hc|]).
Qed.

(** What holds of the alphabet and the padding holds of encoded text. *)
Lemma b64encode_forall (Q : Ascii.ascii → Prop) bs :
  Forall Q b64_alphabet → Q b64_pad → Forall Q (chars (b64encode bs)).
Proof.
  intros HQ Hp. unfold b64encode. rewrite chars_of_chars.
  assert (Hc : ∀ n, Q (b64_char n)).
  { intros n. unfold b64_char. match goal with |- Q (nth ?i ?l ?d) => destruct (nth_in_or_default i l d) as [Hin|Hdef] end.
    - rewrite Forall_forall in HQ. by apply HQ, list_elem_of_In.
    - rewrite Hdef. by inversion HQ. }
  enough (H : ∀ n bs, (length bs <= n)%nat → Forall Q (b64encode_go bs)) by (by eapply H).
  clear bs. induction n as [|n IH]; intros [|a [|b [|c bs]]] Hl; cbn in *; try lia; repeat constructor; auto.
  apply IH. lia.
Qed.

Lemma b64encode_ascii bs : ascii_string (b64encode bs).
Proof.
  apply b64encode_forall; [|by vm_compute].
  by apply (all_ascii_spec "ABCDEFGHIJKLMNOPQRSTUVWXYZabcdefghijklmnopqrstuvwxyz0123456789+/").
Qed.

(** [s.strip(chars)] for a class of characters *)
Fixpoint drop_while (p : Z → bool) (s : unicode) : unicode :=
  match s with c :: s' => if p c then drop_while p s' else s | [] => [] end.
Definition rstrip_by (p : Z → bool) (s : unicode) : unicode := reverse (drop_while p (reverse s)).
Definition strip_by (p : Z → bool) (s : unicode) : unicode := rstrip_by p (drop_while p s).

(** The characters [str.strip()] removes. *)
Definition uni_space (c : Z) : bool :=
  between 9 c 13 || between 28 c 32 || (c =? 133) || (c =? 160) || (c =? 5760)
  || between 8192 c 8202 || (c =? 8232) || (c =? 8233) || (c =? 8239) || (c =? 8287) || (c =? 12288).
Definition uni_strip (s : unicode) : unicode := strip_by uni_space s.
