(* ===== verification/Primitives.v ===== *)
(** * Cryptographic primitives

    The primitives GhostLink calls but does not implement: SHA-256
    ([hashlib]), Ed25519 verification, HKDF-SHA256 and ChaCha20-Poly1305
    (the [cryptography] package).  They are parameters of the model
    ([Primitives]); what the code relies on is stated separately
    ([PrimitiveLaws]): the documented sizes of their outputs, and that
    opening what was sealed under the same key, nonce and associated data
    gives the plaintext back.  [toy_primitives] is an executable instance
    that satisfies the laws; the witnesses run the model with it. *)

From S2P Require Import Prelude Text.

Open Scope Z_scope.

Class Primitives := {
  (** [hashlib.sha256(data).digest()] *)
  sha256 : bytes → bytes;
  (** [Ed25519PublicKey.from_public_bytes(key).verify(signature, message)]
      completes without raising *)
  ed25519_verify : bytes → bytes → bytes → bool;
  (** [HKDF(SHA256, length=32, salt=None, info=info).derive(seed)] *)
  hkdf32 : bytes → bytes → bytes;
  (** [ChaCha20Poly1305(key).encrypt(nonce, plaintext, aad)] *)
  aead_encrypt : bytes → bytes → bytes → bytes → bytes;
  (** [ChaCha20Poly1305(key).decrypt(nonce, ciphertext, aad)], [None] for
      [InvalidTag] *)
  aead_decrypt : bytes → bytes → bytes → bytes → option bytes;
}.

Class PrimitiveLaws (P : Primitives) : Prop := {
  sha256_ok : ∀ d, bytes_ok (sha256 d);
  sha256_length : ∀ d, length (sha256 d) = 32%nat;
  hkdf32_length : ∀ seed info, length (hkdf32 seed info) = 32%nat;
  aead_decrypt_encrypt : ∀ k n p a,
    aead_decrypt k n (aead_encrypt k n p a) a = Some p;
  (** the ciphertext is followed by a tag of 16 bytes *)
  aead_encrypt_length : ∀ k n p a, length (aead_encrypt k n p a) = (length p + 16)%nat;
  aead_encrypt_ok : ∀ k n p a, bytes_ok p → bytes_ok (aead_encrypt k n p a);
}.

(** ** An executable instance

    Not cryptography: a positional checksum as the hash, a signature that
    is the hash of key and message (twice), a cipher that appends a tag. *)

Definition toy_mix (d : bytes) : Z := foldl (λ acc b, Z.land (acc * 31 + b) 65535) 7 d.

Definition toy_hash (d : bytes) : bytes :=
  let x := toy_mix d in (λ i, (x + i * (x / 256)) mod 256) <$> seqZ 0 32.

Definition toy_sign (key msg : bytes) : bytes :=
  toy_hash (key ++ msg) ++ toy_hash (msg ++ key).

#[export] Instance toy_primitives : Primitives := {|
  sha256 := toy_hash;
  ed25519_verify key sig msg := bool_decide (sig = toy_sign key msg);
  hkdf32 seed info := toy_hash (seed ++ info);
  aead_encrypt k n p a := take 16 (toy_hash (k ++ n ++ p ++ a)) ++ p;
  aead_decrypt k n c a :=
    let p := drop 16 c in
    if bool_decide (take 16 c = take 16 (toy_hash (k ++ n ++ p ++ a))) then Some p else None;
|}.

Lemma toy_hash_length d : length (toy_hash d) = 32%nat.
Proof. unfold toy_hash. by rewrite length_fmap, length_seqZ. Qed.

#[export] Instance toy_laws : PrimitiveLaws toy_primitives.
Proof.
  split.
  - intros d. apply Forall_fmap, Forall_forall. intros i _. apply Z.mod_pos_bound. lia.
  - apply toy_hash_length.
  - intros. apply toy_hash_length.
  - intros k n p a. unfold aead_decrypt, aead_encrypt, toy_primitives. cbv zeta.
    rewrite drop_app_length' by (by rewrite length_take, toy_hash_length).
    rewrite take_app_length' by (by rewrite length_take, toy_hash_length).
    by rewrite bool_decide_true.
  - intros k n p a. unfold aead_encrypt, toy_primitives.
    rewrite length_app, length_take, toy_hash_length. lia.
  - intros k n p a Hp. apply Forall_app. split; [|done]. apply Forall_take, Forall_fmap, Forall_forall.
    intros i _. apply Z.mod_pos_bound. lia.
Qed.

Lemma aead_encrypt_nonempty {P : Primitives} {L : PrimitiveLaws P} k n p a :
  aead_encrypt k n p a ≠ [].
Proof. intros H%(f_equal length). rewrite aead_encrypt_length in H. simpl in H. lia. Qed.
