(* ===== verification/Crypto.v ===== *)
(** * Sealing and key agreement of the secure channel

    [messaging/protocol/crypto.py].  X25519 and HKDF-SHA256 with a salt are
    parameters ([KexPrimitives]) with their documented laws; nonces and
    private keys are arguments. *)

From S2P Require Import Prelude Text Primitives.

Open Scope Z_scope.

(** ** Parameters *)

Class KexPrimitives := {
  (** the raw public key of a private key *)
  x25519_public : bytes → bytes;
  (** [private_key.exchange(X25519PublicKey.from_public_bytes(public))],
      [None] for the [ValueError] of a degenerate public key *)
  x25519_exchange : bytes → bytes → option bytes;
  (** [HKDF(SHA256, length=32, salt, info).derive(secret)] *)
  hkdf_salted : bytes → bytes → bytes → bytes;
}.

Class KexLaws (K : KexPrimitives) : Prop := {
  x25519_public_ok : ∀ a, bytes_ok (x25519_public a) ∧ length (x25519_public a) = 32%nat;
  x25519_agrees : ∀ a b, x25519_exchange a (x25519_public b) = x25519_exchange b (x25519_public a);
  x25519_defined : ∀ a b, is_Some (x25519_exchange a (x25519_public b));
}.

(** A stand-in that satisfies the laws: the shared secret is a sum. *)
#[export] Instance toy_kex : KexPrimitives := {|
  x25519_public a := replicate 32 (toy_mix a mod 256);
  x25519_exchange a p := Some [toy_mix a mod 256 + default 0 (head p)];
  hkdf_salted salt info secret := toy_hash (salt ++ info ++ secret);
|}.

#[export] Instance toy_kex_laws : KexLaws toy_kex.
Proof.
  split.
  - intros a. split; [|apply length_replicate]. apply Forall_replicate.
    unfold byte_ok. apply Z.mod_pos_bound. lia.
  - intros a b. cbn. do 2 f_equal. lia.
  - intros a b. by eexists.
Qed.

(** ** The functions *)

Section crypto.
Context {P : Primitives} {K : KexPrimitives}.

Definition HKDF_INFO_SESSION : bytes := encode "ghostlink/session/v1".
Definition NONCE_BYTES : nat := 12.
Definition PUBLIC_KEY_BYTES : nat := 32.

(** [derive_session_key]; [None] is a [ValueError]. *)
Definition derive_session_key (private_key peer_public transcript : bytes) : option bytes :=
  if negb (length peer_public =? PUBLIC_KEY_BYTES)%nat then None
  else shared ← x25519_exchange private_key peer_public;
       Some (hkdf_salted (sha256 transcript) HKDF_INFO_SESSION shared).

(** [seal] with the nonce it draws *)
Definition seal (key nonce plaintext aad : bytes) : bytes :=
  nonce ++ aead_encrypt key nonce plaintext aad.

(** [open_sealed]; [None] is a [DecryptionError]. *)
Definition open_sealed (key sealed aad : bytes) : option bytes :=
  if (length sealed <=? NONCE_BYTES)%nat then None
  else aead_decrypt key (take NONCE_BYTES sealed) (drop NONCE_BYTES sealed) aad.

(** Groups of four characters. *)
Fixpoint groups4 (l : list Ascii.ascii) : list (list Ascii.ascii) :=
  match l with
  | a :: b :: c :: d :: l' => [a; b; c; d] :: groups4 l'
  | _ => []
  end.

(** [" ".join(groups)] *)
Fixpoint spaced (l : list (list Ascii.ascii)) : list Ascii.ascii :=
  match l with
  | [] => []
  | [g] => g
  | g :: l' => g ++ chars " " ++ spaced l'
  end.

(** [transcript_fingerprint] *)
Definition transcript_fingerprint (transcript : bytes) : string :=
  of_chars (spaced (groups4 (chars (upper (of_chars (take 32 (chars (hexdigest (sha256 transcript))))))))).
End crypto.

(** ** Lemmas *)

Lemma length_seal {P : Primitives} {L : PrimitiveLaws P} key nonce plaintext aad :
  length (seal key nonce plaintext aad) = (length nonce + (length plaintext + 16))%nat.
Proof. unfold seal. by rewrite length_app, aead_encrypt_length. Qed.

(** What is sealed opens under the same key and associated data. *)
Lemma open_seal {P : Primitives} {L : PrimitiveLaws P} key nonce plaintext aad :
  length nonce = NONCE_BYTES → open_sealed key (seal key nonce plaintext aad) aad = Some plaintext.
Proof.
  intros Hn. unfold open_sealed.
  rewrite (proj2 (Nat.leb_gt _ _)) by (rewrite length_seal, Hn; lia).
  unfold seal. rewrite take_app_length', drop_app_length' by done. apply aead_decrypt_encrypt.
Qed.

Lemma seal_ok {P : Primitives} {L : PrimitiveLaws P} key nonce plaintext aad :
  bytes_ok nonce → bytes_ok plaintext → bytes_ok (seal key nonce plaintext aad).
Proof. intros Hn Hp. apply Forall_app. split; [done|by apply aead_encrypt_ok]. Qed.

(** Both ends of the exchange derive the same key from the same transcript. *)
Lemma session_keys_agree {P : Primitives} {K : KexPrimitives} {KL : KexLaws K} a b transcript :
  ∃ key, derive_session_key a (x25519_public b) transcript = Some key ∧
    derive_session_key b (x25519_public a) transcript = Some key.
Proof.
  unfold derive_session_key. rewrite !(proj2 (x25519_public_ok _)). cbn [negb Nat.eqb PUBLIC_KEY_BYTES].
  rewrite <- (x25519_agrees b a). destruct (x25519_defined b a) as [s Hs]. rewrite Hs. by eexists.
Qed.
