(* ===== verification/Ids.v ===== *)
(** * Identifiers

    Group, room, fingerprint, handle and invite-token formats:
    [groups/ids.py], [identity/fingerprint.py], [invites/tokens.py] and
    the format check of [models/room.py]. *)

From Stdlib Require Import Ascii.
From S2P Require Import Prelude Text Primitives.

Open Scope Z_scope.

(** ** Fixed-length patterns

    Every [re.fullmatch] of this component is a sequence of character
    classes of known length. *)

Definition cclass : Type := ascii → bool.

Fixpoint fullmatch (p : list cclass) (l : list ascii) : bool :=
  match p, l with
  | [], [] => true
  | f :: p', c :: l' => f c && fullmatch p' l'
  | _, _ => false
  end.

Definition lit (s : string) : list cclass := (λ c d, bool_decide (c = d)) <$> chars s.

Lemma fullmatch_app p q l1 l2 :
  fullmatch p l1 = true → fullmatch q l2 = true → fullmatch (p ++ q) (l1 ++ l2) = true.
Proof.
  revert l1. induction p as [|f p IH]; intros [|c l1] H1 H2; simpl in *; try done.
  breflect. rewrite H. simpl. auto.
Qed.

Lemma fullmatch_lit s : fullmatch (lit s) (chars s) = true.
Proof. induction s as [|c s IH]; simpl; [done|]. by rewrite bool_decide_true. Qed.

Lemma fullmatch_length p l : fullmatch p l = true → length l = length p.
Proof.
  revert l. induction p as [|f p IH]; intros [|c l] H; simpl in *; try done.
  breflect. auto.
Qed.

Lemma fullmatch_Forall (P : ascii → Prop) p l :
  fullmatch p l = true → Forall (λ f : cclass, ∀ c, f c = true → P c) p → Forall P l.
Proof.
  revert l. induction p as [|f p IH]; intros [|c l] H HP; simpl in *; try done.
  breflect. apply Forall_cons in HP as [Hf HP]. constructor; auto.
Qed.

Lemma fullmatch_replicate f n l :
  length l = n → Forall (λ c, f c = true) l → fullmatch (replicate n f) l = true.
Proof.
  intros <- H. induction H as [|c l Hc _ IH]; simpl; [done|]. by rewrite Hc.
Qed.

(** ** [constants/net.py] *)

Definition ROOM_ID_ALPHABET : string := "ABCDEFGHJKLMNPQRSTUVWXYZ23456789".
Definition GROUP_ID_PREFIX : string := "gl-group".
Definition ROOM_ID_PREFIX : string := "gl-room".
Definition INVITE_LINK_TOKEN_LENGTH : nat := 20.
Definition INVITE_ID_PREFIX : string := "gi_".

(** [char in ROOM_ID_ALPHABET] for one character. *)
Definition in_alphabet (c : ascii) : bool := bool_decide (c ∈ chars ROOM_ID_ALPHABET).

(** ** Group and room identifiers *)

(** [^PREFIX-(?:[A]{4}-){2}[A]{4}$] *)
Definition id_pattern (prefix : string) : list cclass :=
  lit prefix ++ lit "-" ++ replicate 4 in_alphabet ++ lit "-" ++
  replicate 4 in_alphabet ++ lit "-" ++ replicate 4 in_alphabet.

Definition is_valid_group_id (candidate : string) : bool :=
  fullmatch (id_pattern GROUP_ID_PREFIX) (chars candidate).

Definition is_valid_room_id (candidate : string) : bool :=
  fullmatch (id_pattern ROOM_ID_PREFIX) (chars (strip candidate)).

(** One draw of [secrets.choice(ROOM_ID_ALPHABET)] is an index below 32. *)
Definition draw_ok (i : Z) : Prop := 0 <= i < 32.
Definition choice (i : Z) : ascii := nth (Z.to_nat i) (chars ROOM_ID_ALPHABET) "A"%char.

(** [generate_group_id]: three groups of four drawn characters. *)
Definition generate_group_id (draws : list Z) : string :=
  let cs := choice <$> draws in
  of_chars (chars GROUP_ID_PREFIX ++ chars "-" ++ take 4 cs ++ chars "-" ++
            take 4 (drop 4 cs) ++ chars "-" ++ take 4 (drop 8 cs)).

(** [normalize_group_id]: strip, upper-case, drop blanks and the prefix. *)
Definition normalize_group_id (candidate : string) : string :=
  let cleaned := filter (λ c, c ≠ " "%char) (chars (upper (strip candidate))) in
  let body := match strip_prefix (chars (upper GROUP_ID_PREFIX +:+ "-")) cleaned with
              | Some rest => rest
              | None => cleaned
              end in
  GROUP_ID_PREFIX +:+ "-" +:+ of_chars body.

Lemma choice_alphabet i : draw_ok i → in_alphabet (choice i) = true.
Proof.
  by apply (forallb_range (λ i, in_alphabet (choice i)) 32 ltac:(by vm_compute)).
Qed.

Lemma generate_group_id_valid draws :
  length draws = 12%nat → Forall draw_ok draws →
  is_valid_group_id (generate_group_id draws) = true.
Proof.
  intros Hlen Hok. unfold is_valid_group_id, generate_group_id, id_pattern.
  rewrite chars_of_chars.
  assert (Hcs : Forall (λ c, in_alphabet c = true) (choice <$> draws)).
  { apply Forall_fmap. eapply Forall_impl; [done|]. apply choice_alphabet. }
  assert (Hl : length (choice <$> draws) = 12%nat) by by rewrite length_fmap.
  repeat apply fullmatch_app; try apply fullmatch_lit;
    apply fullmatch_replicate; rewrite ?length_take, ?length_drop, ?Hl; try done;
    by repeat first [apply Forall_take | apply Forall_drop].
Qed.

(** ** Fingerprints and handles *)

Section identity.
Context `{P : Primitives}.

(** [identity_fingerprint]; [None] is its [ValueError]. *)
Definition identity_fingerprint (public_key : bytes) : option string :=
  if decide (length public_key = 32%nat) then
    let digest := chars (upper (hexdigest (sha256 public_key))) in
    Some ("GLFP-" +:+ of_chars (take 4 digest) +:+ "-" +:+
          of_chars (take 4 (drop 4 digest)) +:+ "-" +:+
          of_chars (take 4 (drop 8 digest)))
  else None.

(** [identity_id_for]; [None] is its [ValueError]. *)
Definition identity_id_for (public_key : bytes) : option string :=
  if decide (length public_key = 32%nat) then
    let digest := sha256 public_key in
    let value := Z.land (nth 0 digest 0 * 65536 + nth 1 digest 0 * 256 + nth 2 digest 0)
                        1048575 in
    Some ("GL-" +:+ of_chars ((λ shift, choice (Z.land (Z.shiftr value shift) 31))
                               <$> [15; 10; 5; 0]))
  else None.
End identity.

Definition fingerprint_pattern : list cclass :=
  lit "GLFP" ++ lit "-" ++ replicate 4 is_hex_upper ++ lit "-" ++
  replicate 4 is_hex_upper ++ lit "-" ++ replicate 4 is_hex_upper.

(** The pattern itself, on a string that is already stripped and upper. *)
Definition canonical_fingerprint (s : string) : bool :=
  fullmatch fingerprint_pattern (chars s).

Definition is_valid_fingerprint (candidate : string) : bool :=
  canonical_fingerprint (upper (strip candidate)).

Definition is_valid_identity_id (candidate : string) : bool :=
  let cleaned := upper (strip candidate) in
  (str_len cleaned =? 7)%nat && startswith cleaned "GL-" &&
  forallb in_alphabet (drop 3 (chars cleaned)).

(** ** Invite tokens *)

Definition token_pattern : list cclass := replicate INVITE_LINK_TOKEN_LENGTH in_alphabet.

Definition generate_invite_token (draws : list Z) : string := of_chars (choice <$> draws).

Definition is_valid_invite_token (candidate : string) : bool :=
  fullmatch token_pattern (chars (upper (strip candidate))).

(** [normalize_invite_token]; [None] is [InviteValidationError]. *)
Definition normalize_invite_token (candidate : string) : option string :=
  let cleaned := upper (strip candidate) in
  if fullmatch token_pattern (chars cleaned) then Some cleaned else None.

Section tokens.
Context `{P : Primitives}.

Definition token_hash_for (token : string) : option string :=
  (λ t, hexdigest (sha256 (encode t))) <$> normalize_invite_token token.

Definition invite_id_for_token (token : string) : option string :=
  (λ h, INVITE_ID_PREFIX +:+ of_chars (take 10 (chars h))) <$> token_hash_for token.
End tokens.

Definition is_valid_invite_id (candidate : string) : bool :=
  let cleaned := lower (strip candidate) in
  match strip_prefix (chars INVITE_ID_PREFIX) (chars cleaned) with
  | Some rest => (length rest =? 10)%nat && forallb is_hex_lower rest
  | None => false
  end.

Definition LINK_PREFIX : string := "gl://join/".

(** [format_invite_link] *)
Definition format_invite_link (token : string) : option string :=
  (λ t, LINK_PREFIX +:+ t) <$> normalize_invite_token token.

Definition looks_like_invite_link (candidate : string) : bool :=
  startswith (lower (strip candidate)) LINK_PREFIX.

(** [cleaned.partition(sep)] for a separator of the link grammar: the text
    before the first occurrence, whether there is one, the text after. *)
Fixpoint partition (sep l : list ascii) : list ascii * bool * list ascii :=
  match strip_prefix sep l with
  | Some rest => ([], true, rest)
  | None =>
      match l with
      | [] => ([], false, [])
      | c :: l' => let '(a, found, b) := partition sep l' in
                   if found then (c :: a, true, b) else (l, false, [])
      end
  end.

(** The three refusals of [parse_invite_link]. *)
Inductive link_error := LinkScheme | LinkHost | LinkToken.

(** A character class matched with [re.IGNORECASE]. *)
Definition nocase (f : cclass) : cclass := λ c, f c || f (up_char c) || f (low_char c).

Definition link_pattern : list cclass :=
  nocase <$> (lit LINK_PREFIX ++ token_pattern).

Definition parse_invite_link (candidate : string) : result link_error string :=
  let cleaned := strip candidate in
  let '(scheme_part, separator, remainder) := partition (chars "://") (chars cleaned) in
  if negb separator || negb (bool_decide (lower (of_chars scheme_part) = "gl"))
  then Err LinkScheme
  else
    let '(host_part, separator2, _) := partition (chars "/") remainder in
    if negb separator2 || negb (bool_decide (lower (of_chars host_part) = "join"))
    then Err LinkHost
    else if fullmatch link_pattern (chars cleaned)
    then Ok (upper (of_chars (drop (str_len LINK_PREFIX) (chars cleaned))))
    else Err LinkToken.

(** ** Canonical forms are fixed by normalisation *)

Lemma hex_upper_plain c : is_hex_upper c = true → plain c = true.
Proof.
  unfold is_hex_upper, is_digit, plain, is_space, is_lower. intros H.
  repeat match goal with |- context [(?a <=? ?b)] => destruct (Z.leb_spec a b) end;
  repeat match goal with H : context [(?a <=? ?b)] |- _ => destruct (Z.leb_spec a b) end;
  simpl in *; try done; lia.
Qed.

Lemma alphabet_plain c : in_alphabet c = true → plain c = true.
Proof.
  intros H. unfold in_alphabet in H. breflect.
  assert (Hall : forallb plain (chars ROOM_ID_ALPHABET) = true) by by vm_compute.
  rewrite forallb_forall in Hall. apply Hall. by apply list_elem_of_In.
Qed.

Lemma lit_class (Q : ascii → Prop) s :
  Forall Q (chars s) → Forall (λ f : cclass, ∀ c, f c = true → Q c) (lit s).
Proof.
  intros H. unfold lit. apply Forall_fmap. eapply Forall_impl; [done|].
  intros c Hc d Hd. simpl in Hd. breflect. by subst.
Qed.

Lemma replicate_class (Q : ascii → Prop) n (f : cclass) :
  (∀ c, f c = true → Q c) → Forall (λ g : cclass, ∀ c, g c = true → Q c) (replicate n f).
Proof. intros H. by apply Forall_replicate. Qed.

Lemma canonical_fingerprint_chars s :
  canonical_fingerprint s = true → Forall (λ c, plain c = true) (chars s).
Proof.
  intros H. eapply fullmatch_Forall; [exact H|]. unfold fingerprint_pattern.
  repeat apply Forall_app_2; first
    [apply lit_class; by repeat constructor | apply replicate_class, hex_upper_plain].
Qed.

Lemma canonical_fingerprint_norm s :
  canonical_fingerprint s = true → upper (strip s) = s.
Proof.
  intros H%canonical_fingerprint_chars. rewrite strip_plain by done. by apply upper_plain.
Qed.

Lemma is_valid_canonical_fingerprint s :
  canonical_fingerprint s = true → is_valid_fingerprint s = true.
Proof.
  intros H. unfold is_valid_fingerprint. by rewrite canonical_fingerprint_norm.
Qed.

Lemma valid_group_id_length s : is_valid_group_id s = true → str_len s = 23%nat.
Proof. apply fullmatch_length. Qed.

Lemma canonical_fingerprint_length s : canonical_fingerprint s = true → str_len s = 19%nat.
Proof. apply fullmatch_length. Qed.

Lemma up_hex c : is_hex_lower c = true → is_hex_upper (up_char c) = true.
Proof.
  destruct c as [[] [] [] [] [] [] [] []]; vm_compute; done.
Qed.

Section fingerprint_facts.
Context {P : Primitives} {L : PrimitiveLaws P}.

Lemma identity_fingerprint_canonical key fp :
  identity_fingerprint key = Some fp → canonical_fingerprint fp = true.
Proof.
  unfold identity_fingerprint. case_decide as Hlen; [|done]. intros [= <-].
  set (digest := chars (upper (hexdigest (sha256 key)))).
  assert (Hl : length digest = 64%nat).
  { unfold digest, upper. rewrite chars_of_chars, length_fmap.
    change (str_len (hexdigest (sha256 key)) = 64%nat).
    by rewrite hexdigest_length, sha256_length. }
  assert (Hd : Forall (λ c, is_hex_upper c = true) digest).
  { unfold digest, upper. rewrite chars_of_chars. apply Forall_fmap.
    eapply Forall_impl; [apply hexdigest_hex, sha256_ok|]. apply up_hex. }
  clearbody digest. unfold canonical_fingerprint, fingerprint_pattern.
  rewrite !chars_app, !chars_of_chars.
  change (chars "GLFP-") with (chars "GLFP" ++ chars "-"). rewrite <- app_assoc.
  repeat apply fullmatch_app; try apply fullmatch_lit;
    apply fullmatch_replicate; rewrite ?length_take, ?length_drop, ?Hl; try done;
    by repeat first [apply Forall_take | apply Forall_drop].
Qed.
End fingerprint_facts.

(** ** Tokens and links *)

Lemma normalize_invite_token_Some s t :
  normalize_invite_token s = Some t ↔
  t = upper (strip s) ∧ fullmatch token_pattern (chars t) = true.
Proof. unfold normalize_invite_token. split; [intros H; by case_match; simplify_eq|].
  intros [-> H]. by rewrite H.
Qed.

Lemma token_plain t :
  fullmatch token_pattern (chars t) = true → Forall (λ c, plain c = true) (chars t).
Proof.
  intros H. eapply fullmatch_Forall; [exact H|]. apply replicate_class, alphabet_plain.
Qed.

Lemma normalize_token_idempotent t :
  fullmatch token_pattern (chars t) = true → normalize_invite_token t = Some t.
Proof.
  intros H. apply normalize_invite_token_Some. split; [|done].
  rewrite strip_plain, upper_plain by by apply token_plain. done.
Qed.

Lemma fullmatch_nocase p l : fullmatch p l = true → fullmatch (nocase <$> p) l = true.
Proof.
  revert l. induction p as [|f p IH]; intros [|c l] H; simpl in *; try done.
  breflect. unfold nocase. rewrite H. simpl. auto.
Qed.

Lemma drop_link_prefix t :
  drop (str_len LINK_PREFIX) (chars (LINK_PREFIX +:+ t)) = chars t.
Proof. unfold str_len. by rewrite chars_app, drop_app_length. Qed.

Lemma parse_format_link t :
  fullmatch token_pattern (chars t) = true →
  parse_invite_link (LINK_PREFIX +:+ t) = Ok t.
Proof.
  intros H. pose proof (token_plain t H) as Hp.
  assert (Hs : strip (LINK_PREFIX +:+ t) = LINK_PREFIX +:+ t).
  { apply strip_id. rewrite chars_app. apply Forall_app_2; [by repeat constructor|].
    eapply Forall_impl; [exact Hp|]. intros c Hc. unfold plain in Hc. by breflect. }
  assert (Hm : fullmatch link_pattern (chars (LINK_PREFIX +:+ t)) = true).
  { unfold link_pattern. apply fullmatch_nocase. rewrite chars_app.
    apply fullmatch_app; [apply fullmatch_lit | done]. }
  unfold parse_invite_link. rewrite Hs. cbv zeta. rewrite Hm, drop_link_prefix.
  rewrite chars_app. cbn -[fullmatch upper].
  by rewrite of_chars_chars, upper_plain.
Qed.

Lemma nocase_alphabet c : nocase in_alphabet c = true → in_alphabet (up_char c) = true.
Proof. destruct c as [[] [] [] [] [] [] [] []]; vm_compute; done. Qed.

Lemma fullmatch_drop p q l :
  fullmatch (p ++ q) l = true → fullmatch q (drop (length p) l) = true.
Proof.
  revert l. induction p as [|f p IH]; intros l H; [done|].
  destruct l as [|c l]; simpl in H; [done|]. breflect. simpl. auto.
Qed.

Lemma parsed_token_valid l :
  fullmatch (nocase <$> token_pattern) l = true →
  fullmatch token_pattern (up_char <$> l) = true.
Proof.
  unfold token_pattern. generalize INVITE_LINK_TOKEN_LENGTH. intros n. revert l.
  induction n as [|n IH]; intros [|c l] H; simpl in *; try done.
  breflect. rewrite nocase_alphabet by done. simpl. by apply IH.
Qed.

Lemma parse_invite_link_valid s t :
  parse_invite_link s = Ok t → fullmatch token_pattern (chars t) = true.
Proof.
  unfold parse_invite_link. cbv zeta. intros H.
  repeat (case_match; try done). simplify_eq.
  unfold upper. rewrite !chars_of_chars. apply parsed_token_valid.
  unfold link_pattern in *. rewrite fmap_app in *.
  match goal with H : fullmatch _ _ = true |- _ => apply fullmatch_drop in H; exact H end.
Qed.

(** Invite links round trip: the link printed for any token that
    normalizes parses back to the normalized token, however the token was
    cased or padded, and whatever parses from any text is a well-formed,
    already normalized token, so the relay and both clients hash the same
    characters. *)
Theorem invite_link_roundtrip token t link :
  normalize_invite_token token = Some t → format_invite_link token = Some link →
  parse_invite_link link = Ok t ∧
  (∀ text t', parse_invite_link text = Ok t' →
     is_valid_invite_token t' = true ∧ normalize_invite_token t' = Some t').
Proof.
  intros Ht Hl. unfold format_invite_link in Hl. rewrite Ht in Hl. simplify_eq/=. split.
  - apply parse_format_link. by apply normalize_invite_token_Some in Ht as [_ ?].
  - intros text t' Hp%parse_invite_link_valid. pose proof (normalize_token_idempotent t' Hp) as Hn.
    split; [|done]. unfold is_valid_invite_token. unfold normalize_invite_token in Hn.
    by case_match.
Qed.

Lemma invite_link_roundtrip_witness :
  parse_invite_link "gl://join/ABCDEFGHJKMNPQRSTVWX" = Ok "ABCDEFGHJKMNPQRSTVWX".
Proof.
  apply (invite_link_roundtrip " abcdefghjkmnpqrstvwx "); vm_compute; reflexivity.
Defined.
