(* ===== verification/Events.v ===== *)
(** * Signed membership events

    [groups/events.py]: the canonical byte strings that owners and members
    sign, Ed25519 verification of them, and the validated [GroupEvent]
    value; the exception families of [exceptions/groups.py] and the group
    name check of [groups/models.py]. *)

From Stdlib Require Import Ascii.
From S2P Require Import Prelude Text Primitives Ids.

Open Scope Z_scope.

(** ** Errors ([exceptions/groups.py]); messages and hints are left out. *)

Inductive GroupError :=
| GroupValidationError | GroupUnknownError | GroupFullError | GroupPermissionError
| GroupNotMemberError | GroupDissolvedError | GroupStateError | GroupEpochError
| GroupConflictError | GroupDefunctError
| ConfigValidationError (** [exceptions/config.py], not a [GroupError] *)
| AssertionError (** a failed Python [assert] *)
| PyValueError (** a [ValueError] the method does not catch *).

#[export] Instance GroupError_eq_dec : EqDecision GroupError.
Proof. solve_decision. Defined.

(** ** Event kinds *)

Inductive GroupEventKind := JOIN | LEFT | REMOVED | DISSOLVED.

#[export] Instance GroupEventKind_eq_dec : EqDecision GroupEventKind.
Proof. solve_decision. Defined.

(** [kind.value] *)
Definition kind_value (k : GroupEventKind) : string :=
  match k with
  | JOIN => "join" | LEFT => "left" | REMOVED => "removed" | DISSOLVED => "dissolved"
  end.

(** ** Canonical forms *)

Definition CREATE_PREFIX : string := "ghostlink/group-create/v1".
Definition ATTEST_PREFIX : string := "ghostlink/group-attest/v1".
Definition EVENT_PREFIX : string := "ghostlink/group-event/v1".

Definition canonical_create_form (name attest_nonce : string) : bytes :=
  encode (CREATE_PREFIX +:+ "|" +:+ name +:+ "|" +:+ attest_nonce).

Definition canonical_attest_form (group_id fingerprint attest_nonce : string) : bytes :=
  encode (ATTEST_PREFIX +:+ "|" +:+ group_id +:+ "|" +:+ fingerprint +:+ "|" +:+ attest_nonce).

Definition canonical_event_string (group_id : string) (epoch : Z) (kind : string)
    (subject_fingerprint stamp : string) : string :=
  EVENT_PREFIX +:+ "|" +:+ group_id +:+ "|" +:+ str_of_Z epoch +:+ "|" +:+ kind +:+ "|" +:+
  subject_fingerprint +:+ "|" +:+ stamp.

Definition canonical_event_form (group_id : string) (epoch : Z) (kind : string)
    (subject_fingerprint : string) (wall_ts : datetime) : bytes :=
  encode (canonical_event_string group_id epoch kind subject_fingerprint (isoformat wall_ts)).

(** ** Verification and key fingerprints *)

Section verification.
Context `{P : Primitives}.

Definition verify_signature (public_key signature message : bytes) : bool :=
  if negb (bool_decide (length public_key = 32%nat)) || bool_decide (signature = [])
  then false
  else ed25519_verify public_key signature message.

(** Malformed hex and a wrong key size both raise [GroupValidationError]. *)
Definition fingerprint_for_key_hex (public_key_hex : string) : result GroupError string :=
  public_key ← of_option (fromhex public_key_hex) GroupValidationError;
  of_option (identity_fingerprint public_key) GroupValidationError.
End verification.

Definition require_valid_fingerprint (candidate : string) : result GroupError string :=
  let cleaned := upper (strip candidate) in
  if is_valid_fingerprint cleaned then Ok cleaned else Err GroupValidationError.

Definition require_valid_group_id (candidate : string) : result GroupError string :=
  let cleaned := normalize_group_id candidate in
  if is_valid_group_id cleaned then Ok cleaned else Err GroupValidationError.

(** ** Group names ([groups/models.py]) *)

Definition GROUP_NAME_MAX_LEN : nat := 48.

Definition is_control (c : ascii) : bool := (code c <? 32) || (code c =? 127).

Definition validate_group_name (name : string) : result GroupError string :=
  let cleaned := strip name in
  if negb ((0 <? str_len cleaned)%nat && (str_len cleaned <=? GROUP_NAME_MAX_LEN)%nat)
  then Err GroupValidationError
  else if existsb is_control (chars cleaned) then Err GroupValidationError
  else Ok cleaned.

(** ** Events *)

Record GroupEvent := mkEvent {
  ev_group_id : string;
  ev_epoch : Z;
  ev_kind : GroupEventKind;
  ev_subject_fingerprint : string;
  ev_wall_ts : datetime;
  ev_signer_fingerprint : string;
  ev_signature : bytes;
}.

(** [GroupEvent.__init__] *)
Definition GroupEvent_init (group_id : string) (epoch : Z) (kind : GroupEventKind)
    (subject_fingerprint : string) (wall_ts : datetime) (signer_fingerprint : string)
    (signature : bytes) : result GroupError GroupEvent :=
  guard_or (is_valid_group_id group_id) GroupValidationError;;
  guard_or (negb (epoch <? 1)) GroupValidationError;;
  require_valid_fingerprint subject_fingerprint;;
  require_valid_fingerprint signer_fingerprint;;
  Ok (mkEvent group_id epoch kind (upper (strip subject_fingerprint)) wall_ts
        (upper (strip signer_fingerprint)) signature).

Definition event_canonical (e : GroupEvent) : bytes :=
  canonical_event_form (ev_group_id e) (ev_epoch e) (kind_value (ev_kind e))
    (ev_subject_fingerprint e) (ev_wall_ts e).

(** [to_dict]: the metadata stored and sent. *)
Record event_dict := {
  ed_group_id : string; ed_epoch : Z; ed_kind : string; ed_subject : string;
  ed_wall_ts : string; ed_signer : string; ed_signature : string;
}.

Definition event_to_dict (e : GroupEvent) : event_dict := {|
  ed_group_id := ev_group_id e;
  ed_epoch := ev_epoch e;
  ed_kind := kind_value (ev_kind e);
  ed_subject := ev_subject_fingerprint e;
  ed_wall_ts := isoformat (ev_wall_ts e);
  ed_signer := ev_signer_fingerprint e;
  ed_signature := b64encode (ev_signature e);
|}.

(** ** Lemmas *)

Lemma require_valid_fingerprint_canonical fp :
  canonical_fingerprint fp = true → require_valid_fingerprint fp = Ok fp.
Proof.
  intros H. unfold require_valid_fingerprint. rewrite canonical_fingerprint_norm by done.
  by rewrite is_valid_canonical_fingerprint.
Qed.

Lemma GroupEvent_init_ok gid epoch kind subject wall signer sig :
  is_valid_group_id gid = true → 1 <= epoch →
  canonical_fingerprint subject = true → canonical_fingerprint signer = true →
  GroupEvent_init gid epoch kind subject wall signer sig =
    Ok (mkEvent gid epoch kind subject wall signer sig).
Proof.
  intros Hg He Hs Hr. unfold GroupEvent_init. rewrite Hg. simpl.
  destruct (Z.ltb_spec epoch 1); [lia|]. simpl.
  rewrite !require_valid_fingerprint_canonical by done. simpl.
  by rewrite !canonical_fingerprint_norm.
Qed.

(** *** Separated fields *)

Definition bar : ascii := "|"%char.

Lemma app_bar_inj (l1 l2 r1 r2 : list ascii) :
  bar ∉ l1 → bar ∉ l2 → l1 ++ bar :: r1 = l2 ++ bar :: r2 → l1 = l2 ∧ r1 = r2.
Proof.
  revert l2. induction l1 as [|c l1 IH]; intros [|d l2] H1 H2 H; simplify_eq/=; [done|set_solver..|].
  destruct (IH l2) as [-> ->]; set_solver.
Qed.

Lemma digits_no_bar l : Forall (λ c, is_digit c = true) l → bar ∉ l.
Proof. rewrite Forall_forall. intros H Hin. by specialize (H _ Hin). Qed.

Lemma kind_no_bar k : bar ∉ chars (kind_value k).
Proof. apply (bool_decide_eq_false_1 _). by destruct k. Qed.

Lemma kind_value_inj k1 k2 : kind_value k1 = kind_value k2 → k1 = k2.
Proof. by destruct k1, k2. Qed.

Lemma canonical_event_string_inj g1 e1 k1 f1 s1 g2 e2 k2 f2 s2 :
  is_valid_group_id g1 = true → is_valid_group_id g2 = true → 0 <= e1 → 0 <= e2 →
  canonical_fingerprint f1 = true → canonical_fingerprint f2 = true →
  canonical_event_string g1 e1 (kind_value k1) f1 s1 =
    canonical_event_string g2 e2 (kind_value k2) f2 s2 →
  g1 = g2 ∧ e1 = e2 ∧ k1 = k2 ∧ f1 = f2 ∧ s1 = s2.
Proof.
  intros Hg1 Hg2 He1 He2 Hf1 Hf2 H.
  apply valid_group_id_length in Hg1, Hg2. apply canonical_fingerprint_length in Hf1, Hf2.
  unfold str_len in *. unfold canonical_event_string in H. apply (f_equal chars) in H.
  rewrite !chars_app in H. apply app_inj_1 in H as [_ H]; [|done]. simpl in H.
  injection H as H. apply app_inj_1 in H as [Hg H]; [|congruence]. injection H as H.
  apply app_bar_inj in H as [He H]; [|by apply digits_no_bar, str_of_Z_digits..].
  apply app_bar_inj in H as [Hk H]; [|apply kind_no_bar..].
  apply app_inj_1 in H as [Hf H]; [|congruence]. injection H as H.
  repeat split.
  - by apply chars_inj.
  - by apply str_of_Z_inj, chars_inj.
  - by apply kind_value_inj, chars_inj.
  - by apply chars_inj.
  - by apply chars_inj.
Qed.
