(* ===== verification/GroupAuthority.v ===== *)
(** * The relay-side group authority

    [groups/authority.py]: the registry of groups a relay hosts.  Every
    method is one synchronous call, so it is one function from the
    registry to its outcome and the registry it leaves behind.

    Member objects are shared: the roster dictionary of a group and the
    pending join operation hold references to the same [_Member], and
    [_commit] mutates it through the operation.  A group therefore carries
    a store [g_objs] of member objects; the roster maps a fingerprint to a
    location of that store and an operation refers to a location.

    Times are integers (microseconds); [now] is the one reading of the
    monotonic clock a call makes, [wall] the wall clock, [op_id] and
    [mints] the random draws. *)

From S2P Require Import Prelude Text Primitives Ids Events.

Open Scope Z_scope.

(** ** Constants ([constants/net.py]) *)

Definition MAX_GROUP_MEMBERS : nat := 8.
Definition GROUP_EVENTS_KEPT : nat := 16.
Definition GROUP_MAX_PENDING_OPS : nat := 8.
Definition GROUP_PUBKEY_HEX_LENGTH : nat := 64.
Definition GROUP_CRYPTO_SUITES : list string := ["mesh-v1"; "senderkey-v1"].

(** The timeouts of [GroupAuthority.__init__]. *)
Record Config := { join_pending : Z; sign_timeout : Z; retention : Z }.

Definition default_config : Config := {|
  join_pending := 300 * 1000000;
  sign_timeout := 60 * 1000000;
  retention := 24 * 3600 * 1000000;
|}.

(** ** Data *)

Inductive GroupRole := OWNER | MEMBER.
Inductive MemberStatus := ACTIVE | CANDIDATE.
(** [OpKind] has the values of [GroupEventKind]. *)
Abbreviation OpKind := GroupEventKind.
Inductive GState := Gactive | Gdissolved.

#[export] Instance GroupRole_eq_dec : EqDecision GroupRole.
Proof. solve_decision. Defined.
#[export] Instance MemberStatus_eq_dec : EqDecision MemberStatus.
Proof. solve_decision. Defined.
#[export] Instance GState_eq_dec : EqDecision GState.
Proof. solve_decision. Defined.

Definition role_value (r : GroupRole) : string :=
  match r with OWNER => "owner" | MEMBER => "member" end.

Definition state_value (s : GState) : string :=
  match s with Gactive => "active" | Gdissolved => "dissolved" end.

Record MemberView := mkView {
  v_fingerprint : string; v_handle : string; v_display_name : string;
  v_public_key_hex : string; v_role : string; v_joined_epoch : Z;
}.

Record GroupSnapshot := {
  sn_group_id : string; sn_name : string; sn_state : string; sn_epoch : Z;
  sn_owner_fingerprint : string; sn_owner_public_key_hex : string;
  sn_crypto_suite : string; sn_members : list MemberView; sn_events : list event_dict;
}.

Record AttestOutcome := {
  at_group_id : string; at_role : string; at_epoch : Z; at_snapshot : option GroupSnapshot;
}.

Record SignTask := {
  st_op_id : string; st_group_id : string; st_kind : string; st_subject : string;
  st_epoch : Z; st_signer : string; st_message_b64 : string; st_signer_session : option string;
}.

Record CommittedOp := {
  co_event : GroupEvent; co_join_member : option MemberView;
  co_notify : list string; co_unbind : list string;
}.

Record ExpiredNotice := {
  en_group_id : string; en_code : string; en_session : option string;
}.

(** [_Member] *)
Record Member := mkMember {
  m_fingerprint : string; m_handle : string; m_display_name : string;
  m_public_key_hex : string; m_role : GroupRole; m_joined_epoch : Z;
  m_status : MemberStatus; m_session : option string;
}.

(** [_PendingJoin] *)
Record PendingJoin := mkPending {
  pj_redeem_session : string; pj_invite_id : string; pj_created : Z;
}.

(** A location of a member object. *)
Abbreviation loc := nat.

(** [_Op] *)
Record Op := mkOp {
  op_id : string; op_kind : OpKind; op_subject : string; op_signer : string;
  op_requested : Z; op_epoch : Z; op_canonical : bytes; op_wall_ts : option datetime;
  op_awaiting : option Z; op_candidate : option loc;
}.

(** [_Group], with the store of its member objects. *)
Record Group := mkGroup {
  g_group_id : string; g_name : string; g_state : GState;
  g_owner : string; g_owner_key : string; g_epoch : Z; g_suite : string;
  g_members : list (string * loc);
  g_objs : gmap loc Member; g_next : loc;
  g_pending : list (string * PendingJoin);
  g_ops : list Op; g_events : list GroupEvent;
  g_created_at : datetime; g_dissolved_at : option Z;
}.

Record Authority := mkAuthority {
  a_groups : list (string * Group);
  a_dissolved : list (string * Group);
}.

Definition empty_authority : Authority := mkAuthority [] [].

(** *** Field updates *)

Definition set_epoch (g : Group) (e : Z) : Group :=
  mkGroup (g_group_id g) (g_name g) (g_state g) (g_owner g) (g_owner_key g) e (g_suite g)
    (g_members g) (g_objs g) (g_next g) (g_pending g) (g_ops g) (g_events g)
    (g_created_at g) (g_dissolved_at g).
Definition set_members (g : Group) (ms : list (string * loc)) : Group :=
  mkGroup (g_group_id g) (g_name g) (g_state g) (g_owner g) (g_owner_key g) (g_epoch g)
    (g_suite g) ms (g_objs g) (g_next g) (g_pending g) (g_ops g) (g_events g)
    (g_created_at g) (g_dissolved_at g).
Definition set_objs (g : Group) (os : gmap loc Member) : Group :=
  mkGroup (g_group_id g) (g_name g) (g_state g) (g_owner g) (g_owner_key g) (g_epoch g)
    (g_suite g) (g_members g) os (g_next g) (g_pending g) (g_ops g) (g_events g)
    (g_created_at g) (g_dissolved_at g).
Definition set_pending (g : Group) (ps : list (string * PendingJoin)) : Group :=
  mkGroup (g_group_id g) (g_name g) (g_state g) (g_owner g) (g_owner_key g) (g_epoch g)
    (g_suite g) (g_members g) (g_objs g) (g_next g) ps (g_ops g) (g_events g)
    (g_created_at g) (g_dissolved_at g).
Definition set_ops (g : Group) (os : list Op) : Group :=
  mkGroup (g_group_id g) (g_name g) (g_state g) (g_owner g) (g_owner_key g) (g_epoch g)
    (g_suite g) (g_members g) (g_objs g) (g_next g) (g_pending g) os (g_events g)
    (g_created_at g) (g_dissolved_at g).
Definition set_events (g : Group) (es : list GroupEvent) : Group :=
  mkGroup (g_group_id g) (g_name g) (g_state g) (g_owner g) (g_owner_key g) (g_epoch g)
    (g_suite g) (g_members g) (g_objs g) (g_next g) (g_pending g) (g_ops g) es
    (g_created_at g) (g_dissolved_at g).
Definition set_dissolved (g : Group) (now : Z) : Group :=
  mkGroup (g_group_id g) (g_name g) Gdissolved (g_owner g) (g_owner_key g) (g_epoch g)
    (g_suite g) (g_members g) (g_objs g) (g_next g) (g_pending g) (g_ops g) (g_events g)
    (g_created_at g) (Some now).

(** Allocate a member object and bind it to [fp] in the roster. *)
Definition bind_new_member (g : Group) (fp : string) (m : Member) : Group :=
  mkGroup (g_group_id g) (g_name g) (g_state g) (g_owner g) (g_owner_key g) (g_epoch g)
    (g_suite g) (dset (g_members g) fp (g_next g)) (<[g_next g := m]> (g_objs g))
    (S (g_next g)) (g_pending g) (g_ops g) (g_events g) (g_created_at g) (g_dissolved_at g).

Definition set_groups (a : Authority) gs : Authority := mkAuthority gs (a_dissolved a).

(** Writing a mutated group object back: the dictionary slot is the same. *)
Definition put_group (a : Authority) (g : Group) : Authority :=
  set_groups a (dset (a_groups a) (g_group_id g) g).

(** ** Roster access *)

(** [group.members.get(fingerprint)] *)
Definition lookup_member (g : Group) (fp : string) : option Member :=
  l ← dget (g_members g) fp; g_objs g !! l.

(** [group.members.values()], dereferenced. *)
Definition roster (g : Group) : list Member := omap (λ l, g_objs g !! l) (values (g_members g)).

Definition is_active (m : Member) : bool := bool_decide (m_status m = ACTIVE).

Definition member_view (m : Member) : MemberView :=
  mkView (m_fingerprint m) (m_handle m) (m_display_name m) (m_public_key_hex m)
    (role_value (m_role m)) (m_joined_epoch m).

(** [_member_by_session] *)
Definition member_by_session (g : Group) (session_id : string) : option Member :=
  head (filter (λ m, m_session m = Some session_id ∧ m_status m = ACTIVE) (roster g)).

(** [_require_member_session] *)
Definition require_member_session (g : Group) (session_id : string) : result GroupError Member :=
  of_option (member_by_session g session_id) GroupNotMemberError.

(** [_session_for_fingerprint] *)
Definition session_for_fingerprint (g : Group) (fp : string) : option string :=
  match lookup_member g fp with
  | Some m => if is_active m then m_session m else None
  | None => None
  end.

(** [_reserved_count] *)
Definition reserved_count (g : Group) : nat :=
  (length (filter (λ m, m_status m = ACTIVE) (roster g)) +
   length (filter (λ m, m_status m = CANDIDATE) (roster g)) +
   length (g_pending g))%nat.

(** [sorted(..., key=joined_epoch)]: Python's sort is stable. *)
Fixpoint insert_by_epoch (m : Member) (l : list Member) : list Member :=
  match l with
  | [] => [m]
  | m' :: l' => if m_joined_epoch m <=? m_joined_epoch m' then m :: l
                else m' :: insert_by_epoch m l'
  end.
Definition sort_by_epoch (l : list Member) : list Member := foldr insert_by_epoch [] l.

(** [_snapshot] *)
Definition snapshot (g : Group) : GroupSnapshot := {|
  sn_group_id := g_group_id g; sn_name := g_name g; sn_state := state_value (g_state g);
  sn_epoch := g_epoch g; sn_owner_fingerprint := g_owner g;
  sn_owner_public_key_hex := g_owner_key g; sn_crypto_suite := g_suite g;
  sn_members := member_view <$> filter (λ m, m_status m = ACTIVE) (sort_by_epoch (roster g));
  sn_events := event_to_dict <$> g_events g;
|}.

(** ** Guards *)

(** [_require] *)
Definition require (a : Authority) (group_id : string) : result GroupError Group :=
  if negb (is_valid_group_id group_id) then Err GroupValidationError
  else match dget (a_groups a) group_id with
       | Some g => Ok g
       | None => if dmem (a_dissolved a) group_id then Err GroupDissolvedError
                 else Err GroupUnknownError
       end.

(** [_require_active_group] *)
Definition require_active_group (g : Group) : result GroupError unit :=
  guard_or (bool_decide (g_state g = Gactive)) GroupDissolvedError.

(** [_decode_signature] *)
Definition decode_signature (signature_b64 : string) : result GroupError bytes :=
  signature ← of_option (b64decode signature_b64) GroupValidationError;
  guard_or (bool_decide (length signature = 64%nat)) GroupValidationError;;
  Ok signature.

(** ** Observers *)

(** [group_state_name] *)
Definition group_state_name (a : Authority) (group_id : string) : option string :=
  match dget (a_groups a) group_id with
  | Some g => Some (state_value (g_state g))
  | None => if dmem (a_dissolved a) group_id then Some "dissolved" else None
  end.

(** [session_fingerprint] *)
Definition session_fingerprint (a : Authority) (group_id session_id : string) : option string :=
  g ← dget (a_groups a) group_id; m_fingerprint <$> member_by_session g session_id.

(** [bound_sessions] *)
Definition bound_sessions (a : Authority) (group_id : string) : list string :=
  match dget (a_groups a) group_id with
  | Some g => omap m_session (roster g)
  | None => []
  end.

(** [sign_task_age] *)
Definition sign_task_age (a : Authority) (group_id : string) (now : Z) : option Z :=
  g ← dget (a_groups a) group_id;
  head ← head (g_ops g);
  Some (match op_awaiting head with None => 0 | Some t => now - t end).

(** [authorize_forward] *)
Definition authorize_forward (a : Authority) (group_id from_session_id to_fingerprint : string)
    (epoch : Z) : result GroupError (option string) :=
  group ← require a group_id;
  require_active_group group;;
  sender ← require_member_session group from_session_id;
  let to_fingerprint := upper (strip to_fingerprint) in
  if bool_decide (to_fingerprint = m_fingerprint sender) then Err GroupValidationError
  else if (epoch <? g_epoch group - 1) || (epoch >? g_epoch group) then Err GroupStateError
  else match lookup_member group to_fingerprint with
       | Some member => if is_active member then Ok (m_session member) else Err GroupNotMemberError
       | None => Err GroupNotMemberError
       end.

(** [roster_view] *)
Definition roster_view (a : Authority) (group_id session_id : string)
    : result GroupError GroupSnapshot :=
  group ← require a group_id;
  guard_or (negb (bool_decide (g_state group = Gdissolved))) GroupDissolvedError;;
  require_member_session group session_id;;
  Ok (snapshot group).

(** [allow_invite_mint] *)
Definition allow_invite_mint (a : Authority) (group_id session_id : string) (uses : Z)
    : result GroupError unit :=
  group ← require a group_id;
  require_active_group group;;
  guard_or match member_by_session group session_id with
           | Some member => bool_decide (m_fingerprint member = g_owner group)
           | None => false
           end GroupPermissionError;;
  let headroom := Z.of_nat MAX_GROUP_MEMBERS - Z.of_nat (reserved_count group) in
  guard_or (negb (uses >? headroom)) GroupFullError.

(** ** Signature operations *)

(** [_enqueue_op]; an identical pending operation is returned as it is. *)
Definition enqueue_op (g : Group) (kind : OpKind) (subject signer : string)
    (candidate : option loc) (now : Z) (new_id : string) : outcome Group GroupError Op :=
  if (GROUP_MAX_PENDING_OPS <=? length (g_ops g))%nat then (Err GroupConflictError, g)
  else match head (filter (λ o, op_kind o = kind ∧ op_subject o = subject) (g_ops g)) with
       | Some existing => (Ok existing, g)
       | None =>
           let op := mkOp new_id kind subject signer now 0 [] None None candidate in
           (Ok op, set_ops g (g_ops g ++ [op]))
       end.

(** [_abort_head_op] *)
Definition abort_head_op (g : Group) : Group :=
  match g_ops g with
  | [] => g
  | op :: rest =>
      let g1 := set_ops g rest in
      match op_kind op, op_candidate op with
      | JOIN, Some l =>
          match g_objs g !! l with
          | Some m => set_members g1 (dpop (g_members g1) (m_fingerprint m))
          | None => g1
          end
      | _, _ => g1
      end
  end.

(** [list(...)[-n:]] *)
Definition last_n {A} (n : nat) (l : list A) : list A := drop (length l - n) l.

(** [_commit], up to the move of a dissolved group (see [submit_signature]). *)
Definition commit (g : Group) (op : Op) (signature : bytes) (now : Z) (wall : datetime)
    : outcome Group GroupError GroupEvent :=
  let g1 := set_epoch g (g_epoch g + 1) in
  let wall_ts := default wall (op_wall_ts op) in
  try? event := GroupEvent_init (g_group_id g1) (g_epoch g1) (op_kind op) (op_subject op)
                  wall_ts (op_signer op) signature @ g1 in
  try? g2 :=
    match op_kind op with
    | JOIN =>
        match op_candidate op with
        | None => Err AssertionError
        | Some l =>
            Ok (set_objs g1 (alter (λ m, mkMember (m_fingerprint m) (m_handle m)
              (m_display_name m) (m_public_key_hex m) (m_role m) (ev_epoch event) ACTIVE
              (m_session m)) l (g_objs g1)))
        end
    | LEFT | REMOVED => Ok (set_members g1 (dpop (g_members g1) (op_subject op)))
    | DISSOLVED => Ok (set_dissolved g1 now)
    end @ g1 in
  (Ok event, set_events g2 (last_n GROUP_EVENTS_KEPT (g_events g2 ++ [event]))).

(** [dict.fromkeys(l)]: first occurrences, in order. *)
Fixpoint dedup (seen l : list string) : list string :=
  match l with
  | [] => []
  | x :: l' => if decide (x ∈ seen) then dedup seen l' else x :: dedup (x :: seen) l'
  end.

(** Truthy session ids: [member.session_id and ...]. *)
Definition truthy_sessions (ms : list Member) : list string :=
  filter (λ s, s ≠ "") (omap m_session ms).

(** [_routing_for] *)
Definition routing_for (g : Group) (op : Op) (subject_session : option string)
    : list string * list string * option MemberView :=
  let join_member := match op_kind op, op_candidate op with
                     | JOIN, Some l => member_view <$> g_objs g !! l
                     | _, _ => None
                     end in
  let unbind := match op_kind op with
                | DISSOLVED => truthy_sessions (roster g)
                | LEFT | REMOVED => option_list subject_session
                | JOIN => []
                end in
  let notify := filter (λ s, s ∉ unbind) (truthy_sessions (roster g)) ++ unbind in
  (dedup [] notify, unbind, join_member).

(** ** Operations *)

Section operations.
Context `{P : Primitives}.

(** [_verify_identity_material] *)
Definition verify_identity_material (public_key_hex handle : string)
    : result GroupError string :=
  guard_or (bool_decide (str_len public_key_hex = GROUP_PUBKEY_HEX_LENGTH))
    GroupValidationError;;
  fingerprint ← fingerprint_for_key_hex public_key_hex;
  guard_or (is_valid_identity_id handle &&
            bool_decide ((fromhex public_key_hex ≫= identity_id_for) = Some handle))
    GroupValidationError;;
  Ok fingerprint.

(** [_mint_unique_id]: at most 64 draws, the first unused id. *)
Definition mint_unique_id (a : Authority) (mints : list (list Z)) : result GroupError string :=
  of_option (head (filter (λ c, dget (a_groups a) c = None ∧ dget (a_dissolved a) c = None)
                          (generate_group_id <$> take 64 mints)))
    GroupStateError.

(** [(display_name or handle)[:GROUP_NAME_MAX_LEN]] *)
Definition display_or_handle (display_name handle : string) : string :=
  of_chars (take GROUP_NAME_MAX_LEN
    (chars (if decide (display_name = "") then handle else display_name))).

(** [create_group] *)
Definition create_group (a : Authority) (session_id name public_key_hex pop_b64 attest_nonce
    handle display_name crypto_suite : string) (wall : datetime) (mints : list (list Z))
    : outcome Authority GroupError GroupSnapshot :=
  try? clean_name := validate_group_name name @ a in
  try? _ := guard_or (bool_decide (crypto_suite ∈ GROUP_CRYPTO_SUITES)) GroupValidationError
    @ a in
  try? fingerprint := verify_identity_material public_key_hex handle @ a in
  try? pop := decode_signature pop_b64 @ a in
  let message := canonical_create_form clean_name attest_nonce in
  try? public_key := of_option (fromhex public_key_hex) GroupValidationError @ a in
  try? _ := guard_or (verify_signature public_key pop message) GroupPermissionError @ a in
  try? group_id := mint_unique_id a mints @ a in
  let owner := mkMember fingerprint handle (display_or_handle display_name handle)
                 (lower public_key_hex) OWNER 1 ACTIVE (Some session_id) in
  let group := mkGroup group_id clean_name Gactive fingerprint (lower public_key_hex) 1
                 crypto_suite [(fingerprint, 0%nat)] {[0%nat := owner]} 1%nat [] [] []
                 wall None in
  (Ok (snapshot group), put_group a group).

(** [begin_join_redemption] *)
Definition begin_join_redemption (a : Authority) (group_id redeem_session invite_id : string)
    (now : Z) : outcome Authority GroupError GroupSnapshot :=
  try? group := require a group_id @ a in
  try? _ := require_active_group group @ a in
  try? _ := guard_or (negb (dmem (g_pending group) redeem_session)) GroupConflictError @ a in
  try? _ := guard_or (negb (MAX_GROUP_MEMBERS <=? reserved_count group)%nat) GroupFullError
    @ a in
  let group' := set_pending group
    (dset (g_pending group) redeem_session (mkPending redeem_session invite_id now)) in
  (Ok (snapshot group'), put_group a group').

(** [cancel_pending_join] *)
Definition cancel_pending_join (a : Authority) (group_id redeem_session : string) : Authority :=
  match dget (a_groups a) group_id with
  | Some group => put_group a (set_pending group (dpop (g_pending group) redeem_session))
  | None => a
  end.

(** [session_was_removed] *)
Definition session_was_removed (g : Group) (fp : string) : bool :=
  match last (filter (λ e, ev_subject_fingerprint e = fp) (g_events g)) with
  | Some e => bool_decide (ev_kind e = REMOVED)
  | None => false
  end.

(** The re-attestation of an ACTIVE member: rebind, refresh the names. *)
Definition rebind_member (session_id handle display_name : string) (m : Member) : Member :=
  mkMember (m_fingerprint m) handle
    (if decide (display_name = "") then m_display_name m else display_name)
    (m_public_key_hex m) (m_role m) (m_joined_epoch m) (m_status m) (Some session_id).

(** The part of [attest] that admits a candidate.  The two refusals of an
    identity without a pending join ("was removed", when
    [session_was_removed], or "no pending admission") are both
    [GroupNotMemberError]. *)
Definition attest_candidate (a : Authority) (group : Group) (group_id fingerprint session_id
    public_key_hex handle display_name : string) (now : Z) (new_id : string)
    : outcome Authority GroupError AttestOutcome :=
  try? _ := guard_or (negb (dmem (a_dissolved a) group_id ||
                            bool_decide (g_state group = Gdissolved))) GroupDissolvedError
    @ a in
  try? _ := require_active_group group @ a in
  try? _ := of_option (dget (g_pending group) session_id) GroupNotMemberError @ a in
  let group1 := set_pending group (dpop (g_pending group) session_id) in
  let candidate := mkMember fingerprint handle (display_or_handle display_name handle)
                     (lower public_key_hex) MEMBER 0 CANDIDATE (Some session_id) in
  let group2 := bind_new_member group1 fingerprint candidate in
  match enqueue_op group2 JOIN fingerprint (g_owner group2) (Some (g_next group1)) now new_id
  with
  | (Err e, group3) => (Err e, put_group a group3)
  | (Ok _, group3) =>
      (Ok {| at_group_id := g_group_id group3; at_role := "candidate";
             at_epoch := g_epoch group3; at_snapshot := None |}, put_group a group3)
  end.

(** [attest] *)
Definition attest (a : Authority) (session_id group_id public_key_hex signature_b64
    attest_nonce handle display_name : string) (now : Z) (new_id : string)
    : outcome Authority GroupError AttestOutcome :=
  try? group := require a group_id @ a in
  try? fingerprint := verify_identity_material public_key_hex handle @ a in
  try? signature := decode_signature signature_b64 @ a in
  let message := canonical_attest_form group_id fingerprint attest_nonce in
  try? public_key := of_option (fromhex public_key_hex) PyValueError @ a in
  try? _ := guard_or (verify_signature public_key signature message) GroupPermissionError
    @ a in
  let candidate_path :=
    attest_candidate a group group_id fingerprint session_id public_key_hex handle
      display_name now new_id in
  match dget (g_members group) fingerprint with
  | Some l =>
      if from_option is_active false (g_objs group !! l) then
        try? _ := require_active_group group @ a in
        let group' := set_objs group
          (alter (rebind_member session_id handle display_name) l (g_objs group)) in
        let role := if decide (fingerprint = g_owner group) then "owner" else "member" in
        (Ok {| at_group_id := g_group_id group'; at_role := role; at_epoch := g_epoch group';
               at_snapshot := Some (snapshot group') |}, put_group a group')
      else candidate_path
  | None => candidate_path
  end.

(** Enqueue on a group of the registry and write the group back. *)
Definition enqueue_in (a : Authority) (group : Group) (kind : OpKind) (subject signer : string)
    (now : Z) (new_id : string) : outcome Authority GroupError unit :=
  match enqueue_op group kind subject signer None now new_id with
  | (Err e, group') => (Err e, put_group a group')
  | (Ok _, group') => (Ok tt, put_group a group')
  end.

(** [request_leave] *)
Definition request_leave (a : Authority) (group_id session_id : string) (now : Z)
    (new_id : string) : outcome Authority GroupError unit :=
  try? group := require a group_id @ a in
  try? _ := require_active_group group @ a in
  try? member := require_member_session group session_id @ a in
  try? _ := guard_or (negb (bool_decide (m_fingerprint member = g_owner group)))
              GroupPermissionError @ a in
  enqueue_in a group LEFT (m_fingerprint member) (m_fingerprint member) now new_id.

(** [request_remove] *)
Definition request_remove (a : Authority) (group_id session_id subject_fingerprint : string)
    (now : Z) (new_id : string) : outcome Authority GroupError unit :=
  try? group := require a group_id @ a in
  try? _ := require_active_group group @ a in
  let subject := upper (strip subject_fingerprint) in
  try? member := require_member_session group session_id @ a in
  try? _ := guard_or (bool_decide (m_fingerprint member = g_owner group))
              GroupPermissionError @ a in
  try? target := of_option (lookup_member group subject) GroupNotMemberError @ a in
  try? _ := guard_or (is_active target) GroupNotMemberError @ a in
  try? _ := guard_or (negb (bool_decide (m_fingerprint target = g_owner group)))
              GroupPermissionError @ a in
  enqueue_in a group REMOVED (m_fingerprint target) (g_owner group) now new_id.

(** [request_dissolve] *)
Definition request_dissolve (a : Authority) (group_id session_id : string) (now : Z)
    (new_id : string) : outcome Authority GroupError unit :=
  try? group := require a group_id @ a in
  try? _ := require_active_group group @ a in
  try? member := require_member_session group session_id @ a in
  try? _ := guard_or (bool_decide (m_fingerprint member = g_owner group))
              GroupPermissionError @ a in
  enqueue_in a group DISSOLVED (g_owner group) (g_owner group) now new_id.

(** Promotion of the queue head by [next_sign_task]: the epoch and the
    wall clock are assigned, the canonical bytes built, the wait starts. *)
Definition promote (g : Group) (head : Op) (now : Z) (wall : datetime)
    : outcome Op GroupError unit :=
  let head1 := mkOp (op_id head) (op_kind head) (op_subject head) (op_signer head)
    (op_requested head) (g_epoch g + 1) (op_canonical head) (Some wall) (op_awaiting head)
    (op_candidate head) in
  try? event := GroupEvent_init (g_group_id g) (op_epoch head1) (op_kind head1)
    (op_subject head1) wall (op_signer head1) (replicate 64 0) @ head1 in
  (Ok tt, mkOp (op_id head1) (op_kind head1) (op_subject head1) (op_signer head1)
    (op_requested head1) (op_epoch head1) (event_canonical event) (op_wall_ts head1)
    (Some now) (op_candidate head1)).

(** [next_sign_task] *)
Definition next_sign_task (a : Authority) (group_id : string) (now : Z) (wall : datetime)
    : outcome Authority GroupError (option SignTask) :=
  match dget (a_groups a) group_id with
  | None => (Ok None, a)
  | Some group =>
      match g_ops group with
      | [] => (Ok None, a)
      | head :: rest =>
          let '(r, head') := match op_awaiting head with
                             | Some _ => (Ok tt, head)
                             | None => promote group head now wall
                             end in
          let group' := set_ops group (head' :: rest) in
          try? _ := r @ (put_group a group') in
          (Ok (Some {| st_op_id := op_id head'; st_group_id := g_group_id group';
             st_kind := kind_value (op_kind head'); st_subject := op_subject head';
             st_epoch := op_epoch head'; st_signer := op_signer head';
             st_message_b64 := b64encode (op_canonical head');
             st_signer_session := session_for_fingerprint group' (op_signer head') |}),
           put_group a group')
      end
  end.

(** Where the committed group object ends up: [_commit] moves a dissolved
    group to the tombstones. *)
Definition settle (a : Authority) (kind : OpKind) (g : Group) : Authority :=
  match kind with
  | DISSOLVED => mkAuthority (dpop (a_groups a) (g_group_id g))
                   (dset (a_dissolved a) (g_group_id g) g)
  | _ => put_group a g
  end.

(** [submit_signature] *)
Definition submit_signature (a : Authority) (group_id session_id the_op_id signature_b64 : string)
    (now : Z) (wall : datetime) : outcome Authority GroupError CommittedOp :=
  try? group := require a group_id @ a in
  match g_ops group with
  | [] => (Err GroupConflictError, a)
  | op :: rest =>
      try? _ := guard_or (bool_decide (op_id op = the_op_id)) GroupConflictError @ a in
      try? _ := of_option (op_awaiting op) GroupConflictError @ a in
      try? _ := guard_or (bool_decide (session_for_fingerprint group (op_signer op) =
                                       Some session_id)) GroupPermissionError @ a in
      try? signer := of_option (lookup_member group (op_signer op)) AssertionError @ a in
      try? signature := decode_signature signature_b64 @ a in
      try? key := of_option (fromhex (m_public_key_hex signer)) PyValueError @ a in
      if negb (verify_signature key signature (op_canonical op))
      then (Err GroupPermissionError, put_group a (abort_head_op group))
      else
        let group1 := set_ops group rest in
        let subject_session := session_for_fingerprint group1 (op_subject op) in
        match commit group1 op signature now wall with
        | (Err e, group2) => (Err e, put_group a group2)
        | (Ok event, group2) =>
            let '(notify, unbind, join_member) := routing_for group2 op subject_session in
            (Ok {| co_event := event; co_join_member := join_member; co_notify := notify;
                   co_unbind := unbind |}, settle a (op_kind op) group2)
        end
  end.

(** ** Maintenance *)

Definition join_timeout (gid : string) (session : option string) : ExpiredNotice :=
  {| en_group_id := gid; en_code := "group/join-timeout"; en_session := session |}.

Definition pending_expired (cfg : Config) (now : Z) (x : string * PendingJoin) : Prop :=
  now - pj_created x.2 > join_pending cfg.

#[export] Instance pending_expired_dec cfg now x : Decision (pending_expired cfg now x).
Proof. unfold pending_expired. apply _. Defined.

(** The body of the first loop of [sweep], for one group. *)
Definition sweep_group (cfg : Config) (now : Z) (g : Group) : list ExpiredNotice * Group :=
  let expired := filter (pending_expired cfg now) (g_pending g) in
  let notices := (λ x, join_timeout (g_group_id g) (Some x.1)) <$> expired in
  let g1 := set_pending g (filter (λ x, ¬ pending_expired cfg now x) (g_pending g)) in
  match g_ops g1 with
  | [] => (notices, g1)
  | head :: _ =>
      match op_awaiting head with
      | Some t =>
          if now - t >? sign_timeout cfg then
            let candidate_session :=
              l ← op_candidate head; m ← g_objs g1 !! l; m_session m in
            (notices ++ (if decide (op_kind head = JOIN)
                         then [join_timeout (g_group_id g) candidate_session] else []),
             abort_head_op g1)
          else (notices, g1)
      | None => (notices, g1)
      end
  end.

Definition tombstone_expired (cfg : Config) (now : Z) (g : Group) : bool :=
  match g_dissolved_at g with
  | Some t => now - t >? retention cfg
  | None => false
  end.

(** [sweep] *)
Definition sweep (cfg : Config) (a : Authority) (now : Z) : list ExpiredNotice * Authority :=
  let swept := (λ x, (x.1, sweep_group cfg now x.2)) <$> a_groups a in
  (concat ((λ x, x.2.1) <$> swept),
   mkAuthority ((λ x, (x.1, x.2.2)) <$> swept)
     (filter (λ x, tombstone_expired cfg now x.2 = false) (a_dissolved a))).

(** [member.session_id = None] for every roster member bound to the session. *)
Definition unbind_objs (g : Group) (session_id : string) : gmap loc Member :=
  foldr (λ l, alter (λ m, if decide (m_session m = Some session_id)
                          then mkMember (m_fingerprint m) (m_handle m) (m_display_name m)
                                 (m_public_key_hex m) (m_role m) (m_joined_epoch m)
                                 (m_status m) None
                          else m) l) (g_objs g) (values (g_members g)).

Definition disbind_group (session_id : string) (g : Group) : Group :=
  set_pending (set_objs g (unbind_objs g session_id))
    (filter (λ x, pj_redeem_session x.2 ≠ session_id) (g_pending g)).

(** [disbind_session] *)
Definition disbind_session (a : Authority) (session_id : string) : Authority :=
  set_groups a ((λ x, (x.1, disbind_group session_id x.2)) <$> a_groups a).
End operations.
