(* ===== verification/GroupInvariant.v ===== *)
(** * The invariant of the group authority

    Well-formedness of a hosted group ([group_inv]) and of the registry
    ([authority_inv]), and the proof that every operation of
    [GroupAuthority] preserves it, on its error paths too. *)

From S2P Require Import Prelude Text Primitives Ids Events GroupAuthority.

Open Scope Z_scope.

Definition op_key (o : Op) : OpKind * string := (op_kind o, op_subject o).

(** The head operation has been presented for signature: its epoch is the
    next one and its bytes are the canonical form at that epoch. *)
Definition promoted (g : Group) (o : Op) : Prop :=
  op_epoch o = g_epoch g + 1 ∧
  ∃ w, op_wall_ts o = Some w ∧
    op_canonical o = canonical_event_form (g_group_id g) (g_epoch g + 1)
                       (kind_value (op_kind o)) (op_subject o) w.

(** Who signs what, and what a pending admission refers to. *)
Definition op_wf (g : Group) (o : Op) : Prop :=
  canonical_fingerprint (op_subject o) = true ∧
  match op_kind o with
  | JOIN => op_signer o = g_owner g ∧
      ∃ l m, op_candidate o = Some l ∧ g_objs g !! l = Some m ∧
        m_fingerprint m = op_subject o ∧ m_status m = CANDIDATE ∧
        (∀ m', lookup_member g (op_subject o) = Some m' → m_status m' = CANDIDATE)
  | LEFT => op_signer o = op_subject o ∧ op_subject o ≠ g_owner g
  | REMOVED => op_signer o = g_owner g ∧ op_subject o ≠ g_owner g
  | DISSOLVED => op_signer o = g_owner g ∧ op_subject o = g_owner g
  end.

Record group_inv (g : Group) : Prop := {
  gi_id : is_valid_group_id (g_group_id g) = true;
  gi_state : g_state g = Gactive;
  gi_epoch : 1 <= g_epoch g;
  gi_wf : dict_wf (g_members g);
  gi_objs : ∀ fp l, dget (g_members g) fp = Some l →
    ∃ m, g_objs g !! l = Some m ∧ m_fingerprint m = fp;
  gi_fresh : ∀ l m, g_objs g !! l = Some m →
    (l < g_next g)%nat ∧ canonical_fingerprint (m_fingerprint m) = true;
  gi_owner : ∃ m, lookup_member g (g_owner g) = Some m ∧ m_status m = ACTIVE ∧
    m_role m = OWNER ∧ m_public_key_hex m = g_owner_key g;
  gi_pending : dict_wf (g_pending g);
  gi_capacity : (length (g_members g) + length (g_pending g) <= MAX_GROUP_MEMBERS)%nat;
  gi_ops_bound : (length (g_ops g) <= GROUP_MAX_PENDING_OPS)%nat;
  gi_tail : Forall (λ o, op_awaiting o = None) (tail (g_ops g));
  gi_head : ∀ o, head (g_ops g) = Some o → is_Some (op_awaiting o) → promoted g o;
  gi_ops : Forall (op_wf g) (g_ops g);
  gi_nodup : NoDup (op_key <$> g_ops g);
  gi_events_bound : (length (g_events g) <= GROUP_EVENTS_KEPT)%nat;
  gi_events : ev_epoch <$> g_events g =
    seqZ (g_epoch g - Z.of_nat (length (g_events g)) + 1) (Z.of_nat (length (g_events g)));
}.

Record authority_inv (a : Authority) : Prop := {
  ai_groups : dict_wf (a_groups a);
  ai_dissolved : dict_wf (a_dissolved a);
  ai_inv : ∀ gid g, dget (a_groups a) gid = Some g → g_group_id g = gid ∧ group_inv g;
  ai_tomb : ∀ gid g, dget (a_dissolved a) gid = Some g →
    g_group_id g = gid ∧ g_state g = Gdissolved;
  ai_disjoint : ∀ gid g, dget (a_groups a) gid = Some g → dget (a_dissolved a) gid = None;
}.

(** ** Roster facts *)

Lemma lookup_member_Some g fp m :
  lookup_member g fp = Some m ↔ ∃ l, dget (g_members g) fp = Some l ∧ g_objs g !! l = Some m.
Proof. unfold lookup_member. by rewrite bind_Some. Qed.

Lemma lookup_member_fingerprint g fp m :
  group_inv g → lookup_member g fp = Some m → m_fingerprint m = fp.
Proof.
  intros I (l & Hl & Hm)%lookup_member_Some.
  destruct (gi_objs g I fp l Hl) as (m' & ? & ?). by simplify_eq.
Qed.

Lemma values_elem g fp l : dget (g_members g) fp = Some l → l ∈ values (g_members g).
Proof.
  intros H%dget_Some_elem. unfold values. apply list_elem_of_fmap. by exists (fp, l).
Qed.

Lemma roster_elem g m :
  group_inv g → m ∈ roster g ↔ lookup_member g (m_fingerprint m) = Some m.
Proof.
  intros I. unfold roster. rewrite list_elem_of_omap. split.
  - intros (l & Hl & Hm). unfold values in Hl. apply list_elem_of_fmap in Hl as ([fp l'] & -> & Hin).
    simpl in *. apply elem_dget in Hin; [|apply I].
    destruct (gi_objs g I _ _ Hin) as (m' & ? & <-). simplify_eq.
    apply lookup_member_Some. eauto.
  - intros (l & Hl & Hm)%lookup_member_Some. eauto using values_elem.
Qed.

Lemma roster_length g : group_inv g → length (roster g) = length (g_members g).
Proof.
  intros I. unfold roster, values.
  assert (Hall : ∀ fp l, (fp, l) ∈ g_members g → is_Some (g_objs g !! l)).
  { intros fp l Hin%elem_dget; [|apply I]. destruct (gi_objs g I _ _ Hin) as (? & ? & _). eauto. }
  clear I. induction (g_members g) as [|[fp l] ms IH]; [done|]. simpl.
  destruct (Hall fp l) as [m ->]; [set_solver|]. simpl. f_equal. apply IH. set_solver.
Qed.

Lemma active_or_candidate (l : list Member) :
  (length (filter (λ m, m_status m = ACTIVE) l) +
   length (filter (λ m, m_status m = CANDIDATE) l))%nat = length l.
Proof.
  induction l as [|m l IH]; [done|]. rewrite !filter_cons.
  destruct (m_status m); repeat case_decide; try done; simpl; lia.
Qed.

Lemma reserved_count_eq g :
  group_inv g → reserved_count g = (length (g_members g) + length (g_pending g))%nat.
Proof.
  intros I. unfold reserved_count. rewrite active_or_candidate, roster_length by done. done.
Qed.

Lemma member_by_session_Some g sid m :
  group_inv g → member_by_session g sid = Some m →
  lookup_member g (m_fingerprint m) = Some m ∧ m_session m = Some sid ∧ m_status m = ACTIVE.
Proof.
  intros I H. unfold member_by_session in H. apply head_Some_elem_of in H.
  apply list_elem_of_filter in H as [[? ?] Hin]. by apply (roster_elem g m I) in Hin.
Qed.

Lemma session_for_fingerprint_Some g fp sid :
  session_for_fingerprint g fp = Some sid →
  ∃ m, lookup_member g fp = Some m ∧ m_status m = ACTIVE ∧ m_session m = Some sid.
Proof.
  unfold session_for_fingerprint, is_active. intros H. repeat case_match; try done.
  breflect. eauto.
Qed.

Lemma member_fingerprint_canonical g fp m :
  group_inv g → lookup_member g fp = Some m → canonical_fingerprint fp = true.
Proof.
  intros I H. rewrite <- (lookup_member_fingerprint g fp m I H).
  apply lookup_member_Some in H as (l & _ & Hm). by apply (gi_fresh g I) in Hm as [_ ?].
Qed.

Lemma owner_canonical g : group_inv g → canonical_fingerprint (g_owner g) = true.
Proof. intros I. destruct (gi_owner g I) as (m & H & _). eauto using member_fingerprint_canonical. Qed.

(** ** Preservation by the steps of a group *)

(** Unchanged fields of [group_inv]. *)
Ltac keep I := destruct I; constructor; simpl in *; try done.

Lemma set_pending_inv g ps :
  group_inv g → dict_wf ps →
  (length (g_members g) + length ps <= MAX_GROUP_MEMBERS)%nat →
  group_inv (set_pending g ps).
Proof. intros I Hwf Hlen. keep I. Qed.

(** The fields of a member object that authorization depends on. *)
Definition same_core (m m' : Member) : Prop :=
  m_fingerprint m' = m_fingerprint m ∧ m_status m' = m_status m ∧
  m_role m' = m_role m ∧ m_public_key_hex m' = m_public_key_hex m.

Definition objs_core (os os' : gmap loc Member) : Prop :=
  ∀ l, option_Forall2 same_core (os !! l) (os' !! l).

Lemma objs_core_Some os os' l m :
  objs_core os os' → os !! l = Some m → ∃ m', os' !! l = Some m' ∧ same_core m m'.
Proof. intros H Hl. specialize (H l). rewrite Hl in H. inversion H; eauto. Qed.

Lemma objs_core_Some_inv os os' l m' :
  objs_core os os' → os' !! l = Some m' → ∃ m, os !! l = Some m ∧ same_core m m'.
Proof. intros H Hl. specialize (H l). rewrite Hl in H. inversion H; eauto. Qed.

Lemma same_core_refl m : same_core m m.
Proof. done. Qed.

Lemma objs_core_refl os : objs_core os os.
Proof. intros l. destruct (os !! l); constructor. apply same_core_refl. Qed.

Lemma objs_core_alter os0 os f l :
  (∀ m, same_core m (f m)) → objs_core os0 os → objs_core os0 (alter f l os).
Proof.
  intros Hf H l'. specialize (H l'). rewrite lookup_alter. case_decide; [subst|done].
  inversion H as [m m' Hm|]; simpl; constructor.
  destruct Hm as (E1 & E2 & E3 & E4), (Hf m') as (F1 & F2 & F3 & F4).
  repeat split; congruence.
Qed.

Lemma lookup_member_core g os fp m' :
  objs_core (g_objs g) os → lookup_member (set_objs g os) fp = Some m' →
  ∃ m, lookup_member g fp = Some m ∧ same_core m m'.
Proof.
  intros H (l & Hl & Hm)%lookup_member_Some.
  destruct (objs_core_Some_inv _ _ _ _ H Hm) as (m & ? & ?).
  exists m. split; [|done]. apply lookup_member_Some. eauto.
Qed.

Lemma op_wf_core g os o : objs_core (g_objs g) os → op_wf g o → op_wf (set_objs g os) o.
Proof.
  intros H [Hc Ho]. split; [done|]. destruct (op_kind o); simpl; try done.
  destruct Ho as (Hs & l & m & ? & Hm & Hf & Hst & Hl). split; [done|].
  destruct (objs_core_Some _ _ _ _ H Hm) as (m' & Hm' & E1 & E2 & _).
  exists l, m'. repeat split; try congruence.
  intros m'' (m0 & Hm0 & _ & E & _)%(lookup_member_core g os _ _ H).
  rewrite E. eauto.
Qed.

Lemma set_objs_inv g os :
  group_inv g → objs_core (g_objs g) os → group_inv (set_objs g os).
Proof.
  intros I H. assert (Hops := gi_ops g I). keep I.
  - intros fp l Hl. destruct (gi_objs0 fp l Hl) as (m & Hm & <-).
    destruct (objs_core_Some _ _ _ _ H Hm) as (m' & ? & ? & _). eauto.
  - intros l m' Hm'. destruct (objs_core_Some_inv _ _ _ _ H Hm') as (m & Hm & E & _).
    rewrite E. eauto.
  - destruct gi_owner0 as (m & (l & Hl & Hm)%lookup_member_Some & ? & ? & ?).
    destruct (objs_core_Some _ _ _ _ H Hm) as (m' & Hm' & E1 & E2 & E3 & E4).
    exists m'. repeat split; try congruence. apply lookup_member_Some. eauto.
  - eapply Forall_impl; [exact Hops|]. intros o Ho. by apply op_wf_core.
Qed.

Lemma lookup_bind_new g fp m fp' :
  group_inv g →
  lookup_member (bind_new_member g fp m) fp' =
    if decide (fp = fp') then Some m else lookup_member g fp'.
Proof.
  intros I. unfold lookup_member at 1. simpl. rewrite dget_dset.
  case_decide as Hd; simpl; [by rewrite lookup_insert_eq|].
  unfold lookup_member. destruct (dget (g_members g) fp') as [l|] eqn:E; [|done]. simpl.
  destruct (gi_objs g I _ _ E) as (m' & Hm' & _). apply (gi_fresh g I) in Hm' as [? _].
  by rewrite lookup_insert_ne by lia.
Qed.

Lemma bind_candidate_inv g fp m :
  group_inv g → canonical_fingerprint fp = true → m_fingerprint m = fp →
  m_status m = CANDIDATE →
  (∀ m', lookup_member g fp = Some m' → m_status m' = CANDIDATE) →
  (length (g_members g) + length (g_pending g) < MAX_GROUP_MEMBERS)%nat →
  group_inv (bind_new_member g fp m).
Proof.
  intros I Hfp Hm Hst Hcand Hcap.
  assert (Hne : ∀ l m0, g_objs g !! l = Some m0 → g_next g ≠ l).
  { intros l m0 H%(gi_fresh g I). lia. }
  assert (Hlk := lookup_bind_new g fp m). assert (I' := I). keep I.
  - by apply dict_wf_dset.
  - intros fp' l. rewrite dget_dset. case_decide.
    + intros [= <-]. exists m. by rewrite lookup_insert_eq, Hm.
    + intros Hl. destruct (gi_objs0 fp' l Hl) as (m' & Hm' & ?).
      exists m'. by rewrite lookup_insert_ne by eauto.
  - intros l m'. rewrite lookup_insert. case_decide.
    + intros [= <-]. subst. split; [lia|done].
    + intros Hlm. destruct (gi_fresh0 l m' Hlm). split; [lia|done].
  - destruct gi_owner0 as (mo & Ho & ? & ?). exists mo. rewrite Hlk by done.
    rewrite decide_False; [done|]. intros Heq. rewrite <- Heq in Ho.
    apply Hcand in Ho. congruence.
  - rewrite length_dset. case_decide; lia.
  - eapply Forall_impl; [exact gi_ops0|]. intros o [Hc Ho]. split; [done|].
    destruct (op_kind o); simpl; try done.
    destruct Ho as (Hs & l & m0 & ? & Hm0 & ? & ? & Hl). split; [done|].
    exists l, m0. repeat split; try done; [by rewrite lookup_insert_ne by eauto|].
    intros m'. rewrite Hlk by done. case_decide; [by intros [= <-]|eauto].
Qed.

Lemma enqueue_op_inv g kind subject signer cand now new_id :
  group_inv g → op_wf g (mkOp new_id kind subject signer now 0 [] None None cand) →
  group_inv (enqueue_op g kind subject signer cand now new_id).2.
Proof.
  intros I Hop. unfold enqueue_op. case_match eqn:Hlen; [done|]. breflect.
  case_match eqn:Hh; [done|]. simpl. keep I.
  - rewrite length_app. simpl. lia.
  - destruct (g_ops g); simpl in *; [constructor|]. apply Forall_app_2; [done|].
    by repeat constructor.
  - intros o. destruct (g_ops g); simpl in *; [|by eauto].
    intros [= <-] [? ?]. done.
  - apply Forall_app_2; [done|]. by constructor.
  - rewrite fmap_app. apply NoDup_app. split; [done|]. split; [|apply NoDup_singleton].
    intros k Hk. simpl. rewrite list_elem_of_singleton. intros ->.
    apply list_elem_of_fmap in Hk as (o & [= -> ->] & Ho).
    apply head_None in Hh. apply (filter_nil_not_elem_of _ _ _ Hh) in Ho; [done|by split].
Qed.

Lemma pop_op_inv g op rest : group_inv g → g_ops g = op :: rest → group_inv (set_ops g rest).
Proof.
  intros I Hops. keep I; rewrite Hops in *; simpl in *.
  - lia.
  - destruct rest; simpl in *; [done|]. by apply Forall_cons in gi_tail0 as [_ ?].
  - intros o Ho [t Ht]. destruct rest as [|o' rest]; simplify_eq/=.
    apply Forall_cons in gi_tail0 as [? _]. congruence.
  - by apply Forall_cons in gi_ops0 as [_ ?].
  - by apply NoDup_cons in gi_nodup0 as [_ ?].
Qed.

Lemma lookup_member_pop g fp fp' :
  dict_wf (g_members g) →
  lookup_member (set_members g (dpop (g_members g) fp)) fp' =
    if decide (fp = fp') then None else lookup_member g fp'.
Proof.
  intros H. unfold lookup_member. simpl. rewrite dget_dpop by done. by case_decide.
Qed.

Lemma pop_member_inv g fp :
  group_inv g → fp ≠ g_owner g → group_inv (set_members g (dpop (g_members g) fp)).
Proof.
  intros I Hne. assert (Hlk := lookup_member_pop g fp). keep I.
  - by apply dict_wf_dpop.
  - intros fp' l. rewrite dget_dpop by done. case_decide; [done|]. eauto.
  - destruct gi_owner0 as (m & ? & ?). exists m. rewrite Hlk by done. by rewrite decide_False.
  - pose proof (length_dpop (g_members g) fp). case_decide; lia.
  - eapply Forall_impl; [exact gi_ops0|]. intros o [Hc Ho]. split; [done|].
    destruct (op_kind o); simpl; try done.
    destruct Ho as (Hs & l & m0 & ? & ? & ? & ? & Hl). split; [done|].
    exists l, m0. repeat split; try done.
    intros m'. rewrite Hlk by done. case_decide; [done|eauto].
Qed.

Lemma abort_head_op_inv g : group_inv g → group_inv (abort_head_op g).
Proof.
  intros I. unfold abort_head_op. destruct (g_ops g) as [|op rest] eqn:Hops; [done|].
  assert (I1 : group_inv (set_ops g rest)) by by eapply pop_op_inv.
  pose proof (gi_ops g I) as Hwf. rewrite Hops in Hwf. apply Forall_cons in Hwf as [[_ Hwf] _].
  destruct (op_kind op); [|done..]. destruct Hwf as (_ & l & m & -> & Hm & Hf & _ & Hcand).
  rewrite Hm. apply (pop_member_inv _ (m_fingerprint m) I1). simpl. rewrite Hf.
  intros Heq. destruct (gi_owner g I) as (mo & Ho & Ha & _).
  rewrite <- Heq in Ho. apply Hcand in Ho. congruence.
Qed.

(** ** Commit *)

Lemma last_n_length {A} n (l : list A) : length (last_n n l) = Nat.min n (length l).
Proof. unfold last_n. rewrite length_drop. lia. Qed.

(** Keeping the newest events keeps their epochs consecutive. *)
Lemma last_n_epochs n (es : list GroupEvent) e (E : Z) :
  ev_epoch <$> es = seqZ (E - Z.of_nat (length es) + 1) (Z.of_nat (length es)) →
  ev_epoch e = E + 1 →
  ev_epoch <$> last_n n (es ++ [e]) =
    seqZ (E + 1 - Z.of_nat (length (last_n n (es ++ [e]))) + 1)
         (Z.of_nat (length (last_n n (es ++ [e])))).
Proof.
  intros Hes He. rewrite last_n_length. unfold last_n. rewrite fmap_drop, fmap_app, Hes. simpl.
  rewrite He. replace (E + 1) with ((E - Z.of_nat (length es) + 1) + Z.of_nat (length es)) at 1 by lia.
  rewrite <- seqZ_S, drop_seqZ, length_app. simpl. f_equal; lia.
Qed.

Lemma op_signer_canonical g o :
  group_inv g → op_wf g o → canonical_fingerprint (op_signer o) = true.
Proof.
  intros I [Hc Ho]. pose proof (owner_canonical g I).
  destruct (op_kind o); destruct Ho as [-> _]; done.
Qed.

(** The event a commit appends. *)
Definition event_of (g : Group) (op : Op) (signature : bytes) (wall : datetime) : GroupEvent :=
  mkEvent (g_group_id g) (g_epoch g + 1) (op_kind op) (op_subject op)
    (default wall (op_wall_ts op)) (op_signer op) signature.

Lemma set_epoch_inv g e :
  group_inv g → Forall (λ o, op_awaiting o = None) (g_ops g) →
  e = g_epoch g + 1 → ∀ es, (length es <= GROUP_EVENTS_KEPT)%nat →
  ev_epoch <$> es = seqZ (e - Z.of_nat (length es) + 1) (Z.of_nat (length es)) →
  group_inv (set_events (set_epoch g e) es).
Proof.
  intros I Hno -> es Hlen Hes. keep I; [lia|].
  intros o Ho [t Ht]. apply head_Some_elem_of in Ho.
  rewrite Forall_forall in Hno. rewrite Hno in Ht by done. done.
Qed.

(** Setting the candidate of the head JOIN to ACTIVE. *)
Definition admit_at (e : Z) (m : Member) : Member :=
  mkMember (m_fingerprint m) (m_handle m) (m_display_name m) (m_public_key_hex m)
    (m_role m) e ACTIVE (m_session m).

Lemma admit_inv g op rest l e :
  group_inv g → g_ops g = op :: rest → op_kind op = JOIN → op_candidate op = Some l →
  group_inv (set_objs (set_ops g rest) (alter (admit_at e) l (g_objs g))).
Proof.
  intros I Hops Hk Hl.
  assert (I1 : group_inv (set_ops g rest)) by by eapply pop_op_inv.
  pose proof (gi_ops g I) as Hwf. rewrite Hops in Hwf.
  apply Forall_cons in Hwf as [[_ Hop] _]. rewrite Hk in Hop.
  destruct Hop as (_ & l' & m & Hl' & Hm & Hf & Hst & Hcand). simplify_eq.
  pose proof (gi_nodup g I) as Hnd. rewrite Hops in Hnd. simpl in Hnd.
  apply NoDup_cons in Hnd as [Hnd _].
  assert (Halt : ∀ i m', alter (admit_at e) l (g_objs g) !! i = Some m' →
    ∃ m0, g_objs g !! i = Some m0 ∧ m_fingerprint m' = m_fingerprint m0 ∧
      (i ≠ l → m' = m0)).
  { intros i m'. rewrite lookup_alter. case_decide; [subst|].
    - rewrite Hm. intros [= <-]. by exists m.
    - intros Hi. by exists m'. }
  keep I1.
  - intros fp i Hi. destruct (gi_objs0 fp i Hi) as (m0 & Hm0 & <-).
    rewrite lookup_alter. case_decide; [subst|eauto].
    rewrite Hm in *. simplify_eq. eexists. split; [done|]. done.
  - intros i m' Hi. destruct (Halt i m' Hi) as (m0 & Hm0 & -> & _). eauto.
  - destruct gi_owner0 as (mo & (i & Hi & Hmo)%lookup_member_Some & ? & ? & ?). simpl in *.
    exists mo. split; [|done]. apply lookup_member_Some. simpl. exists i. split; [done|].
    rewrite lookup_alter_ne; [done|]. intros <-. congruence.
  - eapply Forall_impl; [apply Forall_forall; exact (λ o Ho, Ho)|]. intros o Ho.
    rewrite Forall_forall in gi_ops0. destruct (gi_ops0 o Ho) as [Hc Hwf]. split; [done|].
    destruct (op_kind o) eqn:Hko; simpl; try done.
    destruct Hwf as (Hs & i & m0 & Hi & Hm0 & Hf0 & Hst0 & Hcand0). simpl in *.
    assert (Hne : op_subject o ≠ op_subject op).
    { intros Heq. apply Hnd, list_elem_of_fmap. exists o. split; [|done].
      unfold op_key. congruence. }
    assert (Hil : l ≠ i) by (intros ->; congruence).
    split; [done|]. exists i, m0. simpl. rewrite lookup_alter_ne by done.
    repeat split; try done.
    intros m' (j & Hj & Hm')%lookup_member_Some. simpl in *.
    destruct (Halt j m' Hm') as (mj & Hmj & E & Hsame).
    destruct (decide (j = l)) as [->|Hjl].
    + exfalso. destruct (gi_objs0 _ _ Hj) as (? & ? & ?). congruence.
    + rewrite (Hsame Hjl). apply Hcand0, lookup_member_Some. eauto.
Qed.

Lemma commit_spec g op rest sig now wall :
  group_inv g → g_ops g = op :: rest →
  ∃ g2, commit (set_ops g rest) op sig now wall = (Ok (event_of g op sig wall), g2) ∧
    g_group_id g2 = g_group_id g ∧ g_epoch g2 = g_epoch g + 1 ∧
    (op_kind op = DISSOLVED → g_state g2 = Gdissolved ∧ g_dissolved_at g2 = Some now) ∧
    (op_kind op ≠ DISSOLVED → group_inv g2).
Proof.
  intros I Hops.
  pose proof (gi_ops g I) as Hwf. rewrite Hops in Hwf. apply Forall_cons in Hwf as [Hop _].
  assert (I1 : group_inv (set_ops g rest)) by by eapply pop_op_inv.
  assert (Hrest : Forall (λ o, op_awaiting o = None) rest).
  { pose proof (gi_tail g I) as H. by rewrite Hops in H. }
  assert (He := last_n_epochs GROUP_EVENTS_KEPT (g_events g) (event_of g op sig wall) (g_epoch g)
                  (gi_events g I) eq_refl).
  assert (Hn : (length (last_n GROUP_EVENTS_KEPT (g_events g ++ [event_of g op sig wall]))
                <= GROUP_EVENTS_KEPT)%nat) by (rewrite last_n_length; lia).
  unfold commit. simpl.
  rewrite GroupEvent_init_ok; [|apply I|pose proof (gi_epoch g I); lia|apply Hop|
    by apply (op_signer_canonical g)].
  fold (event_of g op sig wall). destruct Hop as [Hc Hop].
  destruct (op_kind op) eqn:Hk.
  - destruct Hop as (_ & l & m & Hl & _). rewrite Hl.
    eexists. do 4 (split; [done|]). intros _.
    pose proof (admit_inv g op rest l (g_epoch g + 1) I Hops Hk Hl) as Ia.
    exact (set_epoch_inv _ _ Ia Hrest eq_refl _ Hn He).
  - eexists. do 4 (split; [done|]). intros _.
    destruct Hop as [_ Hne]. pose proof (pop_member_inv _ (op_subject op) I1 Hne) as Ip.
    exact (set_epoch_inv _ _ Ip Hrest eq_refl _ Hn He).
  - eexists. do 4 (split; [done|]). intros _.
    destruct Hop as [_ Hne]. pose proof (pop_member_inv _ (op_subject op) I1 Hne) as Ip.
    exact (set_epoch_inv _ _ Ip Hrest eq_refl _ Hn He).
  - eexists. do 4 (split; [done|]). done.
Qed.

(** ** Preservation by the registry operations *)

Lemma put_group_inv a g :
  authority_inv a → group_inv g → dget (a_dissolved a) (g_group_id g) = None →
  authority_inv (put_group a g).
Proof.
  intros A I Hd. destruct A. constructor; simpl.
  - by apply dict_wf_dset.
  - done.
  - intros gid g'. rewrite dget_dset. case_decide; [intros [= <-]; by subst|eauto].
  - done.
  - intros gid g'. rewrite dget_dset. case_decide; [intros [= <-]; by subst|eauto].
Qed.

Lemma put_same_inv a gid g g' :
  authority_inv a → dget (a_groups a) gid = Some g → group_inv g' →
  g_group_id g' = g_group_id g → authority_inv (put_group a g').
Proof.
  intros A Hg I Hid. apply put_group_inv; [done..|]. rewrite Hid.
  destruct (ai_inv a A _ _ Hg) as [-> _]. by eapply ai_disjoint.
Qed.

Lemma settle_inv a gid g g' kind :
  authority_inv a → dget (a_groups a) gid = Some g → g_group_id g' = g_group_id g →
  (kind ≠ DISSOLVED → group_inv g') → (kind = DISSOLVED → g_state g' = Gdissolved) →
  authority_inv (settle a kind g').
Proof.
  intros A Hg Hid Hinv Hst. destruct (ai_inv a A _ _ Hg) as [Hgid I].
  unfold settle. destruct (decide (kind = DISSOLVED)) as [->|Hk].
  - destruct A. constructor; simpl.
    + by apply dict_wf_dpop.
    + by apply dict_wf_dset.
    + intros gid' g0. rewrite dget_dpop by done. case_decide; [done|eauto].
    + intros gid' g0. rewrite dget_dset. case_decide; [|eauto].
      intros [= <-]. split; [congruence|auto].
    + intros gid' g0. rewrite dget_dpop, dget_dset by done. repeat case_decide; [done|eauto].
  - assert (authority_inv (put_group a g')) by (eapply put_same_inv; eauto).
    by destruct kind.
Qed.

Lemma require_Ok a gid g :
  require a gid = Ok g → is_valid_group_id gid = true ∧ dget (a_groups a) gid = Some g.
Proof. unfold require. intros H. repeat case_match; simplify_eq. by breflect. Qed.

Lemma require_inv a gid g :
  authority_inv a → require a gid = Ok g →
  dget (a_groups a) gid = Some g ∧ g_group_id g = gid ∧ group_inv g.
Proof. intros A [_ H]%require_Ok. split; [done|]. by apply (ai_inv a A). Qed.

Lemma enqueue_op_id g kind subject signer cand now new_id :
  g_group_id (enqueue_op g kind subject signer cand now new_id).2 = g_group_id g.
Proof. unfold enqueue_op. by repeat case_match. Qed.

Lemma enqueue_in_inv a gid g kind subject signer now new_id :
  authority_inv a → dget (a_groups a) gid = Some g →
  op_wf g (mkOp new_id kind subject signer now 0 [] None None None) →
  authority_inv (enqueue_in a g kind subject signer now new_id).2.
Proof.
  intros A Hg Hwf. destruct (ai_inv a A _ _ Hg) as [Hid I].
  pose proof (enqueue_op_inv g kind subject signer None now new_id I Hwf) as I'.
  pose proof (enqueue_op_id g kind subject signer None now new_id) as Hid'.
  unfold enqueue_in. destruct (enqueue_op _ _ _ _ _ _ _) as [[?|?] g']; simpl in *;
    eapply put_same_inv; eauto.
Qed.

Section calls.
Context {P : Primitives} {L : PrimitiveLaws P}.

Lemma verify_identity_canonical key_hex handle fp :
  verify_identity_material key_hex handle = Ok fp → canonical_fingerprint fp = true.
Proof.
  unfold verify_identity_material, fingerprint_for_key_hex. intros H.
  repeat (apply bind_Ok in H as (? & ? & H)). simplify_eq.
  match goal with H : (of_option (fromhex _) _ ≫= _) = _ |- _ =>
    apply bind_Ok in H as (key & _ & H); apply of_option_Ok in H;
    by apply identity_fingerprint_canonical in H end.
Qed.

(** What the random draws of a call are. *)
Definition mints_ok (mints : list (list Z)) : Prop :=
  Forall (λ ds, length ds = 12%nat ∧ Forall draw_ok ds) mints.

Lemma mint_unique_id_Ok a mints gid :
  mints_ok mints → mint_unique_id a mints = Ok gid →
  is_valid_group_id gid = true ∧ dget (a_groups a) gid = None ∧
  dget (a_dissolved a) gid = None.
Proof.
  intros Hm H. unfold mint_unique_id in H. apply of_option_Ok, head_Some_elem_of in H.
  apply list_elem_of_filter in H as [Hfree Hin]. split; [|done].
  apply list_elem_of_fmap in Hin as (ds & -> & Hin).
  unfold mints_ok in Hm. rewrite Forall_forall in Hm.
  destruct (Hm ds) as [? ?]; [by apply elem_of_take in Hin as (i & Hi%list_elem_of_lookup_2 & _)|]. by apply generate_group_id_valid.
Qed.

Lemma create_group_inv a session_id name key pop nonce handle display suite wall mints :
  authority_inv a → mints_ok mints →
  authority_inv (create_group a session_id name key pop nonce handle display suite wall mints).2.
Proof.
  intros A Hm. unfold create_group.
  repeat (case_match; [|exact A]). simpl.
  match goal with H : mint_unique_id _ _ = _ |- _ =>
    apply mint_unique_id_Ok in H as (Hid & _ & Hd); [|done] end.
  match goal with H : verify_identity_material _ _ = _ |- _ =>
    apply verify_identity_canonical in H end.
  apply put_group_inv; [done| |done]. constructor; simpl; try done; try lia.
  - apply NoDup_singleton.
  - intros fp l Hl. destruct (decide (_ = fp)) in Hl; simplify_eq.
    eexists. by rewrite lookup_singleton_eq.
  - intros l m. rewrite lookup_singleton_Some. intros [<- <-]. split; [lia|done].
  - eexists. unfold lookup_member. simpl. rewrite decide_True by done. simpl.
    by rewrite lookup_singleton_eq.
  - apply dict_wf_nil.
  - unfold MAX_GROUP_MEMBERS. lia.
  - constructor.
Qed.

Lemma pending_dset_length g sid pj :
  group_inv g → (reserved_count g < MAX_GROUP_MEMBERS)%nat →
  (length (g_members g) + length (dset (g_pending g) sid pj) <= MAX_GROUP_MEMBERS)%nat.
Proof. intros I. rewrite reserved_count_eq, length_dset by done. case_decide; lia. Qed.

Lemma begin_join_inv a gid sid inv now :
  authority_inv a → authority_inv (begin_join_redemption a gid sid inv now).2.
Proof.
  intros A. unfold begin_join_redemption. repeat (case_match; [|exact A]). simpl.
  match goal with H : require _ _ = Ok ?g |- _ =>
    destruct (require_inv a gid g A H) as (Hg & _ & I) end.
  match goal with H : guard_or (negb (_ <=? _)%nat) _ = _ |- _ =>
    apply guard_or_Ok in H end. breflect.
  eapply put_same_inv; [done..| |done]. pose proof (gi_pending _ I).
  apply set_pending_inv; [done| |]; [by apply dict_wf_dset|by apply pending_dset_length].
Qed.

Lemma pending_pop_inv g sid :
  group_inv g → group_inv (set_pending g (dpop (g_pending g) sid)).
Proof.
  intros I. pose proof (gi_pending g I). pose proof (gi_capacity g I).
  pose proof (length_dpop (g_pending g) sid).
  apply set_pending_inv; [done|by apply dict_wf_dpop|]. case_decide; lia.
Qed.

Lemma cancel_pending_join_inv a gid sid :
  authority_inv a → authority_inv (cancel_pending_join a gid sid).
Proof.
  intros A. unfold cancel_pending_join. case_match eqn:Hg; [|done].
  destruct (ai_inv a A _ _ Hg) as [_ I].
  eapply put_same_inv; [done..| |done]. by apply pending_pop_inv.
Qed.

(** A candidate takes the slot of the pending join it redeems. *)
Lemma attest_candidate_inv a g gid fp sid key handle display now new_id :
  authority_inv a → dget (a_groups a) gid = Some g → canonical_fingerprint fp = true →
  (∀ m, lookup_member g fp = Some m → m_status m = CANDIDATE) →
  authority_inv (attest_candidate a g gid fp sid key handle display now new_id).2.
Proof.
  intros A Hg Hfp Hc. destruct (ai_inv a A _ _ Hg) as [Hid I]. unfold attest_candidate.
  do 2 (case_match; [|exact A]). case_match eqn:Hp; [|exact A].
  apply of_option_Ok in Hp.
  set (g1 := set_pending g _). set (m := mkMember _ _ _ _ _ _ _ _).
  assert (I1 : group_inv g1) by by apply pending_pop_inv.
  assert (I2 : group_inv (bind_new_member g1 fp m)).
  { apply bind_candidate_inv; [done..|]. simpl. pose proof (gi_capacity g I).
    pose proof (length_dpop (g_pending g) sid) as Hl.
    rewrite decide_True in Hl by (apply dget_is_Some; eauto). lia. }
  assert (Hwf : op_wf (bind_new_member g1 fp m)
    (mkOp new_id JOIN fp (g_owner (bind_new_member g1 fp m)) now 0 [] None None
       (Some (g_next g1)))).
  { split; [done|]. split; [done|]. exists (g_next g1), m. simpl.
    rewrite lookup_insert_eq. do 4 (split; [done|]).
    intros m' Hm'. rewrite (lookup_bind_new g1 fp m fp I1), decide_True in Hm' by done.
    by simplify_eq. }
  pose proof (enqueue_op_inv _ _ _ _ _ _ _ I2 Hwf) as I3.
  pose proof (enqueue_op_id (bind_new_member g1 fp m) JOIN fp
    (g_owner (bind_new_member g1 fp m)) (Some (g_next g1)) now new_id) as Hid3.
  destruct (enqueue_op _ _ _ _ _ _ _) as [[?|?] g3]; simpl in *;
    (eapply put_same_inv; [done..|congruence]).
Qed.

Lemma attest_inv a sid gid key sig nonce handle display now new_id :
  authority_inv a → authority_inv (attest a sid gid key sig nonce handle display now new_id).2.
Proof.
  intros A. unfold attest. case_match eqn:Hr; [|exact A].
  destruct (require_inv a gid _ A Hr) as (Hg & _ & I).
  case_match eqn:Hv; [|exact A]. apply verify_identity_canonical in Hv.
  do 3 (case_match; [|exact A]). case_match eqn:Hm.
  - destruct (gi_objs _ I _ _ Hm) as (m & Ho & Hf). rewrite Ho. simpl.
    case_match eqn:Ha.
    + case_match; [|exact A]. eapply put_same_inv; [done..| |done].
      apply set_objs_inv; [done|]. apply objs_core_alter; [done|apply objs_core_refl].
    + apply attest_candidate_inv; [done..|].
      intros m' (l' & Hl' & Hm')%lookup_member_Some. assert (m' = m) as -> by congruence.
      unfold is_active in Ha. breflect. by destruct (m_status m).
  - apply attest_candidate_inv; [done..|].
    intros m' (l' & Hl' & Hm')%lookup_member_Some. congruence.
Qed.

(** The guards of the three requests, and the operations they enqueue. *)
Lemma request_leave_inv a gid sid now new_id :
  authority_inv a → authority_inv (request_leave a gid sid now new_id).2.
Proof.
  intros A. unfold request_leave. case_match eqn:Hr; [|exact A].
  destruct (require_inv a gid _ A Hr) as (Hg & _ & I). case_match; [|exact A].
  case_match eqn:Hs; [|exact A]. case_match eqn:Hn; [|exact A].
  apply of_option_Ok, member_by_session_Some in Hs as (Hm & _); [|done].
  apply guard_or_Ok in Hn. breflect.
  eapply enqueue_in_inv; [done..|]. split; [|done]. eauto using member_fingerprint_canonical.
Qed.

Lemma request_remove_inv a gid sid fp now new_id :
  authority_inv a → authority_inv (request_remove a gid sid fp now new_id).2.
Proof.
  intros A. unfold request_remove. case_match eqn:Hr; [|exact A].
  destruct (require_inv a gid _ A Hr) as (Hg & _ & I). do 3 (case_match; [|exact A]).
  case_match eqn:Hs; [|exact A]. case_match; [|exact A]. case_match eqn:Hn; [|exact A].
  apply of_option_Ok in Hs. apply guard_or_Ok in Hn. breflect.
  eapply enqueue_in_inv; [done..|]. split; [|done].
  assert (E := lookup_member_fingerprint _ _ _ I Hs). simpl. rewrite E.
  eauto using member_fingerprint_canonical.
Qed.

Lemma request_dissolve_inv a gid sid now new_id :
  authority_inv a → authority_inv (request_dissolve a gid sid now new_id).2.
Proof.
  intros A. unfold request_dissolve. case_match eqn:Hr; [|exact A].
  destruct (require_inv a gid _ A Hr) as (Hg & _ & I). do 3 (case_match; [|exact A]).
  eapply enqueue_in_inv; [done..|]. split; [|done]. by apply owner_canonical.
Qed.

(** ** Signing *)

(** The operation [next_sign_task] leaves at the head of the queue. *)
Definition presented (g : Group) (o : Op) (now : Z) (wall : datetime) : Op :=
  match op_awaiting o with
  | Some _ => o
  | None => mkOp (op_id o) (op_kind o) (op_subject o) (op_signer o) (op_requested o)
      (g_epoch g + 1)
      (canonical_event_form (g_group_id g) (g_epoch g + 1) (kind_value (op_kind o))
         (op_subject o) wall) (Some wall) (Some now) (op_candidate o)
  end.

Lemma promote_spec g o rest now wall :
  group_inv g → g_ops g = o :: rest → op_awaiting o = None →
  promote g o now wall = (Ok tt, presented g o now wall).
Proof.
  intros I Hops Ho. pose proof (gi_ops g I) as Hwf. rewrite Hops in Hwf.
  apply Forall_cons in Hwf as [Hwf _].
  unfold promote, presented. rewrite Ho. simpl.
  rewrite GroupEvent_init_ok; [done|apply I|pose proof (gi_epoch g I); lia|apply Hwf|].
  by apply (op_signer_canonical g).
Qed.

Lemma presented_inv g o rest now wall :
  group_inv g → g_ops g = o :: rest →
  group_inv (set_ops g (presented g o now wall :: rest)).
Proof.
  intros I Hops. unfold presented. destruct (op_awaiting o) as [t|] eqn:Ho.
  - rewrite <- Hops. by destruct g.
  - keep I; rewrite Hops in *; simpl in *; try done.
    + intros o' [= <-] _. split; [done|]. by exists wall.
    + apply Forall_cons in gi_ops0 as [? ?]. by constructor.
Qed.

(** [next_sign_task] in closed form: it never raises. *)
Lemma next_sign_task_spec a gid g o rest now wall :
  authority_inv a → dget (a_groups a) gid = Some g → g_ops g = o :: rest →
  let o' := presented g o now wall in
  let g' := set_ops g (o' :: rest) in
  next_sign_task a gid now wall =
    (Ok (Some {| st_op_id := op_id o; st_group_id := gid;
       st_kind := kind_value (op_kind o); st_subject := op_subject o;
       st_epoch := g_epoch g + 1; st_signer := op_signer o;
       st_message_b64 := b64encode (op_canonical o');
       st_signer_session := session_for_fingerprint g (op_signer o) |}),
     put_group a g').
Proof.
  intros A Hg Hops o' g'. destruct (ai_inv a A _ _ Hg) as [Hid I].
  assert (Hhead := gi_head g I o). rewrite Hops in Hhead.
  unfold next_sign_task. rewrite Hg, Hops. subst o' g'.
  destruct (op_awaiting o) as [t|] eqn:Ho.
  - destruct Hhead as [He _]; [done|by eauto|]. unfold presented. rewrite Ho. simpl.
    by rewrite Hid, He.
  - rewrite (promote_spec g o rest) by done. unfold presented. rewrite Ho. simpl.
    by rewrite Hid.
Qed.

Lemma next_sign_task_inv a gid now wall :
  authority_inv a → authority_inv (next_sign_task a gid now wall).2.
Proof.
  intros A. destruct (dget (a_groups a) gid) as [g|] eqn:Hg;
    [|unfold next_sign_task; by rewrite Hg].
  destruct (g_ops g) as [|o rest] eqn:Hops; [unfold next_sign_task; by rewrite Hg, Hops|].
  rewrite (next_sign_task_spec a gid g o rest) by done. simpl.
  destruct (ai_inv a A _ _ Hg) as [_ I].
  eapply put_same_inv; [done..| |done]. by apply presented_inv.
Qed.

Lemma abort_head_op_id g : g_group_id (abort_head_op g) = g_group_id g.
Proof. unfold abort_head_op. by repeat case_match. Qed.

Lemma submit_signature_inv a gid sid oid sig now wall :
  authority_inv a → authority_inv (submit_signature a gid sid oid sig now wall).2.
Proof.
  intros A. unfold submit_signature. case_match eqn:Hr; [|exact A].
  destruct (require_inv a gid _ A Hr) as (Hg & _ & I).
  match goal with g : Group |- _ => destruct (g_ops g) as [|op rest] eqn:Hops; [exact A|] end.
  do 6 (case_match; [|exact A]). case_match.
  - eapply put_same_inv; [done..| |apply abort_head_op_id]. by apply abort_head_op_inv.
  - match goal with |- context [commit (set_ops ?g _) _ ?s _ _] =>
      destruct (commit_spec g op rest s now wall I Hops) as (g2 & -> & Hid & _ & Hd & Hi) end.
    destruct (routing_for _ _ _) as [[? ?] ?]. simpl.
    eapply settle_inv; [done|exact Hg|done|exact Hi|]. intros Hk. by apply Hd.
Qed.

(** ** Maintenance *)

Lemma filter_pending_inv g (Q : string * PendingJoin → Prop) `{∀ x, Decision (Q x)} :
  group_inv g → group_inv (set_pending g (filter Q (g_pending g))).
Proof.
  intros I. pose proof (gi_pending g I). pose proof (gi_capacity g I).
  pose proof (length_filter Q (g_pending g)).
  apply set_pending_inv; [done|by apply dict_wf_filter|lia].
Qed.

Lemma sweep_group_inv cfg now g : group_inv g → group_inv (sweep_group cfg now g).2.
Proof.
  intros I. unfold sweep_group.
  set (g1 := set_pending g _). assert (I1 : group_inv g1) by by apply filter_pending_inv.
  repeat case_match; simpl; try done; by apply abort_head_op_inv.
Qed.

Lemma sweep_group_id cfg now g : g_group_id (sweep_group cfg now g).2 = g_group_id g.
Proof. unfold sweep_group. repeat case_match; try done; simpl; by rewrite abort_head_op_id. Qed.

Lemma abort_head_op_pending g : g_pending (abort_head_op g) = g_pending g.
Proof. unfold abort_head_op. by repeat case_match. Qed.

Lemma abort_head_op_ops g : g_ops (abort_head_op g) = tail (g_ops g).
Proof.
  unfold abort_head_op. destruct (g_ops g) eqn:E; [by rewrite E|]. by repeat case_match.
Qed.

Lemma sweep_group_pending cfg now g :
  g_pending (sweep_group cfg now g).2 =
    filter (λ x, ¬ pending_expired cfg now x) (g_pending g).
Proof.
  unfold sweep_group. repeat case_match; try done; simpl; by rewrite abort_head_op_pending.
Qed.

(** No presented operation is overdue after a sweep. *)
Lemma sweep_group_ops cfg now g o t :
  group_inv g → o ∈ g_ops (sweep_group cfg now g).2 → op_awaiting o = Some t →
  now - t <= sign_timeout cfg.
Proof.
  intros I Ho Ht. pose proof (gi_tail g I) as Htail. rewrite Forall_forall in Htail.
  unfold sweep_group in Ho. cbn [g_ops set_pending] in Ho.
  destruct (g_ops g) as [|hd tl] eqn:Hops; simpl in Ho; [rewrite Hops in Ho; set_solver|].
  assert (Hhd : o = hd ∨ o ∈ tl → o = hd).
  { intros [?|Hin]; [done|]. apply Htail in Hin. congruence. }
  destruct (op_awaiting hd) as [t'|] eqn:Hh.
  - destruct (now - t' >? sign_timeout cfg) eqn:Hover; simpl in Ho.
    + rewrite abort_head_op_ops in Ho. simpl in Ho. rewrite Hops in Ho. simpl in Ho.
      apply Htail in Ho. congruence.
    + rewrite Hops, elem_of_cons in Ho. apply Hhd in Ho as ->.
      rewrite Z.gtb_ltb in Hover. breflect. rewrite Hh in Ht. by simplify_eq.
  - simpl in Ho. rewrite Hops, elem_of_cons in Ho. apply Hhd in Ho as ->. congruence.
Qed.

(** Mapping an invariant-preserving function over the hosted groups. *)
Lemma map_groups_inv a (f : Group → Group) :
  authority_inv a → (∀ g, group_inv g → group_inv (f g)) →
  (∀ g, g_group_id (f g) = g_group_id g) →
  authority_inv (set_groups a ((λ x, (x.1, f x.2)) <$> a_groups a)).
Proof.
  intros [] Hf Hid. constructor; simpl; try done.
  - by apply dict_wf_fmap.
  - intros gid g. rewrite dget_fmap, fmap_Some. intros (g0 & Hg & ->).
    destruct (ai_inv0 _ _ Hg). rewrite Hid. auto.
  - intros gid g. rewrite dget_fmap, fmap_Some. intros (g0 & Hg & ->). eauto.
Qed.

Lemma sweep_groups cfg a now :
  (sweep cfg a now).2 = mkAuthority ((λ x, (x.1, (sweep_group cfg now x.2).2)) <$> a_groups a)
    (filter (λ x, tombstone_expired cfg now x.2 = false) (a_dissolved a)).
Proof. unfold sweep. simpl. f_equal. by rewrite <- list_fmap_compose. Qed.

Lemma sweep_inv cfg a now : authority_inv a → authority_inv (sweep cfg a now).2.
Proof.
  intros A. rewrite sweep_groups.
  pose proof (map_groups_inv a _ A (sweep_group_inv cfg now) (sweep_group_id cfg now)) as A'.
  destruct A as [_ Hwf _ Ht Hdis], A' as [Hw _ Hi _ _].
  constructor; cbn [a_groups a_dissolved set_groups] in *; try done.
  - by apply dict_wf_filter.
  - intros gid g. rewrite dget_filter by done. intros [? _]. auto.
  - intros gid g Hg. apply dget_None. intros [g' Hg']%dget_is_Some.
    rewrite dget_filter in Hg' by done. destruct Hg' as [Hg' _].
    rewrite (dget_fmap (λ g, (sweep_group cfg now g).2)), fmap_Some in Hg.
    destruct Hg as (g0 & Hg & _). rewrite (Hdis _ _ Hg) in Hg'. done.
Qed.

Lemma unbind_objs_core g sid : objs_core (g_objs g) (unbind_objs g sid).
Proof.
  unfold unbind_objs. induction (values (g_members g)); simpl; [apply objs_core_refl|].
  apply objs_core_alter; [|done]. intros m. by case_decide.
Qed.

Lemma disbind_group_inv sid g : group_inv g → group_inv (disbind_group sid g).
Proof.
  intros I. unfold disbind_group. apply (filter_pending_inv (set_objs g (unbind_objs g sid))).
  apply set_objs_inv; [done|]. apply unbind_objs_core.
Qed.

Lemma disbind_session_inv a sid : authority_inv a → authority_inv (disbind_session a sid).
Proof. intros A. apply map_groups_inv; [done|apply disbind_group_inv|done]. Qed.
End calls.
