(* ===== verification/GroupSpec.v ===== *)
(** * What the group authority promises

    The calls of [GroupAuthority] as one transition system, the abstract
    machine it refines (a registry of groups with an epoch, an owner and a
    set of active identities, changed by signed events only), and the
    properties of every reachable registry. *)

From S2P Require Import Prelude Text Primitives Ids Events GroupAuthority GroupInvariant.

Open Scope Z_scope.

(** ** Calls *)

(** One call of a state-changing method, with the clock readings and the
    random draws it makes. *)
Inductive auth_call :=
| Create (session_id name key pop nonce handle display suite : string) (wall : datetime)
    (mints : list (list Z))
| BeginJoin (group_id session_id invite_id : string) (now : Z)
| CancelJoin (group_id session_id : string)
| Attest (session_id group_id key signature nonce handle display : string) (now : Z)
    (new_id : string)
| Leave (group_id session_id : string) (now : Z) (new_id : string)
| Remove (group_id session_id subject : string) (now : Z) (new_id : string)
| Dissolve (group_id session_id : string) (now : Z) (new_id : string)
| NextTask (group_id : string) (now : Z) (wall : datetime)
| Submit (group_id session_id op_id signature : string) (now : Z) (wall : datetime)
| Sweep (now : Z)
| Disbind (session_id : string).

(** The draws of [secrets.choice] are in range. *)
Definition call_ok (c : auth_call) : Prop :=
  match c with Create _ _ _ _ _ _ _ _ _ mints => mints_ok mints | _ => True end.

Section spec.
Context {P : Primitives} {L : PrimitiveLaws P} (cfg : Config).

Definition run_call (a : Authority) (c : auth_call) : Authority :=
  match c with
  | Create s n k p x h d u w ms => (create_group a s n k p x h d u w ms).2
  | BeginJoin g s i now => (begin_join_redemption a g s i now).2
  | CancelJoin g s => cancel_pending_join a g s
  | Attest s g k sg x h d now i => (attest a s g k sg x h d now i).2
  | Leave g s now i => (request_leave a g s now i).2
  | Remove g s f now i => (request_remove a g s f now i).2
  | Dissolve g s now i => (request_dissolve a g s now i).2
  | NextTask g now w => (next_sign_task a g now w).2
  | Submit g s o sg now w => (submit_signature a g s o sg now w).2
  | Sweep now => (sweep cfg a now).2
  | Disbind s => disbind_session a s
  end.

(** One step of the relay: some call, whatever its outcome. *)
Inductive auth_step (a : Authority) : Authority → Prop :=
| auth_step_call c : call_ok c → auth_step a (run_call a c).

Definition auth_reachable (a : Authority) : Prop := rtc auth_step empty_authority a.

Lemma empty_authority_inv : authority_inv empty_authority.
Proof. split; simpl; try done; apply dict_wf_nil. Qed.

Lemma run_call_inv a c : authority_inv a → call_ok c → authority_inv (run_call a c).
Proof.
  intros A Hc. destruct c; cbn [run_call call_ok] in *;
    eauto using create_group_inv, begin_join_inv, cancel_pending_join_inv, attest_inv,
      request_leave_inv, request_remove_inv, request_dissolve_inv, next_sign_task_inv,
      submit_signature_inv, sweep_inv, disbind_session_inv.
Qed.

Lemma steps_inv a a' : authority_inv a → rtc auth_step a a' → authority_inv a'.
Proof. intros A Hr. induction Hr as [|? ? ? [c Hc]]; eauto using run_call_inv. Qed.

Lemma reachable_inv a : auth_reachable a → authority_inv a.
Proof. apply steps_inv, empty_authority_inv. Qed.
End spec.

(** ** The abstract machine *)

(** A group as its members see it. *)
Record AGroup := mkA {
  ag_owner : string; ag_owner_key : string; ag_epoch : Z;
  ag_active : gset string; ag_open : bool;
}.

(** A signed event: what it does, to whom, signed by whom. *)
Record AEvent := mkAE { ae_kind : GroupEventKind; ae_subject : string; ae_signer : string }.

(** An event is authorised by its signer and bumps the epoch by one.  An
    admission adds at most its subject. *)
Inductive astep (x : AGroup) : AEvent → AGroup → Prop :=
| astep_join s act :
    ag_open x = true → s ∉ ag_active x →
    ag_active x ⊆ act → act ⊆ ag_active x ∪ {[s]} →
    astep x (mkAE JOIN s (ag_owner x))
      (mkA (ag_owner x) (ag_owner_key x) (ag_epoch x + 1) act true)
| astep_left s :
    ag_open x = true → s ≠ ag_owner x → s ∈ ag_active x →
    astep x (mkAE LEFT s s)
      (mkA (ag_owner x) (ag_owner_key x) (ag_epoch x + 1) (ag_active x ∖ {[s]}) true)
| astep_removed s :
    ag_open x = true → s ≠ ag_owner x →
    astep x (mkAE REMOVED s (ag_owner x))
      (mkA (ag_owner x) (ag_owner_key x) (ag_epoch x + 1) (ag_active x ∖ {[s]}) true)
| astep_dissolved :
    ag_open x = true →
    astep x (mkAE DISSOLVED (ag_owner x) (ag_owner x))
      (mkA (ag_owner x) (ag_owner_key x) (ag_epoch x + 1) (ag_active x) false).

(** A registry: the group behind each id. *)
Abbreviation areg := (string → option AGroup).

Definition ainitial (x : AGroup) : Prop :=
  ag_epoch x = 1 ∧ ag_active x = {[ag_owner x]} ∧ ag_open x = true.

Inductive areg_step (R R' : areg) : Prop :=
| areg_quiet :
    (∀ gid x, R' gid = Some x → R gid = Some x) →
    (∀ gid x, R gid = Some x → ag_open x = true → R' gid = Some x) → areg_step R R'
| areg_create gid x :
    R gid = None → R' gid = Some x → ainitial x →
    (∀ gid', gid' ≠ gid → R' gid' = R gid') → areg_step R R'
| areg_event gid e x x' :
    R gid = Some x → astep x e x' → R' gid = Some x' →
    (∀ gid', gid' ≠ gid → R' gid' = R gid') → areg_step R R'.

(** ** Abstraction *)

Definition active_set (g : Group) : gset string :=
  list_to_set (m_fingerprint <$> filter (λ m, m_status m = ACTIVE) (roster g)).

Definition abs (g : Group) : AGroup :=
  mkA (g_owner g) (g_owner_key g) (g_epoch g) (active_set g)
    (bool_decide (g_state g = Gactive)).

Definition abs_reg (a : Authority) : areg := λ gid,
  match dget (a_groups a) gid with
  | Some g => Some (abs g)
  | None => abs <$> dget (a_dissolved a) gid
  end.

Definition active_member (g : Group) (fp : string) : Prop :=
  ∃ m, lookup_member g fp = Some m ∧ m_status m = ACTIVE.

Lemma elem_of_active g fp : group_inv g → fp ∈ active_set g ↔ active_member g fp.
Proof.
  intros I. unfold active_set, active_member. rewrite elem_of_list_to_set, list_elem_of_fmap.
  split.
  - intros (m & -> & [? Hm]%list_elem_of_filter). apply (roster_elem g m I) in Hm. eauto.
  - intros (m & Hm & ?). pose proof (lookup_member_fingerprint g fp m I Hm). subst.
    exists m. split; [done|]. apply list_elem_of_filter. split; [done|].
    by apply (roster_elem g m I).
Qed.

(** The fields an event may change are unchanged. *)
Definition quiet (g g' : Group) : Prop :=
  g_group_id g' = g_group_id g ∧ g_owner g' = g_owner g ∧ g_owner_key g' = g_owner_key g ∧
  g_epoch g' = g_epoch g ∧ ∀ fp, active_member g' fp ↔ active_member g fp.

#[export] Instance quiet_preorder : PreOrder quiet.
Proof.
  split; [by intros g|]. intros g1 g2 g3 (?&?&?&?&Ha) (?&?&?&?&Hb).
  do 4 (split; [congruence|]). intros fp. by rewrite Hb.
Qed.

Lemma quiet_abs g g' : group_inv g → group_inv g' → quiet g g' → abs g' = abs g.
Proof.
  intros I I' (_ & Ho & Hk & He & Ha). unfold abs. rewrite Ho, Hk, He. f_equal.
  - apply set_eq. intros fp. by rewrite !elem_of_active.
  - by rewrite (gi_state g I), (gi_state g' I').
Qed.

(** Nothing but the member objects and the roster decides who is active. *)
Lemma quiet_same g g' :
  g_group_id g' = g_group_id g → g_owner g' = g_owner g → g_owner_key g' = g_owner_key g →
  g_epoch g' = g_epoch g → g_members g' = g_members g → g_objs g' = g_objs g → quiet g g'.
Proof.
  intros ? ? ? ? Hm Ho. do 4 (split; [done|]). intros fp. unfold active_member, lookup_member.
  by rewrite Hm, Ho.
Qed.

Lemma quiet_objs g os : objs_core (g_objs g) os → quiet g (set_objs g os).
Proof.
  intros H. do 4 (split; [done|]). intros fp. split.
  - intros (m' & (m & ? & _ & E & _)%(lookup_member_core g os _ _ H) & ?).
    exists m. split; [done|]. congruence.
  - intros (m & (l & Hl & Hm)%lookup_member_Some & ?).
    destruct (objs_core_Some _ _ _ _ H Hm) as (m' & Hm' & _ & E & _).
    exists m'. split; [|congruence]. apply lookup_member_Some. eauto.
Qed.

Lemma quiet_bind g fp m :
  group_inv g → m_status m = CANDIDATE →
  (∀ m', lookup_member g fp = Some m' → m_status m' = CANDIDATE) →
  quiet g (bind_new_member g fp m).
Proof.
  intros I Hm Hc. do 4 (split; [done|]). intros fp'. unfold active_member.
  setoid_rewrite (lookup_bind_new g fp m fp' I). case_decide as Hd; [subst|done].
  split; intros (m' & ? & ?); simplify_eq; [congruence|].
  rewrite (Hc m') in *; done.
Qed.

Lemma quiet_pop g fp :
  dict_wf (g_members g) →
  (∀ m', lookup_member g fp = Some m' → m_status m' = CANDIDATE) →
  quiet g (set_members g (dpop (g_members g) fp)).
Proof.
  intros Hwf Hc. do 4 (split; [done|]). intros fp'. unfold active_member.
  setoid_rewrite (lookup_member_pop g fp fp' Hwf). case_decide as Hd; [subst|done].
  split; intros (m' & ? & ?); [done|]. rewrite (Hc m') in *; done.
Qed.

Lemma quiet_enqueue g kind subject signer cand now new_id :
  quiet g (enqueue_op g kind subject signer cand now new_id).2.
Proof. unfold enqueue_op. repeat case_match; simpl; by apply quiet_same. Qed.

Lemma quiet_abort g : group_inv g → quiet g (abort_head_op g).
Proof.
  intros I. unfold abort_head_op. destruct (g_ops g) as [|op rest] eqn:Hops; [done|].
  assert (Hq : quiet g (set_ops g rest)) by by apply quiet_same.
  pose proof (gi_ops g I) as Hwf. rewrite Hops in Hwf. apply Forall_cons in Hwf as [[_ Hwf] _].
  destruct (op_kind op); [|done..]. destruct Hwf as (_ & l & m & -> & Hm & Hf & _ & Hcand).
  rewrite Hm. etrans; [exact Hq|]. rewrite Hf. apply quiet_pop; [apply I|exact Hcand].
Qed.

Lemma quiet_sweep cfg now g : group_inv g → quiet g (sweep_group cfg now g).2.
Proof.
  intros I. unfold sweep_group. set (g1 := set_pending g _).
  assert (I1 : group_inv g1) by by apply filter_pending_inv.
  assert (Hq : quiet g g1) by by apply quiet_same.
  repeat case_match; simpl; try done; (etrans; [exact Hq|by apply quiet_abort]).
Qed.

Lemma quiet_disbind sid g : quiet g (disbind_group sid g).
Proof.
  etrans; [apply (quiet_objs g (unbind_objs g sid)), unbind_objs_core|]. by apply quiet_same.
Qed.

(** ** Quiet steps of the registry *)

Definition quiet_step (a a' : Authority) : Prop :=
  (∀ gid x, abs_reg a' gid = Some x → abs_reg a gid = Some x) ∧
  (∀ gid x, abs_reg a gid = Some x → ag_open x = true → abs_reg a' gid = Some x).

Lemma quiet_step_eq a a' : (∀ gid, abs_reg a' gid = abs_reg a gid) → quiet_step a a'.
Proof. intros H. split; intros gid x; rewrite H; done. Qed.

Lemma quiet_step_refl a : quiet_step a a.
Proof. by apply quiet_step_eq. Qed.

Lemma abs_put a g gid :
  abs_reg (put_group a g) gid = if decide (g_group_id g = gid) then Some (abs g) else abs_reg a gid.
Proof. unfold abs_reg. simpl. rewrite dget_dset. by case_decide. Qed.

(** The invariant of the registry that results carries the group's. *)
Lemma quiet_put a gid g g' :
  authority_inv a → dget (a_groups a) gid = Some g → authority_inv (put_group a g') →
  quiet g g' → quiet_step a (put_group a g').
Proof.
  intros A Hg A' Hq. destruct (ai_inv a A _ _ Hg) as [Hid I].
  destruct (ai_inv _ A' (g_group_id g') g') as [_ I'];
    [by simpl; rewrite dget_dset, decide_True|].
  apply quiet_step_eq. intros gid'. rewrite abs_put. case_decide as Hd; [|done].
  destruct Hq as [Hid' Hq]. subst gid'. rewrite Hid', Hid. unfold abs_reg. rewrite Hg.
  f_equal. by apply quiet_abs.
Qed.

Lemma quiet_map a (f : Group → Group) :
  authority_inv a → (∀ g, group_inv g → group_inv (f g)) → (∀ g, group_inv g → quiet g (f g)) →
  ∀ gid, abs_reg (set_groups a ((λ x, (x.1, f x.2)) <$> a_groups a)) gid = abs_reg a gid.
Proof.
  intros A Hf Hq gid. unfold abs_reg, set_groups. cbn [a_groups a_dissolved].
  rewrite dget_fmap. destruct (dget (a_groups a) gid) as [g|] eqn:Hg; [|done]. simpl.
  destruct (ai_inv a A _ _ Hg) as [_ I]. f_equal. by apply quiet_abs; auto.
Qed.

Section quiet_calls.
Context {P : Primitives} {L : PrimitiveLaws P}.

(** A path that leaves the registry as it was. *)
Ltac stay := intros; apply quiet_step_refl.

Lemma begin_join_quiet a gid sid inv now :
  authority_inv a → quiet_step a (begin_join_redemption a gid sid inv now).2.
Proof.
  intros A. generalize (begin_join_inv a gid sid inv now A).
  unfold begin_join_redemption.
  case_match eqn:Hr; [|stay].
  destruct (require_inv a gid _ A Hr) as (Hg & _ & I).
  do 3 (case_match; [|stay]).
  intros A'. eapply quiet_put; [done..|by apply quiet_same].
Qed.

Lemma cancel_pending_join_quiet a gid sid :
  authority_inv a → quiet_step a (cancel_pending_join a gid sid).
Proof.
  intros A. generalize (cancel_pending_join_inv a gid sid A).
  unfold cancel_pending_join. case_match eqn:Hg; [|stay].
  intros A'. eapply quiet_put; [done..|by apply quiet_same].
Qed.

Lemma attest_candidate_quiet a g gid fp sid key handle display now new_id :
  authority_inv a → dget (a_groups a) gid = Some g → canonical_fingerprint fp = true →
  (∀ m, lookup_member g fp = Some m → m_status m = CANDIDATE) →
  quiet_step a (attest_candidate a g gid fp sid key handle display now new_id).2.
Proof.
  intros A Hg Hfp Hc. destruct (ai_inv a A _ _ Hg) as [_ I].
  generalize (attest_candidate_inv a g gid fp sid key handle display now new_id A Hg Hfp Hc).
  unfold attest_candidate. do 3 (case_match; [|stay]).
  set (g1 := set_pending g _). set (m := mkMember _ _ _ _ _ _ _ _).
  assert (Hq : quiet g (bind_new_member g1 fp m)).
  { etrans; [|apply (quiet_bind g1 fp m); [by apply pending_pop_inv|done|done]].
    by apply quiet_same. }
  pose proof (quiet_enqueue (bind_new_member g1 fp m) JOIN fp
    (g_owner (bind_new_member g1 fp m)) (Some (g_next g1)) now new_id) as Hq'.
  destruct (enqueue_op _ _ _ _ _ _ _) as [[?|?] g3]; simpl in *;
    (intros A'; eapply quiet_put; [done..|by etrans]).
Qed.

Lemma attest_quiet a sid gid key sig nonce handle display now new_id :
  authority_inv a →
  quiet_step a (attest a sid gid key sig nonce handle display now new_id).2.
Proof.
  intros A. generalize (attest_inv a sid gid key sig nonce handle display now new_id A).
  unfold attest. case_match eqn:Hr; [|stay].
  destruct (require_inv a gid _ A Hr) as (Hg & _ & I).
  case_match eqn:Hv; [|stay]. apply verify_identity_canonical in Hv.
  do 3 (case_match; [|stay]). case_match eqn:Hm.
  - destruct (gi_objs _ I _ _ Hm) as (m & Ho & Hf). rewrite Ho. simpl.
    case_match eqn:Ha.
    + case_match; [|stay]. intros A'. eapply quiet_put; [done..|].
      apply quiet_objs, objs_core_alter; [done|apply objs_core_refl].
    + intros _. apply attest_candidate_quiet; [done..|].
      intros m' (l' & Hl' & Hm')%lookup_member_Some. assert (m' = m) as -> by congruence.
      unfold is_active in Ha. breflect. by destruct (m_status m).
  - intros _. apply attest_candidate_quiet; [done..|].
    intros m' (l' & Hl' & Hm')%lookup_member_Some. congruence.
Qed.

Lemma enqueue_in_quiet a gid g kind subject signer now new_id :
  authority_inv a → dget (a_groups a) gid = Some g →
  authority_inv (enqueue_in a g kind subject signer now new_id).2 →
  quiet_step a (enqueue_in a g kind subject signer now new_id).2.
Proof.
  intros A Hg A'. unfold enqueue_in in *.
  pose proof (quiet_enqueue g kind subject signer None now new_id) as Hq.
  destruct (enqueue_op _ _ _ _ _ _ _) as [[?|?] g3]; simpl in *;
    by eapply quiet_put.
Qed.

(** A request ends by enqueueing on the group it found, or changes nothing. *)
Ltac request_quiet :=
  repeat (case_match; [|stay]);
  match goal with A : authority_inv ?a, Hr : require ?a ?gid = Ok _ |- _ =>
    destruct (require_inv a gid _ A Hr) as (? & _ & _) end;
  intros A'; by eapply enqueue_in_quiet.

Lemma request_leave_quiet a gid sid now new_id :
  authority_inv a → quiet_step a (request_leave a gid sid now new_id).2.
Proof.
  intros A. generalize (request_leave_inv a gid sid now new_id A).
  unfold request_leave. request_quiet.
Qed.

Lemma request_remove_quiet a gid sid fp now new_id :
  authority_inv a → quiet_step a (request_remove a gid sid fp now new_id).2.
Proof.
  intros A. generalize (request_remove_inv a gid sid fp now new_id A).
  unfold request_remove. request_quiet.
Qed.

Lemma request_dissolve_quiet a gid sid now new_id :
  authority_inv a → quiet_step a (request_dissolve a gid sid now new_id).2.
Proof.
  intros A. generalize (request_dissolve_inv a gid sid now new_id A).
  unfold request_dissolve. request_quiet.
Qed.

Lemma next_sign_task_quiet a gid now wall :
  authority_inv a → quiet_step a (next_sign_task a gid now wall).2.
Proof.
  intros A. generalize (next_sign_task_inv a gid now wall A).
  unfold next_sign_task. destruct (dget (a_groups a) gid) as [g|] eqn:Hg;
    [|stay].
  destruct (g_ops g) as [|o rest] eqn:Hops; [stay|].
  destruct (op_awaiting o) eqn:Ho; simpl.
  - intros A'. eapply quiet_put; [done..|by apply quiet_same].
  - destruct (promote g o now wall) as [[?|?] o'] eqn:Hp; simpl;
      (intros A'; eapply quiet_put; [done..|by apply quiet_same]).
Qed.

Lemma sweep_quiet cfg a now : authority_inv a → quiet_step a (sweep cfg a now).2.
Proof.
  intros A. pose proof (quiet_map a (λ g, (sweep_group cfg now g).2) A
    (sweep_group_inv cfg now) (quiet_sweep cfg now)) as Hm.
  rewrite sweep_groups. unfold abs_reg, set_groups in Hm. cbn [a_groups a_dissolved] in Hm.
  split; intros gid x; unfold abs_reg; cbn [a_groups a_dissolved]; specialize (Hm gid).
  - intros Hx. rewrite <- Hm. destruct (dget (_ <$> _) gid); [done|].
    rewrite fmap_Some in *. destruct Hx as (g & Hg & ->).
    apply dget_filter in Hg as [Hg _]; [eauto|apply A].
  - rewrite <- Hm. destruct (dget (_ <$> _) gid); [done|].
    intros (g & Hg & ->)%fmap_Some. simpl. intros Hs. apply bool_decide_eq_true in Hs.
    destruct (ai_tomb a A _ _ Hg) as [_ Ht]. congruence.
Qed.

Lemma disbind_session_quiet a sid : authority_inv a → quiet_step a (disbind_session a sid).
Proof.
  intros A. apply quiet_step_eq.
  apply quiet_map; [done|apply disbind_group_inv|intros g _; apply quiet_disbind].
Qed.
End quiet_calls.

(** ** Commits *)

(** The fields a commit leaves, by the kind of its operation. *)
Lemma commit_fields g op rest sig now wall ev g2 :
  commit (set_ops g rest) op sig now wall = (Ok ev, g2) →
  g_owner g2 = g_owner g ∧ g_owner_key g2 = g_owner_key g ∧ g_pending g2 = g_pending g ∧
  g_ops g2 = rest ∧
  match op_kind op with
  | JOIN => ∃ l, op_candidate op = Some l ∧ g_members g2 = g_members g ∧
      g_objs g2 = alter (admit_at (ev_epoch ev)) l (g_objs g)
  | LEFT | REMOVED => g_members g2 = dpop (g_members g) (op_subject op) ∧ g_objs g2 = g_objs g
  | DISSOLVED => g_members g2 = g_members g ∧ g_objs g2 = g_objs g
  end.
Proof.
  unfold commit. intros H. repeat case_match; simplify_eq/=; repeat split; eauto.
Qed.

(** Who is active after a commit. *)
Lemma commit_active g op rest sig now wall ev g2 fp :
  group_inv g → g_ops g = op :: rest →
  commit (set_ops g rest) op sig now wall = (Ok ev, g2) →
  active_member g2 fp ↔
    match op_kind op with
    | JOIN => active_member g fp ∨ fp = op_subject op ∧ dget (g_members g) fp = op_candidate op
    | LEFT | REMOVED => active_member g fp ∧ fp ≠ op_subject op
    | DISSOLVED => active_member g fp
    end.
Proof.
  intros I Hops Hc. apply commit_fields in Hc as (_ & _ & _ & _ & Hc).
  pose proof (gi_ops g I) as Hwf. rewrite Hops in Hwf. apply Forall_cons in Hwf as [[_ Hwf] _].
  assert (Hpop : g_members g2 = dpop (g_members g) (op_subject op) ∧ g_objs g2 = g_objs g →
    active_member g2 fp ↔ active_member g fp ∧ fp ≠ op_subject op).
  { intros [Hm Ho]. unfold active_member, lookup_member. rewrite Hm, Ho, dget_dpop by apply I.
    case_decide; naive_solver. }
  destruct (op_kind op); [|by auto..|].
  - destruct Hc as (l & Hl & Hm & Ho). destruct Hwf as (_ & l' & m & Hl' & Hlm & Hf & Hst & _).
    rewrite Hl in Hl'. injection Hl' as <-. unfold active_member, lookup_member.
    rewrite Hm, Ho, Hl. destruct (dget (g_members g) fp) as [i|] eqn:Hi; simpl; [|naive_solver].
    rewrite lookup_alter. destruct (decide (l = i)) as [<-|Hne].
    + destruct (gi_objs g I _ _ Hi) as (m' & Hm' & Hf'). rewrite Hlm in *. simplify_eq/=.
      naive_solver.
    + naive_solver.
  - destruct Hc as [Hm Ho]. unfold active_member, lookup_member. by rewrite Hm, Ho.
Qed.

Section commits.
Context {P : Primitives} {L : PrimitiveLaws P}.

(** What an accepted signature went through. *)
Lemma submit_signature_run a gid sid oid sig now wall co a' :
  submit_signature a gid sid oid sig now wall = (Ok co, a') →
  ∃ g op rest signer signature key g2,
    (require a gid = Ok g ∧ g_ops g = op :: rest ∧ op_id op = oid ∧
     is_Some (op_awaiting op) ∧
     session_for_fingerprint g (op_signer op) = Some sid ∧
     lookup_member g (op_signer op) = Some signer ∧
     b64decode sig = Some signature ∧ fromhex (m_public_key_hex signer) = Some key ∧
     verify_signature key signature (op_canonical op) = true ∧
     commit (set_ops g rest) op signature now wall = (Ok (co_event co), g2) ∧
     a' = settle a (op_kind op) g2) ∧
    co_join_member co =
      match op_kind op, op_candidate op with
      | JOIN, Some l => member_view <$> g_objs g2 !! l
      | _, _ => None
      end.
Proof.
  unfold submit_signature. intros H. case_match eqn:Hr; [|done].
  destruct (g_ops _) as [|op rest] eqn:Hops; [done|].
  case_match eqn:H1; [|done]. case_match eqn:H2; [|done]. case_match eqn:H3; [|done].
  case_match eqn:H4; [|done]. case_match eqn:H5; [|done]. case_match eqn:H6; [|done].
  case_match eqn:H7; [done|]. destruct (commit _ _ _ _ _) as [[ev|?] g2] eqn:Hc; [|done].
  destruct (routing_for _ _ _) as [[? ?] ?] eqn:Hrt. simplify_eq/=.
  apply guard_or_Ok, bool_decide_eq_true in H1, H3. apply of_option_Ok in H2, H4, H6.
  unfold decode_signature in H5. apply bind_Ok in H5 as (s & Hs & H5).
  apply of_option_Ok in Hs. apply bind_Ok in H5 as (_ & _ & H5). simplify_eq.
  apply negb_false_iff in H7.
  unfold routing_for in Hrt. injection Hrt as _ _ <-.
  do 7 eexists. split; [repeat split; eauto|]. done.
Qed.

Lemma submit_signature_Ok a gid sid oid sig now wall co a' :
  submit_signature a gid sid oid sig now wall = (Ok co, a') →
  ∃ g op rest signer signature key g2,
    require a gid = Ok g ∧ g_ops g = op :: rest ∧ op_id op = oid ∧
    is_Some (op_awaiting op) ∧
    session_for_fingerprint g (op_signer op) = Some sid ∧
    lookup_member g (op_signer op) = Some signer ∧
    b64decode sig = Some signature ∧ fromhex (m_public_key_hex signer) = Some key ∧
    verify_signature key signature (op_canonical op) = true ∧
    commit (set_ops g rest) op signature now wall = (Ok (co_event co), g2) ∧
    a' = settle a (op_kind op) g2.
Proof.
  intros (g & op & rest & signer & s & key & g2 & H & _)%submit_signature_run.
  by exists g, op, rest, signer, s, key, g2.
Qed.

(** A refused signature aborts the operation it was for, or nothing. *)
Lemma submit_signature_Err a gid sid oid sig now wall e a' :
  authority_inv a →
  submit_signature a gid sid oid sig now wall = (Err e, a') →
  a' = a ∨ ∃ g, dget (a_groups a) gid = Some g ∧ a' = put_group a (abort_head_op g).
Proof.
  intros A. unfold submit_signature. case_match eqn:Hr; [|intros; simplify_eq; auto].
  destruct (require_inv a gid _ A Hr) as (Hg & _ & I).
  destruct (g_ops _) as [|op rest] eqn:Hops; [intros; simplify_eq; auto|].
  do 6 (case_match; [|intros; simplify_eq; auto]). case_match; [intros; simplify_eq; eauto|].
  match goal with |- context [commit (set_ops ?g _) _ ?s _ _] =>
    destruct (commit_spec g op rest s now wall I Hops) as (g2 & -> & _) end.
  by destruct (routing_for _ _ _) as [[? ?] ?].
Qed.

Lemma commit_astep g op rest sig now wall g2 :
  group_inv g → g_ops g = op :: rest →
  session_for_fingerprint g (op_signer op) ≠ None →
  commit (set_ops g rest) op sig now wall = (Ok (event_of g op sig wall), g2) →
  astep (abs g) (mkAE (op_kind op) (op_subject op) (op_signer op)) (abs g2).
Proof.
  intros I Hops Hs Hc.
  destruct (commit_spec g op rest sig now wall I Hops) as (g2' & Hc' & _ & He & Hd & Hn).
  rewrite Hc in Hc'. injection Hc' as <-.
  pose proof (λ fp, commit_active g op rest sig now wall _ g2 fp I Hops Hc) as Ha.
  apply commit_fields in Hc as (Ho & Hk & _ & _ & Hf).
  pose proof (gi_ops g I) as Hwf. rewrite Hops in Hwf. apply Forall_cons in Hwf as [[_ Hwf] _].
  assert (Hact := λ fp, elem_of_active g fp I).
  assert (Hopen : ag_open (abs g) = true) by (simpl; by rewrite (gi_state g I)).
  assert (Hset : op_kind op = LEFT ∨ op_kind op = REMOVED →
    abs g2 = mkA (ag_owner (abs g)) (ag_owner_key (abs g)) (ag_epoch (abs g) + 1)
      (ag_active (abs g) ∖ {[op_subject op]}) true).
  { intros Hor. assert (I2 : group_inv g2) by (apply Hn; destruct Hor; congruence).
    unfold abs. simpl. rewrite Ho, Hk, He, (gi_state g2 I2). f_equal. apply set_eq.
    intros fp. rewrite elem_of_difference, elem_of_singleton, !elem_of_active, Ha by done.
    by destruct Hor as [-> | ->]. }
  destruct (op_kind op).
  - destruct Hwf as (-> & l & m & _ & _ & _ & _ & Hcand).
    assert (I2 : group_inv g2) by by apply Hn.
    assert (abs g2 = mkA (ag_owner (abs g)) (ag_owner_key (abs g)) (ag_epoch (abs g) + 1)
      (active_set g2) true) as ->
      by (unfold abs; simpl; by rewrite Ho, Hk, He, (gi_state g2 I2)).
    apply astep_join; [done|..].
    + simpl. rewrite Hact. intros (m' & Hm' & ?). rewrite (Hcand m' Hm') in *. done.
    + intros fp. simpl. rewrite Hact, (elem_of_active g2), Ha by done. auto.
    + intros fp. simpl. rewrite elem_of_union, elem_of_singleton, Hact,
        (elem_of_active g2), Ha by done. naive_solver.
  - destruct Hwf as [Heq ?]. rewrite Heq in *. rewrite Hset by auto.
    apply astep_left; [done..|]. simpl. rewrite Hact.
    destruct (session_for_fingerprint g (op_subject op)) as [sid|] eqn:E; [|done].
    apply session_for_fingerprint_Some in E as (m & ? & ? & _). by exists m.
  - destruct Hwf as [-> ?]. rewrite Hset by auto. by apply astep_removed.
  - destruct Hwf as [-> ->].
    assert (abs g2 = mkA (ag_owner (abs g)) (ag_owner_key (abs g)) (ag_epoch (abs g) + 1)
      (ag_active (abs g)) false) as ->; [|by apply astep_dissolved].
    destruct (Hd eq_refl) as [Hst _], Hf as [Hm Hob]. unfold abs, active_set, roster. simpl.
    by rewrite Ho, Hk, He, Hst, Hm, Hob.
Qed.

Lemma abs_settle a gid g kind g2 :
  authority_inv a → dget (a_groups a) gid = Some g → g_group_id g2 = gid →
  ∀ gid', abs_reg (settle a kind g2) gid' =
    if decide (gid = gid') then Some (abs g2) else abs_reg a gid'.
Proof.
  intros A Hg Hid gid'. subst gid. destruct kind; simpl; try apply abs_put.
  unfold abs_reg. simpl. rewrite dget_dpop, dget_dset by apply A.
  by case_decide.
Qed.

Lemma submit_signature_step a gid sid oid sig now wall :
  authority_inv a → areg_step (abs_reg a) (abs_reg (submit_signature a gid sid oid sig now wall).2).
Proof.
  intros A. destruct (submit_signature _ _ _ _ _ _ _) as [[co|e] a'] eqn:Hs; simpl.
  - apply submit_signature_Ok in Hs as (g & op & rest & signer & s & key & g2 & Hr & Hops & _ &
      _ & Hsess & _ & _ & _ & _ & Hc & ->).
    destruct (require_inv a gid g A Hr) as (Hg & Hid & I).
    destruct (commit_spec g op rest s now wall I Hops) as (g2' & Hc' & Hid2 & _).
    rewrite Hc in Hc'. injection Hc' as Hev <-. rewrite Hev in Hc.
    apply (areg_event _ _ gid (mkAE (op_kind op) (op_subject op) (op_signer op)) (abs g) (abs g2)).
    + unfold abs_reg. by rewrite Hg.
    + eapply commit_astep; [done..| |done]. congruence.
    + rewrite (abs_settle a gid g), decide_True by congruence. done.
    + intros gid' Hne. by rewrite (abs_settle a gid g), decide_False by congruence.
  - destruct (submit_signature_Err _ _ _ _ _ _ _ _ _ A Hs) as [-> | (g & Hg & ->)].
    + by apply areg_quiet.
    + destruct (ai_inv a A _ _ Hg) as [_ I].
      destruct (quiet_put a gid g (abort_head_op g)) as [? ?]; [done..| | |by apply areg_quiet].
      * eapply put_same_inv; [done..| |apply abort_head_op_id]. by apply abort_head_op_inv.
      * by apply quiet_abort.
Qed.

Lemma create_group_step a session_id name key pop nonce handle display suite wall mints :
  mints_ok mints →
  areg_step (abs_reg a)
    (abs_reg (create_group a session_id name key pop nonce handle display suite wall mints).2).
Proof.
  intros Hm. unfold create_group. repeat (case_match; [|by apply areg_quiet]). simpl.
  match goal with H : mint_unique_id _ _ = _ |- _ =>
    apply mint_unique_id_Ok in H as (Hid & Hg & Hd); [|done] end.
  eapply areg_create.
  - unfold abs_reg. by rewrite Hg, Hd.
  - rewrite abs_put. by rewrite decide_True.
  - split; [done|]. split; [|done]. unfold abs, active_set, roster. simpl.
    rewrite lookup_singleton_eq. simpl. by rewrite right_id_L by apply _.
  - intros gid' Hne. rewrite abs_put. by rewrite decide_False by (simpl; congruence).
Qed.

Lemma quiet_areg a a' : quiet_step a a' → areg_step (abs_reg a) (abs_reg a').
Proof. intros [? ?]. by apply areg_quiet. Qed.
End commits.
