(* ===== verification/GroupTheorems.v ===== *)
(** * Theorems about the group authority

    The properties of [groups/authority.py] over every reachable registry,
    a concrete scenario (created, joined, committed) on the executable
    primitives that witnesses them, and the two executions in which an
    admission goes wrong. *)

From S2P Require Import Prelude Text Primitives Ids Events GroupAuthority GroupInvariant GroupSpec.

Open Scope Z_scope.

(** ** A concrete scenario

    Identity [n] has the public key made of 32 bytes [n]. *)

Definition key_of (n : Z) : bytes := replicate 32 n.
Definition key_hex_of (n : Z) : string := hexdigest (key_of n).
Definition handle_of (n : Z) : string := default "" (identity_id_for (key_of n)).
Definition fp_of (n : Z) : string := default "" (identity_fingerprint (key_of n)).
Definition sign_as (n : Z) (msg : bytes) : string := b64encode (toy_sign (key_of n) msg).
Definition scenario_draws : list (list Z) := [replicate 12 0].
Definition scenario_gid : string := generate_group_id (replicate 12 0).

Definition create_call : auth_call :=
  Create "s1" "ops" (key_hex_of 1) (sign_as 1 (canonical_create_form "ops" "n")) "n"
    (handle_of 1) "" "mesh-v1" 1000 scenario_draws.

Definition attest_call (n : Z) (session op : string) : auth_call :=
  Attest session scenario_gid (key_hex_of n)
    (sign_as n (canonical_attest_form scenario_gid (fp_of n) "n")) "n" (handle_of n) "" 0 op.

(** Present the head operation and submit its signature by identity [n]. *)
Definition sign_calls (a : Authority) (n : Z) (session op : string) : Authority :=
  let a1 := run_call default_config a (NextTask scenario_gid 0 2000) in
  let canonical := match dget (a_groups a1) scenario_gid with
                   | Some g => from_option op_canonical [] (head (g_ops g))
                   | None => []
                   end in
  run_call default_config a1 (Submit scenario_gid session op (sign_as n canonical) 0 2000).

Definition run_calls (a : Authority) (cs : list auth_call) : Authority :=
  foldl (run_call default_config) a cs.

Definition created : Authority := run_calls empty_authority [create_call].

(** Identity 2 redeemed an invite and attested: its admission waits. *)
Definition awaiting : Authority :=
  run_calls created [BeginJoin scenario_gid "s2" "i" 0; attest_call 2 "s2" "op1"].

(** ... and was presented to the owner. *)
Definition offered : Authority := run_call default_config awaiting (NextTask scenario_gid 0 2000).

Definition scenario_group (a : Authority) : option Group := dget (a_groups a) scenario_gid.

Definition group_in (a : Authority) : Group :=
  default (mkGroup "" "" Gactive "" "" 0 "" [] ∅ 0 [] [] [] 0 None) (scenario_group a).

Definition offered_canonical : bytes :=
  from_option op_canonical [] (head (g_ops (group_in offered))).

Definition owner_call : auth_call :=
  Submit scenario_gid "s1" "op1" (sign_as 1 offered_canonical) 0 2000.

(** ... and the owner signed. *)
Definition joined : Authority := run_call default_config offered owner_call.

Definition statuses (a : Authority) : option (list (string * MemberStatus)) :=
  (λ g, (λ m, (m_fingerprint m, m_status m)) <$> roster g) <$> scenario_group a.

Example scenario_statuses :
  statuses joined = Some [(fp_of 1, ACTIVE); (fp_of 2, ACTIVE)].
Proof. vm_compute. reflexivity. Qed.

Lemma run_calls_reachable a cs :
  auth_reachable default_config a → Forall call_ok cs →
  auth_reachable default_config (run_calls a cs).
Proof.
  intros Ha H. revert a Ha. induction H as [|c cs Hc _ IH]; intros a Ha; [done|]. simpl.
  apply IH. eapply rtc_r; [exact Ha|]. by constructor.
Qed.

Lemma created_reachable : auth_reachable default_config created.
Proof.
  apply run_calls_reachable; [apply rtc_refl|]. repeat constructor; unfold draw_ok; lia.
Qed.

Lemma awaiting_reachable : auth_reachable default_config awaiting.
Proof. apply run_calls_reachable; [apply created_reachable|]. by repeat constructor. Qed.

Lemma offered_reachable : auth_reachable default_config offered.
Proof. eapply rtc_r; [exact awaiting_reachable|]. apply auth_step_call. exact I. Qed.

Lemma sign_calls_reachable a n session op :
  auth_reachable default_config a → auth_reachable default_config (sign_calls a n session op).
Proof.
  intros H. unfold sign_calls. eapply rtc_r; [eapply rtc_r; [exact H|]|]; by constructor.
Qed.

(** The owner's signature is one call on the state that offered it. *)
Lemma joined_step : auth_step default_config offered joined.
Proof. unfold joined. apply auth_step_call. exact I. Qed.

Lemma joined_reachable : auth_reachable default_config joined.
Proof. eapply rtc_r; [exact offered_reachable|exact joined_step]. Qed.

(** ** Refinement and invariants *)

Section theorems.
Context {P : Primitives} {L : PrimitiveLaws P} (cfg : Config).

Lemma run_call_refines a c :
  authority_inv a → call_ok c → areg_step (abs_reg a) (abs_reg (run_call cfg a c)).
Proof.
  intros A Hc. destruct c; cbn [run_call call_ok] in *;
    eauto using create_group_step, submit_signature_step;
    apply quiet_areg; eauto using begin_join_quiet, cancel_pending_join_quiet, attest_quiet,
      request_leave_quiet, request_remove_quiet, request_dissolve_quiet, next_sign_task_quiet,
      sweep_quiet, disbind_session_quiet.
Qed.

(** C1: The authority refines the abstract registry: from every reachable
    state every call, successful or not, is a step of the abstract
    machine. It leaves all open groups as they are (owner, owner key,
    epoch, active identities), or creates one group at epoch 1 whose only
    active identity is its owner, or applies to one group one event that
    its signer may sign, with the epoch going up by exactly one. *)
Theorem authority_refines_registry a a' :
  auth_reachable cfg a → auth_step cfg a a' → areg_step (abs_reg a) (abs_reg a').
Proof. intros A%reachable_inv [c Hc]. by apply run_call_refines. Qed.

(** C2: On every reachable state a hosted group reserves at most eight
    seats (active members, candidates and pending redemptions together),
    queues at most eight operations of which only the head was presented,
    keeps at most sixteen events whose epochs are consecutive and end at
    the current one, and its owner is an active OWNER on the roster with
    the key the group was created with. *)
Theorem reachable_group_bounds a gid g :
  auth_reachable cfg a → dget (a_groups a) gid = Some g →
  g_group_id g = gid ∧ 1 <= g_epoch g ∧
  (reserved_count g <= MAX_GROUP_MEMBERS)%nat ∧
  (length (g_ops g) <= GROUP_MAX_PENDING_OPS)%nat ∧
  Forall (λ o, op_awaiting o = None) (tail (g_ops g)) ∧
  (length (g_events g) <= GROUP_EVENTS_KEPT)%nat ∧
  (∀ e, last (g_events g) = Some e → ev_epoch e = g_epoch g) ∧
  (∀ i e e', g_events g !! i = Some e → g_events g !! S i = Some e' →
     ev_epoch e' = ev_epoch e + 1) ∧
  (∃ m, lookup_member g (g_owner g) = Some m ∧ m_fingerprint m = g_owner g ∧
     m_status m = ACTIVE ∧ m_role m = OWNER ∧ m_public_key_hex m = g_owner_key g).
Proof.
  intros A%reachable_inv Hg. destruct (ai_inv a A _ _ Hg) as [Hid I].
  assert (Hev : ∀ i e, g_events g !! i = Some e →
    ev_epoch e = g_epoch g - Z.of_nat (length (g_events g)) + 1 + Z.of_nat i).
  { intros i e He. assert (Hi : (ev_epoch <$> g_events g) !! i = Some (ev_epoch e))
      by (by rewrite list_lookup_fmap, He).
    rewrite (gi_events g I) in Hi. apply lookup_seqZ in Hi. lia. }
  split; [done|]. split; [apply I|]. rewrite (reserved_count_eq g I).
  do 4 (split; [apply I|]). split; [|split].
  - intros e He. rewrite last_lookup in He. pose proof (lookup_lt_Some _ _ _ He).
    apply Hev in He. lia.
  - intros i e e' ->%Hev ->%Hev. lia.
  - destruct (gi_owner g I) as (m & Hm & ?). exists m. split; [done|]. split; [|done].
    by apply (lookup_member_fingerprint g).
Qed.

(** The roster changes only with the epoch: across any one call a
    group that stays hosted keeps its owner and owner key, its epoch
    stays or goes up by one, and while the epoch stays the set of active
    identities stays. *)
Theorem roster_changes_with_epoch a a' gid g g' :
  auth_reachable cfg a → auth_step cfg a a' →
  dget (a_groups a) gid = Some g → dget (a_groups a') gid = Some g' →
  g_owner g' = g_owner g ∧ g_owner_key g' = g_owner_key g ∧
  (g_epoch g' = g_epoch g ∧ active_set g' = active_set g ∨ g_epoch g' = g_epoch g + 1).
Proof.
  intros A%reachable_inv [c Hc] Hg Hg'.
  assert (E : abs_reg a gid = Some (abs g)) by (unfold abs_reg; by rewrite Hg).
  assert (E' : abs_reg (run_call cfg a c) gid = Some (abs g'))
    by (unfold abs_reg; by rewrite Hg').
  destruct (run_call_refines a c A Hc) as [Hq _ | gid0 x Hn _ _ Hrest
                                          | gid0 e x x' Hx Hs Hx' Hrest].
  - apply Hq in E'. rewrite E in E'. injection E'. naive_solver.
  - destruct (decide (gid = gid0)) as [->|Hne]; [congruence|].
    rewrite Hrest, E in E' by done. injection E'. naive_solver.
  - destruct (decide (gid = gid0)) as [->|Hne]; cycle 1.
    { rewrite Hrest, E in E' by done. injection E'. naive_solver. }
    rewrite E in Hx. rewrite E' in Hx'. simplify_eq. inversion Hs; simplify_eq/=; auto.
Qed.
End theorems.

Lemma authority_refines_registry_witness :
  areg_step (abs_reg offered) (abs_reg joined).
Proof.
  exact (authority_refines_registry default_config offered joined offered_reachable joined_step).
Defined.

Lemma group_in_joined : dget (a_groups joined) scenario_gid = Some (group_in joined).
Proof. vm_compute. reflexivity. Qed.

Lemma group_in_offered : dget (a_groups offered) scenario_gid = Some (group_in offered).
Proof. vm_compute. reflexivity. Qed.

Lemma reachable_group_bounds_witness :
  (reserved_count (group_in joined) <= MAX_GROUP_MEMBERS)%nat.
Proof.
  destruct (reachable_group_bounds default_config joined scenario_gid (group_in joined)
              joined_reachable group_in_joined) as (_ & _ & H & _).
  exact H.
Defined.

Lemma roster_changes_with_epoch_witness :
  g_owner (group_in joined) = g_owner (group_in offered) ∧ g_epoch (group_in joined) = 2.
Proof.
  split; [|vm_compute; reflexivity].
  destruct (roster_changes_with_epoch default_config offered joined scenario_gid
    (group_in offered) (group_in joined) offered_reachable joined_step group_in_offered
    group_in_joined) as (H & _).
  exact H.
Defined.

(** ** Signatures *)

Section signatures.
Context {P : Primitives} {L : PrimitiveLaws P} (cfg : Config).

(** Who may sign an event. *)
Definition may_sign (g : Group) (e : GroupEvent) : Prop :=
  match ev_kind e with
  | LEFT => ev_signer_fingerprint e = ev_subject_fingerprint e ∧
      ev_subject_fingerprint e ≠ g_owner g
  | REMOVED => ev_signer_fingerprint e = g_owner g ∧ ev_subject_fingerprint e ≠ g_owner g
  | JOIN | DISSOLVED => ev_signer_fingerprint e = g_owner g
  end.

(** C3: Every committed event is authentic: when [submit_signature]
    returns, the session that submitted is bound to the active member
    named as signer, that member may sign this kind of event, the event
    is the queue head at the next epoch, and the stored signature
    verifies under the signer's roster key over the canonical bytes of
    the stored event itself, which are the bytes that were presented. *)
Theorem submit_signature_authentic a gid sid oid sig now wall co a' :
  auth_reachable cfg a → submit_signature a gid sid oid sig now wall = (Ok co, a') →
  ∃ g op signer key, let e := co_event co in
    dget (a_groups a) gid = Some g ∧ head (g_ops g) = Some op ∧ op_id op = oid ∧
    lookup_member g (ev_signer_fingerprint e) = Some signer ∧
    m_status signer = ACTIVE ∧ m_session signer = Some sid ∧
    fromhex (m_public_key_hex signer) = Some key ∧
    ev_group_id e = gid ∧ ev_epoch e = g_epoch g + 1 ∧ may_sign g e ∧
    ev_kind e = op_kind op ∧ ev_subject_fingerprint e = op_subject op ∧
    event_canonical e = op_canonical op ∧ b64decode sig = Some (ev_signature e) ∧
    verify_signature key (ev_signature e) (event_canonical e) = true.
Proof.
  intros A%reachable_inv Hs.
  apply submit_signature_Ok in Hs as (g & op & rest & signer & s & key & g2 & Hr & Hops & Hoid &
    Haw & Hsess & Hsig & Hdec & Hkey & Hver & Hc & ->).
  destruct (require_inv a gid g A Hr) as (Hg & Hid & I).
  destruct (commit_spec g op rest s now wall I Hops) as (g2' & Hc' & _).
  rewrite Hc in Hc'. injection Hc' as -> <-.
  apply session_for_fingerprint_Some in Hsess as (m & Hm & ? & ?).
  rewrite Hsig in Hm. injection Hm as <-.
  pose proof (gi_ops g I) as Hwf. rewrite Hops in Hwf. apply Forall_cons in Hwf as [[_ Hwf] _].
  destruct (gi_head g I op) as (_ & w & Hw & Hcan); [by rewrite Hops|done|].
  assert (Hev : event_canonical (event_of g op s wall) = op_canonical op).
  { rewrite Hcan. unfold event_canonical, event_of. simpl. by rewrite Hw. }
  exists g, op, signer, key. cbv zeta. rewrite Hev, Hops. simpl.
  do 9 (split; [done|]). split; [|done].
  unfold may_sign. simpl. destruct (op_kind op); naive_solver.
Qed.

(** What a commit leaves in the group it commits to. *)
Lemma commit_leaves g op rest s now wall e g2 :
  commit (set_ops g rest) op s now wall = (Ok e, g2) →
  g_group_id g2 = g_group_id g ∧ g_ops g2 = rest ∧ g_epoch g2 = g_epoch g + 1 ∧ last (g_events g2) = Some e ∧
  (op_kind op = LEFT ∨ op_kind op = REMOVED → g_members g2 = dpop (g_members g) (op_subject op)).
Proof.
  unfold commit. intros H. case_match; [|done].
  assert (Hl : ∀ l : list GroupEvent, last (last_n GROUP_EVENTS_KEPT (l ++ [a])) = Some a).
  { intros l. unfold last_n. rewrite length_app. cbn [length].
    rewrite (drop_app_le l [a]) by (assert (GROUP_EVENTS_KEPT ≠ 0%nat) by done; lia). apply last_snoc. }
  destruct (op_kind op); [destruct (op_candidate op)|..]; simplify_eq/=; rewrite Hl; split_and!; try done; intros []; done.
Qed.

(** C31: The signing round completes: for the head operation of a hosted
    group whose signer is bound to a session, a 64-byte signature that
    verifies under the signer's key over the message of the sign task,
    submitted by that session, is committed at the next epoch.  The operation
    leaves the queue, which keeps the others in order, the committed event is
    the newest of the group's history, and a member who leaves or is removed is
    off the roster; a dissolved group moves to the tombstones, any other
    stays hosted. *)
Theorem signing_round_commits a gid g op rest sid signer key signature now wall now' wall' :
  auth_reachable cfg a → dget (a_groups a) gid = Some g → g_ops g = op :: rest →
  session_for_fingerprint g (op_signer op) = Some sid →
  lookup_member g (op_signer op) = Some signer → fromhex (m_public_key_hex signer) = Some key →
  length signature = 64%nat → bytes_ok signature →
  (∀ task message, (next_sign_task a gid now wall).1 = Ok (Some task) →
     b64decode (st_message_b64 task) = Some message →
     verify_signature key signature message = true) →
  ∃ co a' g', submit_signature (next_sign_task a gid now wall).2 gid sid (op_id op)
           (b64encode signature) now' wall' = (Ok co, a') ∧
    (if decide (op_kind op = DISSOLVED) then dget (a_groups a') gid = None ∧ dget (a_dissolved a') gid = Some g'
     else dget (a_groups a') gid = Some g') ∧
    g_ops g' = rest ∧ g_epoch g' = g_epoch g + 1 ∧ last (g_events g') = Some (co_event co) ∧
    (op_kind op = LEFT ∨ op_kind op = REMOVED → g_members g' = dpop (g_members g) (op_subject op)) ∧
    ev_epoch (co_event co) = g_epoch g + 1 ∧ ev_kind (co_event co) = op_kind op ∧
    ev_subject_fingerprint (co_event co) = op_subject op ∧
    ev_signature (co_event co) = signature.
Proof.
  intros A%reachable_inv Hg Hops Hsess Hsig Hkey Hlen Hok Hver.
  destruct (ai_inv a A _ _ Hg) as [Hid I].
  assert (Hgid : is_valid_group_id gid = true) by (rewrite <- Hid; apply I).
  rewrite (next_sign_task_spec a gid g op rest now wall A Hg Hops) in *. simpl in *.
  set (op' := presented g op now wall) in *. set (g' := set_ops g (op' :: rest)).
  assert (I' : group_inv g') by by apply presented_inv.
  assert (Haw : is_Some (op_awaiting op'))
    by (subst op'; unfold presented; destruct (op_awaiting op) eqn:E; simpl; rewrite ?E; eauto).
  assert (Hsame : op_id op' = op_id op ∧ op_signer op' = op_signer op ∧
    op_kind op' = op_kind op ∧ op_subject op' = op_subject op)
    by (subst op'; unfold presented; by destruct (op_awaiting op)).
  destruct Hsame as (Ei & Es & Ek & Eu).
  assert (Hv : verify_signature key signature (op_canonical op') = true).
  { eapply Hver; [done|]. simpl. apply b64_roundtrip.
    destruct (gi_head g' I' op') as (_ & w & _ & ->); [done..|]. apply encode_ok. }
  unfold submit_signature, require. rewrite Hgid. simpl.
  rewrite dget_dset, decide_True by done.
  change (g_ops g') with (op' :: rest). simpl. rewrite Ei, Es.
  unfold guard_or. rewrite bool_decide_true by done. simpl.
  destruct Haw as [t ->]. simpl. change (session_for_fingerprint g' (op_signer op))
    with (session_for_fingerprint g (op_signer op)).
  rewrite Hsess, bool_decide_true by done. simpl.
  change (lookup_member g' (op_signer op)) with (lookup_member g (op_signer op)).
  rewrite Hsig. simpl. unfold decode_signature. rewrite b64_roundtrip by done. simpl.
  rewrite Hlen. simpl. rewrite Hkey. simpl. rewrite Hv. simpl.
  destruct (commit_spec g' op' rest signature now' wall' I' eq_refl) as (g2 & Hc & _).
  destruct (commit_leaves _ _ _ _ _ _ _ _ Hc) as (Eg & Eo & Ee & El & Em). rewrite Hc. cbn [op_kind].
  eexists _, _, g2. split; [reflexivity|]. simpl in Eg, Ee, Em. rewrite Ek, Eu in *. split; [|done].
  assert (Egid : g_group_id g2 = gid) by congruence. unfold settle.
  case_decide as Hk; [rewrite Hk; simpl|destruct (op_kind op); try done; simpl]; rewrite Egid.
  - split; [|by rewrite dget_dset, decide_True].
    rewrite dget_dpop by (apply dict_wf_dset, (ai_groups a A)). by rewrite decide_True.
  - by rewrite dget_dset, decide_True.
  - by rewrite dget_dset, decide_True.
  - by rewrite dget_dset, decide_True.
Qed.
End signatures.

Definition committed_of (r : result GroupError CommittedOp) : CommittedOp :=
  match r with
  | Ok co => co
  | Err _ => {| co_event := mkEvent "" 0 JOIN "" 0 "" []; co_join_member := None;
                co_notify := []; co_unbind := [] |}
  end.

Definition scenario_committed : CommittedOp :=
  committed_of (submit_signature offered scenario_gid "s1" "op1" (sign_as 1 offered_canonical)
                  0 2000).1.

Lemma owner_submits :
  submit_signature offered scenario_gid "s1" "op1" (sign_as 1 offered_canonical) 0 2000 =
    (Ok scenario_committed, joined).
Proof. vm_compute. reflexivity. Qed.

Lemma committed_signer : ev_signer_fingerprint (co_event scenario_committed) = fp_of 1.
Proof. vm_compute. reflexivity. Qed.

Lemma submit_signature_authentic_witness :
  ∃ g op signer key,
    dget (a_groups offered) scenario_gid = Some g ∧ head (g_ops g) = Some op ∧
    lookup_member g (fp_of 1) = Some signer ∧ fromhex (m_public_key_hex signer) = Some key ∧
    verify_signature key (ev_signature (co_event scenario_committed)) (op_canonical op) = true.
Proof.
  destruct (submit_signature_authentic default_config offered scenario_gid "s1" "op1"
    (sign_as 1 offered_canonical) 0 2000 scenario_committed joined
    offered_reachable owner_submits) as (g & op & signer & key & H).
  cbv zeta in H. rewrite committed_signer in H.
  destruct H as (H1 & H2 & _ & H3 & _ & _ & H4 & _ & _ & _ & _ & _ & H5 & _ & H6).
  rewrite H5 in H6. exists g, op, signer, key. exact (conj H1 (conj H2 (conj H3 (conj H4 H6)))).
Defined.

Definition awaiting_op : Op :=
  default (mkOp "" JOIN "" "" 0 0 [] None None None) (head (g_ops (group_in awaiting))).

Definition awaiting_signer : Member :=
  default (mkMember "" "" "" "" MEMBER 0 CANDIDATE None)
    (lookup_member (group_in awaiting) (op_signer awaiting_op)).

Definition task_message (r : result GroupError (option SignTask)) : option bytes :=
  match r with Ok (Some t) => b64decode (st_message_b64 t) | _ => None end.

Lemma awaiting_message task message :
  (next_sign_task awaiting scenario_gid 0 2000).1 = Ok (Some task) →
  b64decode (st_message_b64 task) = Some message → message = offered_canonical.
Proof.
  assert (H : task_message (next_sign_task awaiting scenario_gid 0 2000).1 =
              Some offered_canonical) by (vm_compute; reflexivity).
  intros E Hm. rewrite E in H. unfold task_message in H. congruence.
Qed.

Lemma signing_round_commits_witness :
  ∃ co a' g', submit_signature (next_sign_task awaiting scenario_gid 0 2000).2 scenario_gid "s1"
           (op_id awaiting_op) (b64encode (toy_sign (key_of 1) offered_canonical)) 0 2000 = (Ok co, a') ∧
    dget (a_groups a') scenario_gid = Some g' ∧ g_ops g' = [] ∧ g_epoch g' = g_epoch (group_in awaiting) + 1.
Proof.
  destruct (signing_round_commits default_config awaiting scenario_gid (group_in awaiting)
    awaiting_op [] "s1" awaiting_signer (key_of 1) (toy_sign (key_of 1) offered_canonical)
    0 2000 0 2000 awaiting_reachable) as (co & a' & g' & Hco & Hg & Ho & He & _).
  - vm_compute. reflexivity.
  - vm_compute. reflexivity.
  - vm_compute. reflexivity.
  - vm_compute. reflexivity.
  - vm_compute. reflexivity.
  - vm_compute. reflexivity.
  - apply Forall_app_2; apply toy_laws.
  - intros task message Ht Hm. rewrite (awaiting_message task message Ht Hm).
    vm_compute. reflexivity.
  - exists co, a', g'. split; [exact Hco|]. split; [|exact (conj Ho He)].
    rewrite decide_False in Hg by (vm_compute; discriminate). exact Hg.
Defined.

(** ** Forwarding *)

Section forwarding.
Context {P : Primitives} {L : PrimitiveLaws P} (cfg : Config).

(** A frame is relayed exactly between two different active members:
    on a reachable state [authorize_forward] returns iff the group is
    hosted, the sending session is bound to an active member, the
    recipient named by the (trimmed, upper-cased) fingerprint is an
    active member of the roster other than the sender, and the frame's
    epoch is the current or the previous one; the result is the
    recipient's session, if it is connected. *)
Theorem authorize_forward_iff a gid sid to epoch s :
  auth_reachable cfg a →
  authorize_forward a gid sid to epoch = Ok s ↔
    ∃ g sender target, dget (a_groups a) gid = Some g ∧
      member_by_session g sid = Some sender ∧
      lookup_member g (m_fingerprint sender) = Some sender ∧
      m_session sender = Some sid ∧ m_status sender = ACTIVE ∧
      lookup_member g (upper (strip to)) = Some target ∧ m_status target = ACTIVE ∧
      m_fingerprint target ≠ m_fingerprint sender ∧
      g_epoch g - 1 <= epoch <= g_epoch g ∧ s = m_session target.
Proof.
  intros A%reachable_inv. unfold authorize_forward. split.
  - intros H. apply bind_Ok in H as (g & Hr & H). apply bind_Ok in H as (_ & _ & H).
    apply bind_Ok in H as (sender & Hs & H). destruct (require_inv a gid g A Hr) as (Hg & _ & I).
    apply of_option_Ok in Hs. pose proof (member_by_session_Some g sid sender I Hs).
    case_match eqn:Hne; [done|]. case_match eqn:He; [done|].
    destruct (lookup_member g _) as [t|] eqn:Ht; [|done]. case_match eqn:Ha; [|done].
    unfold is_active in Ha. apply orb_false_iff in He as [He1 He2]. rewrite Z.gtb_ltb in He2.
    breflect. pose proof (lookup_member_fingerprint g _ t I Ht). simplify_eq.
    exists g, sender, t. naive_solver (congruence || lia).
  - intros (g & sender & t & Hg & Hs & _ & _ & _ & Ht & Ha & Hne & He & ->).
    destruct (ai_inv a A _ _ Hg) as [Hid I]. unfold require.
    rewrite <- Hid, (gi_id g I), Hid, Hg. simpl. unfold require_active_group.
    rewrite (gi_state g I). simpl. unfold require_member_session. rewrite Hs. simpl.
    rewrite (lookup_member_fingerprint g _ t I Ht) in Hne.
    rewrite bool_decide_false, Ht by done. rewrite Z.gtb_ltb.
    destruct (Z.ltb_spec epoch (g_epoch g - 1)), (Z.ltb_spec (g_epoch g) epoch); try lia.
    simpl. unfold is_active. by rewrite bool_decide_true.
Qed.

(** Dissolution is terminal: on a reachable state, for a group among
    the tombstones, redeeming, attesting, leaving, removing, dissolving
    again, submitting a signature, forwarding, listing the roster and
    minting an invite all raise [GroupDissolvedError] and change nothing,
    and there is no operation left to sign. *)
Theorem dissolved_is_terminal a gid g sid x y z n h d e now wall oid :
  auth_reachable cfg a → dget (a_dissolved a) gid = Some g → is_valid_group_id gid = true →
  begin_join_redemption a gid sid x now = (Err GroupDissolvedError, a) ∧
  attest a sid gid x y n h d now oid = (Err GroupDissolvedError, a) ∧
  request_leave a gid sid now oid = (Err GroupDissolvedError, a) ∧
  request_remove a gid sid x now oid = (Err GroupDissolvedError, a) ∧
  request_dissolve a gid sid now oid = (Err GroupDissolvedError, a) ∧
  submit_signature a gid sid oid z now wall = (Err GroupDissolvedError, a) ∧
  authorize_forward a gid sid x e = Err GroupDissolvedError ∧
  roster_view a gid sid = Err GroupDissolvedError ∧
  allow_invite_mint a gid sid e = Err GroupDissolvedError ∧
  next_sign_task a gid now wall = (Ok None, a) ∧
  cancel_pending_join a gid sid = a.
Proof.
  intros A%reachable_inv Hd Hid.
  assert (Hg : dget (a_groups a) gid = None).
  { destruct (dget (a_groups a) gid) as [g'|] eqn:Hg; [|done].
    rewrite (ai_disjoint a A _ _ Hg) in Hd. done. }
  assert (Hr : require a gid = Err GroupDissolvedError).
  { unfold require, dmem. rewrite Hid, Hg. simpl. by rewrite bool_decide_true by eauto. }
  unfold begin_join_redemption, attest, request_leave, request_remove, request_dissolve,
    submit_signature, authorize_forward, roster_view, allow_invite_mint, next_sign_task,
    cancel_pending_join.
  by rewrite Hr, Hg.
Qed.

(** [sweep] enforces every deadline and nothing else: of the pending
    redemptions of a hosted group exactly those within the join window
    stay, no presented operation is overdue afterwards, and exactly the
    tombstones within the retention window stay. *)
Theorem sweep_enforces_deadlines a now :
  auth_reachable cfg a →
  (∀ gid g', dget (a_groups (sweep cfg a now).2) gid = Some g' →
    ∃ g, dget (a_groups a) gid = Some g ∧
      (∀ s pj, dget (g_pending g') s = Some pj ↔
         dget (g_pending g) s = Some pj ∧ now - pj_created pj <= join_pending cfg) ∧
      (∀ o t, o ∈ g_ops g' → op_awaiting o = Some t → now - t <= sign_timeout cfg)) ∧
  (∀ gid g, dget (a_dissolved (sweep cfg a now).2) gid = Some g ↔
    dget (a_dissolved a) gid = Some g ∧ tombstone_expired cfg now g = false).
Proof.
  intros A%reachable_inv. rewrite sweep_groups. cbn [a_groups a_dissolved]. split; cycle 1.
  { intros gid g. apply dget_filter, A. }
  intros gid g'. rewrite (dget_fmap (λ g, (sweep_group cfg now g).2)), fmap_Some.
  intros (g & Hg & ->). exists g. split; [done|].
  destruct (ai_inv a A _ _ Hg) as [_ I]. split.
  - intros s pj. rewrite sweep_group_pending, dget_filter by apply I.
    unfold pending_expired. simpl. split; intros [? ?]; (split; [done|lia]).
  - intros o t Ho Ht. eapply sweep_group_ops; eauto.
Qed.
End forwarding.

Lemma scenario_forward : authorize_forward joined scenario_gid "s2" (fp_of 1) 1 = Ok (Some "s1").
Proof. vm_compute. reflexivity. Qed.

Lemma authorize_forward_iff_witness :
  ∃ g sender target, dget (a_groups joined) scenario_gid = Some g ∧
    member_by_session g "s2" = Some sender ∧
    lookup_member g (upper (strip (fp_of 1))) = Some target ∧ m_status target = ACTIVE.
Proof.
  pose proof (proj1 (authorize_forward_iff default_config joined scenario_gid "s2" (fp_of 1) 1
                       (Some "s1") joined_reachable) scenario_forward) as H.
  destruct H as (g & sender & target & H1 & H2 & _ & _ & _ & H3 & H4 & _).
  exists g, sender, target. exact (conj H1 (conj H2 (conj H3 H4))).
Defined.

(** The owner dissolves the scenario's group. *)
Definition dissolved : Authority :=
  sign_calls (run_calls joined [Dissolve scenario_gid "s1" 0 "op2"]) 1 "s1" "op2".

Lemma dissolved_reachable : auth_reachable default_config dissolved.
Proof.
  apply sign_calls_reachable, run_calls_reachable; [apply joined_reachable|].
  by repeat constructor.
Qed.

Lemma dissolved_is_terminal_witness :
  request_leave dissolved scenario_gid "s2" 0 "op3" = (Err GroupDissolvedError, dissolved).
Proof.
  assert (Hd : dget (a_dissolved dissolved) scenario_gid =
    Some (default (group_in joined) (dget (a_dissolved dissolved) scenario_gid)))
    by (vm_compute; reflexivity).
  assert (Hid : is_valid_group_id scenario_gid = true) by (vm_compute; reflexivity).
  destruct (dissolved_is_terminal default_config dissolved scenario_gid _ "s2" "" "" "" "" "" "" 0 0 0
    "op3" dissolved_reachable Hd Hid) as (_ & _ & H & _). exact H.
Defined.

(** Two redemptions, one of which is overdue when the sweep runs. *)
Definition two_pending : Authority :=
  run_calls created [BeginJoin scenario_gid "s2" "i" 0; BeginJoin scenario_gid "s3" "j" 200000000].

Lemma two_pending_reachable : auth_reachable default_config two_pending.
Proof. apply run_calls_reachable; [apply created_reachable|]. by repeat constructor. Qed.

Definition swept : Authority := (sweep default_config two_pending 400000000).2.

Lemma sweep_enforces_deadlines_witness :
  keys (g_pending (group_in swept)) = ["s3"] ∧
  ∃ g, dget (a_groups two_pending) scenario_gid = Some g ∧ is_Some (dget (g_pending g) "s3").
Proof.
  split; [vm_compute; reflexivity|].
  destruct (sweep_enforces_deadlines default_config two_pending 400000000 two_pending_reachable)
    as [H _].
  destruct (H scenario_gid (group_in swept)) as (g & Hg & Hp & _); [vm_compute; reflexivity|].
  exists g. split; [exact Hg|].
  destruct (Hp "s3" (mkPending "s3" "j" 200000000)) as [[Hin _] _]; [vm_compute; reflexivity|].
  eauto.
Defined.

(** ** Admission *)

Section admission.
Context {P : Primitives} {L : PrimitiveLaws P} (cfg : Config).

(** Admission adds the candidate the roster holds: when the commit of
    a JOIN succeeds and the roster entry of its subject is the very
    object the operation refers to, the subject becomes active at the
    new epoch and everyone active before stays so; nobody else does. *)
Theorem join_commit_admits a gid sid oid sig now wall co a' g op :
  auth_reachable cfg a → submit_signature a gid sid oid sig now wall = (Ok co, a') →
  dget (a_groups a) gid = Some g → head (g_ops g) = Some op → op_kind op = JOIN →
  dget (g_members g) (op_subject op) = op_candidate op →
  ∃ g', dget (a_groups a') gid = Some g' ∧ g_epoch g' = g_epoch g + 1 ∧
    active_set g' = active_set g ∪ {[op_subject op]}.
Proof.
  intros A%reachable_inv Hs Hg Hhead Hk Hsame.
  apply submit_signature_Ok in Hs as (g0 & op0 & rest & signer & s & key & g2 & Hr & Hops & _ &
    _ & _ & _ & _ & _ & _ & Hc & ->).
  destruct (require_inv a gid g0 A Hr) as (Hg0 & Hid & I). rewrite Hg in Hg0.
  injection Hg0 as <-. rewrite Hops in Hhead. injection Hhead as ->.
  destruct (commit_spec g op rest s now wall I Hops) as (g2' & Hc' & Hid2 & He & _ & Hi).
  rewrite Hc in Hc'. injection Hc' as _ <-. rewrite Hk in *.
  assert (I2 : group_inv g2) by by apply Hi.
  exists g2. split; [simpl; rewrite dget_dset, decide_True by congruence; done|].
  split; [done|]. apply set_eq. intros fp.
  rewrite elem_of_union, elem_of_singleton, !elem_of_active by done.
  rewrite (commit_active g op rest s now wall _ g2 fp I Hops Hc), Hk. naive_solver.
Qed.
End admission.

Definition offered_op : Op := default awaiting_op (head (g_ops (group_in offered))).

Lemma join_commit_admits_witness :
  ∃ g', dget (a_groups joined) scenario_gid = Some g' ∧
    active_set g' = active_set (group_in offered) ∪ {[op_subject offered_op]}.
Proof.
  destruct (join_commit_admits default_config offered scenario_gid "s1" "op1"
    (sign_as 1 offered_canonical) 0 2000 scenario_committed joined (group_in offered)
    offered_op offered_reachable owner_submits group_in_offered) as (g' & Hg' & _ & Ha).
  - vm_compute. reflexivity.
  - vm_compute. reflexivity.
  - vm_compute. reflexivity.
  - exact (ex_intro _ g' (conj Hg' Ha)).
Defined.

(** ** Two executions in which an admission goes wrong *)

(** Identity 2 redeems and attests twice, from two sessions, before the
    owner signs its admission. *)
Definition redeemed_twice : Authority :=
  sign_calls (run_calls awaiting [BeginJoin scenario_gid "s3" "j" 0; attest_call 2 "s3" "op2"])
    1 "s1" "op1".

(** An admission can commit without admitting: in a reachable state
    where the same identity attested from two sessions before its JOIN was
    signed, the commit of that JOIN bumps the epoch and logs the event, but
    activates the replaced member object; the roster entry stays CANDIDATE
    with no operation left that would activate it, so the identity the
    event announces cannot use the group. *)
Theorem double_attest_loses_admission :
  auth_reachable default_config redeemed_twice ∧
  statuses redeemed_twice = Some [(fp_of 1, ACTIVE); (fp_of 2, CANDIDATE)] ∧
  g_epoch (group_in redeemed_twice) = 2 ∧ g_ops (group_in redeemed_twice) = [] ∧
  (λ e, (ev_kind e, ev_subject_fingerprint e)) <$> g_events (group_in redeemed_twice) =
    [(JOIN, fp_of 2)] ∧
  authorize_forward redeemed_twice scenario_gid "s3" (fp_of 1) 2 = Err GroupNotMemberError.
Proof.
  split.
  - apply sign_calls_reachable, run_calls_reachable; [apply awaiting_reachable|].
    by repeat constructor.
  - vm_compute. repeat split.
Qed.

(** Four members joined, all asked to leave and the owner asked to remove
    each: the queue is full. *)
Definition admit_one (a : Authority) (n : Z) (session : string) : Authority :=
  sign_calls (run_calls a [BeginJoin scenario_gid session "i" 0; attest_call n session "op"])
    1 "s1" "op".

Definition full_queue : Authority :=
  run_calls
    (admit_one (admit_one (admit_one (admit_one created 2 "s2") 3 "s3") 4 "s4") 5 "s5")
    [Leave scenario_gid "s2" 0 "l2"; Leave scenario_gid "s3" 0 "l3";
     Leave scenario_gid "s4" 0 "l4"; Leave scenario_gid "s5" 0 "l5";
     Remove scenario_gid "s1" (fp_of 2) 0 "r2"; Remove scenario_gid "s1" (fp_of 3) 0 "r3";
     Remove scenario_gid "s1" (fp_of 4) 0 "r4"; Remove scenario_gid "s1" (fp_of 5) 0 "r5";
     BeginJoin scenario_gid "s6" "i" 0].

Definition refused : Authority := run_calls full_queue [attest_call 6 "s6" "op"].

(** A refused attestation is not undone: with a full queue [attest]
    raises after it consumed the pending redemption and put the candidate
    on the roster, so the candidate holds a seat with no admission pending
    and can not retry. *)
Theorem refused_attest_leaves_candidate :
  auth_reachable default_config refused ∧
  (attest full_queue "s6" scenario_gid (key_hex_of 6)
     (sign_as 6 (canonical_attest_form scenario_gid (fp_of 6) "n")) "n" (handle_of 6) "" 0 "op").1
    = Err GroupConflictError ∧
  keys (g_pending (group_in full_queue)) = ["s6"] ∧ g_pending (group_in refused) = [] ∧
  lookup_member (group_in full_queue) (fp_of 6) = None ∧
  m_status <$> lookup_member (group_in refused) (fp_of 6) = Some CANDIDATE ∧
  Forall (λ o, op_kind o ≠ JOIN) (g_ops (group_in refused)) ∧
  (attest refused "s6" scenario_gid (key_hex_of 6)
     (sign_as 6 (canonical_attest_form scenario_gid (fp_of 6) "n")) "n" (handle_of 6) "" 0 "op").1
    = Err GroupNotMemberError.
Proof.
  split.
  - apply run_calls_reachable; [|by repeat constructor].
    apply run_calls_reachable; [|by repeat constructor].
    do 4 (apply sign_calls_reachable, run_calls_reachable; [|by repeat constructor]).
    apply created_reachable.
  - do 5 (split; [vm_compute; reflexivity|]).
    split; [|vm_compute; reflexivity]. by vm_compute; repeat constructor.
Qed.

(** ** What a signature covers *)

(** The canonical forms are unambiguous: two membership events with
    valid ids and canonical fingerprints have the same bytes only when
    group, epoch, kind, subject and time stamp text all agree, and no
    membership event shares its bytes with a creation or an attestation
    form, so a signature for one can not be replayed as another. *)
Theorem canonical_forms_unambiguous g1 e1 k1 f1 w1 g2 e2 k2 f2 w2 name nonce gid fp :
  is_valid_group_id g1 = true → is_valid_group_id g2 = true → 0 <= e1 → 0 <= e2 →
  canonical_fingerprint f1 = true → canonical_fingerprint f2 = true →
  (canonical_event_form g1 e1 (kind_value k1) f1 w1 =
     canonical_event_form g2 e2 (kind_value k2) f2 w2 →
   g1 = g2 ∧ e1 = e2 ∧ k1 = k2 ∧ f1 = f2 ∧ isoformat w1 = isoformat w2) ∧
  canonical_event_form g1 e1 (kind_value k1) f1 w1 ≠ canonical_create_form name nonce ∧
  canonical_event_form g1 e1 (kind_value k1) f1 w1 ≠ canonical_attest_form gid fp nonce ∧
  canonical_create_form name nonce ≠ canonical_attest_form gid fp nonce.
Proof.
  intros Hg1 Hg2 He1 He2 Hf1 Hf2.
  split; [|split; [|split]].
  - intros H%encode_inj. by apply canonical_event_string_inj in H.
  - intros H%encode_inj. discriminate H.
  - intros H%encode_inj. discriminate H.
  - intros H%encode_inj. discriminate H.
Qed.

Lemma canonical_forms_unambiguous_witness :
  canonical_event_form scenario_gid 2 (kind_value JOIN) (fp_of 2) 0 ≠
    canonical_create_form "ops" "n".
Proof.
  apply (canonical_forms_unambiguous scenario_gid 2 JOIN (fp_of 2) 0 scenario_gid 2 JOIN (fp_of 2)
           0 "ops" "n" "" ""); try lia; vm_compute; reflexivity.
Defined.
