(* ===== verification/LocalGroups.v ===== *)
(** * The client's view of a group

    [groups/models.py] (members and the epoch-monotonic record) and the
    verifying core of [groups/lifecycle.py]: intake of committed events,
    signing on the relay's request, and adoption of relay snapshots.  The
    registry holds the records themselves; the values a relay sends are
    typed by what the client's parsing makes of each field ([None] for a
    missing or unparsable one).  [datetime.now(UTC)] is an argument. *)

From Stdlib Require Import Ascii.
From S2P Require Import Prelude Text Primitives Ids Events GroupAuthority.

Open Scope Z_scope.

Definition GROUP_DISPLAY_NAME_MAX_LEN : nat := 24.
Definition MAX_GROUP_EVENTS_STORED : nat := GROUP_EVENTS_KEPT.
Definition GROUP_MAX_GROUPS : nat := 32.

(** What [except GroupError] catches. *)
Definition is_group_error (e : GroupError) : bool :=
  match e with
  | AssertionError | PyValueError | ConfigValidationError => false
  | _ => true
  end.

(** ** Members *)

Record GroupMember := mkGM {
  gm_fingerprint : string; gm_handle : string; gm_display_name : string;
  gm_public_key_hex : string; gm_role : GroupRole; gm_joined_epoch : Z;
}.

Definition validate_group_display_name (name : string) : result GroupError string :=
  let cleaned := strip name in
  if negb ((0 <? str_len cleaned)%nat && (str_len cleaned <=? GROUP_DISPLAY_NAME_MAX_LEN)%nat)
  then Err GroupValidationError
  else if existsb is_control (chars cleaned) then Err GroupValidationError
  else Ok cleaned.

(** [x or y] on strings *)
Definition or_else (x y : string) : string := if decide (x = "") then y else x.

(** [GroupMember.__init__] *)
Definition GroupMember_init (fingerprint handle display_name public_key_hex : string)
    (role : GroupRole) (joined_epoch : Z) : result GroupError GroupMember :=
  fp ← require_valid_fingerprint fingerprint;
  guard_or (negb (bool_decide (role = OWNER) && negb (joined_epoch =? 1))) GroupValidationError;;
  guard_or (negb (joined_epoch <? 1)) GroupValidationError;;
  shown ← validate_group_display_name (or_else display_name handle);
  Ok (mkGM fp handle shown (lower public_key_hex) role joined_epoch).

(** A member dictionary as it is stored and sent. *)
Record member_dict := {
  md_fingerprint : option string; md_handle : option string; md_display_name : option string;
  md_public_key_hex : option string; md_role : option string; md_joined_epoch : option Z;
}.

(** [GroupMember.to_dict] *)
Definition member_to_dict (m : GroupMember) : member_dict := {|
  md_fingerprint := Some (gm_fingerprint m); md_handle := Some (gm_handle m);
  md_display_name := Some (gm_display_name m);
  md_public_key_hex := Some (gm_public_key_hex m);
  md_role := Some (role_value (gm_role m)); md_joined_epoch := Some (gm_joined_epoch m);
|}.

(** [GroupRole(value)] *)
Definition role_of_value (s : string) : option GroupRole :=
  if decide (s = "owner") then Some OWNER
  else if decide (s = "member") then Some MEMBER else None.

(** [GroupMember.from_dict]: a missing or malformed field raises
    [ConfigValidationError], an invalid value [GroupValidationError]. *)
Definition member_from_dict (d : member_dict) : result GroupError GroupMember :=
  fingerprint ← of_option (md_fingerprint d) ConfigValidationError;
  handle ← of_option (md_handle d) ConfigValidationError;
  public_key_hex ← of_option (md_public_key_hex d) ConfigValidationError;
  role ← of_option (md_role d ≫= role_of_value) ConfigValidationError;
  joined_epoch ← of_option (md_joined_epoch d) ConfigValidationError;
  GroupMember_init fingerprint handle (or_else (default "" (md_display_name d)) handle)
    public_key_hex role joined_epoch.

(** ** The record *)

Inductive LocalGroupState := LActive | LLeft | LRemoved | LDissolved | LDefunct.

#[export] Instance LocalGroupState_eq_dec : EqDecision LocalGroupState.
Proof. solve_decision. Defined.

Definition TERMINAL_GROUP_STATES : list LocalGroupState := [LLeft; LRemoved; LDissolved; LDefunct].

Record LocalGroupRecord := mkLocal {
  lr_group_id : string; lr_name : string; lr_owner : string; lr_owner_key : string;
  lr_me : string; lr_epoch : Z; lr_members : list (string * GroupMember);
  lr_state : LocalGroupState; lr_relay_url : string; lr_created_at : datetime;
  lr_updated_at : datetime; lr_epoch_leap_at : option datetime; lr_events : list GroupEvent;
  lr_suspect : bool; lr_crypto_suite : string;
}.

(** [LocalGroupRecord.__init__] *)
Definition LocalGroupRecord_init (group_id name owner_fingerprint owner_public_key_hex
    my_fingerprint : string) (epoch : Z) (members : list (string * GroupMember))
    (state : LocalGroupState) (relay_url : string) (created_at updated_at : datetime)
    (epoch_leap_at : option datetime) (events : list GroupEvent) (suspect : bool)
    (crypto_suite : string) : result GroupError LocalGroupRecord :=
  guard_or (is_valid_group_id group_id) GroupValidationError;;
  guard_or (negb (epoch <? 1)) GroupValidationError;;
  guard_or (bool_decide (crypto_suite ∈ GROUP_CRYPTO_SUITES)) GroupValidationError;;
  clean_name ← validate_group_name name;
  owner ← require_valid_fingerprint owner_fingerprint;
  me ← require_valid_fingerprint my_fingerprint;
  Ok (mkLocal group_id clean_name owner (lower owner_public_key_hex) me epoch members state
        relay_url created_at updated_at epoch_leap_at events suspect crypto_suite).

(** [my_role] *)
Definition my_role (r : LocalGroupRecord) : GroupRole :=
  match dget (lr_members r) (lr_me r) with
  | Some m => gm_role m
  | None => if decide (lr_me r = lr_owner r) then OWNER else MEMBER
  end.

(** [is_owner] *)
Definition is_owner (r : LocalGroupRecord) : bool :=
  bool_decide (lr_me r = lr_owner r) && bool_decide (lr_state r = LActive).

(** [member] *)
Definition member (r : LocalGroupRecord) (fingerprint : string) : option GroupMember :=
  dget (lr_members r) (upper (strip fingerprint)).

Definition require_active (r : LocalGroupRecord) : result GroupError unit :=
  guard_or (bool_decide (lr_state r = LActive)) GroupStateError.

Definition require_unsuspecting (r : LocalGroupRecord) : result GroupError unit :=
  guard_or (negb (lr_suspect r)) GroupStateError.

Definition require_terminal_for_archive (r : LocalGroupRecord) : result GroupError unit :=
  guard_or (bool_decide (lr_state r ∈ TERMINAL_GROUP_STATES)) GroupStateError.

Definition set_roster (r : LocalGroupRecord) (members : list (string * GroupMember))
    (state : LocalGroupState) : LocalGroupRecord :=
  mkLocal (lr_group_id r) (lr_name r) (lr_owner r) (lr_owner_key r) (lr_me r) (lr_epoch r)
    members state (lr_relay_url r) (lr_created_at r) (lr_updated_at r) (lr_epoch_leap_at r)
    (lr_events r) (lr_suspect r) (lr_crypto_suite r).

Definition set_suspect (r : LocalGroupRecord) (updated_at : datetime) : LocalGroupRecord :=
  mkLocal (lr_group_id r) (lr_name r) (lr_owner r) (lr_owner_key r) (lr_me r) (lr_epoch r)
    (lr_members r) (lr_state r) (lr_relay_url r) (lr_created_at r) updated_at
    (lr_epoch_leap_at r) (lr_events r) true (lr_crypto_suite r).

Definition set_leap (r : LocalGroupRecord) (epoch : Z) (moment : datetime)
    (events : list GroupEvent) : LocalGroupRecord :=
  mkLocal (lr_group_id r) (lr_name r) (lr_owner r) (lr_owner_key r) (lr_me r) epoch
    (lr_members r) (lr_state r) (lr_relay_url r) (lr_created_at r) moment (Some moment)
    events (lr_suspect r) (lr_crypto_suite r).

(** [mark_suspect] *)
Definition mark_suspect (r : LocalGroupRecord) (now : datetime) : LocalGroupRecord :=
  set_suspect r now.

(** [mark_defunct] *)
Definition mark_defunct (r : LocalGroupRecord) (now : datetime)
    : outcome LocalGroupRecord GroupError unit :=
  try? _ := require_active r @ r in
  (Ok tt, mkLocal (lr_group_id r) (lr_name r) (lr_owner r) (lr_owner_key r) (lr_me r)
    (lr_epoch r) (lr_members r) LDefunct (lr_relay_url r) (lr_created_at r) now
    (lr_epoch_leap_at r) (lr_events r) (lr_suspect r) (lr_crypto_suite r)).

(** [_require_owner_signed] *)
Definition require_owner_signed (r : LocalGroupRecord) (e : GroupEvent) : result GroupError unit :=
  guard_or (bool_decide (ev_signer_fingerprint e = lr_owner r)) GroupStateError.

(** [_apply_event_semantics]: the notice and the record with its new roster.
    Every check precedes the first mutation. *)
Definition apply_event_semantics (r : LocalGroupRecord) (e : GroupEvent)
    (join_member : option GroupMember) : result GroupError (string * LocalGroupRecord) :=
  let subject := ev_subject_fingerprint e in
  let depart (state : LocalGroupState) (verb : string) (m : GroupMember) :=
    Ok (gm_display_name m +:+ " " +:+ verb +:+ " the group",
        set_roster r (dpop (lr_members r) subject)
          (if decide (subject = lr_me r) then state else lr_state r)) in
  match ev_kind e with
  | JOIN =>
      require_owner_signed r e;;
      guard_or (negb (dmem (lr_members r) subject)) GroupStateError;;
      jm ← of_option join_member GroupStateError;
      guard_or (bool_decide (gm_fingerprint jm = subject)) GroupStateError;;
      Ok (gm_display_name jm +:+ " joined the group",
          set_roster r (dset (lr_members r) subject jm) (lr_state r))
  | LEFT =>
      m ← of_option (dget (lr_members r) subject) GroupStateError;
      guard_or (bool_decide (ev_signer_fingerprint e = subject)) GroupStateError;;
      depart LLeft "left" m
  | REMOVED =>
      m ← of_option (dget (lr_members r) subject) GroupStateError;
      require_owner_signed r e;;
      guard_or (negb (bool_decide (subject = lr_owner r))) GroupStateError;;
      depart LRemoved "was removed from" m
  | DISSOLVED =>
      require_owner_signed r e;;
      guard_or (bool_decide (subject = lr_owner r)) GroupStateError;;
      Ok ("The owner dissolved the group", set_roster r (lr_members r) LDissolved)
  end.

(** [apply_verified_event] *)
Definition apply_verified_event (r : LocalGroupRecord) (e : GroupEvent)
    (join_member : option GroupMember) (now : datetime)
    : outcome LocalGroupRecord GroupError string :=
  try? _ := require_active r @ r in
  try? _ := guard_or (bool_decide (ev_group_id e = lr_group_id r)) GroupStateError @ r in
  try? _ := guard_or (negb (ev_epoch e <=? lr_epoch r)) GroupEpochError @ r in
  if lr_epoch r + 1 <? ev_epoch e
  then (Err GroupEpochError, set_suspect r (lr_updated_at r))
  else
    try? (notice, r1) := apply_event_semantics r e join_member @ r in
    (Ok notice,
     set_leap r1 (ev_epoch e) now (last_n MAX_GROUP_EVENTS_STORED (lr_events r1 ++ [e]))).

(** ** What the relay sends ([groups/lifecycle.py]) *)

(** A GROUP_EVENT packet, field by field. *)
Record event_packet := {
  pk_group : string; pk_epoch : option Z; pk_kind : option string; pk_subject : option string;
  pk_wall_ts : option datetime; pk_signer : option string; pk_sig : option string;
  pk_member : option member_dict;
}.

(** [GroupEventKind(value)] *)
Definition kind_of_value (s : string) : option GroupEventKind :=
  if decide (s = "join") then Some JOIN else if decide (s = "left") then Some LEFT
  else if decide (s = "removed") then Some REMOVED
  else if decide (s = "dissolved") then Some DISSOLVED else None.

(** [_event_from_packet]: every malformation is a [GroupValidationError]. *)
Definition event_from_packet (p : event_packet) : result GroupError GroupEvent :=
  signature ← of_option (pk_sig p ≫= b64decode) GroupValidationError;
  epoch ← of_option (pk_epoch p) GroupValidationError;
  kind ← of_option (pk_kind p ≫= kind_of_value) GroupValidationError;
  subject ← of_option (pk_subject p) GroupValidationError;
  wall_ts ← of_option (pk_wall_ts p) GroupValidationError;
  signer ← of_option (pk_signer p) GroupValidationError;
  GroupEvent_init (pk_group p) epoch kind subject wall_ts signer signature.

Record GroupRedemption := {
  rd_group_id : string; rd_name : string; rd_owner : string; rd_owner_key : string;
  rd_members : list member_dict; rd_epoch : Z; rd_crypto_suite : string;
}.

(** The answer to an attestation; each history row is what
    [GroupEvent.from_dict] makes of it. *)
Record GroupAttested := {
  ga_role : string; ga_epoch : Z; ga_members : list member_dict;
  ga_events : list (result GroupError GroupEvent); ga_crypto_suite : string;
}.

(** The manager: registry, the last application error per group, and what
    the notice and state listeners were told. *)
Record LocalGroupManager := mkManager {
  lm_records : list (string * LocalGroupRecord);
  lm_errors : list (string * GroupError);
  lm_emitted : list (string * GroupEvent);
}.

(** [registry.get] *)
Definition registry_get (s : LocalGroupManager) (group_id : string) : option LocalGroupRecord :=
  if is_valid_group_id group_id then dget (lm_records s) group_id else None.

Definition is_terminal_record (r : LocalGroupRecord) : bool :=
  bool_decide (lr_state r ∈ TERMINAL_GROUP_STATES).

(** [registry.save] *)
Definition registry_save (s : LocalGroupManager) (r : LocalGroupRecord)
    : outcome LocalGroupManager GroupError unit :=
  let active := length (filter (λ x, is_terminal_record x.2 = false) (lm_records s)) in
  if bool_decide (dget (lm_records s) (lr_group_id r) = None)
     && negb (is_terminal_record r) && (GROUP_MAX_GROUPS <=? active)%nat
  then (Err GroupStateError, s)
  else (Ok tt, mkManager (dset (lm_records s) (lr_group_id r) r) (lm_errors s) (lm_emitted s)).

(** [registry.delete] *)
Definition registry_delete (s : LocalGroupManager) (group_id : string)
    : bool * LocalGroupManager :=
  (dmem (lm_records s) group_id,
   mkManager (dpop (lm_records s) group_id) (lm_errors s) (lm_emitted s)).

(** [purge_archived] *)
Definition purge_archived (s : LocalGroupManager) (window now : Z) : nat * LocalGroupManager :=
  let gone (x : string * LocalGroupRecord) :=
    is_terminal_record x.2 && (window <? now - lr_updated_at x.2) in
  (length (filter (λ x, gone x = true) (lm_records s)),
   mkManager (filter (λ x, gone x = false) (lm_records s)) (lm_errors s) (lm_emitted s)).

(** [archive_locally] *)
Definition archive_locally (s : LocalGroupManager) (group_id : string)
    : outcome LocalGroupManager GroupError unit :=
  try? r := of_option (registry_get s group_id) GroupUnknownError @ s in
  try? _ := require_terminal_for_archive r @ s in
  (Ok tt, (registry_delete s group_id).2).

(** [MemberView.to_payload] of [groups/authority.py] *)
Definition view_payload (v : MemberView) : member_dict := {|
  md_fingerprint := Some (v_fingerprint v); md_handle := Some (v_handle v);
  md_display_name := Some (v_display_name v);
  md_public_key_hex := Some (v_public_key_hex v); md_role := Some (v_role v);
  md_joined_epoch := Some (v_joined_epoch v);
|}.

(** The packet [_broadcast_group_event] of [transport/relay/server.py] sends
    for a committed operation. *)
Definition packet_of (co : CommittedOp) : event_packet :=
  let e := co_event co in {|
  pk_group := ev_group_id e; pk_epoch := Some (ev_epoch e);
  pk_kind := Some (kind_value (ev_kind e)); pk_subject := Some (ev_subject_fingerprint e);
  pk_wall_ts := Some (ev_wall_ts e); pk_signer := Some (ev_signer_fingerprint e);
  pk_sig := Some (b64encode (ev_signature e));
  pk_member := view_payload <$> co_join_member co;
|}.

Section verification.
Context `{P : Primitives}.

(** [_verify_event_signature]; a malformed owner key is an uncaught
    [ValueError] of [bytes.fromhex]. *)
Definition verify_event_signature (r : LocalGroupRecord) (e : GroupEvent)
    : result GroupError unit :=
  key_hex ←
    match ev_kind e with
    | LEFT =>
        guard_or (bool_decide (ev_signer_fingerprint e = ev_subject_fingerprint e))
          GroupPermissionError;;
        m ← of_option (member r (ev_subject_fingerprint e)) GroupStateError;
        fp ← fingerprint_for_key_hex (gm_public_key_hex m);
        guard_or (bool_decide (fp = gm_fingerprint m)) GroupStateError;;
        Ok (gm_public_key_hex m)
    | _ =>
        guard_or (bool_decide (ev_signer_fingerprint e = lr_owner r)) GroupPermissionError;;
        Ok (lr_owner_key r)
    end;
  key ← of_option (fromhex key_hex) PyValueError;
  guard_or (verify_signature key (ev_signature e) (event_canonical e)) GroupPermissionError.

(** One payload of [_verified_members]. *)
Definition verified_member (d : member_dict) : result GroupError GroupMember :=
  m ← member_from_dict d;
  fp ← fingerprint_for_key_hex (gm_public_key_hex m);
  guard_or (bool_decide (fp = gm_fingerprint m)) GroupStateError;;
  handle ← of_option (fromhex (gm_public_key_hex m) ≫= identity_id_for) GroupStateError;
  guard_or (bool_decide (gm_handle m = handle)) GroupStateError;;
  Ok m.

Fixpoint verify_members (ds : list member_dict) (members : list (string * GroupMember))
    : result GroupError (list (string * GroupMember)) :=
  match ds with
  | [] => Ok members
  | d :: ds' =>
      m ← verified_member d;
      verify_members ds' (dset members (gm_fingerprint m) m)
  end.

(** [_verified_members] *)
Definition verified_members (ds : list member_dict)
    : result GroupError (list (string * GroupMember)) :=
  members ← verify_members ds [];
  guard_or (negb (bool_decide (members = []) || (MAX_GROUP_MEMBERS <? length members)%nat))
    GroupStateError;;
  Ok members.

(** [_join_member_from_packet] *)
Definition join_member_from_packet (p : event_packet) (e : GroupEvent)
    : result GroupError GroupMember :=
  raw ← of_option (pk_member p) GroupStateError;
  members ← verified_members [raw];
  of_option (dget members (ev_subject_fingerprint e)) GroupStateError.

Definition set_record (s : LocalGroupManager) (r : LocalGroupRecord) : LocalGroupManager :=
  (registry_save s r).2.

(** [_flag_suspect] *)
Definition flag_suspect (s : LocalGroupManager) (r : LocalGroupRecord) (e : GroupError)
    (now : datetime) : LocalGroupManager :=
  let s1 := set_record s (mark_suspect r now) in
  mkManager (lm_records s1) (dset (lm_errors s1) (lr_group_id r) e) (lm_emitted s1).

(** The [try] block of [_on_group_event]. *)
Definition verify_and_apply (r : LocalGroupRecord) (p : event_packet) (e : GroupEvent)
    (now : datetime) : outcome LocalGroupRecord GroupError string :=
  try? _ := verify_event_signature r e @ r in
  try? jm := match ev_kind e with
             | JOIN => m ← join_member_from_packet p e; Ok (Some m)
             | _ => Ok None
             end @ r in
  apply_verified_event r e jm now.

(** [_on_group_event]: an exception that is not a [GroupError] escapes, and
    the record, a fresh copy of the stored one, is then not saved. *)
Definition on_group_event (s : LocalGroupManager) (p : event_packet) (now : datetime)
    : outcome LocalGroupManager GroupError unit :=
  match registry_get s (pk_group p) with
  | None => (Ok tt, s)
  | Some r =>
      match event_from_packet p with
      | Err e => (Ok tt, flag_suspect s r e now)
      | Ok event =>
          if ev_epoch event <=? lr_epoch r then (Ok tt, s)
          else if negb (bool_decide (lr_state r = LActive)) then (Ok tt, s)
          else
            match verify_and_apply r p event now with
            | (Err e, r') =>
                if is_group_error e then (Ok tt, flag_suspect s r' e now) else (Err e, s)
            | (Ok notice, r') =>
                let s1 := mkManager (lm_records s) (dpop (lm_errors s) (pk_group p))
                            (lm_emitted s) in
                let s2 := set_record s1 r' in
                (Ok tt, mkManager (lm_records s2) (lm_errors s2)
                          (lm_emitted s2 ++ [(notice, event)]))
            end
      end
  end.
End verification.

(** ** Signing on request *)

(** [text.split(sep)] for one separator character *)
Fixpoint split_on (sep : ascii) (l : list ascii) : list (list ascii) :=
  match l with
  | [] => [[]]
  | c :: l' =>
      match split_on sep l' with
      | [] => [[c]]
      | p :: ps => if decide (c = sep) then [] :: p :: ps else (c :: p) :: ps
      end
  end.

(** The digits of [int(text)]: single underscores may separate digits. *)
Fixpoint int_digits (after_digit : bool) (acc : Z) (l : list ascii) : option Z :=
  match l with
  | [] => if after_digit then Some acc else None
  | c :: l' =>
      if is_digit c then int_digits true (acc * 10 + (code c - 48)) l'
      else if after_digit && bool_decide (c = "_"%char) then int_digits false acc l'
      else None
  end.

(** The blanks [int] skips in ASCII text, which are fewer than those of [strip]. *)
Definition int_blank (c : ascii) : bool := ((9 <=? code c) && (code c <=? 13)) || (code c =? 32).
Fixpoint skip_blanks (l : list ascii) : list ascii :=
  match l with
  | [] => []
  | c :: l' => if int_blank c then skip_blanks l' else l
  end.

(** [int(text)] in base ten: surrounding blanks and a sign are allowed. *)
Definition py_int (text : list ascii) : option Z :=
  match reverse (skip_blanks (reverse (skip_blanks text))) with
  | "-"%char :: l => Z.opp <$> int_digits false 0 l
  | "+"%char :: l => int_digits false 0 l
  | l => int_digits false 0 l
  end.

(** The local key pair: [sign] is Ed25519 over its private key. *)
Record LocalIdentity := { li_public_key : bytes; li_sign : bytes → bytes }.

Definition OWNER_SIGNED_KINDS : list string := ["join"; "removed"; "dissolved"].

Section signing.
Context `{P : Primitives}.

(** The fields [_sign_for_relay] reads from a canonical event. *)
Definition parse_sign_request (group_id message : string) : option (Z * string * string) :=
  match split_on bar (chars message) with
  | [prefix; gid; epoch; kind; subject; stamp] =>
      if bool_decide (of_chars prefix = EVENT_PREFIX) && bool_decide (of_chars gid = group_id) then
        epoch ← py_int epoch;
        let subject := upper (strip (of_chars subject)) in
        if is_ok (require_valid_fingerprint subject) then
          match kind_of_value (of_chars kind) with
          | Some _ => Some (epoch, of_chars kind, subject)
          | None => None
          end
        else None
      else None
  | _ => None
  end.

(** [_sign_for_relay]; the identity's key has 32 bytes. *)
Definition sign_for_relay (s : LocalGroupManager) (identity : option LocalIdentity)
    (group_id message : string) : option string :=
  r ← registry_get s group_id;
  if negb (bool_decide (lr_state r = LActive)) || lr_suspect r then None
  else
    '(epoch, kind, subject) ← parse_sign_request group_id message;
    if negb (epoch =? lr_epoch r + 1) then None
    else
      me ← identity;
      if negb (bool_decide (identity_fingerprint (li_public_key me) = Some (lr_me r))) then None
      else if (bool_decide (kind = "left") && bool_decide (subject = lr_me r))
              || (bool_decide (kind ∈ OWNER_SIGNED_KINDS) && is_owner r)
      then Some (b64encode (li_sign me (encode message)))
      else None.

(** ** Adopting a relay snapshot *)

(** [_record_from_redemption] *)
Definition record_from_redemption (rd : GroupRedemption) (me relay_url : string) (now : datetime)
    : result GroupError LocalGroupRecord :=
  owner_fp ← require_valid_fingerprint (rd_owner rd);
  key_fp ← fingerprint_for_key_hex (rd_owner_key rd);
  guard_or (bool_decide (key_fp = owner_fp)) GroupStateError;;
  members ← verified_members (rd_members rd);
  owner ← of_option (dget members owner_fp) GroupStateError;
  guard_or (bool_decide (gm_role owner = OWNER) &&
            bool_decide (gm_public_key_hex owner = lower (rd_owner_key rd))) GroupStateError;;
  LocalGroupRecord_init (rd_group_id rd) (rd_name rd) owner_fp (rd_owner_key rd) me
    (rd_epoch rd) members LActive relay_url now now None [] false (rd_crypto_suite rd).

(** [_verify_tail_event] *)
Definition verify_tail_event (old merged : LocalGroupRecord) (e : GroupEvent)
    : result GroupError unit :=
  let check (key_hex : string) :=
    key ← of_option (fromhex key_hex) PyValueError;
    guard_or (verify_signature key (ev_signature e) (event_canonical e)) GroupPermissionError in
  match ev_kind e with
  | LEFT =>
      match (match member old (ev_subject_fingerprint e) with
             | Some m => Some m
             | None => member merged (ev_subject_fingerprint e)
             end) with
      | None => Ok tt
      | Some m =>
          guard_or (bool_decide (ev_signer_fingerprint e = gm_fingerprint m))
            GroupPermissionError;;
          check (gm_public_key_hex m)
      end
  | _ =>
      guard_or (bool_decide (ev_signer_fingerprint e = lr_owner merged)) GroupPermissionError;;
      check (lr_owner_key merged)
  end.

Definition event_key (e : GroupEvent) : Z * string * string :=
  (ev_epoch e, kind_value (ev_kind e), ev_subject_fingerprint e).

(** The loop over the relay's history: malformed rows are dropped, unseen
    rows above the base epoch are verified and appended. *)
Fixpoint merge_events (base merged : LocalGroupRecord) (rows : list (result GroupError GroupEvent))
    (events : list GroupEvent) : result GroupError (list GroupEvent) :=
  match rows with
  | [] => Ok events
  | Err _ :: rows' => merge_events base merged rows' events
  | Ok e :: rows' =>
      if (lr_epoch base <? ev_epoch e) && bool_decide (event_key e ∉ event_key <$> events) then
        verify_tail_event base merged e;;
        merge_events base merged rows' (events ++ [e])
      else merge_events base merged rows' events
  end.

Definition set_history (r : LocalGroupRecord) (events : list GroupEvent) : LocalGroupRecord :=
  mkLocal (lr_group_id r) (lr_name r) (lr_owner r) (lr_owner_key r) (lr_me r) (lr_epoch r)
    (lr_members r) (lr_state r) (lr_relay_url r) (lr_created_at r) (lr_updated_at r)
    (lr_epoch_leap_at r) events (lr_suspect r) (lr_crypto_suite r).

(** [_record_from_attested] *)
Definition record_from_attested (base : LocalGroupRecord) (att : GroupAttested) (me : string)
    (now : datetime) : result GroupError LocalGroupRecord :=
  guard_or (negb (ga_epoch att <? lr_epoch base)) GroupEpochError;;
  guard_or (bool_decide (lr_crypto_suite base = "")
            || bool_decide (ga_crypto_suite att = lr_crypto_suite base)) GroupStateError;;
  members ← verified_members (ga_members att);
  owner ← of_option (dget members (lr_owner base)) GroupStateError;
  guard_or (bool_decide (gm_role owner = OWNER)) GroupStateError;;
  guard_or (dmem members me) GroupNotMemberError;;
  merged ← LocalGroupRecord_init (lr_group_id base) (lr_name base) (lr_owner base)
    (lr_owner_key base) me (ga_epoch att) members LActive (lr_relay_url base)
    (lr_created_at base) now
    (if lr_epoch base <? ga_epoch att then Some now else lr_epoch_leap_at base)
    (lr_events base) false (lr_crypto_suite base);
  events ← merge_events base merged (ga_events att) (lr_events merged);
  Ok (set_history merged (last_n MAX_GROUP_EVENTS_STORED events)).

(** [LocalGroupManager.mark_defunct] *)
Definition manager_mark_defunct (s : LocalGroupManager) (group_id : string) (now : datetime)
    : outcome LocalGroupManager GroupError LocalGroupRecord :=
  try? r := of_option (registry_get s group_id) GroupUnknownError @ s in
  match mark_defunct r now with
  | (Err e, _) => (Err e, s)
  | (Ok _, r') => (Ok r', set_record s r')
  end.

(** [_require_usable_record] *)
Definition require_usable_record (s : LocalGroupManager) (group_id : string)
    : result GroupError LocalGroupRecord :=
  r ← of_option (registry_get s group_id) GroupUnknownError;
  require_active r;;
  require_unsuspecting r;;
  Ok r.

(** [_require_owner]; the identity's key has 32 bytes. *)
Definition require_owner (r : LocalGroupRecord) (identity : LocalIdentity)
    : result GroupError unit :=
  guard_or (is_owner r &&
            bool_decide (identity_fingerprint (li_public_key identity) = Some (lr_owner r)))
    GroupPermissionError.

(** [_after_committed]: the pending application error is raised once. *)
Definition after_committed (s : LocalGroupManager) (group_id : string)
    : outcome LocalGroupManager GroupError LocalGroupRecord :=
  let s1 := mkManager (lm_records s) (dpop (lm_errors s) group_id) (lm_emitted s) in
  match dget (lm_errors s) group_id with
  | Some e => (Err e, s1)
  | None => (of_option (registry_get s1 group_id) GroupUnknownError, s1)
  end.

(** [sync_group] from the relay's answer on: [Err GroupUnknownError] is a
    relay that lost the group, any other [Err] one that refused.  The key
    names [assert_metadata_only] scans are fixed and pass. *)
Definition sync_group (s : LocalGroupManager) (group_id : string)
    (answer : result GroupError GroupAttested) (now : datetime)
    : outcome LocalGroupManager GroupError LocalGroupRecord :=
  try? r := of_option (registry_get s group_id) GroupUnknownError @ s in
  try? _ := require_active r @ s in
  match answer with
  | Err GroupUnknownError => (Err GroupDefunctError, set_record s (mark_defunct r now).2)
  | Err e => (Err e, s)
  | Ok att =>
      if ga_epoch att <? lr_epoch r
      then (Err GroupEpochError, set_record s (mark_suspect r now))
      else
        match record_from_attested r att (lr_me r) now with
        | Err e =>
            if is_group_error e then (Err e, set_record s (mark_suspect r now)) else (Err e, s)
        | Ok merged => (Ok merged, set_record s merged)
        end
  end.
End signing.
