(* ===== verification/LocalGroupTheorems.v ===== *)
(** * The client's view of a group: theorems

    What a relay can and can not do to a client's record, what a client
    signs, and that a client that applies the events the authority commits
    stays in step with it. *)

From Stdlib Require Import Ascii DecimalString DecimalZ.
From S2P Require Import Prelude Text Primitives Ids Events GroupAuthority GroupInvariant.
From S2P Require Import GroupSpec GroupTheorems LocalGroups.

Open Scope Z_scope.

(** ** The record *)

(** The fields a record never changes. *)
Definition same_pins (r r' : LocalGroupRecord) : Prop :=
  lr_group_id r' = lr_group_id r ∧ lr_owner r' = lr_owner r ∧ lr_owner_key r' = lr_owner_key r ∧
  lr_me r' = lr_me r ∧ lr_crypto_suite r' = lr_crypto_suite r.

(** Nothing but the suspicion and the time stamp changed. *)
Definition same_roster (r r' : LocalGroupRecord) : Prop :=
  lr_epoch r' = lr_epoch r ∧ lr_members r' = lr_members r ∧ lr_state r' = lr_state r ∧
  lr_events r' = lr_events r.

(** The roster and state after an event. *)
Definition roster_after (r : LocalGroupRecord) (e : GroupEvent) (jm : option GroupMember)
    : list (string * GroupMember) * LocalGroupState :=
  let subject := ev_subject_fingerprint e in
  match ev_kind e with
  | JOIN => (from_option (dset (lr_members r) subject) (lr_members r) jm, lr_state r)
  | LEFT => (dpop (lr_members r) subject, if decide (subject = lr_me r) then LLeft else lr_state r)
  | REMOVED =>
      (dpop (lr_members r) subject, if decide (subject = lr_me r) then LRemoved else lr_state r)
  | DISSOLVED => (lr_members r, LDissolved)
  end.

Lemma apply_event_semantics_Ok r e jm notice r' :
  apply_event_semantics r e jm = Ok (notice, r') →
  r' = set_roster r (roster_after r e jm).1 (roster_after r e jm).2 ∧
  (ev_kind e = JOIN → ∃ m, jm = Some m ∧ gm_fingerprint m = ev_subject_fingerprint e ∧
     dget (lr_members r) (ev_subject_fingerprint e) = None) ∧
  (ev_kind e ≠ JOIN → ev_kind e ≠ DISSOLVED →
     is_Some (dget (lr_members r) (ev_subject_fingerprint e))).
Proof.
  unfold apply_event_semantics, roster_after. intros H. destruct (ev_kind e).
  - apply bind_Ok in H as (_ & _ & H). apply bind_Ok in H as (_ & H1%guard_or_Ok & H).
    apply bind_Ok in H as (m & H2%of_option_Ok & H). apply bind_Ok in H as (_ & H3%guard_or_Ok & H).
    injection H as _ <-. subst jm. apply negb_true_iff, dmem_false in H1.
    apply bool_decide_eq_true in H3. split; [done|]. split; [by exists m|done].
  - apply bind_Ok in H as (m & H1%of_option_Ok & H). apply bind_Ok in H as (_ & _ & H).
    injection H as _ <-. split; [done|]. split; [done|]. by rewrite H1.
  - apply bind_Ok in H as (m & H1%of_option_Ok & H). apply bind_Ok in H as (_ & _ & H).
    apply bind_Ok in H as (_ & _ & H). injection H as _ <-. split; [done|]. split; [done|].
    by rewrite H1.
  - apply bind_Ok in H as (_ & _ & H). apply bind_Ok in H as (_ & _ & H). injection H as _ <-.
    done.
Qed.

Lemma apply_verified_event_Ok r e jm now notice r' :
  apply_verified_event r e jm now = (Ok notice, r') →
  lr_state r = LActive ∧ ev_group_id e = lr_group_id r ∧ ev_epoch e = lr_epoch r + 1 ∧
  (∃ r1, apply_event_semantics r e jm = Ok (notice, r1)) ∧ same_pins r r' ∧
  lr_epoch r' = lr_epoch r + 1 ∧ (lr_members r', lr_state r') = roster_after r e jm ∧
  lr_suspect r' = lr_suspect r ∧
  lr_events r' = last_n MAX_GROUP_EVENTS_STORED (lr_events r ++ [e]).
Proof.
  unfold apply_verified_event. intros H. case_match eqn:H1; [|done]. case_match eqn:H2; [|done].
  case_match eqn:H3; [|done]. case_match eqn:H4; [done|].
  destruct (apply_event_semantics r e jm) as [[n r1]|?] eqn:H5; [|done]. injection H as -> <-.
  apply guard_or_Ok, bool_decide_eq_true in H1, H2. apply guard_or_Ok, negb_true_iff in H3.
  apply Z.leb_gt in H3. apply Z.ltb_ge in H4.
  apply apply_event_semantics_Ok in H5 as H6. destruct H6 as (-> & _).
  assert (ev_epoch e = lr_epoch r + 1) by lia. repeat split; try done; [by eexists|].
  simpl. by destruct (roster_after r e jm).
Qed.

(** An event that is not applied leaves the roster alone. *)
Lemma apply_verified_event_Err r e jm now err r' :
  apply_verified_event r e jm now = (Err err, r') → same_pins r r' ∧ same_roster r r'.
Proof.
  unfold apply_verified_event. intros H.
  repeat (case_match; try (injection H as _ <-; done)). done.
Qed.

(** ** Intake of events *)

Definition reg_wf (s : LocalGroupManager) : Prop :=
  dict_wf (lm_records s) ∧ ∀ gid r, dget (lm_records s) gid = Some r → lr_group_id r = gid.

(** Saving a record that is already there replaces it. *)
Lemma set_record_existing s r r0 :
  dget (lm_records s) (lr_group_id r) = Some r0 →
  set_record s r = mkManager (dset (lm_records s) (lr_group_id r) r) (lm_errors s) (lm_emitted s).
Proof. intros H. unfold set_record, registry_save. by rewrite H. Qed.

Lemma registry_get_Some s gid r : registry_get s gid = Some r → dget (lm_records s) gid = Some r.
Proof. unfold registry_get. by case_match. Qed.

Section intake.
Context {P : Primitives} {L : PrimitiveLaws P}.

(** The event carries a signature of the key that must sign it: the pinned
    owner key, or the recorded key of the member who leaves. *)
Definition authentic (r : LocalGroupRecord) (e : GroupEvent) : Prop :=
  ∃ key,
    match ev_kind e with
    | LEFT => ev_signer_fingerprint e = ev_subject_fingerprint e ∧
        ∃ m, member r (ev_subject_fingerprint e) = Some m ∧
          fingerprint_for_key_hex (gm_public_key_hex m) = Ok (gm_fingerprint m) ∧
          fromhex (gm_public_key_hex m) = Some key
    | _ => ev_signer_fingerprint e = lr_owner r ∧ fromhex (lr_owner_key r) = Some key
    end ∧
    verify_signature key (ev_signature e) (event_canonical e) = true.

Lemma verify_event_signature_Ok r e :
  verify_event_signature r e = Ok tt ↔ authentic r e.
Proof.
  unfold verify_event_signature, authentic. split.
  - intros H. apply bind_Ok in H as (hex & H1 & H). apply bind_Ok in H as (key & H2%of_option_Ok & H).
    apply guard_or_Ok in H. exists key. split; [|done].
    destruct (ev_kind e).
    2: { apply bind_Ok in H1 as (_ & H3%guard_or_Ok & H1). apply bool_decide_eq_true in H3.
         apply bind_Ok in H1 as (m & H4%of_option_Ok & H1). apply bind_Ok in H1 as (fp & H5 & H1).
         apply bind_Ok in H1 as (_ & H6%guard_or_Ok & H1). apply bool_decide_eq_true in H6. subst fp.
         injection H1 as <-. split; [done|]. by exists m. }
    all: apply bind_Ok in H1 as (_ & H3%guard_or_Ok & H1); apply bool_decide_eq_true in H3;
      by injection H1 as <-.
  - intros (key & H1 & H2). destruct (ev_kind e).
    2: { destruct H1 as (-> & m & Hm & Hfp & Hkey). rewrite Hm, bool_decide_true by done. simpl.
         rewrite Hfp. simpl. rewrite bool_decide_true by done. simpl. rewrite Hkey. simpl.
         by rewrite H2. }
    all: destruct H1 as [-> Hkey]; rewrite bool_decide_true by done; simpl; rewrite Hkey; simpl;
      by rewrite H2.
Qed.

Lemma verified_member_Ok d m :
  verified_member d = Ok m →
  member_from_dict d = Ok m ∧ fingerprint_for_key_hex (gm_public_key_hex m) = Ok (gm_fingerprint m) ∧
  (fromhex (gm_public_key_hex m) ≫= identity_id_for) = Some (gm_handle m).
Proof.
  unfold verified_member. intros H. apply bind_Ok in H as (m' & H1 & H).
  apply bind_Ok in H as (fp & H2 & H). apply bind_Ok in H as (_ & H3%guard_or_Ok & H).
  apply bool_decide_eq_true in H3. subst fp. apply bind_Ok in H as (h & H4%of_option_Ok & H).
  apply bind_Ok in H as (_ & H5%guard_or_Ok & H). apply bool_decide_eq_true in H5. subst h.
  by injection H as <-.
Qed.

(** A join descriptor belongs to the subject and binds key, fingerprint and
    handle. *)
Lemma join_member_Ok p e m :
  join_member_from_packet p e = Ok m →
  gm_fingerprint m = ev_subject_fingerprint e ∧
  fingerprint_for_key_hex (gm_public_key_hex m) = Ok (ev_subject_fingerprint e) ∧
  ∃ raw, pk_member p = Some raw ∧ member_from_dict raw = Ok m.
Proof.
  unfold join_member_from_packet. intros H. apply bind_Ok in H as (raw & H1%of_option_Ok & H).
  apply bind_Ok in H as (ms & H2 & H3%of_option_Ok). unfold verified_members in H2. simpl in H2.
  apply bind_Ok in H2 as (ms' & H4 & H2). apply bind_Ok in H2 as (_ & _ & [= ->]).
  apply bind_Ok in H4 as (m' & (H5 & H6 & _)%verified_member_Ok & [= <-]). simpl in H3.
  case_decide as Hfp; [|done]. injection H3 as ->. rewrite <- Hfp. split; [done|].
  split; [done|]. by exists raw.
Qed.

(** What the packet [p] can do to a record: nothing to its roster, or what the
    event it carries says. *)
Definition accepted_change (p : event_packet) (r r' : LocalGroupRecord) : Prop :=
  same_roster r r' ∨
  ∃ e jm, event_from_packet p = Ok e ∧
    lr_state r = LActive ∧ ev_group_id e = lr_group_id r ∧
    ev_epoch e = lr_epoch r + 1 ∧ lr_epoch r' = lr_epoch r + 1 ∧ authentic r e ∧
    (lr_members r', lr_state r') = roster_after r e jm ∧
    lr_events r' = last_n MAX_GROUP_EVENTS_STORED (lr_events r ++ [e]) ∧
    (ev_kind e = JOIN → dget (lr_members r) (ev_subject_fingerprint e) = None ∧
       ∃ m raw, jm = Some m ∧ pk_member p = Some raw ∧ member_from_dict raw = Ok m ∧
         gm_fingerprint m = ev_subject_fingerprint e ∧
         fingerprint_for_key_hex (gm_public_key_hex m) = Ok (ev_subject_fingerprint e)).

Lemma verify_and_apply_Ok r p e now notice r' :
  verify_and_apply r p e now = (Ok notice, r') →
  authentic r e ∧ ∃ jm, apply_verified_event r e jm now = (Ok notice, r') ∧
    (ev_kind e = JOIN → ∃ m, jm = Some m ∧ join_member_from_packet p e = Ok m).
Proof.
  unfold verify_and_apply. intros H. case_match eqn:H1; [|done]. destruct a.
  apply verify_event_signature_Ok in H1. split; [done|].
  destruct (ev_kind e); [|by exists None..].
  destruct (join_member_from_packet p e) as [m|?]; [|done]. simpl in H. exists (Some m). eauto.
Qed.

Lemma verify_and_apply_Err r p e now err r' :
  verify_and_apply r p e now = (Err err, r') → same_pins r r' ∧ same_roster r r'.
Proof.
  unfold verify_and_apply. intros H. case_match; [|by injection H as _ <-].
  case_match; [|by injection H as _ <-]. by apply apply_verified_event_Err in H.
Qed.

Lemma flag_suspect_get s r r0 e now gid :
  dget (lm_records s) (lr_group_id r) = Some r0 →
  dget (lm_records (flag_suspect s r e now)) gid =
    if decide (lr_group_id r = gid) then Some (mark_suspect r now) else dget (lm_records s) gid.
Proof.
  intros H. unfold flag_suspect. rewrite (set_record_existing s _ r0) by done. simpl.
  by rewrite dget_dset.
Qed.

(** The step from [s] to [s'] on the packet [p] neither makes nor removes
    records, and touches only the one of the packet's group, and that one only
    as an accepted change. *)
Definition confined (s s' : LocalGroupManager) (p : event_packet) : Prop :=
  reg_wf s' ∧ keys (lm_records s') = keys (lm_records s) ∧
  ∀ gid r r', dget (lm_records s) gid = Some r → dget (lm_records s') gid = Some r' →
    same_pins r r' ∧ (lr_suspect r = true → lr_suspect r' = true) ∧ accepted_change p r r' ∧
    (gid ≠ pk_group p → r' = r).

Lemma confined_refl s p : reg_wf s → confined s s p.
Proof. intros Hs. split; [done|]. split; [done|]. intros gid r r' -> [= ->]. repeat split; try done. by left. Qed.

Lemma confined_put s r r1 p errs em :
  reg_wf s → dget (lm_records s) (pk_group p) = Some r → same_pins r r1 →
  (lr_suspect r = true → lr_suspect r1 = true) → accepted_change p r r1 →
  confined s (mkManager (dset (lm_records s) (pk_group p) r1) errs em) p.
Proof.
  intros Hs Hr H1 H2 H3. destruct (confined_refl s p Hs) as (_ & _ & Hsame).
  destruct Hs as [Hwf Hid]. split; [split; [by apply dict_wf_dset|]|split]; simpl.
  - intros gid' r'. rewrite dget_dset; case_decide as E; [|apply Hid]. intros [= <-]; subst gid'.
    destruct H1 as [-> _]. by apply Hid.
  - rewrite keys_dset, decide_True; [done|]. apply dget_is_Some. by eexists.
  - intros gid' r0 r' H0. rewrite dget_dset; case_decide as E; [|by apply Hsame]. intros [= <-]; subst gid'.
    rewrite Hr in H0. by injection H0 as <-.
Qed.

Lemma confined_flag s r r1 p err now :
  reg_wf s → dget (lm_records s) (pk_group p) = Some r → same_pins r r1 → same_roster r r1 →
  confined s (flag_suspect s r1 err now) p.
Proof.
  intros Hs Hr H1 H2. unfold flag_suspect.
  assert (E : lr_group_id (mark_suspect r1 now) = pk_group p).
  { destruct H1 as [H1 _], Hs as [_ Hid]. simpl. rewrite H1. by apply Hid. }
  rewrite (set_record_existing s _ r) by (by rewrite E). rewrite E. simpl.
  apply (confined_put s r); [done..|]. by left.
Qed.

(** C5: A relay can not invent membership: whatever packet arrives, forged,
    replayed, reordered or malformed, no record is made or removed, and every
    record keeps its group, pinned owner, owner key, own identity and crypto
    suite, and once suspect stays so; its epoch, roster, state and history
    change only when the packet carries an event of that group at exactly the
    next epoch whose signature verifies under the pinned owner key (or the
    leaving member's recorded key), and then exactly as that event says: the
    roster and state as its kind and subject say, the history by that event; a
    join admits a subject that was not a member, with the descriptor the packet
    carries, whose key matches the subject's fingerprint.  Records of
    other groups are untouched. *)
Theorem relay_cannot_forge_roster s p now :
  reg_wf s → confined s (on_group_event s p now).2 p.
Proof.
  intros Hs. unfold on_group_event.
  destruct (registry_get s (pk_group p)) as [r|] eqn:Hr; [|by apply confined_refl].
  apply registry_get_Some in Hr. pose proof (proj2 Hs _ _ Hr) as Hgid.
  destruct (event_from_packet p) as [e|err] eqn:He; [|by apply (confined_flag s r)].
  case_match; [by apply confined_refl|]. case_match; [by apply confined_refl|].
  destruct (verify_and_apply r p e now) as [[notice|err] r1] eqn:Hv.
  - apply verify_and_apply_Ok in Hv as (Hauth & jm & Ha & Hj).
    apply apply_verified_event_Ok in Ha as (H1 & H2 & H3 & [r2 Hsem] & H5 & H6 & H7 & H8 & H9).
    assert (E : lr_group_id r1 = pk_group p) by (destruct H5 as [-> _]; done).
    rewrite (set_record_existing _ _ r) by (by rewrite E). rewrite E. simpl.
    apply (confined_put s r); [done|done|done|congruence|]. right. exists e, jm.
    do 8 (split; [done|]). intros Hk. apply apply_event_semantics_Ok in Hsem as (_ & Hnew & _).
    destruct (Hnew Hk) as (_ & _ & _ & Hnone). split; [done|].
    destruct (Hj Hk) as (m & -> & (Hf & Hkey & raw & Hraw & Hd)%join_member_Ok). by exists m, raw.
  - apply verify_and_apply_Err in Hv as (H1 & H2).
    case_match; [by apply (confined_flag s r)|by apply confined_refl].
Qed.
End intake.

(** ** Signing *)

Lemma split_on_none sep l : sep ∉ l → split_on sep l = [l].
Proof.
  induction l as [|c l IH]; intros H; simpl; [done|]. apply not_elem_of_cons in H as [H1 H2].
  rewrite IH by done. by rewrite decide_False.
Qed.

Lemma split_on_app sep l r : sep ∉ l → split_on sep (l ++ sep :: r) = l :: split_on sep r.
Proof.
  intros H. induction l as [|c l IH]; simpl.
  - assert (split_on sep r ≠ []) by (destruct r; simpl; repeat case_match; discriminate).
    destruct (split_on sep r); [done|]. by rewrite decide_True.
  - apply not_elem_of_cons in H as [H1 H2]. rewrite IH by done. by rewrite decide_False.
Qed.

(** [int(str(n))] *)

Lemma int_digits_val d b acc :
  (b = true ∨ d ≠ Decimal.Nil) →
  int_digits b acc (chars (DecimalString.NilEmpty.string_of_uint d)) = Some (uint_val acc d).
Proof.
  revert b acc. induction d; intros b acc H; cbn [DecimalString.NilEmpty.string_of_uint chars int_digits uint_val];
    [destruct H; [by subst|done]|..]; apply IHd; by left.
Qed.

Lemma skip_blanks_id l : Forall (λ c, is_digit c = true) l → skip_blanks l = l.
Proof.
  intros [|c l' Hc _]; [done|]. simpl. replace (int_blank c) with false; [done|]. symmetry.
  unfold is_digit, int_blank in *. apply andb_true_iff in Hc as [H1%Z.leb_le H2%Z.leb_le].
  rewrite orb_false_iff, andb_false_iff, !Z.leb_gt, Z.eqb_neq. lia.
Qed.

Lemma py_int_str z : 0 <= z → py_int (chars (str_of_Z z)) = Some z.
Proof.
  intros Hz. unfold py_int. pose proof (str_of_Z_digits z Hz) as Hd.
  rewrite (skip_blanks_id (chars (str_of_Z z))) by done.
  rewrite skip_blanks_id by (by apply Forall_reverse). rewrite reverse_involutive.
  destruct (str_of_Z_val z Hz) as (u & -> & Hn & Hv).
  pose proof (int_digits_val u false 0 (or_intror Hn)) as H. rewrite Hv in H.
  by destruct u.
Qed.

Lemma class_no_bar p l :
  fullmatch p l = true → Forall (λ f : cclass, f bar = false) p → bar ∉ l.
Proof.
  revert l. induction p as [|f p IH]; intros [|c l] H HP; simpl in *; try done; [set_solver|].
  apply andb_true_iff in H as [H1 H2]. apply Forall_cons in HP as [Hf HP].
  apply not_elem_of_cons. split; [congruence|]. by apply IH.
Qed.

Lemma group_id_no_bar g : is_valid_group_id g = true → bar ∉ chars g.
Proof. intros H. eapply class_no_bar; [exact H|]. by repeat constructor. Qed.

Lemma fingerprint_no_bar f : canonical_fingerprint f = true → bar ∉ chars f.
Proof. intros H. eapply class_no_bar; [exact H|]. by repeat constructor. Qed.

Lemma kind_of_kind_value k : kind_of_value (kind_value k) = Some k.
Proof. by destruct k. Qed.

Lemma prefix_no_bar : bar ∉ chars EVENT_PREFIX.
Proof. apply (bool_decide_unpack _). vm_compute. exact I. Qed.

(** The fields of a canonical event are read back. *)
Lemma parse_canonical gid g e k f stamp :
  is_valid_group_id g = true → 0 <= e → canonical_fingerprint f = true → bar ∉ chars stamp →
  parse_sign_request gid (canonical_event_string g e (kind_value k) f stamp) =
    if decide (g = gid) then Some (e, kind_value k, f) else None.
Proof.
  intros Hg He Hf Hs. unfold parse_sign_request, canonical_event_string. rewrite !chars_app.
  change (chars "|") with [bar]. cbn [app].
  rewrite split_on_app by apply prefix_no_bar.
  rewrite split_on_app by (by apply group_id_no_bar).
  rewrite split_on_app by (by apply digits_no_bar, str_of_Z_digits).
  rewrite split_on_app by apply kind_no_bar. rewrite split_on_app by (by apply fingerprint_no_bar).
  rewrite split_on_none by done. rewrite !of_chars_chars.
  rewrite bool_decide_true by done. cbn [andb]. case_decide as E; [|by rewrite bool_decide_false].
  rewrite bool_decide_true by done. rewrite py_int_str by done. cbn [mbind option_bind].
  rewrite canonical_fingerprint_norm by done. rewrite require_valid_fingerprint_canonical by done.
  cbn [is_ok]. by rewrite kind_of_kind_value.
Qed.

(** The parts are what the separators enclose; none holds a separator. *)
Lemma split_on_inv sep l p ps : split_on sep l = p :: ps →
  sep ∉ p ∧ match ps with [] => l = p | _ :: _ => ∃ r, l = p ++ sep :: r ∧ split_on sep r = ps end.
Proof.
  revert p ps. induction l as [|c l IH]; intros p ps; simpl.
  - intros [= <- <-]. split; [by apply not_elem_of_nil|done].
  - destruct (split_on sep l) as [|p' ps'] eqn:E; [destruct l; simpl in E; repeat case_match; discriminate|].
    destruct (IH p' ps' eq_refl) as [Hp Hps]. case_decide as Hc.
    + intros [= <- <-]. subst c. split; [by apply not_elem_of_nil|]. by exists l.
    + intros [= <- <-]. split; [by apply not_elem_of_cons|]. destruct ps'; [by subst|].
      destruct Hps as (r & -> & Hr). by exists r.
Qed.

Section signing_theorems.
Context {P : Primitives} {L : PrimitiveLaws P}.

(** What [_sign_for_relay] reads before it signs. *)
Record sign_request (gid message : string) (epoch : Z) (k : GroupEventKind) (subject : string) : Prop := {
  sr_parts : ∃ ep sub stamp, bar ∉ ep ∧ bar ∉ sub ∧ bar ∉ stamp ∧
    chars message = chars EVENT_PREFIX ++ bar :: chars gid ++ bar :: ep ++ bar :: chars (kind_value k) ++ bar :: sub ++ bar :: stamp ∧
    py_int ep = Some epoch ∧ subject = upper (strip (of_chars sub));
  sr_subject : is_ok (require_valid_fingerprint subject) = true;
}.

Lemma kind_of_value_inv x k : kind_of_value x = Some k → x = kind_value k.
Proof. unfold kind_of_value. repeat case_decide; by intros [= <-]. Qed.

Lemma parse_sign_request_inv gid message e kind subject :
  parse_sign_request gid message = Some (e, kind, subject) → ∃ k, kind = kind_value k ∧ sign_request gid message e k subject.
Proof.
  unfold parse_sign_request. destruct (split_on bar (chars message)) as [|p1 [|p2 [|p3 [|p4 [|p5 [|p6 []]]]]]] eqn:Hsp; try done.
  case_match eqn:Hb; [|done]. apply andb_true_iff in Hb as [H1%bool_decide_eq_true H2%bool_decide_eq_true].
  destruct (py_int p3) as [ep|] eqn:He; [|done]. cbn [mbind option_bind].
  destruct (is_ok _) eqn:Hv; [|done]. destruct (kind_of_value (of_chars p4)) as [k|] eqn:Hk; [|done]. intros [= <- <- <-].
  apply kind_of_value_inv in Hk. exists k. split; [done|].
  apply split_on_inv in Hsp as (_ & l1 & E1 & Hsp). apply split_on_inv in Hsp as (_ & l2 & E2 & Hsp).
  apply split_on_inv in Hsp as (H3 & l3 & E3 & Hsp). apply split_on_inv in Hsp as (_ & l4 & E4 & Hsp).
  apply split_on_inv in Hsp as (H5 & l5 & E5 & Hsp). apply split_on_inv in Hsp as (H6 & E6).
  split.
  - exists p3, p5, p6. split; [done|]. split; [done|]. split; [done|]. split; [|done].
    by rewrite E1, E2, E3, E4, E5, E6, <- H1, <- H2, <- Hk, !chars_of_chars.
  - done.
Qed.

(** The checks on the local state. *)
Definition may_sign (s : LocalGroupManager) (identity : option LocalIdentity) (gid : string) (e : Z) (k : GroupEventKind) (f : string)
    (message sig : string) : Prop :=
  ∃ r me, registry_get s gid = Some r ∧ identity = Some me ∧ e = lr_epoch r + 1 ∧
    lr_state r = LActive ∧ lr_suspect r = false ∧
    identity_fingerprint (li_public_key me) = Some (lr_me r) ∧
    (k = LEFT ∧ f = lr_me r ∨ k ≠ LEFT ∧ lr_me r = lr_owner r) ∧
    sig = b64encode (li_sign me (encode message)).

(** A request that fails one of the checks. *)
Ltac refused :=
  split; [discriminate|]; intros (? & ? & ? & ? & ? & ? & ? & ? & ? & ? & ? & ? & _); simplify_eq; congruence.

Lemma sign_for_relay_spec s identity gid message sig :
  sign_for_relay s identity gid message = Some sig ↔
  ∃ e k f, parse_sign_request gid message = Some (e, kind_value k, f) ∧ may_sign s identity gid e k f message sig.
Proof.
  unfold sign_for_relay, may_sign. destruct (registry_get s gid) as [r|]; cbn [mbind option_bind]; [|refused].
  destruct (decide (lr_state r = LActive)) as [Ha|Ha];
    [rewrite (bool_decide_true (lr_state r = LActive)) by done|rewrite (bool_decide_false (lr_state r = LActive)) by done; refused].
  destruct (lr_suspect r) eqn:Hsus; simpl; [refused|].
  destruct (parse_sign_request gid message) as [[[e kd] f]|] eqn:Hp; cbn [mbind option_bind]; [|refused].
  destruct (parse_sign_request_inv _ _ _ _ _ Hp) as (k & -> & _).
  destruct (Z.eqb_spec e (lr_epoch r + 1)) as [He1|He1]; simpl; [|refused].
  destruct identity as [me|]; simpl; [|refused].
  case_bool_decide as Hfp; simpl; [|refused].
  assert (Hauth : bool_decide (kind_value k = "left") && bool_decide (f = lr_me r)
      || bool_decide (kind_value k ∈ OWNER_SIGNED_KINDS) && is_owner r = true ↔
    (k = LEFT ∧ f = lr_me r ∨ k ≠ LEFT ∧ lr_me r = lr_owner r)).
  { unfold is_owner. rewrite orb_true_iff, !andb_true_iff, !bool_decide_eq_true.
    unfold OWNER_SIGNED_KINDS. rewrite !elem_of_cons, elem_of_nil. destruct k; naive_solver. }
  assert (Hinj : ∀ k', kind_value k' = kind_value k → k' = k) by (intros k'; by destruct k, k').
  destruct (_ || _) eqn:E.
  - split.
    + intros [= <-]. exists e, k, f. split; [done|]. exists r, me. do 6 (split; [done|]). split; [by apply Hauth|done].
    + by intros (e' & k' & f' & [= <- Hk <-] & r' & me' & [= <-] & [= <-] & _ & _ & _ & _ & _ & ->).
  - split; [done|]. intros (e' & k' & f' & [= <- Hk%eq_sym%Hinj <-] & r' & me' & [= <-] & [= <-] & _ & _ & _ & _ & H & _).
    subst k'. by apply Hauth in H.
Qed.

(** C32: A client signs exactly what it may: asked to sign a canonical
    membership event, it returns a signature iff its record of that very
    group is active and not suspect, the event is for the next epoch, the
    stored identity is the record's own, and the event is its own leave or
    it is the pinned owner and the event is an admission, a removal or a
    dissolution.  Whatever ASCII text the relay asks it to sign, a text that is
    signed has exactly six fields: the prefix of membership events, the record's own group, a
    number that reads as the next epoch, a known kind, a subject that reads as a
    valid fingerprint, and a last field that may be any text; and the same
    conditions on the record, the identity and the role hold for what was read. *)
Theorem client_signs_only_authorized s identity gid g e k f stamp sig :
  is_valid_group_id g = true → 0 <= e → canonical_fingerprint f = true → bar ∉ chars stamp →
  let message := canonical_event_string g e (kind_value k) f stamp in
  (sign_for_relay s identity gid message = Some sig ↔ g = gid ∧ may_sign s identity gid e k f message sig) ∧
  (∀ other sig', sign_for_relay s identity gid other = Some sig' →
     ∃ e' k' f', sign_request gid other e' k' f' ∧ may_sign s identity gid e' k' f' other sig').
Proof.
  intros Hg He Hf Hs message. split.
  - pose proof (parse_canonical gid g e k f stamp Hg He Hf Hs) as Hp. fold message in Hp. clearbody message.
    rewrite sign_for_relay_spec, Hp. case_decide as E; [|naive_solver]. split.
    + intros (e' & k' & f' & [= <- Hk <-] & H). assert (k = k') as <- by (by destruct k, k'). done.
    + intros [_ H]. eauto.
  - intros other sig' (e' & k' & f' & Hp & H)%sign_for_relay_spec.
    destruct (parse_sign_request_inv _ _ _ _ _ Hp) as (k'' & Hk & Hr). assert (k' = k'') as <- by (by destruct k', k''). eauto.
Qed.
End signing_theorems.

(** ** Following the authority *)

Section following.
Context {P : Primitives} {L : PrimitiveLaws P} (cfg : Config).

(** The record shows what the authority's group is: same epoch and owner,
    the active members with their keys, each key matching its fingerprint. *)
Record mirrors (r : LocalGroupRecord) (g : Group) : Prop := {
  mi_id : lr_group_id r = g_group_id g;
  mi_epoch : lr_epoch r = g_epoch g;
  mi_owner : lr_owner r = g_owner g;
  mi_key : lr_owner_key r = lower (g_owner_key g);
  mi_state : lr_state r = LActive;
  mi_wf : dict_wf (lr_members r);
  mi_members : ∀ fp, is_Some (dget (lr_members r) fp) ↔ active_member g fp;
  mi_keys : ∀ fp m m', dget (lr_members r) fp = Some m → lookup_member g fp = Some m' →
    gm_public_key_hex m = lower (m_public_key_hex m');
  mi_bound : ∀ fp m, dget (lr_members r) fp = Some m →
    gm_fingerprint m = fp ∧ fingerprint_for_key_hex (gm_public_key_hex m) = Ok fp;
}.

(** A committed event is read back from its packet. *)
Lemma event_from_packet_of co g op s wall :
  group_inv g → op_wf g op → bytes_ok s → co_event co = event_of g op s wall →
  event_from_packet (packet_of co) = Ok (co_event co).
Proof.
  intros I Hwf Hs E. unfold event_from_packet, packet_of. rewrite E. simpl.
  rewrite (b64_roundtrip s Hs). simpl. rewrite kind_of_kind_value. simpl.
  apply GroupEvent_init_ok; [apply I|pose proof (gi_epoch g I); lia|apply Hwf|].
  by apply (op_signer_canonical g).
Qed.

(** The signature the authority accepted convinces a client that mirrors it. *)
Lemma committed_authentic r g op s wall signer key :
  group_inv g → mirrors r g → op_wf g op →
  lookup_member g (op_signer op) = Some signer → m_status signer = ACTIVE →
  fromhex (m_public_key_hex signer) = Some key →
  verify_signature key s (event_canonical (event_of g op s wall)) = true →
  authentic r (event_of g op s wall).
Proof.
  intros I M [Hcan Hwf] Hsig Hst Hkey Hver. exists key. split; [|done]. simpl.
  assert (Hown : op_signer op = g_owner g →
    op_signer op = lr_owner r ∧ fromhex (lr_owner_key r) = Some key).
  { intros E. destruct (gi_owner g I) as (o & Ho & _ & _ & Hk). rewrite E, Ho in Hsig.
    injection Hsig as <-. rewrite (mi_owner r g M), (mi_key r g M), fromhex_lower, <- Hk.
    by rewrite E. }
  destruct (op_kind op).
  2: { destruct Hwf as [E _]. split; [done|]. rewrite E in Hsig.
       destruct (proj2 (mi_members r g M (op_subject op))) as [m Hm]; [by exists signer|].
       exists m. unfold member. rewrite canonical_fingerprint_norm by done. split; [done|].
       destruct (mi_bound r g M _ _ Hm) as [-> Hfp]. split; [done|].
       by rewrite (mi_keys r g M _ _ _ Hm Hsig), fromhex_lower. }
  all: destruct Hwf as [E _]; by apply Hown.
Qed.

(** When the record accepts an event. *)
Lemma apply_accepts r e jm now :
  lr_state r = LActive → ev_group_id e = lr_group_id r → ev_epoch e = lr_epoch r + 1 →
  match ev_kind e with
  | JOIN => ev_signer_fingerprint e = lr_owner r ∧
      dget (lr_members r) (ev_subject_fingerprint e) = None ∧
      ∃ m, jm = Some m ∧ gm_fingerprint m = ev_subject_fingerprint e
  | LEFT => is_Some (dget (lr_members r) (ev_subject_fingerprint e)) ∧
      ev_signer_fingerprint e = ev_subject_fingerprint e
  | REMOVED => is_Some (dget (lr_members r) (ev_subject_fingerprint e)) ∧
      ev_signer_fingerprint e = lr_owner r ∧ ev_subject_fingerprint e ≠ lr_owner r
  | DISSOLVED => ev_signer_fingerprint e = lr_owner r ∧ ev_subject_fingerprint e = lr_owner r
  end →
  ∃ notice r', apply_verified_event r e jm now = (Ok notice, r').
Proof.
  intros Hst Hg He Hk. unfold apply_verified_event, require_active. rewrite Hst, Hg, He.
  rewrite !bool_decide_true by done. simpl. rewrite (proj2 (Z.leb_gt _ _)) by lia. simpl.
  rewrite Z.ltb_irrefl. unfold apply_event_semantics, require_owner_signed.
  destruct (ev_kind e).
  - destruct Hk as (-> & Hd & m & -> & Hm). rewrite bool_decide_true by done. simpl.
    rewrite (proj2 (dmem_false _ _) Hd). simpl. rewrite bool_decide_true by done. simpl. eauto.
  - destruct Hk as ([m ->] & ->). simpl. rewrite bool_decide_true by done. simpl. eauto.
  - destruct Hk as ([m ->] & -> & Hne). simpl.
    rewrite (bool_decide_true (lr_owner r = lr_owner r)) by done. simpl.
    rewrite (bool_decide_false (ev_subject_fingerprint e = lr_owner r)) by done. simpl. eauto.
  - destruct Hk as [-> ->]. rewrite !bool_decide_true by done. simpl. eauto.
Qed.

Lemma event_of_canonical g op s wall :
  group_inv g → head (g_ops g) = Some op → is_Some (op_awaiting op) →
  event_canonical (event_of g op s wall) = op_canonical op.
Proof.
  intros I Hh Haw. destruct (gi_head g I op Hh Haw) as (_ & w & Hw & ->).
  unfold event_canonical, event_of. simpl. by rewrite Hw.
Qed.

(** A commit changes no member's key. *)
Lemma commit_keys g op rest s now wall ev g2 fp m' :
  group_inv g → g_ops g = op :: rest →
  commit (set_ops g rest) op s now wall = (Ok ev, g2) → lookup_member g2 fp = Some m' →
  ∃ m, lookup_member g fp = Some m ∧ m_public_key_hex m' = m_public_key_hex m.
Proof.
  intros I Hops Hc H. apply commit_fields in Hc as (_ & _ & _ & _ & Hf).
  unfold lookup_member in *. destruct (op_kind op).
  - destruct Hf as (l & _ & Em & Eo). rewrite Em, Eo in H.
    destruct (dget (g_members g) fp) as [i|]; [|done]. simpl in *. rewrite lookup_alter in H.
    case_decide; [|eauto]. destruct (g_objs g !! l) as [m|] eqn:E; [|done]. subst i.
    injection H as <-. by exists m.
  - destruct Hf as [Em Eo]. rewrite Em, Eo, dget_dpop in H by apply I. case_decide; [done|eauto].
  - destruct Hf as [Em Eo]. rewrite Em, Eo, dget_dpop in H by apply I. case_decide; [done|eauto].
  - destruct Hf as [Em Eo]. rewrite Em, Eo in H. eauto.
Qed.

(** The descriptor in the packet of an admission carries the key of the
    admitted object. *)
Lemma join_descriptor_key co e v m :
  co_join_member co = Some v → join_member_from_packet (packet_of co) e = Ok m →
  gm_public_key_hex m = lower (v_public_key_hex v).
Proof.
  intros Hv (_ & _ & raw & Hraw & H)%join_member_Ok. unfold packet_of in Hraw. simpl in Hraw.
  rewrite Hv in Hraw. injection Hraw as <-. unfold member_from_dict in H. simpl in H.
  apply bind_Ok in H as (role & _ & H). unfold GroupMember_init in H.
  apply bind_Ok in H as (fp & _ & H). apply bind_Ok in H as (_ & _ & H).
  apply bind_Ok in H as (_ & _ & H). apply bind_Ok in H as (shown & _ & H). by injection H as <-.
Qed.

(** What a commit and its application leave in step, whatever the roster. *)
Lemma mirrors_frame r r' g g2 :
  mirrors r g → same_pins r r' → lr_epoch r' = lr_epoch r + 1 → lr_state r' = LActive →
  g_group_id g2 = g_group_id g → g_epoch g2 = g_epoch g + 1 →
  g_owner g2 = g_owner g → g_owner_key g2 = g_owner_key g →
  dict_wf (lr_members r') →
  (∀ fp, is_Some (dget (lr_members r') fp) ↔ active_member g2 fp) →
  (∀ fp m m', dget (lr_members r') fp = Some m → lookup_member g2 fp = Some m' →
    gm_public_key_hex m = lower (m_public_key_hex m')) →
  (∀ fp m, dget (lr_members r') fp = Some m →
    gm_fingerprint m = fp ∧ fingerprint_for_key_hex (gm_public_key_hex m) = Ok fp) →
  mirrors r' g2.
Proof.
  intros M (P1 & P2 & P3 & _) He Hst Hid Hep Ho Hkey H1 H2 H3 H4.
  constructor; [..|exact H1|exact H2|exact H3|exact H4].
  - rewrite P1, Hid. apply M.
  - rewrite He, Hep, (mi_epoch r g M). reflexivity.
  - rewrite P2, Ho. apply M.
  - rewrite P3, Hkey. apply M.
  - exact Hst.
Qed.

(** The departure of a member. *)
Lemma roster_departure r g g2 members subject :
  mirrors r g → members = dpop (lr_members r) subject →
  (∀ fp, active_member g2 fp ↔ active_member g fp ∧ fp ≠ subject) →
  (∀ fp m', lookup_member g2 fp = Some m' →
    ∃ m, lookup_member g fp = Some m ∧ m_public_key_hex m' = m_public_key_hex m) →
  dict_wf members ∧ (∀ fp, is_Some (dget members fp) ↔ active_member g2 fp) ∧
  (∀ fp m m', dget members fp = Some m → lookup_member g2 fp = Some m' →
    gm_public_key_hex m = lower (m_public_key_hex m')) ∧
  (∀ fp m, dget members fp = Some m →
    gm_fingerprint m = fp ∧ fingerprint_for_key_hex (gm_public_key_hex m) = Ok fp).
Proof.
  intros M -> Hact Hks. pose proof (mi_wf r g M) as W.
  split; [by apply dict_wf_dpop|]. split; [|split].
  - intros fp. rewrite Hact, <- (mi_members r g M), dget_dpop by exact W.
    destruct (decide (subject = fp)) as [->|Hne].
    + split; [intros [? [=]]|tauto].
    + split; [intros H; split; congruence|tauto].
  - intros fp m m'. rewrite dget_dpop by exact W. destruct (decide _); [discriminate|].
    intros H1 H2. destruct (Hks _ _ H2) as (m0 & H3 & ->). exact (mi_keys r g M fp m m0 H1 H3).
  - intros fp m. rewrite dget_dpop by exact W. destruct (decide _); [discriminate|].
    apply (mi_bound r g M).
Qed.

(** The admission of a member. *)
Lemma roster_admission r g g2 members subject jm :
  mirrors r g → members = dset (lr_members r) subject jm →
  (∀ fp, active_member g2 fp ↔ active_member g fp ∨ fp = subject) →
  (∀ fp m', lookup_member g2 fp = Some m' →
    ∃ m, lookup_member g fp = Some m ∧ m_public_key_hex m' = m_public_key_hex m) →
  gm_fingerprint jm = subject → fingerprint_for_key_hex (gm_public_key_hex jm) = Ok subject →
  (∀ m', lookup_member g2 subject = Some m' →
    gm_public_key_hex jm = lower (m_public_key_hex m')) →
  dict_wf members ∧ (∀ fp, is_Some (dget members fp) ↔ active_member g2 fp) ∧
  (∀ fp m m', dget members fp = Some m → lookup_member g2 fp = Some m' →
    gm_public_key_hex m = lower (m_public_key_hex m')) ∧
  (∀ fp m, dget members fp = Some m →
    gm_fingerprint m = fp ∧ fingerprint_for_key_hex (gm_public_key_hex m) = Ok fp).
Proof.
  intros M -> Hact Hks Hfp Hb Hjk.
  split; [by apply dict_wf_dset, (mi_wf r g M)|]. split; [|split].
  - intros fp. rewrite Hact, <- (mi_members r g M), dget_dset.
    destruct (decide (subject = fp)) as [->|Hne].
    + split; intros _; [by right|by eexists].
    + split; [tauto|]. intros [H|H]; [exact H|congruence].
  - intros fp m m'. rewrite dget_dset. destruct (decide _) as [<-|]; [intros [= <-]; apply Hjk|].
    intros H1 H2. destruct (Hks _ _ H2) as (m0 & H3 & ->). exact (mi_keys r g M fp m m0 H1 H3).
  - intros fp m. rewrite dget_dset. destruct (decide _) as [<-|]; [intros [= <-]; by split|].
    apply (mi_bound r g M).
Qed.

(** The roster after an event mirrors the roster after its commit. *)
Lemma mirrors_after r r' g op rest s now wall g2 jm :
  group_inv g → g_ops g = op :: rest → mirrors r g → op_kind op ≠ DISSOLVED →
  commit (set_ops g rest) op s now wall = (Ok (event_of g op s wall), g2) →
  same_pins r r' → lr_epoch r' = lr_epoch r + 1 → lr_state r' = LActive →
  lr_members r' = (roster_after r (event_of g op s wall) jm).1 →
  (op_kind op = JOIN → active_member g2 (op_subject op) ∧
     ∃ m, jm = Some m ∧ gm_fingerprint m = op_subject op ∧
       fingerprint_for_key_hex (gm_public_key_hex m) = Ok (op_subject op) ∧
       ∀ m', lookup_member g2 (op_subject op) = Some m' →
         gm_public_key_hex m = lower (m_public_key_hex m')) →
  mirrors r' g2.
Proof.
  intros I Hops M Hk Hc Hpins He Hst Hm Hj.
  destruct (commit_spec g op rest s now wall I Hops) as (g2' & Hc' & Hid & Hep & _ & Hn).
  rewrite Hc in Hc'. injection Hc' as <-.
  pose proof (λ fp, commit_active g op rest s now wall _ g2 fp I Hops Hc) as Ha.
  pose proof (commit_fields _ _ _ _ _ _ _ _ Hc) as (Ho & Hkey & _).
  pose proof (λ fp m', commit_keys g op rest s now wall _ g2 fp m' I Hops Hc) as Hks.
  assert (H : dict_wf (lr_members r') ∧
    (∀ fp, is_Some (dget (lr_members r') fp) ↔ active_member g2 fp) ∧
    (∀ fp m m', dget (lr_members r') fp = Some m → lookup_member g2 fp = Some m' →
      gm_public_key_hex m = lower (m_public_key_hex m')) ∧
    (∀ fp m, dget (lr_members r') fp = Some m →
      gm_fingerprint m = fp ∧ fingerprint_for_key_hex (gm_public_key_hex m) = Ok fp)).
  { unfold roster_after, event_of in Hm. cbn [ev_kind ev_subject_fingerprint] in Hm.
    destruct (op_kind op); [|by eapply roster_departure..|done].
    destruct (Hj eq_refl) as (Hact & m & -> & Hfp & Hbound & Hjk).
    eapply roster_admission; [exact M|exact Hm| |exact Hks|exact Hfp|exact Hbound|exact Hjk].
    intros fp. specialize (Ha fp). split; [tauto|]. intros [H | ->]; [tauto|exact Hact]. }
  destruct H as (H1 & H2 & H3 & H4).
  eapply mirrors_frame; eauto.
Qed.
(** The commit the authority made is one the record accepts. *)
Lemma commit_accepted r g op s wall p now signer key :
  group_inv g → mirrors r g → op_wf g op →
  lookup_member g (op_signer op) = Some signer → m_status signer = ACTIVE →
  fromhex (m_public_key_hex signer) = Some key →
  verify_signature key s (event_canonical (event_of g op s wall)) = true →
  (op_kind op = JOIN → ∃ m, join_member_from_packet p (event_of g op s wall) = Ok m) →
  (op_kind op = REMOVED → active_member g (op_subject op)) →
  ∃ notice r', verify_and_apply r p (event_of g op s wall) now = (Ok notice, r').
Proof.
  intros I M Hwf Hsig Hst Hkey Hver Hj Hrem.
  pose proof (committed_authentic r g op s wall signer key I M Hwf Hsig Hst Hkey Hver) as Hauth.
  apply verify_event_signature_Ok in Hauth. unfold verify_and_apply. rewrite Hauth.
  pose proof (mi_owner r g M) as Ho. destruct Hwf as [_ Hwf].
  assert (Hacc : ∀ jm,
    (op_kind op = JOIN → ∃ m, jm = Some m ∧ gm_fingerprint m = op_subject op) →
    ∃ notice r', apply_verified_event r (event_of g op s wall) jm now = (Ok notice, r')).
  { intros jm Hjm. apply apply_accepts; [apply M|symmetry; apply M| |].
    - cbn [ev_epoch event_of]. by rewrite (mi_epoch r g M).
    - cbn [ev_kind ev_signer_fingerprint ev_subject_fingerprint event_of]. rewrite Ho.
      destruct (op_kind op).
      + destruct Hwf as (-> & l & m & _ & _ & _ & _ & Hcand). split; [done|]. split; [|by apply Hjm].
        apply eq_None_not_Some. intros (m' & Hm' & Hact)%(mi_members r g M).
        by rewrite (Hcand m' Hm') in Hact.
      + destruct Hwf as [E _]. split; [|done]. apply (mi_members r g M). rewrite <- E.
        by exists signer.
      + destruct Hwf as [-> ?]. split; [|done]. by apply (mi_members r g M), Hrem.
      + by destruct Hwf as [-> ->]. }
  change (ev_kind (event_of g op s wall)) with (op_kind op). destruct (op_kind op) eqn:Hk.
  - destruct (Hj eq_refl) as (m & Hm). rewrite Hm. cbn [mbind result_bind]. apply Hacc.
    intros _. exists m. split; [done|]. by apply join_member_Ok in Hm as (-> & _).
  - by apply Hacc.
  - by apply Hacc.
  - by apply Hacc.
Qed.

(** An event that verifies and applies is stored. *)
Lemma on_group_event_accepts s p now r e notice r' :
  reg_wf s → registry_get s (pk_group p) = Some r → event_from_packet p = Ok e →
  verify_and_apply r p e now = (Ok notice, r') →
  ∃ s', on_group_event s p now = (Ok tt, s') ∧ registry_get s' (pk_group p) = Some r'.
Proof.
  intros Hs Hr He Hv. unfold on_group_event. rewrite Hr, He, Hv.
  apply verify_and_apply_Ok in Hv as (_ & jm & Ha & _).
  apply apply_verified_event_Ok in Ha as (Hst & _ & Hep & _ & [Hid _] & _).
  rewrite (proj2 (Z.leb_gt _ _)), Hst, bool_decide_true by (done || lia). cbn [negb].
  pose proof Hr as Hr'. unfold registry_get in Hr'.
  destruct (is_valid_group_id (pk_group p)) eqn:Hvalid; [|done].
  assert (E : lr_group_id r' = pk_group p) by (rewrite Hid; by apply (proj2 Hs)).
  rewrite (set_record_existing _ r' r) by (by rewrite E). rewrite E.
  eexists. split; [reflexivity|]. unfold registry_get. rewrite Hvalid.
  cbn [lm_records]. by rewrite dget_dset, decide_True.
Qed.

(** The descriptor of an admission names the admitted object's key. *)
Lemma join_object_key g op rest s now wall g2 co m m' :
  group_inv g → g_ops g = op :: rest → op_kind op = JOIN →
  commit (set_ops g rest) op s now wall = (Ok (event_of g op s wall), g2) →
  co_join_member co = match op_kind op, op_candidate op with
                      | JOIN, Some l => member_view <$> g_objs g2 !! l
                      | _, _ => None
                      end →
  active_member g2 (op_subject op) → op_wf g op →
  join_member_from_packet (packet_of co) (event_of g op s wall) = Ok m →
  lookup_member g2 (op_subject op) = Some m' →
  gm_public_key_hex m = lower (m_public_key_hex m').
Proof.
  intros I Hops Hk Hc Hjm Hact [_ Hwf] Hm Hm'. rewrite Hk in Hjm, Hwf.
  destruct Hwf as (_ & l & mc & Hl & _ & _ & _ & Hcand).
  apply (commit_active g op rest s now wall _ g2 _ I Hops Hc) in Hact. rewrite Hk in Hact.
  destruct Hact as [(m0 & Hm0 & Hst)|[_ Hl']]; [by rewrite (Hcand m0 Hm0) in Hst|].
  rewrite Hl in Hl', Hjm. apply commit_fields in Hc as (_ & _ & _ & _ & Hf). rewrite Hk in Hf.
  destruct Hf as (l0 & _ & Em & _). apply lookup_member_Some in Hm' as (l1 & Hl1 & Hobj).
  rewrite Em, Hl' in Hl1. injection Hl1 as <-. rewrite Hobj in Hjm. cbn [fmap option_fmap option_map] in Hjm.
  by rewrite (join_descriptor_key co _ _ m Hjm Hm).
Qed.

(** The record after the event against the group after the commit. *)
Lemma commit_mirrored r r' g op rest s now wall g2 co now' notice :
  group_inv g → g_ops g = op :: rest → mirrors r g → op_wf g op →
  commit (set_ops g rest) op s now wall = (Ok (event_of g op s wall), g2) →
  co_join_member co = match op_kind op, op_candidate op with
                      | JOIN, Some l => member_view <$> g_objs g2 !! l
                      | _, _ => None
                      end →
  verify_and_apply r (packet_of co) (event_of g op s wall) now' = (Ok notice, r') →
  (op_kind op = JOIN → active_member g2 (op_subject op)) →
  lr_epoch r' = lr_epoch r + 1 ∧ lr_suspect r' = lr_suspect r ∧
  lr_state r' = match op_kind op with
                | JOIN => LActive
                | LEFT => if decide (op_subject op = lr_me r) then LLeft else LActive
                | REMOVED => if decide (op_subject op = lr_me r) then LRemoved else LActive
                | DISSOLVED => LDissolved
                end ∧
  (lr_state r' = LActive → op_kind op ≠ DISSOLVED ∧ mirrors r' g2).
Proof.
  intros I Hops M Hwf Hc Hjm (_ & jm & Ha & Hj)%verify_and_apply_Ok Hact.
  apply apply_verified_event_Ok in Ha as (Hst & _ & _ & _ & Hpins & Hep & Hros & Hsus & _).
  split; [exact Hep|]. split; [exact Hsus|].
  assert (Hm : lr_members r' = (roster_after r (event_of g op s wall) jm).1) by by rewrite <- Hros.
  assert (Hs : lr_state r' = (roster_after r (event_of g op s wall) jm).2) by by rewrite <- Hros.
  split.
  { rewrite Hs. unfold roster_after. cbn [ev_kind event_of ev_subject_fingerprint].
    rewrite Hst. by destruct (op_kind op). }
  intros Hactive. assert (Hk : op_kind op ≠ DISSOLVED).
  { intros Hk. unfold roster_after in Hs. cbn [ev_kind event_of] in Hs. rewrite Hk in Hs.
    cbn [snd] in Hs. congruence. }
  split; [exact Hk|].
  eapply (mirrors_after r r' g op rest s now wall g2 jm); try done.
  intros Hkj. split; [by apply Hact|]. destruct (Hj Hkj) as (m & -> & Hmj).
  exists m. split; [done|]. pose proof (join_member_Ok _ _ _ Hmj) as (Hfp & Hb & _).
  split; [exact Hfp|]. split; [exact Hb|]. intros m' Hm'.
  exact (join_object_key g op rest s now wall g2 co m m' I Hops Hkj Hc Hjm (Hact Hkj) Hwf Hmj Hm').
Qed.

Lemma settle_get a kind g2 :
  kind ≠ DISSOLVED → dget (a_groups (settle a kind g2)) (g_group_id g2) = Some g2.
Proof. intros H. destruct kind; [..|done]; cbn; by rewrite dget_dset, decide_True. Qed.

(** C4: An honest client follows the authority: when the authority commits
    an operation, and a client whose record mirrors the group (same epoch,
    owner, active members and keys, every key matching its fingerprint)
    takes in the packet that announces it, the event is accepted, the
    record moves to the next epoch without becoming suspect, and mirrors the
    group after the commit, unless the event ends the membership, which is
    then recorded as dissolved, left or removed.  An admission must have
    taken effect on the roster and describe a valid member; a removal must
    be of an active member. *)
Theorem client_follows_authority a gid sid oid sig now wall co a' g s r now' :
  let e := co_event co in
  auth_reachable cfg a → submit_signature a gid sid oid sig now wall = (Ok co, a') →
  dget (a_groups a) gid = Some g →
  reg_wf s → registry_get s gid = Some r → mirrors r g →
  (ev_kind e = JOIN → is_ok (join_member_from_packet (packet_of co) e) = true ∧
     ∃ g', dget (a_groups a') gid = Some g' ∧ active_member g' (ev_subject_fingerprint e)) →
  (ev_kind e = REMOVED → active_member g (ev_subject_fingerprint e)) →
  ∃ s' r', on_group_event s (packet_of co) now' = (Ok tt, s') ∧
    registry_get s' gid = Some r' ∧ lr_epoch r' = lr_epoch r + 1 ∧
    lr_suspect r' = lr_suspect r ∧
    lr_state r' = match ev_kind e with
                  | JOIN => LActive
                  | LEFT => if decide (ev_subject_fingerprint e = lr_me r) then LLeft else LActive
                  | REMOVED =>
                      if decide (ev_subject_fingerprint e = lr_me r) then LRemoved else LActive
                  | DISSOLVED => LDissolved
                  end ∧
    (lr_state r' = LActive → ∃ g', dget (a_groups a') gid = Some g' ∧ mirrors r' g').
Proof.
  intros e A%reachable_inv Hs Hg Hreg Hr M Hj Hrem. subst e.
  apply submit_signature_run in Hs as (g0 & op & rest & signer & sg & key & g2 &
    (Hq & Hops & _ & Haw & Hsess & Hsig & Hdec & Hkey & Hver & Hc & ->) & Hjm).
  destruct (require_inv a gid g0 A Hq) as (Hg0 & Hid & I). rewrite Hg in Hg0. injection Hg0 as <-.
  destruct (commit_spec g op rest sg now wall I Hops) as (g2' & Hc' & Hid2 & _ & _ & Hn).
  rewrite Hc in Hc'. injection Hc' as Hev <-. rewrite Hev in *.
  pose proof (gi_ops g I) as Hwf. rewrite Hops in Hwf. apply Forall_cons in Hwf as [Hwf _].
  apply session_for_fingerprint_Some in Hsess as (m & Hm & Hst & _). rewrite Hsig in Hm.
  injection Hm as <-.
  assert (Hp : event_from_packet (packet_of co) = Ok (event_of g op sg wall)).
  { rewrite <- Hev. eapply event_from_packet_of; eauto. by eapply b64decode_ok. }
  destruct (commit_accepted r g op sg wall (packet_of co) now' signer key) as (notice & r' & Hv);
    [done|done|done|done|done|done| | |exact Hrem|].
  { rewrite (event_of_canonical g op sg wall I); [exact Hver|by rewrite Hops|exact Haw]. }
  { intros Hk. destruct (Hj Hk) as [Hok _].
    destruct (join_member_from_packet _ _) as [m|?]; [by exists m|discriminate]. }
  assert (Egid : pk_group (packet_of co) = gid).
  { unfold packet_of. rewrite Hev. cbn [pk_group event_of ev_group_id]. exact Hid. }
  destruct (on_group_event_accepts s (packet_of co) now' r (event_of g op sg wall) notice r' Hreg)
    as (s' & Hon & Hget); [by rewrite Egid|exact Hp|exact Hv|].
  rewrite Egid in Hget. exists s', r'. split; [exact Hon|]. split; [exact Hget|].
  destruct (commit_mirrored r r' g op rest sg now wall g2 co now' notice) as (E1 & E2 & E3 & E4);
    [done..| |].
  { intros Hk. destruct (Hj Hk) as [_ (g' & Hg' & Hactj)].
    rewrite <- Hid, <- Hid2, settle_get in Hg' by congruence. by injection Hg' as ->. }
  do 3 (split; [done|]). intros [Hk Hmir]%E4. exists g2. split; [|exact Hmir].
  rewrite <- Hid, <- Hid2. by apply settle_get.
Qed.
End following.

(** ** Adopting a snapshot *)

Section adoption.
Context {P : Primitives} {L : PrimitiveLaws P}.

(** What the constructor makes of the pinned fields. *)
Definition pinned (r : LocalGroupRecord) : Prop :=
  canonical_fingerprint (lr_owner r) = true ∧ canonical_fingerprint (lr_me r) = true ∧
  lower (lr_owner_key r) = lr_owner_key r.

(** Every entry's key, fingerprint and handle belong together. *)
Definition bound_roster (members : list (string * GroupMember)) : Prop :=
  ∀ fp m, dget members fp = Some m → gm_fingerprint m = fp ∧
    fingerprint_for_key_hex (gm_public_key_hex m) = Ok fp ∧
    (fromhex (gm_public_key_hex m) ≫= identity_id_for) = Some (gm_handle m).

Lemma verify_members_bound ds members ms :
  bound_roster members → verify_members ds members = Ok ms → bound_roster ms.
Proof.
  revert members. induction ds as [|d ds IH]; intros members Hb H; cbn [verify_members] in H.
  { by injection H as <-. }
  apply bind_Ok in H as (m & (_ & Hfp & Hh)%verified_member_Ok & H). eapply IH; [|exact H].
  intros fp m'. rewrite dget_dset. case_decide as E; [|apply Hb]. intros [= <-]. by subst fp.
Qed.

Lemma verified_members_Ok ds ms :
  verified_members ds = Ok ms → bound_roster ms ∧ ms ≠ [] ∧ (length ms <= MAX_GROUP_MEMBERS)%nat.
Proof.
  intros H. apply bind_Ok in H as (ms' & H1 & H). apply bind_Ok in H as (_ & H2%guard_or_Ok & H).
  injection H as <-. split; [by eapply verify_members_bound; [|exact H1]; intros ? ?|].
  apply negb_true_iff, orb_false_iff in H2 as [H2%bool_decide_eq_false H3%Nat.ltb_ge]. done.
Qed.

(** An adopted snapshot. *)
Definition adopted (r r' : LocalGroupRecord) (att : GroupAttested) : Prop :=
  lr_epoch r' = ga_epoch att ∧ lr_state r' = LActive ∧ bound_roster (lr_members r') ∧
  (length (lr_members r') <= MAX_GROUP_MEMBERS)%nat ∧ is_Some (dget (lr_members r') (lr_me r)) ∧
  (∃ o, dget (lr_members r') (lr_owner r) = Some o ∧ gm_role o = OWNER) ∧
  (length (lr_events r') <= MAX_GROUP_EVENTS_STORED)%nat.

Lemma record_from_attested_Ok r att now r' :
  pinned r → record_from_attested r att (lr_me r) now = Ok r' →
  same_pins r r' ∧ lr_epoch r <= lr_epoch r' ∧ adopted r r' att.
Proof.
  intros (Ho & Hme & Hk) H. unfold record_from_attested in H.
  apply bind_Ok in H as (_ & Hep%guard_or_Ok & H). apply negb_true_iff, Z.ltb_ge in Hep.
  apply bind_Ok in H as (_ & _ & H). apply bind_Ok in H as (ms & (Hb & _ & Hlen)%verified_members_Ok & H).
  apply bind_Ok in H as (o & Hown%of_option_Ok & H).
  apply bind_Ok in H as (_ & Hrole%guard_or_Ok%bool_decide_eq_true & H).
  apply bind_Ok in H as (_ & Hmem%guard_or_Ok & H). apply bind_Ok in H as (merged & Hm & H).
  apply bind_Ok in H as (evs & _ & H). injection H as <-.
  unfold LocalGroupRecord_init in Hm. do 3 (apply bind_Ok in Hm as (_ & _ & Hm)).
  apply bind_Ok in Hm as (name & _ & Hm).
  rewrite !require_valid_fingerprint_canonical in Hm by done. cbn [mbind result_bind] in Hm.
  injection Hm as <-. rewrite Hk. split; [done|]. split; [exact Hep|].
  split; [done|]. split; [done|]. split; [exact Hb|]. split; [exact Hlen|].
  split; [by apply dget_is_Some, dmem_spec|]. split; [by exists o|].
  cbn [set_history lr_events]. rewrite last_n_length. lia.
Qed.

(** What one synchronization may make of a record. *)
Definition synced (r r' : LocalGroupRecord) (answer : result GroupError GroupAttested) : Prop :=
  same_pins r r' ∧ lr_epoch r <= lr_epoch r' ∧
  (lr_epoch r' = lr_epoch r ∧ lr_members r' = lr_members r ∧ lr_events r' = lr_events r ∧
     (lr_suspect r = true → lr_suspect r' = true) ∨
   ∃ att, answer = Ok att ∧ adopted r r' att).

Lemma synced_mark r r' answer :
  same_pins r r' → lr_epoch r' = lr_epoch r → lr_members r' = lr_members r →
  lr_events r' = lr_events r → (lr_suspect r = true → lr_suspect r' = true) → synced r r' answer.
Proof. intros H1 H2 H3 H4 H5. split; [exact H1|]. split; [lia|]. by left. Qed.

(** C33: Whatever a relay answers to a synchronization, the record keeps its
    group, pinned owner and key, own identity and suite, its epoch never
    goes back, no other record changes, and its roster changes only to one
    in which every key, fingerprint and handle belong together, of at most
    eight members, with the pinned owner as OWNER and the client itself on
    it; suspicion is lifted only by such an adoption. *)
Theorem sync_adopts_only_verified s gid answer now r :
  reg_wf s → registry_get s gid = Some r → pinned r →
  let s' := (sync_group s gid answer now).2 in
  (∀ gid', gid' ≠ gid → dget (lm_records s') gid' = dget (lm_records s) gid') ∧
  ∃ r', dget (lm_records s') gid = Some r' ∧ synced r r' answer.
Proof.
  intros Hs Hr Hp. pose proof (registry_get_Some _ _ _ Hr) as Hd.
  pose proof (proj2 Hs _ _ Hd) as Hid.
  assert (Hkeep : (∀ gid', gid' ≠ gid → dget (lm_records s) gid' = dget (lm_records s) gid') ∧
    ∃ r', dget (lm_records s) gid = Some r' ∧ synced r r' answer).
  { split; [done|]. exists r. split; [exact Hd|]. by apply synced_mark. }
  assert (Hput : ∀ r', synced r r' answer →
    (∀ gid', gid' ≠ gid → dget (lm_records (set_record s r')) gid' = dget (lm_records s) gid') ∧
    ∃ r1, dget (lm_records (set_record s r')) gid = Some r1 ∧ synced r r1 answer).
  { intros r' Hsy. pose proof Hsy as [[E _] _]. rewrite Hid in E.
    rewrite (set_record_existing s r' r) by (by rewrite E). cbn [lm_records]. rewrite E.
    split; [intros gid' Hne; by rewrite dget_dset, decide_False|].
    exists r'. by rewrite dget_dset, decide_True. }
  cbv zeta. unfold sync_group. rewrite Hr. cbn [of_option].
  destruct (require_active r) as [[]|e] eqn:Hact; [|exact Hkeep].
  destruct answer as [att|e].
  - destruct (ga_epoch att <? lr_epoch r); [by apply Hput, synced_mark|].
    destruct (record_from_attested r att (lr_me r) now) as [r'|e] eqn:Ha.
    + apply Hput. apply record_from_attested_Ok in Ha as (H1 & H2 & H3); [|exact Hp].
      split; [exact H1|]. split; [exact H2|]. right. by exists att.
    + destruct (is_group_error e); [by apply Hput, synced_mark|exact Hkeep].
  - assert (Hm : synced r (mark_defunct r now).2 (Err e)).
    { unfold mark_defunct. rewrite Hact. by apply synced_mark. }
    destruct e; try exact Hkeep. apply Hput, Hm.
Qed.
End adoption.

(** ** A concrete client *)

Definition local_member (n : Z) (role : GroupRole) (epoch : Z) : GroupMember :=
  mkGM (fp_of n) (handle_of n) (handle_of n) (key_hex_of n) role epoch.

Definition local_record (me epoch : Z) (members : list (string * GroupMember))
    : LocalGroupRecord :=
  mkLocal scenario_gid "ops" (fp_of 1) (key_hex_of 1) (fp_of me) epoch members LActive "relay"
    1000 1000 None [] false "mesh-v1".

(** The owner's client before and after the admission of identity 2. *)
Definition owner_record : LocalGroupRecord :=
  local_record 1 1 [(fp_of 1, local_member 1 OWNER 1)].

Definition pair_record : LocalGroupRecord :=
  local_record 1 2 [(fp_of 1, local_member 1 OWNER 1); (fp_of 2, local_member 2 MEMBER 2)].

Definition client_with (r : LocalGroupRecord) : LocalGroupManager :=
  mkManager [(scenario_gid, r)] [] [].

Lemma client_with_wf r : lr_group_id r = scenario_gid → reg_wf (client_with r).
Proof.
  intros H. split; [apply NoDup_singleton|]. intros gid r'. cbn [client_with lm_records dget].
  case_decide as E; [|done]. intros [= <-]. by rewrite H.
Qed.

Lemma client_with_get r : registry_get (client_with r) scenario_gid = Some r.
Proof.
  unfold registry_get. replace (is_valid_group_id scenario_gid) with true by (vm_compute; reflexivity).
  cbn [client_with lm_records dget]. by rewrite decide_True.
Qed.

Lemma active_offered : active_set (group_in offered) = {[fp_of 1]}.
Proof. vm_compute. reflexivity. Qed.

Lemma lookup_offered_owner :
  m_public_key_hex <$> lookup_member (group_in offered) (fp_of 1) = Some (key_hex_of 1).
Proof. vm_compute. reflexivity. Qed.

Lemma owner_mirrors : mirrors owner_record (group_in offered).
Proof.
  pose proof (ai_inv _ (reachable_inv _ _ offered_reachable) _ _ group_in_offered) as [_ I].
  assert (Hget : ∀ fp m, dget (lr_members owner_record) fp = Some m →
    fp = fp_of 1 ∧ m = local_member 1 OWNER 1).
  { intros fp m. unfold owner_record, local_record. cbn [lr_members dget].
    destruct (decide (fp_of 1 = fp)) as [<-|]; [intros [= <-]; done|discriminate]. }
  constructor.
  1-5: vm_compute; reflexivity.
  - apply NoDup_singleton.
  - intros fp. rewrite <- (elem_of_active _ _ I), active_offered, elem_of_singleton. split.
    + intros [m Hm]. by apply Hget in Hm as [-> _].
    + intros ->. unfold owner_record, local_record. cbn [lr_members dget]. by rewrite decide_True.
  - intros fp m m' [-> ->]%Hget Hm'. pose proof lookup_offered_owner as H. rewrite Hm' in H.
    injection H as ->. vm_compute. reflexivity.
  - intros fp m [-> ->]%Hget. split; [reflexivity|]. vm_compute. reflexivity.
Qed.

Definition admission_packet : event_packet := packet_of scenario_committed.

Lemma relay_cannot_forge_roster_witness :
  confined (client_with owner_record)
    (on_group_event (client_with owner_record) admission_packet 2000).2 admission_packet.
Proof. exact (relay_cannot_forge_roster _ _ 2000 (client_with_wf owner_record eq_refl)). Defined.

Lemma admitted_active :
  active_member (group_in joined) (ev_subject_fingerprint (co_event scenario_committed)).
Proof. eexists. split; vm_compute; reflexivity. Qed.

Lemma client_follows_authority_witness :
  ∃ s' r', on_group_event (client_with owner_record) admission_packet 2000 = (Ok tt, s') ∧
    registry_get s' scenario_gid = Some r' ∧ lr_epoch r' = 2 ∧ lr_suspect r' = false.
Proof.
  destruct (client_follows_authority default_config offered scenario_gid "s1" "op1"
    (sign_as 1 offered_canonical) 0 2000 scenario_committed joined (group_in offered)
    (client_with owner_record) owner_record 2000) as (s' & r' & H1 & H2 & H3 & H4 & _).
  - exact offered_reachable.
  - exact owner_submits.
  - exact group_in_offered.
  - apply client_with_wf. reflexivity.
  - apply client_with_get.
  - exact owner_mirrors.
  - intros _. split; [vm_compute; reflexivity|].
    exists (group_in joined). split; [exact group_in_joined|exact admitted_active].
  - intros H. vm_compute in H. discriminate H.
  - exists s', r'. exact (conj H1 (conj H2 (conj H3 H4))).
Defined.

Definition owner_identity : LocalIdentity :=
  {| li_public_key := key_of 1; li_sign := toy_sign (key_of 1) |}.

Definition admission_request : string :=
  canonical_event_string scenario_gid 2 (kind_value JOIN) (fp_of 2) "2000".

(** The owner's client signs the admission of identity 2. *)
Lemma client_signs_only_authorized_witness :
  sign_for_relay (client_with owner_record) (Some owner_identity) scenario_gid admission_request =
    Some (b64encode (toy_sign (key_of 1) (encode admission_request))).
Proof.
  destruct (client_signs_only_authorized (client_with owner_record) (Some owner_identity)
    scenario_gid scenario_gid 2 JOIN (fp_of 2) "2000"
    (b64encode (toy_sign (key_of 1) (encode admission_request)))) as [H _].
  - vm_compute. reflexivity.
  - lia.
  - vm_compute. reflexivity.
  - apply (bool_decide_unpack _). vm_compute. exact I.
  - apply H. split; [reflexivity|]. exists owner_record, owner_identity. split; [apply client_with_get|].
    split; [reflexivity|]. split; [reflexivity|]. split; [reflexivity|].
    split; [reflexivity|]. split; [vm_compute; reflexivity|]. split; [|reflexivity].
    right. split; [discriminate|reflexivity].
Defined.

(** Bytes that no event has as its canonical form are signed too: neither the
    spelling of the epoch and the subject nor the last field is checked. *)
Definition loose_request : string :=
  EVENT_PREFIX +:+ "|" +:+ scenario_gid +:+ "| +0_2|join| " +:+ fp_of 2 +:+ "|not a time".
Example loose_request_signed :
  sign_for_relay (client_with owner_record) (Some owner_identity) scenario_gid loose_request =
    Some (b64encode (toy_sign (key_of 1) (encode loose_request))).
Proof. vm_compute. reflexivity. Qed.

(** ** Two executions in which honest clients fall out of step *)

Definition blank_attest : auth_call :=
  Attest "s2" scenario_gid (key_hex_of 2)
    (sign_as 2 (canonical_attest_form scenario_gid (fp_of 2) "n")) "n" (handle_of 2) " " 0 "op1".

(** The state that offers the owner the admission of a member named [" "]. *)
Definition blank_offered : Authority :=
  run_calls created [BeginJoin scenario_gid "s2" "i" 0; blank_attest; NextTask scenario_gid 0 2000].

Definition head_canonical (a : Authority) : bytes :=
  from_option op_canonical [] (head (g_ops (group_in a))).

Definition submit_head (a : Authority) (n : Z) (session op : string)
    : outcome Authority GroupError CommittedOp :=
  submit_signature a scenario_gid session op (sign_as n (head_canonical a)) 0 2000.

Definition record_shape (s : LocalGroupManager) : option (Z * bool * nat) :=
  (λ r, (lr_epoch r, lr_suspect r, length (lr_members r))) <$> registry_get s scenario_gid.

(** What the relay answers to the client's attestation. *)
Definition attested_of (a : Authority) (role : string) : GroupAttested :=
  let g := group_in a in {|
  ga_role := role; ga_epoch := g_epoch g; ga_members := view_payload <$> sn_members (snapshot g);
  ga_events := Ok <$> g_events g; ga_crypto_suite := g_suite g |}.

(** A candidate whose display name is one blank is a valid request to
    the relay and is admitted, but no client accepts a member with a blank
    name: the owner's own client turns suspect at the old epoch, and
    synchronizing with the relay's roster is refused too, so the group stays
    unusable for everyone. *)
Theorem blank_name_disables_group :
  let committed := submit_head blank_offered 1 "s1" "op1" in
  let s1 := (on_group_event (client_with owner_record) (packet_of (committed_of committed.1)) 2000).2
  in
  is_ok committed.1 = true ∧
  statuses committed.2 = Some [(fp_of 1, ACTIVE); (fp_of 2, ACTIVE)] ∧
  record_shape s1 = Some (1, true, 1%nat) ∧
  (sync_group s1 scenario_gid (Ok (attested_of committed.2 "owner")) 3000).1 =
    Err GroupValidationError.
Proof. vm_compute. repeat split. Qed.

Definition leave_and_remove : Authority :=
  run_calls joined [Leave scenario_gid "s2" 0 "op2";
                    Remove scenario_gid "s1" (fp_of 2) 0 "op3";
                    NextTask scenario_gid 0 2000].

(** A removal queued behind the same member's own leave is committed
    although the member is no longer on the roster: the authority moves to
    the next epoch, and the client that followed the leave rejects the
    removal and turns suspect. *)
Theorem removal_after_leave_desynchronizes :
  let left := submit_head leave_and_remove 2 "s2" "op2" in
  let offered2 := run_call default_config left.2 (NextTask scenario_gid 0 2000) in
  let removed := submit_head offered2 1 "s1" "op3" in
  let s1 := (on_group_event (client_with pair_record) (packet_of (committed_of left.1)) 2000).2 in
  let s2 := (on_group_event s1 (packet_of (committed_of removed.1)) 2000).2 in
  is_ok left.1 = true ∧ is_ok removed.1 = true ∧
  record_shape s1 = Some (3, false, 1%nat) ∧ g_epoch (group_in removed.2) = 4 ∧
  record_shape s2 = Some (3, true, 1%nat).
Proof. vm_compute. repeat split. Qed.

Lemma sync_adopts_only_verified_witness :
  ∃ r', dget (lm_records (sync_group (client_with owner_record) scenario_gid
    (Ok (attested_of joined "owner")) 3000).2) scenario_gid = Some r' ∧
    synced owner_record r' (Ok (attested_of joined "owner")).
Proof.
  apply (sync_adopts_only_verified (client_with owner_record) scenario_gid
    (Ok (attested_of joined "owner")) 3000 owner_record).
  - apply client_with_wf. reflexivity.
  - apply client_with_get.
  - split; [vm_compute; reflexivity|]. split; vm_compute; reflexivity.
Defined.

(** ... and that answer is adopted. *)
Example sync_adopts_joined :
  record_shape (sync_group (client_with owner_record) scenario_gid
    (Ok (attested_of joined "owner")) 3000).2 = Some (2, false, 2%nat).
Proof. vm_compute. reflexivity. Qed.
