(* ===== verification/Invites.v ===== *)
(** * One-time invites

    [invites/models.py]: the invite record and its guarded state machine.
    [invites/authority.py]: the relay-side registry that decides whether an
    invite may be redeemed.  A call is one synchronous function from the
    registry to its result and the registry it leaves; [now] is its reading
    of the monotonic clock, [wall] of the wall clock (microseconds). *)

From S2P Require Import Prelude Text Primitives Ids.

Open Scope Z_scope.

(** ** The invite record ([invites/models.py]) *)

Module Record.

Inductive InviteState := CREATED | ACTIVE | REDEEMING | REDEEMED | EXPIRED | REVOKED.

#[export] Instance InviteState_eq_dec : EqDecision InviteState.
Proof. solve_decision. Defined.

Inductive InviteError := ConfigValidationError | InviteStateError.

Definition TERMINAL_STATES : list InviteState := [REDEEMED; EXPIRED; REVOKED].

Definition TRANSITIONS (s : InviteState) : list InviteState :=
  match s with
  | CREATED => [ACTIVE; EXPIRED; REVOKED]
  | ACTIVE => [REDEEMING; EXPIRED; REVOKED]
  | REDEEMING => [REDEEMED; ACTIVE; EXPIRED; REVOKED]
  | REDEEMED => []
  | EXPIRED => [REVOKED]
  | REVOKED => []
  end.

Definition can_transition (current target : InviteState) : bool :=
  bool_decide (target ∈ TRANSITIONS current).

Definition is_terminal_state (s : InviteState) : bool := bool_decide (s ∈ TERMINAL_STATES).

Definition MAX_SESSION_BINDING_LENGTH : nat := 32.

Record InviteRecord := mkRecord {
  ir_invite_id : string; ir_room_id : string; ir_token_hash : string;
  ir_created_at : datetime; ir_expires_at : datetime;
  ir_max_redemptions : Z; ir_redemptions : Z; ir_state : InviteState;
  ir_session_binding : string; ir_relay_url : string; ir_protocol_version : Z;
  ir_kind : string; ir_group_id : string;
}.

(** The visible-character rule of a session binding. *)
Definition valid_binding (s : string) : bool :=
  bool_decide (s = "") ||
  ((str_len s <=? MAX_SESSION_BINDING_LENGTH)%nat &&
   forallb (λ c, negb (code c <? 33)) (chars s)).

(** [InviteRecord.__init__]; times are aware by construction. *)
Definition InviteRecord_init (invite_id room_id token_hash : string)
    (created_at expires_at : datetime) (max_redemptions redemptions : Z) (state : InviteState)
    (session_binding relay_url : string) (protocol_version : Z) (kind group_id : string)
    : result InviteError InviteRecord :=
  guard_or (is_valid_invite_id invite_id) ConfigValidationError;;
  room_id ← (if decide (kind = "group")
             then guard_or (is_valid_group_id group_id) ConfigValidationError;; Ok ""
             else guard_or (is_valid_room_id room_id) ConfigValidationError;; Ok room_id);
  guard_or (negb (expires_at <=? created_at)) ConfigValidationError;;
  guard_or (negb (max_redemptions <? 1)) ConfigValidationError;;
  guard_or (negb ((redemptions <? 0) || (max_redemptions <? redemptions)))
    ConfigValidationError;;
  guard_or (valid_binding session_binding) ConfigValidationError;;
  Ok (mkRecord invite_id room_id token_hash created_at expires_at max_redemptions redemptions
        state session_binding relay_url protocol_version kind
        (if decide (kind = "group") then group_id else "")).

Definition set_state (r : InviteRecord) (s : InviteState) : InviteRecord :=
  mkRecord (ir_invite_id r) (ir_room_id r) (ir_token_hash r) (ir_created_at r) (ir_expires_at r)
    (ir_max_redemptions r) (ir_redemptions r) s (ir_session_binding r) (ir_relay_url r)
    (ir_protocol_version r) (ir_kind r) (ir_group_id r).

(** [transition] *)
Definition transition (r : InviteRecord) (target : InviteState)
    : outcome InviteRecord InviteError unit :=
  if can_transition (ir_state r) target then (Ok tt, set_state r target)
  else (Err InviteStateError, r).

Definition is_terminal (r : InviteRecord) : bool := is_terminal_state (ir_state r).

Definition is_due (r : InviteRecord) (now : datetime) : bool := ir_expires_at r <=? now.

Definition effective_state (r : InviteRecord) (now : datetime) : InviteState :=
  if bool_decide (ir_state r = ACTIVE) && is_due r now then EXPIRED else ir_state r.

Definition remaining_micros (r : InviteRecord) (now : datetime) : Z :=
  Z.max 0 (ir_expires_at r - now).

Definition remaining_uses (r : InviteRecord) : Z :=
  Z.max 0 (ir_max_redemptions r - ir_redemptions r).

(** [copy] / [_clone]: through the validating constructor. *)
Definition copy (r : InviteRecord) : result InviteError InviteRecord :=
  InviteRecord_init (ir_invite_id r) (ir_room_id r) (ir_token_hash r) (ir_created_at r)
    (ir_expires_at r) (ir_max_redemptions r) (ir_redemptions r) (ir_state r)
    (ir_session_binding r) (ir_relay_url r) (ir_protocol_version r) (ir_kind r) (ir_group_id r).

(** The moves of a record, whatever the caller asks for. *)
Inductive moves : InviteState → InviteState → Prop :=
| moves_transition r target r' :
    transition r target = (Ok tt, r') → moves (ir_state r) (ir_state r').

Lemma moves_iff s t : moves s t ↔ t ∈ TRANSITIONS s.
Proof.
  split.
  - intros [r target r' H]. unfold transition, can_transition in H. case_match eqn:E; [|done].
    breflect. by simplify_eq/=.
  - intros H. pose (r := mkRecord "" "" "" 0 0 0 0 s "" "" 0 "" "").
    apply (moves_transition r t (set_state r t)). unfold transition, can_transition. simpl.
    by rewrite bool_decide_true.
Qed.

Lemma rtc_moves_redeemed t : rtc moves REDEEMED t → t = REDEEMED.
Proof. intros H. inversion H as [|? ? ? Hm]; [done|]. apply moves_iff in Hm. set_solver. Qed.

Lemma rtc_moves_revoked t : rtc moves REVOKED t → t = REVOKED.
Proof. intros H. inversion H as [|? ? ? Hm]; [done|]. apply moves_iff in Hm. set_solver. Qed.

Lemma rtc_moves_expired t : rtc moves EXPIRED t → t = EXPIRED ∨ t = REVOKED.
Proof.
  intros H. inversion H as [|? y ? Hm Hr]; [auto|]. apply moves_iff in Hm.
  assert (y = REVOKED) as -> by set_solver. right. by apply rtc_moves_revoked.
Qed.

(** A consumed, expired or revoked invite is never usable again: from a
    terminal state no sequence of moves reaches CREATED, ACTIVE, REDEEMING
    or (unless it is already there) REDEEMED; the only way out of a
    terminal state is from EXPIRED to REVOKED; and REDEEMED is entered
    only from REDEEMING. *)
Theorem terminal_invites_stay_unusable s t :
  s ∈ TERMINAL_STATES → rtc moves s t →
  t ∈ TERMINAL_STATES ∧ (t = REDEEMED → s = REDEEMED) ∧
  (s ≠ t → s = EXPIRED ∧ t = REVOKED) ∧
  (∀ u, moves u REDEEMED → u = REDEEMING).
Proof.
  intros Hs H.
  assert (Hu : ∀ u, moves u REDEEMED → u = REDEEMING)
    by (intros u Hm%moves_iff; destruct u; set_solver).
  assert (s = REDEEMED ∨ s = EXPIRED ∨ s = REVOKED) as [-> | [-> | ->]] by set_solver.
  - apply rtc_moves_redeemed in H as ->. done.
  - apply rtc_moves_expired in H as [-> | ->]; (split; [set_solver|done]).
  - apply rtc_moves_revoked in H as ->. split; [set_solver|done].
Qed.

Lemma terminal_invites_stay_unusable_witness : REVOKED ∈ TERMINAL_STATES.
Proof.
  apply (terminal_invites_stay_unusable EXPIRED REVOKED); [set_solver|].
  apply rtc_once, moves_iff. set_solver.
Defined.

(** A record is well formed when its own fields pass the constructor. *)
Definition record_wf (r : InviteRecord) : Prop := copy r = Ok r.

Lemma init_fields invite_id room_id token_hash created expires mx red st bind url pv kind gid r :
  InviteRecord_init invite_id room_id token_hash created expires mx red st bind url pv kind gid
    = Ok r →
  record_wf r ∧ ir_created_at r < ir_expires_at r ∧ 1 <= ir_max_redemptions r ∧
  0 <= ir_redemptions r <= ir_max_redemptions r ∧ ir_state r = st.
Proof.
  unfold InviteRecord_init. intros H.
  apply bind_Ok in H as ([] & H1 & H). apply bind_Ok in H as (room & H2 & H).
  apply bind_Ok in H as ([] & H3 & H). apply bind_Ok in H as ([] & H4 & H).
  apply bind_Ok in H as ([] & H5 & H). apply bind_Ok in H as ([] & H6 & H). simplify_eq/=.
  split.
  - unfold record_wf, copy, InviteRecord_init. simpl. rewrite H1. simpl.
    destruct (decide (kind = "group")) as [->|Hk]; apply bind_Ok in H2 as ([] & H2 & ?);
      simplify_eq; rewrite H2; simpl; rewrite H3; simpl; rewrite H4; simpl; rewrite H5; simpl;
      rewrite H6; done.
  - apply guard_or_Ok in H3, H4, H5. breflect. split; [lia|]. split; [lia|]. by split; [lia|].
Qed.

Lemma transition_wf r target r' o :
  record_wf r → transition r target = (o, r') → record_wf r'.
Proof.
  intros Hwf H. unfold transition in H. case_match; simplify_eq; [|done].
  unfold record_wf, copy, set_state in *. destruct r. simpl in *. unfold InviteRecord_init in *.
  repeat (apply bind_Ok in Hwf as (? & Hx & Hwf); rewrite Hx; clear Hx; simpl). congruence.
Qed.

(** Every constructed record is consistent and stays so: its deadline
    is after its creation, its count within its limit, and after any
    sequence of state moves the record still passes its own constructor,
    so [copy] returns it unchanged. *)
Theorem constructed_record_copies invite_id room_id token_hash created expires mx red st bind url
    pv kind gid r targets :
  InviteRecord_init invite_id room_id token_hash created expires mx red st bind url pv kind gid
    = Ok r →
  let r' := foldl (λ r t, (transition r t).2) r targets in
  copy r' = Ok r' ∧ ir_created_at r' < ir_expires_at r' ∧ 0 <= remaining_uses r' ∧
  remaining_uses r' = ir_max_redemptions r' - ir_redemptions r'.
Proof.
  intros H. apply init_fields in H as (Hwf & H1 & H2 & H3 & _). cbv zeta.
  assert (Hk : ∀ r t, ir_created_at (transition r t).2 = ir_created_at r ∧
    ir_expires_at (transition r t).2 = ir_expires_at r ∧
    ir_max_redemptions (transition r t).2 = ir_max_redemptions r ∧
    ir_redemptions (transition r t).2 = ir_redemptions r).
  { intros r0 t. unfold transition. by case_match. }
  revert r Hwf H1 H2 H3. induction targets as [|t ts IH]; intros r Hwf H1 H2 H3; simpl.
  - unfold remaining_uses. split; [done|]. lia.
  - destruct (Hk r t) as (E1 & E2 & E3 & E4).
    apply IH; rewrite ?E1, ?E2, ?E3, ?E4; try done.
    eapply transition_wf; [exact Hwf|]. apply surjective_pairing.
Qed.

Lemma constructed_record_copies_witness :
  ∃ r, InviteRecord_init "gi_0123456789" "gl-room-AAAA-AAAA-AAAA" "" 0 5 1 0 CREATED "" "" 3 "chat" ""
         = Ok r ∧
    copy (foldl (λ r t, (transition r t).2) r [ACTIVE; REDEEMING; REDEEMED]) =
      Ok (foldl (λ r t, (transition r t).2) r [ACTIVE; REDEEMING; REDEEMED]).
Proof.
  eexists. split; [vm_compute; reflexivity|].
  apply (constructed_record_copies "gi_0123456789" "gl-room-AAAA-AAAA-AAAA" "" 0 5 1 0 CREATED ""
           "" 3 "chat" ""). vm_compute. reflexivity.
Defined.

End Record.

(** ** The relay-side registry ([invites/authority.py]) *)

Definition INVITE_MIN_TTL : Z := 1000000.
Definition INVITE_MAX_TTL : Z := 86400 * 1000000.
Definition INVITE_MAX_REDEMPTIONS : Z := 16.
Definition MAX_CREATOR_SESSION_LENGTH : nat := 64.

Inductive RedemptionVerdict := REDEEMED | UNKNOWN | EXPIRED | REVOKED | ALREADY_USED.

#[export] Instance RedemptionVerdict_eq_dec : EqDecision RedemptionVerdict.
Proof. solve_decision. Defined.

(** The [ValueError]s of [register] and the [PermissionError] of [revoke]. *)
Inductive AuthorityError :=
| MalformedToken | MalformedGroup | MalformedRoom | TtlRange | LimitRange | SessionTooLong
| AlreadyRegistered | NotCreator.

Record InviteGrant := { gr_invite_id : string; gr_expires_at : datetime; gr_max : Z }.

Record RedemptionResult := mkResult {
  rr_verdict : RedemptionVerdict; rr_invite_id : string;
  rr_room_id : option string; rr_expires_at : option datetime;
}.

Record InviteStatus := {
  is_invite_id : string; is_state : string; is_created_at : datetime; is_expires_at : datetime;
  is_max_redemptions : Z; is_redemptions : Z; is_remaining : Z;
  is_bound_session : option string; is_room_id : option string; is_kind : string;
  is_group_id : option string;
}.

Record InviteLookup := {
  il_invite_id : string; il_kind : string; il_group_id : string; il_redeemed : bool;
}.

(** [_Entry] *)
Record Entry := mkEntry {
  e_invite_id : string; e_token_hash : string; e_room_id : string;
  e_created_at : datetime; e_expires_at : datetime; e_expires_monotonic : Z;
  e_max_redemptions : Z; e_redemptions : Z; e_creator_session : string;
  e_kind : string; e_group_id : string; e_bound_session : option string;
  e_revoked : bool; e_last_redeemed : option Z;
}.

(** [self._entries]: token hash → invite, in insertion order. *)
Abbreviation Invites := (list (string * Entry)).

Section authority.
Context `{P : Primitives}.

(** [_hash_token] *)
Definition hash_token (normalized : string) : string := hexdigest (sha256 (encode normalized)).

(** [gi_{hash[:10]}] *)
Definition invite_id_of_hash (h : string) : string :=
  INVITE_ID_PREFIX +:+ of_chars (take 10 (chars h)).

(** [_validate_creation] *)
Definition validate_creation (token room_id : string) (ttl uses : Z) (kind group_id : string)
    : result AuthorityError string :=
  let normalized := upper (strip token) in
  guard_or (is_valid_invite_token normalized) MalformedToken;;
  (if decide (kind = "group") then guard_or (is_valid_group_id group_id) MalformedGroup
   else guard_or (is_valid_room_id room_id) MalformedRoom);;
  guard_or ((INVITE_MIN_TTL <=? ttl) && (ttl <=? INVITE_MAX_TTL)) TtlRange;;
  guard_or ((1 <=? uses) && (uses <=? INVITE_MAX_REDEMPTIONS)) LimitRange;;
  Ok normalized.

(** [register] *)
Definition register (s : Invites) (token room_id : string) (ttl max_redemptions : Z)
    (creator_session kind group_id : string) (now : Z) (wall : datetime)
    : outcome Invites AuthorityError InviteGrant :=
  try? normalized := validate_creation token room_id ttl max_redemptions kind group_id @ s in
  try? _ := guard_or (str_len creator_session <=? MAX_CREATOR_SESSION_LENGTH)%nat SessionTooLong
    @ s in
  let token_hash := hash_token normalized in
  try? _ := guard_or (negb (dmem s token_hash)) AlreadyRegistered @ s in
  try? invite_id := of_option (invite_id_for_token normalized) MalformedToken @ s in
  let entry := mkEntry invite_id token_hash room_id wall (wall + ttl) (now + ttl)
                 max_redemptions 0 creator_session kind
                 (if decide (kind = "group") then group_id else "") None false None in
  (Ok {| gr_invite_id := invite_id; gr_expires_at := e_expires_at entry;
         gr_max := max_redemptions |}, dset s token_hash entry).

(** [_lookup]: a scan that compares every stored digest. *)
Definition scan (s : Invites) (h : string) : option (string * Entry) :=
  find (λ x, bool_decide (x.1 = h)) s.

Definition lookup_entry (s : Invites) (token : string) : option (string * Entry) :=
  let normalized := upper (strip token) in
  if is_valid_invite_token normalized then scan s (hash_token normalized) else None.

(** [_expired] *)
Definition expired (e : Entry) (now : Z) : bool := e_expires_monotonic e <=? now.

Definition exhausted (e : Entry) : bool := e_max_redemptions e <=? e_redemptions e.

(** [lookup] *)
Definition lookup (s : Invites) (token : string) : option InviteLookup :=
  (λ x, {| il_invite_id := e_invite_id x.2; il_kind := e_kind x.2;
           il_group_id := e_group_id x.2; il_redeemed := exhausted x.2 |})
    <$> lookup_entry s token.

(** [count_active_group_invites] *)
Definition count_active_group_invites (s : Invites) (group_id : string) (now : Z) : nat :=
  length (filter (λ e, e_kind e = "group" ∧ e_group_id e = group_id ∧ e_revoked e = false ∧
                       expired e now = false ∧ e_redemptions e < e_max_redemptions e)
                 (values s)).

(** The atomic consumption: count, bind, time stamp. *)
Definition consume (e : Entry) (session : string) (now : Z) : Entry :=
  mkEntry (e_invite_id e) (e_token_hash e) (e_room_id e) (e_created_at e) (e_expires_at e)
    (e_expires_monotonic e) (e_max_redemptions e) (e_redemptions e + 1) (e_creator_session e)
    (e_kind e) (e_group_id e) (Some session) (e_revoked e) (Some now).

(** [redeem] *)
Definition redeem (s : Invites) (token redeem_session : string) (now : Z)
    : RedemptionResult * Invites :=
  match lookup_entry s token with
  | None => (mkResult UNKNOWN (invite_id_of_hash (hash_token (upper (strip token)))) None None, s)
  | Some (h, e) =>
      if e_revoked e then (mkResult REVOKED (e_invite_id e) None None, s)
      else if expired e now then
        (mkResult EXPIRED (e_invite_id e) None (Some (e_expires_at e)), s)
      else if exhausted e then (mkResult ALREADY_USED (e_invite_id e) None None, s)
      else (mkResult REDEEMED (e_invite_id e) (Some (e_room_id e)) (Some (e_expires_at e)),
            dset s h (consume e redeem_session now))
  end.

Definition set_revoked (e : Entry) : Entry :=
  mkEntry (e_invite_id e) (e_token_hash e) (e_room_id e) (e_created_at e) (e_expires_at e)
    (e_expires_monotonic e) (e_max_redemptions e) (e_redemptions e) (e_creator_session e)
    (e_kind e) (e_group_id e) (e_bound_session e) true (e_last_redeemed e).

(** [_status_of] *)
Definition status_of (e : Entry) (creator_view : bool) (now : Z) : InviteStatus :=
  let remaining := Z.max 0 (e_expires_monotonic e - now) in
  {| is_invite_id := e_invite_id e;
     is_state := if e_revoked e then "revoked" else if exhausted e then "redeemed"
                 else if remaining <=? 0 then "expired" else "active";
     is_created_at := e_created_at e; is_expires_at := e_expires_at e;
     is_max_redemptions := e_max_redemptions e; is_redemptions := e_redemptions e;
     is_remaining := remaining; is_bound_session := e_bound_session e;
     is_room_id := if creator_view then Some (e_room_id e) else None;
     is_kind := if creator_view then e_kind e else "chat";
     is_group_id := if creator_view && negb (bool_decide (e_group_id e = ""))
                    then Some (e_group_id e) else None |}.

(** [revoke] *)
Definition revoke (s : Invites) (token requester_session : string) (now : Z)
    : outcome Invites AuthorityError (option InviteStatus) :=
  match lookup_entry s token with
  | None => (Ok None, s)
  | Some (h, e) =>
      if negb (bool_decide (e_creator_session e = requester_session)) then (Err NotCreator, s)
      else (Ok (Some (status_of (set_revoked e) true now)), dset s h (set_revoked e))
  end.

(** [status] *)
Definition status (s : Invites) (token requester_session : string) (now : Z)
    : option InviteStatus :=
  (λ x, status_of x.2 (bool_decide (e_creator_session x.2 = requester_session)) now)
    <$> lookup_entry s token.

(** [entry.last_redeemed_at_mono or entry.expires_monotonic] *)
Definition purge_reference (e : Entry) : Z :=
  match e_last_redeemed e with
  | Some t => if t =? 0 then e_expires_monotonic e else t
  | None => e_expires_monotonic e
  end.

Definition purgeable (retention now : Z) (e : Entry) : bool :=
  ((e_revoked e || exhausted e) || expired e now) && (purge_reference e <? now - retention).

(** [purge_terminal] / [sweep] *)
Definition purge_terminal (retention : Z) (s : Invites) (now : Z) : nat * Invites :=
  (length (filter (λ x, purgeable retention now x.2 = true) s),
   filter (λ x, purgeable retention now x.2 = false) s).
End authority.

(** ** Calls *)

Inductive invite_call :=
| Register (token room_id : string) (ttl uses : Z) (creator kind group_id : string) (now : Z)
    (wall : datetime)
| Redeem (token session : string) (now : Z)
| Revoke (token session : string) (now : Z)
| Purge (now : Z).

Section calls.
Context `{P : Primitives} (retention : Z).

Definition run_invite (s : Invites) (c : invite_call) : Invites :=
  match c with
  | Register t r ttl u cr k g now w => (register s t r ttl u cr k g now w).2
  | Redeem t se now => (redeem s t se now).2
  | Revoke t se now => (revoke s t se now).2
  | Purge now => (purge_terminal retention s now).2
  end.

(** The token a link carries, as the registry addresses it. *)
Definition token_key (token : string) : string := hash_token (upper (strip token)).

(** Does this call consume a use of the invite with digest [h]? *)
Definition consumes (h : string) (s : Invites) (c : invite_call) : bool :=
  match c with
  | Redeem t se now =>
      bool_decide (rr_verdict (redeem s t se now).1 = REDEEMED) && bool_decide (token_key t = h)
  | _ => false
  end.

(** How many calls of a run consume a use of [h]. *)
Fixpoint consumed (h : string) (s : Invites) (cs : list invite_call) : nat :=
  match cs with
  | [] => 0
  | c :: cs' => (if consumes h s c then 1 else 0) + consumed h (run_invite s c) cs'
  end.

Definition registers (h : string) (c : invite_call) : Prop :=
  match c with Register t _ _ _ _ _ _ _ _ => token_key t = h | _ => False end.

(** ** Invariant *)

Definition invites_inv (s : Invites) : Prop :=
  dict_wf s ∧ ∀ h e, dget s h = Some e →
    e_token_hash e = h ∧ 1 <= e_max_redemptions e <= INVITE_MAX_REDEMPTIONS ∧
    0 <= e_redemptions e <= e_max_redemptions e.

(** The scan finds what a dictionary lookup finds. *)
Lemma scan_dget s h : scan s h = (λ e, (h, e)) <$> dget s h.
Proof.
  unfold scan. induction s as [|[h' e] s IH]; simpl; [done|].
  destruct (decide (h' = h)) as [->|Hne]; [by rewrite bool_decide_true|].
  by rewrite bool_decide_false.
Qed.

Lemma lookup_entry_Some s token h e :
  lookup_entry s token = Some (h, e) ↔
    is_valid_invite_token (upper (strip token)) = true ∧ h = token_key token ∧
    dget s h = Some e.
Proof.
  unfold lookup_entry, token_key. cbv zeta. case_match; rewrite ?scan_dget, ?fmap_Some;
    naive_solver.
Qed.

Lemma redeem_inv s t se now : invites_inv s → invites_inv (redeem s t se now).2.
Proof.
  intros [Hwf Hs]. unfold redeem. case_match eqn:Hl; [|done].
  destruct p as [h e]. apply lookup_entry_Some in Hl as (_ & -> & He).
  repeat case_match; try done. split; [by apply dict_wf_dset|].
  intros h' e'. simpl. rewrite dget_dset. case_decide as Hd; [|by apply Hs].
  intros [= <-]. destruct (Hs _ _ He) as (? & ? & ?).
  unfold exhausted in *. breflect. simpl. subst h'. split; [done|]. lia.
Qed.

Lemma revoke_inv s t se now : invites_inv s → invites_inv (revoke s t se now).2.
Proof.
  intros [Hwf Hs]. unfold revoke. case_match eqn:Hl; [|done].
  destruct p as [h e]. apply lookup_entry_Some in Hl as (_ & -> & He).
  case_match; [done|]. split; [by apply dict_wf_dset|].
  intros h' e'. simpl. rewrite dget_dset.
  destruct (decide (token_key t = h')) as [Hd|]; [|by apply Hs].
  intros [= <-]. destruct (Hs _ _ He). by subst h'.
Qed.

Lemma register_inv s t r ttl u cr k g now w :
  invites_inv s → invites_inv (register s t r ttl u cr k g now w).2.
Proof.
  intros [Hwf Hs]. unfold register. case_match eqn:Hv; [|done].
  do 3 (case_match; [|done]). split; [by apply dict_wf_dset|].
  intros h e. simpl. rewrite dget_dset. case_decide as Hd; [|by apply Hs].
  intros [= <-]. simpl. split; [done|]. unfold validate_creation in Hv. cbv zeta in Hv.
  apply bind_Ok in Hv as (_ & _ & Hv). apply bind_Ok in Hv as (_ & _ & Hv).
  apply bind_Ok in Hv as (_ & _ & Hv). apply bind_Ok in Hv as (? & Hu & _).
  apply guard_or_Ok in Hu. breflect. lia.
Qed.

Lemma purge_inv s now : invites_inv s → invites_inv (purge_terminal retention s now).2.
Proof.
  intros [Hwf Hs]. split; [by apply dict_wf_filter|]. intros h e.
  simpl. rewrite dget_filter by done. intros [? _]. by apply Hs.
Qed.

Lemma run_invite_inv s c : invites_inv s → invites_inv (run_invite s c).
Proof.
  destruct c; cbn [run_invite]; auto using register_inv, redeem_inv, revoke_inv, purge_inv.
Qed.

Lemma empty_invites_inv : invites_inv [].
Proof. split; [apply dict_wf_nil|done]. Qed.

Lemma run_invites_inv s cs : invites_inv s → invites_inv (foldl run_invite s cs).
Proof. revert s. induction cs; cbn [foldl]; auto using run_invite_inv. Qed.

(** ** Uses *)

(** The uses an invite still has. *)
Definition uses_left (s : Invites) (h : string) : Z :=
  match dget s h with
  | Some e => if e_revoked e then 0 else e_max_redemptions e - e_redemptions e
  | None => 0
  end.

(** A consumption pays from the uses left; nothing but a registration of
    the same token adds any. *)
Lemma uses_left_step s c h :
  invites_inv s → ¬ registers h c →
  uses_left (run_invite s c) h + (if consumes h s c then 1 else 0) <= uses_left s h.
Proof.
  intros [Hwf Hs] Hreg. unfold uses_left. destruct c; cbn [run_invite consumes registers] in *.
  - unfold register.
    destruct (validate_creation _ _ _ _ _ _) as [n|] eqn:Hv; [|simpl; lia].
    destruct (guard_or _ SessionTooLong); [|simpl; lia].
    destruct (guard_or _ AlreadyRegistered); [|simpl; lia].
    destruct (of_option _ _); [|simpl; lia]. simpl.
    rewrite dget_dset, decide_False; [lia|].
    unfold validate_creation in Hv. cbv zeta in Hv.
    repeat (apply bind_Ok in Hv as (? & _ & Hv)). simplify_eq. done.
  - unfold redeem. destruct (lookup_entry s token) as [[h' e]|] eqn:Hl; [|simpl; lia].
    apply lookup_entry_Some in Hl as (_ & -> & He).
    destruct (e_revoked e) eqn:Hr; [simpl; lia|]. destruct (expired e now); [simpl; lia|].
    destruct (exhausted e); [simpl; lia|]. simpl. rewrite dget_dset.
    destruct (decide (token_key token = h)) as [<-|Hne].
    + rewrite He, bool_decide_true by done. simpl. rewrite Hr. lia.
    + rewrite bool_decide_false by done. simpl. lia.
  - unfold revoke. destruct (lookup_entry s token) as [[h' e]|] eqn:Hl; [|simpl; lia].
    apply lookup_entry_Some in Hl as (_ & -> & He).
    destruct (negb _); [simpl; lia|]. simpl.
    rewrite dget_dset. destruct (decide (token_key token = h)) as [Hd|]; [|lia]. simpl.
    rewrite <- Hd, He.
    destruct (Hs _ _ He). destruct (e_revoked e); lia.
  - unfold purge_terminal. simpl. destruct (dget (filter _ s) h) as [e|] eqn:He.
    + apply dget_filter in He as [-> _]; [lia|done].
    + destruct (dget s h) as [e|] eqn:He'; [|lia]. destruct (Hs _ _ He').
      destruct (e_revoked e); lia.
Qed.

Lemma uses_left_nonneg s h : invites_inv s → 0 <= uses_left s h.
Proof.
  intros [_ Hs]. unfold uses_left. case_match eqn:E; [|done]. apply Hs in E. case_match; lia.
Qed.

Lemma consumed_bound cs : ∀ s h,
  invites_inv s → Forall (λ c, ¬ registers h c) cs →
  Z.of_nat (consumed h s cs) <= uses_left s h.
Proof.
  induction cs as [|c cs IH]; intros s h I Hr; [by apply uses_left_nonneg|].
  apply Forall_cons in Hr as [Hc Hr]. pose proof (uses_left_step s c h I Hc).
  specialize (IH (run_invite s c) h (run_invite_inv s c I) Hr). simpl. case_match; lia.
Qed.
End calls.

Definition day : Z := 24 * 3600 * 1000000.

(** An invite can be redeemed now. *)
Definition redeemable (e : Entry) (now : Z) : Prop :=
  e_revoked e = false ∧ now < e_expires_monotonic e ∧ e_redemptions e < e_max_redemptions e.

Section theorems.
Context `{P : Primitives} (retention : Z).

(** C23: An invite is never over-used: in any run of calls from a reachable
    registry that does not register the token anew, the number of
    successful redemptions of one token is at most the uses its entry
    had left; none succeeds for a token that is revoked, exhausted or
    unknown, whatever the interleaving with other registrations,
    revocations and purges. *)
Theorem redemptions_within_limit history cs token :
  Forall (λ c, ¬ registers (token_key token) c) cs →
  let s := foldl (run_invite retention) [] history in
  Z.of_nat (consumed retention (token_key token) s cs) <=
    match dget s (token_key token) with
    | Some e => if e_revoked e then 0 else e_max_redemptions e - e_redemptions e
    | None => 0
    end.
Proof.
  intros Hr s. apply (consumed_bound retention cs s (token_key token)); [|done].
  apply run_invites_inv, empty_invites_inv.
Qed.

(** [redeem] decides correctly: it answers REDEEMED exactly when the
    token is well formed, registered, not revoked, before its deadline
    and below its limit, and then the entry counts one more use and is
    bound to the redeeming session; otherwise the registry is unchanged
    and the verdict names the first reason that applies. *)
Theorem redeem_decides s token session now :
  let '(r, s') := redeem s token session now in
  match lookup_entry s token with
  | None => rr_verdict r = UNKNOWN ∧ s' = s
  | Some (h, e) =>
      (rr_verdict r = REDEEMED ↔ redeemable e now) ∧
      (rr_verdict r = REVOKED ↔ e_revoked e = true) ∧
      (rr_verdict r = EXPIRED ↔ e_revoked e = false ∧ e_expires_monotonic e <= now) ∧
      rr_invite_id r = e_invite_id e ∧
      (rr_verdict r ≠ REDEEMED → s' = s ∧ rr_room_id r = None) ∧
      (rr_verdict r = REDEEMED →
         rr_room_id r = Some (e_room_id e) ∧
         dget s' h = Some (consume e session now) ∧
         (∀ h', h' ≠ h → dget s' h' = dget s h'))
  end.
Proof.
  unfold redeem. destruct (lookup_entry s token) as [[h e]|] eqn:Hl; [|done].
  unfold redeemable, expired, exhausted.
  destruct (e_revoked e); [naive_solver|].
  destruct (Z.leb_spec (e_expires_monotonic e) now); [naive_solver lia|].
  destruct (Z.leb_spec (e_max_redemptions e) (e_redemptions e)); [naive_solver lia|].
  simpl. split; [naive_solver|]. split; [naive_solver|]. split; [naive_solver lia|].
  do 2 (split; [done|]). intros _. split; [done|]. split.
  - by rewrite dget_dset, decide_True.
  - intros h' Hne. by rewrite dget_dset, decide_False.
Qed.

(** Purging never takes away a usable invite: an entry that can be
    redeemed stays, an entry that stays is unchanged, exactly the
    revoked, exhausted or expired entries past retention go, and the
    count returned is the number removed. *)
Theorem purge_spares_redeemable history now :
  let s := foldl (run_invite retention) [] history in
  let '(n, s') := purge_terminal retention s now in
  (∀ h e, dget s h = Some e → redeemable e now → dget s' h = Some e) ∧
  (∀ h e, dget s' h = Some e → dget s h = Some e) ∧
  (n + length s' = length s)%nat.
Proof.
  intros s. simpl.
  assert (Hwf : dict_wf s) by apply (run_invites_inv retention [] history), empty_invites_inv.
  split; [|split].
  - intros h e He (Hr & Hx & Hu). apply dget_filter; [done|]. split; [done|]. simpl.
    unfold purgeable, expired, exhausted. rewrite Hr.
    destruct (Z.leb_spec (e_max_redemptions e) (e_redemptions e)),
      (Z.leb_spec (e_expires_monotonic e) now); try lia; done.
  - intros h e. rewrite dget_filter by done. by intros [? _].
  - clearbody s. clear. induction s as [|x s IH]; [done|]. rewrite !filter_cons.
    destruct (purgeable retention now x.2); repeat case_decide; try done; simpl; lia.
Qed.

(** Only the creator revokes, and revocation is final: [revoke] by
    another session raises and changes nothing; after the creator's
    revocation no later run that does not re-register the token redeems
    it. *)
Theorem revocation_is_final history cs token session now h e :
  let s := foldl (run_invite retention) [] history in
  lookup_entry s token = Some (h, e) →
  Forall (λ c, ¬ registers h c) cs →
  (session ≠ e_creator_session e → revoke s token session now = (Err NotCreator, s)) ∧
  (session = e_creator_session e →
     consumed retention h (revoke s token session now).2 cs = 0%nat).
Proof.
  intros s Hl Hr. split.
  - intros Hne. unfold revoke. rewrite Hl. by rewrite bool_decide_false.
  - intros ->.
    assert (I : invites_inv s) by apply run_invites_inv, empty_invites_inv.
    pose proof (consumed_bound retention cs (revoke s token (e_creator_session e) now).2 h
      (revoke_inv s token _ now I) Hr) as H.
    enough (uses_left (revoke s token (e_creator_session e) now).2 h = 0) by lia.
    unfold revoke, uses_left. rewrite Hl, bool_decide_true by done. simpl.
    by rewrite dget_dset, decide_True.
Qed.
End theorems.

(** A two-use invite, redeemed twice, then a third time. *)
Definition demo_token : string := "AAAAAAAAAAAAAAAAAAAA".
Definition demo_register : invite_call :=
  Register demo_token "gl-room-AAAA-AAAA-AAAA" 1000000 2 "owner" "chat" "" 0 0.
Definition demo_redeem : invite_call := Redeem demo_token "peer" 1.

Lemma redemptions_within_limit_witness :
  consumed day (token_key demo_token) (foldl (run_invite day) [] [demo_register])
    [demo_redeem; demo_redeem; demo_redeem] = 2%nat ∧
  Z.of_nat (consumed day (token_key demo_token) (foldl (run_invite day) [] [demo_register])
    [demo_redeem; demo_redeem; demo_redeem]) <= 2.
Proof.
  split; [vm_compute; reflexivity|].
  pose proof (redemptions_within_limit day [demo_register] [demo_redeem; demo_redeem; demo_redeem]
    demo_token ltac:(repeat constructor; exact (λ H, H))) as H.
  vm_compute in H. vm_compute. exact H.
Defined.

Lemma revocation_is_final_witness :
  consumed day (token_key demo_token)
    (revoke (foldl (run_invite day) [] [demo_register]) demo_token "owner" 1).2
    [demo_redeem; Purge 2; demo_redeem] = 0%nat.
Proof.
  assert (Hl : ∃ e, lookup_entry (foldl (run_invite day) [] [demo_register]) demo_token =
                      Some (token_key demo_token, e) ∧ e_creator_session e = "owner")
    by (eexists; vm_compute; split; reflexivity).
  destruct Hl as (e & Hl & He).
  destruct (revocation_is_final day [demo_register] [demo_redeem; Purge 2; demo_redeem] demo_token
    "owner" 1 (token_key demo_token) e Hl ltac:(repeat constructor; exact (λ H, H))) as [_ H].
  exact (H (eq_sym He)).
Defined.
