(* ===== verification/SenderKeys.v ===== *)
(** * Sender-key chains

    [groups/senderkeys.py]: the one-way ratchet behind group messages, the
    sender's and the receiver's view of it, and the registry of chains a
    client keeps.  Random bytes (roots, nonces) are arguments; HKDF and
    ChaCha20-Poly1305 are [Primitives]. *)

From S2P Require Import Prelude Text Primitives.

Open Scope Z_scope.

Definition GROUP_SK_SKIPPED_MAX : Z := 64.
Definition GROUP_SK_ROOT_BYTES : nat := 32.
Definition GROUP_SK_MAX_RECEIVER_STATE : nat := 8 * 8.
Definition SK_INFO : string := "ghostlink/group/senderkey/v1".
Definition NONCE_BYTES : nat := 12.

Inductive SKError :=
| SenderKeyError | MissingSenderKeyError | ReplayError | ExcessiveGapError
| PyIndexError (** a write past the end of the shorter buffer *).

#[export] Instance SKError_eq_dec : EqDecision SKError.
Proof. solve_decision. Defined.

(** The context every derivation is bound to. *)
Record Context := mkCtx { cx_group : string; cx_epoch : Z; cx_sender : string; cx_gen : Z }.

(** [b"|".join(parts)] *)
Fixpoint join_bar (parts : list bytes) : bytes :=
  match parts with
  | [] => []
  | [p] => p
  | p :: ps => p ++ encode "|" ++ join_bar ps
  end.

(** The bytes a buffer holds after [for pos in range(len(buf)): buf[pos] =
    nxt[pos]], and whether the loop ran to its end. *)
Definition overwrite_chain (buf nxt : bytes) : outcome bytes SKError unit :=
  if (length buf <=? length nxt)%nat then (Ok tt, take (length buf) nxt)
  else (Err PyIndexError, nxt ++ drop (length nxt) buf).

Section derivation.
Context `{P : Primitives}.

(** [_hkdf] *)
Definition hkdf (seed : bytes) (parts : list bytes) : bytes :=
  hkdf32 seed (encode SK_INFO ++ encode "|" ++ join_bar parts).

Definition context_parts (label : string) (c : Context) (index : Z) : list bytes :=
  [encode label; encode (cx_group c); encode (str_of_Z (cx_epoch c)); encode (cx_sender c);
   encode (str_of_Z (cx_gen c)); encode (str_of_Z index)].

Definition derive_message_key (c : Context) (chain_key : bytes) (index : Z) : bytes :=
  hkdf chain_key (context_parts "msg" c index).

Definition advance_chain (c : Context) (chain_key : bytes) (index : Z) : bytes :=
  hkdf chain_key (context_parts "chain" c index).

Definition seal_message (message_key plaintext aad nonce : bytes) : bytes :=
  nonce ++ aead_encrypt message_key nonce plaintext aad.

Definition open_message (message_key sealed aad : bytes) : result SKError bytes :=
  if (length sealed <=? NONCE_BYTES)%nat then Err SenderKeyError
  else of_option (aead_decrypt message_key (take NONCE_BYTES sealed) (drop NONCE_BYTES sealed) aad)
         SenderKeyError.
End derivation.

Definition distribution_root_b64 (root : bytes) : string := b64encode root.

Definition parse_distribution_root (value : string) : result SKError bytes :=
  raw ← of_option (b64decode value) SenderKeyError;
  guard_or (bool_decide (length raw = GROUP_SK_ROOT_BYTES)) SenderKeyError;;
  Ok raw.

Record Distribution := mkDist { d_gen : Z; d_index : Z; d_root : bytes }.

(** [_require_index] *)
Definition require_index (index : Z) : result SKError unit :=
  guard_or (negb (index <? 1)) SenderKeyError.

(** ** The sending side *)

Record OutgoingChain := mkOut {
  oc_group_id : string; oc_epoch : Z; oc_gen : Z;
  oc_root : bytes; oc_chain : bytes; oc_next_index : Z;
}.

Section outgoing.
Context `{P : Primitives}.

(** [OutgoingChain.__init__] *)
Definition OutgoingChain_init (c : Context) (root : bytes) (start_index : Z) : OutgoingChain :=
  let start := if 1 <=? start_index then start_index else 1 in
  mkOut (cx_group c) (cx_epoch c) (cx_gen c) root
    (foldl (advance_chain c) root (seqZ 1 (start - 1))) start.

(** [seal]; the caller passes group, epoch and sender, the generation is
    the chain's own. *)
Definition seal (o : OutgoingChain) (group_id : string) (epoch : Z) (sender : string) (index : Z)
    (plaintext aad nonce : bytes) : outcome OutgoingChain SKError bytes :=
  try? _ := require_index index @ o in
  try? _ := guard_or (bool_decide (index = oc_next_index o)) SenderKeyError @ o in
  let c := mkCtx group_id epoch sender (oc_gen o) in
  let message_key := derive_message_key c (oc_chain o) index in
  let nxt := advance_chain c (oc_chain o) index in
  let '(r, chain) := overwrite_chain (oc_chain o) nxt in
  let o1 := mkOut (oc_group_id o) (oc_epoch o) (oc_gen o) (oc_root o) chain (oc_next_index o) in
  try? _ := r @ o1 in
  (Ok (seal_message message_key plaintext aad nonce),
   mkOut (oc_group_id o) (oc_epoch o) (oc_gen o) (oc_root o) chain (index + 1)).

(** [distribution] *)
Definition distribution (o : OutgoingChain) (index : option Z) : Distribution :=
  mkDist (oc_gen o) (default (oc_next_index o) index) (oc_root o).

(** [zeroize] *)
Definition zeroize_out (o : OutgoingChain) : OutgoingChain :=
  mkOut (oc_group_id o) (oc_epoch o) (oc_gen o) (replicate (length (oc_root o)) 0)
    (replicate (length (oc_chain o)) 0) (oc_next_index o).
End outgoing.

(** ** The receiving side *)

Record ReceiverChain := mkRecv {
  rc_group_id : string; rc_sender : string; rc_epoch : Z; rc_gen : Z;
  rc_last_seen : Z; rc_chain : option bytes; rc_skipped : list (Z * bytes);
}.

Definition rc_context (r : ReceiverChain) : Context :=
  mkCtx (rc_group_id r) (rc_epoch r) (rc_sender r) (rc_gen r).

Definition ReceiverChain_init (group_id sender : string) (epoch gen : Z) : ReceiverChain :=
  mkRecv group_id sender epoch gen 0 None [].

Definition set_recv (r : ReceiverChain) (last : Z) (chain : option bytes)
    (skipped : list (Z * bytes)) : ReceiverChain :=
  mkRecv (rc_group_id r) (rc_sender r) (rc_epoch r) (rc_gen r) last chain skipped.

(** [while len(d) > n: d.popitem(last=False)] *)
Definition trim_oldest {A} (n : nat) (l : list A) : list A := drop (length l - n) l.

(** [_cache_skipped] *)
Definition cache_skipped (skipped : list (Z * bytes)) (index : Z) (message_key : bytes)
    : list (Z * bytes) :=
  if dmem skipped index then dmove_to_end skipped index
  else trim_oldest (Z.to_nat GROUP_SK_SKIPPED_MAX) (dset skipped index message_key).

Section receiving.
Context `{P : Primitives}.

(** One turn of the loop of [install]. *)
Definition install_turn (c : Context) (s : bytes * list (Z * bytes)) (k : Z)
    : bytes * list (Z * bytes) :=
  let '(chain, skipped) := s in
  (advance_chain c chain k, cache_skipped skipped k (derive_message_key c chain k)).

(** [install] *)
Definition install (r : ReceiverChain) (root : bytes) (index : Z)
    : outcome ReceiverChain SKError unit :=
  try? _ := require_index index @ r in
  match rc_chain r with
  | None =>
      let '(chain, skipped) :=
        foldl (install_turn (rc_context r)) (root, rc_skipped r) (seqZ 1 index) in
      (Ok tt, set_recv r index (Some chain) skipped)
  | Some live =>
      if index <=? rc_last_seen r then (Ok tt, r)
      else
        let '(chain, skipped) :=
          foldl (install_turn (rc_context r)) (live, rc_skipped r)
            (seqZ (rc_last_seen r + 1) (index - rc_last_seen r)) in
        (Ok tt, set_recv r index (Some chain) skipped)
  end.

(** The loop of [message_key_for] over the skipped positions; the chain is
    overwritten in place. *)
Fixpoint skip_ahead (c : Context) (ks : list Z) (chain : bytes) (skipped : list (Z * bytes))
    : outcome (bytes * list (Z * bytes)) SKError unit :=
  match ks with
  | [] => (Ok tt, (chain, skipped))
  | k :: ks' =>
      let skipped' := cache_skipped skipped k (derive_message_key c chain k) in
      match overwrite_chain chain (advance_chain c chain k) with
      | (Err e, chain') => (Err e, (chain', skipped'))
      | (Ok _, chain') => skip_ahead c ks' chain' skipped'
      end
  end.

(** [message_key_for] *)
Definition message_key_for (r : ReceiverChain) (index : Z)
    : outcome ReceiverChain SKError (bytes * bool) :=
  try? _ := require_index index @ r in
  match rc_chain r with
  | None => (Err MissingSenderKeyError, r)
  | Some chain =>
      match dget (rc_skipped r) index with
      | Some mk =>
          (Ok (mk, true),
           set_recv r (rc_last_seen r) (Some chain) (dpop (rc_skipped r) index))
      | None =>
          if index <=? rc_last_seen r then (Err ReplayError, r)
          else if GROUP_SK_SKIPPED_MAX <? index - rc_last_seen r - 1
          then (Err ExcessiveGapError, r)
          else
            let c := rc_context r in
            let '(res, (chain1, skipped1)) :=
              skip_ahead c (seqZ (rc_last_seen r + 1) (index - rc_last_seen r - 1)) chain
                (rc_skipped r) in
            try? _ := res @ (set_recv r (rc_last_seen r) (Some chain1) skipped1) in
            let message_key := derive_message_key c chain1 index in
            let '(res2, chain2) := overwrite_chain chain1 (advance_chain c chain1 index) in
            try? _ := res2 @ (set_recv r (rc_last_seen r) (Some chain2) skipped1) in
            (Ok (message_key, false), set_recv r index (Some chain2) skipped1)
      end
  end.

(** [zeroize] *)
Definition zeroize_recv (r : ReceiverChain) : ReceiverChain :=
  set_recv r (rc_last_seen r) None [].
End receiving.

(** ** The store *)

Record SenderKeyStore := mkStore {
  ks_outgoing : list ((string * Z) * OutgoingChain);
  ks_incoming : list ((string * string) * ReceiverChain);
  ks_generations : list ((string * Z) * Z);
  ks_start_index : list ((string * Z) * Z);
}.

Definition empty_store : SenderKeyStore := mkStore [] [] [] [].

Section store.
Context `{P : Primitives}.

(** [ensure_outgoing]; [root] is the draw of [generate_chain_root]. *)
Definition ensure_outgoing (s : SenderKeyStore) (group_id : string) (epoch : Z)
    (sender : string) (start_index : option Z) (root : bytes)
    : OutgoingChain * SenderKeyStore :=
  let key := (group_id, epoch) in
  match dget (ks_outgoing s) key with
  | Some chain => (chain, s)
  | None =>
      let start := default (default 1 (dget (ks_start_index s) key)) start_index in
      let gen := default 0 (dget (ks_generations s) key) + 1 in
      let chain := OutgoingChain_init (mkCtx group_id epoch sender gen) root start in
      (chain, mkStore (dset (ks_outgoing s) key chain) (ks_incoming s)
                (dset (ks_generations s) key gen) (dset (ks_start_index s) key start))
  end.

(** [outgoing_distribution] *)
Definition outgoing_distribution (s : SenderKeyStore) (group_id : string) (epoch : Z)
    (sender : string) (index : option Z) (root : bytes) : Distribution * SenderKeyStore :=
  let '(chain, s') := ensure_outgoing s group_id epoch sender None root in
  (distribution chain index, s').

Definition set_incoming (s : SenderKeyStore) incoming : SenderKeyStore :=
  mkStore (ks_outgoing s) incoming (ks_generations s) (ks_start_index s).

(** [install_incoming]; a superseded chain object is zeroized and stays
    in its slot when the installation of its successor raises. *)
Definition install_incoming (s : SenderKeyStore) (group_id sender : string) (epoch gen : Z)
    (root : bytes) (index : Z) : outcome SenderKeyStore SKError unit :=
  let key := (group_id, sender) in
  if (GROUP_SK_MAX_RECEIVER_STATE <=? length (ks_incoming s))%nat &&
     negb (dmem (ks_incoming s) key)
  then (Err SenderKeyError, s)
  else
    let fresh (s1 : SenderKeyStore) :=
      match install (ReceiverChain_init group_id sender epoch gen) root index with
      | (Err e, _) => (Err e, s1)
      | (Ok _, receiver) => (Ok tt, set_incoming s1 (dset (ks_incoming s1) key receiver))
      end in
    match dget (ks_incoming s) key with
    | Some existing =>
        if bool_decide (rc_epoch existing = epoch) && bool_decide (rc_gen existing = gen) then
          let '(r, existing') := install existing root index in
          (r, set_incoming s (dset (ks_incoming s) key existing'))
        else fresh (set_incoming s (dset (ks_incoming s) key (zeroize_recv existing)))
    | None => fresh s
    end.

(** [message_key_for] *)
Definition store_message_key_for (s : SenderKeyStore) (group_id sender : string)
    (epoch gen index : Z) : outcome SenderKeyStore SKError (bytes * bool) :=
  match dget (ks_incoming s) (group_id, sender) with
  | Some receiver =>
      if bool_decide (rc_epoch receiver = epoch) && bool_decide (rc_gen receiver = gen) then
        let '(r, receiver') := message_key_for receiver index in
        (r, set_incoming s (dset (ks_incoming s) (group_id, sender) receiver'))
      else (Err MissingSenderKeyError, s)
  | None => (Err MissingSenderKeyError, s)
  end.

(** [prune_epoch] *)
Definition prune_epoch (s : SenderKeyStore) (group_id : string) (epoch : Z) : SenderKeyStore :=
  mkStore (filter (λ x, ¬ (x.1.1 = group_id ∧ x.1.2 ≠ epoch)) (ks_outgoing s))
    (filter (λ x, ¬ (x.1.1 = group_id ∧ rc_epoch x.2 ≠ epoch)) (ks_incoming s))
    (ks_generations s) (ks_start_index s).

(** [drop_sender] *)
Definition drop_sender (s : SenderKeyStore) (group_id sender : string) : SenderKeyStore :=
  set_incoming s (dpop (ks_incoming s) (group_id, sender)).

(** [teardown_group] *)
Definition teardown_group (s : SenderKeyStore) (group_id : string) : SenderKeyStore :=
  mkStore (filter (λ x, x.1.1 ≠ group_id) (ks_outgoing s))
    (filter (λ x, x.1.1 ≠ group_id) (ks_incoming s))
    (filter (λ x, x.1.1 ≠ group_id) (ks_generations s))
    (filter (λ x, x.1.1 ≠ group_id) (ks_start_index s)).

(** [teardown_all] *)
Definition teardown_all (s : SenderKeyStore) : SenderKeyStore := empty_store.
End store.
