(* ===== verification/SenderKeyTheorems.v ===== *)
(** * Theorems about sender-key chains

    The ratchet as a mathematical sequence ([chain_at], [key_at]); the
    invariants that tie the sender's and the receiver's mutable chains to
    it; agreement of keys, delivery within the window, no replay, bounded
    state. *)

From S2P Require Import Prelude Text Primitives SenderKeys.

Open Scope Z_scope.

Section ratchet.
Context {P : Primitives} {L : PrimitiveLaws P}.

(** ** Reference definitions *)

(** The chain key after [n] steps from the root. *)
Fixpoint chain_at (c : Context) (root : bytes) (n : nat) : bytes :=
  match n with
  | O => root
  | S m => advance_chain c (chain_at c root m) (Z.of_nat (S m))
  end.

(** The message key of position [k]. *)
Definition key_at (c : Context) (root : bytes) (k : Z) : bytes :=
  derive_message_key c (chain_at c root (Z.to_nat (k - 1))) k.

Lemma chain_at_step c root k :
  1 <= k → advance_chain c (chain_at c root (Z.to_nat (k - 1))) k = chain_at c root (Z.to_nat k).
Proof.
  intros Hk. replace (Z.to_nat k) with (S (Z.to_nat (k - 1))) by lia. simpl.
  f_equal. lia.
Qed.

Lemma chain_at_length c root k : 1 <= k → length (chain_at c root (Z.to_nat k)) = 32%nat.
Proof. intros Hk. rewrite <- chain_at_step by done. apply hkdf32_length. Qed.

Lemma overwrite_step c root k :
  1 <= k → length (chain_at c root (Z.to_nat (k - 1))) = 32%nat →
  overwrite_chain (chain_at c root (Z.to_nat (k - 1)))
    (advance_chain c (chain_at c root (Z.to_nat (k - 1))) k) =
  (Ok tt, chain_at c root (Z.to_nat k)).
Proof.
  intros Hk Hl. unfold overwrite_chain.
  assert (Ha : length (advance_chain c (chain_at c root (Z.to_nat (k - 1))) k) = 32%nat)
    by apply hkdf32_length.
  rewrite Hl, Ha. simpl. f_equal. rewrite chain_at_step by done. apply take_ge.
  rewrite <- chain_at_step by done. lia.
Qed.

(** ** The sender *)

Definition out_inv (c : Context) (o : OutgoingChain) : Prop :=
  oc_gen o = cx_gen c ∧ oc_group_id o = cx_group c ∧ oc_epoch o = cx_epoch c ∧
  1 <= oc_next_index o ∧ length (oc_root o) = 32%nat ∧
  oc_chain o = chain_at c (oc_root o) (Z.to_nat (oc_next_index o - 1)).

Lemma foldl_advance c root n :
  foldl (advance_chain c) root (seqZ 1 (Z.of_nat n)) = chain_at c root n.
Proof.
  induction n as [|n IH]; [done|].
  rewrite seqZ_S, foldl_app, IH. cbn [foldl chain_at]. f_equal. lia.
Qed.

Lemma OutgoingChain_init_inv c root start :
  length root = 32%nat →
  out_inv c (OutgoingChain_init c root start) ∧
  oc_root (OutgoingChain_init c root start) = root ∧
  oc_next_index (OutgoingChain_init c root start) = Z.max 1 start.
Proof.
  intros Hr. unfold OutgoingChain_init, out_inv. simpl.
  destruct (Z.leb_spec 1 start).
  - split; [|split; [done|lia]]. do 3 (split; [done|]). split; [lia|]. split; [done|].
    rewrite <- foldl_advance. do 2 f_equal. lia.
  - split; [|split; [done|lia]]. do 3 (split; [done|]). split; [lia|]. done.
Qed.

Lemma chain_length_ok c root n : length root = 32%nat → length (chain_at c root n) = 32%nat.
Proof. intros Hr. destruct n; [done|]. apply hkdf32_length. Qed.

Lemma seal_spec c o index plaintext aad nonce :
  out_inv c o →
  seal o (cx_group c) (cx_epoch c) (cx_sender c) index plaintext aad nonce =
    if decide (index = oc_next_index o)
    then (Ok (seal_message (key_at c (oc_root o) index) plaintext aad nonce),
          mkOut (oc_group_id o) (oc_epoch o) (oc_gen o) (oc_root o)
            (chain_at c (oc_root o) (Z.to_nat index)) (index + 1))
    else (Err SenderKeyError, o).
Proof.
  intros (Hg & _ & _ & Hn & Hr & Hc). unfold seal, require_index, guard_or.
  destruct (Z.ltb_spec index 1) as [Hi|Hi]; simpl.
  { rewrite decide_False by lia. done. }
  destruct (decide (index = oc_next_index o)) as [->|Hne];
    [rewrite bool_decide_true by done|by rewrite bool_decide_false]. simpl.
  destruct c as [cg ce cs cgen]. simpl in *. rewrite Hg, Hc.
  rewrite overwrite_step by (done || by apply chain_length_ok). done.
Qed.

Lemma seal_inv c o index plaintext aad nonce :
  out_inv c o →
  out_inv c (seal o (cx_group c) (cx_epoch c) (cx_sender c) index plaintext aad nonce).2.
Proof.
  intros I. rewrite (seal_spec c o index plaintext aad nonce I). case_decide; [|done].
  destruct I as (Hg & Hgi & He & Hn & Hr & Hc). subst index.
  do 3 (split; [done|]). simpl. split; [lia|]. split; [done|].
  do 2 f_equal. lia.
Qed.

(** ** The receiver *)

Record recv_inv (root : bytes) (r : ReceiverChain) : Prop := {
  ri_chain : ∀ ch, rc_chain r = Some ch →
    1 <= rc_last_seen r ∧ ch = chain_at (rc_context r) root (Z.to_nat (rc_last_seen r));
  ri_fresh : rc_chain r = None → rc_skipped r = [];
  ri_wf : dict_wf (rc_skipped r);
  ri_keys : Forall (λ x, 1 <= x.1 <= rc_last_seen r ∧
                         x.2 = key_at (rc_context r) root x.1) (rc_skipped r);
  ri_bound : (length (rc_skipped r) <= Z.to_nat GROUP_SK_SKIPPED_MAX)%nat;
}.

Lemma init_recv_inv root group sender epoch gen :
  recv_inv root (ReceiverChain_init group sender epoch gen).
Proof. split; simpl; try done; [apply dict_wf_nil|lia]. Qed.

(** Adding the next position to the cache. *)
Lemma trim_length {A} n (l : list A) : (length (trim_oldest n l) <= n)%nat.
Proof. unfold trim_oldest. rewrite length_drop. lia. Qed.

Lemma trim_elem {A} n (l : list A) x : x ∈ trim_oldest n l → x ∈ l.
Proof.
  unfold trim_oldest. intros H. rewrite <- (take_drop (length l - n) l). apply elem_of_app. auto.
Qed.

(** The newest [n] entries survive. *)
Lemma trim_keeps {A} n (l r : list A) x :
  (length r <= n)%nat → x ∈ r → x ∈ trim_oldest n (l ++ r).
Proof.
  intros Hn Hx. unfold trim_oldest. rewrite length_app.
  destruct (decide (length l + length r <= n)%nat).
  - replace (_ - n)%nat with 0%nat by lia. simpl. apply elem_of_app. auto.
  - rewrite drop_app_le by lia. apply elem_of_app. auto.
Qed.

(** Trimming early or late is the same. *)
Lemma trim_trim {A} n (l r : list A) : trim_oldest n (trim_oldest n l ++ r) = trim_oldest n (l ++ r).
Proof.
  unfold trim_oldest. rewrite !length_app, length_drop.
  destruct (decide (length l <= n)%nat).
  - replace (length l - n)%nat with 0%nat by lia. simpl. f_equal. lia.
  - rewrite <- drop_app_le by lia. rewrite drop_drop. f_equal. lia.
Qed.

Lemma dset_fresh {V} (d : list (Z * V)) k v :
  k ∉ keys d → dset d k v = d ++ [(k, v)].
Proof.
  induction d as [|[k' v'] d IH]; simpl; [done|]. unfold keys in *. simpl. intros H.
  rewrite decide_False by set_solver. f_equal. apply IH. set_solver.
Qed.

(** The cache holds keys of positions up to [last]. *)
Record cache_inv (c : Context) (root : bytes) (last : Z) (d : list (Z * bytes)) : Prop := {
  ci_wf : dict_wf d;
  ci_keys : Forall (λ x, 1 <= x.1 <= last ∧ x.2 = key_at c root x.1) d;
  ci_bound : (length d <= Z.to_nat GROUP_SK_SKIPPED_MAX)%nat;
}.

Lemma cache_next c root last d :
  cache_inv c root last d → 0 <= last →
  cache_inv c root (last + 1) (cache_skipped d (last + 1) (key_at c root (last + 1))) ∧
  cache_skipped d (last + 1) (key_at c root (last + 1)) =
    trim_oldest (Z.to_nat GROUP_SK_SKIPPED_MAX) (d ++ [(last + 1, key_at c root (last + 1))]).
Proof.
  intros [Hwf Hk Hb] Hl.
  assert (Hn : last + 1 ∉ keys d).
  { intros Hin. unfold keys in Hin. apply list_elem_of_fmap in Hin as (x & Hx & Hin).
    rewrite Forall_forall in Hk. apply Hk in Hin. lia. }
  assert (E : cache_skipped d (last + 1) (key_at c root (last + 1)) =
    trim_oldest (Z.to_nat GROUP_SK_SKIPPED_MAX) (d ++ [(last + 1, key_at c root (last + 1))])).
  { unfold cache_skipped. rewrite (proj2 (dmem_false d (last + 1))) by (by apply dget_None).
    by rewrite dset_fresh. }
  split; [|exact E]. rewrite E. split.
  - unfold dict_wf, keys, trim_oldest. rewrite fmap_drop.
    eapply sublist_NoDup; [|apply sublist_drop]. rewrite fmap_app. apply NoDup_app.
    split; [done|]. split; [|apply NoDup_singleton]. simpl. set_solver.
  - unfold trim_oldest. apply Forall_drop, Forall_app. split.
    + eapply Forall_impl; [exact Hk|]. simpl. intros x [? ->]. split; [lia|done].
    + apply Forall_singleton. simpl. split; [lia|done].
  - apply trim_length.
Qed.

(** The loop of [install]. *)
Lemma install_loop c root n : ∀ last d,
  cache_inv c root last d → 0 <= last →
  let '(chain, d') := foldl (install_turn c) (chain_at c root (Z.to_nat last), d)
                        (seqZ (last + 1) (Z.of_nat n)) in
  chain = chain_at c root (Z.to_nat (last + Z.of_nat n)) ∧
  cache_inv c root (last + Z.of_nat n) d'.
Proof.
  induction n as [|n IH]; intros last d Hd Hl.
  - simpl. by rewrite Z.add_0_r.
  - rewrite seqZ_cons by lia. cbn [foldl install_turn].
    assert (Hk : derive_message_key c (chain_at c root (Z.to_nat last)) (last + 1) =
      key_at c root (last + 1)) by (unfold key_at; by replace (last + 1 - 1) with last by lia).
    assert (Hc : advance_chain c (chain_at c root (Z.to_nat last)) (last + 1) =
      chain_at c root (Z.to_nat (last + 1))).
    { rewrite <- (chain_at_step _ _ (last + 1)) by lia.
      by replace (last + 1 - 1) with last by lia. }
    rewrite Hk, Hc. destruct (cache_next c root last d Hd Hl) as [Hd' _].
    specialize (IH (last + 1) _ Hd' ltac:(lia)).
    replace (Z.succ (last + 1)) with (last + 1 + 1) by lia.
    replace (Z.pred (Z.of_nat (S n))) with (Z.of_nat n) by lia.
    replace (last + Z.of_nat (S n)) with (last + 1 + Z.of_nat n) by lia. exact IH.
Qed.

(** The loop of [message_key_for]. *)
Lemma skip_loop c root n : ∀ last d,
  cache_inv c root last d → 1 <= last →
  ∃ d', skip_ahead c (seqZ (last + 1) (Z.of_nat n)) (chain_at c root (Z.to_nat last)) d =
    (Ok tt, (chain_at c root (Z.to_nat (last + Z.of_nat n)), d')) ∧
    cache_inv c root (last + Z.of_nat n) d' ∧
    d' = trim_oldest (Z.to_nat GROUP_SK_SKIPPED_MAX)
           (d ++ ((λ k, (k, key_at c root k)) <$> seqZ (last + 1) (Z.of_nat n))).
Proof.
  induction n as [|n IH]; intros last d Hd Hl.
  - exists d. rewrite Z.add_0_r. split; [done|]. split; [done|]. simpl. rewrite app_nil_r.
    unfold trim_oldest. pose proof (ci_bound _ _ _ _ Hd).
    replace (length d - Z.to_nat GROUP_SK_SKIPPED_MAX)%nat with 0%nat by lia. done.
  - rewrite seqZ_cons by lia. cbn [skip_ahead].
    assert (E : Z.to_nat last = Z.to_nat (last + 1 - 1)) by lia.
    assert (Hk : derive_message_key c (chain_at c root (Z.to_nat last)) (last + 1) =
      key_at c root (last + 1)) by (unfold key_at; by rewrite <- E).
    rewrite Hk, E. rewrite overwrite_step; [|lia|].
    2: { rewrite <- E. apply chain_at_length. lia. }
    destruct (cache_next c root last d Hd ltac:(lia)) as [Hd' Et].
    destruct (IH (last + 1) _ Hd' ltac:(lia)) as (d' & Hs & Hd2 & Et2).
    exists d'. replace (Z.succ (last + 1)) with (last + 1 + 1) by lia.
    replace (Z.pred (Z.of_nat (S n))) with (Z.of_nat n) by lia.
    replace (last + Z.of_nat (S n)) with (last + 1 + Z.of_nat n) by lia.
    split; [exact Hs|]. split; [done|]. rewrite Et2, Et.
    etrans; [apply trim_trim|]. by rewrite <- app_assoc.
Qed.

Lemma recv_cache root r : recv_inv root r → cache_inv (rc_context r) root (rc_last_seen r) (rc_skipped r).
Proof. intros []. by split. Qed.

Lemma set_recv_inv root r last chain d :
  cache_inv (rc_context r) root last d → 1 <= last →
  chain = chain_at (rc_context r) root (Z.to_nat last) →
  recv_inv root (set_recv r last (Some chain) d).
Proof.
  intros [] Hl ->. split; simpl; try done. intros ch [= <-]. by split.
Qed.

(** [install] on an empty receiver adopts the root; on a live one it only
    moves forward along the chain it has, whatever root is presented. *)
Lemma install_spec root root' r index :
  recv_inv root r → 1 <= index →
  (rc_chain r = None → root' = root) →
  (install r root' index).1 = Ok tt ∧ recv_inv root (install r root' index).2 ∧
  rc_context (install r root' index).2 = rc_context r ∧
  rc_last_seen (install r root' index).2 =
    (if decide (rc_chain r = None) then index else Z.max index (rc_last_seen r)).
Proof.
  intros I Hi Hroot. unfold install, require_index, guard_or.
  destruct (Z.ltb_spec index 1); [lia|]. simpl.
  destruct (rc_chain r) as [live|] eqn:Hch.
  - destruct (ri_chain root r I live Hch) as [Hl Hlive].
    destruct (Z.leb_spec index (rc_last_seen r)); [by do 3 (split; [done|]); simpl; lia|].
    pose proof (install_loop (rc_context r) root (Z.to_nat (index - rc_last_seen r))
      (rc_last_seen r) (rc_skipped r) (recv_cache root r I) ltac:(lia)) as Hloop.
    rewrite Z2Nat.id in Hloop by lia. rewrite Hlive.
    destruct (foldl _ _ _) as [chain d]. destruct Hloop as [-> Hd].
    replace (rc_last_seen r + (index - rc_last_seen r)) with index in * by lia.
    split; [done|]. split; [by apply set_recv_inv|]. split; [done|]. simpl. lia.
  - rewrite Hroot by done. rewrite (ri_fresh root r I Hch).
    pose proof (install_loop (rc_context r) root (Z.to_nat index) 0 []) as Hloop.
    rewrite Z2Nat.id in Hloop by lia. simpl in Hloop.
    destruct (foldl _ _ _) as [chain d].
    destruct Hloop as [-> Hd]; [split; [apply dict_wf_nil|done|simpl; lia]|lia|].
    split; [done|]. split; [by apply set_recv_inv|]. done.
Qed.

(** The verdict of [message_key_for] on a live receiver, and the keys it
    hands out. *)
Lemma message_key_for_spec root r ch index :
  recv_inv root r → rc_chain r = Some ch → 1 <= index →
  let '(res, r') := message_key_for r index in
  recv_inv root r' ∧ rc_context r' = rc_context r ∧ is_Some (rc_chain r') ∧
  match dget (rc_skipped r) index with
  | Some _ => res = Ok (key_at (rc_context r) root index, true) ∧
      rc_last_seen r' = rc_last_seen r ∧ rc_skipped r' = dpop (rc_skipped r) index
  | None =>
      if decide (index <= rc_last_seen r) then res = Err ReplayError ∧ r' = r
      else if decide (GROUP_SK_SKIPPED_MAX < index - rc_last_seen r - 1)
      then res = Err ExcessiveGapError ∧ r' = r
      else res = Ok (key_at (rc_context r) root index, false) ∧ rc_last_seen r' = index ∧
        rc_skipped r' = trim_oldest (Z.to_nat GROUP_SK_SKIPPED_MAX)
          (rc_skipped r ++ ((λ k, (k, key_at (rc_context r) root k)) <$>
             seqZ (rc_last_seen r + 1) (index - rc_last_seen r - 1)))
  end.
Proof.
  intros I Hch Hi. pose proof (recv_cache root r I) as Hc.
  destruct (ri_chain root r I ch Hch) as [Hl Hlive].
  unfold message_key_for, require_index, guard_or. destruct (Z.ltb_spec index 1); [lia|].
  simpl. rewrite Hch. destruct (dget (rc_skipped r) index) as [mk|] eqn:Hd.
  - assert (mk = key_at (rc_context r) root index) as ->.
    { apply dget_Some_elem in Hd. destruct Hc as [_ Hk _]. rewrite Forall_forall in Hk.
      by apply Hk in Hd as [_ ?]. }
    split; [|done]. apply set_recv_inv; [|done|done]. destruct Hc as [Hwf Hk Hb]. split.
    + by apply dict_wf_dpop.
    + rewrite Forall_forall in *. intros x Hx. apply Hk. by apply dpop_elem in Hx.
    + pose proof (length_dpop (rc_skipped r) index). lia.
  - destruct (Z.leb_spec index (rc_last_seen r)).
    { destruct (decide (index <= rc_last_seen r)); [|lia]. split; [done|]. split; [done|].
      split; [rewrite Hch; eauto|done]. }
    destruct (decide (index <= rc_last_seen r)); [lia|].
    destruct (Z.ltb_spec GROUP_SK_SKIPPED_MAX (index - rc_last_seen r - 1)).
    { destruct (decide (_ < _)); [|lia]. split; [done|]. split; [done|].
      split; [rewrite Hch; eauto|done]. }
    destruct (decide (_ < _)); [lia|].
    destruct (skip_loop (rc_context r) root (Z.to_nat (index - rc_last_seen r - 1))
      (rc_last_seen r) (rc_skipped r) Hc Hl) as (d' & Hs & Hd' & Et).
    rewrite Z2Nat.id in * by lia. rewrite Hlive, Hs.
    replace (rc_last_seen r + (index - rc_last_seen r - 1)) with (index - 1) in * by lia.
    rewrite overwrite_step by (done || (apply chain_at_length; lia)).
    split; [|done]. apply set_recv_inv; [|lia|done]. destruct Hd' as [? Hk ?].
    split; [done| |done]. eapply Forall_impl; [exact Hk|]. simpl. intros x [? ?]. split; [lia|done].
Qed.
(** ** Runs *)

(** The sender's chain moves by sealing. *)
Inductive seal_step (c : Context) (o : OutgoingChain) : OutgoingChain → Prop :=
| seal_step_call index plaintext aad nonce :
    seal_step c o (seal o (cx_group c) (cx_epoch c) (cx_sender c) index plaintext aad nonce).2.

(** The receiver's chain moves by distributions whose root satisfies [R]
    and by key requests, in any order. *)
Inductive recv_step (R : bytes → Prop) (r : ReceiverChain) : ReceiverChain → Prop :=
| recv_step_install root index : R root → recv_step R r (install r root index).2
| recv_step_key index : recv_step R r (message_key_for r index).2.

Lemma seal_run_inv c o o' : out_inv c o → rtc (seal_step c) o o' →
  out_inv c o' ∧ oc_root o' = oc_root o.
Proof.
  intros I H. induction H as [o|o o1 o2 Hs _ IH]; [done|]. destruct Hs as [index p aad nonce].
  destruct IH as [I2 E2]; [by apply seal_inv|]. split; [done|]. rewrite E2.
  rewrite (seal_spec c o index p aad nonce I). by case_decide.
Qed.

Lemma install_low r root index :
  index < 1 → install r root index = (Err SenderKeyError, r).
Proof. intros H. unfold install, require_index, guard_or. by destruct (Z.ltb_spec index 1); [|lia]. Qed.

Lemma message_key_low r index :
  index < 1 → message_key_for r index = (Err SenderKeyError, r).
Proof.
  intros H. unfold message_key_for, require_index, guard_or.
  by destruct (Z.ltb_spec index 1); [|lia].
Qed.

Lemma message_key_fresh r index :
  rc_chain r = None → (message_key_for r index).2 = r ∧ is_ok (message_key_for r index).1 = false.
Proof. intros H. unfold message_key_for. rewrite H. by destruct (require_index index). Qed.

Lemma recv_step_inv root r r' :
  recv_inv root r → recv_step (λ root', rc_chain r = None → root' = root) r r' →
  recv_inv root r' ∧ rc_context r' = rc_context r.
Proof.
  intros I [root' index Hr|index].
  - destruct (decide (1 <= index)); [|by rewrite install_low by lia].
    destruct (install_spec root root' r index I) as (_ & ? & ? & _); done.
  - destruct (decide (1 <= index)); [|by rewrite message_key_low by lia].
    destruct (rc_chain r) as [ch|] eqn:Hch.
    + pose proof (message_key_for_spec root r ch index I Hch ltac:(done)) as Hm.
      destruct (message_key_for r index). simpl. by destruct Hm as (? & ? & _).
    + by destruct (message_key_fresh r index Hch) as [-> _].
Qed.

Lemma recv_run_inv root r r' :
  recv_inv root r → rtc (recv_step (eq root)) r r' →
  recv_inv root r' ∧ rc_context r' = rc_context r.
Proof.
  intros I H. induction H as [|r r1 r2 Hs _ IH]; [done|].
  destruct (recv_step_inv root r r1 I) as [I1 E1].
  { destruct Hs as [root' index <-|index]; by constructor. }
  destruct (IH I1) as [? ?]. split; [done|]. congruence.
Qed.

(** Some root explains every reachable receiver. *)
Lemma recv_run_some_inv r r' :
  (∃ root, recv_inv root r) → rtc (recv_step (λ _, True)) r r' →
  ∃ root, recv_inv root r'.
Proof.
  intros I H. induction H as [|r r1 r2 Hs _ IH]; [done|]. apply IH. destruct I as [root I].
  destruct (rc_chain r) as [ch|] eqn:Hch.
  - exists root. apply (recv_step_inv root r r1 I). destruct Hs; constructor. congruence.
  - destruct Hs as [root' index _|index].
    + exists root'. apply (recv_step_inv root' r).
      * pose proof (ri_fresh root r I Hch) as Hf. destruct I. split; rewrite ?Hf in *; try done.
        intros ch. congruence.
      * by constructor.
    + exists root. by destruct (message_key_fresh r index Hch) as [-> _].
Qed.

Lemma key_Ok root r index k b r' :
  recv_inv root r → message_key_for r index = (Ok (k, b), r') →
  1 <= index ∧ (∃ ch, rc_chain r = Some ch) ∧ k = key_at (rc_context r) root index.
Proof.
  intros I H. destruct (decide (1 <= index)) as [Hi|]; [|by rewrite message_key_low in H by lia].
  destruct (rc_chain r) as [ch|] eqn:Hch.
  - pose proof (message_key_for_spec root r ch index I Hch Hi) as Hm. rewrite H in Hm.
    destruct Hm as (_ & _ & _ & Hm). split; [done|]. split; [eauto|].
    destruct (dget _ _); [naive_solver|]. repeat case_decide; naive_solver.
  - destruct (message_key_fresh r index Hch) as [_ Hm]. by rewrite H in Hm.
Qed.

(** ** Spent positions *)

Definition spent (index : Z) (r : ReceiverChain) : Prop :=
  is_Some (rc_chain r) ∧ index <= rc_last_seen r ∧ dget (rc_skipped r) index = None.

Lemma cache_skipped_other d k mk index :
  k ≠ index → dict_wf d → dget d index = None → dget (cache_skipped d k mk) index = None.
Proof.
  intros Hne Hwf Hd. rewrite dget_None in *. intros Hin. apply Hd.
  unfold cache_skipped in Hin. case_match.
  - unfold dmove_to_end in Hin. destruct (dget d k) eqn:E; [|done].
    unfold keys in *. rewrite fmap_app in Hin. apply elem_of_app in Hin as [Hin|Hin].
    + by apply (keys_dpop_subset d k).
    + set_solver.
  - unfold keys in Hin. apply list_elem_of_fmap in Hin as (x & -> & Hi%trim_elem).
    assert (Hk : x.1 ∈ keys (dset d k mk)) by (unfold keys; apply list_elem_of_fmap; eauto).
    rewrite keys_dset in Hk. case_decide; set_solver.
Qed.

Lemma install_loop_other c ks : ∀ chain d index,
  Forall (λ k, k ≠ index) ks → dict_wf d → dget d index = None →
  (∀ k mk d, dict_wf d → dict_wf (cache_skipped d k mk)) →
  dget (foldl (install_turn c) (chain, d) ks).2 index = None.
Proof.
  induction ks as [|k ks IH]; intros chain d index Hks Hwf Hd Hc; [done|].
  apply Forall_cons in Hks as [Hk Hks]. cbn [foldl install_turn]. apply IH; auto.
  by apply cache_skipped_other.
Qed.

Lemma cache_skipped_wf k mk d : dict_wf d → dict_wf (cache_skipped d k mk).
Proof.
  intros Hwf. unfold cache_skipped. case_match.
  - unfold dmove_to_end. destruct (dget d k) eqn:E; [|done].
    unfold dict_wf, keys. rewrite fmap_app. apply NoDup_app.
    split; [by apply dict_wf_dpop|]. split; [|apply NoDup_singleton]. simpl.
    intros k' Hin. rewrite list_elem_of_singleton. intros ->.
    by apply (keys_dpop d k k Hwf) in Hin as [_ ?].
  - unfold dict_wf, keys, trim_oldest. rewrite fmap_drop.
    eapply sublist_NoDup; [|apply sublist_drop]. by apply (dict_wf_dset d k mk).
Qed.

(** A spent position stays spent. *)
Lemma spent_step root index r r' :
  recv_inv root r → spent index r → recv_step (λ _, True) r r' → spent index r'.
Proof.
  intros I Hself Hstep. pose proof Hself as (Hs & Hle & Hd). destruct Hs as [ch Hch].
  destruct (ri_chain root r I ch Hch) as [Hl Hlive]. destruct Hstep as [root' k _|k].
  - unfold install. destruct (require_index k); [|exact Hself].
    rewrite Hch. destruct (Z.leb_spec k (rc_last_seen r)); [exact Hself|].
    pose proof (install_loop_other (rc_context r)
      (seqZ (rc_last_seen r + 1) (k - rc_last_seen r)) ch (rc_skipped r) index) as Ho.
    destruct (foldl _ _ _) as [chain d]. simpl in *. split; [simpl; eauto|]. split; [simpl; lia|].
    apply Ho; [|apply I|done|auto using cache_skipped_wf].
    apply Forall_forall. intros x Hx. apply elem_of_seqZ in Hx. lia.
  - destruct (decide (1 <= k)); [|rewrite message_key_low by lia; exact Hself].
    pose proof (message_key_for_spec root r ch k I Hch ltac:(done)) as Hm.
    destruct (message_key_for r k) as [res r1]. simpl.
    destruct Hm as (I1 & _ & Hs1 & Hm). destruct (dget (rc_skipped r) k) eqn:Hk.
    + destruct Hm as (_ & El & Es). split; [done|]. rewrite El, Es. split; [done|].
      rewrite dget_dpop by apply I. by case_decide.
    + destruct (decide (k <= rc_last_seen r)); [destruct Hm as [_ ->]; exact Hself|].
      destruct (decide (_ < _)); [destruct Hm as [_ ->]; exact Hself|].
      destruct Hm as (_ & El & Es). split; [done|]. rewrite El, Es. split; [lia|].
      apply dget_None. unfold keys. intros Hin.
      apply list_elem_of_fmap in Hin as (x & -> & Hi%trim_elem). apply elem_of_app in Hi.
      apply dget_None in Hd. destruct Hi as [Hi|Hi].
      * apply Hd. unfold keys. apply list_elem_of_fmap. eauto.
      * apply list_elem_of_fmap in Hi as (y & -> & Hy). apply elem_of_seqZ in Hy. simpl in *. lia.
Qed.

Lemma key_Ok_spent root r index k b r' :
  recv_inv root r → message_key_for r index = (Ok (k, b), r') → spent index r'.
Proof.
  intros I H. destruct (key_Ok root r index k b r' I H) as (Hi & (ch & Hch) & _).
  pose proof (message_key_for_spec root r ch index I Hch Hi) as Hm. rewrite H in Hm.
  destruct Hm as (I' & _ & Hs & Hm). split; [done|].
  destruct (dget (rc_skipped r) index) eqn:Hd.
  - destruct Hm as (_ & -> & ->). split; [|rewrite dget_dpop by apply I; by rewrite decide_True].
    apply dget_Some_elem in Hd. pose proof (ri_keys root r I) as Hk.
    rewrite Forall_forall in Hk. apply Hk in Hd. simpl in Hd. lia.
  - repeat case_decide; try naive_solver. destruct Hm as (_ & -> & Es). split; [lia|].
    destruct (dget (rc_skipped r') index) as [mk|] eqn:E; [|done]. exfalso.
    rewrite Es in E. apply dget_Some_elem, trim_elem, elem_of_app in E as [E|E].
    + apply dget_None in Hd. apply Hd. unfold keys. apply list_elem_of_fmap.
      by exists (index, mk).
    + apply list_elem_of_fmap in E as (y & [= -> _] & Hy). apply elem_of_seqZ in Hy. lia.
Qed.
End ratchet.

(** ** Theorems *)

Section theorems.
Context {P : Primitives} {L : PrimitiveLaws P}.

(** C21: What a member seals, every other member opens: take any state of
    a sender's chain minted from a 32-byte root, and any state of a
    receiver that installed distributions of that root and asked for
    keys in any order.  When the sender seals position [index] and the
    receiver is given a key for [index], opening the ciphertext with
    that key and the same associated data yields the plaintext. *)
Theorem sealed_message_opens c root start o o' r r' index plaintext aad nonce sealed key skipped :
  length root = 32%nat → length nonce = NONCE_BYTES →
  rtc (seal_step c) (OutgoingChain_init c root start) o →
  rtc (recv_step (eq root))
    (ReceiverChain_init (cx_group c) (cx_sender c) (cx_epoch c) (cx_gen c)) r →
  seal o (cx_group c) (cx_epoch c) (cx_sender c) index plaintext aad nonce = (Ok sealed, o') →
  message_key_for r index = (Ok (key, skipped), r') →
  open_message key sealed aad = Ok plaintext.
Proof.
  intros Hr Hn Ho Hrecv Hs Hm.
  destruct (OutgoingChain_init_inv c root start Hr) as (I0 & Er & _).
  destruct (seal_run_inv c _ o I0 Ho) as [Io Eo]. rewrite Er in Eo.
  rewrite (seal_spec c o index plaintext aad nonce Io) in Hs. case_decide; [|done].
  injection Hs as <- _.
  destruct (recv_run_inv root _ r (init_recv_inv root _ _ _ _) Hrecv) as [Ir Ec].
  destruct (key_Ok root r index key skipped r' Ir Hm) as (_ & _ & ->).
  replace (rc_context r) with c by (rewrite Ec; by destruct c). rewrite Eo.
  unfold open_message, seal_message. rewrite length_app.
  assert (0 < length (aead_encrypt (key_at c root index) nonce plaintext aad))%nat.
  { pose proof (aead_encrypt_nonempty (key_at c root index) nonce plaintext aad).
    destruct (aead_encrypt _ _ _ _); [done|simpl; lia]. }
  destruct (Nat.leb_spec (length nonce + length (aead_encrypt (key_at c root index) nonce
    plaintext aad)) NONCE_BYTES); [lia|].
  rewrite take_app_length', drop_app_length' by done. by rewrite aead_decrypt_encrypt.
Qed.

(** C22: No message key is handed out twice: once a receiver was given a
    key for a position, every later request for that position, after any
    mix of further requests and (re)installed distributions, whatever
    their roots, raises [ReplayError]. *)
Theorem message_key_once group sender epoch gen r r' r'' index key skipped :
  rtc (recv_step (λ _, True)) (ReceiverChain_init group sender epoch gen) r →
  message_key_for r index = (Ok (key, skipped), r') →
  rtc (recv_step (λ _, True)) r' r'' →
  message_key_for r'' index = (Err ReplayError, r'').
Proof.
  intros H0 Hm H1.
  destruct (recv_run_some_inv _ r (ex_intro _ [] (init_recv_inv [] _ _ _ _)) H0) as [root I].
  pose proof (key_Ok_spent root r index key skipped r' I Hm) as Hs.
  destruct (key_Ok root r index key skipped r' I Hm) as (Hi & _ & _).
  assert (I' : ∃ root, recv_inv root r').
  { apply (recv_run_some_inv r r'); [eauto|]. apply rtc_once.
    replace r' with (message_key_for r index).2 by (by rewrite Hm). constructor. }
  assert (H : spent index r'' ∧ ∃ root, recv_inv root r'').
  { clear Hm I H0. induction H1 as [|r1 r2 r3 Hstep _ IH]; [done|]. apply IH.
    - destruct I' as [root' I']. eapply spent_step; eauto.
    - apply (recv_run_some_inv r1 r2 I'). by apply rtc_once. }
  destruct H as [(Hc & Hle & Hd) _]. destruct Hc as [ch Hch].
  unfold message_key_for, require_index, guard_or. destruct (Z.ltb_spec index 1); [lia|]. simpl.
  rewrite Hch, Hd. by destruct (Z.leb_spec index (rc_last_seen r'')); [|lia].
Qed.

(** Delivery within the window: a live receiver resolves any position
    up to 65 past the last one it saw, and afterwards still resolves
    each position it jumped over; a larger jump is refused and changes
    nothing. The cache never holds more than 64 keys and the chain key
    is always 32 bytes. *)
Theorem window_delivery root group sender epoch gen r index :
  rtc (recv_step (eq root)) (ReceiverChain_init group sender epoch gen) r →
  is_Some (rc_chain r) → rc_last_seen r < index →
  (length (rc_skipped r) <= 64)%nat ∧ option_map length (rc_chain r) = Some 32%nat ∧
  (index <= rc_last_seen r + 65 →
     (message_key_for r index).1 = Ok (key_at (rc_context r) root index, false) ∧
     ∀ k, rc_last_seen r < k < index →
       (message_key_for (message_key_for r index).2 k).1 =
         Ok (key_at (rc_context r) root k, true)) ∧
  (rc_last_seen r + 65 < index → message_key_for r index = (Err ExcessiveGapError, r)).
Proof.
  intros Hrun [ch Hch] Hi.
  destruct (recv_run_inv root _ r (init_recv_inv root _ _ _ _) Hrun) as [I _].
  destruct (ri_chain root r I ch Hch) as [Hl Hlive].
  split; [apply I|]. split; [rewrite Hch, Hlive; simpl; by rewrite chain_at_length|].
  pose proof (message_key_for_spec root r ch index I Hch ltac:(lia)) as Hm.
  assert (Hd : dget (rc_skipped r) index = None).
  { apply dget_None. intros Hin. unfold keys in Hin. apply list_elem_of_fmap in Hin as (x & -> & Hx).
    pose proof (ri_keys root r I) as Hk. rewrite Forall_forall in Hk. apply Hk in Hx. lia. }
  rewrite Hd in Hm. destruct (message_key_for r index) as [res r1] eqn:E. simpl.
  destruct Hm as (I1 & Ec & [ch1 Hch1] & Hm).
  destruct (decide (index <= rc_last_seen r)); [lia|]. unfold GROUP_SK_SKIPPED_MAX in Hm at 1.
  destruct (decide (64 < _)); [split; [lia|]; intros _; destruct Hm; congruence|].
  split; [|lia]. intros _. destruct Hm as (-> & El & Es). split; [done|].
  intros k Hk. pose proof (message_key_for_spec root r1 ch1 k I1 Hch1 ltac:(lia)) as Hm.
  assert (is_Some (dget (rc_skipped r1) k)) as [mk Hmk].
  { apply dget_is_Some. unfold keys. rewrite Es. apply list_elem_of_fmap.
    exists (k, key_at (rc_context r) root k). split; [done|]. apply trim_keeps.
    - rewrite length_fmap, length_seqZ. unfold GROUP_SK_SKIPPED_MAX. lia.
    - apply list_elem_of_fmap. exists k. split; [done|]. apply elem_of_seqZ. lia. }
  rewrite Hmk, Ec in Hm. destruct (message_key_for r1 k). simpl. by destruct Hm as (_ & _ & _ & -> & _).
Qed.
End theorems.

(** ** The store *)

Inductive store_call :=
| SEnsure (group : string) (epoch : Z) (sender : string) (start : option Z) (root : bytes)
| SDistribute (group : string) (epoch : Z) (sender : string) (index : option Z) (root : bytes)
| SInstall (group sender : string) (epoch gen : Z) (root : bytes) (index : Z)
| SKey (group sender : string) (epoch gen index : Z)
| SPrune (group : string) (epoch : Z)
| SDrop (group sender : string)
| STeardown (group : string)
| STeardownAll.

Section store_theorems.
Context {P : Primitives} {L : PrimitiveLaws P}.

Definition run_store (s : SenderKeyStore) (c : store_call) : SenderKeyStore :=
  match c with
  | SEnsure g e sd st root => (ensure_outgoing s g e sd st root).2
  | SDistribute g e sd i root => (outgoing_distribution s g e sd i root).2
  | SInstall g sd e gen root i => (install_incoming s g sd e gen root i).2
  | SKey g sd e gen i => (store_message_key_for s g sd e gen i).2
  | SPrune g e => prune_epoch s g e
  | SDrop g sd => drop_sender s g sd
  | STeardown g => teardown_group s g
  | STeardownAll => teardown_all s
  end.

Record store_inv (s : SenderKeyStore) : Prop := {
  si_out : dict_wf (ks_outgoing s);
  si_gen : dict_wf (ks_generations s);
  si_in : dict_wf (ks_incoming s);
  si_bound : (length (ks_incoming s) <= GROUP_SK_MAX_RECEIVER_STATE)%nat;
  si_slot : ∀ g sd r, dget (ks_incoming s) (g, sd) = Some r →
    rc_group_id r = g ∧ rc_sender r = sd ∧ ∃ root, recv_inv root r;
}.

(** Writing a chain back to a slot that was there, or that fits. *)
Lemma set_slot_inv s g sd r :
  store_inv s →
  dmem (ks_incoming s) (g, sd) = true ∨
    (length (ks_incoming s) < GROUP_SK_MAX_RECEIVER_STATE)%nat →
  rc_group_id r = g → rc_sender r = sd → (∃ root, recv_inv root r) →
  store_inv (set_incoming s (dset (ks_incoming s) (g, sd) r)).
Proof.
  intros [] Hfit Hg Hsd Hr. split; simpl; try done.
  - by apply dict_wf_dset.
  - rewrite length_dset. destruct (decide _) as [|Hn]; [done|].
    destruct Hfit as [Hm|]; [|lia]. by apply dmem_spec in Hm.
  - intros g' sd' r'. rewrite dget_dset. destruct (decide _) as [[= <- <-]|]; [|by eauto].
    intros [= <-]. done.
Qed.

Lemma context_eq r r' :
  rc_context r' = rc_context r → rc_group_id r' = rc_group_id r ∧ rc_sender r' = rc_sender r.
Proof. unfold rc_context. by intros [= ]. Qed.

Lemma install_keeps r root index :
  (∃ root0, recv_inv root0 r) →
  (∃ root0, recv_inv root0 (install r root index).2) ∧
  rc_group_id (install r root index).2 = rc_group_id r ∧
  rc_sender (install r root index).2 = rc_sender r.
Proof.
  intros I. split.
  - apply (recv_run_some_inv r); [done|]. apply rtc_once. by constructor.
  - unfold install. destruct (require_index index); [|done].
    destruct (rc_chain r); [case_match; [done|]|]; by destruct (foldl _ _ _).
Qed.

Lemma message_key_keeps r index :
  (∃ root0, recv_inv root0 r) →
  (∃ root0, recv_inv root0 (message_key_for r index).2) ∧
  rc_group_id (message_key_for r index).2 = rc_group_id r ∧
  rc_sender (message_key_for r index).2 = rc_sender r.
Proof.
  intros I. split.
  - apply (recv_run_some_inv r); [done|]. apply rtc_once. by constructor.
  - destruct I as [root I]. apply context_eq.
    by apply (recv_step_inv root r _ I), recv_step_key.
Qed.

Lemma install_incoming_inv s g sd e gen root i :
  store_inv s → store_inv (install_incoming s g sd e gen root i).2.
Proof.
  intros S. unfold install_incoming. cbv zeta.
  destruct (_ && _) eqn:Hfull; [done|]. apply andb_false_iff in Hfull.
  destruct (install_keeps (ReceiverChain_init g sd e gen) root i) as (Hk & Hg & Hsd);
    [exists []; apply init_recv_inv|].
  destruct (dget (ks_incoming s) (g, sd)) as [r|] eqn:Hr.
  - destruct (si_slot s S g sd r Hr) as (Eg & Es & Ir).
    assert (Hm : dmem (ks_incoming s) (g, sd) = true) by (apply bool_decide_eq_true; eauto).
    clear Hfull. destruct (_ && _).
    + destruct (install_keeps r root i Ir) as (? & ? & ?).
      destruct (install r root i) as [res r']. simpl in *. apply set_slot_inv; auto; congruence.
    + assert (S1 : store_inv (set_incoming s (dset (ks_incoming s) (g, sd) (zeroize_recv r)))).
      { apply set_slot_inv; auto. exists []. split; simpl; try done; [apply dict_wf_nil|lia]. }
      destruct (install _ root i) as [[|] r']; simpl in *; [|done].
      apply (set_slot_inv _ g sd r' S1); auto. left. apply bool_decide_eq_true. simpl.
      rewrite dget_dset, decide_True by done. eauto.
  - destruct (install _ root i) as [[|] r']; simpl in Hk, Hg, Hsd; [|done].
    apply set_slot_inv; auto. destruct Hfull as [Hfull|Hfull]; breflect; [|by left].
    by right.
Qed.

Lemma store_key_inv s g sd e gen i :
  store_inv s → store_inv (store_message_key_for s g sd e gen i).2.
Proof.
  intros S. unfold store_message_key_for.
  destruct (dget (ks_incoming s) (g, sd)) as [r|] eqn:Hr; [|done].
  destruct (si_slot s S g sd r Hr) as (Eg & Es & Ir). destruct (_ && _); [|done].
  destruct (message_key_keeps r i Ir) as (? & ? & ?).
  destruct (message_key_for r i) as [res r']. simpl in *.
  apply set_slot_inv; auto; try congruence. left. apply bool_decide_eq_true. eauto.
Qed.

Lemma ensure_outgoing_inv s g e sd st root :
  store_inv s → store_inv (ensure_outgoing s g e sd st root).2.
Proof.
  intros []. unfold ensure_outgoing. case_match; [done|]. split; simpl; try done;
    by apply dict_wf_dset.
Qed.

(** Dropping some chains. *)
Lemma filter_store_inv s (Qo : _ → Prop) (Qi : _ → Prop) (Qg : _ → Prop) (Qs : _ → Prop)
    `{∀ x, Decision (Qo x), ∀ x, Decision (Qi x), ∀ x, Decision (Qg x), ∀ x, Decision (Qs x)} :
  store_inv s →
  store_inv (mkStore (filter Qo (ks_outgoing s)) (filter Qi (ks_incoming s))
               (filter Qg (ks_generations s)) (filter Qs (ks_start_index s))).
Proof.
  intros []. split; simpl; try by apply dict_wf_filter.
  - pose proof (length_filter Qi (ks_incoming s)). lia.
  - intros g sd r. rewrite dget_filter by done. intros [? _]. auto.
Qed.

Lemma run_store_inv s c : store_inv s → store_inv (run_store s c).
Proof.
  intros S. destruct c; cbn [run_store].
  - by apply ensure_outgoing_inv.
  - unfold outgoing_distribution.
    pose proof (ensure_outgoing_inv s group epoch sender None root S).
    by destruct (ensure_outgoing _ _ _ _ _ _).
  - by apply install_incoming_inv.
  - by apply store_key_inv.
  - destruct S. split; simpl; try done; try by apply dict_wf_filter.
    + pose proof (length_filter (λ x : (string * string) * ReceiverChain,
        ¬ (x.1.1 = group ∧ rc_epoch x.2 ≠ epoch)) (ks_incoming s)). lia.
    + intros g sd r. rewrite dget_filter by done. intros [? _]. auto.
  - destruct S. split; simpl; try done; [by apply dict_wf_dpop| |].
    + pose proof (length_dpop (ks_incoming s) (group, sender)). lia.
    + intros g sd r. rewrite dget_dpop by done. case_decide; [done|]. auto.
  - by apply filter_store_inv.
  - split; simpl; try apply dict_wf_nil; [lia|done].
Qed.

Lemma run_stores_inv cs : store_inv (foldl run_store empty_store cs).
Proof.
  assert (S : store_inv empty_store) by (split; simpl; try apply dict_wf_nil; [lia|done]).
  revert S. generalize empty_store. induction cs; simpl; auto using run_store_inv.
Qed.

(** The store is bounded and its slots are honest: after any sequence
    of calls it holds at most 64 incoming chains, each with at most 64
    cached keys; the chain found under (group, sender) is a chain of that
    group and sender; and after [prune_epoch] every chain left for the
    group, incoming or outgoing, is of the given epoch, while the chains
    of other groups are untouched. *)
Theorem store_bounded cs group epoch :
  let s := foldl run_store empty_store cs in
  let s' := prune_epoch s group epoch in
  (length (ks_incoming s) <= 64)%nat ∧
  (∀ g sd r, dget (ks_incoming s) (g, sd) = Some r →
     rc_group_id r = g ∧ rc_sender r = sd ∧ (length (rc_skipped r) <= 64)%nat) ∧
  (∀ sd r, dget (ks_incoming s') (group, sd) = Some r → rc_epoch r = epoch) ∧
  (∀ e o, dget (ks_outgoing s') (group, e) = Some o → e = epoch) ∧
  (∀ g sd r, g ≠ group →
     dget (ks_incoming s') (g, sd) = Some r ↔ dget (ks_incoming s) (g, sd) = Some r).
Proof.
  intros s s'. assert (S : store_inv s) by apply run_stores_inv. subst s'.
  split; [apply S|]. split; [|split; [|split]].
  - intros g sd r Hr. destruct (si_slot s S g sd r Hr) as (? & ? & root & I).
    do 2 (split; [done|]). apply I.
  - intros sd r. simpl. rewrite dget_filter by apply S. simpl. intros [_ H].
    destruct (decide (rc_epoch r = epoch)); naive_solver.
  - intros e o. simpl. rewrite dget_filter by apply S. simpl. intros [_ H].
    destruct (decide (e = epoch)); naive_solver.
  - intros g sd r Hne. simpl. rewrite dget_filter by apply S. simpl. naive_solver.
Qed.
End store_theorems.

(** ** Concrete chains *)

Definition demo_ctx : Context := mkCtx "g" 3 "AAAA" 1.
Definition demo_root (n : Z) : bytes := replicate 32 n.
Definition demo_nonce : bytes := replicate 12 5.
Definition demo_out : OutgoingChain := OutgoingChain_init demo_ctx (demo_root 9) 1.
Definition demo_recv0 : ReceiverChain := ReceiverChain_init "g" "AAAA" 3 1.
(** The receiver after the distribution of index 1 and the third message. *)
Definition demo_recv1 : ReceiverChain := (install demo_recv0 (demo_root 9) 1).2.
Definition demo_recv : ReceiverChain := (message_key_for demo_recv1 3).2.

Lemma demo_run1 : rtc (recv_step (eq (demo_root 9))) demo_recv0 demo_recv1.
Proof. apply rtc_once. by constructor. Qed.

Lemma demo_run : rtc (recv_step (eq (demo_root 9))) demo_recv0 demo_recv.
Proof. eapply rtc_r; [apply demo_run1|]. constructor. Qed.

Lemma demo_run1_any : rtc (recv_step (λ _, True)) demo_recv0 demo_recv1.
Proof. apply rtc_once. by constructor. Qed.

(** The second message of the sender, opened out of order. *)
Definition demo_out1 : OutgoingChain := (seal demo_out "g" 3 "AAAA" 1 [1] [] demo_nonce).2.

Lemma demo_seals : rtc (seal_step demo_ctx) demo_out demo_out1.
Proof. apply rtc_once. apply (seal_step_call demo_ctx demo_out 1 [1] [] demo_nonce). Qed.

Definition ok_or {E A} (r : result E A) (d : A) : A := match r with Ok a => a | Err _ => d end.

Definition demo_sealed : bytes := ok_or (seal demo_out1 "g" 3 "AAAA" 2 [7; 8] [4] demo_nonce).1 [].
Definition demo_key : bytes := (ok_or (message_key_for demo_recv 2).1 ([], false)).1.

Lemma sealed_message_opens_witness : open_message demo_key demo_sealed [4] = Ok [7; 8].
Proof.
  apply (sealed_message_opens demo_ctx (demo_root 9) 1 demo_out1
    (seal demo_out1 "g" 3 "AAAA" 2 [7; 8] [4] demo_nonce).2 demo_recv
    (message_key_for demo_recv 2).2 2 [7; 8] [4] demo_nonce demo_sealed demo_key true
    eq_refl eq_refl demo_seals demo_run); vm_compute; reflexivity.
Defined.

Lemma message_key_once_witness :
  (message_key_for (message_key_for demo_recv1 3).2 3).1 = Err ReplayError.
Proof.
  assert (Hm : message_key_for demo_recv1 3 =
    (Ok (ok_or (message_key_for demo_recv1 3).1 ([], true)), demo_recv))
    by (vm_compute; reflexivity).
  destruct (ok_or (message_key_for demo_recv1 3).1 ([], true)) as [k b].
  pose proof (message_key_once "g" "AAAA" 3 1 demo_recv1 demo_recv demo_recv 3 k b demo_run1_any Hm
    (rtc_refl _ _)) as H.
  exact (f_equal fst H).
Defined.

Lemma window_delivery_witness :
  (message_key_for demo_recv1 66).1 = Ok (key_at demo_ctx (demo_root 9) 66, false) ∧
  message_key_for demo_recv1 67 = (Err ExcessiveGapError, demo_recv1).
Proof.
  assert (Hs : is_Some (rc_chain demo_recv1)) by (vm_compute; eauto).
  assert (Hl : rc_last_seen demo_recv1 = 1) by (vm_compute; reflexivity).
  destruct (window_delivery (demo_root 9) "g" "AAAA" 3 1 demo_recv1 66 demo_run1 Hs
    ltac:(rewrite Hl; lia)) as (_ & _ & H1 & _).
  destruct (window_delivery (demo_root 9) "g" "AAAA" 3 1 demo_recv1 67 demo_run1 Hs
    ltac:(rewrite Hl; lia)) as (_ & _ & _ & H2).
  split; [|apply H2; rewrite Hl; lia]. destruct H1 as [H1 _]; [rewrite Hl; lia|]. exact H1.
Defined.

(** ** A sender that restarts inside an epoch

    [first] and [second] are the distributions of two fresh stores (the
    process was restarted in between) for the same group and epoch. *)

Definition first : Distribution :=
  (outgoing_distribution empty_store "g" 3 "AAAA" (Some 3) (demo_root 9)).1.
Definition second : Distribution :=
  (outgoing_distribution empty_store "g" 3 "AAAA" None (demo_root 10)).1.

Definition install_dist (s : SenderKeyStore) (d : Distribution) : SenderKeyStore :=
  (install_incoming s "g" "AAAA" 3 (d_gen d) (d_root d) (d_index d)).2.

(** A peer that got three messages, then the distribution of the restarted
    sender. *)
Definition peer : SenderKeyStore :=
  run_store (run_store (run_store (install_dist empty_store first) (SKey "g" "AAAA" 3 1 1))
    (SKey "g" "AAAA" 3 1 2)) (SKey "g" "AAAA" 3 1 3).
Definition peer' : SenderKeyStore := install_dist peer second.

(** A generation number does not identify a chain: a store that starts
    empty mints generation 1, so after a sender restarts within an epoch
    its new distribution carries the old generation and a new root; a
    peer that holds the old chain installs it without an error and
    without an effect, and then refuses the sender's first message as a
    replay. *)
Theorem restart_reuses_generation :
  d_gen first = d_gen second ∧ d_root first ≠ d_root second ∧
  (install_incoming peer "g" "AAAA" 3 (d_gen second) (d_root second) (d_index second)).1 = Ok tt ∧
  peer' = peer ∧
  (store_message_key_for peer' "g" "AAAA" 3 (d_gen second) (d_index second)).1 = Err ReplayError.
Proof.
  split; [vm_compute; reflexivity|]. split; [by vm_compute|].
  split; [vm_compute; reflexivity|]. split; vm_compute; reflexivity.
Qed.

Definition demo_store_calls : list store_call :=
  [SInstall "g" "AAAA" 3 1 (demo_root 9) 1; SKey "g" "AAAA" 3 1 4; SInstall "h" "AAAA" 7 1 (demo_root 8) 1].

Lemma store_bounded_witness :
  let s := foldl run_store empty_store demo_store_calls in
  length (ks_incoming s) = 2%nat ∧
  option_map (λ r, length (rc_skipped r)) (dget (ks_incoming s) ("g", "AAAA")) = Some 3%nat ∧
  (∀ sd r, dget (ks_incoming (prune_epoch s "g" 4)) ("g", sd) = Some r → rc_epoch r = 4).
Proof.
  split; [vm_compute; reflexivity|]. split; [vm_compute; reflexivity|].
  destruct (@store_bounded toy_primitives toy_laws demo_store_calls "g" 4) as (_ & _ & H & _).
  exact H.
Defined.
