(* ===== verification/GroupFrames.v ===== *)
(** * Receive-side gates and delivery state of group messages

    [groups/frames.py]: message ids, the bounded duplicate filter
    ([SeenMessageIds]), the per-sender sequence gate ([GseqTracker]), and
    the delivery ledger with the two handlers of [groups/service.py] that
    feed it. *)

From S2P Require Import Prelude Text Ids.

Open Scope Z_scope.

Definition MAX_GROUP_MEMBERS : nat := 8.
Definition GROUP_SEQ_STATE_MAX : nat := 8 * 4.
Definition GROUP_MESSAGE_ID_PREFIX : string := "gmsg_".
Definition GROUP_MESSAGE_ID_HEX : nat := 16.

(** ** Message ids *)

(** [generate_message_id]: the prefix and the hex of 8 random bytes. *)
Definition generate_message_id (random : bytes) : string :=
  GROUP_MESSAGE_ID_PREFIX +:+ hexdigest random.

Definition is_valid_message_id (candidate : string) : bool :=
  if negb (startswith candidate GROUP_MESSAGE_ID_PREFIX) then false
  else
    let body := drop (str_len GROUP_MESSAGE_ID_PREFIX) (chars candidate) in
    (length body =? GROUP_MESSAGE_ID_HEX)%nat && forallb is_hex_lower body.

(** ** Duplicate filter *)

Module Seen.

Abbreviation key := (string * string)%type.

Record SeenMessageIds := mkSeen {
  si_capacity : nat; si_seen : list key; si_senders : list (string * Z);
}.

Definition init (capacity : Z) : SeenMessageIds := mkSeen (Z.to_nat (Z.max 1 capacity)) [] [].

(** [for key in self._seen: if key[0] == sender: del self._seen[key]; break] *)
Fixpoint del_first (sender : string) (l : list key) : option (list key) :=
  match l with
  | [] => None
  | k :: l' => if decide (k.1 = sender) then Some l' else cons k <$> del_first sender l'
  end.

Definition sender_count (s : SeenMessageIds) (sender : string) : Z :=
  default 0 (dget (si_senders s) sender).

(** [_evict_if_needed]; [None] when the loop has not ended within the fuel.
    A turn that finds no key of the sender changes nothing. *)
Fixpoint evict_if_needed (fuel : nat) (sender : string) (s : SeenMessageIds)
    : option SeenMessageIds :=
  if Z.of_nat (si_capacity s) <? sender_count s sender then
    match fuel with
    | O => None
    | S fuel' =>
        match del_first sender (si_seen s) with
        | Some l => evict_if_needed fuel' sender
            (mkSeen (si_capacity s) l
               (dset (si_senders s) sender (sender_count s sender - 1)))
        | None => evict_if_needed fuel' sender s
        end
    end
  else Some s.

(** [while len(self._seen) > capacity * MAX_GROUP_MEMBERS: ...] *)
Fixpoint trim_all (fuel : nat) (s : SeenMessageIds) : option SeenMessageIds :=
  if (si_capacity s * MAX_GROUP_MEMBERS <? length (si_seen s))%nat then
    match fuel, si_seen s with
    | S fuel', k :: l => trim_all fuel'
        (mkSeen (si_capacity s) l
           (dset (si_senders s) k.1 (default 1 (dget (si_senders s) k.1) - 1)))
    | _, _ => None
    end
  else Some s.

(** [seen]; the fuel is the number of cached keys, enough for both loops
    ([seen_closed_form]). *)
Definition seen (s : SeenMessageIds) (sender message_id : string)
    : option (bool * SeenMessageIds) :=
  let k := (sender, message_id) in
  if decide (k ∈ si_seen s) then
    Some (true, mkSeen (si_capacity s) (filter (λ k', k' ≠ k) (si_seen s) ++ [k]) (si_senders s))
  else
    let s1 := mkSeen (si_capacity s) (si_seen s ++ [k])
                (dset (si_senders s) sender (sender_count s sender + 1)) in
    s2 ← evict_if_needed (length (si_seen s1)) sender s1;
    s3 ← trim_all (length (si_seen s1)) s2;
    Some (false, s3).

(** *** Invariant *)

Definition count (sender : string) (l : list key) : nat :=
  length (filter (λ k, k.1 = sender) l).

Record seen_inv (s : SeenMessageIds) : Prop := {
  sn_cap : (1 <= si_capacity s)%nat;
  sn_nodup : NoDup (si_seen s);
  sn_counts : ∀ x, sender_count s x = Z.of_nat (count x (si_seen s));
  sn_sender : ∀ x, (count x (si_seen s) <= si_capacity s)%nat;
  sn_total : (length (si_seen s) <= si_capacity s * MAX_GROUP_MEMBERS)%nat;
}.

Lemma count_app x l1 l2 : count x (l1 ++ l2) = (count x l1 + count x l2)%nat.
Proof. unfold count. by rewrite filter_app, length_app. Qed.

Lemma count_cons x k l : count x (k :: l) = ((if decide (k.1 = x) then 1 else 0) + count x l)%nat.
Proof. unfold count. rewrite filter_cons. by case_decide. Qed.

(** Deleting the oldest key of a sender. *)
Lemma del_first_Some x l :
  (0 < count x l)%nat →
  ∃ l1 k l2, l = l1 ++ k :: l2 ∧ k.1 = x ∧ count x l1 = 0%nat ∧ del_first x l = Some (l1 ++ l2).
Proof.
  induction l as [|k l IH]; [unfold count; simpl; lia|]. rewrite count_cons. simpl.
  case_decide as Hd; intros H.
  - by exists [], k, l.
  - destruct IH as (l1 & k' & l2 & -> & ? & ? & ->); [lia|]. exists (k :: l1), k', l2.
    rewrite count_cons, decide_False by done. done.
Qed.

Lemma sender_count_dset cap l d x v y :
  sender_count (mkSeen cap l (dset d x v)) y =
    if decide (x = y) then v else default 0 (dget d y).
Proof. unfold sender_count. simpl. rewrite dget_dset. by case_decide. Qed.

(** The state after a new key: append, drop the sender's oldest key when it
    has too many, then the oldest key of all when there are too many. *)
Definition after_evict (cap : nat) (x : string) (l : list key) : list key :=
  if (cap <? count x l)%nat then default l (del_first x l) else l.
Definition after_trim (cap : nat) (l : list key) : list key :=
  if (cap * MAX_GROUP_MEMBERS <? length l)%nat then tail l else l.

Lemma evict_once s x fuel :
  (∀ y, sender_count s y = Z.of_nat (count y (si_seen s))) →
  (count x (si_seen s) <= S (si_capacity s))%nat → (0 < fuel)%nat →
  ∃ d, evict_if_needed fuel x s =
         Some (mkSeen (si_capacity s) (after_evict (si_capacity s) x (si_seen s)) d) ∧
    ∀ y, sender_count (mkSeen (si_capacity s) (after_evict (si_capacity s) x (si_seen s)) d) y =
         Z.of_nat (count y (after_evict (si_capacity s) x (si_seen s))).
Proof.
  intros Hc Hx Hf. unfold after_evict. destruct fuel as [|fuel]; [lia|]. cbn [evict_if_needed].
  rewrite Hc. destruct (Z.ltb_spec (Z.of_nat (si_capacity s)) (Z.of_nat (count x (si_seen s))))
    as [Hlt|Hge].
  - destruct (Nat.ltb_spec (si_capacity s) (count x (si_seen s))) as [|]; [|lia].
    destruct (del_first_Some x (si_seen s)) as (l1 & k & l2 & El & Ek & E1 & Ed); [lia|].
    assert (Ec : ∀ y, count y (si_seen s) =
      (count y (l1 ++ l2) + if decide (x = y) then 1 else 0)%nat).
    { intros y. rewrite El, !count_app, count_cons, Ek. lia. }
    rewrite Ed. simpl. set (d := dset _ _ _).
    assert (Hd : ∀ y, sender_count (mkSeen (si_capacity s) (l1 ++ l2) d) y =
                      Z.of_nat (count y (l1 ++ l2))).
    { intros y. subst d. rewrite sender_count_dset. specialize (Hc y). unfold sender_count in Hc.
      pose proof (Ec x) as Ex. rewrite decide_True in Ex by done. rewrite Ec in Hc.
      destruct (decide (x = y)) as [<-|Hne]; lia. }
    exists d. split; [|done]. specialize (Ec x). rewrite decide_True in Ec by done.
    destruct fuel; cbn [evict_if_needed]; rewrite Hd; cbn [si_capacity];
      (destruct (Z.ltb_spec (Z.of_nat (si_capacity s)) (Z.of_nat (count x (l1 ++ l2)))); [lia|done]).
  - destruct (Nat.ltb_spec (si_capacity s) (count x (si_seen s))) as [|]; [lia|].
    exists (si_senders s). destruct s. done.
Qed.
Lemma trim_once s fuel :
  (∀ y, sender_count s y = Z.of_nat (count y (si_seen s))) →
  (length (si_seen s) <= S (si_capacity s * MAX_GROUP_MEMBERS))%nat → (0 < fuel)%nat →
  ∃ d, trim_all fuel s = Some (mkSeen (si_capacity s) (after_trim (si_capacity s) (si_seen s)) d) ∧
    ∀ y, sender_count (mkSeen (si_capacity s) (after_trim (si_capacity s) (si_seen s)) d) y =
         Z.of_nat (count y (after_trim (si_capacity s) (si_seen s))).
Proof.
  intros Hc Hl Hf. unfold after_trim. destruct fuel as [|fuel]; [lia|]. cbn [trim_all].
  destruct (Nat.ltb_spec (si_capacity s * MAX_GROUP_MEMBERS) (length (si_seen s))) as [Hlt|Hge].
  - destruct (si_seen s) as [|k l] eqn:El; [simpl in Hlt; lia|]. simpl in Hl.
    cbn [tail]. set (d := dset _ _ _).
    assert (Hd : ∀ y, sender_count (mkSeen (si_capacity s) l d) y = Z.of_nat (count y l)).
    { intros y. subst d. rewrite sender_count_dset. pose proof (Hc k.1) as Hk. specialize (Hc y).
      rewrite count_cons in Hc, Hk. rewrite decide_True in Hk by done. unfold sender_count in *.
      destruct (decide (k.1 = y)) as [<-|Hne]; [|simpl in Hc; lia].
      destruct (dget (si_senders s) k.1); simpl in *; lia. }
    exists d. split; [|done].
    destruct fuel; cbn [trim_all si_capacity si_seen];
      (destruct (Nat.ltb_spec (si_capacity s * MAX_GROUP_MEMBERS) (length l)); [lia|done]).
  - exists (si_senders s). destruct s. done.
Qed.

Lemma after_evict_facts cap x l :
  sublist (after_evict cap x l) l ∧ (length (after_evict cap x l) <= length l)%nat.
Proof.
  unfold after_evict. case_match eqn:E; [|done]. breflect.
  destruct (del_first_Some x l) as (l1 & k & l2 & -> & _ & _ & ->); [lia|]. simpl.
  split; [by apply sublist_app, sublist_cons|]. rewrite !length_app. simpl. lia.
Qed.

Lemma after_trim_facts cap l : sublist (after_trim cap l) l.
Proof. unfold after_trim. case_match; [|done]. destruct l; [done|]. by apply sublist_cons. Qed.

Lemma count_sublist x l1 l2 : sublist l1 l2 → (count x l1 <= count x l2)%nat.
Proof. induction 1; rewrite ?count_cons; lia. Qed.

Lemma evict_bound cap x l y :
  (count x l <= S cap)%nat → (x ≠ y → count y l <= cap)%nat →
  (count y (after_evict cap x l) <= cap)%nat.
Proof.
  intros Hx Hy. destruct (decide (x = y)) as [<-|Hne].
  - unfold after_evict. case_match eqn:E; breflect; [|lia].
    destruct (del_first_Some x l) as (l1 & k & l2 & -> & Ek & _ & ->); [lia|]. simpl.
    rewrite !count_app, count_cons, decide_True in Hx by done. rewrite count_app. lia.
  - etrans; [apply count_sublist, after_evict_facts|auto].
Qed.

Lemma trim_bound cap l :
  (length l <= S (cap * MAX_GROUP_MEMBERS))%nat →
  (length (after_trim cap l) <= cap * MAX_GROUP_MEMBERS)%nat.
Proof. intros H. unfold after_trim. case_match eqn:E; breflect; [|lia]. destruct l; simpl in *; lia. Qed.

Lemma move_to_end_perm (k : key) l :
  NoDup l → k ∈ l → filter (λ k', k' ≠ k) l ++ [k] ≡ₚ l.
Proof.
  induction l as [|a l IH]; [set_solver|]. rewrite NoDup_cons, elem_of_cons. intros [Ha Hl] Hk.
  rewrite filter_cons. destruct (decide (a ≠ k)) as [Hne|Heq].
  - simpl. f_equiv. apply IH; [done|]. destruct Hk; [congruence|done].
  - apply dec_stable in Heq. subst a. rewrite filter_keep; [by rewrite Permutation_app_comm|].
    apply Forall_forall. intros y Hy ->. done.
Qed.

(** [seen] in closed form: both loops end. *)
Lemma seen_closed_form s x m :
  seen_inv s →
  ∃ b s', seen s x m = Some (b, s') ∧ seen_inv s' ∧ si_capacity s' = si_capacity s ∧
    b = bool_decide ((x, m) ∈ si_seen s) ∧
    si_seen s' = if decide ((x, m) ∈ si_seen s)
                 then filter (λ k, k ≠ (x, m)) (si_seen s) ++ [(x, m)]
                 else after_trim (si_capacity s)
                        (after_evict (si_capacity s) x (si_seen s ++ [(x, m)])).
Proof.
  intros [Hcap Hnd Hc Hs Ht]. unfold seen. destruct (decide ((x, m) ∈ si_seen s)) as [Hin|Hin].
  - eexists _, _. split; [done|]. split; [|by rewrite bool_decide_true by done].
    assert (Hp : filter (λ k, k ≠ (x, m)) (si_seen s) ++ [(x, m)] ≡ₚ si_seen s)
      by by apply move_to_end_perm.
    split; simpl; try done.
    + by rewrite Hp.
    + intros y. etrans; [apply Hc|]. unfold count. by rewrite Hp.
    + intros y. unfold count. rewrite Hp. apply Hs.
    + by rewrite Hp.
  - set (s1 := mkSeen _ _ _).
    assert (Hc1 : ∀ y, sender_count s1 y = Z.of_nat (count y (si_seen s1))).
    { intros y. subst s1. rewrite sender_count_dset. simpl. rewrite count_app, count_cons. simpl.
      specialize (Hc y) as Hy. specialize (Hc x). unfold sender_count in *.
      change (count y []) with 0%nat. destruct (decide (x = y)) as [<-|]; lia. }
    assert (Hcx : (count x (si_seen s1) <= S (si_capacity s1))%nat).
    { simpl. rewrite count_app, count_cons. simpl. rewrite decide_True by done.
      specialize (Hs x). change (count x []) with 0%nat. lia. }
    assert (Hl1 : (0 < length (si_seen s1))%nat) by (simpl; rewrite length_app; simpl; lia).
    destruct (evict_once s1 x (length (si_seen s1)) Hc1 Hcx Hl1) as (d2 & E2 & Hc2).
    cbn [mbind option_bind]. rewrite E2. cbn [mbind option_bind].
    destruct (after_evict_facts (si_capacity s1) x (si_seen s1)) as [Hsub2 Hlen2].
    destruct (trim_once (mkSeen (si_capacity s1) (after_evict (si_capacity s1) x (si_seen s1)) d2)
      (length (si_seen s1)) Hc2) as (d3 & E3 & Hc3); [|done|].
    { simpl in *. etrans; [exact Hlen2|]. rewrite length_app. simpl. lia. }
    cbn [mbind option_bind]. rewrite E3. cbn [si_capacity si_seen] in *.
    pose proof (after_trim_facts (si_capacity s) (after_evict (si_capacity s) x (si_seen s1))) as Hsub3.
    assert (Hnd1 : NoDup (si_seen s1)).
    { simpl. apply NoDup_app. split; [done|]. split; [set_solver|apply NoDup_singleton]. }
    eexists false, _. split; [done|]. split; [|by rewrite bool_decide_false by done].
    split; simpl; try done.
    + eapply sublist_NoDup; [exact Hnd1|]. by etrans.
    + intros y. etrans; [by apply count_sublist|]. apply evict_bound; [done|]. intros Hne.
      simpl. rewrite count_app, count_cons, decide_False by done.
      specialize (Hs y). change (count y []) with 0%nat. lia.
    + apply trim_bound. etrans; [exact Hlen2|]. simpl. rewrite length_app. simpl. lia.
Qed.
(** *** The window *)

(** [k] is cached with at most [a] newer keys of its sender and at most [b]
    newer keys in all. *)
Definition recent (k : key) (a b : nat) (l : list key) : Prop :=
  ∃ l1 l2, l = l1 ++ k :: l2 ∧ (count k.1 l2 <= a)%nat ∧ (length l2 <= b)%nat.

Lemma recent_elem k a b l : recent k a b l → k ∈ l.
Proof. intros (l1 & l2 & -> & _). set_solver. Qed.

Lemma recent_app k a b l k' :
  recent k a b l → recent k ((if decide (k'.1 = k.1) then 1 else 0) + a) (S b) (l ++ [k']).
Proof.
  intros (l1 & l2 & -> & Ha & Hb). exists l1, (l2 ++ [k']).
  rewrite <- app_assoc. split; [done|]. rewrite count_app, count_cons, length_app. simpl.
  change (count k.1 []) with 0%nat. split; lia.
Qed.

Lemma del_first_app x l1 l2 :
  del_first x (l1 ++ l2) =
    match del_first x l1 with
    | Some l1' => Some (l1' ++ l2)
    | None => app l1 <$> del_first x l2
    end.
Proof.
  induction l1 as [|k l1 IH]; simpl; [by destruct (del_first x l2)|].
  case_decide; [done|]. rewrite IH. destruct (del_first x l1); [done|]. by destruct (del_first x l2).
Qed.

Lemma del_first_None x l : del_first x l = None ↔ count x l = 0%nat.
Proof.
  induction l as [|k l IH]; [done|]. rewrite count_cons. simpl. case_decide; [split; [done|lia]|].
  rewrite fmap_None, IH. lia.
Qed.

Lemma del_first_sublist x l l' : del_first x l = Some l' → sublist l' l.
Proof.
  revert l'. induction l as [|k l IH]; intros l' H; simpl in H; [done|].
  case_decide; simplify_eq/=; [by apply sublist_cons|].
  apply fmap_Some in H as (l0 & H & ->). by apply sublist_skip, IH.
Qed.

(** The oldest key of the sender is only dropped when it has too many. *)
Lemma recent_evict k a b cap x l :
  recent k a b l → (a < cap)%nat → recent k a b (after_evict cap x l).
Proof.
  intros (l1 & l2 & -> & Ha & Hb) Hcap. unfold after_evict. case_match eqn:E; [|by exists l1, l2].
  breflect. rewrite del_first_app. destruct (del_first x l1) as [l1'|] eqn:E1; [by exists l1', l2|].
  apply del_first_None in E1. rewrite count_app, count_cons, E1 in E. simpl.
  destruct (decide (k.1 = x)) as [<-|Hne]; [lia|].
  destruct (del_first x l2) as [l2'|] eqn:E2; [|by exists l1, l2].
  apply del_first_sublist in E2. exists l1, l2'. split; [done|].
  apply (count_sublist k.1) in E2 as ?. apply sublist_length in E2. lia.
Qed.

Lemma recent_trim k a b cap l :
  recent k a b l → (b < cap * MAX_GROUP_MEMBERS)%nat → recent k a b (after_trim cap l).
Proof.
  intros (l1 & l2 & -> & Ha & Hb) Hcap. unfold after_trim. case_match eqn:E; [|by exists l1, l2].
  breflect. rewrite length_app in E. simpl in E. destruct l1 as [|k1 l1]; [simpl in E; lia|].
  by exists l1, l2.
Qed.

(** A duplicate moves its key to the end, past [k]. *)
Lemma recent_move k a b l k' :
  recent k a b l → k' ≠ k →
  recent k ((if decide (k'.1 = k.1) then 1 else 0) + a) (S b) (filter (λ k0, k0 ≠ k') l ++ [k']).
Proof.
  intros (l1 & l2 & -> & Ha & Hb) Hne. apply recent_app. rewrite filter_app.
  rewrite filter_cons_True by done. eexists _, _. split; [done|].
  pose proof (sublist_filter (λ k0, k0 ≠ k') l2) as Hs.
  apply (count_sublist k.1) in Hs as ?. apply sublist_length in Hs. lia.
Qed.

Lemma recent_self k a b l : NoDup l → k ∈ l → recent k a b (filter (λ k0, k0 ≠ k) l ++ [k]).
Proof. intros. exists (filter (λ k0, k0 ≠ k) l), []. split; [done|]. unfold count. simpl. lia. Qed.

(** Feeding frames to the filter; the verdicts are not needed. *)
Fixpoint feed (s : SeenMessageIds) (ks : list key) : option SeenMessageIds :=
  match ks with
  | [] => Some s
  | k :: ks' => x ← seen s k.1 k.2; feed x.2 ks'
  end.

Lemma feed_recent ks : ∀ s k a b,
  seen_inv s → recent k a b (si_seen s) →
  (a + count k.1 ks < si_capacity s)%nat →
  (b + length ks < si_capacity s * MAX_GROUP_MEMBERS)%nat →
  ∃ s', feed s ks = Some s' ∧ seen_inv s' ∧ k ∈ si_seen s'.
Proof.
  induction ks as [|k' ks IH]; intros s k a b I Hr Ha Hb; [eauto using recent_elem|].
  rewrite count_cons in Ha. simpl in Hb. simpl.
  destruct (seen_closed_form s k'.1 k'.2 I) as (v & s1 & Es & I1 & Ec & _ & El). rewrite Es. simpl.
  rewrite <- surjective_pairing in El.
  destruct (decide (k' = k)) as [->|Hne].
  { rewrite decide_True in El by eauto using recent_elem.
    apply (IH s1 k 0%nat 0%nat I1); rewrite ?Ec; [|lia|lia].
    rewrite El. apply recent_self; [apply I|eauto using recent_elem]. }
  apply (IH s1 k ((if decide (k'.1 = k.1) then 1 else 0) + a)%nat (S b) I1); rewrite ?Ec; try lia.
  rewrite El. case_decide; [by apply recent_move|].
  apply recent_trim; [apply recent_evict|]; [by apply recent_app|lia|lia].
Qed.

Lemma seen_init_inv capacity : seen_inv (init capacity).
Proof.
  split; simpl; try lia; [constructor|..]; intros; unfold sender_count, count; simpl; lia.
Qed.

Lemma feed_total ks : ∀ s, seen_inv s → ∃ s', feed s ks = Some s' ∧ seen_inv s' ∧
  si_capacity s' = si_capacity s.
Proof.
  induction ks as [|k ks IH]; intros s I; [eauto|]. simpl.
  destruct (seen_closed_form s k.1 k.2 I) as (v & s1 & -> & I1 & Ec & _). simpl.
  destruct (IH s1 I1) as (s' & ? & ? & ?). exists s'. split; [done|]. split; [done|]. congruence.
Qed.

(** The duplicate filter always answers, stays bounded, and remembers:
    both eviction loops end on every input; the cache holds at most
    [capacity] ids per sender and [8 * capacity] in all; and after an id of
    a sender was checked, it is recognised as a duplicate as long as fewer
    than [capacity] later frames came from that sender and fewer than
    [8 * capacity] in all. *)
Theorem seen_filter_window capacity history sender id later :
  1 <= capacity →
  Z.of_nat (count sender later) < capacity → Z.of_nat (length later) < 8 * capacity →
  ∃ s s1 s2, feed (init capacity) history = Some s ∧
    (∀ x, Z.of_nat (count x (si_seen s)) <= capacity) ∧
    Z.of_nat (length (si_seen s)) <= 8 * capacity ∧
    seen s sender id = Some (bool_decide ((sender, id) ∈ si_seen s), s1) ∧
    feed s1 later = Some s2 ∧
    (λ x, x.1) <$> seen s2 sender id = Some true.
Proof.
  intros Hcap Hc Hl. destruct (feed_total history _ (seen_init_inv capacity)) as (s & Hs & I & Ec).
  simpl in Ec. destruct (seen_closed_form s sender id I) as (b & s1 & E1 & I1 & Ec1 & -> & El).
  destruct (feed_recent later s1 (sender, id) 0 0 I1) as (s2 & E2 & I2 & Hin).
  - rewrite El. case_decide; [by apply recent_self; [apply I|]|].
    apply recent_trim; [apply recent_evict|rewrite Ec; unfold MAX_GROUP_MEMBERS; lia]; [|lia].
    exists (si_seen s), []. split; [done|]. unfold count. simpl. lia.
  - rewrite Ec1, Ec. simpl. lia.
  - rewrite Ec1, Ec. unfold MAX_GROUP_MEMBERS. lia.
  - exists s, s1, s2. split; [done|]. split; [|split; [|split; [done|split; [done|]]]].
    + intros x. pose proof (sn_sender s I x). lia.
    + pose proof (sn_total s I). unfold MAX_GROUP_MEMBERS in *. lia.
    + destruct (seen_closed_form s2 sender id I2) as (b & s3 & -> & _ & _ & -> & _). simpl.
      by rewrite bool_decide_true.
Qed.

Lemma seen_filter_window_witness :
  ∃ s s1 s2, feed (init 3) [("a", "1"); ("b", "2")] = Some s ∧
    seen s "a" "9" = Some (false, s1) ∧
    feed s1 [("a", "5"); ("b", "7"); ("b", "8")] = Some s2 ∧
    (λ x, x.1) <$> seen s2 "a" "9" = Some true.
Proof.
  destruct (seen_filter_window 3 [("a", "1"); ("b", "2")] "a" "9" [("a", "5"); ("b", "7"); ("b", "8")])
    as (s & s1 & s2 & Hs & _ & _ & H1 & H2 & H3).
  - lia.
  - vm_compute. reflexivity.
  - vm_compute. reflexivity.
  - exists s, s1, s2. split; [exact Hs|]. split; [|exact (conj H2 H3)]. rewrite H1.
    assert (Es : s = default (init 3) (feed (init 3) [("a", "1"); ("b", "2")])) by (rewrite Hs; done).
    rewrite Es. rewrite bool_decide_false; [done|]. vm_compute. intros Hin.
    repeat (apply elem_of_cons in Hin as [[=]|Hin]). by apply elem_of_nil in Hin.
Defined.

End Seen.

(** ** Sequence gate *)

Module Gseq.

Inductive verdict := New | Gap | Duplicate | ExcessiveGap.

#[export] Instance verdict_eq_dec : EqDecision verdict.
Proof. solve_decision. Defined.

Record GseqTracker := mkTracker {
  gt_max_gap : Z; gt_max_senders : nat; gt_last : list (string * Z);
}.

Definition init (max_gap : Z) : GseqTracker := mkTracker max_gap GROUP_SEQ_STATE_MAX [].

(** [observe] *)
Definition observe (t : GseqTracker) (sender : string) (gseq : Z) : verdict * GseqTracker :=
  let accept := mkTracker (gt_max_gap t) (gt_max_senders t) (dset (gt_last t) sender gseq) in
  if negb (dmem (gt_last t) sender) && (gt_max_senders t <=? length (gt_last t))%nat
  then (ExcessiveGap, t)
  else match dget (gt_last t) sender with
       | None => (New, accept)
       | Some last =>
           if gseq <=? last then (Duplicate, t)
           else if gt_max_gap t <? gseq - last then (ExcessiveGap, t)
           else ((if 1 <? gseq - last then Gap else New), accept)
       end.

(** [cursor] *)
Definition cursor (t : GseqTracker) (sender : string) : Z := default 0 (dget (gt_last t) sender).

Definition accepts (v : verdict) : bool := bool_decide (v = New ∨ v = Gap).

(** The sequence numbers of [sender] that a run of frames gets accepted. *)
Fixpoint accepted (t : GseqTracker) (sender : string) (frames : list (string * Z)) : list Z :=
  match frames with
  | [] => []
  | f :: fs =>
      let '(v, t') := observe t f.1 f.2 in
      (if accepts v && bool_decide (f.1 = sender) then [f.2] else []) ++ accepted t' sender fs
  end.

(** Each element exceeds its predecessor by at least 1 and at most [gap]. *)
Fixpoint climbs (gap : Z) (last : option Z) (l : list Z) : Prop :=
  match l with
  | [] => True
  | x :: l' => match last with Some y => y < x <= y + gap | None => True end ∧ climbs gap (Some x) l'
  end.

Lemma observe_other t x g sender :
  x ≠ sender → dget (gt_last (observe t x g).2) sender = dget (gt_last t) sender.
Proof.
  intros Hne. unfold observe. repeat case_match; try done; simpl;
    by rewrite dget_dset, decide_False.
Qed.

Lemma observe_self t x g :
  let '(v, t') := observe t x g in
  gt_max_gap t' = gt_max_gap t ∧ gt_max_senders t' = gt_max_senders t ∧
  if accepts v
  then dget (gt_last t') x = Some g ∧
       match dget (gt_last t) x with
       | Some y => y < g <= y + gt_max_gap t ∧ (v = Gap ↔ g ≠ y + 1)
       | None => v = New
       end
  else t' = t.
Proof.
  unfold observe. destruct (_ && _); [done|].
  destruct (dget (gt_last t) x) as [last|] eqn:Hl.
  - destruct (Z.leb_spec g last); [done|].
    destruct (Z.ltb_spec (gt_max_gap t) (g - last)); [done|].
    destruct (Z.ltb_spec 1 (g - last)); simpl;
      (split; [done|]; split; [done|]; split; [by rewrite dget_dset, decide_True|]);
      (split; [lia|]; split; intros Hg; first [done | discriminate Hg | lia]).
  - simpl. do 2 (split; [done|]). split; [by rewrite dget_dset, decide_True|done].
Qed.

Lemma observe_bound t x g :
  (length (gt_last t) <= gt_max_senders t)%nat →
  (length (gt_last (observe t x g).2) <= gt_max_senders t)%nat.
Proof.
  intros H. unfold observe. destruct (_ && _) eqn:E; [done|]. apply andb_false_iff in E.
  assert (Hset : (length (dset (gt_last t) x g) <= gt_max_senders t)%nat).
  { rewrite length_dset. destruct (decide _) as [|Hn]; [done|].
    destruct E as [E|E]; breflect; [|lia]. by apply dmem_spec in E. }
  repeat case_match; done.
Qed.

Lemma accepted_climbs sender frames : ∀ t,
  climbs (gt_max_gap t) (dget (gt_last t) sender) (accepted t sender frames).
Proof.
  induction frames as [|[x g] fs IH]; intros t; [done|]. simpl.
  pose proof (observe_self t x g) as Hs. pose proof (observe_other t x g sender) as Ho.
  destruct (observe t x g) as [v t']. destruct Hs as (Hg & _ & Hs). simpl in Ho.
  specialize (IH t'). rewrite Hg in IH. destruct (accepts v); [|by subst t'].
  destruct Hs as [Hl Hr]. case_bool_decide as Hx; simpl; [|rewrite <- Ho; done].
  subst x. rewrite Hl in IH. split; [|done]. destruct (dget (gt_last t) sender); [apply Hr|done].
Qed.

(** No sequence number is accepted twice: whatever frames arrive, in
    whatever order and from however many senders, the numbers accepted for
    one sender strictly increase, each by at most [max_gap]; the verdict
    "gap" means exactly that numbers were skipped; and cursors are kept
    for at most 32 senders. *)
Theorem gseq_accepts_increasing max_gap frames sender x g :
  climbs max_gap None (accepted (init max_gap) sender frames) ∧
  let t := foldl (λ t f, (observe t f.1 f.2).2) (init max_gap) frames in
  (length (gt_last t) <= 32)%nat ∧
  ((observe t x g).1 = Gap → ∃ y, dget (gt_last t) x = Some y ∧ y + 1 < g <= y + max_gap) ∧
  ((observe t x g).1 = Duplicate → ∃ y, dget (gt_last t) x = Some y ∧ g <= y).
Proof.
  split; [apply (accepted_climbs sender frames (init max_gap))|]. intros t.
  assert (Ht : (length (gt_last t) <= gt_max_senders t)%nat ∧ gt_max_senders t = 32%nat ∧
               gt_max_gap t = max_gap).
  { subst t. assert (Hi : (length (gt_last (init max_gap)) <= gt_max_senders (init max_gap))%nat ∧
      gt_max_senders (init max_gap) = 32%nat ∧ gt_max_gap (init max_gap) = max_gap)
      by (split; [simpl; lia|done]).
    revert Hi. generalize (init max_gap). induction frames as [|[y k] fs IH]; intros t Hi; [done|].
    simpl. apply IH. pose proof (observe_self t y k) as Hs. destruct Hi as (Hb & E1 & E2).
    pose proof (observe_bound t y k Hb). destruct (observe t y k) as [v t'].
    destruct Hs as (? & Hm & _). simpl in *. rewrite Hm. split; [done|]. split; congruence. }
  destruct Ht as (H1 & H2 & H3). split; [lia|].
  pose proof (observe_self t x g) as Hs. split.
  - intros Hv. destruct (observe t x g) as [v t']. simpl in Hv. subst v. destruct Hs as (_ & _ & Hs).
    simpl in Hs. destruct Hs as [_ Hs]. destruct (dget (gt_last t) x) as [y|]; [|done].
    exists y. split; [done|]. destruct Hs as [? [Hg _]]. specialize (Hg eq_refl). lia.
  - unfold observe. destruct (_ && _); [done|]. destruct (dget (gt_last t) x) as [y|]; [|done].
    destruct (Z.leb_spec g y); [eauto|]. repeat case_match; done.
Qed.

End Gseq.

(** ** Delivery ledger *)

Module Ledger.

Inductive DeliveryState := QUEUED | SENDING | SENT | DELIVERED | READ | FAILED.

#[export] Instance DeliveryState_eq_dec : EqDecision DeliveryState.
Proof. solve_decision. Defined.

Definition TERMINAL_DELIVERY_STATES : list DeliveryState := [DELIVERED; READ].

Record GroupMessageLedger := mkLedger {
  gl_message_id : string; gl_group_id : string; gl_gseq : Z; gl_text : string; gl_ts : Z;
  gl_recipients : list (string * DeliveryState);
}.

Definition set_recipients (l : GroupMessageLedger) rs : GroupMessageLedger :=
  mkLedger (gl_message_id l) (gl_group_id l) (gl_gseq l) (gl_text l) (gl_ts l) rs.

Definition count_state (l : GroupMessageLedger) (Q : DeliveryState → bool) : nat :=
  length (filter (λ x, Q x.2 = true) (gl_recipients l)).

Definition is_terminal (st : DeliveryState) : bool := bool_decide (st ∈ TERMINAL_DELIVERY_STATES).
Definition is_failed (st : DeliveryState) : bool := bool_decide (st = FAILED).

Definition total (l : GroupMessageLedger) : nat := length (gl_recipients l).
Definition delivered_count (l : GroupMessageLedger) : nat := count_state l is_terminal.
Definition failed_count (l : GroupMessageLedger) : nat := count_state l is_failed.

(** [pending_recipients], before sorting. *)
Definition pending (l : GroupMessageLedger) : list string :=
  keys (filter (λ x, is_terminal x.2 = false ∧ x.2 ≠ FAILED) (gl_recipients l)).

(** [apply_read_cursor] *)
Definition apply_read_cursor (l : GroupMessageLedger) (sender_cursor : Z) : GroupMessageLedger :=
  set_recipients l
    ((λ x, (x.1, if bool_decide (x.2 = DELIVERED) && (gl_gseq l <=? sender_cursor)
                 then READ else x.2)) <$> gl_recipients l).

(** [status_line] *)
Definition status_line (l : GroupMessageLedger) : string :=
  let nat_str n := str_of_Z (Z.of_nat n) in
  let t := total l in
  if (t =? 0)%nat then "no recipients"
  else
    let delivered := delivered_count l in
    if (delivered =? t)%nat then "delivered " +:+ nat_str t +:+ "/" +:+ nat_str t
    else
      let failed := failed_count l in
      let queued := count_state l (λ st, bool_decide (st = QUEUED)) in
      "delivered " +:+ nat_str delivered +:+ "/" +:+ nat_str t +:+
      (if (failed =? 0)%nat then "" else ", failed " +:+ nat_str failed) +:+
      (if (queued =? 0)%nat then "" else ", offline " +:+ nat_str queued).

(** [_apply_gack] of [groups/service.py] on the ledgers of one group. *)
Definition apply_gack (ledgers : list (string * GroupMessageLedger)) (sender message_id : string)
    : list (string * GroupMessageLedger) :=
  match dget ledgers message_id with
  | None => ledgers
  | Some l =>
      match dget (gl_recipients l) sender with
      | None => ledgers
      | Some st =>
          if decide (st = SENT)
          then dset ledgers message_id
                 (set_recipients l (dset (gl_recipients l) sender DELIVERED))
          else ledgers
      end
  end.

(** [_apply_gread] of [groups/service.py]. *)
Definition apply_gread (ledgers : list (string * GroupMessageLedger)) (sender : string) (upto : Z)
    : list (string * GroupMessageLedger) :=
  (λ x, (x.1, if dmem (gl_recipients x.2) sender && (gl_gseq x.2 <=? upto)
              then apply_read_cursor x.2 upto else x.2)) <$> ledgers.

(** The delivery state of one recipient of one message. *)
Definition state_of (ledgers : list (string * GroupMessageLedger)) (mid fp : string)
    : option DeliveryState :=
  l ← dget ledgers mid; dget (gl_recipients l) fp.

Lemma gread_state ledgers sender upto mid fp :
  state_of (apply_gread ledgers sender upto) mid fp =
    l ← dget ledgers mid;
    (λ st, if dmem (gl_recipients l) sender && (gl_gseq l <=? upto) && bool_decide (st = DELIVERED)
           then READ else st) <$> dget (gl_recipients l) fp.
Proof.
  unfold state_of, apply_gread.
  rewrite (dget_fmap (λ l, if dmem (gl_recipients l) sender && (gl_gseq l <=? upto)
                           then apply_read_cursor l upto else l)).
  destruct (dget ledgers mid) as [l|]; [|done]. simpl.
  destruct (dmem (gl_recipients l) sender); simpl; [|by destruct (dget (gl_recipients l) fp)].
  destruct (gl_gseq l <=? upto) eqn:E; [|by destruct (dget (gl_recipients l) fp)].
  unfold apply_read_cursor, set_recipients. cbn [gl_recipients]. rewrite E.
  etrans; [refine (dget_fmap (λ st, if bool_decide (st = DELIVERED) && true then READ else st) _ _)|].
  destruct (dget (gl_recipients l) fp); [|done]. simpl. by rewrite andb_true_r.
Qed.

(** Delivery states only move forward on receipts: an acknowledgement
    changes exactly the acknowledging recipient, and only from SENT to
    DELIVERED; a read cursor moves states only from DELIVERED to READ and
    only in messages at or below the cursor that were sent to the reader;
    nothing ever leaves READ or FAILED. *)
Theorem receipts_move_forward ledgers sender mid0 upto mid fp st :
  state_of ledgers mid fp = Some st →
  (∃ st', state_of (apply_gack ledgers sender mid0) mid fp = Some st' ∧
     (st' = st ∨ st = SENT ∧ st' = DELIVERED ∧ mid = mid0 ∧ fp = sender)) ∧
  (∃ st', state_of (apply_gread ledgers sender upto) mid fp = Some st' ∧
     (st' = st ∨ st = DELIVERED ∧ st' = READ ∧
        ∃ l, dget ledgers mid = Some l ∧ gl_gseq l <= upto ∧ sender ∈ keys (gl_recipients l))).
Proof.
  intros H. split.
  - unfold apply_gack. destruct (dget ledgers mid0) as [l|] eqn:Hl; [|by eauto].
    destruct (dget (gl_recipients l) sender) as [s0|] eqn:Hs; [|by eauto].
    destruct (decide (s0 = SENT)) as [->|]; [|by eauto].
    unfold state_of in *. rewrite dget_dset. destruct (decide (mid0 = mid)) as [<-|]; [|by eauto].
    rewrite Hl in H. simpl in *. rewrite dget_dset.
    destruct (decide (sender = fp)) as [<-|]; [|by eauto]. simplify_eq. eexists. split; [done|]. auto.
  - rewrite gread_state. unfold state_of in H.
    destruct (dget ledgers mid) as [l|]; simpl in *; [|done]. rewrite H. simpl.
    eexists. split; [done|]. case_match eqn:E; [|auto]. breflect. right.
    do 2 (split; [done|]). exists l. split; [done|]. split; [done|]. by apply dmem_spec.
Qed.

(** One reader's cursor marks everyone: a GREAD from one recipient
    turns the DELIVERED state of every other recipient of the message into
    READ as well, so the ledger reports messages as read by members who
    never sent a read receipt. *)
Theorem read_cursor_marks_every_recipient ledgers reader upto mid l fp :
  dget ledgers mid = Some l → gl_gseq l <= upto → reader ∈ keys (gl_recipients l) →
  fp ≠ reader → dget (gl_recipients l) fp = Some DELIVERED →
  state_of (apply_gread ledgers reader upto) mid fp = Some READ.
Proof.
  intros Hl Hu Hr _ Hf. rewrite gread_state, Hl. simpl. rewrite Hf. simpl.
  rewrite (proj2 (dmem_spec _ _) Hr). by destruct (Z.leb_spec (gl_gseq l) upto); [|lia].
Qed.

(** Two recipients, both acknowledged. *)
Definition demo_ledger : GroupMessageLedger :=
  mkLedger "m" "g" 4 "hi" 0 [("A", DELIVERED); ("B", DELIVERED); ("C", SENT)].

Lemma receipts_move_forward_witness :
  ∃ st', state_of (apply_gack [("m", demo_ledger)] "C" "m") "m" "C" = Some st' ∧
    (st' = SENT ∨ SENT = SENT ∧ st' = DELIVERED ∧ "m" = "m" ∧ "C" = "C").
Proof.
  assert (H : state_of [("m", demo_ledger)] "m" "C" = Some SENT) by reflexivity.
  destruct (receipts_move_forward [("m", demo_ledger)] "C" "m" 4 "m" "C" SENT H) as [Hs _].
  exact Hs.
Defined.

Lemma read_cursor_marks_every_recipient_witness :
  state_of (apply_gread [("m", demo_ledger)] "A" 4) "m" "B" = Some READ.
Proof.
  apply (read_cursor_marks_every_recipient [("m", demo_ledger)] "A" 4 "m" demo_ledger "B");
    simpl; try done. apply (bool_decide_eq_true_1 _). reflexivity.
Defined.

(** The ledger's numbers add up: delivered, failed and pending
    recipients partition the recipients, and the status line claims
    complete delivery exactly when every recipient's state is DELIVERED or
    READ. *)
Theorem ledger_partition l :
  (delivered_count l + failed_count l + length (pending l) = total l)%nat ∧
  (delivered_count l = total l ↔ Forall (λ x, x.2 = DELIVERED ∨ x.2 = READ) (gl_recipients l)).
Proof.
  unfold delivered_count, failed_count, pending, total, count_state, keys. rewrite length_fmap.
  split.
  - induction (gl_recipients l) as [|[fp st] rs IH]; [done|]. rewrite !filter_cons. simpl.
    destruct st; simpl; repeat case_decide; simpl in *; try done; try lia; naive_solver lia.
  - induction (gl_recipients l) as [|[fp st] rs IH]; [done|]. rewrite filter_cons, Forall_cons.
    pose proof (length_filter (λ x : string * DeliveryState, is_terminal x.2 = true) rs).
    destruct st; simpl; rewrite <- IH; simpl; naive_solver lia.
Qed.

End Ledger.
