(* ===== verification/Messages.v ===== *)
(** * Chat messages and their queues

    [messaging/models/message.py] (the message and its status lifecycle),
    [messaging/queue/inbox.py] (ordering and duplicate detection of the
    incoming stream), [messaging/queue/outbox.py] (the outgoing queue),
    [messaging/receipts.py] and [messaging/typing.py].  Clock readings are
    arguments (microseconds); logging is left out. *)

From Stdlib Require Import Ascii.
From S2P Require Import Prelude Text Utf8 Ids.

Open Scope Z_scope.

(** ** Messages *)

Inductive MessageStatus := QUEUED | SENDING | SENT | DELIVERED | READ | FAILED.
Inductive MessageDirection := OUTGOING | INCOMING.

#[export] Instance MessageStatus_eq_dec : EqDecision MessageStatus.
Proof. solve_decision. Defined.
#[export] Instance MessageDirection_eq_dec : EqDecision MessageDirection.
Proof. solve_decision. Defined.

Inductive MessageError := MessageValidationError | PyKeyError | PyUnicodeEncodeError.

Definition MESSAGE_ID_PREFIX : string := "msg_".
Definition MAX_DISPLAY_NAME_LENGTH : nat := 24.
Definition MAX_MESSAGE_TEXT_LENGTH : nat := 2048.
Definition MAX_MESSAGE_TEXT_BYTES : nat := 2048.

Definition outgoing_transitions (s : MessageStatus) : list MessageStatus :=
  match s with
  | QUEUED => [SENDING; FAILED]
  | SENDING => [SENT; QUEUED; FAILED]
  | SENT => [DELIVERED; QUEUED; FAILED]
  | DELIVERED => [READ]
  | READ => []
  | FAILED => []
  end.

Definition incoming_transitions (s : MessageStatus) : list MessageStatus :=
  match s with DELIVERED => [READ] | _ => [] end.

Definition transitions_for (d : MessageDirection) : MessageStatus → list MessageStatus :=
  match d with OUTGOING => outgoing_transitions | INCOMING => incoming_transitions end.

(** [generate_message_id] from 8 random bytes. *)
Definition generate_message_id (random : bytes) : string := MESSAGE_ID_PREFIX +:+ hexdigest random.

Definition message_id_pattern : list cclass := lit MESSAGE_ID_PREFIX ++ replicate 16 is_hex_lower.

Definition is_valid_message_id (candidate : string) : bool :=
  fullmatch message_id_pattern (chars candidate).

(** [message_aad] *)
Definition message_aad (message_id : string) (sequence : Z) : bytes :=
  encode (message_id +:+ "|" +:+ str_of_Z sequence).

Definition is_control (c : Z) : bool := (c <? 32) || (c =? 127).

(** [validate_display_name] *)
Definition validate_display_name (name : unicode) : result MessageError unicode :=
  let cleaned := uni_strip name in
  guard_or ((0 <? length cleaned)%nat && (length cleaned <=? MAX_DISPLAY_NAME_LENGTH)%nat)
    MessageValidationError;;
  guard_or (negb (existsb is_control cleaned)) MessageValidationError;;
  Ok cleaned.

(** [validate_message_text]; a lone surrogate has no encoding. *)
Definition validate_message_text (text : unicode) : result MessageError unicode :=
  guard_or (negb (bool_decide (text = []) || bool_decide (uni_strip text = []))) MessageValidationError;;
  guard_or (length text <=? MAX_MESSAGE_TEXT_LENGTH)%nat MessageValidationError;;
  encoded ← of_option (utf8_encode text) PyUnicodeEncodeError;
  guard_or (length encoded <=? MAX_MESSAGE_TEXT_BYTES)%nat MessageValidationError;;
  Ok text.

(** [EncryptedPayload] *)
Record EncryptedPayload := mkPayload { ep_sealed : bytes; ep_aad : bytes }.

Definition EncryptedPayload_init (sealed aad : bytes) : result MessageError EncryptedPayload :=
  guard_or (negb (bool_decide (sealed = []))) MessageValidationError;;
  Ok (mkPayload sealed aad).

Definition to_b64 (p : EncryptedPayload) : string := b64encode (ep_sealed p).

Definition from_b64 (encoded : string) (aad : bytes) : result MessageError EncryptedPayload :=
  sealed ← of_option (b64decode encoded) MessageValidationError;
  EncryptedPayload_init sealed aad.

Record Message := mkMessage {
  msg_id : string; msg_conversation_id : string; msg_direction : MessageDirection;
  msg_sender : unicode; msg_recipient : unicode; msg_text : unicode; msg_sequence : Z;
  msg_status : MessageStatus; msg_created_at : Z; msg_delivered_at : option Z;
  msg_read_at : option Z; msg_payload : option EncryptedPayload; msg_error : option string;
}.

(** [Message.__post_init__] *)
Definition post_init (m : Message) : result MessageError Message :=
  guard_or (is_valid_message_id (msg_id m)) MessageValidationError;;
  guard_or (startswith (msg_conversation_id m) "conv_") MessageValidationError;;
  validate_message_text (msg_text m);;
  validate_display_name (msg_sender m);;
  validate_display_name (msg_recipient m);;
  guard_or (negb (msg_sequence m <? 1)) MessageValidationError;;
  guard_or (negb (bool_decide (msg_direction m = INCOMING) &&
                  negb (bool_decide (msg_status m ∈ [DELIVERED; READ])))) MessageValidationError;;
  Ok m.

Definition is_terminal (m : Message) : bool :=
  bool_decide (transitions_for (msg_direction m) (msg_status m) = []).

Definition set_status (m : Message) (s : MessageStatus) (error : option string) (now : Z)
    : Message :=
  mkMessage (msg_id m) (msg_conversation_id m) (msg_direction m) (msg_sender m)
    (msg_recipient m) (msg_text m) (msg_sequence m) s (msg_created_at m)
    (if decide (s = DELIVERED) then Some now else msg_delivered_at m)
    (if decide (s = READ) then Some now else msg_read_at m) (msg_payload m) error.

(** [with_status]: [dataclasses.replace] runs the constructor's checks again. *)
Definition with_status (m : Message) (status : MessageStatus) (error : option string) (now : Z)
    : result MessageError Message :=
  guard_or (bool_decide (status ∈ transitions_for (msg_direction m) (msg_status m)))
    MessageValidationError;;
  post_init (set_status m status error now).

(** [with_payload] *)
Definition with_payload (m : Message) (p : EncryptedPayload) : result MessageError Message :=
  post_init (mkMessage (msg_id m) (msg_conversation_id m) (msg_direction m) (msg_sender m)
    (msg_recipient m) (msg_text m) (msg_sequence m) (msg_status m) (msg_created_at m)
    (msg_delivered_at m) (msg_read_at m) (Some p) (msg_error m)).

(** A constructed message. *)
Definition message_ok (m : Message) : Prop := post_init m = Ok m.

(** ** Inbox *)

Module Inbox.

Definition MAX_REORDER_BUFFER : nat := 100.
Definition MAX_SEEN_IDS : nat := 4096.

Inductive InboxVerdict := DELIVER | BUFFERED | DUPLICATE.

Record Inbox := mkInbox {
  ib_window : Z; ib_expected : Z; ib_buffer : list (Z * (Message * Z));
  ib_seen : list string; ib_delivered : list Message; ib_unread : Z; ib_highest_read : Z;
}.

Definition init (window : Z) : Inbox := mkInbox window 1 [] [] [] 0 0.

(** [_remember] *)
Definition remember (seen : list string) (id : string) : list string :=
  let seen' := filter (λ x, x ≠ id) seen ++ [id] in
  drop (length seen' - MAX_SEEN_IDS) seen'.

(** [_drain_contiguous]; [None] when the loop has not ended within the fuel. *)
Fixpoint drain_contiguous (fuel : nat) (expected : Z) (buffer : list (Z * (Message * Z)))
    : option (list Message * Z * list (Z * (Message * Z))) :=
  match dget buffer expected with
  | None => Some ([], expected, buffer)
  | Some (m, _) =>
      match fuel with
      | O => None
      | S fuel' =>
          '(drained, e, b) ← drain_contiguous fuel' (expected + 1) (dpop buffer expected);
          Some (m :: drained, e, b)
      end
  end.

(** Drain from [expected], then [_mark_delivered] on [first ++ drained]. *)
Definition drain_and_mark (s : Inbox) (seen : list string) (first : list Message) (expected : Z)
    (buffer : list (Z * (Message * Z))) : option (list Message * Inbox) :=
  '(drained, e, b) ← drain_contiguous (length buffer) expected buffer;
  let ms := first ++ drained in
  Some (ms, mkInbox (ib_window s) e b seen (ib_delivered s ++ ms)
              (ib_unread s + Z.of_nat (length ms)) (ib_highest_read s)).

(** [min(self._buffer)] *)
Definition min_key (buffer : list (Z * (Message * Z))) : option Z :=
  match keys buffer with [] => None | k :: ks => Some (foldr Z.min k ks) end.

Definition set_seen (s : Inbox) (seen : list string) : Inbox :=
  mkInbox (ib_window s) (ib_expected s) (ib_buffer s) seen (ib_delivered s) (ib_unread s)
    (ib_highest_read s).

(** [accept] *)
Definition accept (s : Inbox) (m : Message) (now : Z)
    : option (InboxVerdict * list Message * Inbox) :=
  if decide (msg_id m ∈ ib_seen s) then Some (DUPLICATE, [], s)
  else
    let seen := remember (ib_seen s) (msg_id m) in
    if msg_sequence m <? ib_expected s then Some (DUPLICATE, [], set_seen s seen)
    else if msg_sequence m =? ib_expected s then
      '(ms, s') ← drain_and_mark s seen [m] (ib_expected s + 1) (ib_buffer s);
      Some (DELIVER, ms, s')
    else
      let buffer := dset (ib_buffer s) (msg_sequence m) (m, now) in
      if (MAX_REORDER_BUFFER <=? length (ib_buffer s))%nat then
        (* [_force_progress] *)
        k ← min_key buffer;
        '(ms, s') ← drain_and_mark s seen [] k buffer;
        Some (DELIVER, ms, s')
      else Some (BUFFERED, [],
             mkInbox (ib_window s) (ib_expected s) buffer seen (ib_delivered s) (ib_unread s)
               (ib_highest_read s)).

(** [check_starvation] *)
Definition check_starvation (s : Inbox) (now : Z) : option (list Message * Inbox) :=
  match min_key (ib_buffer s) with
  | None => Some ([], s)
  | Some k =>
      match dget (ib_buffer s) k with
      | None => None
      | Some (_, arrived) =>
          if now - arrived <? ib_window s then Some ([], s)
          else drain_and_mark s (ib_seen s) [] (Z.max (ib_expected s) k) (ib_buffer s)
      end
  end.

(** [highest_sequence_seen] *)
Definition highest_sequence_seen (s : Inbox) : Z :=
  foldr Z.max (ib_expected s - 1) (keys (ib_buffer s)).

(** [mark_all_read] *)
Definition mark_all_read (s : Inbox) : Z * Inbox :=
  let cursor := Z.max (ib_highest_read s) (highest_sequence_seen s) in
  (cursor, mkInbox (ib_window s) (ib_expected s) (ib_buffer s) (ib_seen s) (ib_delivered s) 0
             cursor).

(** [clear] *)
Definition clear (s : Inbox) : Inbox := mkInbox (ib_window s) 1 [] [] [] 0 0.

End Inbox.

(** ** Outbox *)

Module Outbox.

(** The delivery waiters are futures the callers hold; the outbox keeps the
    table of message ids that have one. *)
Record Outbox := mkOutbox {
  ob_queued : list string; ob_messages : list (string * Message);
  ob_waiters : list (string * unit); ob_delivered_sequences : list Z;
}.

Definition init : Outbox := mkOutbox [] [] [] [].

Definition put (s : Outbox) (m : Message) : Outbox :=
  mkOutbox (ob_queued s) (dset (ob_messages s) (msg_id m) m) (ob_waiters s)
    (ob_delivered_sequences s).
Definition set_queued (s : Outbox) (q : list string) : Outbox :=
  mkOutbox q (ob_messages s) (ob_waiters s) (ob_delivered_sequences s).

Definition in_flight (st : MessageStatus) : bool := bool_decide (st ∈ [QUEUED; SENDING; SENT]).

(** [pending] *)
Definition pending (s : Outbox) : list Message :=
  filter (λ m, in_flight (msg_status m) = true) (values (ob_messages s)).

(** [highest_delivered_sequence] *)
Definition highest_delivered_sequence (s : Outbox) : Z :=
  match ob_delivered_sequences s with [] => 0 | x :: xs => foldr Z.max x xs end.

(** [enqueue] *)
Definition enqueue (s : Outbox) (m : Message) : outcome Outbox MessageError unit :=
  try? _ := guard_or (negb (dmem (ob_messages s) (msg_id m))) MessageValidationError @ s in
  try? _ := guard_or (bool_decide (msg_status m = QUEUED)) MessageValidationError @ s in
  (Ok tt, set_queued (put s m) (ob_queued s ++ [msg_id m])).

(** [next_queued]: pops slots until one holds a QUEUED message. *)
Fixpoint next_queued_from (s : Outbox) (queue : list string) (now : Z)
    : outcome Outbox MessageError (option Message) :=
  match queue with
  | [] => (Ok None, set_queued s [])
  | id :: rest =>
      match dget (ob_messages s) id with
      | None => (Err PyKeyError, set_queued s rest)
      | Some m =>
          if decide (msg_status m = QUEUED) then
            match with_status m SENDING None now with
            | Ok m' => (Ok (Some m'), put (set_queued s rest) m')
            | Err e => (Err e, set_queued s rest)
            end
          else next_queued_from s rest now
      end
  end.

Definition next_queued (s : Outbox) (now : Z) : outcome Outbox MessageError (option Message) :=
  next_queued_from s (ob_queued s) now.

(** [restore]; the argument is the caller's copy of the message. *)
Definition restore (s : Outbox) (m : Message) (now : Z) : outcome Outbox MessageError Message :=
  try? _ := guard_or (bool_decide (msg_status m = SENDING)) MessageValidationError @ s in
  try? updated := with_status m QUEUED None now @ s in
  (Ok updated, set_queued (put s updated) (msg_id m :: ob_queued s)).

(** [to_queued] *)
Definition to_queued (s : Outbox) (id : string) (now : Z)
    : outcome Outbox MessageError (option Message) :=
  match dget (ob_messages s) id with
  | None => (Ok None, s)
  | Some m =>
      if bool_decide (msg_status m ∈ [SENDING; SENT]) then
        try? m' := with_status m QUEUED None now @ s in
        (Ok (Some m'), set_queued (put s m') (id :: ob_queued s))
      else (Ok None, s)
  end.

(** [sorted(..., key=sequence)]: stable. *)
Fixpoint insert_by_sequence (m : Message) (l : list Message) : list Message :=
  match l with
  | [] => [m]
  | m' :: l' => if msg_sequence m <=? msg_sequence m' then m :: l
                else m' :: insert_by_sequence m l'
  end.
Definition sort_by_sequence (l : list Message) : list Message := foldr insert_by_sequence [] l.

(** The loop of [requeue_unacked] over the sorted backlog. *)
Fixpoint requeue_loop (s : Outbox) (ms : list Message) (now : Z)
    : outcome Outbox MessageError (list Message) :=
  match ms with
  | [] => (Ok [], s)
  | m :: ms' =>
      try? m' := (if decide (msg_status m = QUEUED) then Ok m else with_status m QUEUED None now)
        @ s in
      let s1 := if decide (msg_status m = QUEUED) then s else put s m' in
      match requeue_loop s1 ms' now with
      | (Ok done, s2) => (Ok (m' :: done), s2)
      | (Err e, s2) => (Err e, s2)
      end
  end.

(** [requeue_unacked] *)
Definition requeue_unacked (s : Outbox) (now : Z) : outcome Outbox MessageError (list Message) :=
  match requeue_loop s (sort_by_sequence (pending s)) now with
  | (Ok requeued, s') => (Ok requeued, set_queued s' (msg_id <$> requeued))
  | (Err e, s') => (Err e, s')
  end.

(** [_transition] *)
Definition transition (s : Outbox) (id : string) (status : MessageStatus) (error : option string)
    (now : Z) : option Message * Outbox :=
  match dget (ob_messages s) id with
  | None => (None, s)
  | Some m =>
      if is_terminal m then (None, s)
      else match with_status m status error now with
           | Ok m' => (Some m', put s m')
           | Err _ => (None, s)
           end
  end.

(** [mark_sent] *)
Definition mark_sent (s : Outbox) (id : string) (now : Z) : option Message * Outbox :=
  match dget (ob_messages s) id with
  | None => (None, s)
  | Some m => if decide (msg_status m = SENDING) then transition s id SENT None now else (Some m, s)
  end.

(** Pop the waiter of [id]; it is resolved with the returned message. *)
Definition resolve_waiter (s : Outbox) (id : string) : Outbox :=
  mkOutbox (ob_queued s) (ob_messages s) (dpop (ob_waiters s) id) (ob_delivered_sequences s).

(** [mark_delivered] *)
Definition mark_delivered (s : Outbox) (id : string) (now : Z)
    : outcome Outbox MessageError (option Message) :=
  match dget (ob_messages s) id with
  | None => (Ok None, s)
  | Some m =>
      if bool_decide (msg_status m ∈ [READ; DELIVERED]) then (Ok (Some m), s)
      else if is_terminal m then (Ok None, s)
      else
        try? s1 := (if decide (msg_status m = SENDING)
                    then m' ← with_status m SENT None now; Ok (put s m')
                    else Ok s) @ s in
        match transition s1 id DELIVERED None now with
        | (Some m', s2) =>
            (Ok (Some m'),
             mkOutbox (ob_queued s2) (ob_messages s2) (dpop (ob_waiters s2) id)
               (if decide (msg_sequence m' ∈ ob_delivered_sequences s2)
                then ob_delivered_sequences s2 else msg_sequence m' :: ob_delivered_sequences s2))
        | (None, s2) => (Ok None, s2)
        end
  end.

(** [mark_read_up_to] *)
Definition mark_read_up_to (s : Outbox) (sequence now : Z) : list Message * Outbox :=
  foldl (λ acc m,
    let '(updated, s) := acc in
    if (msg_sequence m <=? sequence) && bool_decide (msg_status m = DELIVERED) then
      let '(r, s') := transition s (msg_id m) READ None now in
      (updated ++ [default m r], s')
    else (updated, s)) ([], s) (values (ob_messages s)).

(** [mark_failed] *)
Definition mark_failed (s : Outbox) (id error : string) (now : Z) : option Message * Outbox :=
  match transition s id FAILED (Some error) now with
  | (Some m, s') => (Some m, resolve_waiter s' id)
  | (None, s') => (None, s')
  end.

(** [register_ack_waiter] / [drop_ack_waiter] /
    [resolve_ack_waiters_on_disconnect] / [clear] *)
Definition register_ack_waiter (s : Outbox) (id : string) : Outbox :=
  mkOutbox (ob_queued s) (ob_messages s) (dset (ob_waiters s) id tt)
    (ob_delivered_sequences s).
Definition drop_ack_waiter (s : Outbox) (id : string) : Outbox :=
  mkOutbox (ob_queued s) (ob_messages s) (dpop (ob_waiters s) id) (ob_delivered_sequences s).
Definition resolve_ack_waiters_on_disconnect (s : Outbox) : Outbox :=
  mkOutbox (ob_queued s) (ob_messages s) [] (ob_delivered_sequences s).
Definition clear (s : Outbox) : Outbox := init.

End Outbox.

(** ** Receipts *)

Module Receipts.

Record ReceiptTracker := mkTracker {
  rt_read_receipts : bool; rt_last_read_sent : Z; rt_last_read_received : Z;
  rt_acks_sent : Z; rt_acks_received : Z;
}.

Definition init (enabled : bool) : ReceiptTracker := mkTracker enabled 0 0 0 0.

Definition note_ack_sent (t : ReceiptTracker) : ReceiptTracker :=
  mkTracker (rt_read_receipts t) (rt_last_read_sent t) (rt_last_read_received t)
    (rt_acks_sent t + 1) (rt_acks_received t).
Definition note_ack_received (t : ReceiptTracker) : ReceiptTracker :=
  mkTracker (rt_read_receipts t) (rt_last_read_sent t) (rt_last_read_received t)
    (rt_acks_sent t) (rt_acks_received t + 1).
Definition read_to_emit (t : ReceiptTracker) (cursor : Z) : option Z :=
  if negb (rt_read_receipts t) then None
  else if cursor <=? rt_last_read_sent t then None
  else Some cursor.
Definition note_read_sent (t : ReceiptTracker) (cursor : Z) : ReceiptTracker :=
  mkTracker (rt_read_receipts t) (Z.max (rt_last_read_sent t) cursor) (rt_last_read_received t)
    (rt_acks_sent t) (rt_acks_received t).
Definition note_read_received (t : ReceiptTracker) (cursor : Z) : ReceiptTracker :=
  mkTracker (rt_read_receipts t) (rt_last_read_sent t) (Z.max (rt_last_read_received t) cursor)
    (rt_acks_sent t) (rt_acks_received t).

(** [delivery_counts] *)
Definition delivery_counts (ms : list Message) : list (MessageStatus * nat) :=
  foldl (λ counts m, dset counts (msg_status m) (S (default 0%nat (dget counts (msg_status m)))))
    [(QUEUED, 0%nat); (SENDING, 0%nat); (SENT, 0%nat); (DELIVERED, 0%nat); (READ, 0%nat);
     (FAILED, 0%nat)] ms.

End Receipts.

(** ** Typing indicator *)

Module Typing.

Record TypingIndicator := mkTyping {
  ti_start_interval : Z; ti_idle : Z; ti_peer_expiry : Z;
  ti_local_active : bool; ti_last_start_sent : Z; ti_last_keystroke : Z;
  ti_peer_since : option Z;
}.

Definition init (start_interval idle peer_expiry : Z) : result MessageError TypingIndicator :=
  guard_or (0 <? start_interval) MessageValidationError;;
  guard_or (0 <? idle) MessageValidationError;;
  guard_or (0 <? peer_expiry) MessageValidationError;;
  Ok (mkTyping start_interval idle peer_expiry false 0 0 None).

Definition set_local (t : TypingIndicator) (active : bool) (start key : Z) : TypingIndicator :=
  mkTyping (ti_start_interval t) (ti_idle t) (ti_peer_expiry t) active start key (ti_peer_since t).
Definition set_peer (t : TypingIndicator) (since : option Z) : TypingIndicator :=
  mkTyping (ti_start_interval t) (ti_idle t) (ti_peer_expiry t) (ti_local_active t)
    (ti_last_start_sent t) (ti_last_keystroke t) since.

Definition note_keystroke (t : TypingIndicator) (now : Z) : bool * TypingIndicator :=
  if negb (ti_local_active t) || (ti_start_interval t <=? now - ti_last_start_sent t)
  then (true, set_local t true now now)
  else (false, set_local t (ti_local_active t) (ti_last_start_sent t) now).

Definition note_sent_or_stopped (t : TypingIndicator) : bool * TypingIndicator :=
  if ti_local_active t
  then (true, set_local t false (ti_last_start_sent t) (ti_last_keystroke t)) else (false, t).

Definition idle_elapsed (t : TypingIndicator) (now : Z) : bool :=
  if negb (ti_local_active t) then false else ti_idle t <=? now - ti_last_keystroke t.

Definition peer_started (t : TypingIndicator) (now : Z) : TypingIndicator := set_peer t (Some now).
Definition peer_stopped (t : TypingIndicator) : TypingIndicator := set_peer t None.

Definition peer_typing (t : TypingIndicator) (now : Z) : bool * TypingIndicator :=
  match ti_peer_since t with
  | None => (false, t)
  | Some since => if ti_peer_expiry t <=? now - since then (false, set_peer t None) else (true, t)
  end.

Definition reset (t : TypingIndicator) : TypingIndicator := set_peer (set_local t false 0 0) None.

End Typing.

(** ** What a session reports *)

Module ChatEvents.

Inductive ChatEventKind := SESSION | MESSAGE | DELIVERY | TYPING | PEER | CONNECTION | NOTICE.

End ChatEvents.
