(* ===== verification/MessageTheorems.v ===== *)
(** * Theorems about chat messages and their queues

    The inbox delivers in order, never twice, and reassembles any shuffled
    stream that fits its buffer; the outbox keeps every message, resends in
    order and moves statuses forward; the message lifecycle. *)

From Stdlib Require Import Sorted.
From stdpp Require Import sorting.
From S2P Require Import Prelude Text Utf8 Ids Messages.

Open Scope Z_scope.

(** ** Inbox *)

Module InboxProofs.
Import Inbox.

Abbreviation buffer := (list (Z * (Message * Z))).

(** A buffer files each message under its sequence number. *)
Definition filed (b : buffer) : Prop :=
  dict_wf b ∧ ∀ k m t, dget b k = Some (m, t) → msg_sequence m = k.

(** The drain loop ends within [length b] turns; it takes the run of
    consecutive numbers that starts at [e]. *)
Lemma drain_spec fuel : ∀ e b,
  filed b → (length b <= fuel)%nat →
  ∃ ms b', drain_contiguous fuel e b = Some (ms, e + Z.of_nat (length ms), b') ∧
    msg_sequence <$> ms = seqZ e (Z.of_nat (length ms)) ∧
    filed b' ∧ dget b' (e + Z.of_nat (length ms)) = None ∧
    (length b' + length ms = length b)%nat ∧
    (∀ m, m ∈ ms → ∃ k t, dget b k = Some (m, t)) ∧
    ∀ k, dget b' k = if decide (e <= k < e + Z.of_nat (length ms)) then None else dget b k.
Proof.
  induction fuel as [|fuel IH]; intros e b Hb Hlen.
  - destruct b; [|simpl in Hlen; lia]. exists [], []. simpl. rewrite Z.add_0_r.
    do 5 (split; [done|]). split; [intros m Hm; by apply elem_of_nil in Hm|].
    intros k. by case_decide.
  - cbn [drain_contiguous]. destruct (dget b e) as [[m t]|] eqn:He.
    + assert (Hb' : filed (dpop b e)).
      { destruct Hb as [Hwf Hs]. split; [by apply dict_wf_dpop|]. intros k m' t'.
        rewrite dget_dpop by done. case_decide; [done|]. by apply Hs. }
      assert (Hl : length b = S (length (dpop b e))).
      { pose proof (length_dpop b e) as Hl. rewrite decide_True in Hl; [lia|].
        apply dget_is_Some. eauto. }
      destruct (IH (e + 1) (dpop b e) Hb') as (ms & b' & -> & Hseq & Hf & Hn & Hcount & Hms & Hk);
        [lia|].
      simpl. exists (m :: ms), b'. cbn [length].
      replace (e + Z.of_nat (S (length ms))) with (e + 1 + Z.of_nat (length ms)) by lia.
      split; [done|]. split.
      { rewrite fmap_cons, Hseq, (seqZ_cons e) by lia. destruct Hb as [_ Hs]. f_equal; [eauto|].
        f_equal; lia. }
      split; [done|]. split; [done|]. split; [lia|]. split.
      { intros x [->|Hx]%elem_of_cons; [eauto|]. apply Hms in Hx as (k & t' & Hx).
        rewrite dget_dpop in Hx by apply Hb. case_decide; [done|eauto]. }
      intros k. rewrite Hk, dget_dpop by apply Hb.
      repeat case_decide; try done; try lia.
    + exists [], b. simpl. rewrite Z.add_0_r. do 4 (split; [done|]). split; [lia|].
      split; [intros x Hx; by apply elem_of_nil in Hx|]. intros k. case_decide; [lia|done].
Qed.

Definition before (m m' : Message) : Prop := msg_sequence m < msg_sequence m'.

Record inbox_inv (s : Inbox) : Prop := {
  ii_filed : filed (ib_buffer s);
  ii_ahead : ∀ k, k ∈ keys (ib_buffer s) → ib_expected s < k;
  ii_sorted : StronglySorted before (ib_delivered s);
  ii_below : Forall (λ m, msg_sequence m < ib_expected s) (ib_delivered s);
  ii_cap : (length (ib_buffer s) <= MAX_REORDER_BUFFER)%nat;
  ii_seen : (length (ib_seen s) <= MAX_SEEN_IDS)%nat;
}.

Lemma seqZ_sorted ms e : msg_sequence <$> ms = seqZ e (Z.of_nat (length ms)) →
  StronglySorted before ms ∧ Forall (λ m, e <= msg_sequence m < e + Z.of_nat (length ms)) ms.
Proof.
  revert e. induction ms as [|m ms IH]; intros e H; [split; constructor|].
  rewrite fmap_cons in H. cbn [length] in *. rewrite seqZ_cons in H by lia. injection H as Hm Hms.
  replace (Z.pred (Z.of_nat (S (length ms)))) with (Z.of_nat (length ms)) in Hms by lia.
  apply IH in Hms as [Hs Hf]. split.
  - apply StronglySorted_cons. split; [|done].
    eapply Forall_impl; [exact Hf|]. unfold before. simpl. lia.
  - apply Forall_cons. split; [lia|]. eapply Forall_impl; [exact Hf|]. simpl. lia.
Qed.

(** Draining from [e] with everything older than [e] already delivered. *)
Lemma drain_and_mark_inv s seen first e b :
  inbox_inv s → filed b → (length seen <= MAX_SEEN_IDS)%nat →
  (∀ k, k ∈ keys b → e <= k) → ib_expected s <= e - Z.of_nat (length first) →
  msg_sequence <$> first = seqZ (e - Z.of_nat (length first)) (Z.of_nat (length first)) →
  (length b <= MAX_REORDER_BUFFER)%nat ∨
    (length b <= S MAX_REORDER_BUFFER)%nat ∧ is_Some (dget b e) →
  ∃ ms s', drain_and_mark s seen first e b = Some (first ++ ms, s') ∧ inbox_inv s' ∧
    ib_delivered s' = ib_delivered s ++ first ++ ms ∧ ib_seen s' = seen ∧
    ib_expected s' = e + Z.of_nat (length ms) ∧
    msg_sequence <$> ms = seqZ e (Z.of_nat (length ms)) ∧
    (∀ m, m ∈ ms → ∃ k t, dget b k = Some (m, t)) ∧
    (∀ k, dget (ib_buffer s') k =
       if decide (e <= k < e + Z.of_nat (length ms)) then None else dget b k).
Proof.
  intros I Hb Hseen Hge Hexp Hfirst Hcap. unfold drain_and_mark.
  destruct (drain_spec (length b) e b Hb ltac:(lia)) as
    (ms & b' & -> & Hseq & Hf & Hn & Hc & Hms & Hk).
  simpl. eexists ms, _. split; [done|]. split; [|done].
  assert (Hall : msg_sequence <$> (first ++ ms) =
    seqZ (e - Z.of_nat (length first)) (Z.of_nat (length (first ++ ms)))).
  { rewrite fmap_app, Hfirst, Hseq, length_app, Nat2Z.inj_add, seqZ_app by lia.
    do 2 f_equal. lia. }
  apply seqZ_sorted in Hall as [Hsort Hrange]. rewrite length_app in Hrange.
  split; simpl; try done.
  - intros k Hin. apply dget_is_Some in Hin as [x Hx]. rewrite Hk in Hx.
    case_decide as Hd; [done|]. assert (Hke : e <= k) by (apply Hge, dget_is_Some; eauto).
    destruct (decide (k = e + Z.of_nat (length ms))) as [->|]; [|lia].
    rewrite Hk, decide_False in Hn by lia. congruence.
  - apply StronglySorted_app_2; [|apply I|done]. intros x y Hx Hy.
    pose proof (ii_below s I) as Hbel. rewrite Forall_forall in *. unfold before.
    specialize (Hbel x Hx). specialize (Hrange y Hy). simpl in *. lia.
  - apply Forall_app. split.
    + eapply Forall_impl; [apply I|]. simpl. lia.
    + eapply Forall_impl; [exact Hrange|]. simpl. lia.
  - destruct Hcap as [Hcap|[Hcap [x Hx]]]; [lia|].
    assert (length ms ≠ 0%nat); [|lia]. intros H0. rewrite H0 in *.
    rewrite Z.add_0_r, Hk, decide_False, Hx in Hn by lia. done.
Qed.

Lemma remember_bound seen id : (length (remember seen id) <= MAX_SEEN_IDS)%nat.
Proof. unfold remember. rewrite length_drop. lia. Qed.

Lemma min_key_spec b k : min_key b = Some k → k ∈ keys b ∧ ∀ k', k' ∈ keys b → k <= k'.
Proof.
  unfold min_key. destruct (keys b) as [|k0 ks]; [done|]. intros [= <-].
  induction ks as [|k1 ks [IH1 IH2]]; [split; set_solver|]. cbn [foldr]. split.
  - destruct (Z.min_spec k1 (foldr Z.min k0 ks)) as [[_ ->]|[_ ->]]; set_solver.
  - intros k' Hk'. assert (k' = k1 ∨ k' ∈ k0 :: ks) as [->|Hin] by set_solver; [lia|].
    specialize (IH2 k' Hin). lia.
Qed.

Lemma min_key_Some b : b ≠ [] → is_Some (min_key b).
Proof. unfold min_key, keys. destruct b; [done|]. simpl. eauto. Qed.

Lemma filed_dset b m t : filed b → filed (dset b (msg_sequence m) (m, t)).
Proof.
  intros [Hwf Hs]. split; [by apply dict_wf_dset|]. intros k m' t'. rewrite dget_dset.
  case_decide as Hd; [intros [= <- <-]; done|apply Hs].
Qed.

(** The messages an inbox holds back. *)
Definition held (b : buffer) (m : Message) : Prop := ∃ k t, dget b k = Some (m, t).

(** What a call appends to the delivered stream. *)
Lemma accept_total s m now :
  inbox_inv s → ∃ v ms s', accept s m now = Some (v, ms, s') ∧ inbox_inv s' ∧
    ib_delivered s' = ib_delivered s ++ ms ∧ ib_expected s <= ib_expected s' ∧
    ∀ x, x ∈ ms ∨ held (ib_buffer s') x → x = m ∨ held (ib_buffer s) x.
Proof.
  intros I. unfold accept. destruct (decide (msg_id m ∈ ib_seen s)).
  { eexists _, _, _. split; [done|]. rewrite app_nil_r. split; [done|]. split; [done|].
    split; [lia|set_solver]. }
  pose proof (remember_bound (ib_seen s) (msg_id m)) as Hrem.
  destruct (Z.ltb_spec (msg_sequence m) (ib_expected s)).
  { eexists _, _, _. split; [done|]. rewrite app_nil_r. destruct I. split; [by split|].
    split; [done|]. split; [simpl; lia|set_solver]. }
  destruct (Z.eqb_spec (msg_sequence m) (ib_expected s)) as [Heq|Hne].
  - destruct (drain_and_mark_inv s (remember (ib_seen s) (msg_id m)) [m] (ib_expected s + 1)
      (ib_buffer s) I) as (ms & s' & -> & I' & Hd & _ & He & _ & Hms & Hk); [apply I|done| |simpl; lia| |left; apply I|].
    + intros k Hk. apply (ii_ahead s I) in Hk. lia.
    + simpl. rewrite seqZ_cons by lia. simpl. f_equal. lia.
    + simpl. eexists _, _, s'. split; [done|]. split; [done|]. split; [done|]. split; [lia|].
      intros x [[->|Hx]%elem_of_cons|(k & t & Hx)]; [auto|right; by apply Hms|].
      rewrite Hk in Hx. case_decide; [done|]. right. by exists k, t.
  - pose proof (filed_dset (ib_buffer s) m now (ii_filed s I)) as Hb.
    set (b := dset (ib_buffer s) (msg_sequence m) (m, now)) in *.
    assert (Hheld : ∀ x, held b x → x = m ∨ held (ib_buffer s) x).
    { intros x (k & t & Hx). subst b. rewrite dget_dset in Hx.
      case_decide; simplify_eq; [auto|]. right. by exists k, t. }
    assert (Hkeys : ∀ k, k ∈ keys b → ib_expected s < k).
    { intros k Hk. subst b. rewrite keys_dset in Hk. case_decide; [by apply (ii_ahead s I)|].
      apply elem_of_app in Hk as [Hk|Hk]; [by apply (ii_ahead s I)|].
      apply list_elem_of_singleton in Hk. lia. }
    assert (Hlen : (length b <= S (length (ib_buffer s)))%nat)
      by (subst b; rewrite length_dset; case_decide; lia).
    destruct (Nat.leb_spec MAX_REORDER_BUFFER (length (ib_buffer s))) as [Hfull|Hroom].
    + destruct (min_key_Some b) as [k Hk].
      { intros E. assert (Hm : msg_sequence m ∈ keys b) by
          (apply dget_is_Some; subst b; rewrite dget_dset, decide_True by done; eauto).
        rewrite E in Hm. by apply elem_of_nil in Hm. }
      rewrite Hk. destruct (min_key_spec b k Hk) as [Hin Hmin]. clear Hk. cbn [mbind option_bind].
      destruct (drain_and_mark_inv s (remember (ib_seen s) (msg_id m)) [] k b I Hb Hrem)
        as (ms & s' & -> & I' & Hd & _ & He & _ & Hms & Hk); [done| |done| |].
      * simpl. specialize (Hkeys k Hin). lia.
      * right. split; [pose proof (ii_cap s I); lia|by apply dget_is_Some].
      * simpl. eexists _, _, s'. split; [done|]. split; [done|]. split; [done|].
        split; [specialize (Hkeys k Hin); lia|]. intros x [Hx|(k' & t & Hx)]; apply Hheld; [by apply Hms|].
        rewrite Hk in Hx. case_decide; [done|]. by exists k', t.
    + eexists _, _, _. split; [done|]. rewrite app_nil_r. split.
      { destruct I. split; simpl; try done. lia. }
      split; [done|]. split; [simpl; lia|]. simpl. intros x [Hx|Hx]; [by apply elem_of_nil in Hx|auto].
Qed.

Lemma starvation_total s now :
  inbox_inv s → ∃ ms s', check_starvation s now = Some (ms, s') ∧ inbox_inv s' ∧
    ib_delivered s' = ib_delivered s ++ ms ∧ ib_expected s <= ib_expected s' ∧
    ∀ x, x ∈ ms ∨ held (ib_buffer s') x → held (ib_buffer s) x.
Proof.
  intros I. unfold check_starvation.
  destruct (min_key (ib_buffer s)) as [k|] eqn:Hk.
  2: { eexists _, _. split; [done|]. rewrite app_nil_r. split; [done|]. split; [done|].
    split; [lia|set_solver]. }
  destruct (min_key_spec _ k Hk) as [Hin Hmin]. pose proof (ii_ahead s I k Hin).
  apply dget_is_Some in Hin as [[m t] Hm]. rewrite Hm.
  destruct (now - t <? ib_window s).
  { eexists _, _. split; [done|]. rewrite app_nil_r. split; [done|]. split; [done|].
    split; [lia|set_solver]. }
  replace (Z.max (ib_expected s) k) with k by lia.
  destruct (drain_and_mark_inv s (ib_seen s) [] k (ib_buffer s) I)
    as (ms & s' & -> & I' & Hd & _ & He & _ & Hms & Hk0); [apply I|apply I|done|simpl; lia|done|left; apply I|].
  eexists _, s'. split; [done|]. split; [done|]. split; [done|]. split; [lia|].
  intros x [Hx|(k' & t' & Hx)]; [by apply Hms|]. rewrite Hk0 in Hx. case_decide; [done|].
  by exists k', t'.
Qed.

Lemma inbox_init_inv w : inbox_inv (init w).
Proof.
  split; simpl; try (by constructor); try lia.
  - split; [apply dict_wf_nil|done].
  - intros k Hk. by apply elem_of_nil in Hk.
Qed.

(** *** Runs *)

Inductive inbox_call := Accept (m : Message) (now : Z) | Starve (now : Z) | MarkRead.

(** One call: what it delivers, and the inbox after it. *)
Definition run_call (s : Inbox) (c : inbox_call) : option (list Message * Inbox) :=
  match c with
  | Accept m now => (λ x, (x.1.2, x.2)) <$> accept s m now
  | Starve now => check_starvation s now
  | MarkRead => Some ([], (mark_all_read s).2)
  end.

Fixpoint run_calls (s : Inbox) (cs : list inbox_call) : option (list Message * Inbox) :=
  match cs with
  | [] => Some ([], s)
  | c :: cs' =>
      '(ms, s1) ← run_call s c;
      '(ms', s2) ← run_calls s1 cs';
      Some (ms ++ ms', s2)
  end.

Definition presented (m : Message) (cs : list inbox_call) : Prop := ∃ now, Accept m now ∈ cs.

Lemma run_call_total s c :
  inbox_inv s → ∃ ms s', run_call s c = Some (ms, s') ∧ inbox_inv s' ∧
    ib_delivered s' = ib_delivered s ++ ms ∧
    ∀ x, x ∈ ms ∨ held (ib_buffer s') x → presented x [c] ∨ held (ib_buffer s) x.
Proof.
  intros I. destruct c as [m now|now|]; simpl.
  - destruct (accept_total s m now I) as (v & ms & s' & -> & ? & ? & _ & Hx). simpl.
    eexists _, _. split; [done|]. split; [done|]. split; [done|].
    intros x Hin. destruct (Hx x Hin) as [->|]; [|auto]. left. exists now. set_solver.
  - destruct (starvation_total s now I) as (ms & s' & -> & ? & ? & _ & Hx).
    eexists _, _. split; [done|]. split; [done|]. split; [done|]. auto.
  - eexists _, _. split; [done|]. rewrite app_nil_r. destruct I. split; [by split|].
    split; [done|]. intros x [Hx|Hx]; [by apply elem_of_nil in Hx|]. by right.
Qed.

Lemma run_calls_total cs : ∀ s,
  inbox_inv s → ∃ ms s', run_calls s cs = Some (ms, s') ∧ inbox_inv s' ∧
    ib_delivered s' = ib_delivered s ++ ms ∧
    ∀ x, x ∈ ms ∨ held (ib_buffer s') x → presented x cs ∨ held (ib_buffer s) x.
Proof.
  induction cs as [|c cs IH]; intros s I.
  - exists [], s. rewrite app_nil_r. do 3 (split; [done|]). set_solver.
  - simpl. destruct (run_call_total s c I) as (ms & s1 & -> & I1 & E1 & H1). simpl.
    destruct (IH s1 I1) as (ms' & s2 & -> & I2 & E2 & H2). simpl.
    eexists _, _. split; [done|]. split; [done|]. split; [by rewrite E2, E1, <- app_assoc|].
    assert (Hp : ∀ x, presented x [c] → presented x (c :: cs)).
    { intros x [now Hx]. exists now. apply list_elem_of_singleton in Hx as ->. set_solver. }
    assert (Hq : ∀ x, presented x cs → presented x (c :: cs))
      by (intros x [now Hx]; exists now; set_solver).
    intros x [[Hx|Hx]%elem_of_app|Hx].
    + destruct (H1 x (or_introl Hx)); auto.
    + destruct (H2 x (or_introl Hx)) as [|Hh]; [auto|]. destruct (H1 x (or_intror Hh)); auto.
    + destruct (H2 x (or_intror Hx)) as [|Hh]; [auto|]. destruct (H1 x (or_intror Hh)); auto.
Qed.

(** C24: The inbox delivers in order and never twice: whatever messages
    arrive, duplicated, shuffled, with gaps or with conflicting numbers,
    every call returns; the stream handed to the application has strictly
    increasing sequence numbers and consists of messages that arrived; the
    reorder buffer never exceeds 100 messages nor the duplicate cache 4096
    ids. *)
Theorem inbox_delivers_in_order window cs :
  ∃ ms s, run_calls (init window) cs = Some (ms, s) ∧
    StronglySorted before ms ∧ ib_delivered s = ms ∧ Forall (λ m, presented m cs) ms ∧
    (length (ib_buffer s) <= 100)%nat ∧ (length (ib_seen s) <= 4096)%nat.
Proof.
  destruct (run_calls_total cs (init window) (inbox_init_inv window)) as (ms & s & Hr & I & Hd & Hx).
  simpl in Hd. exists ms, s. split; [done|]. rewrite <- Hd. split; [apply I|]. split; [done|].
  split; [|split; apply I]. apply Forall_forall. intros m Hm.
  destruct (Hx m) as [|(k & t & Hk)]; [left; by rewrite <- Hd|done|done].
Qed.

(** *** Reassembly *)

(** After the sequence numbers [R] arrived: the stream is the maximal prefix
    of [1..] that arrived, the buffer the rest. *)
Record gathered (R : list Z) (ids : list string) (s : Inbox) : Prop := {
  ga_inv : inbox_inv s;
  ga_stream : msg_sequence <$> ib_delivered s = seqZ 1 (ib_expected s - 1);
  ga_pos : 1 <= ib_expected s;
  ga_buffer : ∀ k, k ∈ keys (ib_buffer s) ↔ k ∈ R ∧ ib_expected s <= k;
  ga_prefix : ∀ k, 1 <= k < ib_expected s → k ∈ R;
  ga_seen : ib_seen s ⊆ ids;
}.

Lemma remember_subseteq seen id ids :
  seen ⊆ ids → remember seen id ⊆ ids ++ [id].
Proof.
  intros H x Hx. unfold remember in Hx.
  assert (Hin : x ∈ filter (λ y, y ≠ id) seen ++ [id]).
  { rewrite <- (take_drop (length (filter (λ y, y ≠ id) seen ++ [id]) - MAX_SEEN_IDS) (_ ++ [id])).
    apply elem_of_app. auto. }
  apply elem_of_app in Hin as [Hin|Hin]; [|set_solver].
  apply list_elem_of_filter in Hin as [_ Hin]. set_solver.
Qed.

Lemma accept_gathers R ids s m now :
  gathered R ids s → msg_sequence m ∉ R → 1 <= msg_sequence m → msg_id m ∉ ids →
  (length (ib_buffer s) < MAX_REORDER_BUFFER)%nat →
  ∃ v ms s', accept s m now = Some (v, ms, s') ∧
    gathered (R ++ [msg_sequence m]) (ids ++ [msg_id m]) s'.
Proof.
  intros G Hseq Hpos Hid Hroom. pose proof (ga_inv _ _ _ G) as I.
  pose proof (remember_subseteq (ib_seen s) (msg_id m) ids (ga_seen _ _ _ G)) as Hseen.
  pose proof (remember_bound (ib_seen s) (msg_id m)) as Hrem.
  unfold accept. rewrite decide_False by (intros ?; by apply Hid, (ga_seen _ _ _ G)).
  destruct (Z.ltb_spec (msg_sequence m) (ib_expected s)) as [Hlt|Hge].
  { exfalso. apply Hseq, (ga_prefix _ _ _ G). lia. }
  destruct (Z.eqb_spec (msg_sequence m) (ib_expected s)) as [Heq|Hne].
  - destruct (drain_and_mark_inv s (remember (ib_seen s) (msg_id m)) [m] (ib_expected s + 1)
      (ib_buffer s) I) as (ms & s' & -> & I' & Hd & Es & He & Hs & Hms & Hk);
      [apply I|done| |simpl; lia| |left; apply I|].
    + intros k Hk. apply (ii_ahead s I) in Hk. lia.
    + simpl. rewrite seqZ_cons by lia. simpl. f_equal. lia.
    + simpl. eexists _, _, s'. split; [done|].
      assert (Hkeys : ∀ k, k ∈ keys (ib_buffer s') ↔
        k ∈ keys (ib_buffer s) ∧ ib_expected s' <= k).
      { intros k. rewrite <- !dget_is_Some, Hk, He. case_decide as Hr.
        - split; [intros [? ?]; done|lia].
        - split; [|tauto]. intros Hin. split; [done|].
          apply dget_is_Some, (ii_ahead s I) in Hin. lia. }
      assert (Hdel : ∀ k, ib_expected s + 1 <= k < ib_expected s' → k ∈ keys (ib_buffer s)).
      { intros k Hr. assert (Hin : k ∈ msg_sequence <$> ms)
          by (rewrite Hs; apply elem_of_seqZ; lia).
        apply list_elem_of_fmap in Hin as (x & -> & Hx). apply Hms in Hx as (k' & t & Hx).
        apply dget_is_Some. rewrite (proj2 (ii_filed s I) _ _ _ Hx). eauto. }
      split; [done| |pose proof (ga_pos _ _ _ G); lia|..].
      * rewrite Hd, !fmap_app, (ga_stream _ _ _ G), He, Hs.
        change (msg_sequence <$> [m]) with [msg_sequence m]. rewrite Heq.
        replace (ib_expected s + 1 + Z.of_nat (length ms) - 1)
          with (ib_expected s - 1 + (1 + Z.of_nat (length ms))) by lia.
        pose proof (ga_pos _ _ _ G). rewrite seqZ_app by lia. f_equal.
        rewrite seqZ_app by lia. replace (1 + (ib_expected s - 1)) with (ib_expected s) by lia.
        done.
      * intros k. rewrite Hkeys, (ga_buffer _ _ _ G), elem_of_app, list_elem_of_singleton.
        split; [intuition lia|]. intros [[Hin|Hin] Hle]; [intuition lia|lia].
      * intros k Hr. rewrite elem_of_app, list_elem_of_singleton.
        destruct (decide (k < ib_expected s)); [left; apply (ga_prefix _ _ _ G); lia|].
        destruct (decide (k = ib_expected s)) as [->|]; [auto|]. left.
        apply (ga_buffer _ _ _ G), Hdel. lia.
      * by rewrite Es.
  - destruct (Nat.leb_spec MAX_REORDER_BUFFER (length (ib_buffer s))) as [|_]; [lia|].
    destruct (accept_total s m now I) as (v & ms & s' & Ha & I' & _).
    unfold accept in Ha. rewrite decide_False in Ha by (intros ?; by apply Hid, (ga_seen _ _ _ G)).
    destruct (Z.ltb_spec (msg_sequence m) (ib_expected s)); [lia|].
    destruct (Z.eqb_spec (msg_sequence m) (ib_expected s)); [lia|].
    destruct (Nat.leb_spec MAX_REORDER_BUFFER (length (ib_buffer s))); [lia|].
    injection Ha as <- <- <-. eexists _, _, _. split; [done|].
    split; simpl; [done|apply G|apply G| | |done].
    + intros k. rewrite keys_dset, elem_of_app, list_elem_of_singleton.
      pose proof (ga_buffer _ _ _ G k) as Hb. case_decide as Hin.
      * exfalso. apply (ga_buffer _ _ _ G) in Hin as [? _]. done.
      * rewrite elem_of_app, list_elem_of_singleton, Hb. split; [intuition lia|].
        intros [[?|?] ?]; [intuition|auto].
    + intros k Hr. apply elem_of_app. left. by apply (ga_prefix _ _ _ G).
Qed.
Lemma gathered_buffer_length R ids s :
  gathered R ids s → (length (ib_buffer s) <= length R)%nat.
Proof.
  intros G. transitivity (length (keys (ib_buffer s))); [unfold keys; by rewrite length_fmap|].
  apply submseteq_length, NoDup_submseteq; [apply (ga_inv _ _ _ G)|].
  intros k Hk. by apply (ga_buffer _ _ _ G) in Hk as [? _].
Qed.

Definition accept_all (ms : list Message) : list inbox_call := (λ m, Accept m 0) <$> ms.

Lemma accept_all_gathers ms : ∀ R ids s,
  gathered R ids s → NoDup (R ++ (msg_sequence <$> ms)) → NoDup (ids ++ (msg_id <$> ms)) →
  Forall (λ m, 1 <= msg_sequence m) ms → (length R + length ms <= MAX_REORDER_BUFFER)%nat →
  ∃ out s', run_calls s (accept_all ms) = Some (out, s') ∧
    gathered (R ++ (msg_sequence <$> ms)) (ids ++ (msg_id <$> ms)) s'.
Proof.
  induction ms as [|m ms IH]; intros R ids s G HR Hids Hpos Hlen.
  - exists [], s. by rewrite !app_nil_r.
  - apply Forall_cons in Hpos as [Hm Hpos]. simpl in Hlen. rewrite fmap_cons in HR. rewrite fmap_cons in Hids.
    assert (Hs : msg_sequence m ∉ R) by (apply NoDup_app in HR as (_ & HR & _); set_solver).
    assert (Hi : msg_id m ∉ ids) by (apply NoDup_app in Hids as (_ & Hids & _); set_solver).
    pose proof (gathered_buffer_length R ids s G).
    destruct (accept_gathers R ids s m 0 G Hs Hm Hi ltac:(lia)) as (v & out1 & s1 & E1 & G1).
    destruct (IH _ _ s1 G1) as (out2 & s2 & E2 & G2); [by rewrite <- app_assoc..|done|
      rewrite length_app; simpl; lia|].
    exists (out1 ++ out2), s2. unfold accept_all in *. rewrite fmap_cons. cbn [run_calls run_call].
    rewrite E1. cbn [fmap option_fmap option_map fst snd mbind option_bind]. rewrite E2.
    split; [done|]. by rewrite <- !app_assoc in G2.
Qed.

(** A shuffled stream is reassembled: when messages with distinct ids
    whose sequence numbers are 1..n in any order arrive, with n at most
    100, then after the last one everything was delivered, in sequence
    order, and nothing is held back. *)
Theorem inbox_reassembles window ms :
  msg_sequence <$> ms ≡ₚ seqZ 1 (Z.of_nat (length ms)) → NoDup (msg_id <$> ms) →
  (length ms <= 100)%nat →
  ∃ out s, run_calls (init window) (accept_all ms) = Some (out, s) ∧
    msg_sequence <$> ib_delivered s = seqZ 1 (Z.of_nat (length ms)) ∧ ib_buffer s = [].
Proof.
  intros Hperm Hids Hlen.
  assert (G0 : gathered [] [] (init window)).
  { split; simpl; try done; [apply inbox_init_inv| |lia].
    intros k. split; [intros Hk; by apply elem_of_nil in Hk|intros [Hk _]; by apply elem_of_nil in Hk]. }
  destruct (accept_all_gathers ms [] [] (init window) G0) as (out & s & Hr & G); [..|].
  - simpl. rewrite Hperm. apply NoDup_seqZ.
  - done.
  - apply Forall_forall. intros m Hm. assert (Hin : msg_sequence m ∈ seqZ 1 (Z.of_nat (length ms)))
      by (rewrite <- Hperm; apply list_elem_of_fmap; eauto).
    apply elem_of_seqZ in Hin. lia.
  - simpl. unfold MAX_REORDER_BUFFER. lia.
  - simpl in G.
    assert (HR : ∀ k, k ∈ msg_sequence <$> ms ↔ 1 <= k < 1 + Z.of_nat (length ms))
      by (intros k; by rewrite Hperm, elem_of_seqZ).
    pose proof (ga_pos _ _ _ G) as Hpos.
    assert (He : ib_expected s = 1 + Z.of_nat (length ms)).
    { destruct (Z.lt_trichotomy (ib_expected s) (1 + Z.of_nat (length ms))) as [Hlt|[Heq|Hgt]];
        [exfalso|done|exfalso].
      - assert (Hin : ib_expected s ∈ keys (ib_buffer s))
          by (apply (ga_buffer _ _ _ G); rewrite HR; lia).
        apply (ii_ahead s (ga_inv _ _ _ G)) in Hin. lia.
      - assert (Hin : ib_expected s - 1 ∈ msg_sequence <$> ms) by (apply (ga_prefix _ _ _ G); lia).
        apply HR in Hin. lia. }
    exists out, s. split; [done|]. split.
    + rewrite (ga_stream _ _ _ G), He. f_equal. lia.
    + destruct (ib_buffer s) as [|[k x] b] eqn:Eb; [done|]. exfalso.
      assert (Hin : k ∈ keys (ib_buffer s)) by (rewrite Eb; unfold keys; set_solver).
      apply (ga_buffer _ _ _ G) in Hin as [Hin%HR Hle]. lia.
Qed.

(** Concrete messages: [n] is the sequence number. *)
Definition demo_message (id : string) (n : Z) : Message :=
  mkMessage id "conv_1" INCOMING [97] [98] [104; 105] n DELIVERED 0 None None None None.

Lemma inbox_reassembles_witness :
  ∃ out s, run_calls (init 5) (accept_all [demo_message "c" 3; demo_message "a" 1; demo_message "b" 2])
             = Some (out, s) ∧
    msg_sequence <$> ib_delivered s = [1; 2; 3].
Proof.
  destruct (inbox_reassembles 5 [demo_message "c" 3; demo_message "a" 1; demo_message "b" 2])
    as (out & s & Hr & Hd & _).
  - change ([3; 1; 2] ≡ₚ [1; 2; 3]). apply (bool_decide_eq_true_1 _). reflexivity.
  - apply (bool_decide_eq_true_1 _). reflexivity.
  - simpl. lia.
  - exists out, s. split; [exact Hr|]. rewrite Hd. reflexivity.
Defined.

(** An inbox that holds message 3 back because 1 and 2 are missing. *)
Definition waiting : Inbox :=
  default (init 5) (snd <$> run_calls (init 5) [Accept (demo_message "c" 3) 0]).

(** The read cursor runs ahead of what was delivered: with message 3
    buffered and messages 1 and 2 missing, nothing was handed to the
    application, yet [mark_all_read] reports everything up to 3 as read. *)
Theorem read_cursor_covers_undelivered :
  run_calls (init 5) [Accept (demo_message "c" 3) 0] = Some ([], waiting) ∧
  ib_delivered waiting = [] ∧ (mark_all_read waiting).1 = 3.
Proof. split; [reflexivity|]. split; reflexivity. Qed.
End InboxProofs.

(** ** The message lifecycle *)

Lemma post_init_status m st err now :
  message_ok m → (msg_direction m = INCOMING → st = READ) →
  post_init (set_status m st err now) = Ok (set_status m st err now).
Proof.
  unfold message_ok, post_init. intros H Hst. simpl.
  repeat (apply bind_Ok in H as (? & Hx & H); try rewrite Hx; clear Hx; simpl).
  destruct (bool_decide (msg_direction m = INCOMING)) eqn:Hd; [|done]. breflect.
  by rewrite (Hst Hd).
Qed.

(** On a constructed message [with_status] fails exactly on an illegal move. *)
Lemma with_status_ok m st err now :
  message_ok m →
  with_status m st err now =
    if decide (st ∈ transitions_for (msg_direction m) (msg_status m))
    then Ok (set_status m st err now) else Err MessageValidationError.
Proof.
  intros H. unfold with_status, guard_or. case_decide as Hd.
  - rewrite bool_decide_true by done. cbn [mbind result_bind]. apply post_init_status; [done|].
    intros Hi. rewrite Hi in Hd. simpl in Hd. destruct (msg_status m); set_solver.
  - by rewrite bool_decide_false.
Qed.

Lemma set_status_ok m st err now :
  message_ok m → st ∈ transitions_for (msg_direction m) (msg_status m) →
  message_ok (set_status m st err now).
Proof.
  intros H Hst. pose proof (with_status_ok m st err now H) as Hw.
  rewrite decide_True in Hw by done. unfold with_status, guard_or in Hw.
  rewrite bool_decide_true in Hw by done. exact Hw.
Qed.

Lemma queued_is_outgoing m : message_ok m → msg_status m = QUEUED → msg_direction m = OUTGOING.
Proof.
  unfold message_ok, post_init. intros H Hq. repeat (apply bind_Ok in H as (? & ? & H)).
  match goal with H : guard_or (negb (_ && _)) _ = Ok _ |- _ => apply guard_or_Ok in H as Hi end.
  rewrite Hq in Hi. by destruct (msg_direction m).
Qed.

(** One legal step of an outgoing message. *)
Definition edge (a b : MessageStatus) : Prop := b ∈ outgoing_transitions a.

(** The rank never decreases except by a re-queue, and what was delivered
    stays delivered. *)
Definition settled (st : MessageStatus) : Prop := st = DELIVERED ∨ st = READ ∨ st = FAILED.

Lemma settled_stays a b : settled a → rtc edge a b → settled b ∧ (a ≠ b → a = DELIVERED ∧ b = READ).
Proof.
  intros Ha H. unfold settled in *. induction H as [a|a b c Hab _ IH]; [done|].
  unfold edge in Hab. destruct Ha as [-> | [-> | ->]]; simpl in Hab; [|by apply elem_of_nil in Hab..].
  apply list_elem_of_singleton in Hab as ->. destruct IH as [IH1 IH2]; [auto|]. split; [done|].
  intros _. split; [done|]. destruct (decide (READ = c)) as [<-|Hne]; [done|].
  by destruct (IH2 Hne).
Qed.

Module OutboxProofs.
Import Outbox.

Record outbox_inv (s : Outbox) : Prop := {
  oi_wf : dict_wf (ob_messages s);
  oi_msg : ∀ id m, dget (ob_messages s) id = Some m →
    msg_id m = id ∧ message_ok m ∧ msg_direction m = OUTGOING;
  oi_nodup : NoDup (ob_queued s);
  oi_slot : ∀ id, id ∈ ob_queued s →
    ∃ m, dget (ob_messages s) id = Some m ∧ (msg_status m = QUEUED ∨ msg_status m = FAILED);
  oi_queued : ∀ id m, dget (ob_messages s) id = Some m → msg_status m = QUEUED →
    id ∈ ob_queued s;
}.

(** Replacing a stored message by its next status, with queue [q]. *)
Lemma put_inv s m st err now q w d :
  outbox_inv s → dget (ob_messages s) (msg_id m) = Some m →
  st ∈ outgoing_transitions (msg_status m) → NoDup q →
  (∀ id, id ∈ q → id = msg_id m ∧ (st = QUEUED ∨ st = FAILED) ∨
                  id ≠ msg_id m ∧ id ∈ ob_queued s) →
  (st = QUEUED → msg_id m ∈ q) →
  (∀ id m0, id ≠ msg_id m → dget (ob_messages s) id = Some m0 → msg_status m0 = QUEUED → id ∈ q) →
  outbox_inv (mkOutbox q (dset (ob_messages s) (msg_id m) (set_status m st err now)) w d).
Proof.
  intros I Hm Hst Hnd Hq Hself Hrest. destruct (oi_msg s I _ _ Hm) as (_ & Hok & Hout).
  split; simpl; [apply dict_wf_dset, I| |done| |].
  - intros id m0. rewrite dget_dset. case_decide as Hd; [|apply I]. intros [= <-].
    split; [done|]. split; [|done]. apply set_status_ok; [done|]. by rewrite Hout.
  - intros id Hin. rewrite dget_dset. destruct (Hq id Hin) as [[-> Hs]|[Hne Hin']].
    + rewrite decide_True by done. eexists. split; [done|]. done.
    + rewrite decide_False by done. by apply I.
  - intros id m0. rewrite dget_dset. case_decide as Hd; [|by eauto].
    intros [= <-] Hs. simpl in Hs. subst id. auto.
Qed.

(** Same messages and queue, other bookkeeping. *)
Lemma bookkeeping_inv s w d :
  outbox_inv s → outbox_inv (mkOutbox (ob_queued s) (ob_messages s) w d).
Proof. intros []. by split. Qed.

Lemma with_status_out s id m st err now :
  outbox_inv s → dget (ob_messages s) id = Some m →
  with_status m st err now =
    if decide (st ∈ outgoing_transitions (msg_status m))
    then Ok (set_status m st err now) else Err MessageValidationError.
Proof.
  intros I Hm. destruct (oi_msg s I _ _ Hm) as (_ & Hok & Hout).
  rewrite with_status_ok by done. by rewrite Hout.
Qed.

(** How a call may change the stored messages: none is lost, statuses follow
    the lifecycle. *)
Definition evolves (s s' : Outbox) : Prop :=
  ∀ id m, dget (ob_messages s) id = Some m →
    ∃ m', dget (ob_messages s') id = Some m' ∧ rtc edge (msg_status m) (msg_status m') ∧
      msg_sequence m' = msg_sequence m ∧ msg_text m' = msg_text m.

Lemma evolves_same s s' : ob_messages s' = ob_messages s → evolves s s'.
Proof. intros E id m Hm. rewrite E. exists m. split; [done|]. split; [apply rtc_refl|done]. Qed.

Lemma evolves_trans s1 s2 s3 : evolves s1 s2 → evolves s2 s3 → evolves s1 s3.
Proof.
  intros H1 H2 id m Hm. destruct (H1 id m Hm) as (m' & Hm' & ? & E1 & E2).
  destruct (H2 id m' Hm') as (m'' & ? & ? & E3 & E4). exists m''. split; [done|].
  split; [by etrans|]. split; congruence.
Qed.

Lemma evolves_put s m st err now q w d :
  dget (ob_messages s) (msg_id m) = Some m → st ∈ outgoing_transitions (msg_status m) →
  evolves s (mkOutbox q (dset (ob_messages s) (msg_id m) (set_status m st err now)) w d).
Proof.
  intros Hm Hst id m0 Hm0. simpl. rewrite dget_dset. case_decide as Hd.
  - subst id. rewrite Hm in Hm0. injection Hm0 as <-. eexists. split; [done|].
    split; [by apply rtc_once|done].
  - exists m0. split; [done|]. split; [apply rtc_refl|done].
Qed.

(** A status change that leaves the queue alone. *)
Lemma transition_keeps s id st err now :
  outbox_inv s → st ≠ QUEUED → (∀ m, dget (ob_messages s) id = Some m → st ≠ FAILED →
    st ∈ outgoing_transitions (msg_status m) → msg_status m ≠ QUEUED) →
  outbox_inv (transition s id st err now).2 ∧ evolves s (transition s id st err now).2 ∧
  ob_queued (transition s id st err now).2 = ob_queued s.
Proof.
  intros I Hst Hq. unfold transition.
  destruct (dget (ob_messages s) id) as [m|] eqn:Hm; [|by split; [|split; [apply evolves_same|]]].
  destruct (is_terminal m); [by split; [|split; [apply evolves_same|]]|].
  rewrite (with_status_out s id m st err now I Hm). destruct (oi_msg s I _ _ Hm) as (<- & _ & _).
  case_decide as Hd; [|by split; [|split; [apply evolves_same|]]]. simpl.
  split; [|split; [exact (evolves_put s m st err now _ _ _ Hm Hd)|done]].
  apply (put_inv s m st err now); [done|done|done|apply I| |done|].
  - intros id Hin. destruct (decide (id = msg_id m)) as [->|]; [left|by right]. split; [done|].
    destruct (oi_slot s I _ Hin) as (m1 & Hm1 & Hs). rewrite Hm in Hm1. injection Hm1 as <-.
    destruct (decide (st = FAILED)); [auto|]. exfalso. destruct Hs as [Hs|Hs].
    + by apply (Hq m).
    + rewrite Hs in Hd. simpl in Hd. by apply elem_of_nil in Hd.
  - intros id m0 _ Hm0 Hs. by apply (oi_queued s I id m0).
Qed.
Definition keeps (s s' : Outbox) : Prop := outbox_inv s' ∧ evolves s s'.

Lemma keeps_refl s : outbox_inv s → keeps s s.
Proof. intros I. split; [done|]. by apply evolves_same. Qed.

Lemma enqueue_keeps s m : outbox_inv s → message_ok m → keeps s (enqueue s m).2.
Proof.
  intros I Hok. unfold enqueue. case_match eqn:H1; [|by apply keeps_refl].
  case_match eqn:H2; [|by apply keeps_refl].
  apply guard_or_Ok in H1, H2. breflect. apply dmem_false in H1. simpl.
  pose proof (queued_is_outgoing m Hok H2) as Hout.
  assert (Hnew : msg_id m ∉ ob_queued s).
  { intros Hin. destruct (oi_slot s I _ Hin) as (m' & Hm' & _). congruence. }
  split; [split; simpl|].
  - apply dict_wf_dset, I.
  - intros id m0. rewrite dget_dset. case_decide; [intros [= <-]; auto|apply I].
  - apply NoDup_app. split; [apply I|]. split; [set_solver|apply NoDup_singleton].
  - intros id Hin. rewrite dget_dset. case_decide as Hd; [eauto|].
    apply elem_of_app in Hin as [Hin|Hin]; [by apply I|]. set_solver.
  - intros id m0. rewrite dget_dset. case_decide as Hd; intros Hm0 Hs; apply elem_of_app.
    + right. set_solver.
    + left. by apply (oi_queued s I id m0).
  - intros id m0 Hm0. simpl. rewrite dget_dset. rewrite decide_False by congruence.
    exists m0. split; [done|]. split; [apply rtc_refl|done].
Qed.

(** [next_queued] finds the first slot that holds a QUEUED message. *)
Lemma next_queued_from_spec s queue now : ∀ stale,
  outbox_inv s → ob_queued s = stale ++ queue →
  (∀ id m, id ∈ stale → dget (ob_messages s) id = Some m → msg_status m ≠ QUEUED) →
  let '(r, s') := next_queued_from s queue now in
  keeps s s' ∧
  match r with
  | Ok None => ∀ id m, dget (ob_messages s) id = Some m → msg_status m ≠ QUEUED
  | Ok (Some m') => ∃ m skipped rest, queue = skipped ++ msg_id m :: rest ∧
      dget (ob_messages s) (msg_id m) = Some m ∧ msg_status m = QUEUED ∧
      m' = set_status m SENDING None now ∧ ob_queued s' = rest ∧
      dget (ob_messages s') (msg_id m) = Some m' ∧
      (∀ id m0, id ∈ skipped → dget (ob_messages s) id = Some m0 → msg_status m0 ≠ QUEUED)
  | Err _ => False
  end.
Proof.
  induction queue as [|id queue IH]; intros stale I Hq Hst; simpl.
  - rewrite app_nil_r in Hq.
    assert (Hno : ∀ id m, dget (ob_messages s) id = Some m → msg_status m ≠ QUEUED).
    { intros id m Hm Hs. pose proof (oi_queued s I id m Hm Hs) as Hin. rewrite Hq in Hin.
      by apply (Hst id m). }
    split; [|done]. split; [|by apply evolves_same]. destruct I. split; simpl; try done.
    + constructor.
    + intros id Hin. by apply elem_of_nil in Hin.
    + intros id m Hm Hs. by destruct (Hno id m).
  - destruct (oi_slot s I id) as (m & Hm & Hstat); [rewrite Hq; set_solver|].
    destruct (oi_msg s I id m Hm) as (Hid & Hok & Hout). rewrite Hm.
    pose proof (oi_nodup s I) as Hnd. rewrite Hq in Hnd.
    apply NoDup_app in Hnd as (Hnd1 & Hdis & Hnd2). apply NoDup_cons in Hnd2 as [Hnot Hnd2].
    destruct (decide (msg_status m = QUEUED)) as [Hs|Hs].
    + rewrite (with_status_out s id m SENDING None now I Hm), Hs.
      rewrite decide_True by (simpl; set_solver). subst id.
      assert (Hedge : SENDING ∈ outgoing_transitions (msg_status m)) by (rewrite Hs; set_solver).
      split; [split|].
      * apply (put_inv s m SENDING None now); [done|done|done|done| |done|].
        -- intros id Hin. right. split; [by intros ->|]. rewrite Hq. set_solver.
        -- intros id m0 Hne Hm0 Hs0. pose proof (oi_queued s I id m0 Hm0 Hs0) as Hin.
           rewrite Hq in Hin. apply elem_of_app in Hin as [Hin|Hin]; [by destruct (Hst id m0)|].
           set_solver.
      * exact (evolves_put s m SENDING None now _ _ _ Hm Hedge).
      * exists m, [], queue. do 5 (split; [done|]). split.
        -- simpl. by rewrite dget_dset, decide_True.
        -- intros id m0 Hin. by apply elem_of_nil in Hin.
    + assert (Hst' : ∀ id' m0, id' ∈ stale ++ [id] → dget (ob_messages s) id' = Some m0 →
        msg_status m0 ≠ QUEUED).
      { intros id' m0 Hin Hm0. apply elem_of_app in Hin as [Hin|Hin]; [by eapply Hst|].
        apply list_elem_of_singleton in Hin as ->. congruence. }
      specialize (IH (stale ++ [id]) I). rewrite <- app_assoc in IH. specialize (IH Hq Hst').
      destruct (next_queued_from s queue now) as [[[m'|]|e] s']; [|done|done].
      destruct IH as [Hk (m0 & skipped & rest & -> & H1 & H2 & H3 & H4 & H5 & H6)].
      split; [done|]. exists m0, (id :: skipped), rest. do 6 (split; [done|]).
      intros id' m1 [->|Hin]%elem_of_cons Hm1; [congruence|by eapply H6].
Qed.

Lemma next_queued_keeps s now : outbox_inv s → keeps s (next_queued s now).2.
Proof.
  intros I. pose proof (next_queued_from_spec s (ob_queued s) now [] I eq_refl) as H.
  unfold next_queued. destruct (next_queued_from _ _ _). apply H. intros id m Hin.
  by apply elem_of_nil in Hin.
Qed.

(** Rolling an in-flight message back to the head of the queue. *)
Lemma requeue_head_keeps s m now w d :
  outbox_inv s → dget (ob_messages s) (msg_id m) = Some m →
  msg_status m = SENDING ∨ msg_status m = SENT →
  keeps s (mkOutbox (msg_id m :: ob_queued s)
             (dset (ob_messages s) (msg_id m) (set_status m QUEUED None now)) w d).
Proof.
  intros I Hm Hs.
  assert (Hedge : QUEUED ∈ outgoing_transitions (msg_status m))
    by (destruct Hs as [-> | ->]; set_solver).
  assert (Hnot : msg_id m ∉ ob_queued s).
  { intros Hin. destruct (oi_slot s I _ Hin) as (m' & Hm' & Hs'). rewrite Hm in Hm'.
    injection Hm' as <-. destruct Hs, Hs'; congruence. }
  split; [|by apply evolves_put].
  apply put_inv; [done|done|done| | |intros _; set_solver|].
  - apply NoDup_cons. split; [done|apply I].
  - intros id [->|Hin]%elem_of_cons; [by auto|]. right. split; [by intros ->|done].
  - intros id m0 _ Hm0 Hs0. apply elem_of_cons. right. by apply (oi_queued s I id m0).
Qed.

Lemma to_queued_keeps s id now : outbox_inv s → keeps s (to_queued s id now).2.
Proof.
  intros I. unfold to_queued. destruct (dget (ob_messages s) id) as [m|] eqn:Hm; [|by apply keeps_refl].
  case_match eqn:Hs; [|by apply keeps_refl]. breflect.
  rewrite (with_status_out s id m QUEUED None now I Hm).
  destruct (oi_msg s I _ _ Hm) as (<- & _ & _).
  case_decide; [|by apply keeps_refl]. simpl.
  apply (requeue_head_keeps s m now); [done|done|set_solver].
Qed.

(** [restore] with an up-to-date copy. *)
Lemma restore_keeps s m now :
  outbox_inv s → dget (ob_messages s) (msg_id m) = Some m → keeps s (restore s m now).2.
Proof.
  intros I Hm. unfold restore. case_match eqn:Hs; [|by apply keeps_refl].
  apply guard_or_Ok in Hs. breflect.
  rewrite (with_status_out s _ m QUEUED None now I Hm).
  case_decide; [|by apply keeps_refl]. simpl. apply (requeue_head_keeps s m now); auto.
Qed.

Lemma mark_sent_keeps s id now : outbox_inv s → keeps s (mark_sent s id now).2.
Proof.
  intros I. unfold mark_sent. destruct (dget (ob_messages s) id) as [m|] eqn:Hm; [|by apply keeps_refl].
  case_decide as Hs; [|by apply keeps_refl].
  destruct (transition_keeps s id SENT None now I) as (? & ? & _); [done| |by split].
  intros m0 Hm0 _ _. rewrite Hm in Hm0. injection Hm0 as <-. congruence.
Qed.

Lemma mark_failed_keeps s id err now : outbox_inv s → keeps s (mark_failed s id err now).2.
Proof.
  intros I. unfold mark_failed.
  destruct (transition_keeps s id FAILED (Some err) now I) as (I' & Ev & _); [done|done|].
  destruct (transition _ _ _ _ _) as [[m|] s']; [|by split]. simpl in *.
  split; [by apply bookkeeping_inv|]. eapply evolves_trans; [exact Ev|]. by apply evolves_same.
Qed.

Lemma mark_delivered_keeps s id now :
  outbox_inv s → keeps s (mark_delivered s id now).2 ∧ is_ok (mark_delivered s id now).1 = true.
Proof.
  intros I. unfold mark_delivered.
  destruct (dget (ob_messages s) id) as [m|] eqn:Hm; [|split; [by apply keeps_refl|done]].
  case_match; [split; [by apply keeps_refl|done]|].
  case_match; [split; [by apply keeps_refl|done]|].
  assert (H1 : ∃ s1, (if decide (msg_status m = SENDING)
      then m' ← with_status m SENT None now; Ok (put s m') else Ok s) = Ok s1 ∧
      outbox_inv s1 ∧ evolves s s1).
  { destruct (decide (msg_status m = SENDING)) as [Hs|Hs];
      [|exists s; split; [done|]; split; [done|by apply evolves_same]].
    rewrite (with_status_out s id m SENT None now I Hm), Hs.
    rewrite decide_True by (simpl; set_solver). simpl. eexists. split; [done|].
    assert (Hedge : SENT ∈ outgoing_transitions (msg_status m)) by (rewrite Hs; set_solver).
    destruct (oi_msg s I _ _ Hm) as (<- & _ & _).
    split; [|exact (evolves_put s m SENT None now _ _ _ Hm Hedge)].
    apply (put_inv s m SENT None now); [done|done|done|apply I| |done|].
    - intros id Hin. right. split; [|done]. intros ->.
      destruct (oi_slot s I _ Hin) as (m1 & Hm1 & Hs1). rewrite Hm in Hm1. injection Hm1 as <-.
      destruct Hs1; congruence.
    - intros id m0 _ Hm0 Hs0. by apply (oi_queued s I id m0). }
  destruct H1 as (s1 & -> & I1 & Ev1).
  destruct (transition_keeps s1 id DELIVERED None now I1) as (I2 & Ev2 & _); [done| |].
  { intros m0 _ _ Hd. destruct (msg_status m0); set_solver. }
  destruct (transition s1 id DELIVERED None now) as [[m'|] s2]; simpl in *;
    (split; [|done]); (split; [|eapply evolves_trans; [exact Ev1|]]); try done.
  by apply bookkeeping_inv.
Qed.

Lemma mark_read_keeps s n now : outbox_inv s → keeps s (mark_read_up_to s n now).2.
Proof.
  intros I. unfold mark_read_up_to.
  match goal with |- context [foldl ?f _ _] => set (step := f) end.
  enough (H : ∀ l acc s1, keeps s s1 → keeps s (foldl step (acc, s1) l).2)
    by by apply H, keeps_refl.
  induction l as [|m l IH]; intros acc s1 [I1 Ev1]; [done|]. cbn [foldl]. subst step. simpl.
  case_match; [|by apply IH].
  destruct (transition_keeps s1 (msg_id m) READ None now I1) as (I2 & Ev2 & _); [done| |].
  { intros m0 _ _ Hd. destruct (msg_status m0); set_solver. }
  destruct (transition s1 (msg_id m) READ None now) as [r s2]. apply IH. split; [done|].
  by eapply evolves_trans.
Qed.
(** *** Re-queueing the backlog *)

Definition at_most (m m' : Message) : Prop := msg_sequence m <= msg_sequence m'.

Lemma insert_perm m l : insert_by_sequence m l ≡ₚ m :: l.
Proof.
  induction l as [|m' l IH]; [done|]. simpl. case_match; [done|]. rewrite IH. constructor.
Qed.

Lemma sort_perm l : sort_by_sequence l ≡ₚ l.
Proof. unfold sort_by_sequence. induction l as [|m l IH]; [done|]. simpl. by rewrite insert_perm, IH. Qed.

Lemma insert_sorted m l : StronglySorted at_most l → StronglySorted at_most (insert_by_sequence m l).
Proof.
  induction l as [|m' l IH]; intros H; [by repeat constructor|]. simpl.
  apply StronglySorted_cons in H as [Hf Hs]. case_match eqn:E; breflect.
  - apply StronglySorted_cons. split; [|by apply StronglySorted_cons]. apply Forall_cons.
    split; [done|]. eapply Forall_impl; [exact Hf|]. unfold at_most. lia.
  - apply StronglySorted_cons. split; [|auto]. rewrite insert_perm. apply Forall_cons.
    split; [unfold at_most; lia|done].
Qed.

Lemma sort_sorted l : StronglySorted at_most (sort_by_sequence l).
Proof. unfold sort_by_sequence. induction l; simpl; [constructor|by apply insert_sorted]. Qed.

Definition rolled_back (now : Z) (m : Message) : Message :=
  if decide (msg_status m = QUEUED) then m else set_status m QUEUED None now.

Lemma rolled_back_fields now m :
  msg_id (rolled_back now m) = msg_id m ∧ msg_sequence (rolled_back now m) = msg_sequence m ∧
  msg_status (rolled_back now m) = QUEUED ∧ msg_text (rolled_back now m) = msg_text m.
Proof. unfold rolled_back. by case_decide. Qed.

Definition backlog (s : Outbox) (ms : list Message) : Prop :=
  NoDup (msg_id <$> ms) ∧ Forall (λ m, dget (ob_messages s) (msg_id m) = Some m ∧ message_ok m ∧
    msg_direction m = OUTGOING ∧ in_flight (msg_status m) = true) ms.

Lemma rolled_back_ok now m :
  message_ok m → msg_direction m = OUTGOING → in_flight (msg_status m) = true →
  (if decide (msg_status m = QUEUED) then Ok m else with_status m QUEUED None now) =
    Ok (rolled_back now m) ∧ message_ok (rolled_back now m) ∧
  msg_direction (rolled_back now m) = OUTGOING ∧
  rtc edge (msg_status m) (msg_status (rolled_back now m)).
Proof.
  intros Hok Hout Hf. unfold rolled_back. case_decide as Hd; [by rewrite Hd|].
  unfold in_flight in Hf. breflect.
  assert (He : QUEUED ∈ transitions_for (msg_direction m) (msg_status m)).
  { rewrite Hout. simpl. assert (msg_status m = SENDING ∨ msg_status m = SENT) as [-> | ->]
      by set_solver; set_solver. }
  rewrite with_status_ok, decide_True by done. split; [done|]. split; [by apply set_status_ok|].
  split; [done|]. apply rtc_once. unfold edge. by rewrite Hout in He.
Qed.

Lemma requeue_loop_spec now ms : ∀ s,
  dict_wf (ob_messages s) → backlog s ms →
  ∃ s', requeue_loop s ms now = (Ok (rolled_back now <$> ms), s') ∧
    ob_queued s' = ob_queued s ∧ dict_wf (ob_messages s') ∧
    Forall (λ m, dget (ob_messages s') (msg_id m) = Some (rolled_back now m)) ms ∧
    ∀ id, id ∉ msg_id <$> ms → dget (ob_messages s') id = dget (ob_messages s) id.
Proof.
  induction ms as [|m ms IH]; intros s Hwf [Hnd Hall]; [by exists s|].
  rewrite fmap_cons in Hnd. apply NoDup_cons in Hnd as [Hnot Hnd].
  apply Forall_cons in Hall as [(Hm & Hok & Hout & Hf) Hall].
  destruct (rolled_back_ok now m Hok Hout Hf) as (Hr & _). cbn [requeue_loop]. rewrite Hr.
  set (s1 := if decide (msg_status m = QUEUED) then s else put s (rolled_back now m)).
  destruct (rolled_back_fields now m) as (Eid & _).
  assert (Hs1 : dict_wf (ob_messages s1) ∧ ob_queued s1 = ob_queued s ∧
    ∀ id, dget (ob_messages s1) id =
      if decide (msg_id m = id) then Some (rolled_back now m) else dget (ob_messages s) id).
  { subst s1. case_decide as Hq.
    - split; [done|]. split; [done|]. intros id. case_decide; [subst|done].
      unfold rolled_back. by rewrite decide_True.
    - split; [by apply dict_wf_dset|]. split; [done|]. intros id. simpl. by rewrite dget_dset, Eid. }
  destruct Hs1 as (Hwf1 & Hq1 & Hg1).
  destruct (IH s1 Hwf1) as (s' & -> & Hq & Hwf' & Hall' & Hrest).
  { split; [done|]. rewrite Forall_forall in *. intros x Hx. rewrite Hg1, decide_False; [by apply Hall|].
    intros E. apply Hnot. rewrite E. apply list_elem_of_fmap. eauto. }
  exists s'. split; [done|]. split; [congruence|]. split; [done|]. split.
  - apply Forall_cons. split; [|done]. rewrite (Hrest _ Hnot), Hg1. by rewrite decide_True.
  - intros id Hid. rewrite fmap_cons, not_elem_of_cons in Hid. destruct Hid as [Hne Hid].
    rewrite (Hrest _ Hid), Hg1. by rewrite decide_False by congruence.
Qed.

Lemma pending_backlog s : outbox_inv s → backlog s (sort_by_sequence (pending s)).
Proof.
  intros I. assert (Hsub : sublist (pending s) (values (ob_messages s))) by apply sublist_filter.
  assert (Hids : msg_id <$> values (ob_messages s) = keys (ob_messages s)).
  { unfold values, keys. rewrite <- list_fmap_compose. apply list_fmap_ext. intros i [k m] Hi. simpl.
    apply list_elem_of_lookup_2, elem_dget in Hi; [|apply I]. by apply (oi_msg s I) in Hi as [? _]. }
  split.
  - rewrite sort_perm. eapply sublist_NoDup; [|by apply fmap_sublist]. rewrite Hids. apply I.
  - rewrite sort_perm. apply Forall_forall. intros m Hm.
    apply list_elem_of_filter in Hm as [Hf Hm]. unfold values in Hm.
    apply list_elem_of_fmap in Hm as ([k m'] & -> & Hin). simpl in *.
    apply elem_dget in Hin; [|apply I]. destruct (oi_msg s I k m' Hin) as (<- & ? & ?). done.
Qed.

Lemma requeue_spec s now :
  outbox_inv s →
  ∃ s', requeue_unacked s now = (Ok (rolled_back now <$> sort_by_sequence (pending s)), s') ∧
    keeps s s' ∧ ob_queued s' = msg_id <$> sort_by_sequence (pending s).
Proof.
  intros I. pose proof (pending_backlog s I) as Hb.
  destruct (requeue_loop_spec now _ s (oi_wf s I) Hb) as (s' & Hl & Hq & Hwf & Hall & Hrest).
  unfold requeue_unacked. rewrite Hl. destruct Hb as [Hnd Hbk].
  assert (Hids : msg_id <$> (rolled_back now <$> sort_by_sequence (pending s)) =
                 msg_id <$> sort_by_sequence (pending s)).
  { rewrite <- list_fmap_compose. apply list_fmap_ext. intros i m _. simpl. by destruct (rolled_back_fields now m). }
  rewrite Hids. eexists. split; [done|]. split; [|done].
  assert (Hcase : ∀ id m, dget (ob_messages s) id = Some m →
    (in_flight (msg_status m) = true ∧ id ∈ msg_id <$> sort_by_sequence (pending s) ∧
       dget (ob_messages s') id = Some (rolled_back now m)) ∨
    (in_flight (msg_status m) = false ∧ id ∉ msg_id <$> sort_by_sequence (pending s) ∧
       dget (ob_messages s') id = Some m)).
  { intros id m Hm. destruct (oi_msg s I _ _ Hm) as (Hid & _ & _).
    destruct (in_flight (msg_status m)) eqn:Hf; [left|right].
    - assert (Hin : m ∈ sort_by_sequence (pending s)).
      { rewrite sort_perm. apply list_elem_of_filter. split; [done|].
        unfold values. apply dget_Some_elem in Hm. apply list_elem_of_fmap. by exists (id, m). }
      split; [done|]. split; [apply list_elem_of_fmap; by exists m|].
      rewrite Forall_forall in Hall. rewrite <- Hid. by apply Hall.
    - assert (Hno : id ∉ msg_id <$> sort_by_sequence (pending s)).
      { intros Hin. apply list_elem_of_fmap in Hin as (m' & -> & Hin).
        rewrite Forall_forall in Hbk. destruct (Hbk m' Hin) as (Hm' & _ & _ & Hf'). congruence. }
      split; [done|]. split; [done|]. by rewrite Hrest. }
  assert (Hback : ∀ id m', dget (ob_messages s') id = Some m' →
    ∃ m, dget (ob_messages s) id = Some m).
  { intros id m' Hm'. destruct (decide (id ∈ msg_id <$> sort_by_sequence (pending s))) as [Hin|Hin].
    - apply list_elem_of_fmap in Hin as (m & -> & Hin). rewrite Forall_forall in Hbk.
      destruct (Hbk m Hin) as [? _]. eauto.
    - rewrite Hrest in Hm' by done. eauto. }
  split; [split; simpl|].
  - done.
  - intros id m' Hm'. destruct (Hback id m' Hm') as [m Hm].
    destruct (oi_msg s I _ _ Hm) as (Hid & Hok & Hout).
    destruct (Hcase id m Hm) as [(Hf & _ & E)|(_ & _ & E)]; rewrite E in Hm'; injection Hm' as <-;
      [|done]. destruct (rolled_back_fields now m) as (-> & _).
    by destruct (rolled_back_ok now m Hok Hout Hf) as (_ & ? & ? & _).
  - done.
  - intros id Hin. apply list_elem_of_fmap in Hin as (m & -> & Hin). rewrite Forall_forall in Hall.
    exists (rolled_back now m). split; [by apply Hall|]. left. by destruct (rolled_back_fields now m) as (_ & _ & ? & _).
  - intros id m' Hm' Hs. destruct (Hback id m' Hm') as [m Hm].
    destruct (Hcase id m Hm) as [(_ & Hin & _)|(Hf & _ & E)]; [done|].
    rewrite E in Hm'. injection Hm' as <-. by rewrite Hs in Hf.
  - intros id m Hm. destruct (oi_msg s I _ _ Hm) as (_ & Hok & Hout).
    destruct (Hcase id m Hm) as [(Hf & _ & E)|(_ & _ & E)].
    + exists (rolled_back now m). split; [done|].
      destruct (rolled_back_ok now m Hok Hout Hf) as (_ & _ & _ & ?).
      by destruct (rolled_back_fields now m) as (_ & ? & _ & ?).
    + exists m. split; [done|]. split; [apply rtc_refl|done].
Qed.
(** *** Runs *)

Inductive outbox_call :=
| Enqueue (m : Message)
| Next (now : Z)
| Restore (m : Message) (now : Z)
| ToQueued (id : string) (now : Z)
| Requeue (now : Z)
| Sent (id : string) (now : Z)
| Delivered (id : string) (now : Z)
| ReadUpTo (sequence now : Z)
| Failed (id error : string) (now : Z)
| AddWaiter (id : string)
| DropWaiter (id : string)
| Disconnect.

Definition run_call (s : Outbox) (c : outbox_call) : Outbox :=
  match c with
  | Enqueue m => (enqueue s m).2
  | Next now => (next_queued s now).2
  | Restore m now => (restore s m now).2
  | ToQueued id now => (to_queued s id now).2
  | Requeue now => (requeue_unacked s now).2
  | Sent id now => (mark_sent s id now).2
  | Delivered id now => (mark_delivered s id now).2
  | ReadUpTo n now => (mark_read_up_to s n now).2
  | Failed id e now => (mark_failed s id e now).2
  | AddWaiter id => register_ack_waiter s id
  | DropWaiter id => drop_ack_waiter s id
  | Disconnect => resolve_ack_waiters_on_disconnect s
  end.

(** Messages are constructed ones, and [restore] is given a current copy. *)
Inductive valid_step (s : Outbox) : Outbox → Prop :=
| valid_step_call c :
    match c with
    | Enqueue m => message_ok m
    | Restore m _ => dget (ob_messages s) (msg_id m) = Some m
    | _ => True
    end → valid_step s (run_call s c).

Lemma run_call_keeps s s' : outbox_inv s → valid_step s s' → keeps s s'.
Proof.
  intros I [c Hc]. destruct c; cbn [run_call];
    eauto using enqueue_keeps, next_queued_keeps, restore_keeps, to_queued_keeps, mark_sent_keeps,
      mark_read_keeps, mark_failed_keeps.
  - destruct (requeue_spec s now I) as (s1 & -> & ? & _). done.
  - by apply mark_delivered_keeps.
  - split; [by apply bookkeeping_inv|by apply evolves_same].
  - split; [by apply bookkeeping_inv|by apply evolves_same].
  - split; [by apply bookkeeping_inv|by apply evolves_same].
Qed.

Lemma run_keeps s s' : outbox_inv s → rtc valid_step s s' → keeps s s'.
Proof.
  intros I H. induction H as [|s s1 s2 Hs _ IH]; [by apply keeps_refl|].
  destruct (run_call_keeps s s1 I Hs) as [I1 E1]. destruct (IH I1) as [I2 E2].
  split; [done|]. by eapply evolves_trans.
Qed.

Lemma outbox_init_inv : outbox_inv init.
Proof.
  split; simpl; try done; [apply dict_wf_nil|constructor|].
  intros id Hin. by apply elem_of_nil in Hin.
Qed.

(** C25: The outbox loses nothing: once a message was enqueued it stays,
    with its text and sequence number, through every run of sends,
    acknowledgements, failures, reconnects and re-queues; its status moves
    along the lifecycle only; a delivered message is never sent back to
    the queue; and taking the next message never hits a missing entry. *)
Theorem outbox_loses_nothing s s' id m now :
  rtc valid_step init s → rtc valid_step s s' → dget (ob_messages s) id = Some m →
  ∃ m', dget (ob_messages s') id = Some m' ∧ msg_text m' = msg_text m ∧
    msg_sequence m' = msg_sequence m ∧ rtc edge (msg_status m) (msg_status m') ∧
    (settled (msg_status m) → settled (msg_status m')) ∧
    is_ok (next_queued s' now).1 = true.
Proof.
  intros H0 H1 Hm. destruct (run_keeps _ _ outbox_init_inv H0) as [I _].
  destruct (run_keeps _ _ I H1) as [I' Ev]. destruct (Ev id m Hm) as (m' & Hm' & Hr & Hs & Ht).
  exists m'. do 4 (split; [done|]). split; [intros Hset; by apply (settled_stays _ _ Hset Hr)|].
  pose proof (next_queued_from_spec s' (ob_queued s') now [] I' eq_refl) as H.
  unfold next_queued. destruct (next_queued_from _ _ _) as [[r|e] s'']; [done|].
  destruct H as [_ []]. intros id0 m0 Hin. by apply elem_of_nil in Hin.
Qed.

(** After a reconnect the backlog is resent in order: [requeue_unacked]
    never raises, returns exactly the unacknowledged messages (queued,
    sending or sent), all QUEUED, in ascending sequence order, and the
    queue holds exactly those messages in that order. *)
Theorem requeue_resends_in_order s now :
  rtc valid_step init s →
  ∃ ms s', requeue_unacked s now = (Ok ms, s') ∧
    msg_id <$> ms ≡ₚ msg_id <$> pending s ∧
    StronglySorted at_most ms ∧ Forall (λ m, msg_status m = QUEUED) ms ∧
    ob_queued s' = msg_id <$> ms ∧
    (∀ m, m ∈ ms → dget (ob_messages s') (msg_id m) = Some m).
Proof.
  intros H0. destruct (run_keeps _ _ outbox_init_inv H0) as [I _].
  pose proof (pending_backlog s I) as Hb.
  destruct (requeue_loop_spec now _ s (oi_wf s I) Hb) as (s1 & Hl & _ & _ & Hall & _).
  destruct (requeue_spec s now I) as (s' & Hr & _ & Hq).
  set (ps := sort_by_sequence (pending s)) in *.
  assert (Hids : msg_id <$> (rolled_back now <$> ps) = msg_id <$> ps).
  { rewrite <- list_fmap_compose. apply list_fmap_ext. intros i m _. simpl.
    by destruct (rolled_back_fields now m). }
  exists (rolled_back now <$> ps), s'. split; [done|]. rewrite Hids.
  split; [subst ps; by rewrite sort_perm|]. split; [|split; [|split; [done|]]].
  - pose proof (sort_sorted (pending s)) as Hs. fold ps in Hs. clear -Hs.
    induction ps as [|m ms IH]; [constructor|]. apply StronglySorted_cons in Hs as [Hf Hs].
    rewrite fmap_cons. apply StronglySorted_cons. split; [|auto]. apply Forall_fmap.
    eapply Forall_impl; [exact Hf|]. intros m' Hm'. unfold at_most in *. simpl.
    destruct (rolled_back_fields now m) as (_ & -> & _).
    by destruct (rolled_back_fields now m') as (_ & -> & _).
  - apply Forall_fmap, Forall_true. intros m. simpl. by destruct (rolled_back_fields now m) as (_ & _ & ? & _).
  - intros m Hm. apply list_elem_of_fmap in Hm as (m0 & -> & Hm0).
    unfold requeue_unacked in Hr. fold ps in Hr. rewrite Hl in Hr. injection Hr as <-. simpl.
    destruct (rolled_back_fields now m0) as (-> & _). rewrite Forall_forall in Hall. by apply Hall.
Qed.

(** Sending is first in, first out: on a reachable outbox
    [next_queued] returns the first message of the queue that is still
    QUEUED, now SENDING, skipping only slots of messages that are not; it
    returns nothing exactly when no stored message is QUEUED. *)
Theorem next_queued_is_fifo s now :
  rtc valid_step init s →
  match (next_queued s now).1 with
  | Ok (Some m') => ∃ m skipped rest, ob_queued s = skipped ++ msg_id m :: rest ∧
      dget (ob_messages s) (msg_id m) = Some m ∧ msg_status m = QUEUED ∧
      m' = set_status m SENDING None now ∧ ob_queued (next_queued s now).2 = rest ∧
      (∀ id m0, id ∈ skipped → dget (ob_messages s) id = Some m0 → msg_status m0 ≠ QUEUED)
  | Ok None => ∀ id m, dget (ob_messages s) id = Some m → msg_status m ≠ QUEUED
  | Err _ => False
  end.
Proof.
  intros H0. destruct (run_keeps _ _ outbox_init_inv H0) as [I _].
  pose proof (next_queued_from_spec s (ob_queued s) now [] I eq_refl) as H.
  unfold next_queued. destruct (next_queued_from _ _ _) as [[[m'|]|e] s'].
  all: destruct H as [_ H]; [intros id0 m0 Hin; by apply elem_of_nil in Hin|]; try done.
  destruct H as (m & skipped & rest & ? & ? & ? & ? & ? & _ & ?). simpl.
  exists m, skipped, rest. done.
Qed.

(** Two queued messages, the second with the lower number; the first is in
    flight. *)
Definition demo_out (id : string) (n : Z) : Message :=
  mkMessage id "conv_1" OUTGOING [97] [98] [104; 105] n QUEUED 0 None None None None.
Definition out1 : Message := demo_out "msg_0000000000000001" 2.
Definition out2 : Message := demo_out "msg_0000000000000002" 1.
Definition demo_calls : list outbox_call := [Enqueue out1; Enqueue out2; Next 0].
Definition demo_outbox : Outbox := foldl run_call init demo_calls.

Lemma demo_outbox_reachable : rtc valid_step init demo_outbox.
Proof.
  unfold demo_outbox, demo_calls. cbn [foldl].
  eapply rtc_l; [apply (valid_step_call init (Enqueue out1)); reflexivity|].
  eapply rtc_l; [apply (valid_step_call _ (Enqueue out2)); reflexivity|].
  apply rtc_once. apply (valid_step_call _ (Next 0)). exact I.
Qed.

Lemma outbox_loses_nothing_witness :
  ∃ m', dget (ob_messages (run_call demo_outbox (Requeue 1))) (msg_id out1) = Some m' ∧
    msg_text m' = [104; 105].
Proof.
  assert (Hm : dget (ob_messages demo_outbox) (msg_id out1) = Some (set_status out1 SENDING None 0))
    by reflexivity.
  assert (Hs : rtc valid_step demo_outbox (run_call demo_outbox (Requeue 1)))
    by (apply rtc_once; apply (valid_step_call _ (Requeue 1)); exact I).
  destruct (outbox_loses_nothing demo_outbox _ (msg_id out1) _ 0 demo_outbox_reachable Hs Hm)
    as (m' & Hm' & Ht & _).
  exact (ex_intro _ m' (conj Hm' Ht)).
Defined.

Lemma requeue_resends_in_order_witness :
  ∃ ms s', requeue_unacked demo_outbox 1 = (Ok ms, s') ∧ StronglySorted at_most ms.
Proof.
  destruct (requeue_resends_in_order demo_outbox 1 demo_outbox_reachable)
    as (ms & s' & Hr & _ & Hs & _).
  exact (ex_intro _ ms (ex_intro _ s' (conj Hr Hs))).
Defined.

Lemma next_queued_is_fifo_witness :
  ∃ m skipped rest, ob_queued demo_outbox = skipped ++ msg_id m :: rest ∧
    dget (ob_messages demo_outbox) (msg_id m) = Some m ∧ msg_status m = QUEUED.
Proof.
  pose proof (next_queued_is_fifo demo_outbox 0 demo_outbox_reachable) as H.
  destruct (next_queued demo_outbox 0).1 as [[m'|]|e] eqn:E; [|discriminate E|contradiction H].
  destruct H as (m & skipped & rest & H1 & H2 & H3 & _).
  exists m, skipped, rest. exact (conj H1 (conj H2 H3)).
Defined.
End OutboxProofs.
