(* ===== verification/WebSocket.v ===== *)
(** * The WebSocket framing layer

    [transport/websocket/protocol.py]: RFC 6455 frames and the connection
    object that sends, reassembles and closes.  The peer's byte stream up to
    its end of file is [ws_reader]; each [writer.write] call is one entry of
    [ws_writer].  The transport accepts every write ([OSError] is not
    modelled) and the coroutines run one after another, not interleaved at
    their [await]s.  Masking keys come from [secrets.token_bytes]: the n-th
    draw is the n-th value of a parameter. *)

From S2P Require Import Prelude Text Utf8.

Open Scope Z_scope.

(** ** Opcodes *)

Inductive Opcode := CONTINUATION | TEXT | BINARY | CLOSE | PING | PONG.

#[export] Instance Opcode_eq_dec : EqDecision Opcode.
Proof. solve_decision. Defined.

Definition opcode_value (o : Opcode) : Z :=
  match o with
  | CONTINUATION => 0 | TEXT => 1 | BINARY => 2 | CLOSE => 8 | PING => 9 | PONG => 10
  end.

(** [opcode in {int(item) for item in Opcode}], with the member it names. *)
Definition opcode_of (n : Z) : option Opcode :=
  if n =? 0 then Some CONTINUATION else if n =? 1 then Some TEXT
  else if n =? 2 then Some BINARY else if n =? 8 then Some CLOSE
  else if n =? 9 then Some PING else if n =? 10 then Some PONG else None.

Definition CONTROL_OPCODES : list Opcode := [CLOSE; PING; PONG].

Definition is_control (o : Opcode) : bool := bool_decide (o ∈ CONTROL_OPCODES).

Definition MAX_MESSAGE_BYTES : Z := 1048576.
Definition MAX_CONTROL_PAYLOAD : Z := 125.

(** ** Errors *)

Inductive violation :=
| ReservedBits | UnknownOpcode | MaskingViolation | FragmentedControl | OversizedControl
| FrameTooLarge | Interleaved | StrayContinuation | MessageTooLarge | NotUtf8.

Inductive ws_error :=
| ConnectionClosed (code : option Z)
| ProtocolError (v : violation)
| StructError (** [struct.pack]: the value does not fit *)
| UnicodeEncodeError
| OutOfFuel (** the reading loop of the model ran out of steps *).

Record Frame := mkFrame { fr_fin : bool; fr_opcode : Opcode; fr_payload : bytes }.

Inductive IncomingMessage := TextMessage (data : unicode) | BinaryMessage (data : bytes).

(** ** Bytes *)

Definition blen (b : bytes) : Z := Z.of_nat (length b).

(** [struct.pack] of one unsigned big-endian field of [k] bytes. *)
Fixpoint be_bytes (k : nat) (n : Z) : bytes :=
  match k with
  | O => []
  | S k' => be_bytes k' (Z.shiftr n 8) ++ [Z.land n 255]
  end.

Definition struct_pack (k : nat) (n : Z) : option bytes :=
  if (0 <=? n) && (n <? 256 ^ Z.of_nat k) then Some (be_bytes k n) else None.

(** [struct.unpack] of one unsigned big-endian field. *)
Definition struct_unpack (b : bytes) : Z := foldl (λ acc x, Z.lor (Z.shiftl acc 8) x) 0 b.

(** [_mask] *)
Definition mask (payload key : bytes) : bytes :=
  imap (λ index byte, Z.lxor byte (nth (Nat.land index 3) key 0)) payload.

(** ** The connection *)

Record WebSocketConnection := mkConn {
  ws_reader : bytes;
  ws_writer : list bytes;
  ws_stream_closed : bool;
  ws_mask_outgoing : bool;
  ws_expect_masked : bool;
  ws_max_message_bytes : Z;
  ws_closed : bool;
  ws_close_sent : bool;
  ws_close_code : option Z;
  ws_close_reason : unicode;
  ws_draws : nat;
}.

Definition WebSocketConnection_init (reader : bytes) (mask_outgoing expect_masked : bool)
    (max_message_bytes : Z) : WebSocketConnection :=
  mkConn reader [] false mask_outgoing expect_masked max_message_bytes false false None [] 0.

Definition set_reader (c : WebSocketConnection) (r : bytes) : WebSocketConnection :=
  mkConn r (ws_writer c) (ws_stream_closed c) (ws_mask_outgoing c) (ws_expect_masked c)
    (ws_max_message_bytes c) (ws_closed c) (ws_close_sent c) (ws_close_code c)
    (ws_close_reason c) (ws_draws c).

Definition written (c : WebSocketConnection) (b : bytes) (draws : nat) : WebSocketConnection :=
  mkConn (ws_reader c) (ws_writer c ++ [b]) (ws_stream_closed c) (ws_mask_outgoing c)
    (ws_expect_masked c) (ws_max_message_bytes c) (ws_closed c) (ws_close_sent c)
    (ws_close_code c) (ws_close_reason c) draws.

Definition set_close_sent (c : WebSocketConnection) : WebSocketConnection :=
  mkConn (ws_reader c) (ws_writer c) (ws_stream_closed c) (ws_mask_outgoing c)
    (ws_expect_masked c) (ws_max_message_bytes c) (ws_closed c) true
    (ws_close_code c) (ws_close_reason c) (ws_draws c).

Definition set_closed (c : WebSocketConnection) : WebSocketConnection :=
  mkConn (ws_reader c) (ws_writer c) (ws_stream_closed c) (ws_mask_outgoing c)
    (ws_expect_masked c) (ws_max_message_bytes c) true (ws_close_sent c)
    (ws_close_code c) (ws_close_reason c) (ws_draws c).

Definition set_stream_closed (c : WebSocketConnection) : WebSocketConnection :=
  mkConn (ws_reader c) (ws_writer c) true (ws_mask_outgoing c)
    (ws_expect_masked c) (ws_max_message_bytes c) (ws_closed c) (ws_close_sent c)
    (ws_close_code c) (ws_close_reason c) (ws_draws c).

Definition set_close_info (c : WebSocketConnection) (code : option Z) (reason : unicode)
    : WebSocketConnection :=
  mkConn (ws_reader c) (ws_writer c) (ws_stream_closed c) (ws_mask_outgoing c)
    (ws_expect_masked c) (ws_max_message_bytes c) (ws_closed c) (ws_close_sent c)
    code reason (ws_draws c).

(** ** Coroutines: a result or an exception, and the connection left behind *)

Definition ws (A : Type) : Type := WebSocketConnection → result ws_error A * WebSocketConnection.

#[export] Instance ws_ret : MRet ws := λ A a c, (Ok a, c).
#[export] Instance ws_bind : MBind ws := λ A B f m c,
  match m c with
  | (Ok a, c') => f a c'
  | (Err e, c') => (Err e, c')
  end.

Definition raise {A} (e : ws_error) : ws A := λ c, (Err e, c).
Definition get {A} (f : WebSocketConnection → A) : ws A := λ c, (Ok (f c), c).
Definition modify (f : WebSocketConnection → WebSocketConnection) : ws unit := λ c, (Ok tt, f c).
Definition lift {A} (o : option A) (e : ws_error) : ws A := λ c, (of_option o e, c).
Definition when (b : bool) (m : ws unit) : ws unit := if b then m else mret tt.

(** [with suppress(...)]: the exceptions [p] selects end the block quietly. *)
Definition suppress (p : ws_error → bool) (m : ws unit) : ws unit := λ c,
  match m c with
  | (Err e, c') => if p e then (Ok tt, c') else (Err e, c')
  | r => r
  end.

Definition is_connection_closed (e : ws_error) : bool :=
  match e with ConnectionClosed _ => true | _ => false end.
Definition is_transport_error (e : ws_error) : bool :=
  match e with ConnectionClosed _ | ProtocolError _ => true | _ => false end.

Section operations.
(** The n-th value of [secrets.token_bytes(4)]. *)
Context (token_bytes : nat → bytes).

(** ** Sending *)

(** The header [_send_frame] packs. *)
Definition frame_header (first mask_bit length : Z) : option bytes :=
  if length <? 126 then Some [first; Z.lor mask_bit length]
  else if length <=? 65535 then ([first; Z.lor mask_bit 126] ++.) <$> struct_pack 2 length
  else ([first; Z.lor mask_bit 127] ++.) <$> struct_pack 8 length.

Definition send_frame (opcode : Opcode) (payload : bytes) (fin : bool) : ws unit :=
  c ← get (λ c, c);
  when (ws_closed c && negb (bool_decide (opcode = CLOSE))) (raise (ConnectionClosed None));;
  when (is_control opcode)
    (when (negb fin) (raise (ProtocolError FragmentedControl));;
     when (MAX_CONTROL_PAYLOAD <? blen payload) (raise (ProtocolError OversizedControl)));;
  let first := Z.lor (if fin then 128 else 0) (opcode_value opcode) in
  let mask_bit := if ws_mask_outgoing c then 128 else 0 in
  header ← lift (frame_header first mask_bit (blen payload)) StructError;
  if ws_mask_outgoing c then
    let key := token_bytes (ws_draws c) in
    modify (λ c, written c (header ++ key ++ mask payload key) (S (ws_draws c)))
  else modify (λ c, written c (header ++ payload) (ws_draws c)).

Definition send_text (message : unicode) : ws unit :=
  payload ← lift (utf8_encode message) UnicodeEncodeError;
  send_frame TEXT payload true.

Definition send_bytes (data : bytes) : ws unit := send_frame BINARY data true.

Definition send_pong (payload : bytes) : ws unit := send_frame PONG payload true.

(** ** Closing *)

Definition fail_with (code : Z) (reason : string) : ws unit :=
  close_sent ← get ws_close_sent;
  when (negb close_sent)
    (modify set_close_sent;;
     suppress is_connection_closed
       (packed ← lift (struct_pack 2 code) StructError;
        send_frame CLOSE (packed ++ encode reason) true)).

(** [writer.close()] and the wait for it, whose errors are suppressed. *)
Definition close_stream : ws unit := modify set_stream_closed.

Definition close (code : Z) (reason : unicode) : ws unit :=
  already_closed ← get ws_closed;
  modify set_closed;;
  close_sent ← get ws_close_sent;
  when (negb close_sent && negb already_closed)
    (modify set_close_sent;;
     suppress is_transport_error
       (packed ← lift (struct_pack 2 code) StructError;
        text ← lift (utf8_encode reason) UnicodeEncodeError;
        send_frame CLOSE (packed ++ text) true));;
  close_stream.

(** ** Receiving *)

(** [readexactly]: what is left of a short stream is consumed. *)
Definition read_exactly (length : Z) : ws bytes :=
  c ← get (λ c, c);
  let n := Z.to_nat length in
  if (n <=? List.length (ws_reader c))%nat then
    modify (λ c, set_reader c (drop n (ws_reader c)));;
    mret (take n (ws_reader c))
  else
    modify (λ c, set_reader c []);;
    raise (ConnectionClosed (ws_close_code c)).

Definition read_frame : ws Frame :=
  header ← read_exactly 2;
  let b0 := nth 0 header 0 in
  let b1 := nth 1 header 0 in
  let fin := negb (Z.land b0 128 =? 0) in
  when (negb (Z.land b0 112 =? 0)) (raise (ProtocolError ReservedBits));;
  match opcode_of (Z.land b0 15) with
  | None => fail_with 1002 "unknown opcode";; raise (ProtocolError UnknownOpcode)
  | Some opcode =>
      let masked := negb (Z.land b1 128 =? 0) in
      expect_masked ← get ws_expect_masked;
      when (negb (eqb masked expect_masked))
        (fail_with 1002 "masking violation";; raise (ProtocolError MaskingViolation));;
      let length7 := Z.land b1 127 in
      length ← (if length7 =? 126 then b ← read_exactly 2; mret (struct_unpack b)
                else if length7 =? 127 then b ← read_exactly 8; mret (struct_unpack b)
                else mret length7);
      when (is_control opcode)
        (when (negb fin)
           (fail_with 1002 "fragmented control frame";; raise (ProtocolError FragmentedControl));;
         when (MAX_CONTROL_PAYLOAD <? length)
           (fail_with 1002 "oversized control frame";; raise (ProtocolError OversizedControl)));;
      max_message_bytes ← get ws_max_message_bytes;
      when (max_message_bytes <? length)
        (fail_with 1009 "message too large";; raise (ProtocolError FrameTooLarge));;
      key ← (if masked then read_exactly 4 else mret []);
      payload ← (if length =? 0 then mret [] else read_exactly length);
      mret (mkFrame fin opcode (if masked then mask payload key else payload))
  end.

Definition decode_text (payload : bytes) : ws unicode :=
  lift (utf8_decode payload) (ProtocolError NotUtf8).

Definition incoming (is_text : bool) (data : bytes) : ws (option IncomingMessage) :=
  if is_text then (text ← decode_text data; mret (Some (TextMessage text)))
  else mret (Some (BinaryMessage data)).

(** [_parse_close_payload] *)
Definition parse_close_payload (payload : bytes) : option Z * unicode :=
  if blen payload <? 2 then (None, [])
  else (Some (struct_unpack (take 2 payload)), default [] (utf8_decode (drop 2 payload))).

(** The local variables of [read_message]. *)
Record assembly := mkAssembly {
  as_fragments : list bytes; as_is_text : bool; as_fragmenting : bool; as_total : Z;
}.

Definition no_assembly : assembly := mkAssembly [] false false 0.

(** The close branch of [read_message]. *)
Definition on_close (payload : bytes) : ws (option IncomingMessage) :=
  modify (λ c, set_close_info c (parse_close_payload payload).1 (parse_close_payload payload).2);;
  close_sent ← get ws_close_sent;
  when (negb close_sent) (send_frame CLOSE payload true;; modify set_close_sent);;
  modify set_closed;;
  close_stream;;
  mret None.

(** One turn of the loop: [inl] goes round again, [inr] returns. *)
Definition on_frame (a : assembly) (frame : Frame) : ws (assembly + option IncomingMessage) :=
  match fr_opcode frame with
  | PING => send_pong (fr_payload frame);; mret (inl a)
  | PONG => mret (inl a)
  | CLOSE => m ← on_close (fr_payload frame); mret (inr m)
  | TEXT | BINARY =>
      let is_text := bool_decide (fr_opcode frame = TEXT) in
      when (as_fragmenting a)
        (fail_with 1002 "interleaved message";; raise (ProtocolError Interleaved));;
      if fr_fin frame then m ← incoming is_text (fr_payload frame); mret (inr m)
      else mret (inl (mkAssembly [fr_payload frame] is_text true (blen (fr_payload frame))))
  | CONTINUATION =>
      when (negb (as_fragmenting a))
        (fail_with 1002 "stray continuation frame";; raise (ProtocolError StrayContinuation));;
      let total := as_total a + blen (fr_payload frame) in
      max_message_bytes ← get ws_max_message_bytes;
      when (max_message_bytes <? total)
        (fail_with 1009 "message too large";; raise (ProtocolError MessageTooLarge));;
      let fragments := as_fragments a ++ [fr_payload frame] in
      if fr_fin frame then m ← incoming (as_is_text a) (concat fragments); mret (inr m)
      else mret (inl (mkAssembly fragments (as_is_text a) true total))
  end.

Fixpoint read_loop (fuel : nat) (a : assembly) : ws (option IncomingMessage) :=
  match fuel with
  | O => raise OutOfFuel
  | S fuel' =>
      frame ← read_frame;
      r ← on_frame a frame;
      match r with
      | inl a' => read_loop fuel' a'
      | inr m => mret m
      end
  end.

(** [read_message]: each turn reads at least the two header bytes, so one
    turn per byte of the stream, and one more, is enough. *)
Definition read_message : ws (option IncomingMessage) := λ c,
  read_loop (S (List.length (ws_reader c))) no_assembly c.
End operations.
