(* ===== verification/WebSocketTheorems.v ===== *)
(** * WebSocket framing: theorems

    Round trip of frames under both maskings, reassembly of fragmented
    messages with control frames in between, totality and size bounds of
    the reading loop on arbitrary bytes, and the single close frame. *)

From S2P Require Import Prelude Text Utf8 WebSocket.

Open Scope Z_scope.

(** ** Bytes *)

Lemma mask_length p k : length (mask p k) = length p.
Proof. apply length_imap. Qed.

Lemma mask_involutive p k : mask (mask p k) k = p.
Proof.
  unfold mask, bytes in *. apply list_eq. intros i. rewrite !list_lookup_imap.
  destruct (p !! i) as [b|]; simpl; [|reflexivity]. f_equal.
  by rewrite Z.lxor_assoc, Z.lxor_nilpotent, Z.lxor_0_r.
Qed.

Lemma low_byte n : Z.lor (Z.shiftl (Z.shiftr n 8) 8) (Z.land n 255) = n.
Proof.
  apply Z.bits_inj'. intros i Hi. change 255 with (Z.ones 8).
  rewrite Z.lor_spec, Z.shiftl_spec, Z.land_spec by done.
  destruct (Z.lt_ge_cases i 8).
  - rewrite Z.ones_spec_low, (Z.testbit_neg_r _ (i - 8)) by lia. simpl.
    by rewrite andb_true_r.
  - rewrite Z.ones_spec_high, Z.shiftr_spec by lia.
    replace (i - 8 + 8) with i by lia. by rewrite andb_false_r, orb_false_r.
Qed.

Lemma be_roundtrip k n : 0 <= n < 256 ^ Z.of_nat k → struct_unpack (be_bytes k n) = n.
Proof.
  revert n. induction k as [|k IH]; intros n Hn.
  { change (256 ^ Z.of_nat 0) with 1 in Hn. unfold struct_unpack. simpl. lia. }
  unfold struct_unpack. simpl. rewrite foldl_app. simpl.
  change (foldl _ 0 (be_bytes k (Z.shiftr n 8))) with (struct_unpack (be_bytes k (Z.shiftr n 8))).
  rewrite IH; [apply low_byte|].
  rewrite Z.shiftr_div_pow2 by lia. change (2 ^ 8) with 256.
  rewrite Nat2Z.inj_succ, Z.pow_succ_r in Hn by lia. split; [apply Z.div_pos; lia|].
  apply Z.div_lt_upper_bound; lia.
Qed.

Lemma be_length k n : length (be_bytes k n) = k.
Proof.
  revert n. induction k as [|k IH]; intros n; simpl; [done|].
  rewrite length_app, IH. simpl. lia.
Qed.

Lemma struct_pack_Some k n : 0 <= n < 256 ^ Z.of_nat k → struct_pack k n = Some (be_bytes k n).
Proof.
  intros [H1 H2]. unfold struct_pack. apply Z.leb_le in H1. apply Z.ltb_lt in H2.
  by rewrite H1, H2.
Qed.

(** The bits of the two header bytes. *)
Lemma first_byte fin op :
  let first := Z.lor (if fin : bool then 128 else 0) (opcode_value op) in
  Z.land first 112 = 0 ∧ opcode_of (Z.land first 15) = Some op ∧
  negb (Z.land first 128 =? 0) = fin ∧ Z.land first 15 = opcode_value op.
Proof. by destruct fin, op. Qed.

Lemma second_byte (m : bool) l :
  0 <= l < 128 →
  let b := Z.lor (if m then 128 else 0) l in
  negb (Z.land b 128 =? 0) = m ∧ Z.land b 127 = l.
Proof.
  intros Hl. cbv zeta.
  assert (H : eqb (negb (Z.land (Z.lor (if m then 128 else 0) l) 128 =? 0)) m
              && (Z.land (Z.lor (if m then 128 else 0) l) 127 =? l) = true).
  { destruct m;
      [refine (forallb_range (λ l, eqb (negb (Z.land (Z.lor 128 l) 128 =? 0)) true
                 && (Z.land (Z.lor 128 l) 127 =? l)) 128 _ l Hl)
      |refine (forallb_range (λ l, eqb (negb (Z.land (Z.lor 0 l) 128 =? 0)) false
                 && (Z.land (Z.lor 0 l) 127 =? l)) 128 _ l Hl)]; by vm_compute. }
  apply andb_true_iff in H as [H1 H2]. apply eqb_prop in H1. apply Z.eqb_eq in H2. done.
Qed.

(** ** Running coroutines *)

Lemma ws_bind_ok {A B} (m : ws A) (f : A → ws B) c a c' r :
  m c = (Ok a, c') → f a c' = r → (m ≫= f) c = r.
Proof. unfold mbind, ws_bind. by intros -> H. Qed.

Lemma ws_bind_inv {A B} (m : ws A) (f : A → ws B) c b c'' :
  (m ≫= f) c = (Ok b, c'') → ∃ a c', m c = (Ok a, c') ∧ f a c' = (Ok b, c'').
Proof. unfold mbind, ws_bind. destruct (m c) as [[a|e] c']; naive_solver. Qed.

Lemma ws_bind_eq {A B} (m : ws A) (f : A → ws B) c a c' :
  m c = (Ok a, c') → (m ≫= f) c = f a c'.
Proof. unfold mbind, ws_bind. by intros ->. Qed.

Lemma ws_bind_err {A B} (m : ws A) (f : A → ws B) c e c' :
  m c = (Err e, c') → (m ≫= f) c = (Err e, c').
Proof. unfold mbind, ws_bind. by intros ->. Qed.

(** A guard that raises whenever it fires was passed. *)
Lemma ws_guard_inv b (m : ws unit) e c u c' :
  when b (m;; raise e) c = (Ok u, c') → b = false ∧ c' = c.
Proof.
  unfold when, mbind, ws_bind, raise. destruct b; [|by intros [= _ ->]].
  by destruct (m c) as [[?|?] ?]; intros [=].
Qed.

Lemma ws_raise_inv b e c u c' : when b (raise e) c = (Ok u, c') → b = false ∧ c' = c.
Proof. unfold when, raise. destruct b; [by intros [=]|by intros [= _ ->]]. Qed.

Lemma ws_when_false b (m : ws unit) c : b = false → when b m c = (Ok tt, c).
Proof. by intros ->. Qed.

(** Run the next statement: a guard that does not fire, a read of the
    connection, or a statement whose outcome [tac] knows. *)
Ltac ws_next tac :=
  cbv zeta; eapply ws_bind_ok; [first [by apply ws_when_false | reflexivity | tac]|]; cbv beta.

(** ** Frames on the wire *)

Section frames.
Context (token_bytes : nat → bytes).

(** What [send_frame] may send. *)
Definition sendable (op : Opcode) (p : bytes) (fin : bool) : Prop :=
  (is_control op = true → fin = true ∧ blen p <= MAX_CONTROL_PAYLOAD) ∧ blen p < 2 ^ 64.

(** The chunk [send_frame] hands to the writer. *)
Definition wire (masking : bool) (key : bytes) (op : Opcode) (p : bytes) (fin : bool) : bytes :=
  default [] (frame_header (Z.lor (if fin then 128 else 0) (opcode_value op))
                (if masking then 128 else 0) (blen p))
  ++ if masking then key ++ mask p key else p.

Definition sent (c : WebSocketConnection) (op : Opcode) (p : bytes) (fin : bool)
    : WebSocketConnection :=
  written c (wire (ws_mask_outgoing c) (token_bytes (ws_draws c)) op p fin)
    (if ws_mask_outgoing c then S (ws_draws c) else ws_draws c).

Lemma blen_nonneg p : 0 <= blen p.
Proof. unfold blen. lia. Qed.

Lemma frame_header_Some first mb n :
  0 <= n < 2 ^ 64 → is_Some (frame_header first mb n).
Proof.
  intros Hn. unfold frame_header. repeat case_match; breflect; [eauto|..];
    rewrite struct_pack_Some; simpl; eauto; lia.
Qed.

(** The control-frame checks pass for what may be sent. *)
Lemma control_ok (op : Opcode) (fin : bool) n (m1 m2 : ws unit) c :
  (is_control op = true → fin = true ∧ n <= MAX_CONTROL_PAYLOAD) →
  when (is_control op) (when (negb fin) m1;; when (MAX_CONTROL_PAYLOAD <? n) m2) c = (Ok tt, c).
Proof.
  destruct (is_control op); [|done]. intros [-> H]; [done|]. simpl. unfold mbind, ws_bind, when.
  by rewrite (proj2 (Z.ltb_ge _ _) H).
Qed.

Lemma send_frame_ok c op p fin :
  (ws_closed c = true → op = CLOSE) → sendable op p fin →
  send_frame token_bytes op p fin c = (Ok tt, sent c op p fin).
Proof.
  intros Hcl [Hctl Hlen]. unfold send_frame. ws_next idtac.
  ws_next ltac:(apply ws_when_false; destruct (ws_closed c); [by rewrite Hcl|done]).
  ws_next ltac:(by apply control_ok). unfold sent, wire.
  destruct (frame_header_Some (Z.lor (if fin then 128 else 0) (opcode_value op))
    (if ws_mask_outgoing c then 128 else 0) (blen p)) as [h Hh].
  { split; [apply blen_nonneg|done]. }
  ws_next ltac:(unfold lift; by rewrite Hh). rewrite Hh. by destruct (ws_mask_outgoing c).
Qed.

Lemma read_exactly_app d x r n :
  n = blen x → read_exactly n (set_reader d (x ++ r)) = (Ok x, set_reader d r).
Proof.
  intros ->. unfold read_exactly, mbind, ws_bind, get. simpl. unfold blen. rewrite Nat2Z.id.
  rewrite (proj2 (Nat.leb_le _ _)) by (rewrite length_app; lia).
  unfold modify, mret, ws_ret. simpl. by rewrite drop_app_length, take_app_length.
Qed.

(** The wire form: two header bytes, the extended length, key and payload. *)
Lemma wire_shape m key op p fin :
  blen p < 2 ^ 64 →
  ∃ l7 ext,
    wire m key op p fin =
      [Z.lor (if fin then 128 else 0) (opcode_value op); Z.lor (if m then 128 else 0) l7]
      ++ ext ++ (if m then key else []) ++ (if m then mask p key else p) ∧
    0 <= l7 < 128 ∧
    ((l7 = 126 ∧ blen ext = 2 ∧ struct_unpack ext = blen p) ∨
     (l7 = 127 ∧ blen ext = 8 ∧ struct_unpack ext = blen p) ∨
     (l7 < 126 ∧ ext = [] ∧ l7 = blen p)).
Proof.
  intros Hlen. pose proof (blen_nonneg p) as Hp. unfold wire, frame_header.
  destruct (Z.ltb_spec (blen p) 126); [|destruct (Z.leb_spec (blen p) 65535)].
  - exists (blen p), []. split; [by destruct m|]. split; [lia|]. auto.
  - exists 126, (be_bytes 2 (blen p)). rewrite struct_pack_Some by lia.
    split; [by destruct m|]. split; [lia|]. left. unfold blen at 1.
    rewrite be_length, be_roundtrip by lia. done.
  - exists 127, (be_bytes 8 (blen p)). rewrite struct_pack_Some by lia.
    split; [by destruct m|]. split; [lia|]. right. left. unfold blen at 1.
    rewrite be_length, be_roundtrip by lia. done.
Qed.

(** The extended length is read back. *)
Lemma read_length d l7 ext p r :
  ((l7 = 126 ∧ blen ext = 2 ∧ struct_unpack ext = blen p) ∨
   (l7 = 127 ∧ blen ext = 8 ∧ struct_unpack ext = blen p) ∨
   (l7 < 126 ∧ ext = [] ∧ l7 = blen p)) →
  (if l7 =? 126 then b ← read_exactly 2; mret (struct_unpack b)
   else if l7 =? 127 then b ← read_exactly 8; mret (struct_unpack b)
   else mret l7) (set_reader d (ext ++ r)) = (Ok (blen p), set_reader d r).
Proof.
  intros [(-> & H1 & <-)|[(-> & H1 & <-)|(H1 & -> & ->)]].
  - eapply ws_bind_ok; [by apply read_exactly_app|]. done.
  - eapply ws_bind_ok; [by apply read_exactly_app|]. done.
  - rewrite !(proj2 (Z.eqb_neq _ _)) by lia. done.
Qed.

Lemma read_payload d q r :
  (if blen q =? 0 then mret [] else read_exactly (blen q)) (set_reader d (q ++ r)) =
    (Ok q, set_reader d r).
Proof.
  destruct q as [|b q]; [done|]. rewrite (proj2 (Z.eqb_neq _ _)) by (unfold blen; simpl; lia).
  by apply read_exactly_app.
Qed.

(** A frame that was sent is read back, whatever follows it on the stream,
    when both ends agree on masking and the reader accepts its size. *)
Lemma read_frame_wire d m key op p fin rest :
  length key = 4%nat → sendable op p fin → ws_expect_masked d = m →
  blen p <= ws_max_message_bytes d →
  read_frame token_bytes (set_reader d (wire m key op p fin ++ rest)) =
    (Ok (mkFrame fin op p), set_reader d rest).
Proof.
  intros Hkey [Hctl Hlen] Hm Hmax. pose proof (blen_nonneg p) as Hp.
  destruct (wire_shape m key op p fin Hlen) as (l7 & ext & -> & Hl7 & Hext).
  destruct (first_byte fin op) as (F1 & F2 & F3 & _).
  destruct (second_byte m l7 Hl7) as [S1 S2].
  set (first := Z.lor (if fin then 128 else 0) (opcode_value op)) in *.
  set (second := Z.lor (if m then 128 else 0) l7) in *. clearbody first second.
  rewrite <- !(assoc_L (++)).
  unfold read_frame. ws_next ltac:(by apply read_exactly_app). cbn [nth].
  ws_next ltac:(by rewrite F1). rewrite F2. ws_next idtac.
  ws_next ltac:(apply ws_when_false; rewrite S1; simpl; rewrite Hm; by destruct m).
  rewrite S1, S2, F3.
  eapply ws_bind_ok; [by apply read_length|].
  ws_next ltac:(by apply control_ok). ws_next idtac.
  ws_next ltac:(apply ws_when_false, Z.ltb_ge; exact Hmax).
  eapply (ws_bind_ok _ _ _ (if m then key else []) (set_reader d ((if m then mask p key else p) ++ rest))).
  { destruct m; [|done]. apply read_exactly_app. unfold blen. by rewrite Hkey. }
  eapply (ws_bind_ok _ _ _ (if m then mask p key else p) (set_reader d rest)).
  { assert (Hb : blen p = blen (if m then mask p key else p)).
    { destruct m; [|done]. unfold blen. by rewrite mask_length. }
    rewrite Hb. apply read_payload. }
  destruct m; [by rewrite mask_involutive|done].
Qed.
(** What breaks the rules of control frames is refused before any byte is
    written. *)
Lemma send_frame_refuses c op p fin :
  (ws_closed c = true → op = CLOSE) → is_control op = true →
  fin = false ∨ MAX_CONTROL_PAYLOAD < blen p →
  ∃ v, send_frame token_bytes op p fin c = (Err (ProtocolError v), c).
Proof.
  intros Hc Hop Hbad. unfold send_frame. rewrite (ws_bind_eq (get (λ c, c)) _ c c c eq_refl).
  rewrite (ws_bind_eq _ _ c tt c)
    by (apply ws_when_false; destruct (ws_closed c); [by rewrite Hc|done]).
  rewrite Hop. destruct fin; [|eexists; by eapply ws_bind_err].
  destruct Hbad as [|H]; [done|]. eexists. eapply ws_bind_err. simpl.
  unfold mbind, ws_bind, mret, ws_ret, when. by rewrite (proj2 (Z.ltb_lt _ _) H).
Qed.

(** ** Streams of frames *)

Fixpoint send_all (fs : list Frame) : ws unit :=
  match fs with
  | [] => mret tt
  | f :: fs' => send_frame token_bytes (fr_opcode f) (fr_payload f) (fr_fin f);; send_all fs'
  end.

Definition sent_frame (c : WebSocketConnection) (f : Frame) : WebSocketConnection :=
  sent c (fr_opcode f) (fr_payload f) (fr_fin f).

Fixpoint wires (c : WebSocketConnection) (fs : list Frame) : list bytes :=
  match fs with
  | [] => []
  | f :: fs' =>
      wire (ws_mask_outgoing c) (token_bytes (ws_draws c)) (fr_opcode f) (fr_payload f) (fr_fin f)
      :: wires (sent_frame c f) fs'
  end.

Definition frame_ok (f : Frame) : Prop := sendable (fr_opcode f) (fr_payload f) (fr_fin f).

Lemma send_all_ok c fs :
  ws_closed c = false → Forall frame_ok fs → send_all fs c = (Ok tt, foldl sent_frame c fs).
Proof.
  intros Hc H. revert c Hc. induction H as [|f fs Hf _ IH]; intros c Hc; simpl; [done|].
  eapply ws_bind_ok; [apply send_frame_ok; [congruence|done]|]. by apply IH.
Qed.

Lemma foldl_sent_writer c fs : ws_writer (foldl sent_frame c fs) = ws_writer c ++ wires c fs.
Proof.
  revert c. induction fs as [|f fs IH]; intros c; simpl; [by rewrite app_nil_r|].
  rewrite IH. simpl. by rewrite <- (assoc_L (++)).
Qed.

(** [conveys op fs data pings]: the frames [fs] carry one message of payload
    [data], its first data frame having opcode [op], cut anywhere, with
    pings (of payloads [pings], in order) and pongs anywhere in between. *)
Inductive conveys : Opcode → list Frame → bytes → list bytes → Prop :=
| conveys_ping op p fs data pings :
    conveys op fs data pings → conveys op (mkFrame true PING p :: fs) data (p :: pings)
| conveys_pong op p fs data pings :
    conveys op fs data pings → conveys op (mkFrame true PONG p :: fs) data pings
| conveys_last op p : conveys op [mkFrame true op p] p []
| conveys_more op p fs data pings :
    conveys CONTINUATION fs data pings →
    conveys op (mkFrame false op p :: fs) (p ++ data) pings.

(** The result [read_message] has for a complete payload. *)
Definition message (is_text : bool) (data : bytes) : result ws_error (option IncomingMessage) :=
  if is_text then
    match utf8_decode data with
    | Some s => Ok (Some (TextMessage s))
    | None => Err (ProtocolError NotUtf8)
    end
  else Ok (Some (BinaryMessage data)).

Lemma incoming_message t data c : incoming t data c = (message t data, c).
Proof.
  unfold incoming, message, decode_text, mbind, ws_bind, lift. destruct t; [|done].
  by destruct (utf8_decode data).
Qed.

(** Where the loop stands when the next data frame has opcode [op]. *)
Definition resumes (op : Opcode) (a : assembly) (t : bool) (prefix : bytes) : Prop :=
  (op = CONTINUATION ∧ as_fragmenting a = true ∧ as_is_text a = t ∧
   concat (as_fragments a) = prefix ∧ as_total a = blen prefix) ∨
  ((op = TEXT ∧ t = true ∨ op = BINARY ∧ t = false) ∧ as_fragmenting a = false ∧ prefix = []).

Lemma blen_app p q : blen (p ++ q) = blen p + blen q.
Proof. unfold blen. rewrite length_app. lia. Qed.

(** A data frame in place: the last one completes the message, another one
    extends the assembly. *)
Lemma on_frame_data op a t prefix fin p d :
  resumes op a t prefix → blen (prefix ++ p) <= ws_max_message_bytes d →
  if fin : bool then
    on_frame token_bytes a (mkFrame fin op p) d = (message t (prefix ++ p) ≫= λ m, Ok (inr m), d)
  else ∃ a', on_frame token_bytes a (mkFrame fin op p) d = (Ok (inl a'), d) ∧
             resumes CONTINUATION a' t (prefix ++ p).
Proof.
  intros [(-> & Hf & <- & <- & Ht)|([[-> ->]|[-> ->]] & Hf & ->)] Hmax; unfold on_frame; simpl;
    rewrite Hf; unfold mbind, ws_bind, when, mret, ws_ret, get; simpl.
  - rewrite Ht, <- blen_app. rewrite (proj2 (Z.ltb_ge _ _) Hmax). destruct fin.
    + rewrite incoming_message, concat_app. simpl. rewrite app_nil_r. by destruct (message _ _).
    + eexists. split; [reflexivity|]. left. simpl. rewrite concat_app. simpl.
      by rewrite app_nil_r.
  - destruct fin; [unfold decode_text, lift; by destruct (utf8_decode p)|].
    eexists. split; [reflexivity|]. left. simpl. by rewrite app_nil_r.
  - destruct fin; [done|].
    eexists. split; [reflexivity|]. left. simpl. by rewrite app_nil_r.
Qed.

Hypothesis token_length : ∀ n, length (token_bytes n) = 4%nat.

Definition answered (d : WebSocketConnection) (pings : list bytes) : WebSocketConnection :=
  foldl sent_frame d (mkFrame true PONG <$> pings).

Lemma loop_step fuel a c d f rest :
  frame_ok f → ws_expect_masked d = ws_mask_outgoing c →
  blen (fr_payload f) <= ws_max_message_bytes d →
  read_loop token_bytes (S fuel) a
    (set_reader d (wire (ws_mask_outgoing c) (token_bytes (ws_draws c)) (fr_opcode f)
                     (fr_payload f) (fr_fin f) ++ rest)) =
  (r ← on_frame token_bytes a f;
   match r with inl a' => read_loop token_bytes fuel a' | inr m => mret m end) (set_reader d rest).
Proof.
  intros Hf Hm Hmax. cbn [read_loop].
  eapply ws_bind_ok; [by apply read_frame_wire|]. by destruct f.
Qed.

Lemma on_frame_ping a p d :
  ws_closed d = false → blen p <= MAX_CONTROL_PAYLOAD →
  on_frame token_bytes a (mkFrame true PING p) d = (Ok (inl a), sent d PONG p true).
Proof.
  intros Hc Hp. unfold on_frame. simpl. eapply ws_bind_ok; [|done].
  apply send_frame_ok; [congruence|]. split; [done|]. unfold MAX_CONTROL_PAYLOAD in Hp. lia.
Qed.

(** The loop reads one conveyed message: it answers the pings, in order, and
    returns the whole payload. *)
Lemma read_loop_conveys op fs data pings :
  conveys op fs data pings →
  ∀ a t prefix c d fuel rest,
    resumes op a t prefix → Forall frame_ok fs → (length fs <= fuel)%nat →
    ws_closed d = false → ws_expect_masked d = ws_mask_outgoing c →
    blen (prefix ++ data) <= ws_max_message_bytes d →
    Forall (λ f, blen (fr_payload f) <= ws_max_message_bytes d) fs →
    read_loop token_bytes fuel a (set_reader d (concat (wires c fs) ++ rest)) =
      (message t (prefix ++ data), set_reader (answered d pings) rest).
Proof.
  induction 1 as [op p fs data pings _ IH|op p fs data pings _ IH|op p|op p fs data pings _ IH];
    intros a t prefix c d [|fuel] rest Ha Hok Hfuel Hc Hm Hmax Hsize; simpl in Hfuel; try lia;
    apply Forall_cons in Hok as [Hf Hok]; apply Forall_cons in Hsize as [Hs Hsize];
    cbn [wires concat]; rewrite <- (assoc_L (++)); rewrite loop_step by done.
  - eapply ws_bind_ok; [apply on_frame_ping; [done|by apply Hf]|].
    apply (IH a t prefix (sent_frame c _) (sent d PONG p true) fuel rest); done || lia.
  - eapply ws_bind_ok; [done|]. apply (IH a t prefix (sent_frame c _)); done || lia.
  - pose proof (on_frame_data op a t prefix true p (set_reader d rest) Ha Hmax) as H. simpl in H.
    simpl. unfold mbind, ws_bind. rewrite H. by destruct (message t _).
  - destruct (on_frame_data op a t prefix false p (set_reader d (concat (wires (sent_frame c (mkFrame false op p)) fs) ++ rest)) Ha) as (a' & E & Ha').
    { simpl. rewrite (assoc_L (++)) in Hmax. rewrite blen_app in Hmax.
      pose proof (blen_nonneg data). lia. }
    eapply ws_bind_ok; [exact E|]. rewrite (assoc_L (++)).
    apply (IH a' t (prefix ++ p) (sent_frame c _)); try done; [lia|].
    by rewrite <- (assoc_L (++)).
Qed.
End frames.

Section roundtrips.
Context (token_bytes : nat → bytes) (token_length : ∀ n, length (token_bytes n) = 4%nat).

(** A frame that is sent is read back: for every opcode, payload below
    2^64 bytes (so all three length encodings), final flag and masking, a
    frame that keeps the control-frame rules is written as one chunk, and a
    peer that expects this masking and accepts this size reads exactly that
    frame from the chunk and leaves whatever follows it; a control frame
    that breaks the rules is refused before a byte is written. *)
Theorem frame_roundtrip c d op p fin rest :
  ws_closed c = false → ws_expect_masked d = ws_mask_outgoing c →
  blen p < 2 ^ 64 → blen p <= ws_max_message_bytes d →
  (is_control op = true ∧ (fin = false ∨ MAX_CONTROL_PAYLOAD < blen p) ∧
   ∃ v, send_frame token_bytes op p fin c = (Err (ProtocolError v), c)) ∨
  ∃ chunk c', send_frame token_bytes op p fin c = (Ok tt, c') ∧
    ws_writer c' = ws_writer c ++ [chunk] ∧
    read_frame token_bytes (set_reader d (chunk ++ rest)) =
      (Ok (mkFrame fin op p), set_reader d rest).
Proof.
  intros Hc Hm Hlen Hmax.
  destruct (decide (is_control op = true ∧ (fin = false ∨ MAX_CONTROL_PAYLOAD < blen p)))
    as [[H1 H2]|Hok];
    [left; split; [done|]; split; [done|]; apply send_frame_refuses; [congruence|done..]|right].
  assert (Hs : sendable op p fin).
  { split; [|done]. intros H. destruct fin; [|naive_solver]. split; [done|].
    destruct (Z.le_gt_cases (blen p) MAX_CONTROL_PAYLOAD); naive_solver. }
  eexists _, _. split; [apply send_frame_ok; [congruence|done]|]. split; [reflexivity|].
  by apply read_frame_wire.
Qed.

Lemma conveys_ok op fs data pings M :
  conveys op fs data pings → is_control op = false →
  Forall (λ f, is_control (fr_opcode f) = true → blen (fr_payload f) <= MAX_CONTROL_PAYLOAD) fs →
  blen data <= M → MAX_CONTROL_PAYLOAD <= M < 2 ^ 64 →
  Forall frame_ok fs ∧ Forall (λ f, blen (fr_payload f) <= M) fs.
Proof.
  induction 1 as [op p fs data pings _ IH|op p fs data pings _ IH|op p|op p fs data pings _ IH];
    intros Hop [Hf Hfs]%Forall_cons Hd HM; simpl in Hf; rewrite !Forall_cons; unfold frame_ok at 1;
    unfold sendable; simpl.
  - specialize (Hf eq_refl). destruct IH; auto with lia.
  - specialize (Hf eq_refl). destruct IH; auto with lia.
  - rewrite Hop. split; [split; [|done]|done]. split; [done|lia].
  - rewrite blen_app in Hd. pose proof (blen_nonneg p). pose proof (blen_nonneg data).
    rewrite Hop. destruct IH as [I1 I2]; [done|done|lia|done|].
    split; split; try done; [split; [done|lia]|lia].
Qed.

Lemma conveys_pings op fs data pings :
  conveys op fs data pings →
  Forall (λ f, is_control (fr_opcode f) = true → blen (fr_payload f) <= MAX_CONTROL_PAYLOAD) fs →
  Forall frame_ok (mkFrame true PONG <$> pings).
Proof.
  induction 1 as [op p fs data pings _ IH| | |]; intros [Hf Hfs]%Forall_cons; simpl; auto.
  constructor; [|auto]. specialize (Hf eq_refl). split; [done|].
  simpl in *. unfold MAX_CONTROL_PAYLOAD in Hf. lia.
Qed.

Lemma wires_length c fs :
  Forall frame_ok fs → (length fs <= length (concat (wires token_bytes c fs)))%nat.
Proof.
  intros H. revert c. induction H as [|f fs Hf _ IH]; intros c; simpl; [lia|]. rewrite length_app.
  specialize (IH (sent_frame token_bytes c f)).
  destruct (wire_shape (ws_mask_outgoing c) (token_bytes (ws_draws c)) (fr_opcode f)
    (fr_payload f) (fr_fin f)) as (l7 & ext & -> & _); [apply Hf|]. simpl. lia.
Qed.

(** A message arrives whole however it was cut: for any split of a text
    or binary payload into frames, with pings and pongs anywhere between
    them, what the sender writes makes [read_message] return the whole
    payload (decoded, for text), after answering every ping with a pong of
    the same payload in order, and leaves the bytes that follow unread; a
    text that was encoded arrives as that text. *)
Theorem fragmented_message_reassembled (is_text : bool) fs data pings c d rest :
  conveys (if is_text then TEXT else BINARY) fs data pings →
  Forall (λ f, is_control (fr_opcode f) = true → blen (fr_payload f) <= MAX_CONTROL_PAYLOAD) fs →
  ws_closed c = false → ws_closed d = false → ws_expect_masked d = ws_mask_outgoing c →
  blen data <= ws_max_message_bytes d → MAX_CONTROL_PAYLOAD <= ws_max_message_bytes d < 2 ^ 64 →
  ∃ c' chunks d',
    send_all token_bytes fs c = (Ok tt, c') ∧ ws_writer c' = ws_writer c ++ chunks ∧
    send_all token_bytes (mkFrame true PONG <$> pings) d = (Ok tt, d') ∧
    read_message token_bytes (set_reader d (concat chunks ++ rest)) =
      (message is_text data, set_reader d' rest) ∧
    (∀ s, is_text = true → utf8_encode s = Some data →
       message is_text data = Ok (Some (TextMessage s))).
Proof.
  intros Hcv Hctl Hc Hd Hm Hdata HM.
  destruct (conveys_ok _ _ _ _ _ Hcv ltac:(by destruct is_text) Hctl Hdata HM) as [Hok Hsize].
  eexists _, _, _. split; [by apply send_all_ok|]. split; [apply foldl_sent_writer|].
  split; [by apply send_all_ok; [|eapply conveys_pings]|]. split.
  - unfold read_message. apply (read_loop_conveys _ token_length _ _ _ _ Hcv no_assembly is_text []); try done.
    + right. destruct is_text; auto.
    + simpl. rewrite length_app. pose proof (wires_length c fs Hok). lia.
  - intros s -> Hs. unfold message. by rewrite (utf8_roundtrip s data).
Qed.
End roundtrips.

(** ** The reading loop on arbitrary bytes *)

(** What no operation changes, and the direction of the reader. *)
Definition keeps (c c' : WebSocketConnection) : Prop :=
  ws_max_message_bytes c' = ws_max_message_bytes c ∧
  ws_mask_outgoing c' = ws_mask_outgoing c ∧ ws_expect_masked c' = ws_expect_masked c ∧
  suffix (ws_reader c') (ws_reader c).

(** A coroutine that always ends with a result or one of Python's exceptions
    and only consumes input. *)
Definition tame {A} (m : ws A) : Prop :=
  ∀ c, (m c).1 ≠ Err OutOfFuel ∧ keeps c (m c).2.

Lemma ws_keeps_refl c : keeps c c.
Proof. repeat split; reflexivity. Qed.

Lemma ws_keeps_trans c1 c2 c3 : keeps c1 c2 → keeps c2 c3 → keeps c1 c3.
Proof. unfold keeps. intros (?&?&?&?) (?&?&?&?). repeat split; try congruence. by etrans. Qed.

Lemma tame_ret {A} (a : A) : tame (mret a).
Proof. intros c. split; [done|apply ws_keeps_refl]. Qed.

Lemma tame_bind {A B} (m : ws A) (f : A → ws B) : tame m → (∀ a, tame (f a)) → tame (m ≫= f).
Proof.
  intros Hm Hf c. unfold mbind, ws_bind. specialize (Hm c). destruct (m c) as [[a|e] c']; simpl in *.
  - destruct (Hf a c') as [H1 H2]. split; [done|]. destruct Hm. by eapply ws_keeps_trans.
  - split; [|apply Hm]. intros [= ->]. by apply Hm.
Qed.

Lemma tame_raise {A} e : e ≠ OutOfFuel → tame (@raise A e).
Proof. intros He c. split; [by intros [= ->]|apply ws_keeps_refl]. Qed.

Lemma tame_get {A} (f : WebSocketConnection → A) : tame (get f).
Proof. intros c. split; [done|apply ws_keeps_refl]. Qed.

Lemma tame_lift {A} (o : option A) e : e ≠ OutOfFuel → tame (lift o e).
Proof. intros He c. unfold lift. split; [destruct o; naive_solver|apply ws_keeps_refl]. Qed.

Lemma tame_when b m : tame m → tame (when b m).
Proof. destruct b; [done|intros _; apply tame_ret]. Qed.

Lemma tame_modify f : (∀ c, keeps c (f c)) → tame (modify f).
Proof. intros Hf c. split; [done|apply Hf]. Qed.

Lemma tame_suppress p m : tame m → tame (suppress p m).
Proof.
  intros H c. unfold suppress. specialize (H c). destruct (m c) as [[a|e] c']; simpl in *; [done|].
  destruct (p e); simpl; [|done]. split; [done|apply H].
Qed.

Create HintDb ws.
#[export] Hint Resolve tame_ret tame_get ws_keeps_refl : ws.

(** Walk through a coroutine statement by statement. *)
Ltac tame :=
  repeat (cbv zeta; lazymatch goal with
  | |- tame (_ ≫= _) => apply tame_bind; [|intros ?]
  | |- tame (raise _) => by apply tame_raise
  | |- tame (lift _ _) => by apply tame_lift
  | |- tame (when _ _) => apply tame_when
  | |- tame (modify _) => apply tame_modify; intros ?; repeat split; reflexivity
  | |- tame (suppress _ _) => apply tame_suppress
  | |- tame (match ?x with _ => _ end) => destruct x eqn:?
  | |- tame _ => solve [eauto with ws]
  end).

Lemma tame_run {A} (m : ws A) c r c' : tame m → m c = (r, c') → keeps c c'.
Proof. intros H E. specialize (H c). rewrite E in H. apply H. Qed.

Lemma keeps_length c c' : keeps c c' → (length (ws_reader c') <= length (ws_reader c))%nat.
Proof. intros (_ & _ & _ & H). by apply suffix_length. Qed.

Section arbitrary.
Context (token_bytes : nat → bytes).

Lemma tame_send_frame op p fin : tame (send_frame token_bytes op p fin).
Proof. unfold send_frame. tame. Qed.
#[local] Hint Resolve tame_send_frame : ws.

Lemma tame_fail_with code reason : tame (fail_with token_bytes code reason).
Proof. unfold fail_with. tame. Qed.
#[local] Hint Resolve tame_fail_with : ws.

Lemma tame_read_exactly n : tame (read_exactly n).
Proof.
  intros c. unfold read_exactly, mbind, ws_bind, get, modify. case_match; simpl.
  - split; [done|]. repeat split; try done. apply suffix_drop.
  - split; [done|]. repeat split; try done. apply suffix_nil.
Qed.
#[local] Hint Resolve tame_read_exactly : ws.

Lemma tame_read_frame : tame (read_frame token_bytes).
Proof. unfold read_frame. tame. Qed.
#[local] Hint Resolve tame_read_frame : ws.

Lemma tame_on_frame a f : tame (on_frame token_bytes a f).
Proof. unfold on_frame, incoming, decode_text, on_close, send_pong, close_stream. tame. Qed.
#[local] Hint Resolve tame_on_frame : ws.

Lemma read_exactly_Ok n c b c' :
  read_exactly n c = (Ok b, c') →
  length b = Z.to_nat n ∧ length (ws_reader c) = (Z.to_nat n + length (ws_reader c'))%nat ∧
  keeps c c'.
Proof.
  intros H. pose proof (tame_run _ _ _ _ (tame_read_exactly n) H) as K.
  unfold read_exactly, mbind, ws_bind, get, modify in H.
  destruct (Nat.leb_spec (Z.to_nat n) (length (ws_reader c))); [|done]. injection H as <- <-. simpl.
  split; [rewrite length_take; lia|]. split; [rewrite length_drop; lia|done].
Qed.

(** The sizes and rules of every frame that is read. *)
Lemma read_frame_Ok c f c' :
  0 <= ws_max_message_bytes c → read_frame token_bytes c = (Ok f, c') →
  blen (fr_payload f) <= ws_max_message_bytes c ∧
  (2 + length (ws_reader c') <= length (ws_reader c))%nat ∧
  (is_control (fr_opcode f) = true → fr_fin f = true ∧ blen (fr_payload f) <= MAX_CONTROL_PAYLOAD).
Proof.
  intros Hmax H. unfold read_frame in H.
  apply ws_bind_inv in H as (hd & c1 & H1 & H). apply read_exactly_Ok in H1 as (_ & L1 & K1).
  apply ws_bind_inv in H as (? & ? & [_ ->]%ws_raise_inv & H).
  destruct (opcode_of _) as [op|]; [|apply ws_bind_inv in H as (? & ? & _ & H); done].
  apply ws_bind_inv in H as (em & c2' & H2' & H). injection H2' as <- <-.
  apply ws_bind_inv in H as (? & ? & [_ ->]%ws_guard_inv & H).
  apply ws_bind_inv in H as (len & c4 & H4 & H). apply tame_run in H4; [|tame; eauto with ws].
  apply ws_bind_inv in H as (? & c5 & H5 & H).
  assert (Hctl : c5 = c4 ∧ (is_control op = true →
    negb (Z.land (nth 0 hd 0) 128 =? 0) = true ∧ len <= MAX_CONTROL_PAYLOAD)).
  { unfold when in H5 at 1. destruct (is_control op); [|by injection H5 as _ ->].
    apply ws_bind_inv in H5 as (? & ? & [E ->]%ws_guard_inv & [E' ->]%ws_guard_inv).
    split; [done|]. intros _. apply negb_false_iff in E. apply Z.ltb_ge in E'. done. }
  destruct Hctl as [-> Hctl].
  apply ws_bind_inv in H as (max & ? & [= <- <-] & H).
  apply ws_bind_inv in H as (? & ? & [E ->]%ws_guard_inv & H). apply Z.ltb_ge in E.
  apply ws_bind_inv in H as (key & c6 & H6 & H). apply tame_run in H6; [|tame; eauto with ws].
  apply ws_bind_inv in H as (payload & c7 & H7 & [= <- <-]). cbn [fr_payload fr_opcode fr_fin].
  assert (Hlen : blen payload = Z.max 0 len ∧ keeps c6 c7).
  { destruct (Z.eqb_spec len 0) as [->|_]; [injection H7 as <- <-; auto using ws_keeps_refl|].
    apply read_exactly_Ok in H7 as (Hp & _ & ?). split; [unfold blen; lia|done]. }
  destruct Hlen as [Hlen K7].
  assert (Hb : blen (if negb (Z.land (nth 1 hd 0) 128 =? 0) then mask payload key else payload)
               = Z.max 0 len).
  { destruct (negb (Z.land (nth 1 hd 0) 128 =? 0)); [|exact Hlen]. unfold blen in *. by rewrite mask_length. }
  rewrite Hb. destruct H4 as (M4 & H4), K1 as (M1 & _).
  assert (K4 : keeps c1 c4) by (split; done). apply keeps_length in K4, H6, K7.
  rewrite M4, M1 in E. split; [lia|]. split; [simpl in L1; lia|].
  intros Hop. destruct (Hctl Hop). unfold MAX_CONTROL_PAYLOAD in *. split; [done|lia].
Qed.

(** What the loop may return. *)
Definition delivered (max : Z) (c' : WebSocketConnection) (m : option IncomingMessage) : Prop :=
  match m with
  | None => ws_closed c' = true ∧ ws_close_sent c' = true ∧ ws_stream_closed c' = true
  | Some (BinaryMessage b) => blen b <= max
  | Some (TextMessage s) => ∃ b, utf8_decode b = Some s ∧ blen b <= max
  end.

Definition assembling (a : assembly) : Prop :=
  as_fragmenting a = true → as_total a = blen (concat (as_fragments a)).

Lemma incoming_Ok t data c m c' max :
  blen data <= max → incoming t data c = (Ok m, c') → delivered max c' m.
Proof.
  intros Hb. rewrite incoming_message. unfold message. destruct t; [|by intros [= <- <-]].
  destruct (utf8_decode data) eqn:E; [|done]. intros [= <- <-]. simpl. eauto.
Qed.

Lemma on_close_Ok p c m c' :
  on_close token_bytes p c = (Ok m, c') →
  m = None ∧ ws_closed c' = true ∧ ws_close_sent c' = true ∧ ws_stream_closed c' = true.
Proof.
  intros H. unfold on_close, close_stream in H.
  apply ws_bind_inv in H as (? & c1 & [= <- <-] & H).
  apply ws_bind_inv in H as (sent & ? & [= <- <-] & H).
  apply ws_bind_inv in H as (? & c2 & H2 & H).
  apply ws_bind_inv in H as (? & c3 & [= <- <-] & H).
  apply ws_bind_inv in H as (? & c4 & [= <- <-] & [= <- <-]). simpl.
  split; [done|]. split; [done|]. split; [|done].
  destruct (ws_close_sent c) eqn:E; simpl in H2.
  - by injection H2 as _ <-.
  - apply ws_bind_inv in H2 as (? & ? & _ & [= _ <-]). done.
Qed.

Lemma on_frame_Ok a f c r c' :
  blen (fr_payload f) <= ws_max_message_bytes c → assembling a →
  on_frame token_bytes a f c = (Ok r, c') →
  match r with
  | inl a' => assembling a'
  | inr m => delivered (ws_max_message_bytes c) c' m
  end.
Proof.
  intros Hp Ha. destruct f as [fin op p]. unfold on_frame. simpl in *.
  destruct op; intros H; try apply ws_bind_inv in H as (? & c1 & H1 & H).
  - apply ws_guard_inv in H1 as [Hf ->]. apply negb_false_iff in Hf.
    apply ws_bind_inv in H as (max & ? & [= <- <-] & H).
    apply ws_bind_inv in H as (? & ? & [E ->]%ws_guard_inv & H). apply Z.ltb_ge in E.
    assert (Hc : blen (concat (as_fragments a ++ [p])) = as_total a + blen p).
    { rewrite concat_app. simpl. by rewrite app_nil_r, blen_app, (Ha Hf). }
    destruct fin; [|injection H as <- _; intros _; exact (eq_sym Hc)].
    apply ws_bind_inv in H as (m & c2 & Hm & [= <- <-]). eapply incoming_Ok; [|done]. lia.
  - apply ws_guard_inv in H1 as [Hf ->]. destruct fin; simpl in H.
    + apply (ws_bind_inv (incoming true p)) in H as (m & c2 & Hm & [= <- <-]). by eapply incoming_Ok.
    + injection H as <- _. intros _. simpl. by rewrite app_nil_r.
  - apply ws_guard_inv in H1 as [Hf ->]. destruct fin; simpl in H.
    + by injection H as <- <-.
    + injection H as <- _. intros _. simpl. by rewrite app_nil_r.
  - injection H as <- <-. apply on_close_Ok in H1 as (-> & H1). exact H1.
  - by injection H as <- _.
  - by injection H as <- _.
Qed.

Lemma read_loop_total fuel : ∀ a c,
  0 <= ws_max_message_bytes c → (length (ws_reader c) < fuel)%nat → assembling a →
  match read_loop token_bytes fuel a c with
  | (Ok m, c') => delivered (ws_max_message_bytes c) c' m ∧ keeps c c'
  | (Err e, c') => e ≠ OutOfFuel ∧ keeps c c'
  end.
Proof.
  induction fuel as [|fuel IH]; intros a c Hmax Hlen Ha; [lia|]. cbn [read_loop].
  unfold mbind, ws_bind. pose proof (tame_read_frame c) as [T1 K1].
  destruct (read_frame token_bytes c) as [[f|e] c1] eqn:E1; simpl in T1, K1;
    [|split; [congruence|done]].
  apply read_frame_Ok in E1 as (Hp & Hrd & _); [|done].
  pose proof (tame_on_frame a f c1) as [T2 K2].
  destruct (on_frame token_bytes a f c1) as [[r|e] c2] eqn:E2; simpl in T2, K2;
    [|split; [congruence|by eapply ws_keeps_trans]].
  assert (M1 : ws_max_message_bytes c1 = ws_max_message_bytes c) by apply K1.
  apply on_frame_Ok in E2; [|by rewrite M1|done]. rewrite M1 in E2.
  destruct r as [a'|m]; [|split; [done|by eapply ws_keeps_trans]].
  assert (M2 : ws_max_message_bytes c2 = ws_max_message_bytes c) by (rewrite <- M1; apply K2).
  specialize (IH a' c2). rewrite M2 in IH. apply keeps_length in K2 as L2.
  destruct (read_loop token_bytes fuel a' c2) as [[m|e] c3];
    (destruct IH as [H K]; [done|lia|done|]; split; [done|]; do 2 (eapply ws_keeps_trans; [done|]); done).
Qed.

(** C40: Reading always ends and is bounded: on every byte stream, however
    malformed or truncated, [read_message] returns or raises one of its
    exceptions within one turn per byte; a returned message was at most
    [max_message_bytes] long on the wire, fragments included, and text was
    valid UTF-8; a clean close leaves the connection closed, the close frame
    sent and the stream shut; the unread input is a suffix of the input. *)
Theorem read_message_total c :
  0 <= ws_max_message_bytes c →
  match read_message token_bytes c with
  | (Ok m, c') => delivered (ws_max_message_bytes c) c' m ∧ keeps c c'
  | (Err e, c') => e ≠ OutOfFuel ∧ keeps c c'
  end.
Proof. intros H. apply read_loop_total; [done|lia|done]. Qed.
End arbitrary.

(** ** The close frame *)

(** A chunk of the writer that is a close frame. *)
Definition is_close (chunk : bytes) : Prop := Z.land (nth 0 chunk 0) 15 = opcode_value CLOSE.

#[export] Instance is_close_dec chunk : Decision (is_close chunk).
Proof. unfold is_close. apply _. Defined.

Definition closes (c : WebSocketConnection) : nat := length (filter is_close (ws_writer c)).

(** No close frame is on the wire that [close_sent] does not record. *)
Definition close_inv (c : WebSocketConnection) : Prop :=
  (closes c <= if ws_close_sent c then 1 else 0)%nat.

Definition guarded {A} (m : ws A) : Prop := ∀ c, close_inv c → close_inv (m c).2.

Lemma guarded_bind {A B} (m : ws A) (f : A → ws B) :
  guarded m → (∀ a, guarded (f a)) → guarded (m ≫= f).
Proof.
  intros Hm Hf c Hc. unfold mbind, ws_bind. specialize (Hm c Hc).
  destruct (m c) as [[a|e] c']; simpl in *; [by apply Hf|done].
Qed.

(** A statement that neither writes nor touches [close_sent]. *)
Lemma guarded_quiet {A} (m : ws A) :
  (∀ c, ws_writer (m c).2 = ws_writer c ∧ ws_close_sent (m c).2 = ws_close_sent c) → guarded m.
Proof. intros H c. unfold close_inv, closes. by destruct (H c) as [-> ->]. Qed.

Lemma guarded_when b m : guarded m → guarded (when b m).
Proof. destruct b; [done|]. intros _. by apply guarded_quiet. Qed.

#[export] Hint Extern 1 (guarded _) => (by apply guarded_quiet) : ws.

Ltac guarded :=
  repeat (cbv zeta; lazymatch goal with
  | |- guarded (_ ≫= _) => apply guarded_bind; [|intros ?]
  | |- guarded (when _ _) => apply guarded_when
  | |- guarded (match ?x with _ => _ end) => destruct x eqn:?
  | |- guarded _ => solve [eauto with ws]
  end).

Section closing.
Context (token_bytes : nat → bytes).

Lemma frame_header_first first mb n h : frame_header first mb n = Some h → ∃ l, h = first :: l.
Proof.
  unfold frame_header. intros H.
  repeat case_match; [injection H as <-; eauto|..]; destruct (struct_pack _ _); simplify_eq/=; eauto.
Qed.

Lemma control_cases op p (fin : bool) c :
  let m := when (is_control op)
    (when (negb fin) (raise (ProtocolError FragmentedControl));;
     when (MAX_CONTROL_PAYLOAD <? blen p) (raise (ProtocolError OversizedControl))) in
  m c = (Ok tt, c) ∨ ∃ e, m c = (Err e, c).
Proof.
  cbv zeta. destruct (is_control op); [|by left]. destruct fin; [|by right; eexists].
  simpl. unfold mbind, ws_bind, mret, ws_ret, when. destruct (_ <? _); [|by left].
  by right; eexists.
Qed.

(** [send_frame] writes one chunk, which carries its opcode, or nothing. *)
Lemma send_frame_cases op p fin c :
  (∃ e, send_frame token_bytes op p fin c = (Err e, c)) ∨
  ∃ chunk n, send_frame token_bytes op p fin c = (Ok tt, written c chunk n) ∧
             Z.land (nth 0 chunk 0) 15 = opcode_value op.
Proof.
  unfold send_frame. rewrite (ws_bind_eq (get (λ c, c)) _ c c c eq_refl). cbv beta zeta.
  destruct (ws_closed c && _).
  { left. eexists. by eapply ws_bind_err. }
  rewrite (ws_bind_eq (when false _) _ c tt c eq_refl).
  destruct (control_cases op p fin c) as [E|[e E]]; [|left; exists e; by apply ws_bind_err].
  rewrite (ws_bind_eq _ _ c tt c E).
  destruct (frame_header _ _ _) as [h|] eqn:Eh; [|left; eexists; by eapply ws_bind_err].
  destruct (frame_header_first _ _ _ _ Eh) as [l ->].
  destruct (first_byte fin op) as (_ & _ & _ & Hop).
  rewrite (ws_bind_eq (lift (Some _) StructError) _ c _ c eq_refl). right.
  destruct (ws_mask_outgoing c); eexists _, _; (split; [reflexivity|apply Hop]).
Qed.

Lemma closes_written c chunk n :
  closes (written c chunk n) =
    (closes c + if decide (is_close chunk) then 1 else 0)%nat.
Proof.
  unfold closes. simpl. rewrite filter_app, length_app. f_equal.
  unfold filter. simpl. by case_decide.
Qed.

(** Frames other than CLOSE. *)
Lemma guarded_send_frame op p fin : op ≠ CLOSE → guarded (send_frame token_bytes op p fin).
Proof.
  intros Hop c Hc. destruct (send_frame_cases op p fin c) as [[e ->]|(chunk & n & -> & Hb)]; [done|].
  unfold close_inv in *. simpl. rewrite closes_written, decide_False; [lia|].
  unfold is_close. rewrite Hb. by destruct op.
Qed.

(** A coroutine that writes at most one chunk and leaves the flags alone. *)
Definition one_chunk (m : ws unit) : Prop := ∀ c,
  (closes (m c).2 <= S (closes c))%nat ∧ ws_close_sent (m c).2 = ws_close_sent c.

Lemma one_chunk_close p : one_chunk (send_frame token_bytes CLOSE p true).
Proof.
  intros c. destruct (send_frame_cases CLOSE p true c) as [[e ->]|(chunk & n & -> & _)];
    cbn [snd]; [split; [lia|done]|]. rewrite closes_written. case_decide; (split; [lia|done]).
Qed.

Lemma one_chunk_lift {A} (o : option A) e f :
  (∀ a, one_chunk (f a)) → one_chunk (lift o e ≫= f).
Proof.
  intros H c. unfold mbind, ws_bind, lift. destruct o; [apply H|]. simpl. split; [lia|done].
Qed.

(** The idiom of [_fail] and [close]: the flag goes up before the frame goes out. *)
Lemma guarded_flag_first b p m :
  one_chunk m → ∀ c, close_inv c → (b = true → ws_close_sent c = false) →
  close_inv (when b (modify set_close_sent;; suppress p m) c).2.
Proof.
  intros H c Hc Hb. destruct b; [|done]. specialize (Hb eq_refl).
  unfold when, mbind, ws_bind, modify, suppress. specialize (H (set_close_sent c)).
  destruct (m (set_close_sent c)) as [[a|e] c']; simpl in H; try destruct (p e);
    unfold close_inv in *; rewrite Hb in Hc; simpl; destruct H as [H1 ->]; simpl;
    unfold closes in *; simpl in *; lia.
Qed.

Lemma guarded_fail_with code reason : guarded (fail_with token_bytes code reason).
Proof.
  intros c Hc. unfold fail_with. rewrite (ws_bind_eq (get ws_close_sent) _ c _ c eq_refl).
  apply guarded_flag_first; [|done|by intros ?%negb_true_iff].
  apply one_chunk_lift. intros. apply one_chunk_close.
Qed.

Lemma guarded_close code reason : guarded (close token_bytes code reason).
Proof.
  unfold close. intros c Hc. rewrite (ws_bind_eq (get ws_closed) _ c _ c eq_refl).
  apply guarded_bind; [by apply guarded_quiet| |done]. intros _ c1 H1.
  rewrite (ws_bind_eq (get ws_close_sent) _ c1 _ c1 eq_refl).
  revert c1 H1.
  assert (H : ∀ c1, close_inv c1 → close_inv
    (when (negb (ws_close_sent c1) && negb (ws_closed c)) (modify set_close_sent;;
       suppress is_transport_error (packed ← lift (struct_pack 2 code) StructError;
         text ← lift (utf8_encode reason) UnicodeEncodeError;
         send_frame token_bytes CLOSE (packed ++ text) true)) c1).2).
  { intros c1 H1. apply guarded_flag_first; [|done|].
    - do 2 (apply one_chunk_lift; intros ?). apply one_chunk_close.
    - rewrite andb_true_iff, negb_true_iff. by intros []. }
  intros c1 H1. specialize (H c1 H1). unfold mbind at 1, ws_bind at 1.
  destruct (when _ _ c1) as [[u|e] c2]; [|done].
  unfold close_stream. by apply (guarded_quiet (modify set_stream_closed)).
Qed.

Lemma guarded_on_close p : guarded (on_close token_bytes p).
Proof.
  unfold on_close. apply guarded_bind; [by apply guarded_quiet|]. intros _ c Hc.
  rewrite (ws_bind_eq (get ws_close_sent) _ c _ c eq_refl). revert c Hc.
  assert (H : ∀ c, close_inv c → close_inv (when (negb (ws_close_sent c))
    (send_frame token_bytes CLOSE p true;; modify set_close_sent) c).2).
  { intros c Hc. destruct (ws_close_sent c) eqn:E; [done|]. unfold when, mbind, ws_bind. simpl.
    pose proof (one_chunk_close p c) as [H1 H2].
    destruct (send_frame_cases CLOSE p true c) as [[e Es]|(chunk & n & Es & _)];
      rewrite Es in *; [done|]. simpl in *. unfold close_inv in *. rewrite E in Hc. simpl.
    unfold closes in *. simpl in *. lia. }
  intros c Hc. specialize (H c Hc). unfold mbind at 1, ws_bind at 1.
  destruct (when _ _ c) as [[u|e] c2]; [|done]. revert H.
  apply (guarded_quiet (modify set_closed;; close_stream;; mret None)). done.
Qed.

Lemma guarded_read_exactly n : guarded (read_exactly n).
Proof.
  apply guarded_quiet. intros c. unfold read_exactly, mbind, ws_bind, get, modify.
  by case_match.
Qed.

#[local] Hint Resolve guarded_fail_with guarded_close guarded_on_close guarded_read_exactly : ws.
#[local] Hint Extern 1 (guarded (send_frame _ _ _ _)) => (by apply guarded_send_frame) : ws.

Lemma guarded_read_frame : guarded (read_frame token_bytes).
Proof. unfold read_frame. guarded. Qed.

Lemma guarded_on_frame a f : guarded (on_frame token_bytes a f).
Proof. unfold on_frame, incoming, decode_text, send_pong. guarded. Qed.
#[local] Hint Resolve guarded_read_frame guarded_on_frame : ws.

Lemma guarded_read_loop fuel : ∀ a, guarded (read_loop token_bytes fuel a).
Proof. induction fuel; intros a; simpl; guarded. Qed.

(** Only transport errors come out of sending a close frame. *)
Lemma send_close_suppressed p c :
  ∃ c', suppress is_transport_error (send_frame token_bytes CLOSE p true) c = (Ok tt, c').
Proof.
  unfold suppress. destruct (decide (blen p <= MAX_CONTROL_PAYLOAD)) as [H|H].
  - rewrite send_frame_ok; [eauto|done|]. split; [done|]. unfold MAX_CONTROL_PAYLOAD in H. lia.
  - destruct (send_frame_refuses token_bytes c CLOSE p true) as [v ->]; [done|done|right; lia|].
    eauto.
Qed.

Inductive ws_call :=
| SendText (s : unicode) | SendBytes (b : bytes) | SendPong (b : bytes) | ReadMessage
| Close (code : Z) (reason : unicode).

Definition run_ws (c : WebSocketConnection) (call : ws_call) : WebSocketConnection :=
  match call with
  | SendText s => (send_text token_bytes s c).2
  | SendBytes b => (send_bytes token_bytes b c).2
  | SendPong b => (send_pong token_bytes b c).2
  | ReadMessage => (read_message token_bytes c).2
  | Close code reason => (close token_bytes code reason c).2
  end.

Lemma run_ws_inv c call : close_inv c → close_inv (run_ws c call).
Proof.
  intros Hc. destruct call; simpl.
  - revert Hc. apply (guarded_bind (lift (utf8_encode s) UnicodeEncodeError)
      (λ p, send_frame token_bytes TEXT p true)); [by apply guarded_quiet|].
    intros. by apply guarded_send_frame.
  - by apply guarded_send_frame.
  - by apply guarded_send_frame.
  - by apply guarded_read_loop.
  - by apply guarded_close.
Qed.

Lemma close_returns c code reason text :
  0 <= code < 65536 → utf8_encode reason = Some text →
  ∃ c', close token_bytes code reason c = (Ok tt, c') ∧ ws_stream_closed c' = true.
Proof.
  intros Hcode Htext. unfold close. rewrite (ws_bind_eq (get ws_closed) _ c _ c eq_refl).
  rewrite (ws_bind_eq (modify set_closed) _ c tt (set_closed c) eq_refl).
  rewrite (ws_bind_eq (get ws_close_sent) _ (set_closed c) _ (set_closed c) eq_refl).
  rewrite Htext, struct_pack_Some by done.
  destruct (negb _ && negb _); [|by eexists].
  destruct (send_close_suppressed (be_bytes 2 code ++ text) (set_close_sent (set_closed c)))
    as [c1 E].
  rewrite (ws_bind_eq _ _ _ tt c1); [by eexists|]. exact E.
Qed.

(** One close frame at most: through any sequence of sends, reads
    (answers to peer closes and to protocol violations included) and closes,
    on any incoming bytes, the connection writes at most one CLOSE frame and
    records it; once it is closed no data frame is written any more; and
    [close] with a 16-bit code and an encodable reason always returns with
    the stream shut, however often it is called. *)
Theorem close_frame_sent_once reader mask_outgoing expect_masked max calls :
  let c := foldl run_ws (WebSocketConnection_init reader mask_outgoing expect_masked max) calls in
  (closes c <= 1)%nat ∧ (closes c = 1%nat → ws_close_sent c = true) ∧
  (ws_closed c = true → ∀ op data fin, op ≠ CLOSE →
     send_frame token_bytes op data fin c = (Err (ConnectionClosed None), c)) ∧
  (∀ code reason text, 0 <= code < 65536 → utf8_encode reason = Some text →
     ∃ c', close token_bytes code reason c = (Ok tt, c') ∧ ws_stream_closed c' = true).
Proof.
  intros c. assert (H : close_inv c).
  { unfold c. assert (H0 : close_inv (WebSocketConnection_init reader mask_outgoing expect_masked max))
      by (unfold close_inv, closes; simpl; lia). revert H0.
    generalize (WebSocketConnection_init reader mask_outgoing expect_masked max).
    induction calls as [|call calls IH]; intros c0 H0; [done|]. simpl. apply IH. by apply run_ws_inv. }
  unfold close_inv in H. split; [destruct (ws_close_sent c); lia|].
  split; [destruct (ws_close_sent c); [done|lia]|]. split; [|apply close_returns].
  intros Hc op data fin Hop. unfold send_frame.
  rewrite (ws_bind_eq (get (λ c, c)) _ c c c eq_refl). apply ws_bind_err.
  rewrite Hc, bool_decide_false by done. done.
Qed.
End closing.

(** ** Concrete connections *)

Definition demo_token (n : nat) : bytes := [1; 2; 3; Z.of_nat n mod 256].

Lemma demo_token_length n : length (demo_token n) = 4%nat.
Proof. done. Qed.

Definition demo_client : WebSocketConnection := WebSocketConnection_init [] true false 1048576.
Definition demo_server : WebSocketConnection := WebSocketConnection_init [] false true 1048576.

Lemma frame_roundtrip_witness :
  ∃ chunk c', send_frame demo_token BINARY [10; 20; 30] true demo_client = (Ok tt, c') ∧
    ws_writer c' = [chunk] ∧
    read_frame demo_token (set_reader demo_server (chunk ++ [99])) =
      (Ok (mkFrame true BINARY [10; 20; 30]), set_reader demo_server [99]).
Proof.
  destruct (frame_roundtrip demo_token demo_token_length demo_client demo_server BINARY [10; 20; 30]
    true [99] eq_refl eq_refl ltac:(vm_compute; reflexivity) ltac:(vm_compute; discriminate))
    as [(H & _)|H]; [discriminate H|exact H].
Defined.

Definition demo_frames : list Frame :=
  [mkFrame false TEXT [104]; mkFrame true PING [7]; mkFrame true CONTINUATION [105]].

Lemma demo_conveys : conveys TEXT demo_frames [104; 105] [[7]].
Proof. apply (conveys_more TEXT [104]), conveys_ping, conveys_last. Qed.

Lemma fragmented_message_reassembled_witness :
  ∃ c' chunks d',
    send_all demo_token demo_frames demo_client = (Ok tt, c') ∧ ws_writer c' = chunks ∧
    send_all demo_token [mkFrame true PONG [7]] demo_server = (Ok tt, d') ∧
    read_message demo_token (set_reader demo_server (concat chunks ++ [0])) =
      (Ok (Some (TextMessage [104; 105])), set_reader d' [0]).
Proof.
  destruct (fragmented_message_reassembled demo_token demo_token_length true demo_frames [104; 105]
    [[7]] demo_client demo_server [0] demo_conveys) as (c' & chunks & d' & H1 & H2 & H3 & H4 & _).
  - repeat constructor; vm_compute; discriminate.
  - reflexivity.
  - reflexivity.
  - reflexivity.
  - vm_compute; discriminate.
  - vm_compute; split; [discriminate|reflexivity].
  - exists c', chunks, d'. split; [exact H1|]. split; [exact H2|]. split; [exact H3|exact H4].
Defined.

Lemma read_message_total_witness :
  ∃ c', read_message demo_token (WebSocketConnection_init [130; 1; 65] false false 10)
    = (Ok (Some (BinaryMessage [65])), c') ∧ blen [65] <= 10.
Proof.
  pose proof (read_message_total demo_token (WebSocketConnection_init [130; 1; 65] false false 10)
    ltac:(vm_compute; discriminate)) as H.
  exists (WebSocketConnection_init [] false false 10). split; [reflexivity|]. exact (proj1 H).
Defined.
