(* ===== verification/Json.v ===== *)
(** * JSON, as [json.dumps] and [json.loads] do it

    The part of the standard library's [json] module the codecs of GhostLink
    rest on: [json.dumps(v, separators=(",", ":"))] (with its default
    [ensure_ascii=True]) and [json.loads(text)] on text given as code
    points.  A float is the literal it is written as; [int] refuses
    literals of more than 4300 digits with a [ValueError] that is not a
    [JSONDecodeError].  The interpreter's recursion limit is not modelled. *)

From Stdlib Require Import Ascii DecimalString.
From S2P Require Import Prelude Text Utf8.

Open Scope Z_scope.

Unset Elimination Schemes.
Inductive json :=
| JNull
| JBool (b : bool)
| JInt (z : Z)
| JFloat (literal : unicode)
| JStr (s : unicode)
| JArr (items : list json)
| JObj (members : list (unicode * json)).
Set Elimination Schemes.

Section induction.
Variable P : json → Prop.
Hypothesis HNull : P JNull.
Hypothesis HBool : ∀ b, P (JBool b).
Hypothesis HInt : ∀ z, P (JInt z).
Hypothesis HFloat : ∀ s, P (JFloat s).
Hypothesis HStr : ∀ s, P (JStr s).
Hypothesis HArr : ∀ l, Forall P l → P (JArr l).
Hypothesis HObj : ∀ l, Forall (λ kv, P kv.2) l → P (JObj l).

(** Induction through the elements of arrays and objects. *)
Fixpoint json_ind (v : json) : P v :=
  match v with
  | JNull => HNull
  | JBool b => HBool b
  | JInt z => HInt z
  | JFloat s => HFloat s
  | JStr s => HStr s
  | JArr l => HArr l ((fix go l := match l return Forall P l with
                                   | [] => Forall_nil_2 _
                                   | x :: l' => Forall_cons_2 _ _ _ (json_ind x) (go l')
                                   end) l)
  | JObj l => HObj l ((fix go l := match l return Forall (λ kv, P kv.2) l with
                                   | [] => Forall_nil_2 _
                                   | kv :: l' => Forall_cons_2 _ _ _ (json_ind kv.2) (go l')
                                   end) l)
  end.
End induction.

(** ** Printing *)

Definition cp (s : string) : unicode := encode s.
Definition quote : Z := 34.
Definition backslash : Z := 92.
Definition lbracket : Z := 91.
Definition rbracket : Z := 93.
Definition lbrace : Z := 123.
Definition rbrace : Z := 125.
Definition comma : Z := 44.
Definition colon : Z := 58.

(** [f"{n:04x}"] *)
Definition hex4 (n : Z) : unicode :=
  (λ k, code (hex_char (n / k mod 16))) <$> [4096; 256; 16; 1].

(** One character of [py_encode_basestring_ascii]. *)
Definition escape_char (c : Z) : unicode :=
  if (c =? quote) || (c =? backslash) then [backslash; c]
  else if (32 <=? c) && (c <=? 126) then [c]
  else if c =? 10 then cp "\n" else if c =? 13 then cp "\r" else if c =? 9 then cp "\t"
  else if c =? 12 then cp "\f" else if c =? 8 then cp "\b"
  else if c <? 65536 then cp "\u" ++ hex4 c
  else cp "\u" ++ hex4 (55296 + (c - 65536) / 1024) ++
       cp "\u" ++ hex4 (56320 + (c - 65536) mod 1024).

Definition dump_string (s : unicode) : unicode :=
  quote :: (s ≫= escape_char) ++ [quote].

(** Elements with the separator between them. *)
Fixpoint joined (sep : Z) (ls : list unicode) : unicode :=
  match ls with
  | [] => []
  | [l] => l
  | l :: ls' => l ++ sep :: joined sep ls'
  end.

Fixpoint dumps (v : json) : unicode :=
  match v with
  | JNull => cp "null"
  | JBool true => cp "true"
  | JBool false => cp "false"
  | JInt z => cp (str_of_Z z)
  | JFloat literal => literal
  | JStr s => dump_string s
  | JArr l => lbracket :: joined comma (dumps <$> l) ++ [rbracket]
  | JObj l =>
      lbrace ::
      joined comma
        ((λ kv, dump_string kv.1 ++ colon :: dumps kv.2) <$> l) ++ [rbrace]
  end.

(** ** Parsing *)

Inductive json_error := JSONDecodeError | IntTooLong.

Definition is_ws (c : Z) : bool := (c =? 32) || (c =? 9) || (c =? 10) || (c =? 13).

Fixpoint skip_ws (s : unicode) : unicode :=
  match s with c :: s' => if is_ws c then skip_ws s' else s | [] => [] end.

Definition digit (c : Z) : bool := (48 <=? c) && (c <=? 57).

(** The longest prefix of digits. *)
Fixpoint span_digits (s : unicode) : unicode * unicode :=
  match s with
  | c :: s' => if digit c then let '(d, r) := span_digits s' in (c :: d, r) else ([], s)
  | [] => ([], [])
  end.

Definition hex_value (c : Z) : option Z :=
  if digit c then Some (c - 48)
  else if (97 <=? c) && (c <=? 102) then Some (c - 87)
  else if (65 <=? c) && (c <=? 70) then Some (c - 55) else None.

(** The four hexadecimal digits of an escape. *)
Definition take_hex4 (s : unicode) : option (Z * unicode) :=
  match s with
  | a :: b :: c :: d :: s' =>
      a ← hex_value a; b ← hex_value b; c ← hex_value c; d ← hex_value d;
      Some (((a * 16 + b) * 16 + c) * 16 + d, s')
  | _ => None
  end.

(** One escape, after its backslash: the code point and the rest.  A high
    surrogate takes the low one that follows it. *)
Definition scan_escape (s : unicode) : option (Z * unicode) :=
  match s with
  | [] => None
  | e :: s' =>
      if (e =? quote) || (e =? backslash) || (e =? 47) then Some (e, s')
      else if e =? 98 then Some (8, s')
      else if e =? 102 then Some (12, s')
      else if e =? 110 then Some (10, s')
      else if e =? 114 then Some (13, s')
      else if e =? 116 then Some (9, s')
      else if e =? 117 then
        '(u, s1) ← take_hex4 s';
        match s1 with
        | b :: x :: s2 =>
            if (55296 <=? u) && (u <=? 56319) && (b =? backslash) && (x =? 117) then
              '(u2, s3) ← take_hex4 s2;
              if (56320 <=? u2) && (u2 <=? 57343)
              then Some (65536 + (u - 55296) * 1024 + (u2 - 56320), s3)
              else Some (u, s1)
            else Some (u, s1)
        | _ => Some (u, s1)
        end
      else None
  end.

(** [scanstring], after the opening quote; every step consumes a character. *)
Fixpoint scan_string (fuel : nat) (s : unicode) : option (unicode * unicode) :=
  match fuel with
  | O => None
  | S fuel' =>
      match s with
      | [] => None
      | c :: s' =>
          if c =? quote then Some ([], s')
          else if c =? backslash then
            '(x, s1) ← scan_escape s';
            '(xs, s2) ← scan_string fuel' s1;
            Some (x :: xs, s2)
          else if c <? 32 then None
          else '(xs, s2) ← scan_string fuel' s'; Some (c :: xs, s2)
      end
  end.

Definition digits_val (ds : unicode) : Z := foldl (λ acc d, acc * 10 + (d - 48)) 0 ds.

Definition INT_MAX_STR_DIGITS : nat := 4300.

(** The optional fraction and exponent of a number. *)
Definition scan_frac (s : unicode) : unicode * unicode :=
  match s with
  | p :: s' =>
      if p =? 46 then
        match span_digits s' with ([], _) => ([], s) | (d, r) => (p :: d, r) end
      else ([], s)
  | [] => ([], [])
  end.

Definition scan_exp (s : unicode) : unicode * unicode :=
  match s with
  | e :: s' =>
      if (e =? 101) || (e =? 69) then
        let '(sign, s1) := match s' with
                           | c :: s1 => if (c =? 43) || (c =? 45) then ([c], s1) else ([], s')
                           | [] => ([], [])
                           end in
        match span_digits s1 with ([], _) => ([], s) | (d, r) => (e :: sign ++ d, r) end
      else ([], s)
  | [] => ([], [])
  end.

(** The optional sign and the integer part. *)
Definition strip_minus (s : unicode) : bool * unicode :=
  match s with
  | c :: s' => if c =? 45 then (true, s') else (false, s)
  | [] => (false, [])
  end.

Definition scan_int (s : unicode) : unicode * unicode :=
  match s with
  | c :: s' => if c =? 48 then ([c], s') else span_digits s
  | [] => ([], [])
  end.

(** [_match_number] and the conversion of what it matched. *)
Definition scan_number (s : unicode) : result json_error (json * unicode) :=
  let '(neg, s0) := strip_minus s in
  let '(int, s1) := scan_int s0 in
  if bool_decide (int = []) then Err JSONDecodeError
  else
    let '(frac, s2) := scan_frac s1 in
    let '(exp, s3) := scan_exp s2 in
    if bool_decide (frac ++ exp = []) then
      guard_or (length int <=? INT_MAX_STR_DIGITS)%nat IntTooLong;;
      Ok (JInt (if neg then - digits_val int else digits_val int), s1)
    else Ok (JFloat ((if neg then [45] else []) ++ int ++ frac ++ exp), s3).

(** A literal at the head of the text. *)
Fixpoint eat (l s : unicode) : option unicode :=
  match l, s with
  | [], _ => Some s
  | a :: l', b :: s' => if a =? b then eat l' s' else None
  | _ :: _, [] => None
  end.

Definition constants : list (unicode * json) :=
  [(cp "null", JNull); (cp "true", JBool true); (cp "false", JBool false);
   (cp "NaN", JFloat (cp "NaN")); (cp "Infinity", JFloat (cp "Infinity"));
   (cp "-Infinity", JFloat (cp "-Infinity"))].

Fixpoint scan_constant (cs : list (unicode * json)) (s : unicode) : option (json * unicode) :=
  match cs with
  | [] => None
  | (l, v) :: cs' => match eat l s with Some r => Some (v, r) | None => scan_constant cs' s end
  end.

Definition of_scan {A} (o : option A) : result json_error A := of_option o JSONDecodeError.

(** [scan_once], [JSONObject] and [JSONArray]; the fuel bounds the nesting
    together with the number of elements. *)
Fixpoint scan_once (fuel : nat) (s : unicode) : result json_error (json * unicode) :=
  match fuel, s with
  | O, _ | _, [] => Err JSONDecodeError
  | S fuel', c :: s' =>
      if c =? quote then '(x, r) ← of_scan (scan_string (length s') s'); Ok (JStr x, r)
      else if c =? lbrace then
        match skip_ws s' with
        | d :: r =>
            if d =? rbrace then Ok (JObj [], r)
            else if d =? quote then scan_members fuel' r [] else Err JSONDecodeError
        | [] => Err JSONDecodeError
        end
      else if c =? lbracket then
        match skip_ws s' with
        | d :: r => if d =? rbracket then Ok (JArr [], r) else scan_items fuel' (d :: r) []
        | [] => Err JSONDecodeError
        end
      else
        match scan_constant constants s with
        | Some x => Ok x
        | None => scan_number s
        end
  end
(** The members of an object, after the quote that opens a key. *)
with scan_members (fuel : nat) (s : unicode) (acc : list (unicode * json))
    : result json_error (json * unicode) :=
  match fuel with
  | O => Err JSONDecodeError
  | S fuel' =>
      '(k, r) ← of_scan (scan_string (length s) s);
      r1 ← of_scan (eat [colon] (skip_ws r));
      '(v, r2) ← scan_once fuel' (skip_ws r1);
      let acc' := dset acc k v in
      match skip_ws r2 with
      | c :: r3 =>
          if c =? rbrace then Ok (JObj acc', r3)
          else if c =? comma then
            r4 ← of_scan (eat [quote] (skip_ws r3));
            scan_members fuel' r4 acc'
          else Err JSONDecodeError
      | [] => Err JSONDecodeError
      end
  end
with scan_items (fuel : nat) (s : unicode) (acc : list json)
    : result json_error (json * unicode) :=
  match fuel with
  | O => Err JSONDecodeError
  | S fuel' =>
      '(v, r) ← scan_once fuel' s;
      match skip_ws r with
      | c :: r1 =>
          if c =? rbracket then Ok (JArr (acc ++ [v]), r1)
          else if c =? comma then scan_items fuel' (skip_ws r1) (acc ++ [v])
          else Err JSONDecodeError
      | [] => Err JSONDecodeError
      end
  end.

(** [json.loads]: every call of the scanner consumes a character, so twice
    the length of the text is fuel enough. *)
Definition loads (s : unicode) : result json_error json :=
  '(v, r) ← scan_once (2 * length s + 1) (skip_ws s);
  match skip_ws r with [] => Ok v | _ => Err JSONDecodeError end.

(** ** Printed text parses back *)

(** What may follow a printed value: nothing that extends a number. *)
Definition stops (s : unicode) : bool :=
  match s with
  | [] => true
  | c :: _ => negb (digit c || (c =? 46) || (c =? 101) || (c =? 69))
  end.

Lemma hex_value_char n : 0 <= n < 16 → hex_value (code (hex_char n)) = Some n.
Proof.
  intros H. assert (Hall : Forall (λ n, hex_value (code (hex_char n)) = Some n) (seqZ 0 16)).
  { repeat (constructor; [reflexivity|]). constructor. }
  rewrite Forall_forall in Hall. apply Hall, elem_of_seqZ. lia.
Qed.

Lemma take_hex4_print n s : 0 <= n < 65536 → take_hex4 (hex4 n ++ s) = Some (n, s).
Proof.
  intros H. unfold hex4. cbn [fmap list_fmap app take_hex4].
  rewrite !hex_value_char by (apply Z.mod_pos_bound; lia). cbn [mbind option_bind].
  do 2 f_equal. rewrite Z.div_1_r.
  replace (n / 4096 mod 16) with (n / 4096)
    by (symmetry; apply Z.mod_small; split; [apply Z.div_pos; lia|apply Z.div_lt_upper_bound; lia]).
  assert (E1 : n / 256 = n / 16 / 16) by (rewrite Z.div_div by lia; f_equal; lia).
  assert (E2 : n / 4096 = n / 256 / 16) by (rewrite Z.div_div by lia; f_equal; lia).
  pose proof (Z.div_mod n 16 ltac:(lia)). pose proof (Z.div_mod (n / 16) 16 ltac:(lia)).
  pose proof (Z.div_mod (n / 256) 16 ltac:(lia)). lia.
Qed.

Lemma hex4_length n : length (hex4 n) = 4%nat.
Proof. reflexivity. Qed.

Lemma scan_string_backslash fuel t :
  scan_string (S fuel) (backslash :: t) =
    '(x, s1) ← scan_escape t; '(xs, s2) ← scan_string fuel s1; Some (x :: xs, s2).
Proof. reflexivity. Qed.

Lemma scan_string_plain fuel c s :
  32 <= c → c ≠ quote → c ≠ backslash →
  scan_string (S fuel) (c :: s) = '(xs, r) ← scan_string fuel s; Some (c :: xs, r).
Proof.
  intros H1 H2 H3. cbn [scan_string]. rewrite (proj2 (Z.eqb_neq _ _) H2),
    (proj2 (Z.eqb_neq _ _) H3), (proj2 (Z.ltb_ge _ _) H1). reflexivity.
Qed.

(** The escape of a character of the basic plane that is no surrogate. *)
Lemma scan_escape_bmp c s :
  0 <= c < 65536 → is_scalar c = true → scan_escape (117 :: hex4 c ++ s) = Some (c, s).
Proof.
  intros H Hs. unfold scan_escape. cbn [Z.eqb Pos.eqb orb quote backslash].
  rewrite take_hex4_print by exact H. cbn [mbind option_bind].
  destruct s as [|b [|x s2]]; [done..|].
  destruct ((55296 <=? c) && (c <=? 56319)) eqn:E; [|done].
  exfalso. unfold is_scalar in Hs. apply orb_true_iff in Hs as [Hs|Hs]; breflect; lia.
Qed.

(** ... and of one beyond it. *)
Lemma scan_escape_astral c s :
  65536 <= c <= 1114111 →
  scan_escape (117 :: hex4 (55296 + (c - 65536) / 1024) ++
    cp "\u" ++ hex4 (56320 + (c - 65536) mod 1024) ++ s) = Some (c, s).
Proof.
  intros H. pose proof (Z.mod_pos_bound (c - 65536) 1024 ltac:(lia)) as Hm.
  assert (Hd : 0 <= (c - 65536) / 1024 < 1024)
    by (split; [apply Z.div_pos; lia|apply Z.div_lt_upper_bound; lia]).
  unfold scan_escape. cbn [Z.eqb Pos.eqb orb quote backslash].
  rewrite take_hex4_print by lia. cbn [mbind option_bind].
  change (cp "\u") with [backslash; 117]. cbn [app].
  rewrite (proj2 (Z.leb_le _ _)), (proj2 (Z.leb_le _ _)) by lia.
  cbn [andb Z.eqb Pos.eqb backslash].
  rewrite take_hex4_print by lia. cbn [mbind option_bind].
  rewrite (proj2 (Z.leb_le _ _)), (proj2 (Z.leb_le _ _)) by lia. cbn [andb].
  do 2 f_equal. pose proof (Z.div_mod (c - 65536) 1024 ltac:(lia)). lia.
Qed.

(** One escaped character is read back. *)
Lemma scan_escaped_char fuel c s :
  is_scalar c = true →
  scan_string (S fuel) (escape_char c ++ s) =
    '(xs, r) ← scan_string fuel s; Some (c :: xs, r).
Proof.
  intros Hc. unfold escape_char.
  destruct ((c =? quote) || (c =? backslash)) eqn:E1.
  { apply orb_true_iff in E1 as [->%Z.eqb_eq | ->%Z.eqb_eq]; reflexivity. }
  breflect. destruct ((32 <=? c) && (c <=? 126)) eqn:E2.
  { breflect. by apply scan_string_plain. }
  destruct (Z.eqb_spec c 10) as [->|_]; [reflexivity|].
  destruct (Z.eqb_spec c 13) as [->|_]; [reflexivity|].
  destruct (Z.eqb_spec c 9) as [->|_]; [reflexivity|].
  destruct (Z.eqb_spec c 12) as [->|_]; [reflexivity|].
  destruct (Z.eqb_spec c 8) as [->|_]; [reflexivity|].
  assert (Hr : 0 <= c <= 1114111).
  { unfold is_scalar in Hc. apply orb_true_iff in Hc as [Hc|Hc]; breflect; lia. }
  destruct (Z.ltb_spec c 65536); rewrite <- !app_assoc.
  - change (cp "\u" ++ hex4 c ++ s) with (backslash :: 117 :: hex4 c ++ s).
    rewrite scan_string_backslash. by rewrite scan_escape_bmp by (lia || exact Hc).
  - set (t := cp "\u" ++ hex4 (56320 + _) ++ s).
    change (cp "\u" ++ hex4 ?h ++ t) with (backslash :: 117 :: hex4 h ++ t).
    rewrite scan_string_backslash. subst t. by rewrite scan_escape_astral by lia.
Qed.

Lemma scan_string_print s fuel rest :
  Forall (λ c, is_scalar c = true) s → (length s < fuel)%nat →
  scan_string fuel ((s ≫= escape_char) ++ quote :: rest) = Some (s, rest).
Proof.
  intros H. revert fuel. induction H as [|c s Hc _ IH]; intros fuel Hf.
  - destruct fuel; [lia|]. reflexivity.
  - destruct fuel as [|fuel]; [simpl in Hf; lia|].
    rewrite bind_cons, <- app_assoc, scan_escaped_char by exact Hc.
    rewrite IH by (simpl in Hf; lia). reflexivity.
Qed.

Lemma escape_char_length c : (1 <= length (escape_char c))%nat.
Proof. unfold escape_char. repeat case_match; simpl; lia. Qed.

Lemma escaped_length s : (length s <= length (s ≫= escape_char))%nat.
Proof.
  induction s as [|c s IH]; [done|]. rewrite bind_cons, length_app. simpl.
  pose proof (escape_char_length c). lia.
Qed.

Lemma escape_char_bound c : (length (escape_char c) <= 12)%nat.
Proof. unfold escape_char. repeat case_match; cbn; lia. Qed.

Lemma dump_string_length s : (length (dump_string s) <= 12 * length s + 2)%nat.
Proof.
  unfold dump_string. cbn [length]. rewrite length_app. cbn [length].
  enough (H : (length (s ≫= escape_char) <= 12 * length s)%nat) by lia.
  induction s as [|c s IH]; [cbn; lia|]. change ((c :: s) ≫= escape_char) with (escape_char c ++ (s ≫= escape_char)).
  rewrite length_app. pose proof (escape_char_bound c). cbn [length]. lia.
Qed.

(** Numbers. *)

Definition all_digits (s : unicode) : Prop := Forall (λ c, digit c = true) s.

Definition int_part (s : unicode) : Prop :=
  s = [48] ∨ ∃ d ds, s = d :: ds ∧ 49 <= d <= 57 ∧ all_digits ds.
Definition frac_part (s : unicode) : Prop :=
  s = [] ∨ ∃ d ds, s = 46 :: d :: ds ∧ all_digits (d :: ds).
Definition exp_part (s : unicode) : Prop :=
  s = [] ∨ ∃ e sign d ds, s = e :: sign ++ d :: ds ∧ (e = 101 ∨ e = 69) ∧
    (sign = [] ∨ sign = [43] ∨ sign = [45]) ∧ all_digits (d :: ds).

(** What [float.__repr__] writes for a finite float. *)
Definition float_literal (s : unicode) : Prop :=
  ∃ (neg : bool) int frac exp, s = (if neg then [45] else []) ++ int ++ frac ++ exp ∧
    int_part int ∧ frac_part frac ∧ exp_part exp ∧ frac ++ exp ≠ [].

(** The head is no digit. *)
Definition no_digit (s : unicode) : Prop :=
  match s with c :: _ => digit c = false | [] => True end.

Lemma stops_no_digit s : stops s = true → no_digit s.
Proof. destruct s; simpl; [done|]. intros H. by breflect. Qed.

Lemma span_digits_app ds t : all_digits ds → no_digit t → span_digits (ds ++ t) = (ds, t).
Proof.
  intros H Ht. induction H as [|d ds Hd _ IH]; simpl.
  - destruct t as [|c t]; simpl in *; [done|]. by rewrite Ht.
  - by rewrite Hd, IH.
Qed.

Lemma scan_exp_app exp t : exp_part exp → stops t = true → scan_exp (exp ++ t) = (exp, t).
Proof.
  intros [->|(e & sign & d & ds & -> & He & Hs & Hd)] Ht; cbn [app]; unfold scan_exp.
  - destruct t as [|c t]; [done|]. simpl in Ht. breflect. by rewrite (proj2 (Z.eqb_neq _ _)), (proj2 (Z.eqb_neq _ _)).
  - assert (Eq : (e =? 101) || (e =? 69) = true) by by destruct He as [-> | ->]. rewrite Eq.
    pose proof (span_digits_app (d :: ds) t Hd (stops_no_digit t Ht)) as E.
    pose proof (Forall_inv Hd) as Hd1.
    assert (Hs1 : (d =? 43) || (d =? 45) = false).
    { unfold digit in Hd1. breflect. apply orb_false_iff. split; apply Z.eqb_neq; lia. }
    destruct Hs as [->|[->| ->]]; cbn [app] in *; [rewrite Hs1|cbn [Z.eqb Pos.eqb orb]..];
      by rewrite E.
Qed.

Lemma scan_frac_app frac t :
  frac_part frac → no_digit t → head t ≠ Some 46 → scan_frac (frac ++ t) = (frac, t).
Proof.
  intros [->|(d & ds & -> & Hd)] Ht H; cbn [app]; unfold scan_frac.
  - destruct t as [|c t]; [done|]. cbn in H. by rewrite (proj2 (Z.eqb_neq _ _)) by congruence.
  - pose proof (span_digits_app (d :: ds) t Hd Ht) as E. cbn [app] in E.
    change (46 =? 46) with true. cbn iota. by rewrite E.
Qed.

Lemma stops_head t : stops t = true → head t ≠ Some 46.
Proof. destruct t as [|c t]; simpl; [done|]. intros H. breflect. congruence. Qed.

Lemma exp_rest exp t :
  exp_part exp → stops t = true → no_digit (exp ++ t) ∧ head (exp ++ t) ≠ Some 46.
Proof.
  intros [->|(e & sign & d & ds & -> & He & _)] Ht; simpl.
  - split; [by apply stops_no_digit|by apply stops_head].
  - destruct He as [-> | ->]; done.
Qed.

Lemma frac_rest frac t : frac_part frac → no_digit t → no_digit (frac ++ t).
Proof. intros [->|(d & ds & -> & _)] Ht; done. Qed.

Lemma scan_int_part int t :
  int_part int → no_digit t →
  scan_int (int ++ t) = (int, t) ∧ int ≠ [] ∧ (∃ d l, int = d :: l ∧ 48 <= d <= 57).
Proof.
  intros [->|(d & ds & -> & Hd & Hds)] Ht; simpl.
  - split; [done|]. split; [done|]. exists 48, []. split; [done|lia].
  - rewrite (proj2 (Z.eqb_neq _ _)) by lia.
    assert (Hdd : digit d = true) by (unfold digit; apply andb_true_iff; split; apply Z.leb_le; lia).
    rewrite Hdd, (span_digits_app ds t Hds Ht). split; [done|]. split; [done|].
    exists d, ds. split; [done|lia].
Qed.

(** A printed number, whatever it is followed by. *)
Lemma scan_number_parts (neg : bool) int frac exp t :
  int_part int → frac_part frac → exp_part exp → stops t = true →
  scan_number (((if neg then [45] else []) ++ int ++ frac ++ exp) ++ t) =
    if bool_decide (frac ++ exp = []) then
      guard_or (length int <=? INT_MAX_STR_DIGITS)%nat IntTooLong;;
      Ok (JInt (if neg then - digits_val int else digits_val int), t)
    else Ok (JFloat ((if neg then [45] else []) ++ int ++ frac ++ exp), t).
Proof.
  intros Hi Hf He Ht. destruct (exp_rest exp t He Ht) as [H1 H2].
  pose proof (frac_rest frac _ Hf H1) as H3.
  destruct (scan_int_part int (frac ++ exp ++ t) Hi H3) as (Hint & Hne & d & l & Ed & Hd).
  assert (Hs : strip_minus (((if neg then [45] else []) ++ int ++ frac ++ exp) ++ t) =
    (neg, int ++ frac ++ exp ++ t)).
  { destruct neg; cbn [app]; rewrite <- !app_assoc; [reflexivity|]. rewrite Ed. cbn [app strip_minus].
    by rewrite (proj2 (Z.eqb_neq _ _)) by lia. }
  unfold scan_number. rewrite Hs, Hint. rewrite (bool_decide_false (int = [])) by exact Hne.
  rewrite (scan_frac_app frac _ Hf H1 H2), (scan_exp_app exp t He Ht).
  case_bool_decide as E; [|reflexivity].
  apply app_eq_nil in E as [-> ->]. reflexivity.
Qed.

Lemma digits_val_uint u acc :
  foldl (λ acc d, acc * 10 + (d - 48)) acc (cp (NilEmpty.string_of_uint u)) = uint_val acc u.
Proof. revert acc. induction u; intros acc; [done|..]; cbn; apply IHu. Qed.

(** The digits of a natural number. *)
Lemma str_of_Z_parts z : 0 <= z → int_part (cp (str_of_Z z)) ∧ digits_val (cp (str_of_Z z)) = z.
Proof.
  intros Hz. split.
  - destruct (Z.eq_dec z 0) as [->|]; [by left|]. right.
    destruct (str_of_Z_head z) as (d & l & E & Hd); [lia|].
    pose proof (str_of_Z_digits z Hz) as Hall. rewrite E in Hall. apply Forall_cons in Hall as [_ Hall].
    exists (code d), (code <$> l). unfold cp, encode. rewrite E. split; [done|]. split; [lia|].
    apply Forall_fmap. exact Hall.
  - destruct (str_of_Z_val z Hz) as (u & -> & _ & <-). apply digits_val_uint.
Qed.

Lemma str_of_Z_neg p : cp (str_of_Z (Z.neg p)) = 45 :: cp (str_of_Z (Z.pos p)).
Proof. reflexivity. Qed.

(** [int] accepts the literal. *)
Definition int_ok (z : Z) : Prop := (length (cp (str_of_Z (Z.abs z))) <= INT_MAX_STR_DIGITS)%nat.

Lemma scan_number_int z t :
  int_ok z → stops t = true → scan_number (cp (str_of_Z z) ++ t) = Ok (JInt z, t).
Proof.
  intros Hok Ht. destruct (str_of_Z_parts (Z.abs z) (Z.abs_nonneg z)) as [Hp Hv].
  pose proof (scan_number_parts (z <? 0) _ [] [] t Hp (or_introl eq_refl) (or_introl eq_refl) Ht) as E.
  rewrite !app_nil_r, Hv in E. rewrite (bool_decide_true (([] : unicode) = [])) in E by done.
  unfold int_ok in Hok. rewrite (proj2 (Nat.leb_le _ _)) in E by exact Hok. cbn in E.
  destruct z as [|p|p]; exact E.
Qed.

(** Values that can be printed and read back: text without surrogates,
    integers of at most 4300 digits, finite floats, dictionaries. *)
Inductive json_ok : json → Prop :=
| ok_null : json_ok JNull
| ok_bool b : json_ok (JBool b)
| ok_int z : int_ok z → json_ok (JInt z)
| ok_float l : float_literal l → json_ok (JFloat l)
| ok_str s : Forall (λ c, is_scalar c = true) s → json_ok (JStr s)
| ok_arr l : Forall json_ok l → json_ok (JArr l)
| ok_obj l : dict_wf l → Forall (λ kv, Forall (λ c, is_scalar c = true) kv.1) l →
    Forall (λ kv, json_ok kv.2) l → json_ok (JObj l).

(** Fuel that reads a printed value back. *)
Fixpoint fuel_for (v : json) : nat :=
  match v with
  | JArr l => S (foldr (λ x n, S (fuel_for x) + n)%nat 1%nat l)
  | JObj l => S (foldr (λ kv n, S (fuel_for kv.2) + n)%nat 1%nat l)
  | _ => 1
  end.

(** Heads of printed values. *)
Lemma dumps_head v : json_ok v → ∃ c s, dumps v = c :: s ∧ is_ws c = false ∧ c ≠ rbracket.
Proof.
  intros H. destruct H as [|b|z Hz|l Hl|s|l|l]; try (by eexists _, _; cbn; repeat split).
  - destruct b; eexists _, _; cbn; repeat split; discriminate.
  - destruct z as [|p|p]; try (eexists _, _; cbn; repeat split; discriminate).
    destruct (str_of_Z_head (Z.pos p)) as (d & l & E & Hd); [lia|].
    cbn [dumps]. unfold cp, encode. rewrite E. exists (code d), (code <$> l).
    split; [done|]. split; [|unfold rbracket; lia]. unfold is_ws. rewrite !orb_false_iff, !Z.eqb_neq. lia.
  - destruct Hl as (neg & int & frac & exp & -> & Hi & _). cbn [dumps].
    destruct (scan_int_part int [] Hi I) as (_ & _ & d & l & -> & Hd).
    destruct neg; cbn [app]; eexists _, _; (split; [reflexivity|]).
    + done.
    + split; [|unfold rbracket; lia]. unfold is_ws. rewrite !orb_false_iff, !Z.eqb_neq. lia.
Qed.

Lemma skip_ws_dumps v t : json_ok v → skip_ws (dumps v ++ t) = dumps v ++ t.
Proof. intros (c & s & -> & Hc & _)%dumps_head. cbn. by rewrite Hc. Qed.

Lemma joined_cons sep l ls :
  joined sep (l :: ls) = l ++ match ls with [] => [] | _ => sep :: joined sep ls end.
Proof. destruct ls; simpl; [by rewrite app_nil_r|done]. Qed.

(** A value that is a number. *)
Lemma scan_once_number fuel s :
  (∃ c s', s = c :: s' ∧ (48 <= c <= 57 ∨ c = 45 ∧ ∃ d s'', s' = d :: s'' ∧ 48 <= d <= 57)) →
  scan_once (S fuel) s = scan_number s.
Proof.
  intros (c & s' & -> & H). cbn [scan_once]. unfold quote, lbrace, lbracket.
  rewrite !(proj2 (Z.eqb_neq _ _)) by lia.
  assert (E : scan_constant constants (c :: s') = None); [|by rewrite E].
  destruct H as [H|(-> & d & s'' & -> & Hd)].
  - assert (Hc : c ∈ seqZ 48 10) by (apply elem_of_seqZ; lia).
    repeat (apply elem_of_cons in Hc as [-> | Hc]; [reflexivity|]). by apply elem_of_nil in Hc.
  - assert (Hc : d ∈ seqZ 48 10) by (apply elem_of_seqZ; lia).
    repeat (apply elem_of_cons in Hc as [-> | Hc]; [reflexivity|]). by apply elem_of_nil in Hc.
Qed.

Lemma scan_once_int fuel z t :
  int_ok z → stops t = true → scan_once (S fuel) (cp (str_of_Z z) ++ t) = Ok (JInt z, t).
Proof.
  intros Hz Ht. rewrite scan_once_number; [by apply scan_number_int|].
  assert (Hd : ∀ z, 0 <= z → ∃ c s', cp (str_of_Z z) = c :: s' ∧ 48 <= c <= 57).
  { intros n Hn. destruct (str_of_Z_parts n Hn) as [Hp _].
    destruct (scan_int_part _ [] Hp I) as (_ & _ & d & l & E & Hd). by exists d, l. }
  destruct (Z.lt_ge_cases z 0) as [Hneg|Hpos].
  - destruct z as [|p|p]; try lia. rewrite str_of_Z_neg. destruct (Hd (Z.pos p)) as (c & s' & -> & Hc); [lia|].
    eexists _, _. split; [reflexivity|]. right. split; [done|]. eexists _, _. split; [reflexivity|done].
  - destruct (Hd z Hpos) as (c & s' & -> & Hc). eexists _, _. split; [reflexivity|]. by left.
Qed.

Lemma scan_once_float fuel l t :
  float_literal l → stops t = true → scan_once (S fuel) (l ++ t) = Ok (JFloat l, t).
Proof.
  intros (neg & int & frac & exp & -> & Hi & Hf & He & Hne) Ht. rewrite scan_once_number.
  - rewrite scan_number_parts by done. by rewrite bool_decide_false.
  - destruct (scan_int_part int [] Hi I) as (_ & _ & d & l & -> & Hd).
    destruct neg; cbn [app]; eexists _, _; (split; [reflexivity|]); [right|by left].
    split; [done|]. eexists _, _. split; [reflexivity|done].
Qed.

Lemma scan_key s t :
  Forall (λ c, is_scalar c = true) s →
  let text := (s ≫= escape_char) ++ quote :: t in
  scan_string (length text) text = Some (s, t).
Proof.
  intros Hs text. apply scan_string_print; [exact Hs|]. unfold text. rewrite length_app. simpl.
  pose proof (escaped_length s). lia.
Qed.

Lemma scan_items_print l fuel acc t :
  l ≠ [] → Forall json_ok l →
  Forall (λ v, ∀ fuel t, (fuel_for v <= fuel)%nat → stops t = true →
    scan_once fuel (dumps v ++ t) = Ok (v, t)) l →
  (foldr (λ x n, S (fuel_for x) + n)%nat 1%nat l <= fuel)%nat →
  scan_items fuel (joined comma (dumps <$> l) ++ rbracket :: t) acc = Ok (JArr (acc ++ l), t).
Proof.
  intros Hne Hok IH. revert fuel acc Hne. induction l as [|x l IHl]; intros fuel acc Hne Hf; [done|].
  apply Forall_cons in Hok as [Hx Hok]. apply Forall_cons in IH as [IHx IH]. cbn [foldr] in Hf.
  destruct fuel as [|fuel]; [lia|]. rewrite fmap_cons, joined_cons. rewrite <- app_assoc.
  cbn [scan_items]. destruct l as [|y l].
  - cbn [fmap list_fmap app]. rewrite IHx; [|lia|done]. reflexivity.
  - rewrite IHx; [|cbn [foldr] in Hf; lia|done]. cbn [fmap list_fmap app mbind result_bind skip_ws].
    change (is_ws comma) with false. cbn iota.
    change (comma =? rbracket) with false. change (comma =? comma) with true. cbn iota.
    assert (E : skip_ws (joined comma (dumps <$> y :: l) ++ rbracket :: t) =
                joined comma (dumps <$> y :: l) ++ rbracket :: t).
    { rewrite fmap_cons, joined_cons, <- app_assoc. apply skip_ws_dumps.
      by apply Forall_cons in Hok as [? _]. }
    cbn [fmap list_fmap] in E |- *. rewrite E.
    change (dumps y :: list_fmap _ _ dumps l) with (dumps <$> (y :: l)).
    rewrite IHl by (done || lia). by rewrite <- app_assoc.
Qed.

Definition dump_member (kv : unicode * json) : unicode :=
  dump_string kv.1 ++ colon :: dumps kv.2.

Lemma dset_new {K V} `{EqDecision K} (d : list (K * V)) k v : k ∉ keys d → dset d k v = d ++ [(k, v)].
Proof.
  induction d as [|[k' v'] d IH]; intros H; [done|]. unfold keys in H. rewrite fmap_cons in H.
  apply not_elem_of_cons in H as [H1 H2]. simpl in H1. cbn [dset].
  rewrite decide_False by (by intros ->). by rewrite IH.
Qed.

Lemma joined_member kv l t : ∃ s, joined comma (dump_member <$> kv :: l) ++ t = quote :: s.
Proof. rewrite fmap_cons, joined_cons. eexists. reflexivity. Qed.

Lemma scan_members_print l fuel acc t s :
  l ≠ [] → dict_wf (acc ++ l) → Forall (λ kv, Forall (λ c, is_scalar c = true) kv.1) l →
  Forall (λ kv, json_ok kv.2) l →
  Forall (λ kv, ∀ fuel t, (fuel_for kv.2 <= fuel)%nat → stops t = true →
    scan_once fuel (dumps kv.2 ++ t) = Ok (kv.2, t)) l →
  (foldr (λ kv n, S (fuel_for kv.2) + n)%nat 1%nat l <= fuel)%nat →
  joined comma (dump_member <$> l) ++ rbrace :: t = quote :: s →
  scan_members fuel s acc = Ok (JObj (acc ++ l), t).
Proof.
  intros Hne Hwf Hk Hok IH. revert fuel acc s Hne Hwf.
  induction l as [|[k v] l IHl]; intros fuel acc s Hne Hwf Hf Hs; [done|].
  apply Forall_cons in Hk as [Hk1 Hk]. apply Forall_cons in Hok as [Hv Hok].
  apply Forall_cons in IH as [IHv IH]. cbn [foldr fst snd] in *.
  destruct fuel as [|fuel]; [lia|].
  rewrite fmap_cons, joined_cons in Hs. unfold dump_member at 1, dump_string in Hs.
  cbn [fst snd] in Hs. rewrite <- !app_assoc in Hs. cbn [app] in Hs. injection Hs as <-.
  rewrite <- !app_assoc. cbn [app]. cbn [scan_members].
  rewrite (scan_key k _ Hk1). cbn [of_scan of_option mbind result_bind skip_ws].
  change (is_ws colon) with false. cbn iota. cbn [eat]. rewrite Z.eqb_refl.
  cbn [of_scan of_option mbind result_bind]. rewrite (skip_ws_dumps v _ Hv).
  assert (Hnew : k ∉ keys acc ∧ dict_wf ((acc ++ [(k, v)]) ++ l)).
  { rewrite <- app_assoc. split; [|exact Hwf]. unfold dict_wf, keys in *. rewrite fmap_app in Hwf.
    apply NoDup_app in Hwf as (_ & Hd & _). intros Hin. apply (Hd k Hin). by left. }
  destruct Hnew as [Hnew Hwf']. destruct l as [|kv l].
  - cbn [fmap list_fmap app]. rewrite IHv; [|lia|done]. cbn [mbind result_bind skip_ws].
    change (is_ws rbrace) with false. cbn iota. rewrite Z.eqb_refl. by rewrite dset_new.
  - rewrite IHv; [|cbn [foldr] in Hf; lia|done]. cbn [mbind result_bind skip_ws].
    destruct (joined_member kv l (rbrace :: t)) as [s' Es].
    assert (E : match dump_member <$> kv :: l with
                | [] => []
                | _ => comma :: joined comma (dump_member <$> kv :: l)
                end ++ rbrace :: t = comma :: quote :: s') by (rewrite <- Es; reflexivity).
    rewrite E. cbn [skip_ws]. change (is_ws comma) with false. cbn iota.
    change (comma =? rbrace) with false. change (comma =? comma) with true. cbn iota. cbn [skip_ws].
    change (is_ws quote) with false. cbn iota. rewrite Z.eqb_refl.
    cbn [of_scan of_option mbind result_bind]. rewrite dset_new by exact Hnew.
    eapply eq_trans; [apply (IHl Hk Hok IH fuel (acc ++ [(k, v)]) s'); [done|done|lia|exact Es]|].
    by rewrite <- app_assoc.
Qed.

(** A printed value is read back, whatever follows it. *)
Lemma scan_once_print v :
  json_ok v → ∀ fuel t, (fuel_for v <= fuel)%nat → stops t = true →
  scan_once fuel (dumps v ++ t) = Ok (v, t).
Proof.
  induction v as [|b|z|l|s|l IH|l IH] using json_ind; intros Hok fuel t Hf Ht;
    inversion Hok; subst; (destruct fuel as [|fuel]; [cbn in Hf; lia|]).
  - reflexivity.
  - by destruct b.
  - by apply scan_once_int.
  - by apply scan_once_float.
  - cbn [dumps]. unfold dump_string. cbn [app]. rewrite <- app_assoc. cbn [app scan_once].
    rewrite Z.eqb_refl. by rewrite scan_key.
  - cbn [dumps app]. rewrite <- app_assoc. cbn [app scan_once].
    change (lbracket =? quote) with false. change (lbracket =? lbrace) with false.
    rewrite Z.eqb_refl. cbn iota. destruct l as [|x l]; [reflexivity|].
    assert (Hx : json_ok x) by (by apply Forall_cons in H0 as [? _]).
    assert (E : ∃ c s, joined comma (dumps <$> x :: l) ++ rbracket :: t = c :: s ∧
      is_ws c = false ∧ c ≠ rbracket).
    { rewrite fmap_cons, joined_cons, <- app_assoc.
      destruct (dumps_head x Hx) as (c & s & -> & H1 & H2). by eexists _, _. }
    destruct E as (c & s & E & H1 & H2). rewrite E. cbn [skip_ws]. rewrite H1.
    rewrite (proj2 (Z.eqb_neq _ _) H2), <- E.
    apply (scan_items_print (x :: l) fuel [] t); [done|done| |cbn [fuel_for] in Hf; lia].
    rewrite Forall_forall in IH, H0 |- *. intros y Hy. by apply IH, H0.
  - cbn [dumps app]. rewrite <- app_assoc. cbn [app scan_once].
    change (lbrace =? quote) with false. rewrite Z.eqb_refl. cbn iota.
    destruct l as [|kv l]; [reflexivity|].
    lazymatch goal with |- context [skip_ws ?x] =>
      change x with (joined comma (dump_member <$> kv :: l) ++ rbrace :: t) end.
    destruct (joined_member kv l (rbrace :: t)) as [s Es]. rewrite Es. cbn [skip_ws].
    change (is_ws quote) with false. cbn iota.
    change (quote =? rbrace) with false. rewrite Z.eqb_refl. cbn iota.
    apply (scan_members_print (kv :: l) fuel [] t s);
      [done|assumption|assumption|assumption| |exact (le_S_n _ _ Hf)|exact Es].
    rewrite Forall_forall in IH, H2 |- *. intros y Hy. by apply IH, H2.
Qed.

Lemma joined_fuel {A} (f : A → nat) (g : A → unicode) l :
  Forall (λ x, f x <= 2 * length (g x))%nat l →
  (foldr (λ x n, S (f x) + n) 1 l <= 2 * length (joined comma (g <$> l)) + 2)%nat.
Proof.
  induction 1 as [|x l Hx _ IH]; [cbn; lia|]. rewrite fmap_cons, joined_cons, length_app.
  destruct l; cbn [fmap list_fmap length foldr] in *; lia.
Qed.

Lemma fuel_for_dumps v : json_ok v → (fuel_for v <= 2 * length (dumps v))%nat.
Proof.
  assert (Hsum : ∀ n, (S (2 * n + 2) <= 2 * S (n + 1))%nat) by lia.
  induction v as [|b|z|l|s|l IH|l IH] using json_ind; intros Hok;
    destruct (dumps_head _ Hok) as (c & s' & E & _); rewrite E.
  1-5: cbn; lia.
  all: rewrite <- E; clear E; inversion Hok; subst; cbn [dumps length]; rewrite length_app.
  - assert (Hl : Forall (λ x, fuel_for x <= 2 * length (dumps x))%nat l).
    { rewrite Forall_forall in IH, H0 |- *. intros x Hx. by apply IH, H0. }
    etransitivity; [exact (le_n_S _ _ (joined_fuel fuel_for dumps l Hl))|apply Hsum].
  - assert (Hl : Forall (λ kv, fuel_for kv.2 <= 2 * length (dump_member kv))%nat l).
    { rewrite Forall_forall in IH, H2 |- *. intros x Hx. specialize (IH x Hx (H2 x Hx)).
      unfold dump_member. rewrite length_app. cbn [length]. lia. }
    etransitivity; [exact (le_n_S _ _ (joined_fuel (λ kv, fuel_for kv.2) dump_member l Hl))|apply Hsum].
Qed.

(** [json.loads(json.dumps(v)) == v] *)
Lemma loads_dumps v : json_ok v → loads (dumps v) = Ok v.
Proof.
  intros H. unfold loads. pose proof (fuel_for_dumps v H) as Hf.
  pose proof (skip_ws_dumps v [] H) as Hs. rewrite app_nil_r in Hs. rewrite Hs.
  rewrite <- (app_nil_r (dumps v)) at 2. rewrite scan_once_print; [reflexivity|done|lia|done].
Qed.

(** ** Printed text is ASCII *)

Definition ascii_only (s : unicode) : Prop := Forall (λ c, 0 <= c < 128) s.

Lemma hex_char_ascii n : 0 <= n < 16 → 0 <= code (hex_char n) < 128.
Proof.
  intros H. assert (Hall : Forall (λ n, 0 <= code (hex_char n) < 128) (seqZ 0 16)).
  { repeat (constructor; [vm_compute; split; congruence|]). constructor. }
  rewrite Forall_forall in Hall. apply Hall, elem_of_seqZ. lia.
Qed.

Lemma hex4_ascii n : ascii_only (hex4 n).
Proof. unfold hex4. repeat (constructor; [apply hex_char_ascii, Z.mod_pos_bound; lia|]). constructor. Qed.

Lemma escape_char_ascii c : ascii_only (escape_char c).
Proof.
  unfold escape_char. destruct ((c =? quote) || (c =? backslash)) eqn:E1.
  { apply orb_true_iff in E1 as [->%Z.eqb_eq | ->%Z.eqb_eq]; repeat constructor; done. }
  destruct ((32 <=? c) && (c <=? 126)) eqn:E2.
  { breflect. repeat constructor; lia. }
  assert (Hu : ∀ n l, ascii_only l → ascii_only (cp "\u" ++ hex4 n ++ l)).
  { intros n l Hl. constructor; [vm_compute; split; congruence|].
    constructor; [vm_compute; split; congruence|]. apply Forall_app. split; [apply hex4_ascii|done]. }
  assert (Hs : ∀ s, s ∈ [cp "\n"; cp "\r"; cp "\t"; cp "\f"; cp "\b"] → ascii_only s).
  { apply Forall_forall. repeat constructor; vm_compute; congruence. }
  destruct (c =? 10); [apply Hs; set_solver|]. destruct (c =? 13); [apply Hs; set_solver|].
  destruct (c =? 9); [apply Hs; set_solver|]. destruct (c =? 12); [apply Hs; set_solver|].
  destruct (c =? 8); [apply Hs; set_solver|]. destruct (c <? 65536).
  - rewrite <- (app_nil_r (hex4 c)). apply Hu. constructor.
  - apply Hu. rewrite <- (app_nil_r (hex4 (56320 + _))). apply Hu. constructor.
Qed.

Lemma dump_string_ascii s : ascii_only (dump_string s).
Proof.
  unfold dump_string. constructor; [vm_compute; split; congruence|]. apply Forall_app. split.
  - induction s as [|c s IH]; [constructor|]. rewrite bind_cons. apply Forall_app.
    split; [apply escape_char_ascii|exact IH].
  - repeat constructor; vm_compute; congruence.
Qed.

Lemma all_digits_ascii ds : all_digits ds → ascii_only ds.
Proof. intros H. eapply Forall_impl; [exact H|]. intros c Hc. unfold digit in Hc. breflect. lia. Qed.

Lemma int_part_ascii s : int_part s → ascii_only s.
Proof.
  intros [->|(d & ds & -> & Hd & Hds)]; [repeat constructor; lia|].
  constructor; [lia|]. by apply all_digits_ascii.
Qed.

Lemma float_literal_ascii s : float_literal s → ascii_only s.
Proof.
  intros (neg & int & frac & exp & -> & Hi & Hf & He & _).
  repeat (apply Forall_app; split).
  - destruct neg; repeat constructor; lia.
  - by apply int_part_ascii.
  - destruct Hf as [->|(d & ds & -> & Hd)]; [constructor|].
    constructor; [lia|]. by apply all_digits_ascii.
  - destruct He as [->|(e & sign & d & ds & -> & He & Hs & Hd)]; [constructor|].
    constructor; [lia|]. apply Forall_app. split; [|by apply all_digits_ascii].
    destruct Hs as [->|[->| ->]]; repeat constructor; lia.
Qed.

Lemma joined_ascii ls : Forall ascii_only ls → ascii_only (joined comma ls).
Proof.
  induction 1 as [|l ls Hl Hls IH]; [constructor|]. rewrite joined_cons. apply Forall_app.
  split; [done|]. destruct ls; [constructor|]. constructor; [vm_compute; split; congruence|done].
Qed.

Lemma dumps_ascii v : json_ok v → ascii_only (dumps v).
Proof.
  induction v as [|b|z|l|s|l IH|l IH] using json_ind; intros Hok; inversion Hok; subst.
  - repeat constructor; vm_compute; congruence.
  - destruct b; repeat constructor; vm_compute; congruence.
  - cbn [dumps]. destruct z as [|p|p].
    + repeat constructor; vm_compute; congruence.
    + apply int_part_ascii, str_of_Z_parts. lia.
    + rewrite str_of_Z_neg. constructor; [lia|]. apply int_part_ascii, str_of_Z_parts. lia.
  - by apply float_literal_ascii.
  - apply dump_string_ascii.
  - cbn [dumps]. constructor; [vm_compute; split; congruence|]. apply Forall_app.
    split; [|repeat constructor; vm_compute; congruence]. apply joined_ascii, Forall_fmap.
    rewrite Forall_forall in IH, H0 |- *. intros x Hx. by apply IH, H0.
  - cbn [dumps]. constructor; [vm_compute; split; congruence|]. apply Forall_app.
    split; [|repeat constructor; vm_compute; congruence]. apply joined_ascii, Forall_fmap.
    rewrite Forall_forall in IH, H2 |- *. intros x Hx. apply Forall_app.
    split; [apply dump_string_ascii|]. constructor; [vm_compute; split; congruence|]. by apply IH, H2.
Qed.

Lemma utf8_decode_ascii s : ascii_only s → utf8_decode s = Some s.
Proof.
  induction 1 as [|c s Hc _ IH]; [done|]. cbn [utf8_decode].
  rewrite (proj2 (Z.ltb_lt _ _)) by lia. by rewrite IH.
Qed.
