(* ===== verification/ChannelFrames.v ===== *)
(** * Secure-channel frames

    [messaging/packets/frames.py]: the JSON frames the two peers of a
    conversation exchange inside relay bodies, their schema and their codec.
    Text is code points ([unicode]).  The time stamp of a frame is kept as
    the JSON number it is written as: [float()] of an integer rounds it
    to the nearest double ([float_round]) and overflows beyond their range. *)

From Stdlib Require Import Ascii.
From S2P Require Import Prelude Text Utf8 Json.

Open Scope Z_scope.

(** ** Numbers of a document *)

(** The sign, the digits without the point and the power of ten of a literal. *)
Definition float_parts (l : unicode) : bool * Z * Z :=
  let '(neg, s0) := strip_minus l in
  let '(int, s1) := scan_int s0 in
  let '(frac, s2) := scan_frac s1 in
  let '(exp, _) := scan_exp s2 in
  let e := match exp with
           | _ :: 45 :: ds => - digits_val ds
           | _ :: 43 :: ds => digits_val ds
           | _ :: ds => digits_val ds
           | [] => 0
           end in
  (neg, digits_val (int ++ tail frac), e - Z.of_nat (length (tail frac))).

(** [m * 10^e <= p / 2^k], exactly *)
Definition decimal_le (m e p k : Z) : bool :=
  if 0 <=? e then m * 10 ^ e * 2 ^ k <=? p else m * 2 ^ k <=? p * 10 ^ (- e).
Definition decimal_ge (m e p k : Z) : bool :=
  if 0 <=? e then p <=? m * 10 ^ e * 2 ^ k else p * 10 ^ (- e) <=? m * 2 ^ k.

(** [x > 0] for a float literal: what is at most half the least positive
    float rounds to zero. *)
Definition float_positive (l : unicode) : bool :=
  if decide (l = cp "Infinity") then true
  else if decide (l = cp "-Infinity") then false
  else if decide (l = cp "NaN") then false
  else let '(neg, m, e) := float_parts l in negb neg && negb (decimal_le m e 1 1075).

(** [x == 1] for a float literal: what rounds to one, ties included. *)
Definition float_is_one (l : unicode) : bool :=
  if decide (l = cp "Infinity") then false
  else if decide (l = cp "-Infinity") then false
  else if decide (l = cp "NaN") then false
  else let '(neg, m, e) := float_parts l in
    negb neg && decimal_ge m e (2 ^ 54 - 1) 54 && decimal_le m e (2 ^ 53 + 1) 53.

(** [value == 1] *)
Definition equals_one (v : json) : bool :=
  match v with
  | JInt z => z =? 1
  | JBool b => b
  | JFloat l => float_is_one l
  | _ => false
  end.

(** Integers [float()] refuses. *)
Definition float_overflows (z : Z) : bool := 2 ^ 1024 - 2 ^ 970 <=? Z.abs z.

(** [float(z)] within that range: the nearest double, ties to even.  It is an
    integer, and kept as one. *)
Definition float_round (z : Z) : Z :=
  let a := Z.abs z in
  if a <=? 2 ^ 53 then z
  else
    let ulp := 2 ^ (Z.log2 a - 52) in
    let q := a / ulp in
    let twice := 2 * (a mod ulp) in
    Z.sgn z * ulp * (if (twice <? ulp) || (twice =? ulp) && Z.even q then q else q + 1).

Example float_round_samples :
  float_round <$> [2 ^ 53 + 1; 2 ^ 53 + 2; 2 ^ 53 + 3; - (2 ^ 53) - 3; 10 ^ 22; 10 ^ 23; 2 ^ 60 - 1]
  = [2 ^ 53; 2 ^ 53 + 2; 2 ^ 53 + 4; - (2 ^ 53) - 4; 10 ^ 22; 10 ^ 23 - 8388608; 2 ^ 60].
Proof. reflexivity. Qed.

Lemma float_round_small z : Z.abs z <= 2 ^ 53 → float_round z = z.
Proof. intros H. unfold float_round. by rewrite (proj2 (Z.leb_le _ _) H). Qed.

(** ** Frames *)

Inductive frame_error := FrameValidationError | PyValueError | PyOverflowError.

Definition FRAME_VERSION : Z := 1.
Definition MAX_FRAME_BYTES : nat := 8192.
Definition MAX_MESSAGE_ID_LENGTH : nat := 32.
Definition MAX_KEY_HEX_LENGTH : nat := 64.
Definition MAX_HELLO_NONCE_HEX : nat := 32.
Definition MAX_PROOF_B64_LENGTH : nat := 128.
Definition MAX_CIPHERTEXT_B64_LENGTH : nat := 4096.
Definition MAX_ERROR_MESSAGE_LENGTH : nat := 256.
Definition MAX_PEER_NAME_LENGTH : nat := 24.
Definition MAX_TRANSFER_ID_LENGTH : nat := 24.
Definition MAX_OFFER_B64_LENGTH : nat := 1200.
Definition MAX_CHUNK_B64_LENGTH : nat := 5600.
Definition MAX_BITMAP_B64_LENGTH : nat := 5600.
Definition MAX_CANCEL_REASON_LENGTH : nat := 64.

Inductive FrameType :=
| KEX_HELLO | KEX_REPLY | MESSAGE | MESSAGE_ACK | READ_RECEIPT | TYPING_START | TYPING_STOP
| ERROR | FILE_OFFER | FILE_ACCEPT | FILE_REJECT | FILE_CHUNK | FILE_ACK | FILE_PAUSE
| FILE_RESUME | FILE_CANCEL | FILE_COMPLETE | FILE_ERROR.

#[export] Instance FrameType_eq_dec : EqDecision FrameType.
Proof. solve_decision. Defined.

(** [FrameType.value] *)
Definition frame_type_value (t : FrameType) : unicode :=
  cp match t with
     | KEX_HELLO => "KEX_HELLO" | KEX_REPLY => "KEX_REPLY" | MESSAGE => "MESSAGE"
     | MESSAGE_ACK => "MESSAGE_ACK" | READ_RECEIPT => "READ_RECEIPT"
     | TYPING_START => "TYPING_START" | TYPING_STOP => "TYPING_STOP" | ERROR => "ERROR"
     | FILE_OFFER => "FILE_OFFER" | FILE_ACCEPT => "FILE_ACCEPT" | FILE_REJECT => "FILE_REJECT"
     | FILE_CHUNK => "FILE_CHUNK" | FILE_ACK => "FILE_ACK" | FILE_PAUSE => "FILE_PAUSE"
     | FILE_RESUME => "FILE_RESUME" | FILE_CANCEL => "FILE_CANCEL"
     | FILE_COMPLETE => "FILE_COMPLETE" | FILE_ERROR => "FILE_ERROR"
     end.

Definition frame_types : list FrameType :=
  [KEX_HELLO; KEX_REPLY; MESSAGE; MESSAGE_ACK; READ_RECEIPT; TYPING_START; TYPING_STOP; ERROR;
   FILE_OFFER; FILE_ACCEPT; FILE_REJECT; FILE_CHUNK; FILE_ACK; FILE_PAUSE; FILE_RESUME;
   FILE_CANCEL; FILE_COMPLETE; FILE_ERROR].

(** [FrameType(value)] *)
Definition frame_type_of (s : unicode) : option FrameType :=
  list_find (λ t, frame_type_value t = s) frame_types ≫= λ x, Some x.2.

Definition fields : Type := list (unicode * json).

Record Frame := mkFrame {
  fr_type : FrameType; fr_data : fields; fr_sequence : Z; fr_id : unicode; fr_sent_at : json;
}.

(** [Frame.to_dict] *)
Definition to_dict (f : Frame) : json :=
  JObj [(cp "v", JInt FRAME_VERSION); (cp "t", JStr (frame_type_value (fr_type f)));
        (cp "seq", JInt (fr_sequence f)); (cp "id", JStr (fr_id f)); (cp "ts", fr_sent_at f);
        (cp "data", JObj (fr_data f))].

(** *** Builders; the stamp is the identifier and time a new frame draws. *)

Definition stamp : Type := unicode * json.
Definition new_frame (t : FrameType) (d : fields) (sequence : Z) (st : stamp) : Frame :=
  mkFrame t d sequence st.1 st.2.

Definition kex_hello_frame (d : fields) : stamp → Frame := new_frame KEX_HELLO d 0.
Definition kex_reply_frame (d : fields) : stamp → Frame := new_frame KEX_REPLY d 0.
Definition message_frame (message_id : unicode) (sequence : Z) (ciphertext_b64 : unicode) : stamp → Frame :=
  new_frame MESSAGE [(cp "id", JStr message_id); (cp "ct", JStr ciphertext_b64)] sequence.
Definition message_ack_frame (message_id : unicode) (sequence : Z) : stamp → Frame :=
  new_frame MESSAGE_ACK [(cp "id", JStr message_id); (cp "ack", JInt sequence)] 0.
Definition read_receipt_frame (up_to_sequence : Z) : stamp → Frame :=
  new_frame READ_RECEIPT [(cp "up_to", JInt up_to_sequence)] 0.
Definition typing_start_frame : stamp → Frame := new_frame TYPING_START [] 0.
Definition typing_stop_frame : stamp → Frame := new_frame TYPING_STOP [] 0.
Definition error_frame (code message : unicode) : stamp → Frame :=
  new_frame ERROR [(cp "code", JStr code); (cp "message", JStr message)] 0.

(** [FILE_FRAME_TYPES] *)
Definition FILE_FRAME_TYPES : list FrameType :=
  [FILE_OFFER; FILE_ACCEPT; FILE_REJECT; FILE_CHUNK; FILE_ACK; FILE_PAUSE; FILE_RESUME;
   FILE_CANCEL; FILE_COMPLETE; FILE_ERROR].

(** ** Validation *)

Definition require (b : bool) : result frame_error unit := guard_or b FrameValidationError.

Definition bounded (lo hi : nat) (s : unicode) : bool :=
  ((lo <=? length s) && (length s <=? hi))%nat.

(** [_require_str] *)
Definition require_str (d : fields) (name : string) (max_length : nat)
    : result frame_error unicode :=
  match dget d (cp name) with
  | Some (JStr s) => require (bounded 1 max_length s);; Ok s
  | _ => Err FrameValidationError
  end.

(** [_require_int] *)
Definition require_int (d : fields) (name : string) (minimum : Z) : result frame_error Z :=
  match dget d (cp name) with
  | Some (JInt z) => require (minimum <=? z);; Ok z
  | _ => Err FrameValidationError
  end.

(** [_require_hex] *)
Definition require_hex (d : fields) (name : string) (length_hex : nat)
    : result frame_error unit :=
  match dget d (cp name) with
  | Some (JStr s) =>
      require (length s =? length_hex)%nat;;
      require (bool_decide (is_Some (ascii_text s ≫= fromhex)))
  | _ => Err FrameValidationError
  end.

Definition is_base64 (s : unicode) : bool := bool_decide (is_Some (ascii_text s ≫= b64decode)).

(** [_require_b64] *)
Definition require_b64 (d : fields) (name : string) (max_length : nat)
    : result frame_error unit :=
  s ← require_str d name max_length;
  require (is_base64 s).

(** An optional field: absent and [None] are the same to [dict.get]. *)
Definition optional (d : fields) (name : string) (check : json → result frame_error unit)
    : result frame_error unit :=
  match dget d (cp name) with
  | None | Some JNull => Ok tt
  | Some v => check v
  end.

Definition control (c : Z) : bool := (c <? 32) || (c =? 127).

(** [_require_optional_name] *)
Definition require_optional_name (d : fields) : result frame_error unit :=
  optional d "name" (λ v,
    match v with
    | JStr s => require (bounded 1 MAX_PEER_NAME_LENGTH s);; require (negb (existsb control s))
    | _ => Err FrameValidationError
    end).

(** [_require_optional_idpub] *)
Definition require_optional_idpub (d : fields) : result frame_error unit :=
  optional d "idpub" (λ _, require_hex d "idpub" MAX_KEY_HEX_LENGTH).

(** [_require_transfer_id] *)
Definition require_transfer_id (d : fields) : result frame_error unit :=
  match dget d (cp "id") with
  | Some (JStr s) => require (bounded 1 MAX_TRANSFER_ID_LENGTH s)
  | _ => Err FrameValidationError
  end.

(** [_require_optional_reason] *)
Definition require_optional_reason (d : fields) : result frame_error unit :=
  optional d "reason" (λ v,
    match v with
    | JStr s => require (bounded 1 MAX_CANCEL_REASON_LENGTH s)
    | _ => Err FrameValidationError
    end).

(** [_require_optional_bitmap] *)
Definition require_optional_bitmap (d : fields) : result frame_error unit :=
  optional d "bm" (λ v,
    match v with
    | JStr s => require (bounded 0 MAX_BITMAP_B64_LENGTH s);; require (is_base64 s)
    | _ => Err FrameValidationError
    end).

(** [set(data) <= names] *)
Definition only_keys (d : fields) (names : list string) : bool :=
  forallb (λ k, bool_decide (k ∈ cp <$> names)) (keys d).

(** [_require_transfer]; [set(data) == {"id"}] holds the required key too. *)
Definition require_transfer (d : fields) (t : FrameType) : result frame_error unit :=
  require_transfer_id d;;
  match t with
  | FILE_OFFER => require_b64 d "ct" MAX_OFFER_B64_LENGTH
  | FILE_ACCEPT => require_optional_bitmap d
  | FILE_REJECT => require_optional_reason d
  | FILE_CHUNK => require_int d "n" 1;; require_b64 d "ct" MAX_CHUNK_B64_LENGTH
  | FILE_ACK => require_int d "n" 1;; Ok tt
  | FILE_PAUSE | FILE_RESUME => require (only_keys d ["id"] && dmem d (cp "id"))
  | FILE_CANCEL => require_optional_reason d;; require (only_keys d ["id"; "reason"])
  | FILE_COMPLETE => require_hex d "sha256" 64
  | FILE_ERROR =>
      require_str d "code" 64;;
      require_str d "message" MAX_ERROR_MESSAGE_LENGTH;;
      require (only_keys d ["id"; "code"; "message"])
  | _ => Ok tt
  end.

(** [validate_frame] *)
Definition validate_frame (t : FrameType) (sequence : Z) (d : fields) : result frame_error unit :=
  require (0 <=? sequence);;
  match t with
  | KEX_HELLO =>
      require_hex d "pub" MAX_KEY_HEX_LENGTH;; require_hex d "nonce" MAX_HELLO_NONCE_HEX;;
      require_optional_name d;; require_optional_idpub d
  | KEX_REPLY =>
      require_hex d "pub" MAX_KEY_HEX_LENGTH;; require_hex d "nonce" MAX_HELLO_NONCE_HEX;;
      require_b64 d "proof" MAX_PROOF_B64_LENGTH;;
      require_optional_name d;; require_optional_idpub d
  | MESSAGE =>
      require_str d "id" MAX_MESSAGE_ID_LENGTH;; require_b64 d "ct" MAX_CIPHERTEXT_B64_LENGTH
  | MESSAGE_ACK =>
      require_str d "id" MAX_MESSAGE_ID_LENGTH;; require_int d "ack" 0;; Ok tt
  | READ_RECEIPT => require_int d "up_to" 0;; Ok tt
  | ERROR =>
      require_str d "code" 64;; require_str d "message" MAX_ERROR_MESSAGE_LENGTH;; Ok tt
  | TYPING_START | TYPING_STOP => require (bool_decide (d = []))
  | _ => require_transfer d t
  end.

(** ** Codec *)

(** [encode_frame]; JSON text is ASCII, one byte per character. *)
Definition encode_frame (f : Frame) : result frame_error bytes :=
  validate_frame (fr_type f) (fr_sequence f) (fr_data f);;
  let encoded := dumps (to_dict f) in
  require (length encoded <=? MAX_FRAME_BYTES)%nat;;
  Ok encoded.

(** The time stamp of an inbound frame. *)
Definition require_timestamp (v : option json) : result frame_error json :=
  match v with
  | Some (JInt z) => require (0 <? z);; Ok (JInt z)
  | Some (JFloat l) => require (float_positive l);; Ok (JFloat l)
  | _ => Err FrameValidationError
  end.

(** The checks of [decode_frame] on the parsed document. *)
Definition frame_of_document (document : json) : result frame_error Frame :=
  match document with
  | JObj d =>
      require (from_option equals_one false (dget d (cp "v")));;
      t ← match dget d (cp "t") with
          | Some (JStr s) => of_option (frame_type_of s) FrameValidationError
          | _ => Err FrameValidationError
          end;
      sequence ← require_int d "seq" 0;
      frame_id ← require_str d "id" 16;
      sent_at ← require_timestamp (dget d (cp "ts"));
      match dget d (cp "data") with
      | Some (JObj data) =>
          validate_frame t sequence data;;
          stamp ← match sent_at with
                  | JInt z => guard_or (negb (float_overflows z)) PyOverflowError;; Ok (JInt (float_round z))
                  | v => Ok v
                  end;
          Ok (mkFrame t data sequence frame_id stamp)
      | _ => Err FrameValidationError
      end
  | _ => Err FrameValidationError
  end.

(** [decode_frame] *)
Definition decode_frame (raw : bytes) : result frame_error Frame :=
  require (length raw <=? MAX_FRAME_BYTES)%nat;;
  text ← of_option (utf8_decode raw) FrameValidationError;
  document ← match loads text with
             | Ok v => Ok v
             | Err JSONDecodeError => Err FrameValidationError
             | Err IntTooLong => Err PyValueError
             end;
  frame_of_document document.

(** ** Theorems *)

Lemma frame_type_of_value t : frame_type_of (frame_type_value t) = Some t.
Proof. by destruct t. Qed.

(** The time stamps [time.time()] gives, and integers that a double holds
    exactly. *)
Definition timestamp_ok (v : json) : Prop :=
  match v with
  | JInt z => 0 < z ∧ float_overflows z = false ∧ float_round z = z ∧ int_ok z
  | JFloat l => float_literal l ∧ float_positive l = true
  | _ => False
  end.

(** What the constructors of frames fill in. *)
Record frame_wf (f : Frame) : Prop := {
  fw_id : bounded 1 16 (fr_id f) = true ∧ Forall (λ c, is_scalar c = true) (fr_id f);
  fw_time : timestamp_ok (fr_sent_at f);
  fw_seq : int_ok (fr_sequence f);
  fw_data : json_ok (JObj (fr_data f));
}.

Lemma frame_type_scalar t : Forall (λ c, is_scalar c = true) (frame_type_value t).
Proof. destruct t; repeat constructor. Qed.

Lemma to_dict_ok f : frame_wf f → json_ok (to_dict f).
Proof.
  intros [[_ Hid] Ht Hs Hd]. unfold to_dict. constructor.
  - unfold dict_wf, keys. cbn [fmap list_fmap fst]. apply (bool_decide_unpack _). vm_compute. exact I.
  - repeat constructor.
  - constructor; [constructor; unfold int_ok; vm_compute; lia|].
    constructor; [constructor; apply frame_type_scalar|]. constructor; [by constructor|].
    constructor; [by constructor|]. constructor; [|constructor; [exact Hd|constructor]].
    cbn [snd]. destruct (fr_sent_at f); try done; constructor; apply Ht.
Qed.

Lemma require_timestamp_ok v :
  timestamp_ok v → require_timestamp (Some v) = Ok v ∧
  match v with
  | JInt z => guard_or (negb (float_overflows z)) PyOverflowError;; Ok (JInt (float_round z))
  | v => Ok v
  end = Ok v.
Proof.
  destruct v as [| |z|l| | |]; try done; cbn [timestamp_ok require_timestamp].
  - intros (H1 & H2 & H3 & _). rewrite (proj2 (Z.ltb_lt _ _) H1), H2, H3. done.
  - intros [_ H]. by rewrite H.
Qed.

Lemma require_frame_Ok b u : require b = Ok u ↔ b = true.
Proof. apply guard_or_Ok. Qed.

Lemma frame_of_to_dict f :
  frame_wf f → validate_frame (fr_type f) (fr_sequence f) (fr_data f) = Ok tt →
  frame_of_document (to_dict f) = Ok f.
Proof.
  intros [[Hid _] Ht _ _] Hv. destruct (require_timestamp_ok _ Ht) as [H1 H2].
  assert (Hseq : 0 <=? fr_sequence f = true).
  { unfold validate_frame in Hv. by apply bind_Ok in Hv as (_ & H%require_frame_Ok & _). }
  destruct f as [t d seq id ts]. cbn [fr_type fr_data fr_sequence fr_id fr_sent_at] in *.
  unfold frame_of_document, to_dict. cbn [fr_type fr_data fr_sequence fr_id fr_sent_at].
  set (doc := [(cp "v", _); _; _; _; _; _]).
  assert (E1 : dget doc (cp "v") = Some (JInt FRAME_VERSION)) by reflexivity.
  assert (E2 : dget doc (cp "t") = Some (JStr (frame_type_value t))) by reflexivity.
  assert (E3 : dget doc (cp "seq") = Some (JInt seq)) by reflexivity.
  assert (E4 : dget doc (cp "id") = Some (JStr id)) by reflexivity.
  assert (E5 : dget doc (cp "ts") = Some ts) by reflexivity.
  assert (E6 : dget doc (cp "data") = Some (JObj d)) by reflexivity.
  unfold require_int, require_str. rewrite E1, E2, E3, E4, E5, E6.
  rewrite frame_type_of_value, H1, Hseq, Hid.
  change (require (from_option equals_one false (Some (JInt FRAME_VERSION)))) with
    (Ok (E := frame_error) tt).
  cbn [require guard_or of_option mbind result_bind]. rewrite Hv. cbn [mbind result_bind].
  destruct ts; cbn [mbind result_bind] in *; try reflexivity. by rewrite H2.
Qed.

Lemma decode_encode_frame f raw :
  frame_wf f → encode_frame f = Ok raw → decode_frame raw = Ok f.
Proof.
  intros Hf H. unfold encode_frame in H. apply bind_Ok in H as ([] & Hv & H).
  apply bind_Ok in H as ([] & Hlen%require_frame_Ok & H).
  assert (E : raw = dumps (to_dict f)) by congruence. clear H. subst raw.
  pose proof (to_dict_ok f Hf) as Hok. unfold decode_frame.
  rewrite Hlen, (utf8_decode_ascii _ (dumps_ascii _ Hok)).
  cbn [require guard_or of_option mbind result_bind]. rewrite (loads_dumps _ Hok).
  by apply frame_of_to_dict.
Qed.

(** C38: A frame survives the wire: whatever [encode_frame] accepts (a valid
    payload of at most 8192 bytes) of a frame with an identifier of 1 to 16
    characters and a positive time stamp (a float, or an integer that a double
    holds exactly) is decoded to the very same frame, if its texts
    consist of Unicode scalar values (no surrogates), its integers have at
    most 4300 digits and its floats are finite.  Text of any such characters
    survives, control characters and those beyond the basic plane included. *)
Theorem channel_frame_roundtrip f raw :
  frame_wf f → encode_frame f = Ok raw → decode_frame raw = Ok f.
Proof. apply decode_encode_frame. Qed.

Definition sample_frame : Frame :=
  mkFrame FILE_CHUNK [(cp "id", JStr (cp "tf_00ff00ff")); (cp "n", JInt 3); (cp "ct", JStr (cp "AAAA"))]
    7 (cp "0011aabbccdd") (JFloat (cp "1731888000.25")).

Lemma sample_frame_wf : frame_wf sample_frame.
Proof.
  split.
  - split; [reflexivity|]. repeat constructor.
  - split; [|vm_compute; reflexivity].
    exists false, (cp "1731888000"), (cp ".25"), []. split; [reflexivity|]. split; [|split; [|split]].
    + right. eexists _, _. split; [reflexivity|]. split; [vm_compute; split; congruence|]. repeat constructor.
    + right. eexists _, _. split; [reflexivity|]. repeat constructor.
    + by left.
    + discriminate.
  - unfold int_ok. vm_compute. lia.
  - constructor.
    + apply (bool_decide_unpack _). vm_compute. exact I.
    + repeat constructor.
    + constructor; [by repeat constructor|].
      constructor; [constructor; unfold int_ok; vm_compute; lia|].
      constructor; [by repeat constructor|]. constructor.
Qed.

Definition sample_bytes : bytes := dumps (to_dict sample_frame).

Lemma channel_frame_roundtrip_witness : decode_frame sample_bytes = Ok sample_frame.
Proof.
  apply channel_frame_roundtrip; [exact sample_frame_wf|]. vm_compute. reflexivity.
Defined.

(** What the handlers of a frame rely on, per frame type. *)
Definition text_field (d : fields) (name : string) (max_length : nat) : Prop :=
  ∃ s, dget d (cp name) = Some (JStr s) ∧ (1 <= length s <= max_length)%nat.
Definition int_field (d : fields) (name : string) (minimum : Z) : Prop :=
  ∃ z, dget d (cp name) = Some (JInt z) ∧ minimum <= z.
Definition b64_field (d : fields) (name : string) (max_length : nat) : Prop :=
  ∃ s t b, dget d (cp name) = Some (JStr s) ∧ (1 <= length s <= max_length)%nat ∧
    ascii_text s = Some t ∧ b64decode t = Some b.
Definition hex_field (d : fields) (name : string) (size : nat) : Prop :=
  ∃ s t b, dget d (cp name) = Some (JStr s) ∧ length s = size ∧
    ascii_text s = Some t ∧ fromhex t = Some b.

Definition frame_promise (t : FrameType) (d : fields) : Prop :=
  match t with
  | KEX_HELLO => hex_field d "pub" 64 ∧ hex_field d "nonce" 32
  | KEX_REPLY => hex_field d "pub" 64 ∧ hex_field d "nonce" 32 ∧ b64_field d "proof" 128
  | MESSAGE => text_field d "id" 32 ∧ b64_field d "ct" 4096
  | MESSAGE_ACK => text_field d "id" 32 ∧ int_field d "ack" 0
  | READ_RECEIPT => int_field d "up_to" 0
  | TYPING_START | TYPING_STOP => d = []
  | ERROR => text_field d "code" 64 ∧ text_field d "message" 256
  | FILE_OFFER => text_field d "id" 24 ∧ b64_field d "ct" 1200
  | FILE_CHUNK => text_field d "id" 24 ∧ int_field d "n" 1 ∧ b64_field d "ct" 5600
  | FILE_ACK => text_field d "id" 24 ∧ int_field d "n" 1
  | FILE_COMPLETE => text_field d "id" 24 ∧ hex_field d "sha256" 64
  | FILE_ERROR => text_field d "id" 24 ∧ text_field d "code" 64 ∧ text_field d "message" 256
  | FILE_PAUSE | FILE_RESUME | FILE_ACCEPT | FILE_REJECT | FILE_CANCEL => text_field d "id" 24
  end.

Lemma require_str_Ok d name n s :
  require_str d name n = Ok s → dget d (cp name) = Some (JStr s) ∧ (1 <= length s <= n)%nat.
Proof.
  unfold require_str. destruct (dget d (cp name)) as [[]|]; try done. intros H.
  apply bind_Ok in H as ([] & Hb%require_frame_Ok & [= <-]). unfold bounded in Hb. breflect. done.
Qed.

Lemma require_str_field d name n s : require_str d name n = Ok s → text_field d name n.
Proof. intros [H1 H2]%require_str_Ok. by exists s. Qed.

Lemma require_int_field d name n z : require_int d name n = Ok z → int_field d name n.
Proof.
  unfold require_int. destruct (dget d (cp name)) as [[]|] eqn:E; try done. intros H.
  apply bind_Ok in H as ([] & Hb%require_frame_Ok & [= <-]). breflect. by eexists.
Qed.

Lemma require_b64_field d name n : require_b64 d name n = Ok tt → b64_field d name n.
Proof.
  intros H. apply bind_Ok in H as (s & [H1 H2]%require_str_Ok & H%require_frame_Ok).
  unfold is_base64 in H. breflect. destruct H as [b Hb]. apply bind_Some in Hb as (t & Ht & Hb).
  by exists s, t, b.
Qed.

Lemma require_hex_field d name n : require_hex d name n = Ok tt → hex_field d name n.
Proof.
  unfold require_hex. destruct (dget d (cp name)) as [[]|] eqn:E; try done. intros H.
  apply bind_Ok in H as ([] & Hl%require_frame_Ok & H%require_frame_Ok). apply Nat.eqb_eq in Hl. breflect.
  destruct H as [b Hb]. apply bind_Some in Hb as (t & Ht & Hb). by exists s, t, b.
Qed.

Lemma require_transfer_id_field d : require_transfer_id d = Ok tt → text_field d "id" 24.
Proof.
  unfold require_transfer_id. destruct (dget d (cp "id")) as [[]|] eqn:E; try done.
  intros H%require_frame_Ok. unfold bounded in H. breflect. by eexists.
Qed.

Create HintDb frames.
#[export] Hint Resolve require_str_field require_int_field require_b64_field require_hex_field
  require_transfer_id_field : frames.

(** Take a sequence of checks apart. *)
Ltac checks H :=
  repeat match type of H with
  | (_ ≫= _) = Ok _ => let x := fresh "x" in let E := fresh "E" in apply bind_Ok in H as (x & E & H);
      try destruct x
  end.

Lemma validate_frame_promise t seq d : validate_frame t seq d = Ok tt → frame_promise t d.
Proof.
  unfold validate_frame. intros H. apply bind_Ok in H as ([] & _ & H).
  destruct t; cbn [frame_promise]; unfold require_transfer in H; checks H; repeat split;
    eauto with frames.
  all: apply require_frame_Ok in H; by breflect.
Qed.

(** Nothing reaches a handler unvalidated: a frame that is decoded, from
    any bytes, came from at most 8192 of them, has a sequence number of at
    least 0 and an identifier of 1 to 16 characters, and carries every field
    its handler reads: text within its bound, integers at least their
    minimum, base64 and hexadecimal fields that decode. *)
Theorem decoded_frame_is_valid raw f :
  decode_frame raw = Ok f →
  (length raw <= MAX_FRAME_BYTES)%nat ∧ 0 <= fr_sequence f ∧ (1 <= length (fr_id f) <= 16)%nat ∧
  frame_promise (fr_type f) (fr_data f).
Proof.
  unfold decode_frame. intros H. apply bind_Ok in H as ([] & Hl%require_frame_Ok & H).
  apply bind_Ok in H as (text & _ & H). apply bind_Ok in H as (doc & _ & H). breflect.
  unfold frame_of_document in H. destruct doc as [| | | | | |d]; try done.
  apply bind_Ok in H as ([] & _ & H). apply bind_Ok in H as (t & _ & H).
  apply bind_Ok in H as (seq & Hs & H). apply bind_Ok in H as (id & [_ Hid]%require_str_Ok & H).
  apply bind_Ok in H as (ts & _ & H).
  destruct (dget d (cp "data")) as [[| | | | | |data]|]; try done.
  apply bind_Ok in H as ([] & Hv%validate_frame_promise & H). apply bind_Ok in H as (stamp & _ & H).
  injection H as <-. split; [done|]. split; [|by split].
  unfold require_int in Hs. destruct (dget d (cp "seq")) as [[| |z| | | |]|]; try done.
  apply bind_Ok in Hs as ([] & Hs%require_frame_Ok & [= <-]). cbn [fr_sequence]. by breflect.
Qed.

Lemma decoded_frame_is_valid_witness : frame_promise FILE_CHUNK (fr_data sample_frame).
Proof.
  assert (H : decode_frame sample_bytes = Ok sample_frame) by (vm_compute; reflexivity).
  exact (proj2 (proj2 (proj2 (decoded_frame_is_valid sample_bytes sample_frame H)))).
Defined.

Definition long_integer_frame : bytes :=
  [lbrace; quote; 118; quote; colon] ++ replicate 4301 49 ++ [rbrace].

(** Not every undecodable frame is reported as one: a body of 4307 bytes
    whose version is an integer of 4301 digits, within the size limit and
    well-formed JSON, raises the [ValueError] of [int] instead of the
    validation error callers handle. *)
Theorem long_integer_escapes_validation :
  (length long_integer_frame <= MAX_FRAME_BYTES)%nat ∧
  decode_frame long_integer_frame = Err PyValueError.
Proof.
  split; [apply Nat.leb_le; vm_compute; reflexivity|]. vm_compute. reflexivity.
Qed.
