(* ===== verification/Handshake.v ===== *)
(** * The key exchange of a conversation

    [messaging/protocol/handshake.py]: the host's hello, the guest's reply
    with its proof, and the session both derive.  Payloads are JSON objects;
    ephemeral keys and nonces are drawn by the caller. *)

From S2P Require Import Prelude Text Utf8 Primitives Crypto Json.

Open Scope Z_scope.

Inductive HandshakeError := HandshakeFailedError | PyValueError | PyAssertionError.

Definition CONFIRM_PREFIX : bytes := encode "ghostlink-confirm/v1|".
Definition TRANSCRIPT_PREFIX : bytes := encode "GL3|".

Record SecureSession := mkSession {
  ss_session_key : bytes; ss_transcript : bytes; ss_conversation_id : string;
  ss_fingerprint : string; ss_initiator : bool; ss_identity_bound : bool;
}.

Definition bar : bytes := encode "|".

(** [_build_transcript] *)
Definition build_transcript (channel_id : string) (hello_pub hello_nonce reply_pub reply_nonce : bytes)
    (hello_idpub reply_idpub : option bytes) : bytes :=
  TRANSCRIPT_PREFIX ++ encode channel_id ++ bar ++ hello_pub ++ hello_nonce ++ reply_pub ++ reply_nonce
  ++ from_option (app bar) [] hello_idpub ++ from_option (app bar) [] reply_idpub.

Definition payload : Type := list (unicode * json).

(** [_decode_hex] of a hexadecimal field, and of the proof *)
Definition decode_hex (p : payload) (field : string) : result HandshakeError bytes :=
  match dget p (cp field) with
  | Some (JStr raw) => of_option (ascii_text raw ≫= fromhex) HandshakeFailedError
  | _ => Err HandshakeFailedError
  end.
Definition decode_proof (p : payload) : result HandshakeError bytes :=
  match dget p (cp "proof") with
  | Some (JStr raw) => of_option (ascii_text raw ≫= b64decode) HandshakeFailedError
  | _ => Err HandshakeFailedError
  end.

(** [_optional_idpub] *)
Definition optional_idpub (p : payload) : result HandshakeError (option bytes) :=
  match dget p (cp "idpub") with
  | None | Some JNull => Ok None
  | Some _ =>
      decoded ← decode_hex p "idpub";
      guard_or (length decoded =? 32)%nat HandshakeFailedError;;
      Ok (Some decoded)
  end.

(** One side of the exchange, [HandshakeInitiator] or [HandshakeResponder]:
    both hold the same fields. *)
Record Handshake := mkHandshake {
  hs_channel : string; hs_display_name : unicode; hs_idpub_hex : option string;
  hs_private : option bytes; hs_public : bytes; hs_nonce : bytes; hs_used : bool;
}.

Definition set_used (h : Handshake) (private : option bytes) : Handshake :=
  mkHandshake (hs_channel h) (hs_display_name h) (hs_idpub_hex h) private (hs_public h) (hs_nonce h) true.

Section handshake.
Context {P : Primitives} {K : KexPrimitives}.

(** [__init__] with the drawn private key and nonce *)
Definition Handshake_init (channel : string) (display_name : unicode) (idpub_hex : option string)
    (private nonce : bytes) : Handshake :=
  mkHandshake channel (uni_strip display_name) idpub_hex (Some private) (x25519_public private) nonce false.

(** [if self._idpub_hex] *)
Definition presented (h : Handshake) : option string :=
  match hs_idpub_hex h with
  | Some s => if decide (s = "") then None else Some s
  | None => None
  end.

(** The fields both payloads end with. *)
Definition name_fields (h : Handshake) : payload :=
  (if decide (hs_display_name h = []) then [] else [(cp "name", JStr (hs_display_name h))])
  ++ match presented h with None => [] | Some s => [(cp "idpub", JStr (cp s))] end.

(** [hello_payload] *)
Definition hello_payload (h : Handshake) : payload :=
  [(cp "pub", JStr (cp (hexdigest (hs_public h)))); (cp "nonce", JStr (cp (hexdigest (hs_nonce h))))]
  ++ name_fields h.

(** [bytes.fromhex(self._idpub_hex) if self._idpub_hex else None] *)
Definition own_idpub (h : Handshake) : result HandshakeError (option bytes) :=
  match presented h with
  | None => Ok None
  | Some s => raw ← of_option (fromhex s) PyValueError; Ok (Some raw)
  end.

Definition confirmation (transcript : bytes) : bytes := CONFIRM_PREFIX ++ sha256 transcript.

Definition session_of (key transcript : bytes) (initiator : bool) (hello reply : option bytes)
    : SecureSession :=
  mkSession key transcript ("conv_" +:+ of_chars (take 12 (chars (hexdigest (sha256 transcript)))))
    (transcript_fingerprint transcript) initiator
    (bool_decide (is_Some hello) && bool_decide (is_Some reply)).

(** [HandshakeInitiator.complete] *)
Definition complete (h : Handshake) (reply : payload) : outcome Handshake HandshakeError SecureSession :=
  try? _ := guard_or (negb (hs_used h)) HandshakeFailedError @ h in
  let h1 := set_used h (hs_private h) in
  try? reply_pub := decode_hex reply "pub" @ h1 in
  try? reply_nonce := decode_hex reply "nonce" @ h1 in
  try? proof := decode_proof reply @ h1 in
  try? reply_idpub := optional_idpub reply @ h1 in
  try? hello_idpub := own_idpub h @ h1 in
  let transcript := build_transcript (hs_channel h) (hs_public h) (hs_nonce h) reply_pub reply_nonce
                      hello_idpub reply_idpub in
  try? private := of_option (hs_private h) PyAssertionError @ h1 in
  try? key := of_option (derive_session_key private reply_pub transcript) HandshakeFailedError @ h1 in
  try? opened := of_option (open_sealed key proof transcript) HandshakeFailedError @ h1 in
  try? _ := guard_or (bool_decide (opened = confirmation transcript)) HandshakeFailedError @ h1 in
  (Ok (session_of key transcript true hello_idpub reply_idpub), set_used h None).

(** [HandshakeResponder.answer]; [nonce] is the one [seal] draws. *)
Definition answer (h : Handshake) (hello : payload) (nonce : bytes)
    : outcome Handshake HandshakeError (payload * SecureSession) :=
  try? _ := guard_or (negb (hs_used h)) HandshakeFailedError @ h in
  let h1 := set_used h (hs_private h) in
  try? hello_pub := decode_hex hello "pub" @ h1 in
  try? hello_nonce := decode_hex hello "nonce" @ h1 in
  try? hello_idpub := optional_idpub hello @ h1 in
  try? reply_idpub := own_idpub h @ h1 in
  let transcript := build_transcript (hs_channel h) hello_pub hello_nonce (hs_public h) (hs_nonce h)
                      hello_idpub reply_idpub in
  try? private := of_option (hs_private h) PyAssertionError @ h1 in
  try? key := of_option (derive_session_key private hello_pub transcript) HandshakeFailedError @ h1 in
  let proof := seal key nonce (confirmation transcript) transcript in
  let p := [(cp "pub", JStr (cp (hexdigest (hs_public h)))); (cp "nonce", JStr (cp (hexdigest (hs_nonce h))));
            (cp "proof", JStr (cp (b64encode proof)))] ++ name_fields h in
  (Ok (p, session_of key transcript false hello_idpub reply_idpub), set_used h None).
End handshake.


(** ** Lemmas *)

(** The identity key a side presents, when it has one. *)
Definition idpub_bytes (idpub_hex : option string) : option bytes :=
  match idpub_hex with
  | Some s => if decide (s = "") then None else fromhex s
  | None => None
  end.

(** No identity, or the hexadecimal text of a key of 32 bytes. *)
Definition identity_ok (idpub_hex : option string) : Prop :=
  match idpub_hex with
  | Some s => s = "" ∨ (ascii_string s ∧ ∃ k, fromhex s = Some k ∧ length k = 32%nat)
  | None => True
  end.

Lemma decode_hex_digest p field b :
  dget p (cp field) = Some (JStr (cp (hexdigest b))) → bytes_ok b → decode_hex p field = Ok b.
Proof.
  intros H Hb. unfold decode_hex. rewrite H. unfold cp.
  rewrite (ascii_text_encode _ (hexdigest_ascii b)). cbn [mbind option_bind].
  by rewrite (fromhex_hexdigest b Hb).
Qed.

Lemma decode_proof_encoded p b :
  dget p (cp "proof") = Some (JStr (cp (b64encode b))) → bytes_ok b → decode_proof p = Ok b.
Proof.
  intros H Hb. unfold decode_proof. rewrite H. unfold cp.
  rewrite (ascii_text_encode _ (b64encode_ascii b)). cbn [mbind option_bind].
  by rewrite (b64_roundtrip b Hb).
Qed.

(** What the other side reads of the identity field. *)
Lemma optional_idpub_presented p h :
  dget p (cp "idpub") = match presented h with None => None | Some s => Some (JStr (cp s)) end →
  identity_ok (hs_idpub_hex h) → optional_idpub p = Ok (idpub_bytes (hs_idpub_hex h)).
Proof.
  unfold optional_idpub, decode_hex, presented, identity_ok, idpub_bytes. intros H Hok.
  destruct (hs_idpub_hex h) as [s|]; [|by rewrite H].
  destruct (decide (s = "")) as [Hs|Hs]; [by rewrite H|].
  destruct Hok as [?|(Ha & k & Hk & Hl)]; [done|]. rewrite H. unfold cp.
  rewrite (ascii_text_encode _ Ha). cbn [mbind option_bind]. rewrite Hk. cbn [of_option mbind result_bind].
  by rewrite Hl.
Qed.

Lemma own_idpub_presented h :
  identity_ok (hs_idpub_hex h) → own_idpub h = Ok (idpub_bytes (hs_idpub_hex h)).
Proof.
  unfold own_idpub, presented, identity_ok, idpub_bytes. intros Hok.
  destruct (hs_idpub_hex h) as [s|]; [|done]. destruct (decide (s = "")) as [Hs|Hs]; [done|].
  destruct Hok as [?|(_ & k & Hk & _)]; [done|]. by rewrite Hk.
Qed.

Lemma name_fields_idpub h :
  dget (name_fields h) (cp "idpub") = match presented h with None => None | Some s => Some (JStr (cp s)) end.
Proof. unfold name_fields. destruct (decide _), (presented h); reflexivity. Qed.

Lemma confirmation_ok {P : Primitives} {L : PrimitiveLaws P} t : bytes_ok (confirmation t).
Proof. apply Forall_app. split; [apply encode_ok|apply sha256_ok]. Qed.

(** ** Agreement *)

Section agreement.
Context {P : Primitives} {L : PrimitiveLaws P} {K : KexPrimitives} {KL : KexLaws K}.

(** The session both sides of an undisturbed exchange hold. *)
Definition agreed (hi hr : Handshake) (key : bytes) (initiator : bool) : SecureSession :=
  let hello := idpub_bytes (hs_idpub_hex hi) in
  let reply := idpub_bytes (hs_idpub_hex hr) in
  session_of key (build_transcript (hs_channel hi) (hs_public hi) (hs_nonce hi) (hs_public hr) (hs_nonce hr)
                    hello reply) initiator hello reply.

(** A side that has not been used. *)
Record fresh_side (h : Handshake) (private : bytes) : Prop := {
  fs_used : hs_used h = false;
  fs_key : hs_private h = Some private;
  fs_public : hs_public h = x25519_public private;
  fs_nonce : bytes_ok (hs_nonce h);
  fs_identity : identity_ok (hs_idpub_hex h);
}.

Lemma Handshake_init_fresh channel name idpub_hex private nonce :
  bytes_ok nonce → identity_ok idpub_hex →
  fresh_side (Handshake_init channel name idpub_hex private nonce) private.
Proof. by split. Qed.

Lemma fresh_public_ok h a : fresh_side h a → bytes_ok (hs_public h).
Proof. intros []. rewrite fs_public0. apply x25519_public_ok. Qed.

Lemma answer_fresh hi hr a b nonce key :
  fresh_side hi a → fresh_side hr b → hs_channel hi = hs_channel hr →
  derive_session_key b (hs_public hi) (ss_transcript (agreed hi hr key false)) = Some key →
  let t := ss_transcript (agreed hi hr key false) in
  answer hr (hello_payload hi) nonce =
    (Ok ([(cp "pub", JStr (cp (hexdigest (hs_public hr)))); (cp "nonce", JStr (cp (hexdigest (hs_nonce hr))));
          (cp "proof", JStr (cp (b64encode (seal key nonce (confirmation t) t))))] ++ name_fields hr,
         agreed hi hr key false), set_used hr None).
Proof.
  intros Hi Hr Hc Hk t. subst t. unfold answer. rewrite (fs_used _ _ Hr). cbn [negb guard_or].
  rewrite (decode_hex_digest (hello_payload hi) "pub" (hs_public hi)); [|reflexivity|by eapply fresh_public_ok].
  rewrite (decode_hex_digest (hello_payload hi) "nonce" (hs_nonce hi)); [|reflexivity|apply Hi].
  rewrite (optional_idpub_presented (hello_payload hi) hi); [|apply name_fields_idpub|apply Hi].
  rewrite (own_idpub_presented hr) by apply Hr. rewrite (fs_key _ _ Hr). cbn [of_option].
  unfold agreed, session_of in *. cbn [ss_transcript] in *. rewrite <- Hc. rewrite Hk. reflexivity.
Qed.

Lemma complete_fresh hi hr a key nonce :
  fresh_side hi a → (∃ b, fresh_side hr b) → bytes_ok nonce → length nonce = NONCE_BYTES →
  let t := ss_transcript (agreed hi hr key true) in
  derive_session_key a (hs_public hr) t = Some key →
  complete hi ([(cp "pub", JStr (cp (hexdigest (hs_public hr))));
                (cp "nonce", JStr (cp (hexdigest (hs_nonce hr))));
                (cp "proof", JStr (cp (b64encode (seal key nonce (confirmation t) t))))] ++ name_fields hr) =
    (Ok (agreed hi hr key true), set_used hi None).
Proof.
  intros Hi [b Hr] Hn Hl t Hk. unfold complete. rewrite (fs_used _ _ Hi). cbn [negb guard_or].
  set (reply := _ ++ name_fields hr).
  rewrite (decode_hex_digest reply "pub" (hs_public hr)); [|reflexivity|by eapply fresh_public_ok].
  rewrite (decode_hex_digest reply "nonce" (hs_nonce hr)); [|reflexivity|apply Hr].
  rewrite (decode_proof_encoded reply (seal key nonce (confirmation t) t));
    [|reflexivity|apply seal_ok; [done|apply confirmation_ok]].
  rewrite (optional_idpub_presented reply hr); [|apply name_fields_idpub|apply Hr].
  rewrite (own_idpub_presented hi) by apply Hi. rewrite (fs_key _ _ Hi). cbn [of_option].
  fold t. change (build_transcript _ _ _ _ _ _ _) with t. rewrite Hk. cbn [of_option].
  rewrite (open_seal key nonce _ t Hl). cbn [of_option]. by rewrite bool_decide_true.
Qed.

(** The two sides of an undisturbed exchange agree: the guest answers the
    host's hello, the host accepts the answer, and both hold the same
    session key, transcript, conversation id and safety code, with the
    identity keys bound exactly when both presented one; the ephemeral
    private keys are gone on both sides. *)
Theorem handshake_agrees channel name_i name_r id_i id_r a b nonce_i nonce_r nonce :
  bytes_ok nonce_i → bytes_ok nonce_r → bytes_ok nonce → length nonce = NONCE_BYTES →
  identity_ok id_i → identity_ok id_r →
  let hi := Handshake_init channel name_i id_i a nonce_i in
  let hr := Handshake_init channel name_r id_r b nonce_r in
  ∃ reply key,
    answer hr (hello_payload hi) nonce = (Ok (reply, agreed hi hr key false), set_used hr None) ∧
    complete hi reply = (Ok (agreed hi hr key true), set_used hi None) ∧
    hs_private (set_used hr None) = None ∧ hs_private (set_used hi None) = None ∧
    (ss_identity_bound (agreed hi hr key true) = true ↔
     is_Some (idpub_bytes id_i) ∧ is_Some (idpub_bytes id_r)).
Proof.
  intros H1 H2 H3 H4 H5 H6 hi hr.
  assert (Hi : fresh_side hi a) by by apply Handshake_init_fresh.
  assert (Hr : fresh_side hr b) by by apply Handshake_init_fresh.
  destruct (session_keys_agree a b (ss_transcript (agreed hi hr [] false))) as (key & Ka & Kb).
  eexists _, key. split; [by eapply (answer_fresh hi hr a b)|].
  split; [by apply (complete_fresh hi hr a); eauto|].
  split; [done|]. split; [done|]. cbn [agreed session_of ss_identity_bound].
  rewrite andb_true_iff, !bool_decide_eq_true. done.
Qed.

(** A side is used once: afterwards every call fails without effect. *)
Lemma complete_used h reply : hs_used h = true → complete h reply = (Err HandshakeFailedError, h).
Proof. intros H. unfold complete. by rewrite H. Qed.

Lemma complete_uses h reply : hs_used (complete h reply).2 = true.
Proof.
  unfold complete. destruct (hs_used h) eqn:E; cbn [negb guard_or]; [done|].
  by repeat (case_match; [|done]).
Qed.

(** C30: The host accepts only a reply that proves the key: when [complete]
    returns a session, the reply carried a 32-byte key and a proof that,
    opened under the derived session key with the transcript as associated
    data, is the confirmation prefix and the transcript's hash; the session
    is about that transcript, and the same side never completes again. *)
Theorem complete_requires_proof h reply s h' :
  complete h reply = (Ok s, h') →
  ∃ private pub nonce proof hello_id reply_id,
    hs_private h = Some private ∧ decode_hex reply "pub" = Ok pub ∧ length pub = PUBLIC_KEY_BYTES ∧
    decode_hex reply "nonce" = Ok nonce ∧ decode_proof reply = Ok proof ∧
    ss_transcript s = build_transcript (hs_channel h) (hs_public h) (hs_nonce h) pub nonce hello_id reply_id ∧
    derive_session_key private pub (ss_transcript s) = Some (ss_session_key s) ∧
    open_sealed (ss_session_key s) proof (ss_transcript s) = Some (confirmation (ss_transcript s)) ∧
    hs_used h = false ∧ hs_private h' = None ∧
    (∀ again, complete h' again = (Err HandshakeFailedError, h')).
Proof.
  unfold complete at 1. intros H. destruct (hs_used h) eqn:Hu; cbn [negb guard_or] in H; [done|].
  destruct (decode_hex reply "pub") as [pub|] eqn:E1; [|done].
  destruct (decode_hex reply "nonce") as [nonce|] eqn:E2; [|done].
  destruct (decode_proof reply) as [proof|] eqn:E3; [|done].
  destruct (optional_idpub reply) as [rid|] eqn:E4; [|done].
  destruct (own_idpub h) as [hid|] eqn:E5; [|done].
  destruct (hs_private h) as [private|] eqn:E6; cbn [of_option] in H; [|done].
  destruct (derive_session_key private pub _) as [key|] eqn:E7; cbn [of_option] in H; [|done].
  destruct (open_sealed key proof _) as [opened|] eqn:E8; cbn [of_option] in H; [|done].
  destruct (bool_decide (opened = _)) eqn:E9; cbn [guard_or] in H; [|done]. breflect.
  injection H as <- <-. exists private, pub, nonce, proof, hid, rid. cbn [session_of ss_transcript ss_session_key].
  split_and!; try done; try (by intros; apply complete_used); try congruence.
  unfold derive_session_key in E7. destruct (Nat.eqb_spec (length pub) PUBLIC_KEY_BYTES); done.
Qed.
End agreement.

(** ** What the transcript commits to *)

(** The identity keys at the end of a transcript. *)
Definition id_suffix (hello reply : option bytes) : bytes :=
  from_option (app bar) [] hello ++ from_option (app bar) [] reply.

Definition key32 (o : option bytes) : Prop := from_option (λ k, length k = 32%nat) True o.

(** Blocks of one positive length are determined by their concatenation. *)
Lemma concat_blocks_inj {A} n (l l' : list (list A)) :
  Forall (λ b, length b = S n) l → Forall (λ b, length b = S n) l' → concat l = concat l' → l = l'.
Proof.
  intros Hl. revert l'. induction Hl as [|b l Hb _ IH]; intros l' Hl'; destruct Hl' as [|b' l' Hb' Hl'];
    cbn [concat]; intros E; [done| | |].
  - by destruct b'.
  - by destruct b.
  - apply app_inj_1 in E as [-> E]; [|congruence]. f_equal. by apply IH.
Qed.

Lemma id_suffix_blocks h r : id_suffix h r = concat (app bar <$> (option_list h ++ option_list r)).
Proof. destruct h, r; cbn; by rewrite ?app_nil_r. Qed.

Lemma id_suffix_inj h r h' r' :
  key32 h → key32 r → key32 h' → key32 r' → id_suffix h r = id_suffix h' r' →
  option_list h ++ option_list r = option_list h' ++ option_list r'.
Proof.
  intros H1 H2 H3 H4 E. rewrite !id_suffix_blocks in E.
  assert (HF : ∀ a b, key32 a → key32 b →
    Forall (λ k, length k = 33%nat) (app bar <$> (option_list a ++ option_list b))).
  { intros a b Ha Hb. apply Forall_fmap, Forall_app.
    split; [destruct a|destruct b]; repeat constructor; cbn in *; congruence. }
  apply (concat_blocks_inj 32) in E; [|by apply HF..]. by apply (inj (fmap (app bar))) in E.
Qed.

(** The transcript commits to the exchange: with keys of 32 and nonces of
    16 bytes, two transcripts on a channel are equal only when both
    ephemeral keys, both nonces and the sequence of presented identity keys
    are; neither side can be shown a different key, nonce or identity
    without the transcripts, and so the proof, differing. *)
Theorem transcript_binds channel pi ni pr nr hi hr pi' ni' pr' nr' hi' hr' :
  length pi = 32%nat → length pi' = 32%nat → length pr = 32%nat → length pr' = 32%nat →
  length ni = 16%nat → length ni' = 16%nat → length nr = 16%nat → length nr' = 16%nat →
  key32 hi → key32 hr → key32 hi' → key32 hr' →
  build_transcript channel pi ni pr nr hi hr = build_transcript channel pi' ni' pr' nr' hi' hr' →
  pi = pi' ∧ ni = ni' ∧ pr = pr' ∧ nr = nr' ∧
  option_list hi ++ option_list hr = option_list hi' ++ option_list hr'.
Proof.
  intros. unfold build_transcript in *.
  repeat match goal with
  | H : ?a ++ _ = ?b ++ _ |- _ => apply app_inj_1 in H as [? H]; [|congruence]
  end.
  split_and!; try done. by apply id_suffix_inj.
Qed.

(** ** Witnesses *)

Definition sample_nonce (n : nat) (b : Z) : bytes := replicate n b.
Definition sample_identity : option string := Some (hexdigest (sample_nonce 32 9)).
Definition sample_host : Handshake := Handshake_init "room" (cp "Ada") sample_identity [1] (sample_nonce 16 1).
Definition sample_guest : Handshake := Handshake_init "room" (cp "Bob") None [2] (sample_nonce 16 2).
Definition sample_reply : payload :=
  match answer sample_guest (hello_payload sample_host) (sample_nonce 12 7) with
  | (Ok (reply, _), _) => reply
  | _ => []
  end.

Lemma sample_identity_ok : identity_ok sample_identity.
Proof.
  right. split; [apply hexdigest_ascii|]. exists (sample_nonce 32 9). split; [|reflexivity].
  apply fromhex_hexdigest. by repeat constructor.
Qed.

Lemma handshake_agrees_witness :
  ∃ reply key,
    answer sample_guest (hello_payload sample_host) (sample_nonce 12 7) =
      (Ok (reply, agreed sample_host sample_guest key false), set_used sample_guest None) ∧
    complete sample_host reply = (Ok (agreed sample_host sample_guest key true), set_used sample_host None).
Proof.
  destruct (handshake_agrees "room" (cp "Ada") (cp "Bob") sample_identity None [1] [2]
    (sample_nonce 16 1) (sample_nonce 16 2) (sample_nonce 12 7)) as (reply & key & H1 & H2 & _).
  1-3: by repeat constructor.
  - reflexivity.
  - exact sample_identity_ok.
  - exact I.
  - exists reply, key. split; [exact H1 | exact H2].
Defined.

Lemma sample_completes :
  ∃ s, complete sample_host sample_reply = (Ok s, set_used sample_host None).
Proof. eexists. vm_compute. reflexivity. Qed.

Lemma complete_requires_proof_witness :
  complete (set_used sample_host None) sample_reply = (Err HandshakeFailedError, set_used sample_host None).
Proof.
  destruct sample_completes as [s Hs].
  destruct (complete_requires_proof sample_host sample_reply s _ Hs)
    as (? & ? & ? & ? & ? & ? & ? & ? & ? & ? & ? & ? & ? & ? & ? & ? & H).
  exact (H sample_reply).
Defined.

Lemma transcript_binds_witness :
  Some (sample_nonce 32 9) = Some (sample_nonce 32 9) ∧ sample_nonce 16 1 = sample_nonce 16 1.
Proof.
  destruct (transcript_binds "room" (sample_nonce 32 1) (sample_nonce 16 1) (sample_nonce 32 2) (sample_nonce 16 2)
    (Some (sample_nonce 32 9)) None (sample_nonce 32 1) (sample_nonce 16 1) (sample_nonce 32 2)
    (sample_nonce 16 2) (Some (sample_nonce 32 9)) None) as (_ & H & _); try reflexivity; try exact I.
  by split.
Defined.
