(* ===== verification/ChatSession.v ===== *)
(** * The one-to-one chat session

    [messaging/session/chat.py]: the key exchange, the send pump, the
    incoming frames, presence and connection changes, the watchdog and the
    teardown of one conversation.  Coroutines are functions on the session;
    what runs between two awaits of the pump is one [pump_step], scheduled
    tasks are kept in [cs_background] until they run.  What the session draws
    or is told (clock, random bytes, whether the relay client takes a
    body, refuses it or fails) is in an [Env].  The text of NOTICE events is left out, as is logging;
    the history is the list of messages recorded in it. *)

From Stdlib Require Import Ascii.
From S2P Require Import Prelude Text Utf8 Primitives Crypto Ids Messages Json ChannelFrames Handshake.

Open Scope Z_scope.

(** ** State *)

Export ChatEvents.

Record ChatEvent := mkEvent { ce_kind : ChatEventKind; ce_detail : unicode; ce_message : option Message }.

(** [ChatSessionConfig]; durations in microseconds *)
Record ChatSessionConfig := mkConfig {
  cc_handshake_timeout : Z; cc_ack_timeout : Z; cc_resend_attempts : nat; cc_attach_timeout : Z;
  cc_reorder_window : Z; cc_read_receipts : bool; cc_typing_indicators : bool;
}.
Definition default_config : ChatSessionConfig := mkConfig 30000000 8000000 4 10000000 5000000 true true.

(** [chat_config_from_settings] *)
Definition chat_config_from_settings (read_receipts typing_indicators : bool) : ChatSessionConfig :=
  mkConfig 30000000 8000000 4 10000000 5000000 read_receipts typing_indicators.

Record ChatStats := mkStats {
  st_messages_sent : Z; st_messages_received : Z; st_resends : Z; st_rekeys : Z;
  st_decrypt_failures : Z; st_frames_dropped : Z; st_acks_sent : Z; st_acks_received : Z;
}.

Inductive counter := Sent | Received | Resends | Rekeys | DecryptFailures | Dropped | AcksSent | AcksReceived.
#[export] Instance counter_eq_dec : EqDecision counter.
Proof. solve_decision. Defined.

(** [self._stats.<counter> += 1] *)
Definition count (c : counter) (st : ChatStats) : ChatStats :=
  let inc k n := if decide (c = k) then n + 1 else n in
  mkStats (inc Sent (st_messages_sent st)) (inc Received (st_messages_received st))
    (inc Resends (st_resends st)) (inc Rekeys (st_rekeys st))
    (inc DecryptFailures (st_decrypt_failures st)) (inc Dropped (st_frames_dropped st))
    (inc AcksSent (st_acks_sent st)) (inc AcksReceived (st_acks_received st)).

Inductive Role := HostRole | GuestRole.
#[export] Instance Role_eq_dec : EqDecision Role.
Proof. solve_decision. Defined.

(** What a session is created with. *)
Record Self := mkSelf {
  sf_channel : string; sf_role : Role; sf_display_name : unicode; sf_config : ChatSessionConfig;
  sf_identity : option string;
}.
Record Peer := mkPeer { pe_name : unicode; pe_identity : option string }.
Record Keys := mkKeys {
  ks_secure : option SecureSession; ks_session_key : option bytes; ks_initiator : option Handshake;
}.
(** The [asyncio.Event]s and the two flags. *)
Record Link := mkLink {
  ln_ready : bool; ln_peer_present : bool; ln_transport_usable : bool; ln_started : bool; ln_closing : bool;
}.

(** The future [_deliver] waits on. *)
Inductive Waiter := Pending | Resolved (m : Message) | Cancelled.

(** The send pump: not running, at the top of its loop, before attempt [n]
    for a message, or waiting for the acknowledgement of attempt [n]. *)
Inductive Pump := NoPump | PumpNext | PumpAttempt (m : Message) (n : nat) | PumpAck (m : Message) (n : nat) (w : Waiter).

(** Scheduled coroutines. *)
Inductive Task := DispatchTask (body : unicode) | InitiateTask | PostReconnectTask.

Record ChatSession := mkChat {
  cs_self : Self; cs_peer : Peer; cs_keys : Keys; cs_link : Link; cs_outbox : Outbox.Outbox;
  cs_inbox : Inbox.Inbox; cs_typing : Typing.TypingIndicator; cs_receipts : Receipts.ReceiptTracker;
  cs_stats : ChatStats; cs_next_sequence : Z; cs_history : option (list Message);
  cs_events : list ChatEvent; cs_delegate : option (list Frame); cs_pump : Pump;
  cs_background : list Task; cs_sent : list string;
}.

Definition set_peer (s : ChatSession) (x : Peer) : ChatSession :=
  mkChat (cs_self s) x (cs_keys s) (cs_link s) (cs_outbox s) (cs_inbox s) (cs_typing s) (cs_receipts s)
    (cs_stats s) (cs_next_sequence s) (cs_history s) (cs_events s) (cs_delegate s) (cs_pump s)
    (cs_background s) (cs_sent s).
Definition set_keys (s : ChatSession) (x : Keys) : ChatSession :=
  mkChat (cs_self s) (cs_peer s) x (cs_link s) (cs_outbox s) (cs_inbox s) (cs_typing s) (cs_receipts s)
    (cs_stats s) (cs_next_sequence s) (cs_history s) (cs_events s) (cs_delegate s) (cs_pump s)
    (cs_background s) (cs_sent s).
Definition set_link (s : ChatSession) (x : Link) : ChatSession :=
  mkChat (cs_self s) (cs_peer s) (cs_keys s) x (cs_outbox s) (cs_inbox s) (cs_typing s) (cs_receipts s)
    (cs_stats s) (cs_next_sequence s) (cs_history s) (cs_events s) (cs_delegate s) (cs_pump s)
    (cs_background s) (cs_sent s).
Definition set_outbox (s : ChatSession) (x : Outbox.Outbox) : ChatSession :=
  mkChat (cs_self s) (cs_peer s) (cs_keys s) (cs_link s) x (cs_inbox s) (cs_typing s) (cs_receipts s)
    (cs_stats s) (cs_next_sequence s) (cs_history s) (cs_events s) (cs_delegate s) (cs_pump s)
    (cs_background s) (cs_sent s).
Definition set_inbox (s : ChatSession) (x : Inbox.Inbox) : ChatSession :=
  mkChat (cs_self s) (cs_peer s) (cs_keys s) (cs_link s) (cs_outbox s) x (cs_typing s) (cs_receipts s)
    (cs_stats s) (cs_next_sequence s) (cs_history s) (cs_events s) (cs_delegate s) (cs_pump s)
    (cs_background s) (cs_sent s).
Definition set_typing (s : ChatSession) (x : Typing.TypingIndicator) : ChatSession :=
  mkChat (cs_self s) (cs_peer s) (cs_keys s) (cs_link s) (cs_outbox s) (cs_inbox s) x (cs_receipts s)
    (cs_stats s) (cs_next_sequence s) (cs_history s) (cs_events s) (cs_delegate s) (cs_pump s)
    (cs_background s) (cs_sent s).
Definition set_receipts (s : ChatSession) (x : Receipts.ReceiptTracker) : ChatSession :=
  mkChat (cs_self s) (cs_peer s) (cs_keys s) (cs_link s) (cs_outbox s) (cs_inbox s) (cs_typing s) x
    (cs_stats s) (cs_next_sequence s) (cs_history s) (cs_events s) (cs_delegate s) (cs_pump s)
    (cs_background s) (cs_sent s).
Definition set_stats (s : ChatSession) (x : ChatStats) : ChatSession :=
  mkChat (cs_self s) (cs_peer s) (cs_keys s) (cs_link s) (cs_outbox s) (cs_inbox s) (cs_typing s)
    (cs_receipts s) x (cs_next_sequence s) (cs_history s) (cs_events s) (cs_delegate s) (cs_pump s)
    (cs_background s) (cs_sent s).
Definition set_next_sequence (s : ChatSession) (x : Z) : ChatSession :=
  mkChat (cs_self s) (cs_peer s) (cs_keys s) (cs_link s) (cs_outbox s) (cs_inbox s) (cs_typing s)
    (cs_receipts s) (cs_stats s) x (cs_history s) (cs_events s) (cs_delegate s) (cs_pump s)
    (cs_background s) (cs_sent s).
Definition set_history (s : ChatSession) (x : option (list Message)) : ChatSession :=
  mkChat (cs_self s) (cs_peer s) (cs_keys s) (cs_link s) (cs_outbox s) (cs_inbox s) (cs_typing s)
    (cs_receipts s) (cs_stats s) (cs_next_sequence s) x (cs_events s) (cs_delegate s) (cs_pump s)
    (cs_background s) (cs_sent s).
Definition set_events (s : ChatSession) (x : list ChatEvent) : ChatSession :=
  mkChat (cs_self s) (cs_peer s) (cs_keys s) (cs_link s) (cs_outbox s) (cs_inbox s) (cs_typing s)
    (cs_receipts s) (cs_stats s) (cs_next_sequence s) (cs_history s) x (cs_delegate s) (cs_pump s)
    (cs_background s) (cs_sent s).
Definition set_delegate (s : ChatSession) (x : option (list Frame)) : ChatSession :=
  mkChat (cs_self s) (cs_peer s) (cs_keys s) (cs_link s) (cs_outbox s) (cs_inbox s) (cs_typing s)
    (cs_receipts s) (cs_stats s) (cs_next_sequence s) (cs_history s) (cs_events s) x (cs_pump s)
    (cs_background s) (cs_sent s).
Definition set_pump (s : ChatSession) (x : Pump) : ChatSession :=
  mkChat (cs_self s) (cs_peer s) (cs_keys s) (cs_link s) (cs_outbox s) (cs_inbox s) (cs_typing s)
    (cs_receipts s) (cs_stats s) (cs_next_sequence s) (cs_history s) (cs_events s) (cs_delegate s) x
    (cs_background s) (cs_sent s).
Definition set_background (s : ChatSession) (x : list Task) : ChatSession :=
  mkChat (cs_self s) (cs_peer s) (cs_keys s) (cs_link s) (cs_outbox s) (cs_inbox s) (cs_typing s)
    (cs_receipts s) (cs_stats s) (cs_next_sequence s) (cs_history s) (cs_events s) (cs_delegate s)
    (cs_pump s) x (cs_sent s).
Definition set_sent (s : ChatSession) (x : list string) : ChatSession :=
  mkChat (cs_self s) (cs_peer s) (cs_keys s) (cs_link s) (cs_outbox s) (cs_inbox s) (cs_typing s)
    (cs_receipts s) (cs_stats s) (cs_next_sequence s) (cs_history s) (cs_events s) (cs_delegate s)
    (cs_pump s) (cs_background s) x.

(** What the relay client does with a body: it takes it, refuses it with a
    [TransportError] (the connection is not usable), or its socket fails with an
    [OSError]. *)
Inductive link_answer := Takes | Refuses | SocketFails.

(** What one call draws and is told. *)
Record Env := mkEnv {
  ev_now : Z; ev_stamp : stamp; ev_link : link_answer; ev_nonce : bytes; ev_private : bytes;
  ev_hs_nonce : bytes; ev_random : bytes;
}.

Inductive ChatError :=
| SecureChannelError | PeerUnavailableError | TransportError
| MessageFailed (e : MessageError) | FrameFailed (e : frame_error) | HandshakeFailed (e : HandshakeError)
| WindowValueError | PyRuntimeError | PyAssertionFailed | PyOSError.

Definition map_error {E E' A} (f : E → E') (r : result E A) : result E' A :=
  match r with Ok a => Ok a | Err e => Err (f e) end.

Definition bump (s : ChatSession) (c : counter) : ChatSession := set_stats s (count c (cs_stats s)).

(** [_emit] *)
Definition emit (s : ChatSession) (kind : ChatEventKind) (detail : unicode) (m : option Message) : ChatSession :=
  set_events s (cs_events s ++ [mkEvent kind detail m]).

Definition set_ready (s : ChatSession) (b : bool) : ChatSession :=
  let l := cs_link s in
  set_link s (mkLink b (ln_peer_present l) (ln_transport_usable l) (ln_started l) (ln_closing l)).
Definition set_peer_present (s : ChatSession) (b : bool) : ChatSession :=
  let l := cs_link s in
  set_link s (mkLink (ln_ready l) b (ln_transport_usable l) (ln_started l) (ln_closing l)).
Definition set_transport_usable (s : ChatSession) (b : bool) : ChatSession :=
  let l := cs_link s in
  set_link s (mkLink (ln_ready l) (ln_peer_present l) b (ln_started l) (ln_closing l)).
Definition set_started (s : ChatSession) : ChatSession :=
  let l := cs_link s in
  set_link s (mkLink (ln_ready l) (ln_peer_present l) (ln_transport_usable l) true (ln_closing l)).
Definition set_closing (s : ChatSession) : ChatSession :=
  let l := cs_link s in
  set_link s (mkLink (ln_ready l) (ln_peer_present l) (ln_transport_usable l) (ln_started l) true).
Definition set_initiator (s : ChatSession) (i : option Handshake) : ChatSession :=
  set_keys s (mkKeys (ks_secure (cs_keys s)) (ks_session_key (cs_keys s)) i).

Definition ellipsis : unicode := [8230].
Definition dash : unicode := [8212].
Definition PEER_DEFAULT_NAME : unicode := cp "Peer".

Section chat.
Context {P : Primitives} {K : KexPrimitives}.

(** [__init__]; [peer_name] is the optional argument. *)
Definition ChatSession_init (channel : string) (role : string) (display_name : unicode)
    (config : option ChatSessionConfig) (history : bool) (peer_name : option unicode)
    (identity : option string) : result ChatError ChatSession :=
  r ← (if decide (role = "host") then Ok HostRole else if decide (role = "guest") then Ok GuestRole
       else Err (MessageFailed MessageValidationError));
  name ← map_error MessageFailed (validate_display_name display_name);
  let c := default default_config config in
  peer ← match peer_name with
         | Some ((_ :: _) as n) => map_error MessageFailed (validate_display_name n)
         | _ => Ok PEER_DEFAULT_NAME
         end;
  guard_or (0 <? cc_reorder_window c) WindowValueError;;
  ty ← map_error MessageFailed (Typing.init 3000000 4000000 6000000);
  Ok (mkChat (mkSelf channel r name c identity) (mkPeer peer None) (mkKeys None None None)
        (mkLink false false false false false) Outbox.init (Inbox.init (cc_reorder_window c)) ty
        (Receipts.init (cc_read_receipts c)) (mkStats 0 0 0 0 0 0 0 0) 1
        (if history then Some [] else None) [] None NoPump [] []).

(** [conversation_id], [is_ready], [_key_bytes] *)
Definition conversation_id (s : ChatSession) : option string := ss_conversation_id <$> ks_secure (cs_keys s).
Definition is_ready (s : ChatSession) : bool := ln_ready (cs_link s).
Definition key_bytes (s : ChatSession) : option bytes := ks_session_key (cs_keys s).

(** [_send_frame] *)
Definition send_frame (env : Env) (s : ChatSession) (f : stamp → Frame) : outcome ChatSession ChatError unit :=
  try? raw := map_error FrameFailed (encode_frame (f (ev_stamp env))) @ s in
  match ev_link env with
  | Takes => (Ok tt, set_sent s (cs_sent s ++ [b64encode raw]))
  | Refuses => (Err TransportError, s)
  | SocketFails => (Err PyOSError, s)
  end.

(** [_send_frame_quiet]: a validation error is a [GhostLinkError] too; an
    [OSError] is not caught. *)
Definition send_frame_quiet (env : Env) (s : ChatSession) (f : stamp → Frame) : outcome ChatSession ChatError unit :=
  match send_frame env s f with
  | (Err PyOSError, s1) => (Err PyOSError, s1)
  | (_, s1) => (Ok tt, s1)
  end.

(** [_initiate_handshake] *)
Definition initiate_handshake (env : Env) (s : ChatSession) : outcome ChatSession ChatError unit :=
  if ln_closing (cs_link s) then (Ok tt, s)
  else
    let me := cs_self s in
    let initiator := Handshake_init (sf_channel me) (sf_display_name me) (sf_identity me)
                       (ev_private env) (ev_hs_nonce env) in
    let s1 := set_initiator s (Some initiator) in
    let s2 := if ks_secure (cs_keys s) then set_ready (bump s1 Rekeys) false else s1 in
    let s3 := emit s2 SESSION (cp "Establishing secure session" ++ ellipsis) None in
    send_frame_quiet env s3 (kex_hello_frame (hello_payload initiator)).

(** [_zeroize] *)
Definition zeroize (s : ChatSession) : ChatSession :=
  set_keys s (mkKeys (ks_secure (cs_keys s)) None (ks_initiator (cs_keys s))).

(** [peer_identity_fingerprint] *)
Definition peer_identity_fingerprint (s : ChatSession) : option string :=
  identity ← pe_identity (cs_peer s); raw ← fromhex identity; identity_fingerprint raw.

(** [_set_session] *)
Definition set_session (s : ChatSession) (secure : SecureSession) : ChatSession :=
  let s0 := zeroize s in
  let s1 := set_keys s0 (mkKeys (Some secure) (Some (ss_session_key secure)) (ks_initiator (cs_keys s0))) in
  let s2 := emit (set_ready s1 true) SESSION
              (cp "Encryption: Active " ++ dash ++ cp " safety code " ++ cp (ss_fingerprint secure)) None in
  if ss_identity_bound secure && bool_decide (is_Some (peer_identity_fingerprint s2))
  then emit s2 NOTICE [] None else s2.

(** [_adopt_peer_name] *)
Definition adopt_peer_name (s : ChatSession) (p : payload) : ChatSession :=
  match dget p (cp "name") with
  | Some (JStr candidate) =>
      match validate_display_name candidate with
      | Ok name => set_peer s (mkPeer name (pe_identity (cs_peer s)))
      | Err _ => s
      end
  | _ => s
  end.

(** [_adopt_peer_identity] *)
Definition adopt_peer_identity (s : ChatSession) (p : payload) : ChatSession :=
  match dget p (cp "idpub") with
  | Some (JStr candidate) =>
      match ascii_text candidate with
      | Some text =>
          match fromhex text with
          | Some raw => if (length raw =? 32)%nat then set_peer s (mkPeer (pe_name (cs_peer s)) (Some text)) else s
          | None => s
          end
      | None => s
      end
  | _ => s
  end.

(** *** Inbound frames *)

(** [_handle_kex_hello] *)
Definition handle_kex_hello (env : Env) (s : ChatSession) (f : Frame) : outcome ChatSession ChatError unit :=
  let me := cs_self s in
  if decide (sf_role me ≠ GuestRole) then (Ok tt, bump s Dropped)
  else
    let s1 := adopt_peer_identity (adopt_peer_name s (fr_data f)) (fr_data f) in
    let responder := Handshake_init (sf_channel me) (sf_display_name me) (sf_identity me)
                       (ev_private env) (ev_hs_nonce env) in
    match (answer responder (fr_data f) (ev_nonce env)).1 with
    | Ok (reply, secure) =>
        let s2 := if ks_secure (cs_keys s1) then bump s1 Rekeys else s1 in
        run? (_, s3) := send_frame_quiet env s2 (kex_reply_frame reply) in
        (Ok tt, set_session s3 secure)
    | Err HandshakeFailedError => (Ok tt, emit s1 NOTICE [] None)
    | Err e => (Err (HandshakeFailed e), s1)
    end.

(** [_handle_kex_reply] *)
Definition handle_kex_reply (s : ChatSession) (f : Frame) : outcome ChatSession ChatError unit :=
  match ks_initiator (cs_keys s) with
  | None => (Ok tt, bump s Dropped)
  | Some initiator =>
      let s1 := set_initiator s None in
      match (complete initiator (fr_data f)).1 with
      | Ok secure => (Ok tt, set_session (adopt_peer_identity (adopt_peer_name s1 (fr_data f)) (fr_data f)) secure)
      | Err HandshakeFailedError => (Ok tt, emit s1 NOTICE [] None)
      | Err e => (Err (HandshakeFailed e), s1)
      end
  end.

(** [str(frame.data[name])] of a field the schema requires to be text *)
Definition text_of (d : fields) (name : string) : unicode :=
  match dget d (cp name) with Some (JStr t) => t | _ => [] end.
Definition int_of (d : fields) (name : string) : Z :=
  match dget d (cp name) with Some (JInt z) => z | _ => 0 end.

(** [message_aad] of an identifier as received: [.encode("ascii")] *)
Definition received_aad (message_id : unicode) (sequence : Z) : option bytes :=
  encode <$> ascii_text (message_id ++ cp "|" ++ cp (str_of_Z sequence)).

(** Why an inbound message is refused: it does not open, or what opens is
    not a message.  The reason carries the text of the error frame. *)
Inductive refusal := NotOpened (message : unicode) | NotAMessage | Escapes (e : MessageError).

Definition refuse {A} (r : result MessageError A) : result refusal A :=
  match r with
  | Ok a => Ok a
  | Err MessageValidationError => Err NotAMessage
  | Err e => Err (Escapes e)
  end.

Definition sealed_failure (sealed : bytes) : unicode :=
  if (length sealed <=? NONCE_BYTES)%nat then cp "Encrypted payload is too short to contain a nonce and tag."
  else cp "Message integrity check failed " ++ dash
       ++ cp " the ciphertext was modified or the keys do not match.".

(** The [try] block of [_handle_message]. *)
Definition open_message (env : Env) (s : ChatSession) (key : bytes) (secure : SecureSession)
    (message_id ct : unicode) (sequence : Z) (aad : bytes) : result refusal Message :=
  encoded ← of_option (ascii_text ct) NotAMessage;
  payload ← refuse (from_b64 encoded aad);
  plaintext ← of_option (open_sealed key (ep_sealed payload) aad) (NotOpened (sealed_failure (ep_sealed payload)));
  text ← of_option (utf8_decode plaintext) NotAMessage;
  id ← of_option (ascii_text message_id) NotAMessage;
  refuse (post_init (mkMessage id (ss_conversation_id secure) INCOMING (pe_name (cs_peer s))
    (sf_display_name (cs_self s)) text sequence DELIVERED (ev_now env) None None None None)).

(** One deliverable message reaches the counters, the history and the UI. *)
Definition surface (s : ChatSession) (m : Message) : ChatSession :=
  let s1 := bump s Received in
  let s2 := set_history s1 ((λ h, h ++ [m]) <$> cs_history s1) in
  emit s2 MESSAGE [] (Some m).

(** [_handle_message] *)
Definition handle_message (env : Env) (s : ChatSession) (f : Frame) : outcome ChatSession ChatError unit :=
  let message_id := text_of (fr_data f) "id" in
  match key_bytes s, ks_secure (cs_keys s) with
  | Some key, Some secure =>
      try? aad := of_option (received_aad message_id (fr_sequence f)) (MessageFailed PyUnicodeEncodeError) @ s in
      match open_message env s key secure message_id (text_of (fr_data f) "ct") (fr_sequence f) aad with
      | Err (NotOpened message) =>
          let s1 := emit (bump s DecryptFailures) NOTICE [] None in
          send_frame_quiet env s1 (error_frame (cp "decrypt_failed") (take 120 message))
      | Err NotAMessage =>
          send_frame_quiet env (bump s Dropped) (error_frame (cp "invalid_message") (cp "message rejected"))
      | Err (Escapes e) => (Err (MessageFailed e), s)
      | Ok m =>
          match Inbox.accept (cs_inbox s) m (ev_now env) with
          | None => (Err PyRuntimeError, s)
          | Some (verdict, deliverable, inbox) =>
              run? (_, s1) := send_frame_quiet env (set_inbox s inbox) (message_ack_frame message_id (fr_sequence f)) in
              let s2 := bump s1 AcksSent in
              match verdict with
              | Inbox.DUPLICATE => (Ok tt, s2)
              | _ => (Ok tt, foldl surface s2 deliverable)
              end
          end
      end
  | _, _ => (Ok tt, bump s Dropped)
  end.

(** The waiter of the message being delivered is resolved. *)
Definition resolve (s : ChatSession) (id : string) (w : Waiter) : ChatSession :=
  match cs_pump s with
  | PumpAck m n Pending => if decide (msg_id m = id) then set_pump s (PumpAck m n w) else s
  | _ => s
  end.

(** [_handle_ack] *)
Definition handle_ack (env : Env) (s : ChatSession) (f : Frame) : outcome ChatSession ChatError unit :=
  match ascii_text (text_of (fr_data f) "id") with
  | None => (Ok tt, s)
  | Some id =>
      let had_waiter := dmem (Outbox.ob_waiters (cs_outbox s)) id in
      let '(r, ob) := Outbox.mark_delivered (cs_outbox s) id (ev_now env) in
      let s1 := set_outbox s ob in
      match r with
      | Err e => (Err (MessageFailed e), s1)
      | Ok None => (Ok tt, s1)
      | Ok (Some m) =>
          let s2 := if had_waiter && negb (dmem (Outbox.ob_waiters ob) id) then resolve s1 id (Resolved m) else s1 in
          (Ok tt, set_receipts (bump s2 AcksReceived) (Receipts.note_ack_received (cs_receipts s2)))
      end
  end.

(** [_handle_read_receipt] *)
Definition handle_read_receipt (env : Env) (s : ChatSession) (f : Frame) : ChatSession :=
  let cursor := int_of (fr_data f) "up_to" in
  let s1 := set_receipts s (Receipts.note_read_received (cs_receipts s) cursor) in
  let '(updated, ob) := Outbox.mark_read_up_to (cs_outbox s1) cursor (ev_now env) in
  foldl (λ s m, emit s DELIVERY [] (Some m)) (set_outbox s1 ob) updated.

(** [_dispatch_file_frame]; what the delegate does with the frame is its own. *)
Definition dispatch_file_frame (s : ChatSession) (f : Frame) : ChatSession :=
  match cs_delegate s with
  | None => bump s Dropped
  | Some handed => set_delegate s (Some (handed ++ [f]))
  end.

(** A decoded frame goes to its handler. *)
Definition on_frame (env : Env) (s : ChatSession) (f : Frame) : outcome ChatSession ChatError unit :=
  match fr_type f with
  | KEX_HELLO => handle_kex_hello env s f
  | KEX_REPLY => handle_kex_reply s f
  | ChannelFrames.MESSAGE => handle_message env s f
  | MESSAGE_ACK => handle_ack env s f
  | READ_RECEIPT => (Ok tt, handle_read_receipt env s f)
  | TYPING_START =>
      (Ok tt, if cc_typing_indicators (sf_config (cs_self s))
              then emit (set_typing s (Typing.peer_started (cs_typing s) (ev_now env))) TYPING
                     (pe_name (cs_peer s) ++ cp " is typing" ++ ellipsis) None
              else s)
  | TYPING_STOP =>
      (Ok tt, if cc_typing_indicators (sf_config (cs_self s))
              then emit (set_typing s (Typing.peer_stopped (cs_typing s))) TYPING [] None
              else s)
  | ERROR => (Ok tt, emit s NOTICE [] None)
  | _ => (Ok tt, dispatch_file_frame s f)
  end.

(** [_dispatch]; an [Err] is an exception that ends the task. *)
Definition dispatch (env : Env) (s : ChatSession) (body : unicode) : outcome ChatSession ChatError unit :=
  match ascii_text body ≫= b64decode with
  | None => (Ok tt, bump s Dropped)
  | Some raw =>
      match decode_frame raw with
      | Err FrameValidationError => (Ok tt, bump s Dropped)
      | Err e => (Err (FrameFailed e), s)
      | Ok f => on_frame env s f
      end
  end.

(** [_on_forward]; the loop exists once the session has started. *)
Definition on_forward (s : ChatSession) (channel : string) (body : unicode) : ChatSession :=
  if decide (channel ≠ sf_channel (cs_self s)) then s
  else if negb (ln_started (cs_link s)) || ln_closing (cs_link s) then s
  else set_background s (cs_background s ++ [DispatchTask body]).

(** *** Peer and link *)

(** [_spawn] *)
Definition spawn (s : ChatSession) (t : Task) : ChatSession := set_background s (cs_background s ++ [t]).

(** [_on_peer] *)
Definition on_peer (s : ChatSession) (channel event : string) : ChatSession :=
  if decide (channel ≠ sf_channel (cs_self s)) then s
  else if ln_closing (cs_link s) || negb (ln_started (cs_link s)) then s
  else if decide (event = "joined") then
    let s1 := emit (set_peer_present s true) PEER (pe_name (cs_peer s) ++ cp " joined the conversation") None in
    if decide (sf_role (cs_self s) = HostRole) then spawn s1 InitiateTask else s1
  else if decide (event = "left") then
    let s1 := set_peer_present s false in
    emit (set_typing s1 (Typing.peer_stopped (cs_typing s1))) PEER
      (pe_name (cs_peer s) ++ cp " left the conversation") None
  else s.

Inductive ConnectionState := CONNECTING | CONNECTED | RECONNECTING | TIMED_OUT | DISCONNECTED | CLOSED.

(** [resolve_ack_waiters_on_disconnect]: every waiter is cancelled. *)
Definition cancel_waiters (s : ChatSession) : ChatSession :=
  let s1 := match cs_pump s with
            | PumpAck m n Pending =>
                if dmem (Outbox.ob_waiters (cs_outbox s)) (msg_id m) then set_pump s (PumpAck m n Cancelled) else s
            | _ => s
            end in
  set_outbox s1 (Outbox.resolve_ack_waiters_on_disconnect (cs_outbox s1)).

(** [_on_connection_state] *)
Definition on_connection_state (env : Env) (s : ChatSession) (state : ConnectionState)
    : outcome ChatSession ChatError unit :=
  if ln_closing (cs_link s) then (Ok tt, s)
  else
    match state with
    | RECONNECTING =>
        let s1 := cancel_waiters (set_transport_usable (set_ready s false) false) in
        let '(r, ob) := Outbox.requeue_unacked (cs_outbox s1) (ev_now env) in
        let s2 := set_outbox s1 ob in
        match r with
        | Err e => (Err (MessageFailed e), s2)
        | Ok _ => (Ok tt, emit s2 CONNECTION (cp "Connection lost " ++ dash ++ cp " reconnecting" ++ ellipsis) None)
        end
    | CONNECTED =>
        let s1 := set_transport_usable s true in
        (Ok tt, if ln_started (cs_link s1) then spawn s1 PostReconnectTask else s1)
    | DISCONNECTED =>
        (Ok tt, emit (set_transport_usable s false) CONNECTION (cp "Disconnected from the relay.") None)
    | CLOSED =>
        (Ok tt, emit (set_transport_usable (set_ready s false) false) CONNECTION (cp "Connection closed.") None)
    | CONNECTING | TIMED_OUT => (Ok tt, s)
    end.

(** [_post_reconnect], after its pause *)
Definition post_reconnect (env : Env) (s : ChatSession) : outcome ChatSession ChatError unit :=
  if ln_closing (cs_link s) || negb (ln_transport_usable (cs_link s)) then (Ok tt, s)
  else
    let s1 := emit s CONNECTION (cp "Reconnected " ++ dash ++ cp " refreshing encryption" ++ ellipsis) None in
    if decide (sf_role (cs_self s) = HostRole) then initiate_handshake env s1 else (Ok tt, s1).

(** The first scheduled task runs; what it raises is logged. *)
Definition run_background (env : Env) (s : ChatSession) : ChatSession :=
  match cs_background s with
  | [] => s
  | t :: rest =>
      let s1 := set_background s rest in
      match t with
      | DispatchTask body => (dispatch env s1 body).2
      | InitiateTask => (initiate_handshake env s1).2
      | PostReconnectTask => (post_reconnect env s1).2
      end
  end.

(** One turn of [_watchdog]; an [Err] ends its task. *)
Definition watchdog (env : Env) (s : ChatSession) : outcome ChatSession ChatError unit :=
  if ln_closing (cs_link s) then (Ok tt, s)
  else
    run? (_, s1) :=
      if cc_typing_indicators (sf_config (cs_self s)) && Typing.idle_elapsed (cs_typing s) (ev_now env) then
        let '(due, ty) := Typing.note_sent_or_stopped (cs_typing s) in
        let s0 := set_typing s ty in
        if due then send_frame_quiet env s0 typing_stop_frame else (Ok tt, s0)
      else (Ok tt, s) in
    if is_ready s1 then
      match Inbox.check_starvation (cs_inbox s1) (ev_now env) with
      | None => (Err PyRuntimeError, s1)
      | Some (deliverable, inbox) => (Ok tt, foldl surface (set_inbox s1 inbox) deliverable)
      end
    else (Ok tt, s1).

(** *** Sending *)

(** [_ensure_pump] *)
Definition ensure_pump (s : ChatSession) : ChatSession :=
  match cs_pump s with NoPump => set_pump s PumpNext | _ => s end.

(** [send_message] *)
Definition send_message (env : Env) (s : ChatSession) (text : unicode) : outcome ChatSession ChatError Message :=
  try? secure := of_option (ks_secure (cs_keys s)) SecureChannelError @ s in
  try? m := map_error MessageFailed (post_init
      (mkMessage (generate_message_id (ev_random env)) (ss_conversation_id secure) OUTGOING
         (sf_display_name (cs_self s)) (pe_name (cs_peer s)) text (cs_next_sequence s) QUEUED
         (ev_now env) None None None None)) @ s in
  let s1 := set_next_sequence s (cs_next_sequence s + 1) in
  let '(r, ob) := Outbox.enqueue (cs_outbox s1) m in
  let s2 := set_outbox s1 ob in
  match r with
  | Err e => (Err (MessageFailed e), s2)
  | Ok _ => (Ok m, ensure_pump s2)
  end.

(** [notify_typing] *)
Definition notify_typing (env : Env) (s : ChatSession) (keystroke : bool) : outcome ChatSession ChatError unit :=
  if negb (cc_typing_indicators (sf_config (cs_self s))) || negb (is_ready s) then (Ok tt, s)
  else
    let '(due, ty) := if keystroke then Typing.note_keystroke (cs_typing s) (ev_now env)
                      else Typing.note_sent_or_stopped (cs_typing s) in
    let s1 := set_typing s ty in
    if due then send_frame_quiet env s1 (if keystroke then typing_start_frame else typing_stop_frame) else (Ok tt, s1).

(** [mark_read] *)
Definition mark_read (env : Env) (s : ChatSession) : outcome ChatSession ChatError Z :=
  let '(cursor, inbox) := Inbox.mark_all_read (cs_inbox s) in
  let s1 := set_inbox s inbox in
  match Receipts.read_to_emit (cs_receipts s1) cursor with
  | Some c =>
      if is_ready s1 then
        run? (_, s2) := send_frame_quiet env s1 (read_receipt_frame c) in
        (Ok cursor, set_receipts s2 (Receipts.note_read_sent (cs_receipts s2) c))
      else (Ok cursor, s1)
  | None => (Ok cursor, s1)
  end.

(** *** The pump *)

(** [_wait_sendable] returns [True] *)
Definition sendable (s : ChatSession) : bool :=
  ln_ready (cs_link s) && ln_peer_present (cs_link s) && ln_transport_usable (cs_link s).

Definition drop_waiter (s : ChatSession) (id : string) : ChatSession :=
  set_outbox s (Outbox.drop_ack_waiter (cs_outbox s) id).

Definition no_ack : string := "no delivery acknowledgement from the peer".

(** [_deliver] after its last attempt *)
Definition give_up_on (env : Env) (s : ChatSession) (m : Message) : ChatSession :=
  let s1 := drop_waiter s (msg_id m) in
  let '(failed, ob) := Outbox.mark_failed (cs_outbox s1) (msg_id m) no_ack (ev_now env) in
  let s2 := set_pump (set_outbox s1 ob) PumpNext in
  match failed with
  | Some f => emit (emit s2 DELIVERY [] (Some f)) NOTICE [] None
  | None => s2
  end.

(** One attempt of [_deliver], up to the wait for the acknowledgement; an
    [Err] ends the pump. *)
Definition attempt (env : Env) (s : ChatSession) (key : bytes) (m : Message) (n : nat)
    : outcome ChatSession ChatError unit :=
  let aad := message_aad (msg_id m) (msg_sequence m) in
  try? text := of_option (utf8_encode (msg_text m)) (MessageFailed PyUnicodeEncodeError) @ s in
  let sealed := seal key (ev_nonce env) text aad in
  try? p := map_error MessageFailed (EncryptedPayload_init sealed aad) @ s in
  try? m1 := map_error MessageFailed (with_payload m p) @ s in
  let s1 := set_outbox s (Outbox.register_ack_waiter (cs_outbox s) (msg_id m)) in
  match send_frame env s1 (message_frame (cp (msg_id m)) (msg_sequence m) (cp (to_b64 p))) with
  | (Err TransportError, s2) => (Ok tt, set_pump (drop_waiter s2 (msg_id m)) (PumpAttempt m1 (S n)))
  | (Err e, s2) => (Err e, s2)
  | (Ok _, s2) =>
      let '(sent, ob) := Outbox.mark_sent (cs_outbox s2) (msg_id m) (ev_now env) in
      let s3 := set_outbox s2 ob in
      let s4 := bump s3 (if decide (n = 1%nat) then Sent else Resends) in
      let s5 := match sent with
                | Some sm =>
                    let s := emit s4 DELIVERY [] (Some sm) in
                    if decide (n = 1%nat) then set_history s ((λ h, h ++ [sm]) <$> cs_history s) else s
                | None => s4
                end in
      (Ok tt, set_pump s5 (PumpAck m1 n Pending))
  end.

(** The pump runs to its next wait; [timeout] says that the wait for an
    acknowledgement has timed out.  An [Err] is what ended the task. *)
Definition pump_step (env : Env) (timeout : bool) (s : ChatSession) : outcome ChatSession ChatError unit :=
  match cs_pump s with
  | NoPump => (Ok tt, s)
  | PumpNext =>
      if ln_closing (cs_link s) then (Ok tt, set_pump s NoPump)
      else
        let '(r, ob) := Outbox.next_queued (cs_outbox s) (ev_now env) in
        let s1 := set_outbox s ob in
        match r with
        | Err e => (Err (MessageFailed e), set_pump s1 NoPump)
        | Ok None => (Ok tt, set_pump s1 NoPump)
        | Ok (Some m) => (Ok tt, set_pump s1 (PumpAttempt m 1))
        end
  | PumpAttempt m n =>
      if (cc_resend_attempts (sf_config (cs_self s)) <? n)%nat then (Ok tt, give_up_on env s m)
      else if ln_closing (cs_link s) then
        let '(r, ob) := Outbox.to_queued (cs_outbox s) (msg_id m) (ev_now env) in
        match r with
        | Err e => (Err (MessageFailed e), set_pump (set_outbox s ob) NoPump)
        | Ok _ => (Ok tt, set_pump (set_outbox s ob) PumpNext)
        end
      else if negb (sendable s) then (Ok tt, s)
      else
        match key_bytes s with
        | None => (Ok tt, set_pump s (PumpAttempt m (S n)))
        | Some key =>
            match attempt env s key m n with
            | (Err e, s1) => (Err e, set_pump s1 NoPump)
            | r => r
            end
        end
  | PumpAck m n (Resolved r) => (Ok tt, set_pump (emit s DELIVERY [] (Some r)) PumpNext)
  | PumpAck m n Cancelled =>
      let s1 := drop_waiter s (msg_id m) in
      (Ok tt, set_pump s1 (if ln_closing (cs_link s1) then NoPump else PumpAttempt m (S n)))
  | PumpAck m n Pending =>
      if timeout then (Ok tt, set_pump (drop_waiter s (msg_id m)) (PumpAttempt m (S n))) else (Ok tt, s)
  end.

(** *** Lifecycle *)

(** [start]; [peers] is what [attach] returns, [None] when it raises. *)
Definition start (env : Env) (s : ChatSession) (peers : option Z) : outcome ChatSession ChatError Z :=
  try? _ := guard_or (negb (ln_started (cs_link s))) SecureChannelError @ s in
  let s1 := set_started s in
  try? n := of_option peers TransportError @ s1 in
  let s2 := if 0 <? n then set_peer_present s1 true else s1 in
  let s3 := set_transport_usable s2 true in
  let s4 := emit s3 PEER
              (if n =? 0 then cp "Waiting for the peer to join" ++ ellipsis
               else pe_name (cs_peer s3) ++ cp " is online") None in
  if (0 <? n) && bool_decide (sf_role (cs_self s) = HostRole) then
    run? (_, s5) := initiate_handshake env s4 in (Ok n, s5)
  else (Ok n, s4).

(** [wait_ready], at the end of its wait *)
Definition wait_ready (s : ChatSession) : result ChatError SecureSession :=
  guard_or (is_ready s) PeerUnavailableError;;
  of_option (ks_secure (cs_keys s)) PyAssertionFailed.

(** [close] *)
Definition close (s : ChatSession) : ChatSession :=
  if ln_closing (cs_link s) then s
  else
    let s1 := set_background (set_pump (set_closing s) NoPump) [] in
    let s2 := zeroize (set_outbox s1 (Outbox.resolve_ack_waiters_on_disconnect (cs_outbox s1))) in
    let s3 := set_ready (set_keys s2 (mkKeys None (ks_session_key (cs_keys s2)) (ks_initiator (cs_keys s2)))) false in
    let s4 := set_outbox s3 (Outbox.clear (cs_outbox s3)) in
    let s5 := set_inbox s4 (Inbox.clear (cs_inbox s4)) in
    let s6 := set_typing s5 (Typing.reset (cs_typing s5)) in
    set_history s6 ((λ _, []) <$> cs_history s6).
End chat.
