(* ===== verification/ChatFrames.v ===== *)
(** * The frames of a session fit the wire

    Every frame a chat session builds passes its own validation, stays
    within the frame size and is decoded by the peer to the same frame. *)

From S2P Require Import Prelude Text Utf8 Primitives Crypto Ids Messages Json ChannelFrames Handshake ChatSession.

Open Scope Z_scope.

(** ** Sizes *)

(** Characters JSON prints as themselves. *)
Definition plain_char (c : Z) : bool := (32 <=? c) && (c <=? 126) && negb (c =? quote) && negb (c =? backslash).
Definition plain_text (s : unicode) : Prop := Forall (λ c, plain_char c = true) s.

Lemma escape_plain c : plain_char c = true → escape_char c = [c].
Proof.
  unfold plain_char, escape_char, quote, backslash. intros H. breflect.
  rewrite !(proj2 (Z.eqb_neq _ _)) by lia. cbn [orb].
  by rewrite (proj2 (Z.leb_le 32 c)), (proj2 (Z.leb_le c 126)) by lia.
Qed.

Lemma dump_plain_length s : plain_text s → length (dump_string s) = (length s + 2)%nat.
Proof.
  intros H. unfold dump_string. cbn [length]. rewrite length_app. cbn [length].
  enough (E : s ≫= escape_char = s) by (rewrite E; lia).
  induction H as [|c s Hc _ IH]; [done|]. cbn. by rewrite escape_plain, IH by done.
Qed.

Lemma plain_scalar s : plain_text s → Forall (λ c, is_scalar c = true) s.
Proof.
  intros H. eapply Forall_impl; [exact H|]. intros c Hc. unfold plain_char, is_scalar in *. breflect.
  apply orb_true_iff. left. apply andb_true_iff. split; lia.
Qed.

(** A time stamp and identifier as [Frame] draws them: a positive float of
    at most 32 characters and six random bytes in hexadecimal. *)
Record stamp_ok (st : stamp) : Prop := {
  so_id : ∃ r, bytes_ok r ∧ length r = 6%nat ∧ st.1 = cp (hexdigest r);
  so_time : ∃ l, st.2 = JFloat l ∧ float_literal l ∧ float_positive l = true ∧ (length l <= 32)%nat;
}.

(** Sequence numbers of at most a hundred digits. *)
Definition small_int (z : Z) : Prop := 0 <= z < 10 ^ 100.

Lemma digits_fold_lower l : ∀ acc, all_digits l → 0 <= acc →
  acc * 10 ^ Z.of_nat (length l) <= foldl (λ acc d, acc * 10 + (d - 48)) acc l.
Proof.
  induction l as [|d l IH]; intros acc Hl Ha; [cbn; lia|]. apply Forall_cons in Hl as [Hd Hl].
  unfold digit in Hd. breflect. cbn [foldl length]. rewrite Nat2Z.inj_succ, Z.pow_succ_r by lia.
  specialize (IH (acc * 10 + (d - 48)) Hl). nia.
Qed.

Lemma small_int_digits z : small_int z → (length (cp (str_of_Z z)) <= 100)%nat.
Proof.
  intros [H0 H1]. destruct (decide (z = 0)) as [->|Hz]; [cbn; lia|].
  destruct (str_of_Z_parts z H0) as [_ Hv]. destruct (str_of_Z_head z) as (d & l & E & Hd); [lia|].
  pose proof (str_of_Z_digits z H0) as Hall. rewrite E in Hall. apply Forall_cons in Hall as [_ Hall].
  unfold cp, encode in *. rewrite E in *. rewrite fmap_cons in *. cbn [length]. rewrite length_fmap.
  unfold digits_val in Hv. cbn [foldl] in Hv.
  assert (Hl : (1 * 10 ^ Z.of_nat (length (code <$> l)) <= z)).
  { rewrite <- Hv. eapply Z.le_trans; [|apply digits_fold_lower; [|lia]].
    - apply Z.mul_le_mono_nonneg_r; [apply Z.pow_nonneg|]; lia.
    - apply Forall_fmap. eapply Forall_impl; [exact Hall|]. intros c Hc. unfold is_digit in Hc. cbn. unfold digit. done. }
  rewrite length_fmap in Hl. assert (Hp : 10 ^ Z.of_nat (length l) < 10 ^ 100) by lia.
  apply Z.pow_lt_mono_r_iff in Hp; lia.
Qed.

Lemma small_int_ok z : small_int z → int_ok z.
Proof.
  intros H. pose proof (small_int_digits z H). unfold int_ok. destruct H. rewrite Z.abs_eq by done.
  unfold INT_MAX_STR_DIGITS. lia.
Qed.

Lemma small_int_0 : small_int 0.
Proof. split; [lia|reflexivity]. Qed.

(** A frame within the size, drawn with such a stamp, survives the wire. *)
Definition travels (f : Frame) : Prop :=
  ∃ raw, encode_frame f = Ok raw ∧ decode_frame raw = Ok f ∧
    ascii_text (cp (b64encode raw)) ≫= b64decode = Some raw.

Lemma hexdigest_plain r : bytes_ok r → plain_text (cp (hexdigest r)).
Proof.
  intros Hr. apply Forall_fmap. eapply Forall_impl; [by apply hexdigest_hex|].
  intros c Hc. cbn. unfold is_hex_lower, is_digit, plain_char, quote, backslash in *. breflect.
  rewrite !andb_true_iff, !negb_true_iff, !Z.eqb_neq, !Z.leb_le. lia.
Qed.

Lemma b64encode_plain bs : plain_text (cp (b64encode bs)).
Proof.
  apply Forall_fmap, b64encode_forall; [|reflexivity].
  apply Forall_forall. intros c Hc. change ((plain_char ∘ code) c = true).
  revert c Hc. apply Forall_forall. by repeat constructor.
Qed.

Lemma hexdigest_cp_length r : length (cp (hexdigest r)) = (2 * length r)%nat.
Proof. unfold cp, encode. rewrite length_fmap. apply hexdigest_length. Qed.

Lemma frame_type_plain t : plain_text (frame_type_value t) ∧ (length (frame_type_value t) <= 13)%nat.
Proof. destruct t; (split; [by repeat constructor|cbn; lia]). Qed.

Lemma dumps_frame_length f :
  stamp_ok (fr_id f, fr_sent_at f) → small_int (fr_sequence f) →
  (length (dumps (to_dict f)) <= 250 + length (dumps (JObj (fr_data f))))%nat.
Proof.
  intros [(r & Hr & Hl & Hid) (l & Hts & _ & _ & Hlen)] Hs%small_int_digits. cbn [fst snd] in *.
  destruct (frame_type_plain (fr_type f)) as [Ht Htl].
  unfold to_dict. rewrite Hts, Hid. remember (JObj (fr_data f)) as data eqn:Ed.
  pose proof (hexdigest_plain r Hr) as Hp. pose proof (hexdigest_cp_length r) as Hh.
  cbn [dumps fmap list_fmap joined fst snd].
  repeat (rewrite ?length_app; cbn [length]). rewrite !dump_plain_length by first [done|by repeat constructor].
  rewrite Hh, Hl. change (length (cp (str_of_Z FRAME_VERSION))) with 1%nat.
  cbn [length cp encode chars fmap list_fmap] in *. lia.
Qed.

Lemma ascii_bytes s : ascii_only s → bytes_ok s.
Proof. intros H. eapply Forall_impl; [exact H|]. intros c Hc. cbn in Hc. unfold byte_ok. lia. Qed.

Lemma stamp_frame_wf t d seq st :
  stamp_ok st → small_int seq → json_ok (JObj d) → frame_wf (new_frame t d seq st).
Proof.
  intros [(r & Hr & Hl & Hid) (l & Hts & Hf & Hp & _)] Hs Hd. split; cbn.
  - rewrite Hid. split; [|by apply plain_scalar, hexdigest_plain].
    unfold bounded. by rewrite hexdigest_cp_length, Hl.
  - rewrite Hts. by split.
  - by apply small_int_ok.
  - done.
Qed.

Lemma frame_travels t d seq st :
  stamp_ok st → small_int seq → json_ok (JObj d) → validate_frame t seq d = Ok tt →
  (length (dumps (JObj d)) <= 7900)%nat → travels (new_frame t d seq st).
Proof.
  intros Hst Hs Hd Hv Hl. pose proof (stamp_frame_wf t d seq st Hst Hs Hd) as Hwf.
  assert (Henc : encode_frame (new_frame t d seq st) = Ok (dumps (to_dict (new_frame t d seq st)))).
  { unfold encode_frame. cbn [new_frame fr_type fr_sequence fr_data]. rewrite Hv. cbn [mbind result_bind].
    rewrite (proj2 (Nat.leb_le _ _)); [done|].
    pose proof (dumps_frame_length (new_frame t d seq st)) as Hb. cbn [fr_id fr_sent_at fr_sequence fr_data new_frame] in Hb.
    rewrite <- surjective_pairing in Hb. specialize (Hb Hst Hs). unfold MAX_FRAME_BYTES.
    eapply Nat.le_trans; [exact Hb|]. apply (Nat.le_trans _ (250 + 7900)); [by apply Nat.add_le_mono_l|].
    by apply Nat.leb_le. }
  eexists. split; [exact Henc|]. split; [by apply decode_encode_frame|].
  unfold cp. rewrite (ascii_text_encode _ (b64encode_ascii _)). cbn [mbind option_bind].
  by apply b64_roundtrip, ascii_bytes, dumps_ascii, to_dict_ok.
Qed.

(** ** The frames *)

Ltac wf_keys := apply (bool_decide_unpack _); vm_compute; exact I.

Lemma message_id_plain id :
  is_valid_message_id id = true → plain_text (cp id) ∧ length (cp id) = 20%nat ∧ ascii_string id.
Proof.
  unfold is_valid_message_id. intros H.
  assert (Hall : Forall (λ c, plain_char (code c) = true ∧ code c < 128) (chars id)).
  { eapply fullmatch_Forall; [exact H|]. apply Forall_app. split.
    - repeat constructor; intros; breflect; by subst.
    - apply Forall_replicate. intros c Hc. unfold is_hex_lower, is_digit, plain_char, quote, backslash in *. breflect.
      rewrite !andb_true_iff, !negb_true_iff, !Z.eqb_neq, !Z.leb_le. lia. }
  split; [|split].
  - apply Forall_fmap. eapply Forall_impl; [exact Hall|]. by intros c [? _].
  - unfold cp, encode. rewrite length_fmap. exact (fullmatch_length _ _ H).
  - eapply Forall_impl; [exact Hall|]. by intros c [_ ?].
Qed.

Lemma b64encode_size bs : (3 * length (cp (b64encode bs)) <= 4 * length bs + 8)%nat.
Proof.
  unfold cp, encode, b64encode. rewrite length_fmap, chars_of_chars.
  enough (H : ∀ n bs, (length bs <= n)%nat → (3 * length (b64encode_go bs) <= 4 * length bs + 8)%nat) by by eapply H.
  clear bs. induction n as [|n IH]; intros [|a [|b [|c bs]]] Hl; cbn [b64encode_go length] in *; try lia.
  specialize (IH bs). lia.
Qed.

Lemma b64encode_pos bs : bs ≠ [] → (0 < length (cp (b64encode bs)))%nat.
Proof.
  intros Hne. unfold cp, encode, b64encode. rewrite length_fmap, chars_of_chars.
  destruct bs as [|a [|b [|c bs]]]; cbn; try done; lia.
Qed.

Lemma is_base64_encoded bs : bytes_ok bs → is_base64 (cp (b64encode bs)) = true.
Proof.
  intros H. unfold is_base64, cp. rewrite (ascii_text_encode _ (b64encode_ascii bs)). cbn [mbind option_bind].
  rewrite (b64_roundtrip bs H). by rewrite bool_decide_true.
Qed.

(** A message frame of any valid message. *)
Lemma message_frame_travels id seq sealed st :
  stamp_ok st → small_int seq → is_valid_message_id id = true → bytes_ok sealed → sealed ≠ [] →
  (length sealed <= 2100)%nat → travels (message_frame (cp id) seq (cp (b64encode sealed)) st).
Proof.
  intros Hst Hs Hid Hok Hne Hl. destruct (message_id_plain id Hid) as (Hp & Hlen & _).
  pose proof (b64encode_size sealed) as Hb. pose proof (b64encode_pos sealed Hne) as Hpos.
  pose proof (b64encode_plain sealed) as Hpb.
  apply frame_travels; [done|done| | |].
  - constructor; [wf_keys|repeat constructor|].
    constructor; [constructor; by apply plain_scalar|]. constructor; [|constructor].
    constructor. by apply plain_scalar.
  - assert (B1 : bounded 1 MAX_MESSAGE_ID_LENGTH (cp id) = true) by (unfold bounded; by rewrite Hlen).
    assert (B2 : bounded 1 MAX_CIPHERTEXT_B64_LENGTH (cp (b64encode sealed)) = true).
    { unfold bounded. rewrite andb_true_iff, !Nat.leb_le. split; [lia|].
      apply (Nat.le_trans _ 2850); [lia|by apply Nat.leb_le]. }
    unfold validate_frame, require_b64, require_str. destruct Hs as [Hs _].
    rewrite (proj2 (Z.leb_le _ _) Hs). cbn [require guard_or mbind result_bind].
    set (d := [_; _]). change (dget d (cp "id")) with (Some (JStr (cp id))).
    change (dget d (cp "ct")) with (Some (JStr (cp (b64encode sealed)))). cbv iota beta. rewrite B1, B2.
    cbn [require guard_or mbind result_bind]. by rewrite is_base64_encoded.
  - cbn [dumps fmap list_fmap joined fst snd]. repeat (rewrite ?length_app; cbn [length]).
    rewrite !dump_plain_length by first [done|by repeat constructor].
    apply (Nat.le_trans _ (50 + length (cp id) + length (cp (b64encode sealed)))); [cbn; lia|].
    apply (Nat.le_trans _ 3000); [lia|by apply Nat.leb_le].
Qed.

Lemma int_text_length z : small_int z → (length (dumps (JInt z)) <= 100)%nat.
Proof. apply small_int_digits. Qed.

Lemma message_ack_frame_travels id seq st :
  stamp_ok st → small_int seq → is_valid_message_id id = true → travels (message_ack_frame (cp id) seq st).
Proof.
  intros Hst Hs Hid. destruct (message_id_plain id Hid) as (Hp & Hlen & _).
  assert (B1 : bounded 1 MAX_MESSAGE_ID_LENGTH (cp id) = true) by (unfold bounded; by rewrite Hlen).
  apply frame_travels; [done|apply small_int_0| | |].
  - constructor; [wf_keys|repeat constructor|].
    constructor; [constructor; by apply plain_scalar|]. constructor; [|constructor].
    constructor. by apply small_int_ok.
  - unfold validate_frame, require_str, require_int.
    set (d := [_; _]). change (dget d (cp "id")) with (Some (JStr (cp id))).
    change (dget d (cp "ack")) with (Some (JInt seq)). cbv iota beta. destruct Hs as [Hs _].
    rewrite B1, (proj2 (Z.leb_le _ _) Hs). done.
  - pose proof (int_text_length seq Hs) as Hi.
    cbn [dumps fmap list_fmap joined fst snd] in *. repeat (rewrite ?length_app; cbn [length]).
    rewrite !dump_plain_length by first [done|by repeat constructor]. rewrite Hlen.
    apply (Nat.le_trans _ 300); [cbn in *; lia|by apply Nat.leb_le].
Qed.

(** *** Key exchange *)

(** A display name as [validate_display_name] returns it, of scalar values. *)
Record name_ok (name : unicode) : Prop := {
  no_size : (1 <= length name <= MAX_DISPLAY_NAME_LENGTH)%nat;
  no_control : existsb is_control name = false;
  no_scalar : Forall (λ c, is_scalar c = true) name;
}.

(** An identity key as the identity manager writes it. *)
Definition identity_hex (identity : option string) : Prop :=
  match identity with
  | Some s => ∃ k, bytes_ok k ∧ length k = 32%nat ∧ s = hexdigest k
  | None => True
  end.

Record side_ok (h : Handshake) : Prop := {
  sd_public : bytes_ok (hs_public h) ∧ length (hs_public h) = 32%nat;
  sd_nonce : bytes_ok (hs_nonce h) ∧ length (hs_nonce h) = 16%nat;
  sd_name : name_ok (hs_display_name h);
  sd_identity : identity_hex (hs_idpub_hex h);
}.

Lemma require_hex_digest d field b n :
  dget d (cp field) = Some (JStr (cp (hexdigest b))) → bytes_ok b → n = (2 * length b)%nat →
  require_hex d field n = Ok tt.
Proof.
  intros Hd Hb ->. unfold require_hex. rewrite Hd, hexdigest_cp_length, Nat.eqb_refl. cbn [require guard_or mbind result_bind].
  unfold cp. rewrite (ascii_text_encode _ (hexdigest_ascii b)). cbn [mbind option_bind].
  rewrite (fromhex_hexdigest b Hb). by rewrite bool_decide_true.
Qed.

Lemma presented_hex h :
  identity_hex (hs_idpub_hex h) →
  presented h = None ∨ ∃ k, presented h = Some (hexdigest k) ∧ bytes_ok k ∧ length k = 32%nat.
Proof.
  unfold identity_hex, presented. destruct (hs_idpub_hex h) as [s|]; [|by left].
  intros (k & Hk & Hl & ->). case_decide; [by left|]. right. by exists k.
Qed.

Lemma dget_app_None (base d : fields) k : dget base k = None → dget (base ++ d) k = dget d k.
Proof.
  induction base as [|[k' v] base IH]; [done|]. cbn. case_decide; [done|exact IH].
Qed.

(** The name and identity fields pass validation whatever precedes them. *)
Lemma name_fields_valid h base :
  side_ok h → dget base (cp "name") = None → dget base (cp "idpub") = None →
  require_optional_name (base ++ name_fields h) = Ok tt ∧
  require_optional_idpub (base ++ name_fields h) = Ok tt.
Proof.
  intros [_ _ [Hsz Hc _] Hi] Hn Hid.
  assert (Happ := λ k, dget_app_None base (name_fields h) k).
  unfold require_optional_name, require_optional_idpub, optional. rewrite (Happ _ Hn), (Happ _ Hid).
  unfold name_fields. rewrite decide_False by (intros E; rewrite E in Hsz; cbn in Hsz; lia).
  split.
  - change (dget _ (cp "name")) with (Some (JStr (hs_display_name h))). cbv iota beta.
    unfold bounded. rewrite (proj2 (Nat.leb_le 1 _)), (proj2 (Nat.leb_le _ MAX_PEER_NAME_LENGTH)) by apply Hsz.
    cbn [andb require guard_or mbind result_bind]. change control with is_control. by rewrite Hc.
  - destruct (presented_hex h Hi) as [->|(k & -> & Hk & Hl)]; [reflexivity|].
    change (dget _ (cp "idpub")) with (Some (JStr (cp (hexdigest k)))). cbv iota beta.
    apply (require_hex_digest _ "idpub" k); [|done|by rewrite Hl].
    rewrite (dget_app_None base _ _ Hid). reflexivity.
Qed.

(** The printed length of a JSON object of such members. *)
Lemma name_fields_members h :
  side_ok h → dict_wf (name_fields h) ∧
  keys (name_fields h) ⊆ [cp "name"; cp "idpub"] ∧
  Forall (λ kv, Forall (λ c, is_scalar c = true) kv.1) (name_fields h) ∧
  Forall (λ kv, json_ok kv.2) (name_fields h) ∧
  (length (joined comma (dump_member <$> name_fields h)) <= 400)%nat.
Proof.
  intros [_ _ [Hsz _ Hs] Hi]. unfold name_fields.
  rewrite decide_False by (intros E; rewrite E in Hsz; cbn in Hsz; lia).
  pose proof (dump_string_length (hs_display_name h)) as Hd. unfold MAX_DISPLAY_NAME_LENGTH in Hsz.
  destruct (presented_hex h Hi) as [->|(k & -> & Hk & Hl)].
  - rewrite app_nil_r. split; [wf_keys|]. split; [set_solver|]. split; [by repeat constructor|].
    split; [by repeat constructor|]. cbn [fmap list_fmap joined]. unfold dump_member. cbn [fst snd dumps].
    rewrite length_app. cbn [length]. change (length (dump_string (cp "name"))) with 6%nat. lia.
  - split; [wf_keys|]. split; [set_solver|]. split; [by repeat constructor|].
    split; [constructor; [by constructor|]; constructor; [|constructor]; constructor; by apply plain_scalar, hexdigest_plain|].
    cbn [fmap list_fmap joined app]. unfold dump_member. cbn [fst snd dumps].
    repeat (rewrite ?length_app; cbn [length]).
    rewrite (dump_plain_length (cp (hexdigest k))) by by apply hexdigest_plain.
    rewrite hexdigest_cp_length, Hl. change (length (dump_string (cp "name"))) with 6%nat.
    change (length (dump_string (cp "idpub"))) with 7%nat. lia.
Qed.

Lemma joined_app_length sep l1 l2 :
  (length (joined sep (l1 ++ l2)) <= length (joined sep l1) + 1 + length (joined sep l2))%nat.
Proof.
  induction l1 as [|x l1 IH]; [cbn; lia|]. rewrite <- app_comm_cons, !joined_cons, !length_app.
  destruct l1 as [|y l1]; cbn [app] in *.
  - destruct l2; cbn [length]; lia.
  - cbn [length]. lia.
Qed.

Lemma both_checks (r1 r2 : result frame_error unit) :
  r1 = Ok tt → r2 = Ok tt → (r1;; r2) = Ok tt.
Proof. by intros -> ->. Qed.

Lemma kex_travels t base h st :
  stamp_ok st → side_ok h → dict_wf base → cp "name" ∉ keys base → cp "idpub" ∉ keys base →
  Forall (λ kv, Forall (λ c, is_scalar c = true) kv.1) base → Forall (λ kv, json_ok kv.2) base →
  (length (joined comma (dump_member <$> base)) <= 1000)%nat →
  validate_frame t 0 (base ++ name_fields h) = Ok tt →
  travels (new_frame t (base ++ name_fields h) 0 st).
Proof.
  intros Hst Hh Hwf Hn Hi Hk Hj Hl Hv.
  destruct (name_fields_members h Hh) as (Hwf' & Hsub & Hk' & Hj' & Hl').
  apply frame_travels; [done|apply small_int_0| |done|].
  - constructor; [|by apply Forall_app|by apply Forall_app].
    unfold dict_wf, keys in *. rewrite fmap_app. apply NoDup_app. split; [done|]. split; [|done].
    intros k H1 H2%Hsub. set_solver.
  - change (dumps (JObj (base ++ name_fields h))) with
      (lbrace :: joined comma (dump_member <$> base ++ name_fields h) ++ [rbrace]).
    cbn [length]. rewrite length_app, fmap_app. cbn [length].
    pose proof (joined_app_length comma (dump_member <$> base) (dump_member <$> name_fields h)).
    apply (Nat.le_trans _ 1500); [lia|by apply Nat.leb_le].
Qed.

Definition kex_base (h : Handshake) : fields :=
  [(cp "pub", JStr (cp (hexdigest (hs_public h)))); (cp "nonce", JStr (cp (hexdigest (hs_nonce h))))].

Lemma kex_hello_travels h st : stamp_ok st → side_ok h → travels (kex_hello_frame (hello_payload h) st).
Proof.
  intros Hst Hh. pose proof Hh as [[Hp Hpl] [Hn Hnl] _ _].
  pose proof (hexdigest_plain _ Hp) as P1. pose proof (hexdigest_plain _ Hn) as P2.
  apply (kex_travels KEX_HELLO (kex_base h)); [done|done|wf_keys| | | | | |].
  1-2: cbn; set_solver.
  - by repeat constructor.
  - by repeat (constructor; [constructor; by apply plain_scalar|]).
  - cbn [fmap list_fmap joined kex_base]. unfold dump_member. cbn [fst snd dumps].
    repeat (rewrite ?length_app; cbn [length]). rewrite !(dump_plain_length (cp (hexdigest _))) by done.
    rewrite !hexdigest_cp_length, Hpl, Hnl. apply Nat.leb_le. reflexivity.
  - unfold validate_frame. destruct (name_fields_valid h (kex_base h) Hh eq_refl eq_refl) as [V1 V2].
    rewrite (require_hex_digest _ "pub" (hs_public h)); [|reflexivity|done|by rewrite Hpl].
    rewrite (require_hex_digest _ "nonce" (hs_nonce h)); [|reflexivity|done|by rewrite Hnl].
    exact (both_checks _ _ V1 V2).
Qed.

Lemma kex_reply_travels h proof st :
  stamp_ok st → side_ok h → bytes_ok proof → proof ≠ [] → (length proof <= 90)%nat →
  travels (kex_reply_frame (kex_base h ++ [(cp "proof", JStr (cp (b64encode proof)))] ++ name_fields h) st).
Proof.
  intros Hst Hh Hok Hne Hl. pose proof Hh as [[Hp Hpl] [Hn Hnl] _ _].
  pose proof (hexdigest_plain _ Hp) as P1. pose proof (hexdigest_plain _ Hn) as P2.
  pose proof (b64encode_plain proof) as P3. pose proof (b64encode_size proof) as Hb.
  pose proof (b64encode_pos proof Hne) as Hpos. rewrite app_assoc.
  set (base := kex_base h ++ _).
  apply (kex_travels KEX_REPLY base); [done|done|wf_keys| | | | | |].
  1-2: cbn; set_solver.
  - by repeat constructor.
  - by repeat (constructor; [constructor; by apply plain_scalar|]).
  - cbn [fmap list_fmap joined kex_base base app]. unfold dump_member. cbn [fst snd dumps].
    repeat (rewrite ?length_app; cbn [length]). rewrite !(dump_plain_length (cp (hexdigest _))) by done.
    rewrite (dump_plain_length (cp (b64encode _))) by done.
    rewrite !hexdigest_cp_length, Hpl, Hnl. change (length (dump_string (cp "pub"))) with 5%nat.
    change (length (dump_string (cp "nonce"))) with 7%nat. change (length (dump_string (cp "proof"))) with 7%nat.
    cbn [Nat.mul Nat.add]. lia.
  - unfold validate_frame, require_b64, require_str.
    destruct (name_fields_valid h base Hh eq_refl eq_refl) as [V1 V2].
    rewrite (require_hex_digest _ "pub" (hs_public h)); [|reflexivity|done|by rewrite Hpl].
    rewrite (require_hex_digest _ "nonce" (hs_nonce h)); [|reflexivity|done|by rewrite Hnl].
    change (dget _ (cp "proof")) with (Some (JStr (cp (b64encode proof)))). cbv iota beta.
    assert (B : bounded 1 MAX_PROOF_B64_LENGTH (cp (b64encode proof)) = true).
    { unfold bounded, MAX_PROOF_B64_LENGTH. rewrite andb_true_iff, !Nat.leb_le. lia. }
    rewrite B. cbn [require guard_or mbind result_bind]. rewrite is_base64_encoded by done.
    exact (both_checks _ _ V1 V2).
Qed.
