(* ===== verification/ChatInvariant.v ===== *)
(** * The invariant of a chat session

    What holds of a session whatever it is told and in whatever order:
    readiness implies a key, the stored key is the one of the verified
    session, sequence numbers are unique, the queues keep their own
    invariants, the pump delivers a stored message, and nothing secret
    survives [close]. *)

From S2P Require Import Prelude Text Utf8 Primitives Crypto Ids Messages MessageTheorems Json ChannelFrames Handshake ChatSession.

Open Scope Z_scope.

Import InboxProofs OutboxProofs.

(** ** Names *)

Lemma drop_while_fixed p s : (∀ c, head s = Some c → p c = false) → drop_while p s = s.
Proof. destruct s as [|c s]; [done|]. intros H. cbn. by rewrite (H c eq_refl). Qed.

Lemma drop_while_first p s c : head (drop_while p s) = Some c → p c = false.
Proof. induction s as [|x s IH]; [done|]. cbn. destruct (p x) eqn:E; [done|]. by intros [= <-]. Qed.

(** What [strip] returns neither starts nor ends with such a character. *)
Lemma strip_by_idempotent p s : strip_by p (strip_by p s) = strip_by p s.
Proof.
  unfold strip_by, rstrip_by. set (t := drop_while p s).
  assert (Ht : ∀ c, head t = Some c → p c = false) by (intros c; apply drop_while_first).
  set (u := drop_while p (reverse t)).
  assert (Hu : ∀ c, head u = Some c → p c = false) by (intros c; apply drop_while_first).
  assert (Hpre : ∃ w, t = reverse u ++ w).
  { assert (H : ∃ w, reverse t = w ++ u).
    { subst u. generalize (reverse t). intros l. induction l as [|x l [w IH]]; [by exists []|]. cbn.
      destruct (p x); [exists (x :: w); by rewrite IH at 1|by exists []]. }
    destruct H as [w H]. exists (reverse w). by rewrite <- reverse_app, <- H, reverse_involutive. }
  destruct Hpre as [w Hw].
  rewrite (drop_while_fixed p (reverse u)).
  - by rewrite reverse_involutive, (drop_while_fixed p u Hu).
  - intros c Hc. apply Ht. rewrite Hw. destruct (reverse u); [done|]. exact Hc.
Qed.

Lemma validate_name_idempotent n n' : validate_display_name n = Ok n' → validate_display_name n' = Ok n'.
Proof.
  unfold validate_display_name. intros H. apply bind_Ok in H as ([] & H1 & H).
  apply bind_Ok in H as ([] & H2 & [= <-]). unfold uni_strip in *. rewrite strip_by_idempotent, H1.
  cbn [mbind result_bind]. by rewrite H2.
Qed.

(** ** The parts *)

Definition names_inv (me : Self) (pe : Peer) : Prop :=
  validate_display_name (sf_display_name me) = Ok (sf_display_name me) ∧
  validate_display_name (pe_name pe) = Ok (pe_name pe).

Record keys_inv (ks : Keys) (ln : Link) : Prop := {
  ki_key : ks_session_key ks = ss_session_key <$> ks_secure ks;
  ki_ready : ln_ready ln = true → is_Some (ks_secure ks);
  ki_conv : ∀ sec, ks_secure ks = Some sec → startswith (ss_conversation_id sec) "conv_" = true;
  ki_closed : ln_closing ln = true → ks_secure ks = None;
}.

(** The message the pump carries is a stored one. *)
Definition carried (ob : Outbox.Outbox) (m : Message) : Prop :=
  message_ok m ∧ ∃ m', dget (Outbox.ob_messages ob) (msg_id m) = Some m' ∧
    msg_sequence m' = msg_sequence m ∧ msg_text m' = msg_text m.

Definition pump_inv (ob : Outbox.Outbox) (p : Pump) : Prop :=
  match p with PumpAttempt m _ | PumpAck m _ _ => carried ob m | _ => True end.

Record out_inv (ob : Outbox.Outbox) (next : Z) (p : Pump) : Prop := {
  oi_box : outbox_inv ob;
  oi_next : 1 <= next;
  oi_below : ∀ id m, dget (Outbox.ob_messages ob) id = Some m → msg_sequence m < next;
  oi_distinct : ∀ id id' m m', dget (Outbox.ob_messages ob) id = Some m →
    dget (Outbox.ob_messages ob) id' = Some m' → msg_sequence m = msg_sequence m' → id = id';
  oi_pump : pump_inv ob p;
}.

Definition stopped (s : ChatSession) : Prop := cs_pump s = NoPump ∧ cs_background s = [].

Record chat_inv (s : ChatSession) : Prop := {
  ci_names : names_inv (cs_self s) (cs_peer s);
  ci_keys : keys_inv (cs_keys s) (cs_link s);
  ci_out : out_inv (cs_outbox s) (cs_next_sequence s) (cs_pump s);
  ci_in : inbox_inv (cs_inbox s);
  ci_stopped : ln_closing (cs_link s) = true → stopped s;
}.

(** ** Outbox calls add no message *)

Definition same_ids (ob ob' : Outbox.Outbox) : Prop :=
  keys (Outbox.ob_messages ob') = keys (Outbox.ob_messages ob).

Lemma put_same_ids ob m : msg_id m ∈ keys (Outbox.ob_messages ob) → same_ids ob (Outbox.put ob m).
Proof. intros H. unfold same_ids, Outbox.put. cbn. rewrite keys_dset. by rewrite decide_True. Qed.

Lemma post_init_Ok m m' : post_init m = Ok m' → m' = m.
Proof. unfold post_init. intros H. repeat (apply bind_Ok in H as (? & _ & H)). congruence. Qed.

Lemma with_status_Ok m st e now m' : with_status m st e now = Ok m' → m' = set_status m st e now.
Proof. unfold with_status. intros H. apply bind_Ok in H as ([] & _ & H). by apply post_init_Ok in H. Qed.

(** Storing the next status of a stored message. *)
Lemma put_status_same_ids ob id m st e now m' q w d :
  outbox_inv ob → dget (Outbox.ob_messages ob) id = Some m → with_status m st e now = Ok m' →
  same_ids ob (Outbox.mkOutbox q (dset (Outbox.ob_messages ob) (msg_id m') m') w d).
Proof.
  intros I Hm ->%with_status_Ok. destruct (oi_msg ob I id m Hm) as (Hid & _). unfold same_ids. cbn.
  rewrite keys_dset, decide_True; [done|]. rewrite Hid. apply dget_is_Some. by eexists.
Qed.

Lemma same_ids_trans a b c : same_ids a b → same_ids b c → same_ids a c.
Proof. unfold same_ids. congruence. Qed.

Section same.
Import Outbox.

Lemma transition_same_ids ob id st e now : outbox_inv ob → same_ids ob (transition ob id st e now).2.
Proof.
  intros I. unfold transition. destruct (dget (ob_messages ob) id) as [m|] eqn:Hm; [|done].
  destruct (is_terminal m); [done|]. destruct (with_status m st e now) as [m'|] eqn:Hw; [|done].
  exact (put_status_same_ids ob id m st e now m' _ _ _ I Hm Hw).
Qed.

Lemma mark_sent_same_ids ob id now : outbox_inv ob → same_ids ob (mark_sent ob id now).2.
Proof.
  intros I. unfold mark_sent. destruct (dget (ob_messages ob) id) as [m|]; [|done].
  case_decide; [by apply transition_same_ids|done].
Qed.

Lemma mark_failed_same_ids ob id e now : outbox_inv ob → same_ids ob (mark_failed ob id e now).2.
Proof.
  intros I. unfold mark_failed. pose proof (transition_same_ids ob id FAILED (Some e) now I) as H.
  destruct (transition ob id FAILED (Some e) now) as [[m|] ob']; exact H.
Qed.

Lemma mark_delivered_same_ids ob id now : outbox_inv ob → same_ids ob (mark_delivered ob id now).2.
Proof.
  intros I. unfold mark_delivered. destruct (dget (ob_messages ob) id) as [m|] eqn:Hm; [|done].
  case_match; [done|]. case_match; [done|].
  destruct (decide (msg_status m = SENDING)) as [Hs|Hs].
  - rewrite (with_status_out ob id m SENT None now I Hm), Hs, decide_True by (simpl; set_solver).
    cbn [mbind result_bind].
    pose proof (with_status_out ob id m SENT None now I Hm) as Hw. rewrite Hs, decide_True in Hw by (simpl; set_solver).
    pose proof (put_status_same_ids ob id m SENT None now _ (ob_queued ob) (ob_waiters ob) (ob_delivered_sequences ob) I Hm Hw) as H1.
    unfold transition. cbn [put ob_messages].
    destruct (dget (dset (ob_messages ob) (msg_id (set_status m SENT None now)) (set_status m SENT None now)) id)
      as [m1|] eqn:Hm1; [|exact H1].
    destruct (is_terminal m1); [exact H1|]. destruct (with_status m1 DELIVERED None now) as [m2|] eqn:Hw2; [|exact H1].
    apply with_status_Ok in Hw2 as ->. unfold same_ids in *. cbn in *. rewrite keys_dset, decide_True; [done|].
    destruct (oi_msg ob I id m Hm) as (Hid & _). rewrite dget_dset in Hm1. cbn in Hm1. rewrite decide_True in Hm1 by done.
    injection Hm1 as <-. cbn. rewrite H1, Hid. apply dget_is_Some. by eexists.
  - pose proof (transition_same_ids ob id DELIVERED None now I) as H1.
    destruct (transition ob id DELIVERED None now) as [[m'|] ob']; exact H1.
Qed.

Lemma mark_read_same_ids ob n now : outbox_inv ob → same_ids ob (mark_read_up_to ob n now).2.
Proof.
  intros I. unfold mark_read_up_to. match goal with |- context [foldl ?f _ _] => set (step := f) end.
  enough (H : ∀ l acc s1, outbox_inv s1 → same_ids ob s1 → same_ids ob (foldl step (acc, s1) l).2) by by apply H.
  induction l as [|m l IH]; intros acc s1 I1 H1; [done|]. cbn [foldl]. subst step. cbn beta iota zeta.
  case_match; [|by apply IH].
  destruct (transition_keeps s1 (msg_id m) READ None now I1) as (I2 & _ & _); [done| |].
  { intros m0 _ _ Hd. destruct (msg_status m0); set_solver. }
  pose proof (transition_same_ids s1 (msg_id m) READ None now I1) as H2.
  destruct (transition s1 (msg_id m) READ None now) as [r s2]. apply IH; [done|]. by eapply same_ids_trans.
Qed.

Lemma next_queued_same_ids ob now : outbox_inv ob → same_ids ob (next_queued ob now).2.
Proof.
  intros I. unfold next_queued. generalize (ob_queued ob). intros q. induction q as [|id q IH]; [done|]. cbn.
  destruct (dget (ob_messages ob) id) as [m|] eqn:Hm; [|done]. case_decide; [|done].
  destruct (with_status m SENDING None now) as [m'|] eqn:Hw; [|done].
  exact (put_status_same_ids ob id m _ _ _ m' _ _ _ I Hm Hw).
Qed.

Lemma to_queued_same_ids ob id now : outbox_inv ob → same_ids ob (to_queued ob id now).2.
Proof.
  intros I. unfold to_queued. destruct (dget (ob_messages ob) id) as [m|] eqn:Hm; [|done]. case_match; [|done].
  destruct (with_status m QUEUED None now) as [m'|] eqn:Hw; [|done].
  exact (put_status_same_ids ob id m _ _ _ m' _ _ _ I Hm Hw).
Qed.

Lemma requeue_same_ids ob now : outbox_inv ob → same_ids ob (requeue_unacked ob now).2.
Proof.
  intros I. destruct (pending_backlog ob I) as [_ Hall].
  assert (H : ∀ ms s, Forall (λ m, msg_id m ∈ keys (ob_messages s)) ms → same_ids s (requeue_loop s ms now).2).
  { induction ms as [|m ms IH]; intros s Hf; [done|]. apply Forall_cons in Hf as [Hm Hf]. cbn [requeue_loop].
    destruct (decide (msg_status m = QUEUED)).
    - specialize (IH s Hf). by destruct (requeue_loop s ms now) as [[]].
    - destruct (with_status m QUEUED None now) as [m'|] eqn:Hw; [|done].
      assert (Hid : msg_id m' = msg_id m) by (by apply with_status_Ok in Hw as ->).
      assert (H1 : same_ids s (put s m')) by (apply put_same_ids; by rewrite Hid).
      specialize (IH (put s m')). destruct (requeue_loop (put s m') ms now) as [[]]; (eapply same_ids_trans; [exact H1|apply IH]);
        by rewrite H1. }
  unfold requeue_unacked. specialize (H (sort_by_sequence (pending ob)) ob).
  destruct (requeue_loop ob _ now) as [[]]; apply H; (eapply Forall_impl; [exact Hall|]);
    intros m (Hm & _); apply dget_is_Some; by eexists.
Qed.
End same.

(** What every call but [enqueue] and [clear] does. *)
Definition moves (ob ob' : Outbox.Outbox) : Prop := keeps ob ob' ∧ same_ids ob ob'.

Lemma moves_refl ob : outbox_inv ob → moves ob ob.
Proof. intros I. split; [by apply keeps_refl|done]. Qed.

Lemma moves_trans a b c : moves a b → moves b c → moves a c.
Proof.
  intros [[I1 E1] S1] [[I2 E2] S2]. split; [split; [done|by eapply evolves_trans]|by eapply same_ids_trans].
Qed.

Lemma moves_bookkeeping ob w : outbox_inv ob →
  moves ob (Outbox.mkOutbox (Outbox.ob_queued ob) (Outbox.ob_messages ob) w (Outbox.ob_delivered_sequences ob)).
Proof. intros I. split; [split; [by apply bookkeeping_inv|by apply evolves_same]|done]. Qed.

Lemma carried_moves ob ob' m : moves ob ob' → carried ob m → carried ob' m.
Proof.
  intros [[_ Ev] _] (Hok & m' & Hm & Hs & Ht). split; [done|].
  destruct (Ev _ _ Hm) as (m'' & Hm'' & _ & Hs' & Ht'). exists m''. split; [done|]. split; congruence.
Qed.

Lemma out_inv_moves ob ob' next p p' :
  out_inv ob next p → moves ob ob' → (pump_inv ob p → pump_inv ob' p') → out_inv ob' next p'.
Proof.
  intros [I H1 Hb Hd Hp] [[I' Ev] Hk] Hpump.
  assert (Hback : ∀ id m', dget (Outbox.ob_messages ob') id = Some m' →
    ∃ m, dget (Outbox.ob_messages ob) id = Some m ∧ msg_sequence m' = msg_sequence m).
  { intros id m' Hm'. assert (Hin : id ∈ keys (Outbox.ob_messages ob')) by (apply dget_is_Some; by eexists).
    rewrite Hk in Hin. apply dget_is_Some in Hin as [m Hm]. exists m. split; [done|].
    destruct (Ev id m Hm) as (m'' & Hm'' & _ & ? & _). congruence. }
  split; [done|done| | |by apply Hpump].
  - intros id m' Hm'. destruct (Hback id m' Hm') as (m & Hm & ->). by eapply Hb.
  - intros id id' m m' Hm Hm' E. destruct (Hback _ _ Hm) as (x & Hx & Ex). destruct (Hback _ _ Hm') as (y & Hy & Ey).
    apply (Hd id id' x y); congruence.
Qed.

(** ** Changes the invariant does not see *)

Record quiet (s s' : ChatSession) : Prop := {
  q_self : cs_self s' = cs_self s; q_peer : cs_peer s' = cs_peer s; q_keys : cs_keys s' = cs_keys s;
  q_link : cs_link s' = cs_link s; q_outbox : cs_outbox s' = cs_outbox s; q_inbox : cs_inbox s' = cs_inbox s;
  q_next : cs_next_sequence s' = cs_next_sequence s; q_pump : cs_pump s' = cs_pump s;
  q_background : cs_background s' = cs_background s;
}.

#[export] Instance quiet_preorder : PreOrder quiet.
Proof.
  split; [by split|]. intros a b c [] []. split; congruence.
Qed.

Lemma quiet_inv s s' : quiet s s' → chat_inv s → chat_inv s'.
Proof.
  intros [] []. split; rewrite ?q_self0, ?q_peer0, ?q_keys0, ?q_link0, ?q_outbox0, ?q_inbox0, ?q_next0, ?q_pump0; try done.
  intros H. specialize (ci_stopped0 H). unfold stopped in *. by rewrite q_pump0, q_background0.
Qed.

Lemma quiet_emit s k d m : quiet s (emit s k d m).
Proof. done. Qed.
Lemma quiet_bump s c : quiet s (bump s c).
Proof. done. Qed.
Lemma quiet_surface s m : quiet s (surface s m).
Proof. done. Qed.
Lemma quiet_fold {A} (f : ChatSession → A → ChatSession) l :
  (∀ s x, quiet s (f s x)) → ∀ s, quiet s (foldl f s l).
Proof. intros Hf. induction l as [|x l IH]; intros s; [reflexivity|]. cbn. etrans; [apply Hf|apply IH]. Qed.
Lemma quiet_send env s f : quiet s (send_frame env s f).2.
Proof.
  unfold send_frame. destruct (map_error _ _); [|done]. by destruct (ev_link env).
Qed.
Lemma quiet_send_quiet env s f : quiet s (send_frame_quiet env s f).2.
Proof.
  pose proof (quiet_send env s f) as H. unfold send_frame_quiet. destruct (send_frame env s f) as [[|[]] s1]; exact H.
Qed.

(** A call that keeps [Q], then another. *)
Lemma run_inv {A B} (Q : ChatSession → Prop) (o : outcome ChatSession ChatError A) (k : A → ChatSession → outcome ChatSession ChatError B) :
  Q o.2 → (∀ a s1, o = (Ok a, s1) → Q (k a s1).2) → Q (run? (a, s1) := o in k a s1).2.
Proof. intros H Hk. destruct o as [[a|e] s1]; [by apply Hk|exact H]. Qed.

Create HintDb chat.
#[export] Hint Resolve quiet_emit quiet_bump quiet_surface quiet_send quiet_send_quiet : chat.
#[export] Hint Extern 1 (quiet ?s (set_typing ?s _)) => done : chat.
#[export] Hint Extern 1 (quiet ?s (set_receipts ?s _)) => done : chat.
#[export] Hint Extern 1 (quiet ?s (set_delegate ?s _)) => done : chat.
#[export] Hint Extern 1 (quiet ?s (set_history ?s _)) => done : chat.

(** Peel quiet changes off the goal. *)
Ltac quietly :=
  cbn [snd];
  repeat match goal with
  | |- chat_inv (emit ?s _ _ _) => apply (quiet_inv s); [apply quiet_emit|]
  | |- chat_inv (bump ?s _) => apply (quiet_inv s); [apply quiet_bump|]
  | |- chat_inv (send_frame_quiet _ ?s _).2 => apply (quiet_inv s); [apply quiet_send_quiet|]
  | |- chat_inv (set_typing ?s _) => apply (quiet_inv s); [done|]
  | |- chat_inv (set_receipts ?s _) => apply (quiet_inv s); [done|]
  | |- chat_inv (set_delegate ?s _) => apply (quiet_inv s); [done|]
  | |- chat_inv (set_history ?s _) => apply (quiet_inv s); [done|]
  | |- chat_inv (foldl surface ?s _) => apply (quiet_inv s); [apply quiet_fold, quiet_surface|]
  end; try done.

(** ** Every operation keeps the invariant *)

Lemma set_keys_inv s ks : chat_inv s → keys_inv ks (cs_link s) → chat_inv (set_keys s ks).
Proof. intros [] H. by split. Qed.

Lemma set_link_inv s ln :
  chat_inv s → (ln_ready ln = true → ln_ready (cs_link s) = true) → ln_closing ln = ln_closing (cs_link s) →
  chat_inv (set_link s ln).
Proof.
  intros [] Hr Hc. split; try done.
  - destruct ci_keys0. split; try done; cbn; [auto|]. by rewrite Hc.
  - cbn. by rewrite Hc.
Qed.

Lemma set_outbox_inv s ob : chat_inv s → moves (cs_outbox s) ob → chat_inv (set_outbox s ob).
Proof.
  intros [] H. split; try done. cbn. eapply out_inv_moves; [done|done|].
  destruct (cs_pump s); try done; by apply carried_moves.
Qed.

Lemma set_inbox_inv s ib : chat_inv s → inbox_inv ib → chat_inv (set_inbox s ib).
Proof. intros [] H. by split. Qed.

Lemma set_pump_inv s p :
  chat_inv s → (ln_closing (cs_link s) = true → p = NoPump) → pump_inv (cs_outbox s) p → chat_inv (set_pump s p).
Proof.
  intros [] Hc Hp. split; try done.
  - cbn. by destruct ci_out0.
  - intros H. destruct (ci_stopped0 H). split; [by apply Hc|done].
Qed.

Lemma set_background_inv s ts :
  chat_inv s → (ln_closing (cs_link s) = true → ts = []) → chat_inv (set_background s ts).
Proof. intros [] Hc. split; try done. intros H. destruct (ci_stopped0 H). split; [done|by apply Hc]. Qed.

Lemma set_initiator_inv s i : chat_inv s → chat_inv (set_initiator s i).
Proof. intros H. apply set_keys_inv; [done|]. destruct (ci_keys _ H). by split. Qed.

Section ops.
Context {P : Primitives} {K : KexPrimitives}.

Lemma session_of_conv key t i h r : startswith (ss_conversation_id (session_of key t i h r)) "conv_" = true.
Proof. reflexivity. Qed.

Lemma answer_conv h p n r s : (answer h p n).1 = Ok (r, s) → startswith (ss_conversation_id s) "conv_" = true.
Proof.
  unfold answer. repeat (case_match; try done). cbn [fst]. intros [= _ <-]. apply session_of_conv.
Qed.

Lemma complete_conv h p s : (complete h p).1 = Ok s → startswith (ss_conversation_id s) "conv_" = true.
Proof.
  unfold complete. repeat (case_match; [|done]). cbn [fst]. intros [= <-]. apply session_of_conv.
Qed.

Lemma set_session_inv s sec :
  chat_inv s → ln_closing (cs_link s) = false → startswith (ss_conversation_id sec) "conv_" = true →
  chat_inv (set_session s sec).
Proof.
  intros I Hc Hv.
  assert (H : chat_inv (set_ready (set_keys s (mkKeys (Some sec) (Some (ss_session_key sec)) (ks_initiator (cs_keys s)))) true)).
  { destruct I. split; [done| |done|done|exact ci_stopped0]. destruct ci_keys0. split; cbn.
    - done.
    - by eexists.
    - by intros ? [= <-].
    - by rewrite Hc. }
  unfold set_session. case_match; quietly.
Qed.

Lemma adopt_inv s p : chat_inv s → chat_inv (adopt_peer_identity (adopt_peer_name s p) p).
Proof.
  intros I. assert (H : chat_inv (adopt_peer_name s p)).
  { unfold adopt_peer_name. destruct (dget p (cp "name")) as [[]|]; try done.
    destruct (validate_display_name s0) eqn:Hv; [|done]. destruct I. split; try done. destruct ci_names0. split; [done|]. cbn. by eapply validate_name_idempotent. }
  unfold adopt_peer_identity. repeat (case_match; try done). destruct H. by split.
Qed.

Lemma adopt_link s p : cs_link (adopt_peer_identity (adopt_peer_name s p) p) = cs_link s.
Proof. unfold adopt_peer_identity, adopt_peer_name. by repeat case_match. Qed.

Lemma initiate_inv env s : chat_inv s → chat_inv (initiate_handshake env s).2.
Proof.
  intros I. unfold initiate_handshake. destruct (ln_closing (cs_link s)); [done|].
  quietly. destruct (ks_secure (cs_keys s)).
  - apply set_link_inv; [quietly; by apply set_initiator_inv|done|done].
  - by apply set_initiator_inv.
Qed.

Lemma kex_hello_inv env s f :
  chat_inv s → ln_closing (cs_link s) = false → chat_inv (handle_kex_hello env s f).2.
Proof.
  intros I Hc. unfold handle_kex_hello. case_decide; [quietly|].
  pose proof (adopt_inv s (fr_data f) I) as Ha. cbv zeta.
  destruct (answer _ (fr_data f) (ev_nonce env)).1 as [[reply sec]|e] eqn:E.
  - apply (run_inv chat_inv); [quietly; destruct (ks_secure _); quietly|]. intros ? s3 Es. cbn [snd].
    match type of Es with ?o = _ => assert (Hq : quiet _ o.2) by apply quiet_send_quiet; rewrite Es in Hq; cbn [snd] in Hq end.
    apply set_session_inv; [|..|by eapply answer_conv].
    + eapply quiet_inv; [exact Hq|]. destruct (ks_secure _); quietly.
    + rewrite (q_link _ _ Hq). destruct (ks_secure _); cbn; by rewrite adopt_link.
  - destruct e; cbn [snd]; quietly.
Qed.

Lemma kex_reply_inv s f :
  chat_inv s → ln_closing (cs_link s) = false → chat_inv (handle_kex_reply s f).2.
Proof.
  intros I Hc. unfold handle_kex_reply. destruct (ks_initiator (cs_keys s)) as [i|]; [|quietly].
  pose proof (set_initiator_inv s None I) as I1. cbv zeta.
  destruct (complete i (fr_data f)).1 as [sec|e] eqn:E; cbn [snd].
  - apply set_session_inv; [by apply adopt_inv|by rewrite adopt_link|by eapply complete_conv].
  - destruct e; cbn [snd]; quietly.
Qed.

Lemma message_inv env s f : chat_inv s → chat_inv (handle_message env s f).2.
Proof.
  intros I. unfold handle_message. destruct (key_bytes s) as [key|]; [|quietly].
  destruct (ks_secure (cs_keys s)) as [sec|]; [|quietly]. cbv zeta.
  destruct (of_option (received_aad _ _) _) as [aad|e]; [|done].
  destruct (open_message _ _ _ _ _ _ _ _) as [m|r].
  - destruct (accept_total (cs_inbox s) m (ev_now env) (ci_in _ I)) as (v & ms & ib & -> & Ii & _).
    pose proof (set_inbox_inv s ib I Ii) as I1. apply (run_inv chat_inv); [quietly|]. intros ? s1 Es.
    match type of Es with ?o = _ => assert (Hq : quiet _ o.2) by apply quiet_send_quiet; rewrite Es in Hq; cbn [snd] in Hq end.
    pose proof (quiet_inv _ _ Hq I1). destruct v; quietly.
  - destruct r; quietly.
Qed.

Lemma ack_inv env s f : chat_inv s → chat_inv (handle_ack env s f).2.
Proof.
  intros I. unfold handle_ack. destruct (ascii_text _) as [id|]; [|done]. cbv zeta.
  destruct (mark_delivered_keeps (cs_outbox s) id (ev_now env) (oi_box _ _ _ (ci_out _ I))) as [Hk _].
  pose proof (mark_delivered_same_ids (cs_outbox s) id (ev_now env) (oi_box _ _ _ (ci_out _ I))) as Hs.
  destruct (Outbox.mark_delivered _ _ _) as [r ob]. cbn [snd] in Hk, Hs.
  assert (I1 : chat_inv (set_outbox s ob)) by (apply set_outbox_inv; [done|by split]).
  destruct r as [[m|]|e]; [|done|done]. cbn [snd].
  enough (I2 : chat_inv (resolve (set_outbox s ob) id (Resolved m))) by (case_match; quietly).
  unfold resolve. destruct (cs_pump (set_outbox s ob)) as [| | |m0 n []] eqn:Hp; try done. case_decide; [|done].
  apply set_pump_inv; [done| |].
  - intros Hc. destruct (ci_stopped _ I1 Hc). congruence.
  - pose proof (oi_pump _ _ _ (ci_out _ I1)) as H0. by rewrite Hp in H0.
Qed.

Lemma read_receipt_inv env s f : chat_inv s → chat_inv (handle_read_receipt env s f).
Proof.
  intros I. unfold handle_read_receipt. cbv zeta. cbn [cs_outbox set_receipts].
  pose proof (mark_read_keeps (cs_outbox s) (int_of (fr_data f) "up_to") (ev_now env) (oi_box _ _ _ (ci_out _ I))) as Hk.
  pose proof (mark_read_same_ids (cs_outbox s) (int_of (fr_data f) "up_to") (ev_now env) (oi_box _ _ _ (ci_out _ I))) as Hs.
  destruct (Outbox.mark_read_up_to _ _ _) as [ms ob].
  apply (quiet_inv (set_outbox (set_receipts s (Receipts.note_read_received (cs_receipts s) (int_of (fr_data f) "up_to"))) ob)).
  - by apply quiet_fold.
  - apply set_outbox_inv; [quietly|by split].
Qed.

Lemma on_frame_inv env s f : chat_inv s → ln_closing (cs_link s) = false → chat_inv (on_frame env s f).2.
Proof.
  intros I Hc. unfold on_frame, dispatch_file_frame.
  destruct (fr_type f); cbn [snd];
    first [by apply kex_hello_inv | by apply kex_reply_inv | by apply message_inv | by apply ack_inv
          | by apply read_receipt_inv | by quietly | by case_match; quietly].
Qed.

Lemma dispatch_inv env s body : chat_inv s → ln_closing (cs_link s) = false → chat_inv (dispatch env s body).2.
Proof.
  intros I Hc. unfold dispatch. destruct (ascii_text body ≫= b64decode); [|quietly].
  destruct (decode_frame b) as [f|[]]; [by apply on_frame_inv|quietly..].
Qed.
(** *** Peer, link, sending, pump *)

Lemma on_peer_inv s channel event : chat_inv s → chat_inv (on_peer s channel event).
Proof.
  intros I. unfold on_peer. case_decide; [done|]. destruct (ln_closing (cs_link s) || _) eqn:Hc; [done|].
  apply orb_false_iff in Hc as [Hc _]. case_decide.
  - assert (I1 : chat_inv (emit (set_peer_present s true) PEER (pe_name (cs_peer s) ++ cp " joined the conversation") None))
      by (quietly; by apply set_link_inv).
    case_decide; [|done]. apply set_background_inv; [done|]. cbn. by rewrite Hc.
  - case_decide; [|done]. quietly. by apply set_link_inv.
Qed.

Lemma cancel_waiters_inv s : chat_inv s → chat_inv (cancel_waiters s).
Proof.
  intros I. unfold cancel_waiters. cbv zeta.
  match goal with |- chat_inv (set_outbox ?x _) => assert (I1 : chat_inv x) end.
  { destruct (cs_pump s) as [| | |m n []] eqn:Hp; try done. case_match; [|done]. apply set_pump_inv; [done| |].
    - intros Hc. destruct (ci_stopped _ I Hc). congruence.
    - pose proof (oi_pump _ _ _ (ci_out _ I)) as H0. by rewrite Hp in H0. }
  apply set_outbox_inv; [done|]. apply moves_bookkeeping, (oi_box _ _ _ (ci_out _ I1)).
Qed.

Lemma connection_inv env s st : chat_inv s → chat_inv (on_connection_state env s st).2.
Proof.
  intros I. unfold on_connection_state. destruct (ln_closing (cs_link s)) eqn:Hc; [done|]. cbv zeta.
  destruct st; [done| | |done|quietly; by apply set_link_inv|].
  - cbn [snd]. assert (I1 : chat_inv (set_transport_usable s true)) by by apply set_link_inv.
    case_match; [|done]. apply set_background_inv; [done|]. cbn. by rewrite Hc.
  - set (s1 := cancel_waiters _).
    assert (I1 : chat_inv s1).
    { apply cancel_waiters_inv. by apply set_link_inv; [apply set_link_inv|..]. }
    pose proof (oi_box _ _ _ (ci_out _ I1)) as Io. destruct (requeue_spec (cs_outbox s1) (ev_now env) Io) as (ob & E & Hk & _).
    pose proof (requeue_same_ids (cs_outbox s1) (ev_now env) Io) as Hs. rewrite E in Hs |- *. quietly.
    apply set_outbox_inv; [done|by split].
  - quietly. by apply set_link_inv; [apply set_link_inv|..].
Qed.

Lemma post_reconnect_inv env s : chat_inv s → chat_inv (post_reconnect env s).2.
Proof.
  intros I. unfold post_reconnect. case_match; [done|]. cbv zeta. case_decide; [apply initiate_inv|]; quietly.
Qed.

Lemma run_background_inv env s : chat_inv s → chat_inv (run_background env s).
Proof.
  intros I. unfold run_background. destruct (cs_background s) as [|t rest] eqn:Hb; [done|]. cbv zeta.
  assert (Hc : ln_closing (cs_link s) = false).
  { destruct (ln_closing (cs_link s)) eqn:Hc; [|done]. destruct (ci_stopped _ I Hc). congruence. }
  assert (I1 : chat_inv (set_background s rest)) by (apply set_background_inv; [done|by rewrite Hc]).
  destruct t; [by apply dispatch_inv|by apply initiate_inv|by apply post_reconnect_inv].
Qed.

Lemma watchdog_inv env s : chat_inv s → chat_inv (watchdog env s).2.
Proof.
  intros I. unfold watchdog. case_match; [done|]. cbv zeta.
  apply (run_inv chat_inv).
  { case_match; [|done]. destruct (Typing.note_sent_or_stopped _). case_match; quietly. }
  intros ? x Ex. assert (Ix : chat_inv x).
  { match type of Ex with ?o = _ => assert (Ho : chat_inv o.2); [|by rewrite Ex in Ho] end.
    case_match; [|done]. destruct (Typing.note_sent_or_stopped _). case_match; quietly. }
  clear Ex. destruct (is_ready x); [|done].
  destruct (starvation_total (cs_inbox x) (ev_now env) (ci_in _ Ix)) as (ms & ib & -> & Ii & _).
  quietly. by apply set_inbox_inv.
Qed.

Lemma notify_typing_inv env s b : chat_inv s → chat_inv (notify_typing env s b).2.
Proof. intros I. unfold notify_typing. case_match; [done|]. repeat case_match; quietly. Qed.

Lemma mark_all_read_inv ib : inbox_inv ib → inbox_inv (Inbox.mark_all_read ib).2.
Proof. intros []. by split. Qed.

Lemma mark_read_inv env s : chat_inv s → chat_inv (mark_read env s).2.
Proof.
  intros I. unfold mark_read. pose proof (mark_all_read_inv _ (ci_in _ I)) as Hi.
  destruct (Inbox.mark_all_read (cs_inbox s)) as [c ib]. cbv zeta. pose proof (set_inbox_inv s ib I Hi) as I1.
  case_match; [|quietly]. case_match; [|quietly]. apply (run_inv chat_inv); [quietly|]. intros ? s2 Es.
  match type of Es with ?o = _ => assert (Hq : quiet _ o.2) by apply quiet_send_quiet; rewrite Es in Hq; cbn [snd] in Hq end.
  pose proof (quiet_inv _ _ Hq I1). quietly.
Qed.
Lemma not_closing s sec : chat_inv s → ks_secure (cs_keys s) = Some sec → ln_closing (cs_link s) = false.
Proof.
  intros I Hs. destruct (ln_closing (cs_link s)) eqn:Hc; [|done].
  pose proof (ki_closed _ _ (ci_keys _ I) Hc). congruence.
Qed.

(** A new message takes the next number. *)
Lemma enqueue_out_inv ob next p m :
  out_inv ob next p → message_ok m → msg_sequence m = next → msg_status m = QUEUED →
  out_inv (Outbox.enqueue ob m).2 (next + 1) p.
Proof.
  intros [I H1 Hb Hd Hp] Hok Hseq Hst. pose proof (enqueue_keeps ob m I Hok) as [I' Ev].
  unfold Outbox.enqueue in *. destruct (guard_or (negb (dmem _ _)) _) eqn:Hg.
  2: { split; [done|lia| |done|done]. intros id m0 Hm0. pose proof (Hb id m0 Hm0). lia. }
  apply guard_or_Ok in Hg. apply negb_true_iff, dmem_false in Hg. rewrite bool_decide_true in * by done.
  cbn [guard_or snd] in *. split; [done|lia| | |].
  - intros id m0. cbn. rewrite dget_dset. case_decide; [intros [= <-]; lia|]. intros Hm0. pose proof (Hb id m0 Hm0). lia.
  - intros id id' m0 m0'. cbn. rewrite !dget_dset. case_decide; case_decide; try (intros; congruence).
    + intros [= <-] Hm' E. pose proof (Hb _ _ Hm'). lia.
    + intros Hm' [= <-] E. pose proof (Hb _ _ Hm'). lia.
    + by apply Hd.
  - destruct p as [| |m0 n|m0 n w]; try done; destruct Hp as (Hok0 & m' & Hm' & Hs & Ht); (split; [done|]);
      destruct (Ev _ _ Hm') as (m'' & Hm'' & _ & Hs' & Ht'); exists m''; (split; [exact Hm''|]); split; congruence.
Qed.

Lemma send_message_inv env s text : chat_inv s → chat_inv (send_message env s text).2.
Proof.
  intros I. unfold send_message. destruct (ks_secure (cs_keys s)) as [sec|] eqn:Hs; [|done]. cbn [of_option].
  destruct (post_init _) as [m|] eqn:Hm; [|done]. cbn [map_error]. cbv zeta.
  pose proof (post_init_Ok _ _ Hm) as ->.
  pose proof (enqueue_out_inv _ _ _ _ (ci_out _ I) Hm eq_refl eq_refl) as Ho. cbn [msg_sequence] in Ho.
  cbn [cs_outbox set_next_sequence]. set (m := mkMessage _ _ _ _ _ _ _ _ _ _ _ _ _) in *.
  destruct (Outbox.enqueue (cs_outbox s) m) as [r ob]. cbn [snd] in Ho.
  set (s2 := set_outbox (set_next_sequence s (cs_next_sequence s + 1)) ob).
  assert (I1 : chat_inv s2) by (destruct I; by split).
  destruct r as [[]|e]; [|exact I1]. cbn [snd]. unfold ensure_pump. destruct (cs_pump s2) eqn:Hp; try exact I1.
  apply set_pump_inv; [exact I1| |exact Logic.I]. cbn. by rewrite (not_closing s sec I Hs).
Qed.

(** What [with_payload] keeps. *)
Lemma with_payload_ok m p m1 :
  message_ok m → with_payload m p = Ok m1 →
  message_ok m1 ∧ msg_id m1 = msg_id m ∧ msg_sequence m1 = msg_sequence m ∧ msg_text m1 = msg_text m.
Proof. intros Hok H. unfold with_payload in H. pose proof (post_init_Ok _ _ H) as ->. done. Qed.

Lemma carried_payload ob m p m1 : carried ob m → with_payload m p = Ok m1 → carried ob m1.
Proof.
  intros (Hok & m' & Hm & Hs & Ht) Hp. destruct (with_payload_ok m p m1 Hok Hp) as (Hok1 & Hi & Hs1 & Ht1).
  split; [done|]. exists m'. rewrite Hi. split; [done|]. split; congruence.
Qed.

Lemma attempt_inv env s key m n :
  chat_inv s → cs_pump s = PumpAttempt m n → chat_inv (attempt env s key m n).2.
Proof.
  intros I Hp. pose proof (oi_pump _ _ _ (ci_out _ I)) as Hcar. rewrite Hp in Hcar. cbn in Hcar.
  assert (Hc : ln_closing (cs_link s) = false).
  { destruct (ln_closing (cs_link s)) eqn:Hc; [|done]. destruct (ci_stopped _ I Hc). congruence. }
  pose proof (oi_box _ _ _ (ci_out _ I)) as Io.
  unfold attempt. cbv zeta. destruct (of_option (utf8_encode _) _) as [text|]; [|done].
  destruct (map_error _ (EncryptedPayload_init _ _)) as [p|]; [|done].
  destruct (with_payload m p) as [m1|] eqn:Hpay; [|done]. cbn [map_error].
  set (s1 := set_outbox s _).
  assert (M1 : moves (cs_outbox s) (cs_outbox s1)) by by apply moves_bookkeeping.
  assert (I1 : chat_inv s1) by by apply set_outbox_inv.
  pose proof (carried_moves _ _ _ M1 (carried_payload _ _ _ _ Hcar Hpay)) as Hc1.
  pose proof (quiet_send env s1 (message_frame (cp (msg_id m)) (msg_sequence m) (cp (to_b64 p)))) as Hq.
  destruct (send_frame env s1 _) as [r s2]. cbn [snd] in Hq. pose proof (quiet_inv _ _ Hq I1) as I2.
  destruct Hq. assert (Io2 : outbox_inv (cs_outbox s2)) by apply (oi_box _ _ _ (ci_out _ I2)).
  destruct r as [[]|[]]; cbn [snd]; try done.
  - pose proof (mark_sent_keeps (cs_outbox s2) (msg_id m) (ev_now env) Io2) as Hk.
    pose proof (mark_sent_same_ids (cs_outbox s2) (msg_id m) (ev_now env) Io2) as Hs.
    destruct (Outbox.mark_sent _ _ _) as [sent ob]. cbn [snd] in Hk, Hs |- *.
    assert (I3 : chat_inv (set_outbox s2 ob)) by (apply set_outbox_inv; [done|by split]).
    assert (Hc3 : carried ob m1) by (eapply (carried_moves (cs_outbox s2)); [by split|by rewrite q_outbox0]).
    match goal with |- chat_inv (set_pump ?x _) => assert (Hx : quiet (set_outbox s2 ob) x) end.
    { destruct sent; [case_decide|]; done. }
    apply set_pump_inv; [by apply (quiet_inv _ _ Hx)| |].
    + rewrite (q_link _ _ Hx). cbn. rewrite q_link0. cbn. by rewrite Hc.
    + by rewrite (q_outbox _ _ Hx).
  - apply set_pump_inv; [apply set_outbox_inv; [done|by apply moves_bookkeeping]| |].
    + cbn. rewrite q_link0. cbn. by rewrite Hc.
    + cbn. eapply (carried_moves (cs_outbox s2)); [by apply moves_bookkeeping|by rewrite q_outbox0].
Qed.
Lemma pumping s : chat_inv s → cs_pump s ≠ NoPump → ln_closing (cs_link s) = false.
Proof.
  intros I Hp. destruct (ln_closing (cs_link s)) eqn:Hc; [|done]. by destruct (ci_stopped _ I Hc).
Qed.

(** [next_queued] hands out a stored message. *)
Lemma next_queued_carried ob now m ob' :
  outbox_inv ob → Outbox.next_queued ob now = (Ok (Some m), ob') → carried ob' m.
Proof.
  intros I H. pose proof (next_queued_from_spec ob (Outbox.ob_queued ob) now [] I eq_refl) as Hs.
  unfold Outbox.next_queued in H. rewrite H in Hs. destruct Hs as [[I' _] (m0 & _ & _ & _ & _ & _ & -> & _ & Hm & _)].
  { intros id m0 Hin. by apply elem_of_nil in Hin. }
  destruct (oi_msg ob' I' _ _ Hm) as (Hid & Hok & _). split; [done|]. eexists. split; [exact Hm|]. done.
Qed.

Lemma give_up_inv env s m : chat_inv s → ln_closing (cs_link s) = false → chat_inv (give_up_on env s m).
Proof.
  intros I Hc. unfold give_up_on. cbv zeta.
  assert (I1 : chat_inv (drop_waiter s (msg_id m))).
  { apply set_outbox_inv; [done|]. apply moves_bookkeeping, (oi_box _ _ _ (ci_out _ I)). }
  pose proof (oi_box _ _ _ (ci_out _ I1)) as Io.
  pose proof (mark_failed_keeps _ (msg_id m) no_ack (ev_now env) Io) as Hk.
  pose proof (mark_failed_same_ids _ (msg_id m) no_ack (ev_now env) Io) as Hs.
  destruct (Outbox.mark_failed _ _ _ _) as [failed ob]. cbn [snd] in *.
  assert (I2 : chat_inv (set_pump (set_outbox (drop_waiter s (msg_id m)) ob) PumpNext)).
  { apply set_pump_inv; [apply set_outbox_inv; [done|by split]| |done]. cbn. by rewrite Hc. }
  destruct failed; quietly.
Qed.

Lemma pump_step_inv env t s : chat_inv s → chat_inv (pump_step env t s).2.
Proof.
  intros I. pose proof (oi_box _ _ _ (ci_out _ I)) as Io. pose proof (oi_pump _ _ _ (ci_out _ I)) as Hcar.
  unfold pump_step. destruct (cs_pump s) as [| |m n|m n w] eqn:Hp; [done|..];
    pose proof (pumping s I ltac:(congruence)) as Hc; rewrite ?Hc; cbn in Hcar.
  - pose proof (next_queued_keeps (cs_outbox s) (ev_now env) Io) as Hk.
    pose proof (next_queued_same_ids (cs_outbox s) (ev_now env) Io) as Hs.
    destruct (Outbox.next_queued (cs_outbox s) (ev_now env)) as [r ob] eqn:Hn. cbn [snd] in Hk, Hs.
    assert (I1 : chat_inv (set_outbox s ob)) by (apply set_outbox_inv; [done|by split]). cbv zeta.
    destruct r as [[m|]|e]; cbn [snd]; (apply set_pump_inv; [done|cbn; by rewrite Hc|]); try done.
    cbn. by eapply next_queued_carried.
  - case_match; [by apply give_up_inv|]. case_match; [done|].
    destruct (key_bytes s) as [key|]; [|cbn [snd]; apply set_pump_inv; [done|by rewrite Hc|done]].
    pose proof (attempt_inv env s key m n I Hp) as Ha. destruct (attempt env s key m n) as [[r|e] s1]; [done|].
    cbn [snd] in *. by apply set_pump_inv.
  - assert (I1 : chat_inv (drop_waiter s (msg_id m))).
    { apply set_outbox_inv; [done|]. by apply moves_bookkeeping. }
    assert (Hd : ∀ n, chat_inv (set_pump (drop_waiter s (msg_id m)) (PumpAttempt m n))).
    { intros n0. apply set_pump_inv; [done|cbn; by rewrite Hc|]. cbn.
      eapply carried_moves; [|exact Hcar]. by apply moves_bookkeeping. }
    destruct w as [|r|]; cbn [snd].
    + case_match; [apply Hd|done].
    + apply set_pump_inv; [quietly|cbn; by rewrite Hc|done].
    + cbn [cs_link drop_waiter set_outbox]. rewrite Hc. apply Hd.
Qed.

Lemma start_inv env s peers : chat_inv s → chat_inv (start env s peers).2.
Proof.
  intros I. unfold start. destruct (guard_or _ _); [|done]. cbv zeta.
  assert (I1 : chat_inv (set_started s)) by by apply set_link_inv.
  destruct peers as [n|]; [|done]. cbn [of_option snd].
  assert (I2 : chat_inv (if 0 <? n then set_peer_present (set_started s) true else set_started s)).
  { case_match; [|done]. by apply set_link_inv. }
  set (s2 := if 0 <? n then _ else _) in *.
  destruct ((0 <? n) && _); [|quietly; by apply set_link_inv].
  match goal with |- context [initiate_handshake env ?x] => assert (Ix : chat_inv x) by (quietly; by apply set_link_inv);
    pose proof (initiate_inv env x Ix) as I4; destruct (initiate_handshake env x) as [[] s5]; exact I4 end.
Qed.

Lemma close_inv s : chat_inv s → chat_inv (close s).
Proof.
  intros I. unfold close. destruct (ln_closing (cs_link s)); [done|]. cbv zeta. quietly. destruct I. split; cbn.
  - done.
  - by split.
  - split; try done; [apply outbox_init_inv|apply ci_out0].
  - apply inbox_init_inv.
  - done.
Qed.

(** ** Runs *)

Inductive chat_op :=
| OpStart (env : Env) (peers : option Z)
| OpForward (channel : string) (body : unicode)
| OpBackground (env : Env)
| OpPeer (channel event : string)
| OpConnection (env : Env) (state : ConnectionState)
| OpWatchdog (env : Env)
| OpSend (env : Env) (text : unicode)
| OpTyping (env : Env) (keystroke : bool)
| OpRead (env : Env)
| OpPump (env : Env) (timeout : bool)
| OpDelegate (attached : bool)
| OpClose.

Definition run_op (s : ChatSession) (op : chat_op) : ChatSession :=
  match op with
  | OpStart env peers => (start env s peers).2
  | OpForward channel body => on_forward s channel body
  | OpBackground env => run_background env s
  | OpPeer channel event => on_peer s channel event
  | OpConnection env state => (on_connection_state env s state).2
  | OpWatchdog env => (watchdog env s).2
  | OpSend env text => (send_message env s text).2
  | OpTyping env keystroke => (notify_typing env s keystroke).2
  | OpRead env => (mark_read env s).2
  | OpPump env timeout => (pump_step env timeout s).2
  | OpDelegate attached => set_delegate s (if attached then Some [] else None)
  | OpClose => close s
  end.

Definition run_ops (s : ChatSession) (ops : list chat_op) : ChatSession := foldl run_op s ops.

Lemma on_forward_inv s channel body : chat_inv s → chat_inv (on_forward s channel body).
Proof.
  intros I. unfold on_forward. case_decide; [done|]. destruct (negb _ || ln_closing (cs_link s)) eqn:Hc; [done|].
  apply orb_false_iff in Hc as [_ Hc]. apply set_background_inv; [done|by rewrite Hc].
Qed.

Lemma run_op_inv s op : chat_inv s → chat_inv (run_op s op).
Proof.
  intros I. destruct op; cbn [run_op];
    auto using start_inv, on_forward_inv, run_background_inv, on_peer_inv, connection_inv, watchdog_inv,
      send_message_inv, notify_typing_inv, mark_read_inv, pump_step_inv, close_inv.
  quietly.
Qed.

Lemma init_chat_inv channel role name config history peer identity s :
  ChatSession_init channel role name config history peer identity = Ok s → chat_inv s.
Proof.
  unfold ChatSession_init. intros H. apply bind_Ok in H as (r & _ & H). apply bind_Ok in H as (n & Hn & H).
  apply bind_Ok in H as (p & Hp & H). apply bind_Ok in H as ([] & _ & H). apply bind_Ok in H as (ty & _ & H).
  injection H as <-.
  assert (Hmap : ∀ x y, map_error MessageFailed (validate_display_name x) = Ok y → validate_display_name y = Ok y).
  { intros x y Hx. destruct (validate_display_name x) as [z|] eqn:E; [|done]. injection Hx as <-.
    by eapply validate_name_idempotent. }
  split; cbn.
  - split; [by eapply Hmap|]. destruct peer as [[|c l]|]; [by injection Hp as <-|by eapply Hmap|by injection Hp as <-].
  - by split.
  - split; try done. apply outbox_init_inv.
  - apply inbox_init_inv.
  - done.
Qed.

Lemma run_ops_inv ops : ∀ s, chat_inv s → chat_inv (run_ops s ops).
Proof. induction ops as [|op ops IH]; intros s I; [done|]. cbn. by apply IH, run_op_inv. Qed.
End ops.
