(* ===== verification/ChatTheorems.v ===== *)
(** * Theorems about chat sessions

    The key exchange makes both sides ready under one key; a message goes
    from one session to the other and is acknowledged; the invariant of a
    session; its teardown. *)

From S2P Require Import Prelude Text Utf8 Primitives Crypto Ids Messages MessageTheorems Json ChannelFrames Handshake ChatSession ChatFrames ChatInvariant.

Open Scope Z_scope.

(** The body a session handed to the relay client last. *)
Definition last_body (s : ChatSession) : string := default "" (last (cs_sent s)).

Import InboxProofs OutboxProofs.

Section chat_proofs.
Context {P : Primitives} {L : PrimitiveLaws P} {K : KexPrimitives} {KL : KexLaws K}.

(** ** Sending and receiving *)

(** What a call draws is well formed, and the relay client takes the body. *)
Record env_ok (env : Env) : Prop := {
  eo_stamp : stamp_ok (ev_stamp env);
  eo_sends : ev_link env = Takes;
  eo_nonce : bytes_ok (ev_nonce env) ∧ length (ev_nonce env) = NONCE_BYTES;
  eo_hs_nonce : bytes_ok (ev_hs_nonce env) ∧ length (ev_hs_nonce env) = 16%nat;
}.

(** The session after a frame was put on the wire. *)
Definition sends (s s' : ChatSession) (f : Frame) : Prop :=
  ∃ raw, s' = set_sent s (cs_sent s ++ [b64encode raw]) ∧
    ∀ env r, dispatch env r (cp (b64encode raw)) = on_frame env r f.

Lemma send_travels env s f :
  env_ok env → travels (f (ev_stamp env)) →
  ∃ s', send_frame env s f = (Ok tt, s') ∧ sends s s' (f (ev_stamp env)).
Proof.
  intros He (raw & H1 & H2 & H3). unfold send_frame. rewrite H1. cbn [map_error]. rewrite (eo_sends _ He).
  eexists. split; [done|]. exists raw. split; [done|]. intros env' r. unfold dispatch.
  by rewrite H3, H2.
Qed.

Lemma send_quiet_travels env s f :
  env_ok env → travels (f (ev_stamp env)) →
  ∃ s', send_frame_quiet env s f = (Ok tt, s') ∧ sends s s' (f (ev_stamp env)).
Proof.
  intros He Ht. unfold send_frame_quiet. destruct (send_travels env s f He Ht) as (s' & -> & ?). by exists s'.
Qed.

Lemma sends_last s s' f env r : sends s s' f → dispatch env r (cp (last_body s')) = on_frame env r f.
Proof. intros (raw & -> & H). unfold last_body. cbn [cs_sent set_sent]. rewrite last_snoc. apply H. Qed.

(** ** Key exchange *)

(** What a session was created with: a display name as validation returns
    it and an identity key as the identity manager writes it. *)
Record self_ok (me : Self) : Prop := {
  se_name : validate_display_name (sf_display_name me) = Ok (sf_display_name me);
  se_scalar : Forall (λ c, is_scalar c = true) (sf_display_name me);
  se_identity : identity_hex (sf_identity me);
}.

Lemma validated_name n n' :
  validate_display_name n = Ok n' → n' = uni_strip n ∧ (1 <= length n' <= MAX_DISPLAY_NAME_LENGTH)%nat ∧
    existsb is_control n' = false.
Proof.
  unfold validate_display_name. intros H. apply bind_Ok in H as ([] & H1%guard_or_Ok & H).
  apply bind_Ok in H as ([] & H2%guard_or_Ok & [= <-]). breflect. split; [done|]. split; [lia|done].
Qed.

Definition side (me : Self) (env : Env) : Handshake :=
  Handshake_init (sf_channel me) (sf_display_name me) (sf_identity me) (ev_private env) (ev_hs_nonce env).

Lemma side_name me env : self_ok me → hs_display_name (side me env) = sf_display_name me.
Proof. intros []. symmetry. apply (validated_name _ _ se_name0). Qed.

Lemma side_of_self me env : self_ok me → env_ok env → side_ok (side me env).
Proof.
  intros Hs He. pose proof (side_name me env Hs) as Hn. destruct Hs as [Hv Hsc Hid]. split; try done.
  - apply x25519_public_ok.
  - apply He.
  - rewrite Hn. destruct (validated_name _ _ Hv) as (_ & ? & ?). by split.
Qed.

Lemma identity_hex_ok id : identity_hex id → identity_ok id.
Proof.
  destruct id as [s|]; [|done]. intros (k & Hk & Hl & ->). right. split; [apply hexdigest_ascii|].
  exists k. by rewrite fromhex_hexdigest.
Qed.

Lemma side_fresh me env : self_ok me → env_ok env → fresh_side (side me env) (ev_private env).
Proof. intros Hs He. apply Handshake_init_fresh; [apply He|apply identity_hex_ok, Hs]. Qed.

(** The name and identity a session learns from the other side's payload. *)
Lemma adopt_side s base me env :
  self_ok me → dget base (cp "name") = None → dget base (cp "idpub") = None →
  cs_peer (adopt_peer_identity (adopt_peer_name s (base ++ name_fields (side me env)))
             (base ++ name_fields (side me env))) =
  mkPeer (sf_display_name me) (if sf_identity me then sf_identity me else pe_identity (cs_peer s)).
Proof.
  intros Hs Hn Hi. pose proof (side_name me env Hs) as Hname. destruct Hs as [Hv _ Hid].
  assert (Hne : sf_display_name me ≠ []).
  { destruct (validated_name _ _ Hv) as (_ & Hl & _). intros E. rewrite E in Hl. cbn in Hl. lia. }
  unfold adopt_peer_identity, adopt_peer_name. rewrite !dget_app_None by done. unfold name_fields.
  rewrite Hname, decide_False by done. change (dget _ (cp "name")) with (Some (JStr (sf_display_name me))).
  cbv iota beta. rewrite Hv. unfold Handshake.presented. change (hs_idpub_hex (side me env)) with (sf_identity me).
  destruct (sf_identity me) as [h|]; [|reflexivity]. destruct Hid as (k & Hk & Hl & ->).
  rewrite decide_False. 2: { intros E. apply (f_equal str_len) in E. rewrite hexdigest_length, Hl in E. done. }
  change (dget _ (cp "idpub")) with (Some (JStr (cp (hexdigest k)))). cbv iota beta. unfold cp.
  rewrite (ascii_text_encode _ (hexdigest_ascii k)), (fromhex_hexdigest k Hk). by rewrite Hl.
Qed.

Lemma adopt_keys s p :
  cs_keys (adopt_peer_identity (adopt_peer_name s p) p) = cs_keys s ∧
  cs_sent (adopt_peer_identity (adopt_peer_name s p) p) = cs_sent s ∧
  cs_inbox (adopt_peer_identity (adopt_peer_name s p) p) = cs_inbox s ∧
  cs_self (adopt_peer_identity (adopt_peer_name s p) p) = cs_self s.
Proof. unfold adopt_peer_identity, adopt_peer_name. repeat case_match; done. Qed.

(** A session that holds the key of [secure] and may use it. *)
Definition secured (s : ChatSession) (secure : SecureSession) : Prop :=
  is_ready s = true ∧ ks_secure (cs_keys s) = Some secure ∧
  ks_session_key (cs_keys s) = Some (ss_session_key secure).

Lemma set_session_secured s secure :
  secured (set_session s secure) secure ∧ cs_peer (set_session s secure) = cs_peer s ∧
  cs_sent (set_session s secure) = cs_sent s ∧ cs_inbox (set_session s secure) = cs_inbox s.
Proof. unfold set_session, secured, is_ready. case_match; done. Qed.

Lemma agreed_key hi hr a b :
  fresh_side hi a → fresh_side hr b →
  ∃ key, derive_session_key a (hs_public hr) (ss_transcript (agreed hi hr key true)) = Some key ∧
    derive_session_key b (hs_public hi) (ss_transcript (agreed hi hr key false)) = Some key.
Proof.
  intros Hi Hr. rewrite (fs_public _ _ Hi), (fs_public _ _ Hr).
  destruct (session_keys_agree a b (ss_transcript (agreed hi hr [] true))) as (key & Ka & Kb).
  by exists key.
Qed.

(** The host's hello is on the wire. *)
Lemma initiate_sends env s :
  self_ok (cs_self s) → env_ok env → ln_closing (cs_link s) = false →
  let s' := (initiate_handshake env s).2 in
  (∃ s0, sends s0 s' (kex_hello_frame (hello_payload (side (cs_self s) env)) (ev_stamp env))) ∧
  ks_initiator (cs_keys s') = Some (side (cs_self s) env) ∧ cs_self s' = cs_self s ∧ cs_peer s' = cs_peer s.
Proof.
  intros Hs He Hc s'. subst s'. unfold initiate_handshake. rewrite Hc. fold (side (cs_self s) env).
  match goal with |- context [send_frame_quiet env ?s3 ?f] => set (s0 := s3) end.
  destruct (send_quiet_travels env s0 (kex_hello_frame (hello_payload (side (cs_self s) env))) He) as (s1 & -> & raw & E & Hraw).
  { apply kex_hello_travels; [apply He|by apply side_of_self]. }
  cbn [snd]. split; [by exists s0, raw|]. rewrite E. cbn [cs_keys cs_self cs_peer set_sent].
  subst s0. destruct (ks_secure (cs_keys s)); done.
Qed.

(** The length of a proof. *)
Lemma proof_size key nonce t :
  length nonce = NONCE_BYTES → length (seal key nonce (confirmation t) t) = 81%nat.
Proof.
  intros Hn. rewrite length_seal, Hn. unfold confirmation. rewrite length_app, sha256_length. reflexivity.
Qed.

(** The guest answers the hello and is ready. *)
Lemma hello_answered env s hi a st :
  self_ok (cs_self s) → env_ok env → sf_role (cs_self s) = GuestRole →
  fresh_side hi a → hs_channel hi = sf_channel (cs_self s) →
  ∃ key s0,
    let hr := side (cs_self s) env in
    let t := ss_transcript (agreed hi hr key true) in
    let s' := (on_frame env s (kex_hello_frame (hello_payload hi) st)).2 in
    derive_session_key a (hs_public hr) t = Some key ∧ secured s' (agreed hi hr key false) ∧
    cs_inbox s' = cs_inbox s ∧
    cs_peer s' = cs_peer (adopt_peer_identity (adopt_peer_name s (hello_payload hi)) (hello_payload hi)) ∧
    (∃ s1, s' = set_session s1 (agreed hi hr key false) ∧
      sends s0 s1 (kex_reply_frame (kex_base hr ++ [(cp "proof", JStr (cp (b64encode (seal key (ev_nonce env) (confirmation t) t))))]
                      ++ name_fields hr) (ev_stamp env))).
Proof.
  intros Hs He Hr Hi Hch. pose proof (side_fresh _ env Hs He) as Hf.
  destruct (agreed_key hi (side (cs_self s) env) a (ev_private env) Hi Hf) as (key & Ka & Kb).
  pose proof (answer_fresh hi (side (cs_self s) env) a (ev_private env) (ev_nonce env) key Hi Hf Hch Kb) as Hans.
  set (p := hello_payload hi). set (s1 := adopt_peer_identity (adopt_peer_name s p) p).
  set (s2 := if ks_secure (cs_keys s1) then bump s1 Rekeys else s1).
  set (t := ss_transcript (agreed hi (side (cs_self s) env) key false)) in *.
  set (reply := kex_base (side (cs_self s) env)
    ++ [(cp "proof", JStr (cp (b64encode (seal key (ev_nonce env) (confirmation t) t))))]
    ++ name_fields (side (cs_self s) env)).
  destruct (adopt_keys s p) as (Ek & Es & Ei & _). fold s1 in Ek, Es, Ei.
  destruct (send_quiet_travels env s2 (kex_reply_frame reply) He) as (s3 & Esend & raw & E & Hraw).
  { apply (kex_reply_travels (side (cs_self s) env)); [apply He|by apply side_of_self| | |].
    - apply seal_ok; [apply He|apply confirmation_ok].
    - intros E0. apply (f_equal length) in E0. rewrite proof_size in E0 by apply He. done.
    - rewrite proof_size by apply He. apply Nat.leb_le. reflexivity. }
  assert (Hon : on_frame env s (kex_hello_frame p st) = (Ok tt, set_session s3 (agreed hi (side (cs_self s) env) key false))).
  { change (handle_kex_hello env s (new_frame KEX_HELLO p 0 st) = (Ok tt, set_session s3 (agreed hi (side (cs_self s) env) key false))).
    unfold handle_kex_hello. cbn [fr_data new_frame]. rewrite decide_False by congruence.
    fold (side (cs_self s) env). subst p. cbv zeta in Hans |- *. rewrite Hans.
    change ((run? (_, x) := send_frame_quiet env s2 (kex_reply_frame reply) in
      (Ok tt, set_session x (agreed hi (side (cs_self s) env) key false)))
      = (Ok tt : result ChatError unit, set_session s3 (agreed hi (side (cs_self s) env) key false))). by rewrite Esend. }
  exists key, s2. cbv zeta. rewrite Hon. split; [done|]. cbn [snd].
  assert (H2 : cs_inbox s3 = cs_inbox s ∧ cs_peer s3 = cs_peer s1).
  { rewrite E. cbn [cs_inbox cs_peer set_sent]. subst s2. destruct (ks_secure (cs_keys s1)); done. }
  destruct H2 as [Hin Hpe].
  destruct (set_session_secured s3 (agreed hi (side (cs_self s) env) key false)) as (Hsec & H3 & H4 & H5).
  split; [exact Hsec|]. split; [by rewrite H5|]. split; [by rewrite H3|].
  exists s3. split; [done|]. by exists raw.
Qed.

(** The host accepts the reply and is ready. *)
Lemma reply_completes env s hi hr a b key nonce st :
  fresh_side hi a → fresh_side hr b → bytes_ok nonce → length nonce = NONCE_BYTES →
  ks_initiator (cs_keys s) = Some hi →
  let t := ss_transcript (agreed hi hr key true) in
  derive_session_key a (hs_public hr) t = Some key →
  let reply := kex_base hr ++ [(cp "proof", JStr (cp (b64encode (seal key nonce (confirmation t) t))))] ++ name_fields hr in
  let s' := (on_frame env s (kex_reply_frame reply st)).2 in
  secured s' (agreed hi hr key true) ∧ ks_initiator (cs_keys s') = None ∧
  cs_peer s' = cs_peer (adopt_peer_identity (adopt_peer_name s reply) reply).
Proof.
  intros Hi Hr Hn Hl Hini t Hk reply s'.
  pose proof (complete_fresh hi hr a key nonce Hi (ex_intro _ b Hr) Hn Hl Hk) as Hc.
  set (s1 := set_initiator s None). set (s2 := adopt_peer_identity (adopt_peer_name s1 reply) reply).
  assert (E : s' = set_session s2 (agreed hi hr key true)).
  { subst s'. change (on_frame env s (kex_reply_frame reply st)) with (handle_kex_reply s (new_frame KEX_REPLY reply 0 st)).
    unfold handle_kex_reply. rewrite Hini. cbn [fr_data new_frame]. change (complete hi reply = (Ok (agreed hi hr key true), set_used hi None)) in Hc.
    rewrite Hc. reflexivity. }
  destruct (set_session_secured s2 (agreed hi hr key true)) as (H1 & H2 & _). rewrite E.
  split; [done|]. split.
  - destruct (adopt_keys s1 reply) as (Ek & _). fold s2 in Ek. unfold set_session.
    case_match; cbn; by rewrite Ek.
  - rewrite H2. subst s2 s1. unfold adopt_peer_identity, adopt_peer_name. repeat case_match; done.
Qed.

(** C12: A key exchange over the wire makes both sessions ready: the host
    initiates, the guest dispatches the host's last body, the host
    dispatches the guest's.  Both then hold a session with the same key,
    transcript, conversation id and safety code, each has learnt the name
    (and identity key, when presented) the other was created with, and the
    host's single-use handshake is gone. *)
Theorem sessions_agree_on_a_key host guest env_h env_g env_h' :
  self_ok (cs_self host) → self_ok (cs_self guest) → env_ok env_h → env_ok env_g →
  sf_channel (cs_self host) = sf_channel (cs_self guest) →
  sf_role (cs_self guest) = GuestRole → ln_closing (cs_link host) = false →
  let host1 := (initiate_handshake env_h host).2 in
  let guest1 := (dispatch env_g guest (cp (last_body host1))).2 in
  let host2 := (dispatch env_h' host1 (cp (last_body guest1))).2 in
  ∃ sh sg, secured host2 sh ∧ secured guest1 sg ∧
    ss_session_key sh = ss_session_key sg ∧ ss_transcript sh = ss_transcript sg ∧
    ss_conversation_id sh = ss_conversation_id sg ∧ ss_fingerprint sh = ss_fingerprint sg ∧
    ks_initiator (cs_keys host2) = None ∧
    cs_peer guest1 = mkPeer (sf_display_name (cs_self host))
      (if sf_identity (cs_self host) then sf_identity (cs_self host) else pe_identity (cs_peer guest)) ∧
    cs_peer host2 = mkPeer (sf_display_name (cs_self guest))
      (if sf_identity (cs_self guest) then sf_identity (cs_self guest) else pe_identity (cs_peer host)).
Proof.
  intros Hh Hg Eh Eg Hch Hr Hcl host1 guest1 host2.
  destruct (initiate_sends env_h host Hh Eh Hcl) as ((s0 & Hs0) & Hini & Hself & Hpeer). fold host1 in Hs0, Hini, Hself, Hpeer.
  pose proof (side_fresh _ env_h Hh Eh) as Fi. pose proof (side_fresh _ env_g Hg Eg) as Fr.
  set (hi := side (cs_self host) env_h) in *. set (hr := side (cs_self guest) env_g) in *.
  destruct (hello_answered env_g guest hi (ev_private env_h) (ev_stamp env_h) Hg Eg Hr Fi Hch)
    as (key & r0 & Hk & Hsec & _ & Hpg & r1 & Er & Hs1). fold hr in Hk, Hsec, Er, Hs1.
  rewrite <- (sends_last _ _ _ env_g guest Hs0) in Hsec, Hpg, Er. fold guest1 in Hsec, Hpg, Er.
  assert (Hlb : last_body guest1 = last_body r1).
  { rewrite Er. unfold last_body. by destruct (set_session_secured r1 (agreed hi hr key false)) as (_ & _ & -> & _). }
  destruct (reply_completes env_h' host1 hi hr _ _ key (ev_nonce env_g) (ev_stamp env_g) Fi Fr
    (proj1 (eo_nonce _ Eg)) (proj2 (eo_nonce _ Eg)) Hini Hk) as (Hsec' & Hnone & Hph).
  rewrite <- (sends_last _ _ _ env_h' host1 Hs1), <- Hlb in Hsec', Hnone, Hph. fold host2 in Hsec', Hnone, Hph.
  exists (agreed hi hr key true), (agreed hi hr key false). split_and!; try done.
  - rewrite Hpg. exact (adopt_side guest (kex_base hi) (cs_self host) env_h Hh eq_refl eq_refl).
  - rewrite Hph. rewrite app_assoc. rewrite <- Hpeer. by apply adopt_side.
Qed.

(** ** The pump *)

(** What a constructed message promises. *)
Lemma message_ok_parts m :
  message_ok m → is_valid_message_id (msg_id m) = true ∧ 1 <= msg_sequence m ∧
    ∃ b, utf8_encode (msg_text m) = Some b ∧ (length b <= MAX_MESSAGE_TEXT_BYTES)%nat.
Proof.
  unfold message_ok, post_init. intros H. apply bind_Ok in H as ([] & H1%guard_or_Ok & H).
  apply bind_Ok in H as ([] & _ & H). apply bind_Ok in H as (t & Ht & H).
  apply bind_Ok in H as (? & _ & H). apply bind_Ok in H as (? & _ & H).
  apply bind_Ok in H as ([] & H2%guard_or_Ok & _). breflect. split; [done|]. split; [lia|].
  unfold validate_message_text in Ht. apply bind_Ok in Ht as ([] & _ & Ht). apply bind_Ok in Ht as ([] & _ & Ht).
  apply bind_Ok in Ht as (b & Hb%of_option_Ok & Ht). apply bind_Ok in Ht as ([] & Hl%guard_or_Ok & _). breflect. by exists b.
Qed.

(** The frame of an attempt and the message kept by the pump. *)
Lemma attempt_sends env key m :
  stamp_ok (ev_stamp env) → bytes_ok (ev_nonce env) → length (ev_nonce env) = NONCE_BYTES →
  message_ok m → small_int (msg_sequence m) →
  ∃ text, utf8_encode (msg_text m) = Some text ∧
    let aad := message_aad (msg_id m) (msg_sequence m) in
    let p := mkPayload (seal key (ev_nonce env) text aad) aad in
    let f := message_frame (cp (msg_id m)) (msg_sequence m) (cp (to_b64 p)) in
    travels (f (ev_stamp env)) ∧ EncryptedPayload_init (ep_sealed p) aad = Ok p ∧
    ∃ m1, with_payload m p = Ok m1 ∧ message_ok m1 ∧ msg_id m1 = msg_id m ∧ msg_sequence m1 = msg_sequence m ∧
      msg_text m1 = msg_text m ∧ msg_status m1 = msg_status m.
Proof.
  intros Hst Hn Hl Hok Hs. destruct (message_ok_parts m Hok) as (Hid & _ & b & Hb & Hlen).
  exists b. split; [done|]. cbv zeta. set (aad := message_aad _ _). set (sealed := seal key (ev_nonce env) b aad).
  assert (Hlen' : length sealed = (28 + length b)%nat) by (subst sealed; rewrite length_seal, Hl; unfold NONCE_BYTES; lia).
  assert (Hne : sealed ≠ []) by (intros E; rewrite E in Hlen'; cbn in Hlen'; lia).
  split; [|split].
  - apply message_frame_travels; [done|done|done| |done|].
    + apply seal_ok; [done|by eapply utf8_encode_ok].
    + cbn [ep_sealed]. rewrite Hlen'. apply (Nat.le_trans _ (28 + MAX_MESSAGE_TEXT_BYTES)); [by apply Nat.add_le_mono_l|].
      by apply Nat.leb_le.
  - unfold EncryptedPayload_init. cbn [ep_sealed]. by rewrite bool_decide_false.
  - exists (mkMessage (msg_id m) (msg_conversation_id m) (msg_direction m) (msg_sender m) (msg_recipient m)
      (msg_text m) (msg_sequence m) (msg_status m) (msg_created_at m) (msg_delivered_at m) (msg_read_at m)
      (Some (mkPayload sealed aad)) (msg_error m)).
    unfold with_payload, message_ok, post_init in *.
    cbn [msg_id msg_conversation_id msg_direction msg_sender msg_recipient msg_text msg_sequence msg_status].
    repeat (apply bind_Ok in Hok as (? & Hx & Hok); rewrite Hx; clear Hx; cbn [mbind result_bind]).
    done.
Qed.

Lemma carried_small ob next m :
  carried ob m → (∀ id m0, dget (Outbox.ob_messages ob) id = Some m0 → msg_sequence m0 < next) →
  next <= 10 ^ 100 → small_int (msg_sequence m).
Proof.
  intros (Hok & m' & Hm & Hs & _) Hb Hn. destruct (message_ok_parts m Hok) as (_ & H1 & _).
  pose proof (Hb _ _ Hm). split; lia.
Qed.

Lemma pump_step_ok env timeout s :
  chat_inv s → stamp_ok (ev_stamp env) → bytes_ok (ev_nonce env) → length (ev_nonce env) = NONCE_BYTES →
  cs_next_sequence s <= 10 ^ 100 → ev_link env ≠ SocketFails → is_ok (pump_step env timeout s).1 = true.
Proof.
  intros I Hst Hn Hl Hseq Hlink. pose proof (oi_box _ _ _ (ci_out _ I)) as Io. pose proof (oi_pump _ _ _ (ci_out _ I)) as Hcar.
  unfold pump_step. destruct (cs_pump s) as [| |m n|m n w] eqn:Hp; [done|..];
    pose proof (pumping s I ltac:(congruence)) as Hc; rewrite ?Hc.
  - pose proof (next_queued_from_spec _ (Outbox.ob_queued (cs_outbox s)) (ev_now env) [] Io eq_refl) as Hq.
    unfold Outbox.next_queued. destruct (Outbox.next_queued_from _ _ _) as [[[m|]|e] ob]; [done|done|].
    destruct Hq as [_ []]. intros id m Hin. by apply elem_of_nil in Hin.
  - case_match; [done|]. case_match; [done|]. destruct (key_bytes s) as [key|]; [|done]. cbn in Hcar.
    pose proof (carried_small _ _ m Hcar (oi_below _ _ _ (ci_out _ I)) Hseq) as Hs.
    destruct (attempt_sends env key m Hst Hn Hl (proj1 Hcar) Hs) as (text & Ht & (raw & Henc & _) & Hep & m1 & Hpay & _).
    unfold attempt. rewrite Ht. cbn [of_option]. cbn [ep_sealed] in Hep. cbv zeta. rewrite Hep. cbn [map_error].
    rewrite Hpay. unfold send_frame. rewrite Henc. cbn [map_error]. destruct (ev_link env); [|done..].
    by destruct (Outbox.mark_sent _ _ _).
  - destruct w; [by case_match|done|done].
Qed.

(** The send pump outlives everything but a failing socket: in every state a
    session can reach, whatever it was told before, the pump's next step raises
    nothing: it finds every message it holds, every transition it makes is
    allowed, and every frame it builds is valid and fits the frame size.
    [ChatDelivery.socket_failure_stops_pump] shows the exception. *)
Theorem pump_never_dies channel role name config history peer identity s0 ops env timeout :
  ChatSession_init channel role name config history peer identity = Ok s0 →
  stamp_ok (ev_stamp env) → bytes_ok (ev_nonce env) → length (ev_nonce env) = NONCE_BYTES →
  cs_next_sequence (run_ops s0 ops) <= 10 ^ 100 → ev_link env ≠ SocketFails →
  is_ok (pump_step env timeout (run_ops s0 ops)).1 = true.
Proof. intros H. intros. apply pump_step_ok; try done. by eapply run_ops_inv, init_chat_inv. Qed.

(** C14: The invariant of a session, after any sequence of calls and
    deliveries in any order: the key in memory is the key of the verified
    exchange (and absent without one), a session that reports itself ready
    has one, outgoing sequence numbers are unique and below the next, and
    once closed a session holds no key, no pump and no scheduled task. *)
Theorem chat_session_invariant channel role name config history peer identity s0 ops :
  ChatSession_init channel role name config history peer identity = Ok s0 →
  let s := run_ops s0 ops in
  ks_session_key (cs_keys s) = ss_session_key <$> ks_secure (cs_keys s) ∧
  (is_ready s = true → is_Some (ks_session_key (cs_keys s))) ∧
  (∀ id id' m m', dget (Outbox.ob_messages (cs_outbox s)) id = Some m →
    dget (Outbox.ob_messages (cs_outbox s)) id' = Some m' → msg_sequence m = msg_sequence m' → id = id') ∧
  (∀ id m, dget (Outbox.ob_messages (cs_outbox s)) id = Some m → 1 <= msg_sequence m < cs_next_sequence s) ∧
  (ln_closing (cs_link s) = true →
    ks_session_key (cs_keys s) = None ∧ ks_secure (cs_keys s) = None ∧ cs_pump s = NoPump ∧ cs_background s = []).
Proof.
  intros H s. assert (I : chat_inv s) by by eapply run_ops_inv, init_chat_inv.
  destruct (ci_keys _ I) as [Hk Hr _ Hcl]. split_and!.
  - done.
  - intros Hready. rewrite Hk. destruct (Hr Hready) as [x ->]. by eexists.
  - apply (ci_out _ I).
  - intros id m Hm. split; [|by eapply (ci_out _ I)].
    destruct (oi_msg _ (oi_box _ _ _ (ci_out _ I)) _ _ Hm) as (_ & Hok & _). by apply message_ok_parts.
  - intros Hc. rewrite Hk, (Hcl Hc). by destruct (ci_stopped _ I Hc).
Qed.
End chat_proofs.
