(* ===== verification/ChatDelivery.v ===== *)
(** * Delivery of a message from one session to another

    The path of one message: sealed and sent by the pump, opened, surfaced
    and acknowledged by the peer, marked delivered by the sender. *)

From S2P Require Import Prelude Text Utf8 Primitives Crypto Ids Messages MessageTheorems Json ChannelFrames Handshake ChatSession ChatFrames ChatInvariant ChatTheorems.

Open Scope Z_scope.

Import InboxProofs OutboxProofs.

Lemma utf8_encode_ascii s : Forall (λ c, 0 <= c < 128) s → utf8_encode s = Some s.
Proof.
  induction 1 as [|c s Hc _ IH]; [done|]. cbn [utf8_encode]. unfold is_scalar, utf8_char.
  rewrite (proj2 (Z.leb_le 0 c)), (proj2 (Z.ltb_lt c 55296)), (proj2 (Z.ltb_lt c 128)) by lia.
  cbn [andb orb]. by rewrite IH.
Qed.

Lemma encode_app a b : encode (a +:+ b) = encode a ++ encode b.
Proof. unfold encode. by rewrite chars_app, fmap_app. Qed.

Lemma ascii_string_codes s : ascii_string s → Forall (λ c, 0 <= c < 128) (cp s).
Proof.
  intros H. apply Forall_fmap. eapply Forall_impl; [exact H|]. intros c Hc. cbn in *.
  destruct (code_bound c). lia.
Qed.

Lemma digits_codes z : 0 <= z → Forall (λ c, 0 <= c < 128) (cp (str_of_Z z)).
Proof.
  intros Hz. apply Forall_fmap. eapply Forall_impl; [by apply str_of_Z_digits|]. intros c Hc. cbn.
  unfold is_digit in Hc. breflect. lia.
Qed.

(** The associated data the receiver builds is the sender's. *)
Lemma received_aad_ok id seq :
  ascii_string id → 0 <= seq → received_aad (cp id) seq = Some (message_aad id seq).
Proof.
  intros Hid Hs. unfold received_aad, message_aad. unfold cp. rewrite <- !encode_app.
  rewrite ascii_text_encode; [done|]. unfold ascii_string. rewrite !chars_app. apply Forall_app. split; [exact Hid|].
  apply Forall_app. split; [repeat constructor; vm_compute; congruence|].
  eapply Forall_impl; [by apply str_of_Z_digits|]. intros c Hc. unfold is_digit in Hc. breflect. cbn in *. lia.
Qed.

Lemma generated_id_valid r : bytes_ok r → length r = 8%nat → is_valid_message_id (generate_message_id r) = true.
Proof.
  intros Hr Hl. unfold is_valid_message_id, generate_message_id, message_id_pattern. rewrite chars_app.
  apply fullmatch_app; [apply fullmatch_lit|]. apply fullmatch_replicate; [|by apply hexdigest_hex].
  pose proof (hexdigest_length r) as H. unfold str_len in H. by rewrite H, Hl.
Qed.

Section delivery.
Context {P : Primitives} {L : PrimitiveLaws P} {K : KexPrimitives} {KL : KexLaws K}.

(** ** The receiver *)

(** The message a receiver makes of what it opened. *)
Definition incoming (env : Env) (r : ChatSession) (sec : SecureSession) (id : string) (text : unicode) (seq : Z)
    : Message :=
  mkMessage id (ss_conversation_id sec) INCOMING (pe_name (cs_peer r)) (sf_display_name (cs_self r)) text seq
    DELIVERED (ev_now env) None None None None.

Lemma incoming_ok env r sec id text seq :
  chat_inv r → ks_secure (cs_keys r) = Some sec → is_valid_message_id id = true →
  validate_message_text text = Ok text → 1 <= seq → message_ok (incoming env r sec id text seq).
Proof.
  intros I Hs Hid Ht Hq. unfold message_ok, post_init. cbn [incoming msg_id msg_conversation_id msg_direction msg_sender
    msg_recipient msg_text msg_sequence msg_status].
  destruct (ci_names _ I) as [H1 H2]. rewrite Hid, (ki_conv _ _ (ci_keys _ I) _ Hs), Ht, H1, H2.
  rewrite (proj2 (Z.ltb_ge _ _) Hq). done.
Qed.

(** What the sender sealed is opened, whatever the inbox then says of it. *)
Lemma message_opens env r sec id text b seq nonce st :
  chat_inv r → ks_secure (cs_keys r) = Some sec → is_valid_message_id id = true →
  validate_message_text text = Ok text → utf8_encode text = Some b → 1 <= seq →
  bytes_ok nonce → length nonce = NONCE_BYTES →
  let f := message_frame (cp id) seq (cp (b64encode (seal (ss_session_key sec) nonce b (message_aad id seq)))) st in
  let m := incoming env r sec id text seq in
  ∃ v ms ib, Inbox.accept (cs_inbox r) m (ev_now env) = Some (v, ms, ib) ∧
    on_frame env r f =
      (run? (_, s1) := send_frame_quiet env (set_inbox r ib) (message_ack_frame (cp id) seq) in
       let s2 := bump s1 AcksSent in (Ok tt, match v with Inbox.DUPLICATE => s2 | _ => foldl surface s2 ms end)).
Proof.
  intros I Hs Hid Ht Hb Hq Hn Hl f m. destruct (message_id_plain id Hid) as (_ & _ & Ha).
  assert (Hkey : key_bytes r = Some (ss_session_key sec)).
  { unfold key_bytes. by rewrite (ki_key _ _ (ci_keys _ I)), Hs. }
  destruct (accept_total (cs_inbox r) m (ev_now env) (ci_in _ I)) as (v & ms & ib & Hacc & _).
  exists v, ms, ib. split; [done|]. cbv zeta.
  change (on_frame env r f) with (handle_message env r f).
  unfold handle_message. rewrite Hkey, Hs. subst f. cbn [message_frame new_frame fr_data fr_sequence].
  set (sealed := seal _ _ _ _). change (text_of _ "id") with (cp id). change (text_of _ "ct") with (cp (b64encode sealed)).
  cbv zeta. rewrite (received_aad_ok id seq Ha) by lia. cbn [of_option].
  assert (Ho : open_message env r (ss_session_key sec) sec (cp id) (cp (b64encode sealed)) seq (message_aad id seq) = Ok m).
  { unfold open_message, cp. rewrite (ascii_text_encode _ (b64encode_ascii sealed)), (ascii_text_encode _ Ha).
    cbn [of_option mbind result_bind]. unfold from_b64, EncryptedPayload_init.
    assert (Hok : bytes_ok sealed) by (apply seal_ok; [done|by eapply utf8_encode_ok]).
    rewrite (b64_roundtrip sealed Hok). cbn [of_option mbind result_bind].
    rewrite bool_decide_false.
    2: { intros E. apply (f_equal length) in E. subst sealed. rewrite length_seal in E. cbn in E. lia. }
    cbn [negb guard_or mbind result_bind refuse ep_sealed]. subst sealed. rewrite open_seal by done.
    cbn [of_option mbind result_bind]. rewrite (utf8_roundtrip text b Hb). cbn [of_option mbind result_bind].
    pose proof (incoming_ok env r sec id text seq I Hs Hid Ht Hq) as Hm. unfold message_ok in Hm.
    unfold incoming in Hm. by rewrite Hm. }
  rewrite Ho, Hacc. destruct (send_frame_quiet _ _ _) as [[] s1]; [by destruct v|done].
Qed.

(** Surfaced messages reach the UI in order. *)
Lemma surface_events ms : ∀ s,
  cs_events (foldl surface s ms) = cs_events s ++ ((λ m, mkEvent MESSAGE [] (Some m)) <$> ms) ∧
  cs_sent (foldl surface s ms) = cs_sent s.
Proof.
  induction ms as [|m ms IH]; intros s; [by rewrite app_nil_r|]. cbn [foldl]. destruct (IH (surface s m)) as [-> ->].
  cbn. by rewrite <- app_assoc.
Qed.

(** A received message: what the peer's dispatch of it shows and answers. *)
Lemma message_received env r sec id text b seq nonce st :
  env_ok env → small_int seq → chat_inv r → ks_secure (cs_keys r) = Some sec → is_valid_message_id id = true →
  validate_message_text text = Ok text → utf8_encode text = Some b → 1 <= seq →
  bytes_ok nonce → length nonce = NONCE_BYTES →
  let f := message_frame (cp id) seq (cp (b64encode (seal (ss_session_key sec) nonce b (message_aad id seq)))) st in
  let r' := (on_frame env r f).2 in
  ∃ v ms ib, Inbox.accept (cs_inbox r) (incoming env r sec id text seq) (ev_now env) = Some (v, ms, ib) ∧
    cs_inbox r' = ib ∧
    cs_events r' = cs_events r ++ (match v with Inbox.DUPLICATE => [] | _ => (λ m, mkEvent MESSAGE [] (Some m)) <$> ms end) ∧
    (∀ env' s, dispatch env' s (cp (last_body r')) = on_frame env' s (message_ack_frame (cp id) seq (ev_stamp env))).
Proof.
  intros He Hsm I Hs Hid Ht Hb Hq Hn Hl f r'.
  destruct (message_opens env r sec id text b seq nonce st I Hs Hid Ht Hb Hq Hn Hl) as (v & ms & ib & Hacc & Hon).
  exists v, ms, ib. split; [done|]. cbv zeta in Hon. fold f in Hon. subst r'. rewrite Hon.
  destruct (send_quiet_travels env (set_inbox r ib) (message_ack_frame (cp id) seq) He) as (s1 & Es & Hsend).
  { by apply message_ack_frame_travels; [apply He|..]. }
  pose proof (quiet_send_quiet env (set_inbox r ib) (message_ack_frame (cp id) seq)) as Hq1. rewrite Es in Hq1 |- *.
  cbn [snd] in Hq1 |- *.
  assert (He1 : cs_events s1 = cs_events r) by (by destruct Hsend as (raw & -> & _)).
  destruct (surface_events ms (bump s1 AcksSent)) as [E1 E2].
  assert (Hi : cs_inbox s1 = ib) by (by rewrite (q_inbox _ _ Hq1)).
  assert (Hi2 : cs_inbox (foldl surface (bump s1 AcksSent) ms) = ib).
  { rewrite (q_inbox _ _ (quiet_fold surface ms quiet_surface _)). done. }
  split; [by destruct v|]. split.
  - destruct v; [by rewrite E1, <- He1|by rewrite E1, <- He1|by rewrite app_nil_r].
  - intros env' s. rewrite <- (sends_last _ _ _ env' s Hsend).
    destruct v; unfold last_body; [by rewrite E2|by rewrite E2|done].
Qed.

(** ** The sender *)

Definition stored (s : ChatSession) (id : string) : option Message := dget (Outbox.ob_messages (cs_outbox s)) id.

(** The stored message after [mark_sent]. *)
Definition after_sent (m : Message) (now : Z) : Message :=
  if decide (msg_status m = SENDING) then set_status m SENT None now else m.

Lemma mark_sent_stored ob id m now :
  outbox_inv ob → dget (Outbox.ob_messages ob) id = Some m →
  ∃ ob', Outbox.mark_sent ob id now = (Some (after_sent m now), ob') ∧
    dget (Outbox.ob_messages ob') id = Some (after_sent m now) ∧ Outbox.ob_waiters ob' = Outbox.ob_waiters ob.
Proof.
  intros I Hm. unfold Outbox.mark_sent, after_sent. rewrite Hm.
  destruct (decide (msg_status m = SENDING)) as [Hs|Hs]; [|by exists ob].
  unfold Outbox.transition. rewrite Hm. destruct (oi_msg ob I id m Hm) as (Hid & Hok & Hout).
  assert (Hterm : is_terminal m = false) by (unfold is_terminal; by rewrite Hout, Hs).
  rewrite Hterm, (with_status_out ob id m SENT None now I Hm), Hs, decide_True by (simpl; set_solver).
  eexists. split; [done|]. cbn. rewrite dget_dset. by rewrite decide_True.
Qed.

(** One attempt puts the sealed message on the wire and waits. *)
Lemma attempt_step env timeout s m n sec st0 :
  env_ok env → chat_inv s → cs_pump s = PumpAttempt m n → (n <= cc_resend_attempts (sf_config (cs_self s)))%nat →
  sendable s = true → ks_secure (cs_keys s) = Some sec → cs_next_sequence s <= 10 ^ 100 →
  stored s (msg_id m) = Some st0 →
  ∃ s' m1 b, pump_step env timeout s = (Ok tt, s') ∧ cs_pump s' = PumpAck m1 n Pending ∧
    msg_id m1 = msg_id m ∧ utf8_encode (msg_text m) = Some b ∧
    stored s' (msg_id m) = Some (after_sent st0 (ev_now env)) ∧
    Outbox.ob_waiters (cs_outbox s') = dset (Outbox.ob_waiters (cs_outbox s)) (msg_id m) tt ∧
    ∀ env' r, dispatch env' r (cp (last_body s')) =
      on_frame env' r (message_frame (cp (msg_id m)) (msg_sequence m)
        (cp (b64encode (seal (ss_session_key sec) (ev_nonce env) b (message_aad (msg_id m) (msg_sequence m)))))
        (ev_stamp env)).
Proof.
  intros He I Hp Hn Hsend Hs Hseq Hst. pose proof (oi_pump _ _ _ (ci_out _ I)) as Hcar. rewrite Hp in Hcar. cbn in Hcar.
  pose proof (carried_small _ _ m Hcar (oi_below _ _ _ (ci_out _ I)) Hseq) as Hsm.
  destruct (attempt_sends env (ss_session_key sec) m (eo_stamp _ He) (proj1 (eo_nonce _ He)) (proj2 (eo_nonce _ He))
    (proj1 Hcar) Hsm) as (b & Hb & Htr & Hep & m1 & Hpay & _ & Hid & _).
  set (aad := message_aad (msg_id m) (msg_sequence m)) in *. set (sealed := seal _ _ b aad) in *. cbn [ep_sealed] in Hep.
  set (s1 := set_outbox s (Outbox.register_ack_waiter (cs_outbox s) (msg_id m))).
  destruct (send_travels env s1 (message_frame (cp (msg_id m)) (msg_sequence m) (cp (b64encode sealed))) He Htr)
    as (s2 & Es & Hsends).
  assert (Ho2 : cs_outbox s2 = Outbox.register_ack_waiter (cs_outbox s) (msg_id m)) by (by destruct Hsends as (raw & -> & _)).
  assert (I2 : outbox_inv (cs_outbox s2)).
  { rewrite Ho2. apply moves_bookkeeping, (oi_box _ _ _ (ci_out _ I)). }
  destruct (mark_sent_stored (cs_outbox s2) (msg_id m) st0 (ev_now env) I2) as (ob & Hms & Hget & Hw); [by rewrite Ho2|].
  unfold pump_step. rewrite Hp. rewrite (proj2 (Nat.ltb_ge _ _) Hn).
  rewrite (pumping s I ltac:(congruence)), Hsend. cbn [negb].
  unfold key_bytes. rewrite (ki_key _ _ (ci_keys _ I)), Hs. cbn [fmap option_fmap option_map].
  unfold attempt. fold aad. rewrite Hb. cbn [of_option]. cbv zeta. fold sealed. rewrite Hep. cbn [map_error].
  rewrite Hpay. change (to_b64 (mkPayload sealed aad)) with (b64encode sealed). fold s1. rewrite Es, Hms.
  eexists _, m1, b. split; [reflexivity|]. split; [reflexivity|]. split; [done|]. split; [done|].
  assert (Hx : ∀ x, quiet (set_outbox s2 ob) x → stored x (msg_id m) = Some (after_sent st0 (ev_now env)) ∧
    Outbox.ob_waiters (cs_outbox x) = dset (Outbox.ob_waiters (cs_outbox s)) (msg_id m) tt).
  { intros x Hx. unfold stored. rewrite (q_outbox _ _ Hx). cbn. rewrite Hw, Ho2. done. }
  match goal with |- context [set_pump ?y _] =>
    assert (Hq : quiet (set_outbox s2 ob) y) by (case_decide; done); destruct (Hx y Hq) as [Hx1 Hx2] end.
  split; [exact Hx1|]. split; [exact Hx2|].
  intros env' r. etrans; [|exact (sends_last _ _ _ env' r Hsends)]. unfold last_body. by case_decide.
Qed.

(** The acknowledgement of a message that is out resolves the pump's wait. *)
Lemma ack_step env s m n st0 seq st :
  chat_inv s → cs_pump s = PumpAck m n Pending → is_valid_message_id (msg_id m) = true →
  stored s (msg_id m) = Some st0 → msg_status st0 = SENT →
  dict_wf (Outbox.ob_waiters (cs_outbox s)) → dmem (Outbox.ob_waiters (cs_outbox s)) (msg_id m) = true →
  let d := set_status st0 DELIVERED None (ev_now env) in
  let s' := (on_frame env s (message_ack_frame (cp (msg_id m)) seq st)).2 in
  cs_pump s' = PumpAck m n (Resolved d) ∧ stored s' (msg_id m) = Some d.
Proof.
  intros I Hp Hid Hst Hs Hwf Hw d s'. destruct (message_id_plain _ Hid) as (_ & _ & Ha).
  pose proof (oi_box _ _ _ (ci_out _ I)) as Io. destruct (oi_msg _ Io _ _ Hst) as (Hid0 & Hok & Hout).
  assert (E : s' = (handle_ack env s (message_ack_frame (cp (msg_id m)) seq st)).2) by done. rewrite E. clear E s'.
  unfold handle_ack. change (text_of _ "id") with (cp (msg_id m)). unfold cp. rewrite (ascii_text_encode _ Ha), Hw.
  unfold Outbox.mark_delivered. unfold stored in Hst. rewrite Hst, Hs.
  assert (Hterm : is_terminal st0 = false) by (unfold is_terminal; by rewrite Hout, Hs).
  rewrite bool_decide_false by set_solver. rewrite Hterm, decide_False by done. unfold Outbox.transition.
  rewrite Hst, Hterm, (with_status_out _ _ _ DELIVERED None (ev_now env) Io Hst), Hs, decide_True by (simpl; set_solver).
  cbn [Outbox.put Outbox.ob_waiters Outbox.ob_messages Outbox.ob_queued Outbox.ob_delivered_sequences].
  assert (Hnw : dmem (dpop (Outbox.ob_waiters (cs_outbox s)) (msg_id m)) (msg_id m) = false).
  { apply dmem_false. rewrite dget_dpop by done. by rewrite decide_True. }
  rewrite Hnw. cbn [andb negb]. unfold resolve. cbn [cs_pump set_outbox]. rewrite Hp, decide_True by done.
  split; [done|]. unfold stored. cbn. rewrite dget_dset. by rewrite decide_True.
Qed.


(** The message a session queues. *)
Definition outgoing (env : Env) (s : ChatSession) (sec : SecureSession) (text : unicode) : Message :=
  mkMessage (generate_message_id (ev_random env)) (ss_conversation_id sec) OUTGOING (sf_display_name (cs_self s))
    (pe_name (cs_peer s)) text (cs_next_sequence s) QUEUED (ev_now env) None None None None.

Lemma outgoing_ok env s sec text :
  chat_inv s → ks_secure (cs_keys s) = Some sec → bytes_ok (ev_random env) → length (ev_random env) = 8%nat →
  validate_message_text text = Ok text → message_ok (outgoing env s sec text).
Proof.
  intros I Hs Hr Hl Ht. unfold message_ok, post_init. cbn [outgoing msg_id msg_conversation_id msg_direction msg_sender
    msg_recipient msg_text msg_sequence msg_status].
  destruct (ci_names _ I) as [H1 H2]. rewrite (generated_id_valid _ Hr Hl), (ki_conv _ _ (ci_keys _ I) _ Hs), Ht, H1, H2.
  pose proof (oi_next _ _ _ (ci_out _ I)) as Hn. by rewrite (proj2 (Z.ltb_ge _ _) Hn).
Qed.

(** An idle session takes a message to its pump. *)
Lemma send_and_take env env' timeout s sec text :
  let m := outgoing env s sec text in
  chat_inv s → ks_secure (cs_keys s) = Some sec → bytes_ok (ev_random env) → length (ev_random env) = 8%nat →
  validate_message_text text = Ok text → cs_pump s = NoPump → Outbox.ob_queued (cs_outbox s) = [] →
  stored s (msg_id m) = None →
  let s1 := (send_message env s text).2 in
  let s2 := (pump_step env' timeout s1).2 in
  let m2 := set_status m SENDING None (ev_now env') in
  (send_message env s text).1 = Ok m ∧ chat_inv s1 ∧ chat_inv s2 ∧ cs_pump s2 = PumpAttempt m2 1 ∧
  stored s2 (msg_id m) = Some m2 ∧ cs_next_sequence s2 = cs_next_sequence s + 1 ∧
  cs_keys s2 = cs_keys s ∧ cs_link s2 = cs_link s ∧ cs_self s2 = cs_self s ∧
  Outbox.ob_waiters (cs_outbox s2) = Outbox.ob_waiters (cs_outbox s).
Proof.
  intros m I Hs Hr Hl Ht Hp Hq Hnew s1 s2 m2. pose proof (outgoing_ok env s sec text I Hs Hr Hl Ht) as Hok. fold m in Hok.
  assert (E1 : send_message env s text = (Ok m, set_pump (set_outbox (set_next_sequence s (cs_next_sequence s + 1))
    (Outbox.set_queued (Outbox.put (cs_outbox s) m) [msg_id m])) PumpNext)).
  { unfold send_message. rewrite Hs. cbn [of_option]. fold (outgoing env s sec text). fold m. rewrite Hok. cbn [map_error].
    cbv zeta. cbn [cs_outbox set_next_sequence]. unfold Outbox.enqueue.
    rewrite (proj2 (dmem_false _ _) Hnew). cbn [negb guard_or]. rewrite bool_decide_true by done. cbn [guard_or].
    rewrite Hq. cbn [app]. unfold ensure_pump. cbn [cs_pump set_outbox set_next_sequence]. by rewrite Hp. }
  assert (I1 : chat_inv s1) by (subst s1; by apply send_message_inv).
  assert (I2 : chat_inv s2) by (subst s2; by apply pump_step_inv).
  assert (Hget : dget (dset (Outbox.ob_messages (cs_outbox s)) (msg_id m) m) (msg_id m) = Some m).
  { rewrite dget_dset. by rewrite decide_True. }
  assert (Hw : with_status m SENDING None (ev_now env') = Ok m2).
  { rewrite (with_status_ok m SENDING None (ev_now env') Hok). by rewrite decide_True by (simpl; set_solver). }
  assert (E2 : pump_step env' timeout s1 = (Ok tt, set_pump (set_outbox s1
    (Outbox.put (Outbox.set_queued (cs_outbox s1) []) m2)) (PumpAttempt m2 1))).
  { subst s1. rewrite E1. cbn [snd]. unfold pump_step. cbn [cs_pump set_pump].
    cbn [cs_link set_pump set_outbox set_next_sequence]. rewrite (not_closing s sec I Hs).
    unfold Outbox.next_queued. cbn [cs_outbox set_pump set_outbox Outbox.ob_queued Outbox.set_queued].
    cbn [Outbox.next_queued_from Outbox.ob_messages Outbox.put Outbox.set_queued]. rewrite Hget.
    destruct (decide (msg_status m = QUEUED)) as [_|Hn]; [|by destruct Hn]. rewrite Hw. reflexivity. }
  subst s2. rewrite E2. cbn [snd]. split; [by rewrite E1|]. split; [done|]. rewrite E2 in I2. split; [done|].
  split; [done|]. subst s1. rewrite E1. cbn [snd]. split.
  - unfold stored. cbn. rewrite !dget_dset. by rewrite decide_True.
  - done.
Qed.

(** The path of a message, whatever the receiver's inbox makes of it. *)
Lemma message_exchange a b sa sb text e1 e2 e3 e4 e5 e6 :
  chat_inv a → chat_inv b →
  ks_secure (cs_keys a) = Some sa → ks_secure (cs_keys b) = Some sb → ss_session_key sa = ss_session_key sb →
  sendable a = true → (1 <= cc_resend_attempts (sf_config (cs_self a)))%nat →
  cs_pump a = NoPump → Outbox.ob_queued (cs_outbox a) = [] → dict_wf (Outbox.ob_waiters (cs_outbox a)) →
  bytes_ok (ev_random e1) → length (ev_random e1) = 8%nat → env_ok e3 → env_ok e4 →
  validate_message_text text = Ok text →
  let id := generate_message_id (ev_random e1) in
  stored a id = None → id ∉ Inbox.ib_seen (cs_inbox b) →
  cs_next_sequence a < 10 ^ 100 →
  let a1 := (send_message e1 a text).2 in
  let a2 := (pump_step e2 false a1).2 in
  let a3 := (pump_step e3 false a2).2 in
  let b1 := (dispatch e4 b (cp (last_body a3))).2 in
  let a4 := (dispatch e5 a3 (cp (last_body b1))).2 in
  let a5 := (pump_step e6 false a4).2 in
  ∃ v ms ib, Inbox.accept (cs_inbox b) (incoming e4 b sb id text (cs_next_sequence a)) (ev_now e4) = Some (v, ms, ib) ∧
  cs_events b1 = cs_events b ++ (match v with Inbox.DUPLICATE => [] | _ => (λ m, mkEvent MESSAGE [] (Some m)) <$> ms end) ∧
  (∃ m, stored a5 id = Some m ∧ msg_status m = DELIVERED ∧ msg_text m = text) ∧ cs_pump a5 = PumpNext.
Proof.
  intros Ia Ib Hsa Hsb Hkey Hsend Hatt Hp Hq Hwf Hr Hl He3 He4 Ht id Hnew Hseen Hlt a1 a2 a3 b1 a4 a5.
  destruct (send_and_take e1 e2 false a sa text Ia Hsa Hr Hl Ht Hp Hq Hnew)
    as (_ & _ & I2 & Hp2 & Hst2 & Hn2 & Hk2 & Hl2 & Hs2 & Hw2). fold a1 a2 in I2, Hp2, Hst2, Hn2, Hk2, Hl2, Hs2, Hw2.
  set (m := outgoing e1 a sa text) in *. set (m2 := set_status m SENDING None (ev_now e2)) in *.
  pose proof (oi_next _ _ _ (ci_out _ Ia)) as Hone.
  destruct (attempt_step e3 false a2 m2 1 sa m2 He3 I2 Hp2) as (s3 & m1 & tb & E3 & Hp3 & Hid3 & Htb & Hst3 & Hw3 & Hd3).
  { by rewrite Hs2. } { unfold sendable. by rewrite Hl2. } { by rewrite Hk2. } { lia. } { done. }
  assert (Ea3 : a3 = s3) by (subst a3; by rewrite E3). clearbody a3. subst s3.
  assert (I3 : chat_inv a3).
  { pose proof (pump_step_inv e3 false a2 I2) as H. by rewrite E3 in H. }
  change (msg_id m2) with id in *. change (msg_sequence m2) with (cs_next_sequence a) in Hd3.
  change (msg_text m2) with text in Htb. rewrite Hkey in Hd3.
  assert (Hidv : is_valid_message_id id = true) by by apply generated_id_valid.
  destruct (message_received e4 b sb id text tb (cs_next_sequence a) (ev_nonce e3) (ev_stamp e3) He4 ltac:(split; lia)
    Ib Hsb Hidv Ht Htb Hone (proj1 (eo_nonce _ He3)) (proj2 (eo_nonce _ He3)))
    as (v & ms & ib & Hacc & _ & Hev & Hack).
  rewrite <- (Hd3 e4 b) in Hev, Hack. fold b1 in Hev, Hack.
  assert (Hw3' : dict_wf (Outbox.ob_waiters (cs_outbox a3)) ∧ dmem (Outbox.ob_waiters (cs_outbox a3)) id = true).
  { rewrite Hw3, Hw2. split; [by apply dict_wf_dset|]. apply dmem_spec, dget_is_Some. rewrite dget_dset, decide_True by done.
    by eexists. }
  destruct (ack_step e5 a3 m1 1 (after_sent m2 (ev_now e3)) (cs_next_sequence a) (ev_stamp e4) I3 Hp3) as [Hp4 Hst4];
    rewrite ?Hid3; try done; try apply Hw3'.
  rewrite Hid3 in Hp4, Hst4. rewrite <- (Hack e5 a3) in Hp4, Hst4. fold a4 in Hp4, Hst4.
  exists v, ms, ib. split; [done|]. split; [done|]. split.
  - exists (set_status (after_sent m2 (ev_now e3)) DELIVERED None (ev_now e5)). split; [|done].
    subst a5. unfold pump_step. rewrite Hp4. exact Hst4.
  - subst a5. unfold pump_step. by rewrite Hp4.
Qed.

(** C13: A message reaches the other side and its delivery is known: for two
    sessions under one key, the receiver expecting the sender's next
    number, [send_message], two turns of the pump, the receiver's dispatch
    of the body, the sender's dispatch of the answer and one more turn of
    the pump end with the receiver's UI shown the very text, first of what
    the message released, and the sender's copy DELIVERED. *)
Theorem message_is_delivered a b sa sb text e1 e2 e3 e4 e5 e6 :
  chat_inv a → chat_inv b →
  ks_secure (cs_keys a) = Some sa → ks_secure (cs_keys b) = Some sb → ss_session_key sa = ss_session_key sb →
  sendable a = true → (1 <= cc_resend_attempts (sf_config (cs_self a)))%nat →
  cs_pump a = NoPump → Outbox.ob_queued (cs_outbox a) = [] → dict_wf (Outbox.ob_waiters (cs_outbox a)) →
  bytes_ok (ev_random e1) → length (ev_random e1) = 8%nat → env_ok e3 → env_ok e4 →
  validate_message_text text = Ok text →
  let id := generate_message_id (ev_random e1) in
  stored a id = None → id ∉ Inbox.ib_seen (cs_inbox b) →
  cs_next_sequence a = Inbox.ib_expected (cs_inbox b) → cs_next_sequence a < 10 ^ 100 →
  let a1 := (send_message e1 a text).2 in
  let a2 := (pump_step e2 false a1).2 in
  let a3 := (pump_step e3 false a2).2 in
  let b1 := (dispatch e4 b (cp (last_body a3))).2 in
  let a4 := (dispatch e5 a3 (cp (last_body b1))).2 in
  let a5 := (pump_step e6 false a4).2 in
  (∃ m rest, cs_events b1 = cs_events b ++ mkEvent MESSAGE [] (Some m) :: rest ∧
     msg_id m = id ∧ msg_text m = text ∧ msg_sender m = pe_name (cs_peer b) ∧ msg_direction m = INCOMING) ∧
  (∃ m, stored a5 id = Some m ∧ msg_status m = DELIVERED ∧ msg_text m = text) ∧ cs_pump a5 = PumpNext.
Proof.
  intros Ia Ib Hsa Hsb Hkey Hsend Hatt Hp Hq Hwf Hr Hl He3 He4 Ht id Hnew Hseen Hexp Hlt.
  destruct (message_exchange a b sa sb text e1 e2 e3 e4 e5 e6 Ia Ib Hsa Hsb Hkey Hsend Hatt Hp Hq Hwf Hr Hl He3 He4 Ht
    Hnew Hseen Hlt) as (v & ms & ib & Hacc & Hev & Hst & Hpump).
  split; [|by split]. unfold Inbox.accept in Hacc. cbn [incoming msg_id msg_sequence] in Hacc.
  rewrite decide_False in Hacc by done.
  rewrite Hexp, Z.ltb_irrefl, Z.eqb_refl in Hacc. unfold Inbox.drain_and_mark in Hacc.
  destruct (Inbox.drain_contiguous _ _ _) as [[[dr e] bf]|]; cbn in Hacc; [|done]. injection Hacc as <- <- <-.
  eexists _, _. rewrite Hev. split; [reflexivity|done].
Qed.

(** A re-key leaves the inbox as it is. *)
Lemma hello_keeps_inbox env s f : fr_type f = KEX_HELLO → cs_inbox (on_frame env s f).2 = cs_inbox s.
Proof.
  intros Hf. unfold on_frame, handle_kex_hello. rewrite Hf. case_decide; [done|]. cbv zeta.
  destruct (adopt_keys s (fr_data f)) as (_ & _ & Hi & _).
  destruct (answer _ _ _).1 as [[reply sec]|[]]; cbn [snd]; [|exact Hi..].
  set (s2 := if ks_secure _ then _ else _). assert (H2 : cs_inbox s2 = cs_inbox s) by (subst s2; by destruct (ks_secure _)).
  pose proof (q_inbox _ _ (quiet_send_quiet env s2 (kex_reply_frame reply))) as Hq.
  destruct (send_frame_quiet env s2 _) as [[] s3]; cbn [snd] in Hq |- *; [|congruence].
  destruct (set_session_secured s3 sec) as (_ & _ & _ & ->). congruence.
Qed.

(** A peer that starts over is heard by nobody: a key exchange does not
    reset the receiver's inbox, so when the sender is a new session whose
    numbers start again below what the receiver expects, its message is
    acknowledged as a duplicate and never shown, and the sender's copy is
    marked DELIVERED. *)
Theorem restarted_peer_is_lost a b sa sb text e1 e2 e3 e4 e5 e6 :
  chat_inv a → chat_inv b →
  ks_secure (cs_keys a) = Some sa → ks_secure (cs_keys b) = Some sb → ss_session_key sa = ss_session_key sb →
  sendable a = true → (1 <= cc_resend_attempts (sf_config (cs_self a)))%nat →
  cs_pump a = NoPump → Outbox.ob_queued (cs_outbox a) = [] → dict_wf (Outbox.ob_waiters (cs_outbox a)) →
  bytes_ok (ev_random e1) → length (ev_random e1) = 8%nat → env_ok e3 → env_ok e4 →
  validate_message_text text = Ok text →
  let id := generate_message_id (ev_random e1) in
  stored a id = None → id ∉ Inbox.ib_seen (cs_inbox b) →
  cs_next_sequence a < Inbox.ib_expected (cs_inbox b) → cs_next_sequence a < 10 ^ 100 →
  let a1 := (send_message e1 a text).2 in
  let a2 := (pump_step e2 false a1).2 in
  let a3 := (pump_step e3 false a2).2 in
  let b1 := (dispatch e4 b (cp (last_body a3))).2 in
  let a4 := (dispatch e5 a3 (cp (last_body b1))).2 in
  let a5 := (pump_step e6 false a4).2 in
  (∀ env f, fr_type f = KEX_HELLO → cs_inbox (on_frame env b f).2 = cs_inbox b) ∧
  cs_events b1 = cs_events b ∧
  (∃ m, stored a5 id = Some m ∧ msg_status m = DELIVERED ∧ msg_text m = text).
Proof.
  intros Ia Ib Hsa Hsb Hkey Hsend Hatt Hp Hq Hwf Hr Hl He3 He4 Ht id Hnew Hseen Hexp Hlt.
  destruct (message_exchange a b sa sb text e1 e2 e3 e4 e5 e6 Ia Ib Hsa Hsb Hkey Hsend Hatt Hp Hq Hwf Hr Hl He3 He4 Ht
    Hnew Hseen Hlt) as (v & ms & ib & Hacc & Hev & Hst & Hpump).
  split; [intros; by apply hello_keeps_inbox|]. split; [|done].
  unfold Inbox.accept in Hacc. cbn [incoming msg_id msg_sequence] in Hacc.
  rewrite decide_False in Hacc by done. rewrite (proj2 (Z.ltb_lt _ _) Hexp) in Hacc.
  injection Hacc as <- <- <-. by rewrite Hev, app_nil_r.
Qed.

(** ** A reconnect with a message in flight *)

Definition pump_at (id : string) (p : Pump) : Prop :=
  match p with
  | PumpAttempt m _ => msg_id m = id
  | PumpAck m _ (Pending | Cancelled) => msg_id m = id
  | _ => False
  end.

(** The message is back in the queue while the pump still works on it, or
    it has failed. *)
Definition stuck (id : string) (s : ChatSession) : Prop :=
  chat_inv s ∧ cs_next_sequence s <= 10 ^ 100 ∧
  ∃ m, stored s id = Some m ∧ (msg_status m = QUEUED ∧ pump_at id (cs_pump s) ∨ msg_status m = FAILED).

(** Calls whose reach is that message: turns of the pump, with time-outs or
    not, and acknowledgements of it. *)
Inductive retry := Turn (env : Env) (timeout : bool) | Acked (env : Env) (seq : Z) (st : stamp).

Definition run_retry (id : string) (s : ChatSession) (c : retry) : ChatSession :=
  match c with
  | Turn env timeout => (pump_step env timeout s).2
  | Acked env seq st => (on_frame env s (message_ack_frame (cp id) seq st)).2
  end.

Lemma failed_is_final ob m id :
  outbox_inv ob → dget (Outbox.ob_messages ob) id = Some m → msg_status m = FAILED → is_terminal m = true.
Proof. intros I Hm Hs. destruct (oi_msg ob I id m Hm) as (_ & _ & Ho). unfold is_terminal. by rewrite Ho, Hs. Qed.

(** An acknowledgement finds neither a queued nor a failed message. *)
Lemma ack_ignored env s id m seq st :
  chat_inv s → is_valid_message_id id = true → stored s id = Some m →
  msg_status m = QUEUED ∨ msg_status m = FAILED →
  (on_frame env s (message_ack_frame (cp id) seq st)).2 = set_outbox s (cs_outbox s).
Proof.
  intros I Hid Hst Hs. destruct (message_id_plain _ Hid) as (_ & _ & Ha).
  pose proof (oi_box _ _ _ (ci_out _ I)) as Io.
  change ((handle_ack env s (message_ack_frame (cp id) seq st)).2 = set_outbox s (cs_outbox s)).
  unfold handle_ack. change (text_of _ "id") with (cp id). unfold cp. rewrite (ascii_text_encode _ Ha). cbv zeta.
  unfold Outbox.mark_delivered. unfold stored in Hst. rewrite Hst.
  destruct Hs as [Hs|Hs].
  - assert (Hterm : is_terminal m = false).
    { destruct (oi_msg _ Io _ _ Hst) as (_ & _ & Ho). unfold is_terminal. by rewrite Ho, Hs. }
    rewrite Hs, bool_decide_false by set_solver. rewrite Hterm, decide_False by done. unfold Outbox.transition.
    rewrite Hst, Hterm, (with_status_out _ _ _ DELIVERED None (ev_now env) Io Hst), Hs, decide_False by (simpl; set_solver).
    done.
  - rewrite Hs, bool_decide_false by set_solver. by rewrite (failed_is_final _ m id Io Hst Hs).
Qed.

(** A failed message stays failed through a turn of the pump. *)
Lemma attempt_evolves env s key m n :
  chat_inv s → evolves (cs_outbox s) (cs_outbox (attempt env s key m n).2).
Proof.
  intros I. pose proof (oi_box _ _ _ (ci_out _ I)) as Io. assert (Hsame : ∀ ob, Outbox.ob_messages ob = Outbox.ob_messages (cs_outbox s) →
    evolves (cs_outbox s) ob) by (intros; by apply evolves_same).
  unfold attempt. cbv zeta. destruct (of_option (utf8_encode _) _); [|by apply Hsame].
  destruct (map_error _ (EncryptedPayload_init _ _)) as [p|]; [|by apply Hsame].
  destruct (map_error _ (with_payload m p)) as [m1|]; [|by apply Hsame]. set (s1 := set_outbox s _).
  pose proof (quiet_send env s1 (message_frame (cp (msg_id m)) (msg_sequence m) (cp (to_b64 p)))) as Hq.
  destruct (send_frame env s1 _) as [r s2]. cbn [snd] in Hq. pose proof (q_outbox _ _ Hq) as Ho.
  destruct r as [[]|[]]; cbn [snd]; try (apply Hsame; cbn; by rewrite Ho).
  assert (Io2 : outbox_inv (cs_outbox s2)) by (rewrite Ho; by apply moves_bookkeeping).
  destruct (mark_sent_keeps (cs_outbox s2) (msg_id m) (ev_now env) Io2) as [_ Ev].
  destruct (Outbox.mark_sent _ _ _) as [sent ob]. cbn [snd] in Ev |- *.
  assert (Hx : ∀ x, quiet (set_outbox s2 ob) x → evolves (cs_outbox s) (cs_outbox x)).
  { intros x Hx. rewrite (q_outbox _ _ Hx). eapply evolves_trans; [|exact Ev]. apply Hsame. by rewrite Ho. }
  match goal with |- context [set_pump ?y _] => apply (Hx y) end. destruct sent; [case_decide|]; done.
Qed.

Lemma pump_step_evolves env t s : chat_inv s → evolves (cs_outbox s) (cs_outbox (pump_step env t s).2).
Proof.
  intros I. pose proof (oi_box _ _ _ (ci_out _ I)) as Io. assert (Hsame : ∀ ob, Outbox.ob_messages ob = Outbox.ob_messages (cs_outbox s) →
    evolves (cs_outbox s) ob) by (intros; by apply evolves_same).
  unfold pump_step. destruct (cs_pump s) as [| |m n|m n w] eqn:Hp; [by apply Hsame|..];
    pose proof (pumping s I ltac:(congruence)) as Hc; rewrite ?Hc.
  - destruct (next_queued_keeps (cs_outbox s) (ev_now env) Io) as [_ Ev].
    destruct (Outbox.next_queued _ _) as [[[m|]|e] ob]; exact Ev.
  - case_match.
    + unfold give_up_on. cbv zeta.
      assert (Io2 : outbox_inv (cs_outbox (drop_waiter s (msg_id m)))) by by apply moves_bookkeeping.
      destruct (mark_failed_keeps _ (msg_id m) no_ack (ev_now env) Io2) as [_ Ev].
      destruct (Outbox.mark_failed _ _ _ _) as [[f|] ob]; exact Ev.
    + case_match; [by apply Hsame|]. destruct (key_bytes s) as [key|]; [|by apply Hsame].
      pose proof (attempt_evolves env s key m n I) as Ev. destruct (attempt env s key m n) as [[r|e] s1]; exact Ev.
  - destruct w; [case_match|..]; by apply Hsame.
Qed.

Lemma failed_stays ob ob' id m :
  evolves ob ob' → dget (Outbox.ob_messages ob) id = Some m → msg_status m = FAILED →
  ∃ m', dget (Outbox.ob_messages ob') id = Some m' ∧ msg_status m' = FAILED.
Proof.
  intros Ev Hm Hs. destruct (Ev id m Hm) as (m' & Hm' & Hr & _). exists m'. split; [done|].
  rewrite Hs in Hr. destruct (settled_stays FAILED (msg_status m')) as [_ H]; [by right; right|done|].
  destruct (decide (FAILED = msg_status m')) as [<-|Hne]; [done|]. by destruct (H Hne).
Qed.

Lemma pump_step_next env t s : cs_next_sequence (pump_step env t s).2 = cs_next_sequence s.
Proof.
  unfold pump_step. destruct (cs_pump s) as [| |m n|m n w]; [done| | |].
  - case_match; [done|]. by destruct (Outbox.next_queued _ _) as [[[]|]].
  - case_match; [unfold give_up_on; by destruct (Outbox.mark_failed _ _ _ _) as [[]]|].
    case_match; [by destruct (Outbox.to_queued _ _ _) as [[]]|]. case_match; [done|].
    destruct (key_bytes s); [|done].
    enough (Ha : cs_next_sequence (attempt env s b m n).2 = cs_next_sequence s).
    { by destruct (attempt env s b m n) as [[]]. }
    unfold attempt. cbv zeta. destruct (of_option _ _); [|done]. destruct (map_error _ _); [|done].
    destruct (map_error _ _); [|done].
    match goal with |- context [send_frame env ?x ?f] => pose proof (q_next _ _ (quiet_send env x f)) as Hn;
      destruct (send_frame env x f) as [[[]|[]] s2] end; cbn [snd] in *; try exact Hn.
    destruct (Outbox.mark_sent _ _ _) as [[] ob]; [case_decide|]; exact Hn.
  - destruct w; [by case_match|done|done].
Qed.

Lemma stuck_turn env t id s :
  stamp_ok (ev_stamp env) → bytes_ok (ev_nonce env) → length (ev_nonce env) = NONCE_BYTES → ev_link env ≠ SocketFails →
  stuck id s → stuck id (pump_step env t s).2.
Proof.
  intros Hst Hn Hl Hlink (I & Hseq & st0 & Hget & Hcase). split; [by apply pump_step_inv|]. split; [by rewrite pump_step_next|].
  destruct Hcase as [[Hs Hat]|Hs].
  2: { destruct (failed_stays _ _ id st0 (pump_step_evolves env t s I) Hget Hs) as (m' & ? & ?). exists m'. auto. }
  pose proof (oi_box _ _ _ (ci_out _ I)) as Io. pose proof (oi_pump _ _ _ (ci_out _ I)) as Hcar. unfold stored in Hget.
  unfold pump_step. destruct (cs_pump s) as [| |m n|m n w] eqn:Hp; try done;
    pose proof (pumping s I ltac:(congruence)) as Hc; rewrite ?Hc; cbn in Hcar.
  - cbn in Hat. subst id. case_match.
    { unfold give_up_on. cbv zeta. unfold Outbox.mark_failed, Outbox.transition. cbn [drop_waiter cs_outbox set_outbox
        Outbox.drop_ack_waiter Outbox.ob_messages]. rewrite Hget.
      assert (Hterm : is_terminal st0 = false).
      { destruct (oi_msg _ Io _ _ Hget) as (_ & _ & Ho). unfold is_terminal. by rewrite Ho, Hs. }
      rewrite Hterm, (with_status_out _ _ _ FAILED (Some no_ack) (ev_now env) Io Hget), Hs, decide_True by (simpl; set_solver).
      exists (set_status st0 FAILED (Some no_ack) (ev_now env)). split; [|by right]. unfold stored. cbn.
      destruct (oi_msg _ Io _ _ Hget) as (Hid0 & _). rewrite dget_dset. by rewrite decide_True. }
    case_match; [exists st0; cbn [snd]; split; [done|]; left; by rewrite Hp|].
    destruct (key_bytes s) as [key|]; [|exists st0; split; [done|by left]].
    pose proof (carried_small _ _ m Hcar (oi_below _ _ _ (ci_out _ I)) Hseq) as Hsm.
    destruct (attempt_sends env key m Hst Hn Hl (proj1 Hcar) Hsm) as (text & Ht & (raw & Henc & _) & Hep & m1 & Hpay & _ & Hid & _).
    unfold attempt. rewrite Ht. cbn [of_option]. cbn [ep_sealed] in Hep. cbv zeta. rewrite Hep. cbn [map_error].
    rewrite Hpay. unfold send_frame. rewrite Henc. cbn [map_error]. destruct (ev_link env); [| |done].
    + set (s2 := set_sent _ _).
      destruct (mark_sent_stored (cs_outbox s2) (msg_id m) st0 (ev_now env)) as (ob & Hms & Hg & _);
        [by apply moves_bookkeeping|done|]. rewrite Hms.
      unfold after_sent in Hg. rewrite decide_False in Hg by (rewrite Hs; done).
      exists st0. split; [|by left]. unfold stored. by case_decide.
    + exists st0. split; [done|by left].
  - destruct w; cbn in Hat; [subst id|done|subst id].
    + case_match; exists st0; cbn [snd]; (split; [done|]); left; [done|by rewrite Hp].
    + exists st0. split; [done|]. left. split; [done|]. cbn [cs_link drop_waiter set_outbox]. by rewrite Hc.
Qed.

Lemma requeue_stored ob id m now :
  outbox_inv ob → dget (Outbox.ob_messages ob) id = Some m → msg_status m = SENT →
  ∃ m', dget (Outbox.ob_messages (Outbox.requeue_unacked ob now).2) id = Some m' ∧ msg_status m' = QUEUED.
Proof.
  intros I Hm Hs. pose proof (pending_backlog ob I) as Hb.
  destruct (requeue_loop_spec now _ ob (oi_wf ob I) Hb) as (ob' & Hl & _ & _ & Hall & _).
  unfold Outbox.requeue_unacked. rewrite Hl. cbn [snd Outbox.set_queued Outbox.ob_messages].
  rewrite Forall_forall in Hall. destruct (oi_msg ob I id m Hm) as (Hid & _).
  assert (Hin : m ∈ Outbox.sort_by_sequence (Outbox.pending ob)).
  { rewrite sort_perm. apply list_elem_of_filter. split; [unfold Outbox.in_flight; by rewrite Hs|].
    unfold values. apply dget_Some_elem in Hm. apply list_elem_of_fmap. by exists (id, m). }
  pose proof (Hall m Hin) as H. rewrite Hid in H. exists (rolled_back now m). split; [exact H|].
  by destruct (rolled_back_fields now m) as (_ & _ & ? & _).
Qed.

(** A message in flight at a reconnect is never marked delivered: the
    reconnect puts it back in the queue under the pump that still retries
    it, so acknowledgements of the retries find it QUEUED and are ignored.
    After any number of turns of the pump and acknowledgements the message
    is still QUEUED or, in the end, FAILED. *)
Theorem reconnect_denies_delivery env s m n st0 calls :
  chat_inv s → ln_closing (cs_link s) = false → cs_next_sequence s <= 10 ^ 100 →
  cs_pump s = PumpAck m n Pending → stored s (msg_id m) = Some st0 → msg_status st0 = SENT →
  dmem (Outbox.ob_waiters (cs_outbox s)) (msg_id m) = true →
  Forall (λ c, match c with
               | Turn e _ => stamp_ok (ev_stamp e) ∧ bytes_ok (ev_nonce e) ∧ length (ev_nonce e) = NONCE_BYTES ∧ ev_link e ≠ SocketFails
               | Acked _ _ _ => True
               end) calls →
  let s' := foldl (run_retry (msg_id m)) (on_connection_state env s RECONNECTING).2 calls in
  ∃ m', stored s' (msg_id m) = Some m' ∧ (msg_status m' = QUEUED ∨ msg_status m' = FAILED).
Proof.
  intros I Hc Hseq Hp Hget Hs Hw Hcalls s'.
  assert (Hidv : is_valid_message_id (msg_id m) = true).
  { pose proof (oi_pump _ _ _ (ci_out _ I)) as Hcar. rewrite Hp in Hcar. apply message_ok_parts, Hcar. }
  assert (H0 : stuck (msg_id m) (on_connection_state env s RECONNECTING).2).
  { split; [by apply connection_inv|]. unfold on_connection_state. rewrite Hc. cbv zeta.
    unfold cancel_waiters. cbn [cs_pump cs_outbox set_transport_usable set_ready set_link]. rewrite Hp, Hw.
    cbn [cs_outbox set_pump set_outbox].
    change (cs_outbox (set_transport_usable (set_ready s false) false)) with (cs_outbox s).
    set (ob := Outbox.resolve_ack_waiters_on_disconnect (cs_outbox s)).
    assert (Io : outbox_inv ob) by (apply moves_bookkeeping, (oi_box _ _ _ (ci_out _ I))).
    destruct (requeue_stored ob (msg_id m) st0 (ev_now env) Io Hget Hs) as (m' & Hm' & Hq).
    destruct (requeue_spec ob (ev_now env) Io) as (ob' & E & _). rewrite E in Hm' |- *.
    split; [done|]. exists m'. split; [done|]. left. by split. }
  enough (H : stuck (msg_id m) s').
  { destruct H as (_ & _ & m' & Hm' & [[? _]|?]); exists m'; auto. }
  subst s'. revert H0. generalize (on_connection_state env s RECONNECTING).2.
  induction Hcalls as [|c calls Hcall _ IH]; intros s1 H1; [done|]. cbn [foldl]. apply IH. destruct c as [e t|e seq st].
  - destruct Hcall as (? & ? & ? & ?). by apply stuck_turn.
  - destruct H1 as (I1 & Hq1 & m' & Hm' & Hcase). cbn [run_retry].
    rewrite (ack_ignored e s1 (msg_id m) m' seq st I1 Hidv Hm'); [|destruct Hcase as [[? _]|?]; auto].
    split; [apply set_outbox_inv; [done|apply moves_refl, (oi_box _ _ _ (ci_out _ I1))]|]. split; [done|]. by exists m'.
Qed.
End delivery.

(** ** Witnesses *)

Definition demo_stamp : stamp := (cp (hexdigest (replicate 6 17)), JFloat (cp "1731888000.25")).

Lemma demo_stamp_ok : stamp_ok demo_stamp.
Proof.
  split.
  - exists (replicate 6 17). split; [by repeat constructor|]. by split.
  - exists (cp "1731888000.25"). split; [done|]. split; [|split; [by vm_compute|cbn; lia]].
    exists false, (cp "1731888000"), (cp ".25"), []. split; [reflexivity|]. split; [|split; [|split]].
    + right. eexists _, _. split; [reflexivity|]. split; [vm_compute; split; congruence|]. by repeat constructor.
    + right. eexists _, _. split; [reflexivity|]. by repeat constructor.
    + by left.
    + discriminate.
Qed.

Definition demo_env (now : Z) : Env :=
  mkEnv now demo_stamp Takes (replicate 12 5) [3] (replicate 16 4) (replicate 8 1).

Lemma demo_env_ok now : env_ok (demo_env now).
Proof.
  split; [exact demo_stamp_ok|done|split; [by repeat constructor|done]|split; [by repeat constructor|done]].
Qed.

Definition demo_secure : SecureSession := mkSession (replicate 32 7) [1; 2] "conv_0123456789ab" "AAAA" true false.

(** A session under that key, with a given next number and expected number. *)
Definition demo_session (role : Role) (next expected : Z) : ChatSession :=
  mkChat (mkSelf "room" role (cp "Ada") default_config None) (mkPeer (cp "Bob") None)
    (mkKeys (Some demo_secure) (Some (ss_session_key demo_secure)) None) (mkLink true true true true false)
    Outbox.init (Inbox.mkInbox 5000000 expected [] [] [] 0 0)
    (Typing.mkTyping 3000000 4000000 6000000 false 0 0 None) (Receipts.init true) (mkStats 0 0 0 0 0 0 0 0) next
    None [] None NoPump [] [].

Lemma demo_session_inv role next expected : 1 <= next → chat_inv (demo_session role next expected).
Proof.
  intros Hn. split; cbn.
  - by split.
  - split; cbn; [done|by eexists|by intros ? [= <-]|done].
  - split; try done. apply outbox_init_inv.
  - split; cbn; [split; [apply dict_wf_nil|done]| |constructor|constructor|apply Nat.le_0_l|apply Nat.le_0_l].
    intros k Hk. by apply elem_of_nil in Hk.
  - done.
Qed.

Definition demo_text : unicode := cp "hello".

Lemma message_is_delivered_witness :
  ∃ m, stored ((pump_step (demo_env 6) false
    (dispatch (demo_env 5)
      (pump_step (demo_env 3) false (pump_step (demo_env 2) false
         (send_message (demo_env 1) (demo_session HostRole 1 1) demo_text).2).2).2
      (cp (last_body (dispatch (demo_env 4) (demo_session GuestRole 1 1)
        (cp (last_body (pump_step (demo_env 3) false (pump_step (demo_env 2) false
           (send_message (demo_env 1) (demo_session HostRole 1 1) demo_text).2).2).2))).2))).2).2)
    (generate_message_id (replicate 8 1)) = Some m ∧ msg_status m = DELIVERED ∧ msg_text m = demo_text.
Proof.
  apply (message_is_delivered (demo_session HostRole 1 1) (demo_session GuestRole 1 1) demo_secure demo_secure demo_text
    (demo_env 1) (demo_env 2) (demo_env 3) (demo_env 4) (demo_env 5) (demo_env 6));
    try reflexivity; try (by apply demo_session_inv); try apply demo_env_ok.
  - cbn. lia.
  - constructor.
  - by repeat constructor.
  - apply not_elem_of_nil.
Defined.

Lemma restarted_peer_is_lost_witness :
  cs_events (dispatch (demo_env 4) (demo_session GuestRole 1 2)
    (cp (last_body (pump_step (demo_env 3) false (pump_step (demo_env 2) false
       (send_message (demo_env 1) (demo_session HostRole 1 1) demo_text).2).2).2))).2 = [].
Proof.
  apply (restarted_peer_is_lost (demo_session HostRole 1 1) (demo_session GuestRole 1 2) demo_secure demo_secure demo_text
    (demo_env 1) (demo_env 2) (demo_env 3) (demo_env 4) (demo_env 5) (demo_env 6));
    try reflexivity; try (by apply demo_session_inv); try apply demo_env_ok.
  - cbn. lia.
  - constructor.
  - by repeat constructor.
  - apply not_elem_of_nil.
Defined.

(** A session whose message is out and unacknowledged. *)
Lemma demo_in_flight :
  ∃ s m, chat_inv s ∧ ln_closing (cs_link s) = false ∧ cs_next_sequence s = 2 ∧ cs_pump s = PumpAck m 1 Pending ∧
    (∃ st0, stored s (msg_id m) = Some st0 ∧ msg_status st0 = SENT) ∧
    dmem (Outbox.ob_waiters (cs_outbox s)) (msg_id m) = true.
Proof.
  destruct (send_and_take (demo_env 1) (demo_env 2) false (demo_session HostRole 1 1) demo_secure demo_text)
    as (_ & _ & I2 & Hp2 & Hst2 & Hn2 & Hk2 & Hl2 & Hs2 & Hw2); try reflexivity.
  1: by apply demo_session_inv. 1: by repeat constructor.
  set (s2 := (pump_step (demo_env 2) false _).2) in *. set (m2 := set_status _ SENDING None _) in *.
  destruct (attempt_step (demo_env 3) false s2 m2 1 demo_secure m2 (demo_env_ok 3) I2 Hp2) as
    (s3 & m1 & b & E & Hp3 & Hid & _ & Hst3 & Hw3 & _).
  { rewrite Hs2. cbn. lia. } { unfold sendable. by rewrite Hl2. } { by rewrite Hk2. }
  { rewrite Hn2. vm_compute. congruence. } { exact Hst2. }
  pose proof (pump_step_inv (demo_env 3) false s2 I2) as I3. rewrite E in I3.
  pose proof (pump_step_next (demo_env 3) false s2) as Hn3. rewrite E in Hn3. cbn [snd] in I3, Hn3.
  exists s3, m1. split; [done|]. split; [apply pumping; [done|congruence]|]. split; [by rewrite Hn3, Hn2|].
  split; [done|]. rewrite Hid. split; [eexists; split; [exact Hst3|reflexivity]|].
  rewrite Hw3. apply dmem_spec, dget_is_Some. rewrite dget_dset, decide_True by done. by eexists.
Qed.

Lemma reconnect_denies_delivery_witness :
  ∃ s m m', stored (run_retry (msg_id m) (on_connection_state (demo_env 7) s RECONNECTING).2
      (Acked (demo_env 8) 1 demo_stamp)) (msg_id m) = Some m' ∧ (msg_status m' = QUEUED ∨ msg_status m' = FAILED).
Proof.
  destruct demo_in_flight as (s & m & I & Hc & Hn & Hp & (st0 & Hst & Hs) & Hw). exists s, m.
  apply (reconnect_denies_delivery (demo_env 7) s m 1 st0 [Acked (demo_env 8) 1 demo_stamp] I Hc); try done.
  - rewrite Hn. vm_compute. congruence.
  - by repeat constructor.
Defined.

(** A created session. *)
Lemma demo_created : ∃ s, ChatSession_init "room" "host" (cp "Ada") None true None None = Ok s ∧
  cs_next_sequence s = 1 ∧ ln_closing (cs_link (close s)) = true.
Proof. eexists. split; [reflexivity|]. done. Qed.

Lemma chat_session_invariant_witness :
  ∃ s, ChatSession_init "room" "host" (cp "Ada") None true None None = Ok s ∧
    ks_session_key (cs_keys (run_ops s [OpStart (demo_env 1) (Some 1); OpClose])) = None.
Proof.
  destruct demo_created as (s & Hs & _). exists s. split; [done|].
  destruct (chat_session_invariant "room" "host" (cp "Ada") None true None None s
    [OpStart (demo_env 1) (Some 1); OpClose] Hs) as (_ & _ & _ & _ & Hcl). apply Hcl. cbn [run_ops foldl run_op].
  unfold close. destruct (ln_closing (cs_link (start (demo_env 1) s (Some 1)).2)) eqn:E; [exact E|reflexivity].
Defined.

Lemma pump_never_dies_witness :
  ∃ s, ChatSession_init "room" "host" (cp "Ada") None true None None = Ok s ∧
    is_ok (pump_step (demo_env 1) false (run_ops s [])).1 = true.
Proof.
  destruct demo_created as (s & Hs & Hn & _). exists s. split; [done|].
  apply (pump_never_dies "room" "host" (cp "Ada") None true None None s [] (demo_env 1) false Hs); try apply (demo_env_ok 1).
  - cbn [run_ops foldl]. rewrite Hn. vm_compute. congruence.
  - done.
Defined.

(** ** Runs that depart from the documentation *)

(** An [OSError] of the socket is no [TransportError]: it ends the pump in
    the middle of an attempt.  The message stays SENDING, its waiter stays
    registered, and after the reconnect has queued it again no pump takes it
    up. *)
Definition broken_env (now : Z) : Env :=
  mkEnv now demo_stamp SocketFails (replicate 12 5) [3] (replicate 16 4) (replicate 8 1).

Example socket_failure_stops_pump :
  let s := run_ops (demo_session HostRole 1 1)
    [OpSend (demo_env 1) demo_text; OpPump (demo_env 2) false; OpPump (broken_env 3) false] in
  let s' := run_ops s [OpConnection (demo_env 4) RECONNECTING; OpConnection (demo_env 5) CONNECTED; OpPump (demo_env 6) false] in
  cs_pump s = NoPump ∧ msg_status <$> (values (Outbox.ob_messages (cs_outbox s))) = [SENDING] ∧
  length (Outbox.ob_waiters (cs_outbox s)) = 1%nat ∧
  cs_pump s' = NoPump ∧ msg_status <$> (values (Outbox.ob_messages (cs_outbox s'))) = [QUEUED].
Proof. by vm_compute. Qed.

(** A message frame whose identifier is not ASCII passes the schema of
    frames; [message_aad] raises before the [try] of [_handle_message], so the
    frame is neither counted as dropped nor answered. *)
Example non_ascii_id_escapes :
  let f := message_frame [233] 1 (cp "AAAA") demo_stamp in
  validate_frame (fr_type f) (fr_sequence f) (fr_data f) = Ok tt ∧
  on_frame (demo_env 1) (demo_session GuestRole 1 1) f =
    (Err (MessageFailed PyUnicodeEncodeError), demo_session GuestRole 1 1).
Proof. by vm_compute. Qed.

Definition demo_side (role : Role) (name : string) : ChatSession :=
  mkChat (mkSelf "room" role (cp name) default_config None) (mkPeer (cp "Peer") None)
    (mkKeys None None None) (mkLink false true true true false) Outbox.init (Inbox.init 5000000)
    (Typing.mkTyping 3000000 4000000 6000000 false 0 0 None) (Receipts.init true) (mkStats 0 0 0 0 0 0 0 0) 1
    None [] None NoPump [] [].

Lemma sessions_agree_on_a_key_witness :
  ∃ sh sg,
    secured (dispatch (demo_env 3) (initiate_handshake (demo_env 1) (demo_side HostRole "Ada")).2
      (cp (last_body (dispatch (demo_env 2) (demo_side GuestRole "Bob")
        (cp (last_body (initiate_handshake (demo_env 1) (demo_side HostRole "Ada")).2))).2))).2 sh ∧
    ss_session_key sh = ss_session_key sg.
Proof.
  destruct (sessions_agree_on_a_key (demo_side HostRole "Ada") (demo_side GuestRole "Bob") (demo_env 1) (demo_env 2)
    (demo_env 3)) as (sh & sg & H1 & _ & H2 & _); try reflexivity; try apply demo_env_ok.
  - by split; [reflexivity|repeat constructor|].
  - by split; [reflexivity|repeat constructor|].
  - exists sh, sg. by split.
Defined.
