(* ===== verification/Chunking.v ===== *)
(** * Chunks of a transferred file

    [transfer/chunking.py] (the reader of numbered chunks and the bitmap of
    received ones) and the chunk writes of [transfer/storage.py].  A file is
    the list of its bytes; chunk numbers start at 1. *)

From S2P Require Import Prelude Text.

Open Scope Z_scope.

(** The exceptions of [exceptions/transfer.py] and those of storage and
    decryption the transfer layer handles. *)
Inductive TransferError :=
| TransferErr | TransferValidationError | TransferStateError | TransferLimitError
| StorageError | DecryptionError | PyKeyError | PyValueError | PyAssertionError
| PyOverflowError | PyUnicodeError.

(** ** The bitmap *)

Record ChunkBitmap := mkBitmap { bm_total : Z; bm_bits : list Z; bm_count : Z }.

(** [bin(byte).count("1")] *)
Fixpoint pos_ones (p : positive) : Z :=
  match p with xH => 1 | xO q => pos_ones q | xI q => 1 + pos_ones q end.
Definition ones (byte : Z) : Z := match byte with Zpos p => pos_ones p | _ => 0 end.

Definition sum_ones (bits : list Z) : Z := foldr (λ b n, ones b + n) 0 bits.

(** [_load] *)
Definition bitmap_load (total : Z) (bitmap : list Z) : result TransferError ChunkBitmap :=
  guard_or (Z.of_nat (length bitmap) =? (total + 7) / 8) TransferValidationError;;
  let padding := Z.of_nat (length bitmap) * 8 - total in
  let bits := if padding =? 0 then bitmap
              else alter (λ b, Z.land b (Z.shiftl 1 (8 - padding) - 1)) (length bitmap - 1)%nat
                     bitmap in
  Ok (mkBitmap total bits (sum_ones bits)).

(** [ChunkBitmap.__init__] *)
Definition ChunkBitmap_init (total : Z) (bitmap : option (list Z))
    : result TransferError ChunkBitmap :=
  guard_or (negb (total <? 1)) TransferValidationError;;
  match bitmap with
  | None => Ok (mkBitmap total (replicate (Z.to_nat ((total + 7) / 8)) 0) 0)
  | Some b => bitmap_load total b
  end.

(** [has], for a number the caller validated ([1 <= n <= total]). *)
Definition has (b : ChunkBitmap) (n : Z) : bool :=
  match bm_bits b !! Z.to_nat (Z.shiftr (n - 1) 3) with
  | Some byte => negb (Z.land byte (Z.shiftl 1 (Z.land (n - 1) 7)) =? 0)
  | None => false
  end.

(** [mark] *)
Definition mark (b : ChunkBitmap) (n : Z) : outcome ChunkBitmap TransferError bool :=
  if negb ((1 <=? n) && (n <=? bm_total b)) then (Err TransferValidationError, b)
  else if has b n then (Ok false, b)
  else (Ok true,
        mkBitmap (bm_total b)
          (alter (λ byte, Z.lor byte (Z.shiftl 1 (Z.land (n - 1) 7)))
             (Z.to_nat (Z.shiftr (n - 1) 3)) (bm_bits b))
          (bm_count b + 1)).

Definition chunk_numbers (total : Z) : list Z := seqZ 1 total.

Definition is_complete (b : ChunkBitmap) : bool := bm_count b =? bm_total b.

(** [missing] *)
Definition missing (b : ChunkBitmap) : list Z :=
  filter (λ n, has b n = false) (chunk_numbers (bm_total b)).

(** [next_missing] *)
Definition next_missing (b : ChunkBitmap) : option Z :=
  snd <$> list_find (λ n, has b n = false) (chunk_numbers (bm_total b)).

Definition to_b64 (b : ChunkBitmap) : string := b64encode (bm_bits b).

(** [from_b64] *)
Definition from_b64 (encoded : string) (total : Z) : result TransferError ChunkBitmap :=
  raw ← of_option (b64decode encoded) TransferValidationError;
  ChunkBitmap_init total (Some raw).

(** ** The reader *)

(** The descriptor's own position and the offset the reader believes it is at. *)
Record ChunkReader := mkReader {
  rd_file : list Z; rd_chunk_size : Z; rd_total : Z; rd_pos : Z; rd_cursor : Z;
}.

Definition ChunkReader_open (file : list Z) (chunk_size total_chunks : Z) : ChunkReader :=
  mkReader file chunk_size total_chunks 0 0.

(** [expected_length] *)
Definition expected_length (r : ChunkReader) (n : Z) : result TransferError Z :=
  guard_or ((1 <=? n) && (n <=? rd_total r)) TransferValidationError;;
  Ok (if n =? rd_total r
      then Z.max 1 (Z.of_nat (length (rd_file r)) - (rd_total r - 1) * rd_chunk_size r)
      else rd_chunk_size r).

(** [read]: the seek is skipped when the cursor is already there. *)
Definition read (r : ChunkReader) (n : Z) : outcome ChunkReader TransferError (list Z) :=
  try? _ := expected_length r n @ r in
  let offset := (n - 1) * rd_chunk_size r in
  let pos := if offset =? rd_cursor r then rd_pos r else offset in
  let data := take (Z.to_nat (rd_chunk_size r)) (drop (Z.to_nat pos) (rd_file r)) in
  let r' := mkReader (rd_file r) (rd_chunk_size r) (rd_total r)
              (pos + Z.of_nat (length data)) (offset + Z.of_nat (length data)) in
  if bool_decide (data = []) then (Err TransferValidationError, r') else (Ok data, r').

(** ** Writing chunks *)

(** [handle.seek(offset); handle.write(data)]: a gap is filled with zeros. *)
Definition write_at (file : list Z) (offset : nat) (data : list Z) : list Z :=
  if bool_decide (data = []) then file
  else take offset (file ++ replicate (offset - length file) 0) ++ data ++
       drop (offset + length data) file.

(** [TransferStorage.write_chunk], on the contents of the temp file *)
Definition write_chunk (file : list Z) (n chunk_size : Z) (data : list Z) : list Z :=
  write_at file (Z.to_nat ((n - 1) * chunk_size)) data.

(** ** The bitmap is a set of chunk numbers *)

(** How many elements satisfy a test. *)
Definition count_if {A} (p : A → bool) (l : list A) : Z :=
  foldr (λ x n, (if p x then 1 else 0) + n) 0 l.

Lemma count_if_app {A} (p : A → bool) l k : count_if p (l ++ k) = count_if p l + count_if p k.
Proof. induction l as [|x l IH]; [done|]. cbn. fold (count_if p (l ++ k)). rewrite IH. unfold count_if. lia. Qed.

Lemma count_if_ext {A} (p q : A → bool) l :
  Forall (λ x, p x = q x) l → count_if p l = count_if q l.
Proof. induction 1 as [|x l Hx _ IH]; [done|]. cbn. rewrite Hx. unfold count_if in IH. by rewrite IH. Qed.

Lemma count_if_fmap {A B} (f : A → B) (p : B → bool) l :
  count_if p (f <$> l) = count_if (λ x, p (f x)) l.
Proof. induction l as [|x l IH]; [done|]. cbn. unfold count_if in IH. by rewrite IH. Qed.

Lemma count_if_bound {A} (p : A → bool) l : 0 <= count_if p l <= Z.of_nat (length l).
Proof. induction l as [|x l IH]; cbn [count_if foldr length] in *; [done|]. unfold count_if in IH. destruct (p x); lia. Qed.

Lemma count_if_full {A} (p : A → bool) l :
  count_if p l = Z.of_nat (length l) ↔ Forall (λ x, p x = true) l.
Proof.
  induction l as [|x l IH]; [by split|]. rewrite Forall_cons, <- IH.
  pose proof (count_if_bound p l). cbn [count_if foldr length]. fold (count_if p l).
  destruct (p x); split; intros; try split; try done; try lia; destruct H0; lia || done.
Qed.

(** Marking one element more. *)
Lemma count_if_add (p q : Z → bool) l n :
  NoDup l → n ∈ l → p n = false → q n = true → (∀ m, m ∈ l → m ≠ n → q m = p m) →
  count_if q l = count_if p l + 1.
Proof.
  intros Hnd Hin Hp Hq Hm. induction l as [|x l IH]; [by apply elem_of_nil in Hin|].
  apply NoDup_cons in Hnd as [Hx Hnd]. cbn [count_if foldr]. fold (count_if q l) (count_if p l).
  destruct (decide (n = x)) as [->|Hne].
  - rewrite Hp, Hq. rewrite (count_if_ext q p l); [lia|]. apply Forall_forall. intros m Hml.
    apply Hm; [by right|]. by intros ->.
  - rewrite (Hm x) by (by left || done). apply elem_of_cons in Hin as [?|Hin]; [done|].
    rewrite IH; [lia|done|done|]. intros m H1 H2. apply Hm; [by right|done].
Qed.

(** Bit [k] of a byte string, least significant first. *)
Definition bit_at (bits : list Z) (k : Z) : bool :=
  match bits !! Z.to_nat (k / 8) with Some byte => Z.testbit byte (k mod 8) | None => false end.

Lemma land_bit byte i : 0 <= i → negb (Z.land byte (Z.shiftl 1 i) =? 0) = Z.testbit byte i.
Proof.
  intros Hi. destruct (Z.testbit byte i) eqn:E.
  - apply negb_true_iff, Z.eqb_neq. intros H. apply (f_equal (λ z, Z.testbit z i)) in H.
    rewrite Z.land_spec, Z.shiftl_spec, E, Z.sub_diag, Z.bits_0 in H by lia. done.
  - apply negb_false_iff, Z.eqb_eq. apply Z.bits_inj_0. intros j. rewrite Z.land_spec.
    destruct (Z.eq_dec j i) as [->|Hne]; [by rewrite E|]. apply andb_false_iff. right.
    destruct (Z.lt_ge_cases j 0); [by apply Z.testbit_neg_r|].
    rewrite Z.shiftl_spec by lia. destruct (Z.lt_ge_cases j i).
    + apply Z.testbit_neg_r. lia.
    + change 1 with (2 ^ 0). apply Z.pow2_bits_false. lia.
Qed.

Lemma split8 k : Z.shiftr k 3 = k / 8 ∧ Z.land k 7 = k mod 8.
Proof. split; [apply Z.shiftr_div_pow2; lia|apply (Z.land_ones k 3); lia]. Qed.

Lemma has_bit b n : has b n = bit_at (bm_bits b) (n - 1).
Proof.
  unfold has, bit_at. destruct (split8 (n - 1)) as [-> ->].
  destruct (bm_bits b !! _); [|done]. apply land_bit, Z.mod_pos_bound. lia.
Qed.

Lemma ones_bits byte : byte_ok byte → ones byte = count_if (Z.testbit byte) (seqZ 0 8).
Proof.
  intros H. assert (Hall : Forall (λ z, ones z = count_if (Z.testbit z) (seqZ 0 8)) (seqZ 0 256)).
  { apply (bool_decide_unpack _). vm_compute. exact I. }
  rewrite Forall_forall in Hall. apply Hall, elem_of_seqZ. unfold byte_ok in H. lia.
Qed.

Lemma bit_at_cons byte bits k :
  0 <= k → bit_at (byte :: bits) k = if k <? 8 then Z.testbit byte k else bit_at bits (k - 8).
Proof.
  intros Hk. unfold bit_at. destruct (Z.ltb_spec k 8).
  - rewrite Z.div_small, Z.mod_small by lia. done.
  - assert (E1 : k / 8 = Z.succ ((k - 8) / 8))
      by (replace k with ((k - 8) + 1 * 8) at 1 by lia; rewrite Z.div_add by lia; lia).
    assert (E2 : k mod 8 = (k - 8) mod 8)
      by (replace k with ((k - 8) + 1 * 8) at 1 by lia; apply Z.mod_add; lia).
    rewrite E1, E2, Z2Nat.inj_succ by (apply Z.div_pos; lia). done.
Qed.

Lemma sum_ones_bits bits :
  bytes_ok bits → sum_ones bits = count_if (bit_at bits) (seqZ 0 (8 * Z.of_nat (length bits))).
Proof.
  induction 1 as [|byte bits Hb _ IH]; [done|]. cbn [sum_ones foldr]. fold (sum_ones bits).
  rewrite IH, ones_bits by exact Hb. cbn [length].
  replace (8 * Z.of_nat (S (length bits))) with (8 + 8 * Z.of_nat (length bits)) by lia.
  rewrite seqZ_app, count_if_app by lia. apply (f_equal2 Z.add).
  - apply count_if_ext, Forall_forall. intros k Hk%elem_of_seqZ. rewrite bit_at_cons by lia.
    by rewrite (proj2 (Z.ltb_lt _ _)) by lia.
  - replace (0 + 8) with (8 + 0) by lia. rewrite <- fmap_add_seqZ, count_if_fmap.
    apply count_if_ext, Forall_forall. intros k Hk%elem_of_seqZ. rewrite bit_at_cons by lia.
    rewrite (proj2 (Z.ltb_ge _ _)) by lia. f_equal. lia.
Qed.

(** The representation invariant. *)
Record bitmap_wf (b : ChunkBitmap) : Prop := {
  bw_total : 1 <= bm_total b;
  bw_length : Z.of_nat (length (bm_bits b)) = (bm_total b + 7) / 8;
  bw_bytes : bytes_ok (bm_bits b);
  bw_count : bm_count b = count_if (has b) (chunk_numbers (bm_total b));
  bw_padding : ∀ k, bm_total b <= k → bit_at (bm_bits b) k = false;
}.

(** The chunks of the bitmap, as the set it stands for. *)
Definition chunks_in (b : ChunkBitmap) : gset Z :=
  list_to_set (filter (λ n, has b n = true) (chunk_numbers (bm_total b))).

Lemma elem_chunk_numbers n total : n ∈ chunk_numbers total ↔ 1 <= n <= total.
Proof. unfold chunk_numbers. rewrite elem_of_seqZ. lia. Qed.

Lemma elem_chunks_in b n : n ∈ chunks_in b ↔ 1 <= n <= bm_total b ∧ has b n = true.
Proof.
  unfold chunks_in. rewrite elem_of_list_to_set, list_elem_of_filter, elem_chunk_numbers. tauto.
Qed.

Lemma count_shift b :
  count_if (has b) (chunk_numbers (bm_total b)) =
    count_if (bit_at (bm_bits b)) (seqZ 0 (bm_total b)).
Proof.
  unfold chunk_numbers. replace 1 with (1 + 0) by lia. rewrite <- fmap_add_seqZ, count_if_fmap.
  apply count_if_ext, Forall_forall. intros k _. rewrite has_bit. f_equal. lia.
Qed.

(** A bitmap is complete iff it holds every chunk. *)
Lemma is_complete_iff b :
  bitmap_wf b → is_complete b = true ↔ ∀ n, 1 <= n <= bm_total b → has b n = true.
Proof.
  intros W. unfold is_complete. rewrite Z.eqb_eq, (bw_count b W).
  pose proof (count_if_full (has b) (chunk_numbers (bm_total b))) as H. pose proof (bw_total b W).
  unfold chunk_numbers in H at 2. rewrite length_seqZ, Z2Nat.id in H by lia. rewrite H, Forall_forall.
  split; intros Hn n Hr; apply Hn; by apply elem_chunk_numbers.
Qed.

Lemma bit_at_alter f i (bits : list Z) k :
  0 <= k →
  bit_at (alter f i bits) k =
    if decide (Z.to_nat (k / 8) = i)
    then match bits !! i with Some byte => Z.testbit (f byte) (k mod 8) | None => false end
    else bit_at bits k.
Proof.
  intros Hk. unfold bit_at. rewrite list_lookup_alter.
  destruct (decide (i = Z.to_nat (k / 8))) as [->|Hne].
  - rewrite decide_True by done. by destruct (bits !! _).
  - by rewrite decide_False by congruence.
Qed.

Lemma testbit_mask b m i :
  0 <= i → 0 <= m → Z.testbit (Z.land b (Z.shiftl 1 m - 1)) i = Z.testbit b i && (i <? m).
Proof.
  intros Hi Hm. rewrite Z.land_spec. f_equal.
  replace (Z.shiftl 1 m - 1) with (Z.ones m) by (unfold Z.ones; lia).
  rewrite Z.testbit_ones by done. by rewrite (proj2 (Z.leb_le _ _) Hi).
Qed.

Lemma byte_ok_land b c : byte_ok b → 0 <= c → byte_ok (Z.land b c).
Proof.
  intros [H1 H2] Hc. split; [apply Z.land_nonneg; by left|].
  assert (E : b = Z.land b c + Z.ldiff b c).
  { rewrite Z.add_nocarry_lxor; apply Z.bits_inj'; intros k _;
      rewrite ?Z.lxor_spec, ?Z.land_spec, ?Z.ldiff_spec, ?Z.bits_0;
      by destruct (Z.testbit b k), (Z.testbit c k). }
  assert (0 <= Z.ldiff b c) by (apply Z.ldiff_nonneg; by left). lia.
Qed.

Lemma byte_ok_lor b i : byte_ok b → 0 <= i < 8 → byte_ok (Z.lor b (Z.shiftl 1 i)).
Proof.
  intros Hb Hi. assert (Hall : Forall (λ i, Forall (λ b, 0 <= Z.lor b (Z.shiftl 1 i) < 256) (seqZ 0 256)) (seqZ 0 8)).
  { apply (bool_decide_unpack _). vm_compute. exact I. }
  rewrite Forall_forall in Hall. specialize (Hall i). rewrite Forall_forall in Hall.
  apply Hall; apply elem_of_seqZ; unfold byte_ok in Hb; lia.
Qed.

Lemma bytes_ok_alter f i (bits : list Z) :
  bytes_ok bits → (∀ b, byte_ok b → byte_ok (f b)) → bytes_ok (alter f i bits).
Proof.
  intros H Hf. apply Forall_alter; [exact H|]. intros b _. apply Hf.
Qed.

Lemma length_bound total : 1 <= total → total <= (total + 7) / 8 * 8 < total + 8.
Proof. intros H. pose proof (Z.div_mod (total + 7) 8 ltac:(lia)). pose proof (Z.mod_pos_bound (total + 7) 8 ltac:(lia)). lia. Qed.

Lemma bit_at_beyond (bits : list Z) k : 8 * Z.of_nat (length bits) <= k → bit_at bits k = false.
Proof.
  intros H. unfold bit_at. rewrite lookup_ge_None_2; [done|].
  assert (Z.of_nat (length bits) <= k / 8) by (apply Z.div_le_lower_bound; lia). lia.
Qed.

(** The bits of a bitmap sent by the peer, without the padding. *)
Lemma bitmap_load_bits total bitmap b :
  1 <= total → bitmap_load total bitmap = Ok b →
  bm_total b = total ∧ length (bm_bits b) = length bitmap ∧
  Z.of_nat (length bitmap) = (total + 7) / 8 ∧ bm_count b = sum_ones (bm_bits b) ∧
  (bytes_ok bitmap → bytes_ok (bm_bits b)) ∧
  ∀ k, 0 <= k → bit_at (bm_bits b) k = (k <? total) && bit_at bitmap k.
Proof.
  intros Ht H. apply bind_Ok in H as ([] & Hl%guard_or_Ok & [= <-]). apply Z.eqb_eq in Hl.
  pose proof (length_bound total Ht) as Hb. cbn [bm_total bm_bits bm_count].
  destruct (Z.eqb_spec (Z.of_nat (length bitmap) * 8 - total) 0) as [E|E].
  - repeat split; try done. intros k Hk. destruct (Z.ltb_spec k total); [done|].
    rewrite bit_at_beyond; [done|lia].
  - rewrite length_alter. repeat split; try done.
    { intros Hok. apply bytes_ok_alter; [done|]. intros b0 Hb0. apply byte_ok_land; [done|].
      rewrite Z.shiftl_1_l. pose proof (Z.pow_pos_nonneg 2 (8 - (Z.of_nat (length bitmap) * 8 - total))). lia. }
    intros k Hk. rewrite bit_at_alter by done. pose proof (Z.div_mod k 8 ltac:(lia)).
    pose proof (Z.mod_pos_bound k 8 ltac:(lia)). case_decide as Hi.
    + assert (Ek : k / 8 = Z.of_nat (length bitmap) - 1) by lia. unfold bit_at. rewrite Hi.
      destruct (bitmap !! (length bitmap - 1)%nat); [|by rewrite andb_false_r].
      rewrite testbit_mask by lia.
      rewrite andb_comm. f_equal. destruct (Z.ltb_spec k total), (Z.ltb_spec (k mod 8)
        (8 - (Z.of_nat (length bitmap) * 8 - total))); lia || done.
    + destruct (Z.ltb_spec k total); [done|]. apply bit_at_beyond.
      destruct (Z.lt_ge_cases k (8 * Z.of_nat (length bitmap))); [|done].
      exfalso. apply Hi. assert (k / 8 = Z.of_nat (length bitmap) - 1); [|lia].
      symmetry. apply (Z.div_unique k 8 _ (k - 8 * (Z.of_nat (length bitmap) - 1))); lia.
Qed.

Lemma count_prefix p total m :
  0 <= total <= m → (∀ k, total <= k → p k = false) →
  count_if p (seqZ 0 m) = count_if p (seqZ 0 total).
Proof.
  intros H Hp. replace m with (total + (m - total)) by lia.
  rewrite seqZ_app, count_if_app by lia. rewrite (count_if_ext p (λ _, false) (seqZ (0 + total) _)).
  - assert (E : ∀ l : list Z, count_if (λ _, false) l = 0) by (induction l; done). rewrite E. lia.
  - apply Forall_forall. intros k Hk%elem_of_seqZ. apply Hp. lia.
Qed.

Lemma bitmap_load_wf total bitmap b :
  1 <= total → bytes_ok bitmap → bitmap_load total bitmap = Ok b → bitmap_wf b.
Proof.
  intros Ht Hok H. destruct (bitmap_load_bits total bitmap b Ht H) as (H1 & H2 & H3 & H4 & H5 & H6).
  pose proof (length_bound total Ht).
  assert (Hpad : ∀ k, total <= k → bit_at (bm_bits b) k = false).
  { intros k Hk. rewrite H6 by lia. by rewrite (proj2 (Z.ltb_ge _ _)). }
  split; rewrite ?H1; [done|by rewrite H2|by apply H5| |done].
  rewrite H4, sum_ones_bits by (by apply H5). rewrite <- H1 at 1. rewrite count_shift, H1.
  apply count_prefix; [rewrite H2; lia|done].
Qed.

Lemma bit_at_zeros n k : bit_at (replicate n 0) k = false.
Proof.
  unfold bit_at. destruct (replicate n 0 !! Z.to_nat (k / 8)) eqn:E; [|done].
  apply lookup_replicate in E as [-> _]. apply Z.bits_0.
Qed.

Lemma bitmap_empty_wf total :
  1 <= total → ∃ b, ChunkBitmap_init total None = Ok b ∧ bitmap_wf b ∧ bm_total b = total ∧
    ∀ n, has b n = false.
Proof.
  intros Ht. unfold ChunkBitmap_init. rewrite (proj2 (Z.ltb_ge _ _) Ht). cbn. eexists.
  split; [reflexivity|]. pose proof (length_bound total Ht).
  set (b := mkBitmap total _ 0).
  assert (Hhas : ∀ n, has b n = false) by (intros n; rewrite has_bit; apply bit_at_zeros).
  split; [|done]. split; cbn [bm_total bm_bits bm_count b]; [done| | | |].
  - rewrite length_replicate, Z2Nat.id; lia.
  - apply Forall_replicate. unfold byte_ok. lia.
  - rewrite (count_if_ext _ (λ _, false)) by (by apply Forall_true).
    generalize (chunk_numbers total). by induction l.
  - intros k _. apply bit_at_zeros.
Qed.

Lemma lor_bit byte i j :
  0 <= i → 0 <= j → Z.testbit (Z.lor byte (Z.shiftl 1 i)) j = Z.testbit byte j || (j =? i).
Proof.
  intros Hi Hj. rewrite Z.lor_spec. f_equal. rewrite Z.shiftl_spec by done.
  destruct (Z.eqb_spec j i) as [->|Hne]; [by rewrite Z.sub_diag|].
  destruct (Z.lt_ge_cases j i); [apply Z.testbit_neg_r; lia|]. change 1 with (2 ^ 0).
  apply Z.pow2_bits_false. lia.
Qed.

(** Marking a chunk. *)
Lemma mark_spec b n :
  bitmap_wf b → 1 <= n <= bm_total b →
  ∃ b', mark b n = (Ok (negb (has b n)), b') ∧ bitmap_wf b' ∧ bm_total b' = bm_total b ∧
    ∀ m, 1 <= m → has b' m = has b m || (m =? n).
Proof.
  intros W Hn. unfold mark. rewrite (proj2 (Z.leb_le _ _)), (proj2 (Z.leb_le _ _)) by lia. cbn [andb negb].
  destruct (has b n) eqn:E.
  { exists b. repeat split; try apply W. intros m _. destruct (Z.eqb_spec m n) as [->|]; [by rewrite E|].
    by rewrite orb_false_r. }
  destruct (split8 (n - 1)) as [-> ->]. eexists. split; [reflexivity|]. set (b' := mkBitmap _ _ _).
  pose proof (length_bound _ (bw_total b W)) as Hlen. pose proof (Z.mod_pos_bound (n - 1) 8 ltac:(lia)).
  assert (Hbit : ∀ k, 0 <= k → bit_at (bm_bits b') k = bit_at (bm_bits b) k || (k =? n - 1)).
  { intros k Hk. cbn [b' bm_bits]. rewrite bit_at_alter by done. pose proof (Z.div_mod k 8 ltac:(lia)).
    pose proof (Z.div_mod (n - 1) 8 ltac:(lia)). pose proof (Z.div_pos k 8 Hk ltac:(lia)).
    pose proof (Z.div_pos (n - 1) 8 ltac:(lia) ltac:(lia)). case_decide as Ei.
    - unfold bit_at. rewrite Ei. destruct (lookup_lt_is_Some_2 (bm_bits b) (Z.to_nat ((n - 1) / 8))) as [x Hx].
      { pose proof (bw_length b W). assert ((n - 1) / 8 < Z.of_nat (length (bm_bits b))); [|lia].
        apply Z.div_lt_upper_bound; lia. }
      rewrite Hx, lor_bit by (try apply Z.mod_pos_bound; lia). f_equal.
      destruct (Z.eqb_spec (k mod 8) ((n - 1) mod 8)), (Z.eqb_spec k (n - 1)); lia || done.
    - destruct (Z.eqb_spec k (n - 1)) as [->|]; [done|by rewrite orb_false_r]. }
  assert (Hhas : ∀ m, 1 <= m → has b' m = has b m || (m =? n)).
  { intros m Hm. rewrite !has_bit, Hbit by lia. f_equal.
    destruct (Z.eqb_spec (m - 1) (n - 1)), (Z.eqb_spec m n); lia || done. }
  split; [|by split]. split; cbn [b' bm_total bm_count]; [apply W| | | |].
  - unfold b'. cbn [bm_bits]. rewrite length_alter. apply W.
  - apply bytes_ok_alter; [apply W|]. intros x Hx. by apply byte_ok_lor.
  - rewrite (bw_count b W). symmetry. apply (count_if_add (has b) _ _ n); [apply NoDup_seqZ|by apply elem_chunk_numbers|done|..].
    + rewrite Hhas, Z.eqb_refl by lia. by rewrite orb_true_r.
    + intros m Hm%elem_chunk_numbers Hne. rewrite Hhas by lia.
      by rewrite (proj2 (Z.eqb_neq _ _) Hne), orb_false_r.
  - intros k Hk. pose proof (bw_total b W). rewrite Hbit by lia. rewrite (bw_padding b W k Hk).
    apply Z.eqb_neq. lia.
Qed.

Lemma count_if_size (p : Z → bool) l :
  NoDup l → count_if p l = Z.of_nat (size (list_to_set (C := gset Z) (filter (λ n, p n = true) l))).
Proof.
  intros H. rewrite size_list_to_set by (by apply NoDup_filter).
  induction l as [|x l IH]; [done|]. apply NoDup_cons in H as [_ H]. cbn [count_if foldr].
  fold (count_if p l). rewrite filter_cons, IH by done. destruct (p x); case_decide; cbn [length]; lia || done.
Qed.

Lemma list_find_head {A} (Q : A → Prop) `{∀ x, Decision (Q x)} l :
  snd <$> list_find Q l = head (filter Q l).
Proof.
  induction l as [|x l IH]; [done|]. cbn [list_find]. rewrite filter_cons. case_decide; [done|].
  rewrite <- IH. by destruct (list_find Q l).
Qed.

Lemma missing_nil b : bitmap_wf b → missing b = [] ↔ is_complete b = true.
Proof.
  intros W. rewrite is_complete_iff by done. unfold missing. split.
  - intros H n Hn. destruct (has b n) eqn:E; [done|]. exfalso.
    apply (not_elem_of_nil n). rewrite <- H. apply list_elem_of_filter.
    split; [done|by apply elem_chunk_numbers].
  - intros H. apply list.nil_length_inv. destruct (filter _ _) as [|n l] eqn:E; [done|].
    assert (Hn : n ∈ n :: l) by by left. rewrite <- E in Hn.
    apply list_elem_of_filter in Hn as [Hn Hr%elem_chunk_numbers]. by rewrite H in Hn.
Qed.

(** The chunk bitmap is the finite set of received chunks: marking a
    number in range answers whether it was new and adds exactly it, marking
    any other number is refused and changes nothing; the count is the size
    of the set, the bitmap is complete iff no chunk is missing, and the
    missing chunks are exactly the rest, the first one first. *)
Theorem bitmap_refines_set b n :
  bitmap_wf b →
  let '(r, b') := mark b n in
  bitmap_wf b' ∧ bm_total b' = bm_total b ∧
  (if decide (1 <= n <= bm_total b)
   then r = Ok (bool_decide (n ∉ chunks_in b)) ∧ chunks_in b' = {[n]} ∪ chunks_in b
   else r = Err TransferValidationError ∧ b' = b) ∧
  bm_count b' = Z.of_nat (size (chunks_in b')) ∧
  (is_complete b' = true ↔ missing b' = []) ∧ next_missing b' = head (missing b') ∧
  (∀ m, m ∈ missing b' ↔ 1 <= m <= bm_total b' ∧ m ∉ chunks_in b').
Proof.
  intros W.
  assert (Hend : ∀ b', bitmap_wf b' → bm_count b' = Z.of_nat (size (chunks_in b')) ∧
    (is_complete b' = true ↔ missing b' = []) ∧ next_missing b' = head (missing b') ∧
    (∀ m, m ∈ missing b' ↔ 1 <= m <= bm_total b' ∧ m ∉ chunks_in b')).
  { intros b' W'. split; [rewrite (bw_count b' W'); apply count_if_size, NoDup_seqZ|].
    split; [symmetry; by apply missing_nil|]. split; [apply list_find_head|].
    intros m. unfold missing. rewrite list_elem_of_filter, elem_chunk_numbers, elem_chunks_in.
    destruct (has b' m); naive_solver. }
  destruct (decide (1 <= n <= bm_total b)) as [Hn|Hn].
  - destruct (mark_spec b n W Hn) as (b' & -> & W' & Ht & Hh). split; [done|]. split; [done|].
    split; [|by apply Hend]. split.
    + f_equal. symmetry. destruct (has b n) eqn:E; [apply bool_decide_false|apply bool_decide_true];
        rewrite elem_chunks_in, E; naive_solver.
    + apply set_eq. intros m. rewrite elem_of_union, elem_of_singleton, !elem_chunks_in, Ht.
      destruct (Z.lt_ge_cases m 1); [naive_solver lia|]. rewrite Hh by done.
      rewrite orb_true_iff, Z.eqb_eq. naive_solver.
  - unfold mark. destruct ((1 <=? n) && (n <=? bm_total b)) eqn:E; [breflect; lia|]. cbn [negb].
    split; [done|]. split; [done|]. split; [done|]. by apply Hend.
Qed.

Definition sample_bitmap : ChunkBitmap := mkBitmap 10 [5; 2] 3.

Lemma sample_bitmap_wf : bitmap_wf sample_bitmap.
Proof. by apply (bitmap_load_wf 10 [5; 2]); [lia|repeat constructor; unfold byte_ok; lia|]. Qed.

Lemma bitmap_refines_set_witness :
  let '(r, b') := mark sample_bitmap 2 in
  r = Ok (bool_decide (2 ∉ chunks_in sample_bitmap)) ∧ bm_count b' = Z.of_nat (size (chunks_in b')).
Proof.
  pose proof (bitmap_refines_set sample_bitmap 2 sample_bitmap_wf) as H.
  destruct (mark sample_bitmap 2) as [r b']. destruct H as (_ & _ & H1 & H2 & _).
  exact (conj (proj1 H1) H2).
Defined.

(** ** Resume bitmaps *)

Lemma byte_bits_high b i : byte_ok b → 8 <= i → Z.testbit b i = false.
Proof.
  intros [H1 H2] Hi. destruct (Z.eq_dec b 0) as [->|]; [apply Z.bits_0|].
  apply Z.bits_above_log2; [done|]. assert (Z.log2 b < 8); [|lia]. apply Z.log2_lt_pow2; lia.
Qed.

Lemma bits_ext (l l' : list Z) :
  length l = length l' → bytes_ok l → bytes_ok l' → (∀ k, 0 <= k → bit_at l k = bit_at l' k) → l = l'.
Proof.
  intros Hlen H1 H2 H. apply (list_eq_same_length _ _ (length l)); [done..|].
  intros i x y Hi Hx Hy. unfold bytes_ok in H1, H2. rewrite Forall_lookup in H1, H2.
  apply Z.bits_inj'. intros j Hj.
  destruct (Z.lt_ge_cases j 8) as [Hj8|Hj8].
  - specialize (H (8 * Z.of_nat i + j) ltac:(lia)). unfold bit_at in H.
    rewrite <- (Z.div_unique (8 * Z.of_nat i + j) 8 (Z.of_nat i) j),
      <- (Z.mod_unique (8 * Z.of_nat i + j) 8 (Z.of_nat i) j), Nat2Z.id, Hx, Hy in H by lia. done.
  - by rewrite !byte_bits_high by eauto.
Qed.

Lemma bitmap_ext b b' :
  bitmap_wf b → bitmap_wf b' → bm_total b = bm_total b' → length (bm_bits b) = length (bm_bits b') →
  (∀ k, 0 <= k → bit_at (bm_bits b) k = bit_at (bm_bits b') k) → b = b'.
Proof.
  intros W W' Ht Hl Hb. assert (E : bm_bits b = bm_bits b') by (apply bits_ext; [done|apply W|apply W'|done]).
  assert (Ec : bm_count b = bm_count b').
  { rewrite (bw_count b W), (bw_count b' W'), !count_shift, Ht. by rewrite E. }
  destruct b, b'. cbn in *. by subst.
Qed.

(** A resume bitmap survives the wire, and an untrusted one is made
    safe: reading back what [to_b64] wrote gives the same bitmap, and
    whatever text the peer sends is refused or becomes a well-formed
    bitmap of the right size, whose count no padding bit can inflate and
    which is complete only if it claims every chunk. *)
Theorem resume_bitmap_roundtrip b s total :
  (bitmap_wf b → from_b64 (to_b64 b) (bm_total b) = Ok b) ∧
  (∀ b', from_b64 s total = Ok b' → bitmap_wf b' ∧ bm_total b' = total ∧
     bm_count b' = Z.of_nat (size (chunks_in b')) ∧
     (is_complete b' = true ↔ ∀ n, 1 <= n <= total → n ∈ chunks_in b')).
Proof.
  split.
  - intros W. unfold from_b64, to_b64. rewrite b64_roundtrip by apply W. cbn [of_option mbind result_bind].
    unfold ChunkBitmap_init. pose proof (bw_total b W) as Ht. rewrite (proj2 (Z.ltb_ge _ _) Ht).
    cbn [negb guard_or mbind result_bind].
    destruct (bitmap_load (bm_total b) (bm_bits b)) as [b'|e] eqn:E.
    2: { unfold bitmap_load in E. rewrite (proj2 (Z.eqb_eq _ _) (bw_length b W)) in E. discriminate. }
    destruct (bitmap_load_bits _ _ _ Ht E) as (H1 & H2 & _ & H4 & H5 & H6).
    pose proof (bitmap_load_wf _ _ _ Ht (bw_bytes b W) E) as W'. f_equal.
    apply (bitmap_ext b' b W' W H1 H2). intros k Hk. rewrite H6 by done.
    destruct (Z.ltb_spec k (bm_total b)); [done|]. symmetry. by apply (bw_padding b W).
  - intros b' H. apply bind_Ok in H as (raw & Hraw%of_option_Ok & H).
    unfold ChunkBitmap_init in H. apply bind_Ok in H as ([] & Ht%guard_or_Ok & H). breflect.
    pose proof (bitmap_load_wf total raw b' Ht (b64decode_ok _ _ Hraw) H) as W.
    pose proof (proj1 (bitmap_load_bits total raw b' Ht H)) as E. split; [done|]. split; [done|].
    split; [rewrite (bw_count b' W); apply count_if_size, NoDup_seqZ|].
    rewrite (is_complete_iff b' W), E. split; intros Hn n Hr; specialize (Hn n Hr).
    + apply elem_chunks_in. by rewrite E.
    + by apply elem_chunks_in in Hn as [_ ?].
Qed.

Lemma resume_bitmap_roundtrip_witness :
  from_b64 (to_b64 sample_bitmap) (bm_total sample_bitmap) = Ok sample_bitmap.
Proof. exact (proj1 (resume_bitmap_roundtrip sample_bitmap EmptyString 1) sample_bitmap_wf). Defined.

(** ** Reading and writing chunks *)

(** The bytes of chunk [n]. *)
Definition chunk_of (file : list Z) (chunk_size n : Z) : list Z :=
  take (Z.to_nat chunk_size) (drop (Z.to_nat ((n - 1) * chunk_size)) file).

Definition read_all (r : ChunkReader) (ns : list Z) : ChunkReader :=
  foldl (λ r n, (read r n).2) r ns.

Lemma read_keeps r n :
  rd_pos r = rd_cursor r →
  let r' := (read r n).2 in
  rd_pos r' = rd_cursor r' ∧ rd_file r' = rd_file r ∧ rd_chunk_size r' = rd_chunk_size r ∧
  rd_total r' = rd_total r.
Proof.
  intros H. unfold read. destruct (expected_length r n); [|done]. cbv zeta.
  destruct (Z.eqb_spec ((n - 1) * rd_chunk_size r) (rd_cursor r)) as [E|_];
    case_bool_decide; cbn [snd rd_pos rd_cursor rd_file rd_chunk_size rd_total]; repeat split; lia.
Qed.

Lemma read_all_keeps r ns :
  rd_pos r = rd_cursor r →
  let r' := read_all r ns in
  rd_pos r' = rd_cursor r' ∧ rd_file r' = rd_file r ∧ rd_chunk_size r' = rd_chunk_size r ∧
  rd_total r' = rd_total r.
Proof.
  revert r. induction ns as [|n ns IH]; intros r H; [done|]. cbn [read_all foldl].
  destruct (read_keeps r n H) as (H1 & H2 & H3 & H4). destruct (IH _ H1) as (G1 & G2 & G3 & G4).
  cbv zeta in *. unfold read_all in *. repeat split; congruence.
Qed.

(** Skipping seeks is sound: whatever chunks were read before, in
    whatever order, failed reads included, reading chunk [n] of the file
    gives its bytes, and a number outside the file's chunks is refused. *)
Theorem reader_returns_chunk (file : list Z) chunk_size total ns n :
  1 <= chunk_size →
  let r := read_all (ChunkReader_open file chunk_size total) ns in
  (read r n).1 =
    if decide (1 <= n <= total ∧ (n - 1) * chunk_size < Z.of_nat (length file))
    then Ok (chunk_of file chunk_size n) else Err TransferValidationError.
Proof.
  intros Hc r. destruct (read_all_keeps (ChunkReader_open file chunk_size total) ns eq_refl)
    as (H1 & H2 & H3 & H4). fold r in H1, H2, H3, H4. cbn in H2, H3, H4. clearbody r.
  unfold read, expected_length. rewrite H3, H4.
  destruct ((1 <=? n) && (n <=? total)) eqn:E.
  2: { rewrite decide_False; [done|]. intros [Hn _]. rewrite andb_false_iff, !Z.leb_gt in E. lia. }
  breflect. cbn [guard_or mbind result_bind]. rewrite H2.
  assert (Epos : (if (n - 1) * chunk_size =? rd_cursor r then rd_pos r else (n - 1) * chunk_size) =
    (n - 1) * chunk_size) by (destruct (Z.eqb_spec ((n - 1) * chunk_size) (rd_cursor r)); lia).
  rewrite Epos. fold (chunk_of file chunk_size n).
  assert (Hnn : 0 <= (n - 1) * chunk_size) by (apply Z.mul_nonneg_nonneg; lia).
  assert (Hempty : chunk_of file chunk_size n = [] ↔ Z.of_nat (length file) <= (n - 1) * chunk_size).
  { rewrite <- length_zero_iff_nil. unfold chunk_of. rewrite length_take, length_drop. lia. }
  case_bool_decide as Hd; cbn [fst].
  - rewrite decide_False; [done|]. apply Hempty in Hd. lia.
  - rewrite decide_True; [done|]. rewrite Hempty in Hd. lia.
Qed.

Lemma reader_returns_chunk_witness :
  (read (read_all (ChunkReader_open [1; 2; 3; 4; 5] 2 3) [3; 9; 1]) 2).1 = Ok [3; 4].
Proof. exact (reader_returns_chunk [1; 2; 3; 4; 5] 2 3 [3; 9; 1] 2 ltac:(lia)). Defined.

Lemma lookup_write_at (file data : list Z) off i :
  data ≠ [] →
  write_at file off data !! i =
    if (i <? off)%nat then (if (i <? length file)%nat then file !! i else Some 0)
    else if (i <? off + length data)%nat then data !! (i - off)%nat else file !! i.
Proof.
  intros Hd. unfold write_at. rewrite bool_decide_false by done.
  assert (Hlen : length (take off (file ++ replicate (off - length file) 0)) = off)
    by (rewrite length_take, length_app, length_replicate; lia).
  destruct (Nat.ltb_spec i off).
  - rewrite lookup_app_l by lia. rewrite lookup_take_lt by lia. destruct (Nat.ltb_spec i (length file)).
    + by rewrite lookup_app_l.
    + rewrite lookup_app_r by lia. rewrite lookup_replicate_2 by lia. done.
  - rewrite lookup_app_r by lia. rewrite Hlen. destruct (Nat.ltb_spec i (off + length data)).
    + by rewrite lookup_app_l by lia.
    + rewrite lookup_app_r by lia. rewrite lookup_drop. f_equal. lia.
Qed.

Lemma length_write_at (file data : list Z) off :
  data ≠ [] → length (write_at file off data) = Nat.max (length file) (off + length data).
Proof.
  intros Hd. unfold write_at. rewrite bool_decide_false by done.
  rewrite !length_app, length_take, length_app, length_replicate, length_drop. lia.
Qed.

(** The part file holds chunk [n] of [file]. *)
Definition holds (file part : list Z) (chunk_size n : Z) : Prop :=
  ∀ i, (n - 1) * chunk_size <= Z.of_nat i < n * chunk_size → (i < length file)%nat →
    part !! i = file !! i.

Lemma length_chunk_of file chunk_size n :
  1 <= chunk_size → 1 <= n →
  Z.of_nat (length (chunk_of file chunk_size n)) =
    Z.max 0 (Z.min chunk_size (Z.of_nat (length file) - (n - 1) * chunk_size)).
Proof.
  intros Hc Hn. unfold chunk_of. rewrite length_take, length_drop.
  assert (0 <= (n - 1) * chunk_size) by (apply Z.mul_nonneg_nonneg; lia). lia.
Qed.

(** Writing a chunk of the file keeps what is already right. *)
Lemma write_chunk_holds file part chunk_size n m :
  1 <= chunk_size → 1 <= n → 1 <= m → (n - 1) * chunk_size < Z.of_nat (length file) →
  (length part <= length file)%nat →
  let part' := write_chunk part n chunk_size (chunk_of file chunk_size n) in
  (length part' <= length file)%nat ∧
  (m = n ∨ holds file part chunk_size m → holds file part' chunk_size m).
Proof.
  intros Hc Hn Hm Hlt Hlen. cbv zeta. pose proof (length_chunk_of file chunk_size n Hc Hn) as Hl.
  assert (H0 : 0 <= (n - 1) * chunk_size) by (apply Z.mul_nonneg_nonneg; lia).
  assert (Hd : chunk_of file chunk_size n ≠ []).
  { intros E. rewrite E in Hl. cbn in Hl. lia. }
  unfold write_chunk. split; [rewrite length_write_at by done; lia|].
  intros H i Hi Hf. rewrite lookup_write_at by done.
  destruct (Nat.ltb_spec i (Z.to_nat ((n - 1) * chunk_size))).
  - destruct H as [->|H]; [lia|]. specialize (H i Hi Hf). apply lookup_lt_is_Some_2 in Hf as [x Hx].
    rewrite Hx in H. apply lookup_lt_Some in H as H'. rewrite (proj2 (Nat.ltb_lt _ _) H'). by rewrite H, Hx.
  - destruct (Nat.ltb_spec i (Z.to_nat ((n - 1) * chunk_size) + length (chunk_of file chunk_size n))).
    + unfold chunk_of. rewrite lookup_take_lt, lookup_drop by lia. f_equal. lia.
    + destruct H as [->|H]; [nia|]. by apply H.
Qed.

(** A part file that holds every chunk is the file. *)
Lemma holds_all file part chunk_size total :
  1 <= chunk_size → Z.of_nat (length file) <= total * chunk_size →
  (length part <= length file)%nat →
  (∀ n, 1 <= n <= total → holds file part chunk_size n) → part = file.
Proof.
  intros Hc Ht Hl H. apply list_eq. intros i. destruct (Nat.lt_ge_cases i (length file)) as [Hi|Hi].
  - pose proof (Z.div_mod (Z.of_nat i) chunk_size ltac:(lia)).
    pose proof (Z.mod_pos_bound (Z.of_nat i) chunk_size ltac:(lia)).
    assert (0 <= Z.of_nat i / chunk_size < total)
      by (split; [apply Z.div_pos; lia|apply Z.div_lt_upper_bound; nia]).
    apply (H (Z.of_nat i / chunk_size + 1)); [lia|nia|done].
  - rewrite !lookup_ge_None_2 by lia. done.
Qed.

(** The number of chunks the manifest computes. *)
Definition chunk_count (size chunk_size : Z) : Z := (size + chunk_size - 1) / chunk_size.

Lemma chunk_count_spec size chunk_size :
  1 <= size → 1 <= chunk_size →
  1 <= chunk_count size chunk_size ∧
  (chunk_count size chunk_size - 1) * chunk_size < size <= chunk_count size chunk_size * chunk_size.
Proof.
  intros Hs Hc. unfold chunk_count. pose proof (Z.div_mod (size + chunk_size - 1) chunk_size ltac:(lia)).
  pose proof (Z.mod_pos_bound (size + chunk_size - 1) chunk_size ltac:(lia)).
  assert (1 <= (size + chunk_size - 1) / chunk_size) by (apply Z.div_le_lower_bound; lia). nia.
Qed.

Definition write_all (file : list Z) (chunk_size : Z) (order : list Z) : list Z :=
  foldl (λ part n, write_chunk part n chunk_size (chunk_of file chunk_size n)) [] order.

(** Every chunk written so far stays right. *)
Lemma write_order_holds file chunk_size total order part (seen : list Z) :
  1 <= chunk_size → (total - 1) * chunk_size < Z.of_nat (length file) →
  Forall (λ n, 1 <= n <= total) order → (length part <= length file)%nat →
  (∀ n, 1 <= n → n ∈ seen → holds file part chunk_size n) →
  let part' := foldl (λ p n, write_chunk p n chunk_size (chunk_of file chunk_size n)) part order in
  (length part' <= length file)%nat ∧
  ∀ n, 1 <= n → n ∈ seen ∨ n ∈ order → holds file part' chunk_size n.
Proof.
  intros Hc Hlast. revert part seen. induction order as [|n order IH]; intros part seen Hr Hl Hseen.
  { split; [done|]. intros n Hn [H|H%elem_of_nil]; [by apply Hseen|done]. }
  apply Forall_cons in Hr as [Hn Hr]. cbn [foldl].
  destruct (write_chunk_holds file part chunk_size n n Hc) as [Hl' _]; [lia|lia|nia|done|].
  destruct (IH (write_chunk part n chunk_size (chunk_of file chunk_size n)) (n :: seen) Hr Hl')
    as [G1 G2].
  { intros m Hm H. apply write_chunk_holds; [done|lia|done|nia|done|].
    apply elem_of_cons in H as [->|H]; [by left|right; by apply Hseen]. }
  split; [done|]. intros m Hm H. apply G2; [done|]. rewrite elem_of_cons in H |- *. tauto.
Qed.

(** A file is reassembled from its chunks in any order: writing them at
    their offsets into an empty part file, out of order and repeatedly, the
    gaps filled with zeros in between, gives the file back once every chunk
    was written. *)
Theorem chunks_reassemble (file : list Z) chunk_size order :
  let total := chunk_count (Z.of_nat (length file)) chunk_size in
  file ≠ [] → 1 <= chunk_size → Forall (λ n, 1 <= n <= total) order →
  (∀ n, 1 <= n <= total → n ∈ order) → write_all file chunk_size order = file.
Proof.
  intros total Hne Hc Hr Hall.
  assert (Hs : 1 <= Z.of_nat (length file)) by (destruct file; [done|cbn; lia]).
  destruct (chunk_count_spec _ chunk_size Hs Hc) as (Ht & Hlast & Hcover).
  destruct (write_order_holds file chunk_size total order [] [] Hc Hlast Hr) as [G1 G2];
    [cbn; lia|by intros ? _ ?%elem_of_nil|].
  apply (holds_all file _ chunk_size total Hc Hcover G1). intros n Hn. apply G2; [lia|].
  right. by apply Hall.
Qed.

Lemma chunks_reassemble_witness : write_all [1; 2; 3; 4; 5] 2 [3; 1; 3; 2] = [1; 2; 3; 4; 5].
Proof.
  apply chunks_reassemble.
  - discriminate.
  - lia.
  - repeat constructor; vm_compute; congruence.
  - intros n Hn. change (1 <= n <= 3) in Hn. assert (n = 1 ∨ n = 2 ∨ n = 3) as [->|[->| ->]] by lia; set_solver.
Defined.
