(* ===== verification/TransferStorage.v ===== *)
(** * Where transferred files go

    [transfer/storage.py] (file names, temp files, destinations) and
    [transfer/cleanup.py].  The temp directory maps a transfer id to the
    bytes of its part file, the download directory a file name to its bytes;
    neither holds symbolic links, and the operating system refuses nothing.
    [unicodedata.normalize("NFC", .)], [str.isprintable] and the blanks and
    decimal digits beyond ASCII are parameters ([UnicodeData]). *)

From S2P Require Import Prelude Text Utf8 Json Chunking.

Open Scope Z_scope.

Class UnicodeData := {
  (** [unicodedata.normalize("NFC", s)] *)
  nfc : unicode → unicode;
  (** [c.isprintable()] *)
  printable : Z → bool;
  (** [c.isspace()] for a character that is not ASCII *)
  wide_space : Z → bool;
  (** [int(c)] for a decimal digit that is not ASCII *)
  wide_digit : Z → option Z;
}.

(** Documented: no character normalizes to a path separator but the
    separator itself. *)
Class UnicodeLaws (U : UnicodeData) : Prop := {
  nfc_separators : ∀ s c, c ∈ [47; 92] → c ∉ s → c ∉ nfc s;
}.

Definition MAX_SAFE_NAME_LENGTH : nat := 120.
Definition slash : Z := 47.
Definition dot : Z := 46.
Definition space : Z := 32.

(** [name.rsplit(sep, 1)[-1]] *)
Fixpoint after_last (sep : Z) (s : unicode) : unicode :=
  match s with
  | [] => []
  | c :: s' => if bool_decide (sep ∈ s') then after_last sep s'
               else if c =? sep then s' else c :: s'
  end.

(** [CONTROL_CHARS] *)
Definition control_char (c : Z) : bool := ((0 <=? c) && (c <? 32)) || (c =? 127).

(** The part before the first dot: [name.split(".", 1)[0]] *)
Fixpoint before_dot (s : unicode) : unicode :=
  match s with c :: s' => if c =? dot then [] else c :: before_dot s' | [] => [] end.

(** [s.lower()] of the ASCII letters, which is all the reserved names hold *)
Definition ascii_lower (s : unicode) : unicode :=
  (λ c, if (65 <=? c) && (c <=? 90) then c + 32 else c) <$> s.

Definition reserved_names : list unicode :=
  cp <$> (["con"; "prn"; "aux"; "nul"] ++
          ((λ d, "com" +:+ str_of_Z d) <$> seqZ 1 9) ++ ((λ d, "lpt" +:+ str_of_Z d) <$> seqZ 1 9)).

(** [Path(name).suffix] of one component: from the last dot, unless that is
    the first or the last character. *)
Definition path_suffix (s : unicode) : unicode :=
  let ext := after_last dot s in
  if bool_decide (dot ∈ s) && negb (bool_decide (ext = []))
     && negb (bool_decide (length s = S (length ext)))
  then dot :: ext else [].

Section names.
Context {U : UnicodeData}.

Definition is_blank (c : Z) : bool :=
  if c <? 128 then ((9 <=? c) && (c <=? 13)) || ((28 <=? c) && (c <=? 32)) else wide_space c.

(** [re.sub(r"\s+", " ", s)] *)
Fixpoint squeeze (after_space : bool) (s : unicode) : unicode :=
  match s with
  | [] => []
  | c :: s' => if is_blank c then (if after_space then [] else [space]) ++ squeeze true s'
               else c :: squeeze false s'
  end.

Definition basename (s : unicode) : unicode :=
  after_last 8725 (after_last 8260 (after_last slash (after_last backslash s))).

(** Cut a name that is too long, keeping its suffix. *)
Definition shorten (name : unicode) : unicode :=
  if (MAX_SAFE_NAME_LENGTH <? length name)%nat then
    let suffix := take 10 (path_suffix name) in
    rstrip_by (λ c, (c =? dot) || (c =? space))
      (take (MAX_SAFE_NAME_LENGTH - length suffix) name) ++ suffix
  else name.

(** [sanitize_filename] *)
Definition sanitize_filename (name : unicode) : option unicode :=
  let name := nfc (basename name) in
  let name := filter (λ c, negb (control_char c) && printable c = true) name in
  let name := squeeze false (strip_by (λ c, c =? dot) (strip_by is_blank name)) in
  if bool_decide (name = []) || bool_decide (name ∈ [[dot]; [dot; dot]]) then None
  else
    let name := if bool_decide (ascii_lower (before_dot name) ∈ reserved_names)
                then 95 :: name else name in
    Some (shorten name).

(** ** Destinations *)

(** The rest of the collision pattern: an optional counter in parentheses
    and an optional extension, up to the end; the result is the extension. *)
Definition match_suffix (s : unicode) : option unicode :=
  match s with
  | [] => Some []
  | c :: s' => if (c =? dot) && negb (bool_decide (dot ∈ s')) then Some s else None
  end.

Definition match_counter (s : unicode) : option unicode :=
  match s with
  | 32 :: 40 :: s' =>
      match span_digits s' with
      | (_ :: _, 41 :: r) => match_suffix r
      | _ => None
      end
  | _ => None
  end.

Definition match_tail (s : unicode) : option unicode :=
  match match_counter s with Some r => Some r | None => match_suffix s end.

(** [_COLLISION_PATTERN.match(safe)]: the shortest stem wins. *)
Fixpoint split_name (s : unicode) : unicode * unicode :=
  match match_tail s with
  | Some suffix => ([], suffix)
  | None => match s with
            | [] => ([], [])
            | c :: s' => let '(stem, suffix) := split_name s' in (c :: stem, suffix)
            end
  end.

Definition variant (stem suffix : unicode) (number : Z) : unicode :=
  stem ++ [32; 40] ++ cp (str_of_Z number) ++ [41] ++ suffix.

(** [destination_for], as the name inside the download directory.  A name is
    one component, so that the resolved path is inside. *)
Definition destination_for (downloads : list (unicode * bytes)) (filename : unicode)
    : result TransferError unicode :=
  let safe := default (cp "ghostlink-file") (sanitize_filename filename) in
  if negb (dmem downloads safe) then Ok safe
  else
    let '(stem, suffix) := split_name safe in
    match list_find (λ n, dmem downloads (variant stem suffix n) = false) (seqZ 2 98) with
    | Some (_, n) => Ok (variant stem suffix n)
    | None => Err StorageError
    end.
End names.

(** ** Temp files *)

Record Storage := mkStorage {
  st_temp : list (unicode * bytes); st_downloads : list (unicode * bytes);
}.

(** [temp_path]'s check of an id: no separator, no [".."]. *)
Fixpoint double_dot (s : unicode) : bool :=
  match s with
  | c :: s' => ((c =? dot) && bool_decide (head s' = Some dot)) || double_dot s'
  | [] => false
  end.
Definition temp_name_ok (id : unicode) : bool :=
  negb (bool_decide (id = []) || bool_decide (slash ∈ id) || double_dot id).

(** [open_temp]: an existing part file is kept. *)
Definition open_temp (s : Storage) (id : unicode) : outcome Storage TransferError unit :=
  if negb (temp_name_ok id) then (Err TransferValidationError, s)
  else if dmem (st_temp s) id then (Ok tt, s)
  else (Ok tt, mkStorage (dset (st_temp s) id []) (st_downloads s)).

(** [write_chunk]: a missing part file is a [StorageError]. *)
Definition storage_write_chunk (s : Storage) (id : unicode) (n chunk_size : Z) (data : bytes)
    : outcome Storage TransferError unit :=
  if negb (temp_name_ok id) then (Err TransferValidationError, s)
  else
    match dget (st_temp s) id with
    | None => (Err StorageError, s)
    | Some part =>
        (Ok tt, mkStorage (dset (st_temp s) id (write_chunk part n chunk_size data))
                  (st_downloads s))
    end.

(** [temp_usage_bytes] *)
Definition temp_usage_bytes (s : Storage) : Z :=
  foldr (λ x n, Z.of_nat (length x.2) + n) 0 (st_temp s).

(** [check_quota] *)
Definition check_quota (s : Storage) (incoming limit : Z) : result TransferError unit :=
  guard_or (negb (limit <? temp_usage_bytes s + incoming)) TransferLimitError.

(** [delete_temp] *)
Definition delete_temp (s : Storage) (id : unicode) : Storage :=
  mkStorage (dpop (st_temp s) id) (st_downloads s).

(** [finalize]: [os.replace] moves the part file over whatever is there. *)
Definition finalize (s : Storage) (id destination : unicode) : outcome Storage TransferError unicode :=
  if negb (temp_name_ok id) then (Err TransferValidationError, s)
  else
    match dget (st_temp s) id with
    | None => (Err StorageError, s)
    | Some part =>
        (Ok destination,
         mkStorage (dpop (st_temp s) id) (dset (st_downloads s) destination part))
    end.

(** [cleanup_orphan_temps] *)
Definition cleanup_orphan_temps (s : Storage) (active : list unicode) : nat * Storage :=
  let orphan (x : unicode * bytes) :=
    bool_decide (take 3 x.1 = cp "tf_") && negb (bool_decide (x.1 ∈ active)) in
  (length (filter (λ x, orphan x = true) (st_temp s)),
   mkStorage (filter (λ x, orphan x = false) (st_temp s)) (st_downloads s)).

(** ** Names are safe *)

(** A name that is one component of a path: not empty, not a relative
    directory, no separator, no control character. *)
Definition clean_char (c : Z) : Prop := c ≠ slash ∧ c ≠ backslash ∧ control_char c = false.
Definition component (s : unicode) : Prop :=
  s ≠ [] ∧ s ≠ [dot] ∧ s ≠ [dot; dot] ∧ Forall clean_char s.

Lemma after_last_sub sep s c : c ∈ after_last sep s → c ∈ s.
Proof.
  induction s as [|x s IH]; [done|]. cbn [after_last]. case_bool_decide.
  - intros Hc%IH. by right.
  - destruct (x =? sep); intros Hc; [by right|done].
Qed.

Lemma after_last_none sep s : sep ∉ after_last sep s.
Proof.
  induction s as [|x s IH]; [by apply not_elem_of_nil|]. cbn [after_last]. case_bool_decide; [done|].
  destruct (Z.eqb_spec x sep) as [->|Hne]; [done|]. rewrite not_elem_of_cons. split; [congruence|done].
Qed.

Lemma drop_while_sub p s c : c ∈ drop_while p s → c ∈ s.
Proof. induction s as [|x s IH]; [done|]. cbn. destruct (p x); [|done]. intros H%IH. by right. Qed.

Lemma rstrip_sub p s c : c ∈ rstrip_by p s → c ∈ s.
Proof. unfold rstrip_by. rewrite elem_of_reverse. intros H%drop_while_sub. by apply elem_of_reverse. Qed.

Lemma strip_sub p s c : c ∈ strip_by p s → c ∈ s.
Proof. intros H%rstrip_sub. by eapply drop_while_sub. Qed.

Lemma take_sub n (s : unicode) c : c ∈ take n s → c ∈ s.
Proof. unfold unicode in *. rewrite <- (take_drop n s) at 2. intros H. apply elem_of_app. by left. Qed.

Lemma length_drop_while p s : (length (drop_while p s) <= length s)%nat.
Proof. induction s as [|x s IH]; [done|]. cbn. destruct (p x); cbn; lia. Qed.

Lemma length_rstrip p s : (length (rstrip_by p s) <= length s)%nat.
Proof. unfold rstrip_by. rewrite length_reverse. etransitivity; [apply length_drop_while|]. by rewrite length_reverse. Qed.

(** What is left of a stripped text neither starts nor ends with what was
    stripped. *)
Lemma drop_while_head p s c l : drop_while p s = c :: l → p c = false.
Proof. induction s as [|x s IH]; [done|]. cbn. destruct (p x) eqn:E; [done|]. intros [= <- <-]. done. Qed.

Lemma drop_while_suffix p s : ∃ l, s = l ++ drop_while p s.
Proof.
  induction s as [|x s [l IH]]; [by exists []|]. cbn. destruct (p x); [|by exists []].
  exists (x :: l). cbn. by rewrite <- IH.
Qed.

Lemma strip_ends p s : strip_by p s = [] ∨
  (∃ c l, strip_by p s = c :: l ∧ p c = false) ∧ (∃ c l, strip_by p s = l ++ [c] ∧ p c = false).
Proof.
  unfold strip_by, rstrip_by. set (t := drop_while p s).
  destruct (drop_while p (reverse t)) as [|c l] eqn:E; [by left|]. right.
  pose proof (drop_while_head p _ _ _ E) as Hc. split; [|by exists c, (reverse l); rewrite reverse_cons].
  destruct (drop_while_suffix p (reverse t)) as [k Hk]. rewrite E in Hk.
  apply (f_equal reverse) in Hk. rewrite reverse_involutive, reverse_app in Hk.
  destruct (reverse (c :: l)) as [|x l'] eqn:Er.
  { apply (f_equal length) in Er. rewrite length_reverse in Er. done. }
  exists x, l'. split; [done|]. cbn in Hk. by apply (drop_while_head p s x (l' ++ reverse k)).
Qed.

Section safe_names.
Context {U : UnicodeData} {L : UnicodeLaws U}.

Lemma squeeze_sub b s c : c ∈ squeeze b s → c ∈ s ∨ c = space.
Proof.
  revert b. induction s as [|x s IH]; intros b; [by intros ?%elem_of_nil|]. cbn [squeeze].
  destruct (is_blank x).
  - rewrite elem_of_app. intros [H|H%IH]; [|destruct H; [left; by right|by right]].
    right. destruct b; [by apply elem_of_nil in H|by apply list_elem_of_singleton in H].
  - intros [->|H%IH]%elem_of_cons; [left; by left|]. destruct H; [left; by right|by right].
Qed.

Lemma dot_not_blank : is_blank dot = false.
Proof. reflexivity. Qed.

(** The first and the last character, and that blanks do not pile up. *)
Lemma squeeze_nil s : squeeze false s = [] → s = [].
Proof. destruct s as [|x s]; [done|]. cbn [squeeze]. by destruct (is_blank x). Qed.

Lemma squeeze_head b s c l : squeeze b s = c :: l → c = dot → head s = Some dot ∨ b = true.
Proof.
  destruct s as [|x s]; [done|]. cbn [squeeze]. destruct (is_blank x) eqn:E.
  - destruct b; [by right|]. cbn [app]. intros [= <- <-]. discriminate.
  - intros [= -> <-] ->. by left.
Qed.

Lemma squeeze_true_head s l : squeeze true s ≠ space :: l.
Proof.
  induction s as [|x s IH]; [done|]. cbn [squeeze]. destruct (is_blank x) eqn:E; [done|].
  intros [= -> _]. discriminate.
Qed.

Lemma squeeze_adjacent s l : squeeze false s ≠ space :: space :: l.
Proof.
  destruct s as [|x s]; [done|]. cbn [squeeze]. destruct (is_blank x) eqn:E.
  - cbn [app]. intros [= H]. by apply squeeze_true_head in H.
  - intros [= -> _]. discriminate.
Qed.

Lemma squeeze_last b s k : squeeze b s = k ++ [dot] → ∃ k', s = k' ++ [dot].
Proof.
  revert b k. induction s as [|x s IH]; intros b k; cbn [squeeze]; [by destruct k|].
  destruct (is_blank x) eqn:E; intros H.
  - assert (Hl : ∃ k2, squeeze true s = k2 ++ [dot]).
    { destruct b; [by exists k|]. destruct k as [|y k]; [discriminate|]. injection H as _ H. by exists k. }
    destruct Hl as [k2 Hk2]. destruct (IH true k2 Hk2) as [k' ->]. by exists (x :: k').
  - destruct k as [|z k].
    + injection H as -> ->%squeeze_nil. by exists [].
    + injection H as -> H. destruct (IH false k H) as [k' ->]. by exists (z :: k').
Qed.

(** The text before the checks: clean, and neither end is a dot. *)
Definition cleaned (name : unicode) : unicode :=
  squeeze false (strip_by (λ c, c =? dot) (strip_by is_blank
    (filter (λ c, negb (control_char c) && printable c = true) (nfc (basename name))))).

Lemma basename_separators name : slash ∉ basename name ∧ backslash ∉ basename name.
Proof.
  unfold basename. split; intros H; do 2 apply after_last_sub in H.
  - by apply after_last_none in H.
  - apply after_last_sub in H. by apply after_last_none in H.
Qed.

Lemma cleaned_chars name : Forall clean_char (cleaned name).
Proof.
  apply Forall_forall. intros c Hc. unfold cleaned in Hc.
  apply squeeze_sub in Hc as [Hc | ->]; [|repeat split; done].
  do 2 apply strip_sub in Hc. apply list_elem_of_filter in Hc as [Hp Hc]. breflect.
  destruct (basename_separators name) as [H1 H2]. split; [|split; [|done]]; intros ->.
  - by eapply (nfc_separators _ slash); [by left| |exact Hc].
  - by eapply (nfc_separators _ backslash); [by right; left| |exact Hc].
Qed.

Lemma cleaned_ends name :
  cleaned name ≠ [] → head (cleaned name) ≠ Some dot ∧ (∀ k, cleaned name ≠ k ++ [dot]) ∧
  ∀ l, cleaned name ≠ space :: space :: l.
Proof.
  unfold cleaned. set (t := strip_by is_blank _). intros Hne.
  destruct (strip_ends (λ c, c =? dot) t) as [E|[(c & l & E1 & Hc) (c' & l' & E2 & Hc')]].
  { by rewrite E in Hne. }
  apply Z.eqb_neq in Hc, Hc'. split; [|split].
  - intros H. destruct (squeeze false _) as [|x k] eqn:Es; [done|]. injection H as ->.
    destruct (squeeze_head false _ _ _ Es eq_refl) as [H|H]; [|done].
    rewrite E1 in H. by injection H as ->.
  - intros k H. apply squeeze_last in H as [k' H]. rewrite E2 in H.
    apply app_inj_tail in H as [_ H]. congruence.
  - intros k. apply squeeze_adjacent.
Qed.

Lemma path_suffix_last s :
  dot ∈ s → head s ≠ Some dot → (∀ k, s ≠ k ++ [dot]) →
  ∃ c ext, path_suffix s = dot :: c :: ext ∧ dot ∉ c :: ext ∧ (∀ x, x ∈ c :: ext → x ∈ s).
Proof.
  intros Hd Hh Hl. unfold path_suffix. rewrite (bool_decide_true (dot ∈ s)) by done.
  pose proof (after_last_none dot s) as Hn. pose proof (after_last_sub dot s) as Hs.
  assert (Hsplit : ∃ k, s = k ++ dot :: after_last dot s).
  { clear Hh Hl Hn Hs. induction s as [|x s IH]; [by apply elem_of_nil in Hd|]. cbn [after_last].
    case_bool_decide as H; [destruct (IH H) as [k Hk]; exists (x :: k); cbn; by rewrite <- Hk|].
    apply elem_of_cons in Hd as [<-|Hd]; [|done]. rewrite Z.eqb_refl. by exists []. }
  destruct Hsplit as [k Hk]. destruct (after_last dot s) as [|c ext] eqn:E; [by apply Hl in Hk|].
  rewrite (bool_decide_false (c :: ext = [])) by done.
  rewrite (bool_decide_false (length s = _)).
  { exists c, ext. split; [done|]. split; [done|]. intros x Hx. by apply Hs. }
  rewrite Hk, length_app. cbn [length]. destruct k; [|cbn [length]; lia]. rewrite Hk in Hh. done.
Qed.

Lemma Forall_sub (Q : Z → Prop) (s t : unicode) : Forall Q t → (∀ c, c ∈ s → c ∈ t) → Forall Q s.
Proof. rewrite !Forall_forall. auto. Qed.

Lemma path_suffix_sub s c : c ∈ path_suffix s → c ∈ s.
Proof.
  unfold path_suffix. case_match eqn:E; [|by intros ?%elem_of_nil]. breflect.
  intros [->|Hc]%elem_of_cons; [done|]. by eapply after_last_sub.
Qed.

Lemma shorten_sub s c : c ∈ shorten s → c ∈ s.
Proof.
  unfold shorten. case_match; [|done]. intros [Hc|Hc]%elem_of_app.
  - by apply rstrip_sub, take_sub in Hc.
  - by apply take_sub, path_suffix_sub in Hc.
Qed.

Lemma shorten_length s : (length (shorten s) <= MAX_SAFE_NAME_LENGTH)%nat.
Proof.
  unfold shorten. destruct (Nat.ltb_spec MAX_SAFE_NAME_LENGTH (length s)); [|done].
  rewrite length_app. set (suffix := take 10 (path_suffix s)).
  assert (length suffix <= 10)%nat by (unfold suffix; rewrite length_take; lia).
  pose proof (length_rstrip (λ c, (c =? dot) || (c =? space))
    (take (MAX_SAFE_NAME_LENGTH - length suffix) s)) as H1.
  unfold unicode in *. rewrite length_take in H1. unfold MAX_SAFE_NAME_LENGTH in *. lia.
Qed.

(** A name without dots that is cut keeps a character. *)
Lemma rstrip_keeps p s c : c ∈ s → p c = false → rstrip_by p s ≠ [].
Proof.
  intros Hin Hp E. unfold rstrip_by in E. apply (f_equal length) in E. rewrite length_reverse in E.
  destruct (drop_while p (reverse s)) eqn:Ed; [|done].
  assert (Hall : ∀ t, drop_while p t = [] → Forall (λ x, p x = true) t).
  { induction t as [|x t IH]; cbn; [by constructor|]. destruct (p x) eqn:Ex; [|done].
    intros Ht. constructor; [done|by apply IH]. }
  apply Hall in Ed. rewrite Forall_forall in Ed. rewrite (Ed c) in Hp; [done|]. by apply elem_of_reverse.
Qed.

Lemma component_by (s : unicode) c : c ∈ s → c ≠ dot → Forall clean_char s → component s.
Proof. intros Hin Hc Hf. repeat split; try done; intros ->; set_solver. Qed.

Lemma shorten_component s :
  component s → head s ≠ Some dot → (∀ k, s ≠ k ++ [dot]) → (∀ l, s ≠ space :: space :: l) →
  component (shorten s).
Proof.
  intros (H1 & H2 & H3 & H4) Hh Hl Ha. assert (Hf : Forall clean_char (shorten s))
    by (eapply Forall_sub; [exact H4|apply shorten_sub]).
  unfold shorten in *. destruct (Nat.ltb_spec MAX_SAFE_NAME_LENGTH (length s)) as [Hlen|]; [|done].
  destruct (decide (dot ∈ s)) as [Hd|Hd].
  - destruct (path_suffix_last s Hd Hh Hl) as (c & ext & E & Hnd & _). rewrite E in Hf |- *.
    cbn [take] in Hf |- *. rewrite not_elem_of_cons in Hnd. destruct Hnd as [Hc _].
    apply (component_by _ c); [|congruence|done]. apply elem_of_app. right. right. left.
  - assert (E : path_suffix s = []).
    { unfold path_suffix. by rewrite (bool_decide_false (dot ∈ s)). }
    rewrite E in Hf |- *. cbn [take length] in Hf |- *. rewrite app_nil_r in Hf |- *.
    destruct s as [|a [|b s]];
      [unfold MAX_SAFE_NAME_LENGTH in Hlen; cbn [length] in Hlen; lia..|]. set (t := take _ _) in Hf |- *.
    assert (Hk : ∃ c, c ∈ [a; b] ∧ c ≠ space).
    { destruct (decide (a = space)) as [->|]; [|exists a; set_solver].
      exists b. split; [set_solver|]. intros ->. by apply (Ha s). }
    destruct Hk as (c & Hc & Hsp). assert (Hcd : c ≠ dot) by (intros ->; set_solver).
    assert (Hne : rstrip_by (λ c, (c =? dot) || (c =? space)) t ≠ []).
    { apply (rstrip_keeps _ _ c); [|by rewrite (proj2 (Z.eqb_neq _ _) Hcd), (proj2 (Z.eqb_neq _ _) Hsp)].
      unfold t. cbn [MAX_SAFE_NAME_LENGTH Nat.sub take]. set_solver. }
    destruct (rstrip_by _ t) as [|x l] eqn:Et; [done|]. apply (component_by _ x); [by left| |done].
    intros ->. apply Hd. assert (Hx : dot ∈ t) by (eapply rstrip_sub; rewrite Et; by left).
    by apply take_sub in Hx.
Qed.

Lemma sanitized_component name safe : sanitize_filename name = Some safe → component safe.
Proof.
  unfold sanitize_filename. fold (cleaned name). cbv zeta. intros H.
  destruct (bool_decide (cleaned name = []) || _) eqn:E; [done|]. injection H as <-.
  breflect. destruct (cleaned_ends name) as (Hh & Hl & Ha); [done|].
  assert (Hc : component (cleaned name)).
  { split; [done|]. split; [set_solver|]. split; [set_solver|]. apply cleaned_chars. }
  destruct (bool_decide (ascii_lower (before_dot (cleaned name)) ∈ reserved_names)).
  - apply shorten_component.
    + apply (component_by _ 95); [by left|done|]. constructor; [done|]. apply cleaned_chars.
    + done.
    + intros k Hk. destruct k as [|z k]; [discriminate|]. injection Hk as _ Hk. by apply Hl in Hk.
    + done.
  - by apply shorten_component.
Qed.

(** A name from the wire is made safe: whatever the peer calls a file,
    the sanitized name is one path component (not empty, not "." or "..",
    no slash or backslash, no control character) of at most 120
    characters. *)
Theorem sanitized_name_is_component name safe :
  sanitize_filename name = Some safe →
  component safe ∧ (length safe <= MAX_SAFE_NAME_LENGTH)%nat.
Proof.
  intros H. split; [by apply sanitized_component in H|]. unfold sanitize_filename in H.
  case_match; [done|]. injection H as <-. apply shorten_length.
Qed.

(** ** Destinations are fresh *)

Lemma match_suffix_sub s t c : match_suffix s = Some t → c ∈ t → c ∈ s.
Proof.
  destruct s as [|x s]; cbn [match_suffix]; [by intros [= <-]|]. case_match; [|done]. by intros [= <-].
Qed.

Lemma span_digits_eq s a b : span_digits s = (a, b) → s = a ++ b.
Proof.
  revert a b. induction s as [|x s IH]; intros a b; cbn [span_digits]; [by intros [= <- <-]|].
  destruct (digit x); [|by intros [= <- <-]]. destruct (span_digits s) as [d r] eqn:E.
  intros [= <- <-]. cbn. by rewrite (IH d r eq_refl).
Qed.

Lemma match_tail_sub s t c : match_tail s = Some t → c ∈ t → c ∈ s.
Proof.
  unfold match_tail. destruct (match_counter s) as [r|] eqn:E; [|apply match_suffix_sub].
  intros [= <-] Hc. unfold match_counter in E. repeat case_match; try done. subst.
  eapply match_suffix_sub in Hc; [|exact E].
  match goal with H : span_digits _ = _ |- _ => apply span_digits_eq in H as -> end.
  do 2 right. apply elem_of_app. right. by right.
Qed.

Lemma split_name_sub s c : c ∈ (split_name s).1 ∨ c ∈ (split_name s).2 → c ∈ s.
Proof.
  induction s as [|x s IH]; cbn [split_name].
  - destruct (match_tail []) eqn:E; cbn; intros [H|H]; try by apply elem_of_nil in H.
    by eapply match_tail_sub.
  - destruct (match_tail (x :: s)) eqn:E; cbn [fst snd].
    { intros [H|H]; [by apply elem_of_nil in H|by eapply match_tail_sub]. }
    destruct (split_name s) as [stem suffix]. cbn [fst snd] in *.
    intros [[->|H]%elem_of_cons|H]; [by left|right; apply IH; by left|right; apply IH; by right].
Qed.

(** A destination is inside the download directory and new: the name
    [destination_for] picks is one path component that no file of the
    directory has, whatever the peer called the file and whatever is
    there. *)
Theorem destination_is_fresh downloads filename dest :
  destination_for downloads filename = Ok dest → component dest ∧ dget downloads dest = None.
Proof.
  unfold destination_for. set (safe := default _ _).
  assert (Hsafe : component safe).
  { unfold safe. destruct (sanitize_filename filename) as [s|] eqn:E; cbn [default from_option].
    - by apply sanitized_component in E.
    - apply (component_by _ 103); [by left|done|]. repeat constructor; try discriminate. }
  clearbody safe. destruct (dmem downloads safe) eqn:Hm; cbn [negb].
  2: { intros [= <-]. split; [done|by apply dmem_false]. }
  destruct (split_name safe) as [stem suffix] eqn:Es.
  destruct (list_find _ _) as [[i n]|] eqn:Ef; [|done]. intros [= <-].
  apply list_find_Some in Ef as (Hin & Hn & _). split; [|by apply dmem_false].
  assert (Hsub : ∀ c, c ∈ stem ∨ c ∈ suffix → c ∈ safe).
  { intros c Hc. apply split_name_sub. by rewrite Es. }
  destruct Hsafe as (_ & _ & _ & Hclean). apply (component_by _ 40); [unfold variant; set_solver|done|].
  unfold variant. repeat (apply Forall_app; split).
  - eapply Forall_sub; [exact Hclean|]. auto.
  - repeat constructor; discriminate.
  - apply Forall_fmap. apply list_elem_of_lookup_2 in Hin. apply elem_of_seqZ in Hin.
    eapply Forall_impl; [apply str_of_Z_digits; lia|]. intros c Hc. unfold is_digit in Hc. breflect.
    unfold compose, clean_char, slash, backslash, control_char. rewrite orb_false_iff, andb_false_iff,
      Z.ltb_ge, Z.eqb_neq. lia.
  - repeat constructor; discriminate.
  - eapply Forall_sub; [exact Hclean|]. auto.
Qed.
End safe_names.

(** ASCII text: nothing to normalize. *)
#[export] Instance ascii_data : UnicodeData := {|
  nfc s := s; printable c := (32 <=? c) && (c <=? 126); wide_space _ := false; wide_digit _ := None |}.

#[export] Instance ascii_laws : UnicodeLaws ascii_data.
Proof. split. done. Qed.

Lemma sanitized_name_is_component_witness : component (cp "passwd") ∧ (6 <= 120)%nat.
Proof.
  exact (sanitized_name_is_component (cp "../../etc/passwd") (cp "passwd") eq_refl).
Defined.

Lemma destination_is_fresh_witness :
  component (cp "a (2).txt") ∧ dget [(cp "a.txt", [1])] (cp "a (2).txt") = None.
Proof.
  exact (destination_is_fresh [(cp "a.txt", [1])] (cp "x/a.txt") (cp "a (2).txt") eq_refl).
Defined.

(** A name of blanks and dots keeps a leading dot when it is cut. *)
Example cut_name_is_hidden :
  sanitize_filename (cp ". " ++ replicate 130 dot ++ cp "x") = Some (cp ".x").
Proof. vm_compute. reflexivity. Qed.
