(* ===== verification/Transfer.v ===== *)
(** * File transfer

    [transfer/models.py] (a transfer and its lifecycle), [transfer/manifest.py],
    [transfer/integrity.py], the frames of [transfer/packets.py] and the
    handlers of [transfer/manager.py] on an explicit state.  A handler runs
    from its call to its end: its awaits are not interleaved with other
    handlers.  The pieces of [accept] and [_finish_receiving] between their
    waits for a thread are definitions of their own, which these two compose.
    Coroutines it spawns are queued ([Spawned]) and run later.
    Clock readings, the session's key and link, and random nonces are the
    call's environment; frames go to [tm_sent].  Texts meant for the user
    (errors, notices, progress) and logging are left out. *)

From S2P Require Import Prelude Text Utf8 Primitives Crypto Messages Json Chunking TransferStorage.

Open Scope Z_scope.

(** ** The lifecycle of a transfer *)

Inductive TransferDirection := SENDING | RECEIVING.
Inductive TransferState :=
| OFFERED | ACCEPTED | REJECTED | QUEUED | TRANSFERRING | PAUSED | COMPLETED | CANCELLED
| FAILED | EXPIRED.

#[export] Instance TransferDirection_eq_dec : EqDecision TransferDirection.
Proof. solve_decision. Defined.
#[export] Instance TransferState_eq_dec : EqDecision TransferState.
Proof. solve_decision. Defined.

Definition TERMINAL_STATES : list TransferState := [REJECTED; COMPLETED; CANCELLED; FAILED; EXPIRED].
Definition ACTIVE_STATES : list TransferState := [OFFERED; ACCEPTED; TRANSFERRING; PAUSED].

Definition sender_transitions (s : TransferState) : list TransferState :=
  match s with
  | QUEUED => [OFFERED; CANCELLED]
  | OFFERED => [ACCEPTED; REJECTED; CANCELLED; EXPIRED; FAILED]
  | ACCEPTED => [TRANSFERRING; CANCELLED; FAILED; EXPIRED]
  | TRANSFERRING => [PAUSED; COMPLETED; CANCELLED; FAILED; EXPIRED]
  | PAUSED => [TRANSFERRING; CANCELLED; FAILED; EXPIRED]
  | REJECTED | COMPLETED | CANCELLED | FAILED | EXPIRED => []
  end.

Definition receiver_transitions (s : TransferState) : list TransferState :=
  match s with
  | QUEUED => []
  | OFFERED => [ACCEPTED; REJECTED; CANCELLED; EXPIRED; FAILED]
  | ACCEPTED => [TRANSFERRING; CANCELLED; FAILED; EXPIRED]
  | TRANSFERRING => [PAUSED; COMPLETED; CANCELLED; FAILED; EXPIRED]
  | PAUSED => [TRANSFERRING; CANCELLED; FAILED; EXPIRED]
  | REJECTED | COMPLETED | CANCELLED | FAILED | EXPIRED => []
  end.

(** [_transitions_for] *)
Definition transitions_for (d : TransferDirection) : TransferState → list TransferState :=
  match d with SENDING => sender_transitions | RECEIVING => receiver_transitions end.

Definition TRANSFER_ID_PREFIX : unicode := cp "tf_".
Definition TRANSFER_ID_HEX : nat := 8.
Definition TRANSFER_PROTOCOL : unicode := cp "gf1".

(** [generate_transfer_id] from 4 random bytes *)
Definition generate_transfer_id (random : bytes) : unicode :=
  TRANSFER_ID_PREFIX ++ cp (hexdigest random).

(** [int(text, 16)] succeeds: blanks around, a sign, a [0x] prefix and single
    underscores between digits are allowed, and any decimal digit. *)
Definition ascii_blank (c : Z) : bool := ((9 <=? c) && (c <=? 13)) || (c =? 32).

Fixpoint hex_body (after_digit : bool) (s : unicode) : bool :=
  match s with
  | [] => after_digit
  | c :: s' => if bool_decide (is_Some (hex_value c)) then hex_body true s'
               else (c =? 95) && after_digit && hex_body false s'
  end.

Section transfer_ids.
Context {U : UnicodeData}.

(** The text as [int] reads it: blanks and decimal digits beyond ASCII count
    as those of ASCII; [63] is a question mark. *)
Definition int_char (c : Z) : Z :=
  if c <? 127 then c else if wide_space c then 32 else match wide_digit c with Some v => 48 + v | None => 63 end.

Definition int16_ok (s : unicode) : bool :=
  let s := strip_by ascii_blank (int_char <$> s) in
  let s := match s with c :: s' => if (c =? 43) || (c =? 45) then s' else s | [] => [] end in
  match s with
  | 48 :: x :: s' =>
      if (x =? 120) || (x =? 88)
      then hex_body false (match s' with 95 :: s'' => s'' | _ => s' end)
      else hex_body false s
  | _ => hex_body false s
  end.

(** [is_valid_transfer_id] *)
Definition is_valid_transfer_id (candidate : unicode) : bool :=
  bool_decide (take 3 candidate = TRANSFER_ID_PREFIX) &&
  (let suffix := drop 3 candidate in
   (length suffix =? TRANSFER_ID_HEX)%nat && int16_ok suffix &&
   bool_decide (ascii_lower suffix = suffix)).
End transfer_ids.

Record Transfer := mkTransfer {
  t_id : unicode; t_direction : TransferDirection; t_state : TransferState;
  t_filename : unicode; t_size : Z; t_mime : unicode; t_chunk_size : Z; t_total : Z;
  t_integrity : unicode; t_source : option bytes; t_saved : option unicode;
  t_chunks_done : Z; t_bytes_done : Z; t_created : Z; t_activity : Z; t_expires : Z;
  t_resume_notified : bool;
}.

Definition is_terminal (t : Transfer) : bool := bool_decide (t_state t ∈ TERMINAL_STATES).
Definition is_active (t : Transfer) : bool := bool_decide (t_state t ∈ ACTIVE_STATES).

(** [Transfer.__post_init__]; the peer's name was validated by the session. *)
Definition Transfer_init {U : UnicodeData} (t : Transfer) : result TransferError Transfer :=
  guard_or (is_valid_transfer_id (t_id t)) TransferStateError;;
  guard_or (negb (t_size t <? 1)) TransferStateError;;
  guard_or (negb ((t_chunk_size t <? 1) || (t_total t <? 1))) TransferStateError;;
  Ok t.

Definition set_state (t : Transfer) (s : TransferState) (now : Z) : Transfer :=
  mkTransfer (t_id t) (t_direction t) s (t_filename t) (t_size t) (t_mime t) (t_chunk_size t)
    (t_total t) (t_integrity t) (t_source t) (t_saved t) (t_chunks_done t) (t_bytes_done t)
    (t_created t) now (t_expires t) (t_resume_notified t).

Definition set_progress (t : Transfer) (chunks bytes : Z) : Transfer :=
  mkTransfer (t_id t) (t_direction t) (t_state t) (t_filename t) (t_size t) (t_mime t)
    (t_chunk_size t) (t_total t) (t_integrity t) (t_source t) (t_saved t) chunks bytes
    (t_created t) (t_activity t) (t_expires t) (t_resume_notified t).

Definition set_notified (t : Transfer) (b : bool) : Transfer :=
  mkTransfer (t_id t) (t_direction t) (t_state t) (t_filename t) (t_size t) (t_mime t)
    (t_chunk_size t) (t_total t) (t_integrity t) (t_source t) (t_saved t) (t_chunks_done t)
    (t_bytes_done t) (t_created t) (t_activity t) (t_expires t) b.

Definition set_saved (t : Transfer) (name : unicode) : Transfer :=
  mkTransfer (t_id t) (t_direction t) (t_state t) (t_filename t) (t_size t) (t_mime t)
    (t_chunk_size t) (t_total t) (t_integrity t) (t_source t) (Some name) (t_chunks_done t)
    (t_bytes_done t) (t_created t) (t_activity t) (t_expires t) (t_resume_notified t).

(** [transition_to] *)
Definition transition_to (t : Transfer) (s : TransferState) (now : Z)
    : result TransferError Transfer :=
  guard_or (bool_decide (s ∈ transitions_for (t_direction t) (t_state t))) TransferStateError;;
  Ok (set_state t s now).

(** [touch] *)
Definition touch (t : Transfer) (now : Z) : Transfer := set_state t (t_state t) now.

(** ** Manifests *)

Definition MAX_MANIFEST_FILENAME_LENGTH : nat := 120.
Definition MAX_MANIFEST_MIME_LENGTH : nat := 100.
Definition TRANSFER_MAX_CHUNKS_PER_FILE : Z := 32768.
Definition MAX_CHUNK_SIZE : Z := 4 * 1024.
Definition MIN_CHUNK_SIZE : Z := 1 * 1024.
Definition TRANSFER_WINDOW_CHUNKS : Z := 8.

Record FileManifest := mkManifest {
  mf_protocol : unicode; mf_transfer_id : unicode; mf_filename : unicode; mf_size : Z;
  mf_mime : unicode; mf_chunk_size : Z; mf_total : Z; mf_sha256 : unicode;
}.

(** [to_dict], [to_json] *)
Definition manifest_to_dict (m : FileManifest) : json :=
  JObj [(cp "v", JStr (mf_protocol m)); (cp "id", JStr (mf_transfer_id m));
        (cp "name", JStr (mf_filename m)); (cp "size", JInt (mf_size m));
        (cp "mime", JStr (mf_mime m)); (cp "cs", JInt (mf_chunk_size m));
        (cp "chunks", JInt (mf_total m)); (cp "sha256", JStr (mf_sha256 m))].
Definition manifest_to_json (m : FileManifest) : bytes := dumps (manifest_to_dict m).

(** What [int] makes of a value: a number, a [TypeError] or [ValueError], or
    the [OverflowError] of an infinity. *)
Inductive conversion := Converts (z : Z) | Mistyped | Overflows.

(** [str] and [int] of values of other JSON types (numbers, containers) are
    conversions of the interpreter. *)
Class Coercions := {
  str_of_json : json → unicode;
  int_of_json : json → conversion;
}.

Section manifest.
Context {C : Coercions}.

Definition as_str (d : list (unicode * json)) (name : string) : result TransferError unicode :=
  match dget d (cp name) with
  | Some (JStr s) => Ok s
  | Some v => Ok (str_of_json v)
  | None => Err TransferValidationError
  end.

Definition as_int (d : list (unicode * json)) (name : string) : result TransferError Z :=
  match dget d (cp name) with
  | Some (JInt z) => Ok z
  | Some v => match int_of_json v with
              | Converts z => Ok z
              | Mistyped => Err TransferValidationError
              | Overflows => Err PyOverflowError
              end
  | None => Err TransferValidationError
  end.

(** [from_json]; an integer beyond the digit limit is the [ValueError] of [int]. *)
Definition manifest_from_json (raw : bytes) : result TransferError FileManifest :=
  text ← of_option (utf8_decode raw) TransferValidationError;
  document ← match loads text with
             | Ok v => Ok v
             | Err JSONDecodeError => Err TransferValidationError
             | Err IntTooLong => Err PyValueError
             end;
  match document with
  | JObj d =>
      protocol ← as_str d "v"; transfer_id ← as_str d "id"; filename ← as_str d "name";
      size ← as_int d "size"; mime ← as_str d "mime"; chunk_size ← as_int d "cs";
      total ← as_int d "chunks"; sha ← as_str d "sha256";
      Ok (mkManifest protocol transfer_id filename size mime chunk_size total sha)
  | _ => Err TransferValidationError
  end.
End manifest.

(** [validate] *)
Definition manifest_validate {U : UnicodeData} (m : FileManifest) (max_file_size : Z) : result TransferError unit :=
  let require b := guard_or b TransferValidationError in
  require (bool_decide (mf_protocol m = TRANSFER_PROTOCOL));;
  require (is_valid_transfer_id (mf_transfer_id m));;
  require ((0 <? length (mf_filename m)) && (length (mf_filename m) <=? MAX_MANIFEST_FILENAME_LENGTH))%nat;;
  require (negb (existsb (λ c, (c <? 32) || (c =? 127)) (mf_filename m)));;
  require (negb (bool_decide (slash ∈ mf_filename m) || bool_decide (backslash ∈ mf_filename m)
                 || bool_decide (mf_filename m ∈ [[dot]; [dot; dot]])));;
  require ((1 <=? mf_size m) && (mf_size m <=? max_file_size));;
  require ((MIN_CHUNK_SIZE <=? mf_chunk_size m) && (mf_chunk_size m <=? MAX_CHUNK_SIZE));;
  require (mf_total m =? chunk_count (mf_size m) (mf_chunk_size m));;
  require (negb (TRANSFER_MAX_CHUNKS_PER_FILE <? mf_total m));;
  require (negb ((MAX_MANIFEST_MIME_LENGTH <? length (mf_mime m))%nat
                 || existsb (λ c, (c <? 32) || (c =? 127)) (mf_mime m)));;
  require (length (mf_sha256 m) =? 64)%nat;;
  require (bool_decide (is_Some (ascii_text (mf_sha256 m) ≫= fromhex))).

(** ** Sealing ([transfer/integrity.py]) *)

Section integrity.
Context {P : Primitives}.

Definition TRANSFER_INFO_PREFIX : bytes := cp "ghostlink/transfer/v1|".

(** [hash_file], [hash_temp] *)
Definition hash_file (file : bytes) : unicode := cp (hexdigest (sha256 file)).
Definition hash_temp (part : bytes) (expected_size : Z) : result TransferError unicode :=
  guard_or (Z.of_nat (length part) =? expected_size) DecryptionError;;
  Ok (hash_file part).

(** [derive_transfer_key]: [id.encode("ascii")] may raise. *)
Definition transfer_key (session_key : bytes) (id : unicode) : bytes :=
  hkdf32 session_key (TRANSFER_INFO_PREFIX ++ id).
Definition derive_transfer_key (session_key : bytes) (id : unicode) : result TransferError bytes :=
  guard_or (bool_decide (is_Some (ascii_text id))) PyUnicodeError;;
  Ok (transfer_key session_key id).

Definition chunk_aad (id : unicode) (n : Z) : bytes := id ++ cp "|" ++ cp (str_of_Z n).
Definition manifest_aad (id : unicode) : bytes := id ++ cp "|manifest".

Definition seal_chunk (key : bytes) (id : unicode) (n : Z) (nonce plaintext : bytes) : bytes :=
  seal key nonce plaintext (chunk_aad id n).
Definition open_chunk (key : bytes) (id : unicode) (n : Z) (sealed : bytes)
    : result TransferError bytes := of_option (open_sealed key sealed (chunk_aad id n)) DecryptionError.
Definition seal_manifest (key : bytes) (id : unicode) (nonce manifest : bytes) : bytes :=
  seal key nonce manifest (manifest_aad id).
Definition open_manifest (key : bytes) (id : unicode) (sealed : bytes)
    : result TransferError bytes := of_option (open_sealed key sealed (manifest_aad id)) DecryptionError.
End integrity.

(** ** The manager's state *)

(** The frames of [transfer/packets.py], without reasons and messages. *)
Inductive FileFrame :=
| FileOffer (id : unicode) (ct : bytes)
| FileAccept (id : unicode) (bitmap : option string)
| FileReject (id : unicode)
| FileChunk (id : unicode) (n : Z) (ct : bytes)
| FileAck (id : unicode) (n : Z)
| FilePause (id : unicode)
| FileResume (id : unicode)
| FileCancel (id : unicode)
| FileComplete (id : unicode) (sha256 : unicode)
| FileErrorFrame (id : unicode).

(** Scheduled coroutines. *)
Inductive Spawned := OfferTask (id : unicode) | RecoverTask.

(** The local variables of a running [_send_pump]. *)
Record Pump := mkPump {
  pu_reader : option ChunkReader; pu_in_flight : list (Z * Z); pu_attempts : list (Z * Z);
  pu_probes : Z; pu_all_acked : option Z;
}.

Record TransferLimits := mkLimits {
  l_max_file_size : Z; l_max_concurrent : nat; l_chunk_size : Z; l_ack_timeout : Z;
  l_retry_limit : Z; l_temp_limit : Z; l_expiry : Z; l_offer_timeout : Z; l_terminal_ttl : Z;
}.

(** What a call sees of the session and the clocks; [e_nonce n] is the nonce
    drawn to seal chunk [n] (0 for a manifest). *)
Record Env := mkEnv {
  e_session_key : option bytes; e_link_ready : bool; e_now : Z; e_mono : Z; e_nonce : Z → bytes;
}.

Record Manager := mkTM {
  tm_storage : Storage;
  tm_transfers : list (unicode * Transfer);
  tm_manifests : list (unicode * FileManifest);
  tm_bitmaps : list (unicode * ChunkBitmap);
  tm_keys : list (unicode * bytes);
  tm_destinations : list (unicode * unicode);
  tm_offer_attempts : list (unicode * Z);
  tm_pumps : list (unicode * Pump);
  tm_spawned : list Spawned;
  tm_closing : bool;
  tm_sent : list FileFrame;
  tm_history : list (unicode * TransferState);
}.

Definition set_storage (m : Manager) (x : Storage) : Manager :=
  mkTM x (tm_transfers m) (tm_manifests m) (tm_bitmaps m) (tm_keys m) (tm_destinations m)
    (tm_offer_attempts m) (tm_pumps m) (tm_spawned m) (tm_closing m) (tm_sent m) (tm_history
    m).

Definition set_transfers (m : Manager) (x : list (unicode * Transfer)) : Manager :=
  mkTM (tm_storage m) x (tm_manifests m) (tm_bitmaps m) (tm_keys m) (tm_destinations m)
    (tm_offer_attempts m) (tm_pumps m) (tm_spawned m) (tm_closing m) (tm_sent m) (tm_history
    m).

Definition set_manifests (m : Manager) (x : list (unicode * FileManifest)) : Manager :=
  mkTM (tm_storage m) (tm_transfers m) x (tm_bitmaps m) (tm_keys m) (tm_destinations m)
    (tm_offer_attempts m) (tm_pumps m) (tm_spawned m) (tm_closing m) (tm_sent m) (tm_history
    m).

Definition set_bitmaps (m : Manager) (x : list (unicode * ChunkBitmap)) : Manager :=
  mkTM (tm_storage m) (tm_transfers m) (tm_manifests m) x (tm_keys m) (tm_destinations m)
    (tm_offer_attempts m) (tm_pumps m) (tm_spawned m) (tm_closing m) (tm_sent m) (tm_history
    m).

Definition set_keys (m : Manager) (x : list (unicode * bytes)) : Manager :=
  mkTM (tm_storage m) (tm_transfers m) (tm_manifests m) (tm_bitmaps m) x (tm_destinations m)
    (tm_offer_attempts m) (tm_pumps m) (tm_spawned m) (tm_closing m) (tm_sent m) (tm_history
    m).

Definition set_destinations (m : Manager) (x : list (unicode * unicode)) : Manager :=
  mkTM (tm_storage m) (tm_transfers m) (tm_manifests m) (tm_bitmaps m) (tm_keys m) x
    (tm_offer_attempts m) (tm_pumps m) (tm_spawned m) (tm_closing m) (tm_sent m) (tm_history
    m).

Definition set_offer_attempts (m : Manager) (x : list (unicode * Z)) : Manager :=
  mkTM (tm_storage m) (tm_transfers m) (tm_manifests m) (tm_bitmaps m) (tm_keys m)
    (tm_destinations m) x (tm_pumps m) (tm_spawned m) (tm_closing m) (tm_sent m) (tm_history
    m).

Definition set_pumps (m : Manager) (x : list (unicode * Pump)) : Manager :=
  mkTM (tm_storage m) (tm_transfers m) (tm_manifests m) (tm_bitmaps m) (tm_keys m)
    (tm_destinations m) (tm_offer_attempts m) x (tm_spawned m) (tm_closing m) (tm_sent m)
    (tm_history m).

Definition set_spawned (m : Manager) (x : list Spawned) : Manager :=
  mkTM (tm_storage m) (tm_transfers m) (tm_manifests m) (tm_bitmaps m) (tm_keys m)
    (tm_destinations m) (tm_offer_attempts m) (tm_pumps m) x (tm_closing m) (tm_sent m)
    (tm_history m).

Definition set_closing (m : Manager) (x : bool) : Manager :=
  mkTM (tm_storage m) (tm_transfers m) (tm_manifests m) (tm_bitmaps m) (tm_keys m)
    (tm_destinations m) (tm_offer_attempts m) (tm_pumps m) (tm_spawned m) x (tm_sent m)
    (tm_history m).

Definition set_sent (m : Manager) (x : list FileFrame) : Manager :=
  mkTM (tm_storage m) (tm_transfers m) (tm_manifests m) (tm_bitmaps m) (tm_keys m)
    (tm_destinations m) (tm_offer_attempts m) (tm_pumps m) (tm_spawned m) (tm_closing m) x
    (tm_history m).

Definition set_history (m : Manager) (x : list (unicode * TransferState)) : Manager :=
  mkTM (tm_storage m) (tm_transfers m) (tm_manifests m) (tm_bitmaps m) (tm_keys m)
    (tm_destinations m) (tm_offer_attempts m) (tm_pumps m) (tm_spawned m) (tm_closing m)
    (tm_sent m) x.

Definition empty_manager (s : Storage) : Manager := mkTM s [] [] [] [] [] [] [] [] false [] [].

Definition send (m : Manager) (f : FileFrame) : Manager := set_sent m (tm_sent m ++ [f]).
Definition spawn (m : Manager) (x : Spawned) : Manager := set_spawned m (tm_spawned m ++ [x]).
Definition put_transfer (m : Manager) (t : Transfer) : Manager :=
  set_transfers m (dset (tm_transfers m) (t_id t) t).

(** [do? x, m := r in k]: the next call of a handler; an exception ends it. *)
Notation "'do?' x , m ':=' r 'in' k" :=
  (match r with (Ok x, m) => k | (Err e, m) => (Err e, m) end)
  (at level 10, x pattern, m name, r at level 100, k at level 200) : py_scope.

Section manager.
Context {P : Primitives} {U : UnicodeData} {C : Coercions}.
Variable limits : TransferLimits.
Variable env : Env.

(** ** Helpers *)

(** [_active_count] *)
Definition active_count (m : Manager) : nat :=
  length (filter (λ x, is_active x.2 = true) (tm_transfers m)).

(** [_reserved_incoming_bytes] *)
Definition reserved_incoming_bytes (m : Manager) : Z :=
  foldr (λ x n, (if bool_decide (t_direction x.2 = RECEIVING) && is_active x.2
                 then t_size x.2 else 0) + n) 0 (tm_transfers m).

(** [_key_for] *)
Definition key_for (m : Manager) (id : unicode) : outcome Manager TransferError (option bytes) :=
  match dget (tm_keys m) id with
  | Some key => (Ok (Some key), m)
  | None =>
      match e_session_key env with
      | None => (Ok None, m)
      | Some session_key =>
          try? derived := derive_transfer_key session_key id @ m in
          (Ok (Some derived), set_keys m (dset (tm_keys m) id derived))
      end
  end.

(** [_drop_key], [_wipe_keys] *)
Definition drop_key (m : Manager) (id : unicode) : Manager := set_keys m (dpop (tm_keys m) id).
Definition wipe_keys (m : Manager) : Manager := set_keys m [].

(** [_require_transfer], [_require_manifest] *)
Definition require_transfer (m : Manager) (id : unicode) : result TransferError Transfer :=
  of_option (dget (tm_transfers m) id) TransferValidationError.
Definition require_manifest (m : Manager) (id : unicode) : result TransferError FileManifest :=
  of_option (dget (tm_manifests m) id) TransferValidationError.

(** [sorted(..., key=created_at)], stable *)
Fixpoint insert_by_created (t : Transfer) (l : list Transfer) : list Transfer :=
  match l with
  | [] => [t]
  | u :: l' => if t_created t <=? t_created u then t :: l else u :: insert_by_created t l'
  end.
Definition sort_by_created (l : list Transfer) : list Transfer := foldr insert_by_created [] l.

(** [_promote_queued]: the offers are spawned, so that the transfers are
    still queued while the loop counts the active ones. *)
Fixpoint promote_loop (m : Manager) (queued : list Transfer) : Manager :=
  match queued with
  | [] => m
  | t :: queued' =>
      if (l_max_concurrent limits <=? active_count m)%nat then m
      else promote_loop (spawn m (OfferTask (t_id t))) queued'
  end.
Definition promote_queued (m : Manager) : Manager :=
  if tm_closing m then m
  else promote_loop m
    (filter (λ t, t_direction t = SENDING ∧ t_state t = QUEUED) (sort_by_created (values (tm_transfers m)))).

(** [_settle_terminal] *)
Definition settle_terminal (m : Manager) (t : Transfer) (state : TransferState)
    : outcome Manager TransferError unit :=
  match transition_to t state (e_now env) with
  | Err e => if decide (t_state t = state) then (Ok tt, m) else (Err e, m)
  | Ok t' =>
      let m1 := drop_key (put_transfer m t') (t_id t) in
      let m2 := if bool_decide (t_direction t = RECEIVING) && negb (bool_decide (state = COMPLETED))
                then set_storage m1 (delete_temp (tm_storage m1) (t_id t)) else m1 in
      (Ok tt, promote_queued m2)
  end.

(** [_fail_transfer] *)
Definition fail_transfer (m : Manager) (t : Transfer) : outcome Manager TransferError unit :=
  if is_terminal t then (Ok tt, m) else settle_terminal m t FAILED.

(** [_integrity_failure] *)
Definition integrity_failure (m : Manager) (t : Transfer) : outcome Manager TransferError unit :=
  do? _, m1 := fail_transfer m t in
  (Ok tt, send m1 (FileErrorFrame (t_id t))).

(** [_share_bitmap] *)
Definition share_bitmap (m : Manager) (id : unicode) : Manager :=
  match dget (tm_bitmaps m) id with
  | None => m
  | Some b => send m (FileAccept id (if bm_count b =? 0 then None else Some (to_b64 b)))
  end.

(** [_expected_chunk_length] *)
Definition expected_chunk_length (t : Transfer) (n : Z) : Z :=
  if n =? t_total t then Z.max 1 (t_size t - (t_total t - 1) * t_chunk_size t) else t_chunk_size t.

(** [bytes_done] of a bitmap *)
Definition with_progress (t : Transfer) (b : ChunkBitmap) : Transfer :=
  set_progress t (bm_count b) (Z.min (t_size t) (bm_count b * t_chunk_size t)).

(** [_offer] *)
Definition offer (m : Manager) (t : Transfer) : outcome Manager TransferError unit :=
  match key_for m (t_id t) with
  | (Err e, m1) => (Err e, m1)
  | (Ok None, m1) => (Err TransferErr, m1)
  | (Ok (Some key), m1) =>
      try? manifest := require_manifest m1 (t_id t) @ m1 in
      let sealed := seal_manifest key (t_id t) (e_nonce env 0) (manifest_to_json manifest) in
      try? t1 := (if decide (t_state t = QUEUED) then transition_to t OFFERED (e_now env)
                  else Ok t) @ m1 in
      (Ok tt, send (put_transfer m1 (touch t1 (e_now env))) (FileOffer (t_id t) sealed))
  end.

(** [_ensure_pump]: a pump that is not running starts. *)
Definition new_pump : Pump := mkPump None [] [] 0 None.
Definition ensure_pump (m : Manager) (id : unicode) : Manager :=
  if dmem (tm_pumps m) id then m else set_pumps m (dset (tm_pumps m) id new_pump).

(** [_adopt_bitmap] *)
Definition adopt_bitmap (mine peer : ChunkBitmap) (total : Z) : ChunkBitmap :=
  foldl (λ b n, if has peer n then (mark b n).2 else b) mine (chunk_numbers total).

(** ** Public operations *)

(** [send_file] of a file with the given name and contents ([None]: not a
    regular file); [guess_mime] is the name's type hint. *)
Definition send_file (m : Manager) (name : unicode) (file : option bytes) (guess_mime : unicode → unicode)
    (random : bytes) : outcome Manager TransferError unit :=
  try? content := of_option file TransferValidationError @ m in
  try? _ := of_option (e_session_key env) TransferErr @ m in
  try? safe_name := of_option (sanitize_filename name) TransferValidationError @ m in
  let id := generate_transfer_id random in
  let size := Z.of_nat (length content) in
  try? _ := guard_or (negb (size <? 1)) TransferValidationError @ m in
  let manifest := mkManifest TRANSFER_PROTOCOL id safe_name size (guess_mime safe_name)
    (l_chunk_size limits) (chunk_count size (l_chunk_size limits)) (hash_file content) in
  try? _ := guard_or (negb (l_max_file_size limits <? size)) TransferLimitError @ m in
  try? _ := guard_or (negb (TRANSFER_MAX_CHUNKS_PER_FILE <? mf_total manifest)) TransferLimitError
    @ m in
  try? t := Transfer_init (mkTransfer id SENDING QUEUED safe_name size (mf_mime manifest)
    (mf_chunk_size manifest) (mf_total manifest) (mf_sha256 manifest) (Some content) None 0 0
    (e_now env) (e_now env) (e_now env + l_expiry limits) false) @ m in
  let m1 := put_transfer m t in
  let m2 := set_manifests m1 (dset (tm_manifests m1) id manifest) in
  try? b := ChunkBitmap_init (mf_total manifest) None @ m2 in
  let m3 := set_bitmaps m2 (dset (tm_bitmaps m2) id b) in
  if (active_count m3 <? l_max_concurrent limits)%nat then offer m3 t else (Ok tt, m3).

(** [accept] is cut at its waits for a thread.  Up to the first: *)
Definition accept_checks (m : Manager) (id : unicode) : result TransferError FileManifest :=
  t ← require_transfer m id;
  guard_or (bool_decide (t_direction t = RECEIVING)) TransferStateError;;
  guard_or (bool_decide (t_state t = OFFERED)) TransferStateError;;
  manifest ← require_manifest m id;
  check_quota (tm_storage m) (mf_size manifest) (l_temp_limit limits);;
  Ok manifest.

(** The second thread. *)
Definition open_part (m : Manager) (id : unicode) : outcome Manager TransferError unit :=
  let '(r, s) := open_temp (tm_storage m) id in (r, set_storage m s).

(** After the threads. *)
Definition accept_end (m : Manager) (id destination : unicode) : outcome Manager TransferError unit :=
  let m1 := set_destinations m (dset (tm_destinations m) id destination) in
  try? t := require_transfer m id @ m1 in
  try? t1 := transition_to t ACCEPTED (e_now env) @ m1 in
  (Ok tt, send (put_transfer m1 t1) (FileAccept id None)).

(** [accept] with nothing in between. *)
Definition accept (m : Manager) (id : unicode) : outcome Manager TransferError unit :=
  try? manifest := accept_checks m id @ m in
  try? destination := destination_for (st_downloads (tm_storage m)) (mf_filename manifest) @ m in
  do? _, m1 := open_part m id in
  accept_end m1 id destination.

(** [reject] *)
Definition reject (m : Manager) (id : unicode) : outcome Manager TransferError unit :=
  try? t := require_transfer m id @ m in
  try? _ := guard_or (bool_decide (t_direction t = RECEIVING)) TransferStateError @ m in
  try? _ := guard_or (bool_decide (t_state t = OFFERED)) TransferStateError @ m in
  do? _, m1 := settle_terminal m t REJECTED in
  (Ok tt, send m1 (FileReject id)).

(** [pause] *)
Definition pause (m : Manager) (id : unicode) : outcome Manager TransferError unit :=
  try? t := require_transfer m id @ m in
  try? _ := guard_or (bool_decide (t_state t = TRANSFERRING)) TransferStateError @ m in
  try? t1 := transition_to (set_notified t true) PAUSED (e_now env) @ m in
  (Ok tt, send (put_transfer m t1) (FilePause id)).

(** [resume] *)
Definition resume (m : Manager) (id : unicode) : outcome Manager TransferError unit :=
  try? t := require_transfer m id @ m in
  try? _ := guard_or (bool_decide (t_state t = PAUSED)) TransferStateError @ m in
  try? t1 := transition_to (set_notified t true) TRANSFERRING (e_now env) @ m in
  let m1 := send (put_transfer m t1) (FileResume id) in
  (Ok tt, if decide (t_direction t = RECEIVING) then share_bitmap m1 id else m1).

(** [cancel] *)
Definition cancel (m : Manager) (id : unicode) : outcome Manager TransferError unit :=
  try? t := require_transfer m id @ m in
  try? _ := guard_or (negb (is_terminal t)) TransferStateError @ m in
  do? _, m1 := settle_terminal m t CANCELLED in
  (Ok tt, send m1 (FileCancel id)).

(** [resolve_id] *)
Definition resolve_id (m : Manager) (prefix : unicode) : option unicode :=
  if dmem (tm_transfers m) prefix then Some prefix
  else match filter (λ id, take (length prefix) id = prefix) (keys (tm_transfers m)) with
       | [id] => Some id
       | _ => None
       end.
(** ** Inbound frames *)

(** [_on_reoffer] *)
Definition on_reoffer (m : Manager) (t : Transfer) : outcome Manager TransferError unit :=
  if decide (t_direction t = SENDING) then (Ok tt, send m (FileErrorFrame (t_id t)))
  else if decide (t_state t = OFFERED) then (Ok tt, put_transfer m (touch t (e_now env)))
  else if decide (t_state t = COMPLETED) then
    try? manifest := require_manifest m (t_id t) @ m in
    (Ok tt, send m (FileComplete (t_id t) (mf_sha256 manifest)))
  else if negb (is_terminal t) then (Ok tt, share_bitmap m (t_id t))
  else (Ok tt, send m (FileErrorFrame (t_id t))).

(** The manifest inside an offer: [Err DecryptionError] is a broken seal. *)
Definition offered_manifest (key : bytes) (id : unicode) (ct : bytes)
    : result TransferError FileManifest :=
  raw ← open_manifest key id ct;
  manifest ← manifest_from_json raw;
  manifest_validate manifest (l_max_file_size limits);;
  Ok manifest.

(** [_on_offer] *)
Definition on_offer (m : Manager) (id : unicode) (ct : bytes) : outcome Manager TransferError unit :=
  if negb (is_valid_transfer_id id) then (Ok tt, send m (FileErrorFrame id))
  else
    match dget (tm_transfers m) id with
    | Some existing => on_reoffer m existing
    | None =>
        match key_for m id with
        | (Err e, m1) => (Err e, m1)
        | (Ok None, m1) => (Ok tt, m1)
        | (Ok (Some key), m1) =>
            match offered_manifest key id ct with
            | Err DecryptionError => (Ok tt, send (drop_key m1 id) (FileErrorFrame id))
            | Err TransferValidationError => (Ok tt, send m1 (FileErrorFrame id))
            | Err e => (Err e, m1)
            | Ok manifest =>
                if (l_max_concurrent limits <=? active_count m1)%nat
                then (Ok tt, send m1 (FileReject id))
                else if negb (is_ok (check_quota (tm_storage m1)
                                (mf_size manifest + reserved_incoming_bytes m1) (l_temp_limit limits)))
                then (Ok tt, send m1 (FileReject id))
                else
                  try? t := Transfer_init (mkTransfer id RECEIVING OFFERED (mf_filename manifest)
                    (mf_size manifest) (mf_mime manifest) (mf_chunk_size manifest) (mf_total manifest)
                    (mf_sha256 manifest) None None 0 0 (e_now env) (e_now env)
                    (e_now env + l_expiry limits) false) @ m1 in
                  let m2 := put_transfer m1 t in
                  let m3 := set_manifests m2 (dset (tm_manifests m2) id manifest) in
                  try? b := ChunkBitmap_init (mf_total manifest) None @ m3 in
                  (Ok tt, set_bitmaps m3 (dset (tm_bitmaps m3) id b))
            end
        end
    end.

(** The state changes of [_on_accept] after the bitmap. *)
Definition accepted (m : Manager) (t : Transfer) : outcome Manager TransferError unit :=
  if decide (t_state t = OFFERED) then
    try? t1 := transition_to t ACCEPTED (e_now env) @ m in
    try? t2 := transition_to t1 TRANSFERRING (e_now env) @ (put_transfer m t1) in
    (Ok tt, ensure_pump (put_transfer m t2) (t_id t))
  else if decide (t_state t = PAUSED ∧ t_resume_notified t = false) then
    try? t1 := transition_to (set_notified t true) TRANSFERRING (e_now env) @ m in
    (Ok tt, ensure_pump (put_transfer m t1) (t_id t))
  else (Ok tt, m).

(** [_on_accept] *)
Definition on_accept (m : Manager) (id : unicode) (bitmap : option string)
    : outcome Manager TransferError unit :=
  match dget (tm_transfers m) id with
  | None => (Ok tt, m)
  | Some t =>
      if negb (bool_decide (t_direction t = SENDING)) then (Ok tt, m)
      else
        match bitmap with
        | Some encoded =>
            if decide (encoded = EmptyString) then accepted m t
            else
              match from_b64 encoded (t_total t), dget (tm_bitmaps m) id with
              | Err _, _ =>
                  do? _, m1 := fail_transfer m t in
                  (Ok tt, send m1 (FileErrorFrame id))
              | Ok _, None => (Err PyKeyError, m)
              | Ok peer, Some mine =>
                  let b := adopt_bitmap mine peer (t_total t) in
                  let t1 := with_progress t b in
                  accepted (put_transfer (set_bitmaps m (dset (tm_bitmaps m) id b)) t1) t1
              end
        | None => accepted m t
        end
  end.

(** [_on_reject_frame] *)
Definition on_reject_frame (m : Manager) (id : unicode) : outcome Manager TransferError unit :=
  match dget (tm_transfers m) id with
  | Some t => if decide (t_direction t = SENDING) then settle_terminal m t REJECTED else (Ok tt, m)
  | None => (Ok tt, m)
  end.

(** [_finish_receiving] is cut at its waits for a thread.  The first thread: *)
Definition part_digest (m : Manager) (id : unicode) (expected_size : Z) : result TransferError unicode :=
  part ← of_option (dget (st_temp (tm_storage m)) id) StorageError;
  hash_temp part expected_size.

(** After the last thread, which moved the part file to [saved]. *)
Definition finish_published (m : Manager) (t : Transfer) (saved digest : unicode) : outcome Manager TransferError unit :=
  let t1 := set_saved t saved in
  do? _, m1 := settle_terminal (put_transfer m t1) t1 COMPLETED in
  let m2 := set_history m1 (tm_history m1 ++ [(t_id t, COMPLETED)]) in
  (Ok tt, send m2 (FileComplete (t_id t) digest)).

(** From the digest on. *)
Definition finish_checked (m : Manager) (t : Transfer) (manifest : FileManifest) (digest : unicode)
    : outcome Manager TransferError unit :=
  let id := t_id t in
  if negb (bool_decide (digest = mf_sha256 manifest)) then integrity_failure m t
  else
    try? destination :=
      match dget (tm_destinations m) id with
      | Some d => Ok d
      | None => destination_for (st_downloads (tm_storage m)) (mf_filename manifest)
      end @ m in
    match finalize (tm_storage m) id destination with
    | (Err _, _) =>
        do? _, m1 := fail_transfer m t in
        (Ok tt, send m1 (FileErrorFrame id))
    | (Ok saved, s) => finish_published (set_storage m s) t saved digest
    end.

(** [_finish_receiving] with nothing in between. *)
Definition finish_receiving (m : Manager) (t : Transfer) : outcome Manager TransferError unit :=
  try? manifest := require_manifest m (t_id t) @ m in
  match part_digest m (t_id t) (mf_size manifest) with
  | Err _ => integrity_failure m t
  | Ok digest => finish_checked m t manifest digest
  end.

(** A chunk that passed the checks of its number, length and state. *)
Definition store_chunk (m : Manager) (t : Transfer) (b : ChunkBitmap) (n : Z) (plaintext : bytes)
    : outcome Manager TransferError unit :=
  let id := t_id t in
  match storage_write_chunk (tm_storage m) id n (t_chunk_size t) plaintext with
  | (Err StorageError, _) =>
      do? _, m1 := fail_transfer m t in
      (Ok tt, send m1 (FileErrorFrame id))
  | (Err e, _) => (Err e, m)
  | (Ok _, s) =>
      let b1 := (mark b n).2 in
      let m1 := set_bitmaps (set_storage m s) (dset (tm_bitmaps m) id b1) in
      let t1 := touch (with_progress t b1) (e_now env) in
      try? t2 := (if decide (t_state t1 = ACCEPTED) then transition_to t1 TRANSFERRING (e_now env)
                  else Ok t1) @ (put_transfer m1 t1) in
      let m2 := send (put_transfer m1 t2) (FileAck id n) in
      if is_complete b1 then finish_receiving m2 t2 else (Ok tt, m2)
  end.

(** [_on_chunk] *)
Definition on_chunk (m : Manager) (id : unicode) (n : Z) (sealed : bytes)
    : outcome Manager TransferError unit :=
  match dget (tm_transfers m) id with
  | None => (Ok tt, send m (FileErrorFrame id))
  | Some t =>
      if negb (bool_decide (t_direction t = RECEIVING)) then (Ok tt, send m (FileErrorFrame id))
      else if decide (t_state t = OFFERED) then (Ok tt, m)
      else if is_terminal t || bool_decide (t_state t = PAUSED) then (Ok tt, m)
      else if negb ((1 <=? n) && (n <=? t_total t)) then
        do? _, m1 := fail_transfer m t in
        (Ok tt, send m1 (FileErrorFrame id))
      else
        let expected := expected_chunk_length t n in
        if negb (Z.of_nat (length sealed) =? expected + 12 + 16) then integrity_failure m t
        else
          match dget (tm_bitmaps m) id with
          | None => (Err PyKeyError, m)
          | Some b =>
              if has b n then (Ok tt, send m (FileAck id n))
              else
                match key_for m id with
                | (Err e, m1) => (Err e, m1)
                | (Ok None, m1) => (Ok tt, m1)
                | (Ok (Some key), m1) =>
                    match open_chunk key id n sealed with
                    | Err _ => integrity_failure m1 t
                    | Ok plaintext =>
                        if negb (Z.of_nat (length plaintext) =? expected)
                        then integrity_failure m1 t
                        else store_chunk m1 t b n plaintext
                    end
                end
          end
  end.

(** [_on_ack] *)
Definition on_ack (m : Manager) (id : unicode) (n : Z) : outcome Manager TransferError unit :=
  match dget (tm_transfers m) id with
  | None => (Ok tt, m)
  | Some t =>
      if negb (bool_decide (t_direction t = SENDING)) then (Ok tt, m)
      else if negb ((1 <=? n) && (n <=? t_total t)) then (Ok tt, m)
      else
        match dget (tm_bitmaps m) id with
        | None => (Err PyKeyError, m)
        | Some b =>
            match mark b n with
            | (Ok true, b1) =>
                (Ok tt, put_transfer (set_bitmaps m (dset (tm_bitmaps m) id b1))
                          (touch (with_progress t b1) (e_now env)))
            | (Ok false, _) => (Ok tt, m)
            | (Err e, _) => (Err e, m)
            end
        end
  end.

(** [_on_pause] *)
Definition on_pause (m : Manager) (id : unicode) : outcome Manager TransferError unit :=
  match dget (tm_transfers m) id with
  | Some t =>
      if decide (t_state t = TRANSFERRING) then
        try? t1 := transition_to (set_notified t true) PAUSED (e_now env) @ m in
        (Ok tt, put_transfer m t1)
      else (Ok tt, m)
  | None => (Ok tt, m)
  end.

(** [_on_resume] *)
Definition on_resume (m : Manager) (id : unicode) : outcome Manager TransferError unit :=
  match dget (tm_transfers m) id with
  | None => (Ok tt, m)
  | Some t =>
      try? t1 := (if decide (t_state t = PAUSED)
                  then transition_to (set_notified t true) TRANSFERRING (e_now env) else Ok t) @ m in
      let m1 := put_transfer m t1 in
      if decide (t_direction t1 = RECEIVING) then
        if decide (t_state t1 = COMPLETED) then
          try? manifest := require_manifest m1 id @ m1 in
          (Ok tt, send m1 (FileComplete id (mf_sha256 manifest)))
        else if decide (t_state t1 ∈ [ACCEPTED; TRANSFERRING]) then (Ok tt, share_bitmap m1 id)
        else (Ok tt, m1)
      else (Ok tt, m1)
  end.

(** [_on_cancel], [_on_error_frame] *)
Definition on_end (m : Manager) (id : unicode) (state : TransferState)
    : outcome Manager TransferError unit :=
  match dget (tm_transfers m) id with
  | Some t => if is_terminal t then (Ok tt, m) else settle_terminal m t state
  | None => (Ok tt, m)
  end.
Definition on_cancel (m : Manager) (id : unicode) : outcome Manager TransferError unit :=
  on_end m id CANCELLED.
Definition on_error_frame (m : Manager) (id : unicode) : outcome Manager TransferError unit :=
  on_end m id FAILED.

(** [_on_complete] *)
Definition on_complete (m : Manager) (id digest : unicode) : outcome Manager TransferError unit :=
  match dget (tm_transfers m) id with
  | None => (Ok tt, m)
  | Some t =>
      if negb (bool_decide (t_direction t = SENDING)) then (Ok tt, m)
      else if negb (bool_decide (t_state t ∈ [ACCEPTED; TRANSFERRING])) then (Ok tt, m)
      else if negb (bool_decide (digest = t_integrity t)) then fail_transfer m t
      else
        let t1 := set_progress t (t_total t) (t_size t) in
        do? _, m1 := settle_terminal (put_transfer m t1) t1 COMPLETED in
        (Ok tt, set_history m1 (tm_history m1 ++ [(id, COMPLETED)]))
  end.

(** [handle_frame] *)
Definition handle_frame (m : Manager) (f : FileFrame) : outcome Manager TransferError unit :=
  if tm_closing m then (Ok tt, m)
  else
    match f with
    | FileOffer id ct => on_offer m id ct
    | FileAccept id bitmap => on_accept m id bitmap
    | FileReject id => on_reject_frame m id
    | FileChunk id n ct => on_chunk m id n ct
    | FileAck id n => on_ack m id n
    | FilePause id => on_pause m id
    | FileResume id => on_resume m id
    | FileCancel id => on_cancel m id
    | FileComplete id digest => on_complete m id digest
    | FileErrorFrame id => on_error_frame m id
    end.

(** ** The sender's pump *)

(** One chunk sealed and sent; the window and the attempts remember it. *)
Definition pump_chunk (m : Manager) (id : unicode) (key : bytes) (p : Pump) (r : ChunkReader)
    (n now : Z) (data : bytes) : Manager * Pump :=
  (send m (FileChunk id n (seal_chunk key id n (e_nonce env n) data)),
   mkPump (Some r) (dset (pu_in_flight p) n now)
     (dset (pu_attempts p) n (default 0 (dget (pu_attempts p) n) + 1))
     (pu_probes p) (pu_all_acked p)).

(** The first loop: missing chunks fill the free part of the window.  [None]
    is a pump that returned. *)
Fixpoint pump_fill (m : Manager) (t : Transfer) (key : bytes) (p : Pump) (r : ChunkReader)
    (now free : Z) (ns : list Z) : outcome Manager TransferError (option (Pump * ChunkReader)) :=
  match ns with
  | [] => (Ok (Some (p, r)), m)
  | n :: ns' =>
      if free <=? 0 then (Ok (Some (p, r)), m)
      else if dmem (pu_in_flight p) n then pump_fill m t key p r now free ns'
      else
        match read r n with
        | (Err _, _) =>
            do? _, m1 := fail_transfer m t in
            (Ok None, send m1 (FileErrorFrame (t_id t)))
        | (Ok data, r1) =>
            let '(m1, p1) := pump_chunk m (t_id t) key p r1 n now data in
            pump_fill m1 t key p1 r1 now (free - 1) ns'
        end
  end.

(** The second loop, over [list(in_flight.items())]: chunks whose
    acknowledgement is overdue are sent again, up to [retry_limit] times. *)
Fixpoint pump_retry (m : Manager) (t : Transfer) (key : bytes) (p : Pump) (r : ChunkReader)
    (now : Z) (items : list (Z * Z)) : outcome Manager TransferError (option (Pump * ChunkReader)) :=
  match items with
  | [] => (Ok (Some (p, r)), m)
  | (n, sent_at) :: items' =>
      if now - sent_at <? l_ack_timeout limits then pump_retry m t key p r now items'
      else if l_retry_limit limits <=? default 0 (dget (pu_attempts p) n) then
        do? _, m1 := fail_transfer m t in
        (Ok None, send m1 (FileErrorFrame (t_id t)))
      else
        match read r n with
        | (Err _, _) => do? _, m1 := fail_transfer m t in (Ok None, m1)
        | (Ok data, r1) =>
            let '(m1, p1) := pump_chunk m (t_id t) key p r1 n now data in
            pump_retry m1 t key p1 r1 now items'
        end
  end.

Definition COMPLETE_PROBE_MULTIPLIER : Z := 4.

(** Everything acknowledged: wait for the completion frame, probing. *)
Definition pump_probe (m : Manager) (t : Transfer) (p : Pump) (now : Z)
    : outcome Manager TransferError (option Pump) :=
  let acked_at := default now (pu_all_acked p) in
  let p1 := mkPump (pu_reader p) (pu_in_flight p) (pu_attempts p) (pu_probes p) (Some acked_at) in
  if now - acked_at <? COMPLETE_PROBE_MULTIPLIER * l_ack_timeout limits then (Ok (Some p1), m)
  else if l_retry_limit limits <=? pu_probes p then
    do? _, m1 := fail_transfer m t in (Ok None, m1)
  else (Ok (Some (mkPump (pu_reader p) (pu_in_flight p) (pu_attempts p) (pu_probes p + 1) (Some now))),
        send m (FileResume (t_id t))).

(** What a pump does once the transfer may move: [later] is its second
    reading of the monotonic clock. *)
Definition pump_body (later : Z) (m : Manager) (t : Transfer) (b : ChunkBitmap) (key : bytes)
    (p : Pump) (r : ChunkReader) : outcome Manager TransferError (option Pump) :=
  let free := TRANSFER_WINDOW_CHUNKS - Z.of_nat (length (pu_in_flight p)) in
  do? filled, m1 := pump_fill m t key p r (e_mono env) free (missing b) in
  match filled with
  | None => (Ok None, m1)
  | Some (p1, r1) =>
      let p2 := mkPump (pu_reader p1) (filter (λ x, has b x.1 = false) (pu_in_flight p1))
                  (pu_attempts p1) (pu_probes p1) (pu_all_acked p1) in
      do? retried, m2 := pump_retry m1 t key p2 r1 later (pu_in_flight p2) in
      match retried with
      | None => (Ok None, m2)
      | Some (p3, r3) =>
          let p4 := mkPump (Some r3) (pu_in_flight p3) (pu_attempts p3) (pu_probes p3)
                      (pu_all_acked p3) in
          if is_complete b then pump_probe m2 t p4 later else (Ok (Some p4), m2)
      end
  end.

(** One turn of the loop of [_send_pump], from one wait to the next.  The
    source file is the one that was offered. *)
Definition pump_turn (later : Z) (m : Manager) (id : unicode) (p : Pump)
    : outcome Manager TransferError (option Pump) :=
  if tm_closing m then (Ok None, m)
  else
    match dget (tm_transfers m) id with
    | None => (Ok None, m)
    | Some t =>
        if is_terminal t then (Ok None, m)
        else
          match dget (tm_bitmaps m) id with
          | None => (Err PyKeyError, m)
          | Some b =>
              if negb (bool_decide (t_state t = TRANSFERRING)) || negb (e_link_ready env)
              then (Ok (Some p), m)
              else
                match key_for m id with
                | (Err e, m1) => (Err e, m1)
                | (Ok None, m1) => (Ok (Some p), m1)
                | (Ok (Some key), m1) =>
                    match pu_reader p, t_source t with
                    | Some r, _ => pump_body later m1 t b key p r
                    | None, None => (Err PyAssertionError, m1)
                    | None, Some file =>
                        let r := ChunkReader_open file (t_chunk_size t) (t_total t) in
                        pump_body later m1 t b key
                          (mkPump (Some r) (pu_in_flight p) (pu_attempts p) (pu_probes p)
                             (pu_all_acked p)) r
                    end
                end
          end
    end.

(** A turn with the handlers around the loop: an exception fails the
    transfer, and a pump that ends is forgotten. *)
Definition send_pump (later : Z) (m : Manager) (id : unicode) : outcome Manager TransferError unit :=
  match dget (tm_pumps m) id with
  | None => (Ok tt, m)
  | Some p =>
      match pump_turn later m id p with
      | (Ok (Some p'), m1) => (Ok tt, set_pumps m1 (dset (tm_pumps m1) id p'))
      | (Ok None, m1) => (Ok tt, set_pumps m1 (dpop (tm_pumps m1) id))
      | (Err _, m1) =>
          match dget (tm_transfers m1) id with
          | Some t =>
              if is_terminal t then (Ok tt, set_pumps m1 (dpop (tm_pumps m1) id))
              else let '(r, m2) := fail_transfer m1 t in
                   (r, set_pumps m2 (dpop (tm_pumps m2) id))
          | None => (Ok tt, set_pumps m1 (dpop (tm_pumps m1) id))
          end
      end
  end.

(** ** Session events, housekeeping and shutdown *)

(** [for transfer in list(self._transfers.values())]: an exception ends the
    loop.  Only the body removes the transfer it is at. *)
Fixpoint for_transfers (body : Manager → Transfer → outcome Manager TransferError unit)
    (ids : list unicode) (m : Manager) : outcome Manager TransferError unit :=
  match ids with
  | [] => (Ok tt, m)
  | id :: ids' =>
      match dget (tm_transfers m) id with
      | None => for_transfers body ids' m
      | Some t => do? _, m1 := body m t in for_transfers body ids' m1
      end
  end.

(** [_auto_pause] *)
Definition auto_pause_one (m : Manager) (t : Transfer) : outcome Manager TransferError unit :=
  if decide (t_state t = TRANSFERRING) then
    try? t1 := transition_to (set_notified t false) PAUSED (e_now env) @ m in
    (Ok tt, put_transfer m t1)
  else (Ok tt, m).
Definition auto_pause (m : Manager) : outcome Manager TransferError unit :=
  for_transfers auto_pause_one (keys (tm_transfers m)) m.

(** [_recover_transfers]; a [TransferError] of the new offer is caught. *)
Definition is_transfer_error (e : TransferError) : bool :=
  match e with
  | TransferErr | TransferValidationError | TransferStateError | TransferLimitError => true
  | _ => false
  end.
Definition recover_one (m : Manager) (t : Transfer) : outcome Manager TransferError unit :=
  if negb (bool_decide (t_direction t = SENDING)) then (Ok tt, m)
  else if decide (t_state t = OFFERED) then
    match offer m t with
    | (Ok _, m1) => (Ok tt, m1)
    | (Err e, m1) => if is_transfer_error e then (Ok tt, m1) else (Err e, m1)
    end
  else if decide (t_state t = PAUSED ∧ t_resume_notified t = false) then
    try? t1 := transition_to (set_notified t true) TRANSFERRING (e_now env) @ m in
    (Ok tt, ensure_pump (send (put_transfer m t1) (FileResume (t_id t))) (t_id t))
  else (Ok tt, m).
Definition recover_transfers (m : Manager) : outcome Manager TransferError unit :=
  if tm_closing m || negb (e_link_ready env) then (Ok tt, m)
  else for_transfers recover_one (keys (tm_transfers m)) m.

(** [_on_chat_event] *)
Export ChatEvents.

Fixpoint contains (needle s : unicode) : bool :=
  bool_decide (take (length needle) s = needle) ||
  match s with [] => false | _ :: s' => contains needle s' end.

Definition on_chat_event (m : Manager) (kind : ChatEventKind) (detail : unicode)
    : outcome Manager TransferError unit :=
  if tm_closing m then (Ok tt, m)
  else
    match kind with
    | CONNECTION =>
        if contains (cp "lost") detail || contains (cp "Disconnected") detail
           || contains (cp "closed") (ascii_lower detail)
        then auto_pause m else (Ok tt, m)
    | PEER => if contains (cp "left") detail then auto_pause m else (Ok tt, m)
    | SESSION =>
        if contains (cp "Active") detail then (Ok tt, spawn (wipe_keys m) RecoverTask) else (Ok tt, m)
    | MESSAGE | DELIVERY | TYPING | NOTICE => (Ok tt, m)
    end.

(** The first scheduled coroutine runs; its exceptions are logged. *)
Definition run_spawned (m : Manager) : Manager :=
  match tm_spawned m with
  | [] => m
  | task :: rest =>
      let m1 := set_spawned m rest in
      match task with
      | RecoverTask => (recover_transfers m1).2
      | OfferTask id =>
          match dget (tm_transfers m1) id with
          | Some t => (offer m1 t).2
          | None => (key_for m1 id).2
          end
      end
  end.

(** [_purge] *)
Definition purge (m : Manager) (id : unicode) : Manager :=
  let m1 := set_transfers m (dpop (tm_transfers m) id) in
  let m2 := set_manifests m1 (dpop (tm_manifests m1) id) in
  let m3 := set_bitmaps m2 (dpop (tm_bitmaps m2) id) in
  let m4 := set_destinations m3 (dpop (tm_destinations m3) id) in
  drop_key (set_offer_attempts m4 (dpop (tm_offer_attempts m4) id)) id.

Definition OFFER_RESEND_MULTIPLIER : Z := 4.

(** [_sweep] *)
Definition sweep_one (m : Manager) (t : Transfer) : outcome Manager TransferError unit :=
  let id := t_id t in
  let now := e_now env in
  if is_terminal t then
    (Ok tt, if l_terminal_ttl limits <? now - t_activity t then purge m id else m)
  else if decide (t_state t = OFFERED) then
    if l_offer_timeout limits <? now - t_created t then
      do? _, m1 := settle_terminal m t EXPIRED in
      (Ok tt, send m1 (FileCancel id))
    else if bool_decide (t_direction t = SENDING) && e_link_ready env
            && (OFFER_RESEND_MULTIPLIER * l_ack_timeout limits <? now - t_activity t) then
      let sent := default 1 (dget (tm_offer_attempts m) id) in
      (Ok tt, if sent <? l_retry_limit limits
              then spawn (set_offer_attempts m (dset (tm_offer_attempts m) id (sent + 1)))
                     (OfferTask id)
              else m)
    else (Ok tt, m)
  else if l_expiry limits <? now - t_created t then
    do? _, m1 := settle_terminal m t EXPIRED in
    (Ok tt, send m1 (FileCancel id))
  else (Ok tt, m).
Definition sweep (m : Manager) : outcome Manager TransferError unit :=
  for_transfers sweep_one (keys (tm_transfers m)) m.

(** [start] *)
Definition start (m : Manager) : Manager :=
  set_storage m (cleanup_orphan_temps (tm_storage m) []).2.

(** [close]: the scheduled coroutines and the pumps are cancelled. *)
Definition close_one (m : Manager) (t : Transfer) : outcome Manager TransferError unit :=
  if is_active t then settle_terminal (send m (FileCancel (t_id t))) t CANCELLED else (Ok tt, m).
Definition close (m : Manager) : outcome Manager TransferError unit :=
  if tm_closing m then (Ok tt, m)
  else
    do? _, m1 := for_transfers close_one (keys (tm_transfers m)) (set_closing m true) in
    (Ok tt, mkTM (tm_storage m1) [] [] [] [] [] [] [] [] true (tm_sent m1) (tm_history m1)).
End manager.
