(* ===== verification/TransferInvariant.v ===== *)
(** * The invariant of the transfer manager

    One relation [good] between the manager before and after a call: the
    invariant still holds, every transfer followed its lifecycle, and every
    file that appeared among the downloads was verified.  It is a preorder,
    so that each handler is one composition of the lemmas of its parts. *)

From S2P Require Import Prelude Text Utf8 Primitives Json Chunking TransferStorage Transfer.

Open Scope Z_scope.

(** ** The invariant *)

Definition in_progress (t : Transfer) : Prop :=
  t_direction t = RECEIVING ∧ t_state t ∈ [ACCEPTED; TRANSFERRING; PAUSED].

(** What never changes of a transfer. *)
Record same_static (t t' : Transfer) : Prop := {
  ss_id : t_id t' = t_id t; ss_direction : t_direction t' = t_direction t;
  ss_filename : t_filename t' = t_filename t; ss_size : t_size t' = t_size t;
  ss_chunk_size : t_chunk_size t' = t_chunk_size t; ss_total : t_total t' = t_total t;
  ss_integrity : t_integrity t' = t_integrity t; ss_source : t_source t' = t_source t;
  ss_created : t_created t' = t_created t;
}.

Definition progress_ok (t : Transfer) : Prop :=
  0 <= t_chunks_done t <= t_total t ∧ 0 <= t_bytes_done t <= t_size t.

Record describes (f : FileManifest) (t : Transfer) : Prop := {
  de_size : mf_size f = t_size t; de_sha256 : mf_sha256 f = t_integrity t;
  de_filename : mf_filename f = t_filename t;
}.

Record transfer_ok {U : UnicodeData} (m : Manager) (t : Transfer) : Prop := {
  to_id : is_valid_transfer_id (t_id t) = true;
  to_size : 1 <= t_size t ∧ 1 <= t_chunk_size t;
  to_total : t_total t = chunk_count (t_size t) (t_chunk_size t);
  to_queued : t_state t = QUEUED → t_direction t = SENDING;
  to_progress : progress_ok t;
  to_manifest : ∃ f, dget (tm_manifests m) (t_id t) = Some f ∧ describes f t;
  to_bitmap : ∃ b, dget (tm_bitmaps m) (t_id t) = Some b ∧ bitmap_wf b ∧ bm_total b = t_total t;
}.

Definition window_ok (p : Pump) : Prop :=
  dict_wf (pu_in_flight p) ∧ Z.of_nat (length (pu_in_flight p)) <= TRANSFER_WINDOW_CHUNKS.

Record manager_ok {U : UnicodeData} (m : Manager) : Prop := {
  mo_transfers : dict_wf (tm_transfers m);
  mo_manifests : dict_wf (tm_manifests m);
  mo_bitmaps : dict_wf (tm_bitmaps m);
  mo_temp : dict_wf (st_temp (tm_storage m));
  mo_pumps : dict_wf (tm_pumps m);
  mo_all : ∀ id t, dget (tm_transfers m) id = Some t → t_id t = id ∧ transfer_ok m t;
  mo_parts : ∀ id, is_valid_transfer_id id = true →
    is_Some (dget (st_temp (tm_storage m)) id) ↔
    ∃ t, dget (tm_transfers m) id = Some t ∧ in_progress t;
  mo_window : ∀ id p, dget (tm_pumps m) id = Some p → window_ok p;
}.

(** ** What a call may do *)

Definition allowed (d : TransferDirection) (s s' : TransferState) : Prop := s' ∈ transitions_for d s.

Definition follows (t t' : Transfer) : Prop :=
  same_static t t' ∧ rtc (allowed (t_direction t)) (t_state t) (t_state t').

Definition evolves (m m' : Manager) : Prop :=
  ∀ id t, dget (tm_transfers m) id = Some t → ∃ t', dget (tm_transfers m') id = Some t' ∧ follows t t'.

Section verified.
Context {P : Primitives} {U : UnicodeData}.

(** The contents of a download a completed incoming transfer vouches for. *)
Definition verified (m : Manager) (content : bytes) : Prop :=
  ∃ id t, dget (tm_transfers m) id = Some t ∧ t_direction t = RECEIVING ∧ t_state t = COMPLETED ∧
    Z.of_nat (length content) = t_size t ∧ hash_file content = t_integrity t.

Definition published (m m' : Manager) : Prop :=
  ∀ name content, dget (st_downloads (tm_storage m')) name = Some content →
    dget (st_downloads (tm_storage m)) name = Some content ∨ verified m' content.

Record good (m m' : Manager) : Prop := {
  go_ok : manager_ok m'; go_evolves : evolves m m'; go_published : published m m';
}.

Lemma same_static_refl t : same_static t t.
Proof. by split. Qed.

Lemma same_static_trans t1 t2 t3 : same_static t1 t2 → same_static t2 t3 → same_static t1 t3.
Proof. intros [] []; split; congruence. Qed.

Lemma follows_refl t : follows t t.
Proof. split; [apply same_static_refl | done]. Qed.

Lemma follows_trans t1 t2 t3 : follows t1 t2 → follows t2 t3 → follows t1 t3.
Proof.
  intros [H1 R1] [H2 R2]. split; [by eapply same_static_trans|].
  rewrite (ss_direction _ _ H1) in R2. by etrans.
Qed.

(** Terminal states are left by no transition. *)
Lemma terminal_stays d s s' : s ∈ TERMINAL_STATES → rtc (allowed d) s s' → s' = s.
Proof.
  intros Hs Hr. destruct Hr as [|s x s' Hst _]; [done|]. exfalso.
  unfold allowed, TERMINAL_STATES in *. destruct d, s; simpl in *; set_solver.
Qed.

(** No transfer returns to the queue. *)
Lemma queued_first d s s' : rtc (allowed d) s s' → s' = QUEUED → s = QUEUED.
Proof.
  intros Hr Hq. apply rtc_inv_r in Hr as [->|(x & _ & Hx)]; [done|]. subst. exfalso.
  unfold allowed in Hx. destruct d, x; simpl in *; set_solver.
Qed.

Lemma verified_evolves m m' c : evolves m m' → verified m c → verified m' c.
Proof.
  intros He (id & t & Ht & Hd & Hs & Hl & Hh). destruct (He _ _ Ht) as (t' & Ht' & [Hss Hr]).
  exists id, t'. rewrite (ss_direction _ _ Hss), (ss_size _ _ Hss), (ss_integrity _ _ Hss).
  rewrite Hs in Hr. apply terminal_stays in Hr; [done|]. unfold TERMINAL_STATES. set_solver.
Qed.

Lemma good_trans m1 m2 m3 : good m1 m2 → good m2 m3 → good m1 m3.
Proof.
  intros [Ho1 He1 Hp1] [Ho2 He2 Hp2]. split; [done| |].
  - intros id t (t' & Ht' & Hf)%He1. destruct (He2 _ _ Ht') as (t'' & Ht'' & Hf').
    exists t''. split; [done|]. by eapply follows_trans.
  - intros name c [Hc|Hc]%Hp2; [|by right]. destruct (Hp1 _ _ Hc) as [?|Hv]; [by left|].
    right. by eapply verified_evolves.
Qed.

(** A call that leaves the transfers, their data and the storage alone. *)
Record core_eq (m m' : Manager) : Prop := {
  ce_storage : tm_storage m' = tm_storage m; ce_transfers : tm_transfers m' = tm_transfers m;
  ce_manifests : tm_manifests m' = tm_manifests m; ce_bitmaps : tm_bitmaps m' = tm_bitmaps m;
  ce_pumps : tm_pumps m' = tm_pumps m;
}.

Lemma core_eq_refl m : core_eq m m.
Proof. by split. Qed.

Lemma core_eq_trans m1 m2 m3 : core_eq m1 m2 → core_eq m2 m3 → core_eq m1 m3.
Proof. intros [] []; split; congruence. Qed.

Lemma transfer_ok_data m m' t :
  tm_manifests m' = tm_manifests m → tm_bitmaps m' = tm_bitmaps m → transfer_ok m t → transfer_ok m' t.
Proof. intros Hm Hb []. split; rewrite ?Hm, ?Hb; done. Qed.

Lemma good_core m m' : core_eq m m' → manager_ok m → good m m'.
Proof.
  intros [Es Et Em Eb Ep] Ho. split.
  - destruct Ho. split; rewrite ?Es, ?Et, ?Em, ?Eb, ?Ep; try done.
    intros id t Ht. destruct (mo_all0 _ _ Ht). split; [done|]. by eapply transfer_ok_data.
  - intros id t Ht. exists t. rewrite Et. split; [done|apply follows_refl].
  - intros name c Hc. left. by rewrite <- Es.
Qed.

Lemma good_refl m : manager_ok m → good m m.
Proof. apply good_core, core_eq_refl. Qed.

(** ** One transfer changes *)

Record bitmap_for (t : Transfer) (b : ChunkBitmap) : Prop := {
  bf_wf : bitmap_wf b; bf_total : bm_total b = t_total t;
}.

Lemma good_update m m' t t' :
  manager_ok m → dget (tm_transfers m) (t_id t) = Some t → follows t t' → progress_ok t' →
  tm_transfers m' = dset (tm_transfers m) (t_id t) t' → tm_manifests m' = tm_manifests m →
  (tm_bitmaps m' = tm_bitmaps m ∨
   ∃ b, bitmap_for t b ∧ tm_bitmaps m' = dset (tm_bitmaps m) (t_id t) b) →
  dict_wf (st_temp (tm_storage m')) →
  (∀ id, id ≠ t_id t →
     is_Some (dget (st_temp (tm_storage m')) id) ↔ is_Some (dget (st_temp (tm_storage m)) id)) →
  (is_Some (dget (st_temp (tm_storage m')) (t_id t)) ↔ in_progress t') →
  (st_downloads (tm_storage m') = st_downloads (tm_storage m) ∨ published m m') →
  tm_pumps m' = tm_pumps m →
  good m m'.
Proof.
  intros Ho Ht [Hss Hr] Hprog Et Em Eb Htemp Hother Hself Hdl Ep.
  assert (Hbit : dict_wf (tm_bitmaps m')).
  { destruct Eb as [->|(b & _ & ->)]; [apply Ho|apply dict_wf_dset, Ho]. }
  split.
  - split; [|rewrite Em; apply Ho|done|done|rewrite Ep; apply Ho| | |].
    + rewrite Et. apply dict_wf_dset, Ho.
    + intros id u. rewrite Et, dget_dset. case_decide as Hid.
      * intros [= <-]. rewrite (ss_id _ _ Hss). split; [done|].
        destruct (proj2 (mo_all _ Ho _ _ Ht)) as [Hi Hsz Htot Hq _ (f & Hf & Hd) (b & Hb & Hw)].
        split; rewrite ?(ss_id _ _ Hss), ?(ss_size _ _ Hss), ?(ss_chunk_size _ _ Hss), ?(ss_total _ _ Hss); try done.
        -- rewrite (ss_direction _ _ Hss). intros Hq'. by apply Hq, (queued_first _ _ _ Hr).
        -- exists f. rewrite Em. split; [done|]. destruct Hd.
           split; rewrite ?(ss_size _ _ Hss), ?(ss_integrity _ _ Hss), ?(ss_filename _ _ Hss); done.
        -- destruct Eb as [->|(b' & [] & ->)]; [by exists b|]. exists b'.
           rewrite dget_dset, decide_True by done. done.
      * intros Hu. destruct (mo_all _ Ho _ _ Hu) as [Hui Huo]. split; [done|]. destruct Huo.
        split; rewrite ?Em; try done. destruct Eb as [->|(b' & _ & ->)]; [done|].
        rewrite dget_dset, decide_False by congruence. done.
    + intros id Hid. rewrite Et. setoid_rewrite dget_dset. destruct (decide (t_id t = id)) as [<-|Hne].
      * rewrite Hself. naive_solver.
      * rewrite Hother by congruence. by apply Ho.
    + rewrite Ep. apply Ho.
  - intros id u Hu. rewrite Et, dget_dset. case_decide as Hid.
    + exists t'. split; [done|]. rewrite <- Hid, Ht in Hu. injection Hu as <-. done.
    + exists u. split; [done|apply follows_refl].
  - destruct Hdl as [Hdl|]; [|done]. intros name c. rewrite Hdl. by left.
Qed.

(** Only the transfer's own record changes, and not whether it is being
    received. *)
Lemma good_put m t t' :
  manager_ok m → dget (tm_transfers m) (t_id t) = Some t → follows t t' → progress_ok t' →
  (in_progress t' ↔ in_progress t) → good m (put_transfer m t').
Proof.
  intros Ho Ht Hf Hp Hin. pose proof (ss_id _ _ (proj1 Hf)) as Hid.
  apply (good_update m _ t t'); try done; cbn.
  - by rewrite Hid.
  - by left.
  - apply Ho.
  - rewrite (mo_parts _ Ho) by apply (mo_all _ Ho _ _ Ht). rewrite Hin, Ht. naive_solver.
  - by left.
Qed.

Lemma progress_of m t : manager_ok m → dget (tm_transfers m) (t_id t) = Some t → progress_ok t.
Proof. intros Ho Ht. apply (mo_all _ Ho _ _ Ht). Qed.

Lemma dget_put m t : dget (tm_transfers (put_transfer m t)) (t_id t) = Some t.
Proof. cbn. by rewrite dget_dset, decide_True. Qed.
End verified.

Section handlers.
Context {P : Primitives} {U : UnicodeData} {C : Coercions}.
Variable limits : TransferLimits.
Variable env : Env.

(** ** The helpers *)

Lemma core_send m f : core_eq m (send m f).
Proof. by split. Qed.

Lemma core_promote_loop m l : core_eq m (promote_loop limits m l).
Proof.
  revert m. induction l as [|t l IH]; intros m; cbn; [apply core_eq_refl|].
  case_match; [apply core_eq_refl|]. eapply core_eq_trans; [|apply IH]. by split.
Qed.

Lemma core_promote m : core_eq m (promote_queued limits m).
Proof. unfold promote_queued. case_match; [apply core_eq_refl | apply core_promote_loop]. Qed.

Lemma core_key_for m id o m' : key_for env m id = (o, m') → core_eq m m'.
Proof. unfold key_for. intros H. paths; by split. Qed.

Lemma core_share m id : core_eq m (share_bitmap m id).
Proof. unfold share_bitmap. case_match; [apply core_send|apply core_eq_refl]. Qed.

Lemma good_then_core m1 m2 m3 : good m1 m2 → core_eq m2 m3 → good m1 m3.
Proof. intros Hg Hc. eapply good_trans; [exact Hg|]. apply good_core; [done|apply Hg]. Qed.

Lemma good_send m1 m2 f : good m1 m2 → good m1 (send m2 f).
Proof. intros Hg. eapply good_then_core; [done|apply core_send]. Qed.

Lemma transition_Ok t s now t' :
  transition_to t s now = Ok t' ↔ allowed (t_direction t) (t_state t) s ∧ t' = set_state t s now.
Proof.
  unfold transition_to, allowed. rewrite bind_Ok. setoid_rewrite guard_or_Ok.
  setoid_rewrite bool_decide_eq_true. naive_solver.
Qed.

Lemma transition_allowed t s now :
  allowed (t_direction t) (t_state t) s → transition_to t s now = Ok (set_state t s now).
Proof. intros H. by apply transition_Ok. Qed.

Lemma static_state t s now : same_static t (set_state t s now).
Proof. by split. Qed.

Lemma follows_state t s now : allowed (t_direction t) (t_state t) s → follows t (set_state t s now).
Proof. intros H. split; [apply static_state|]. by apply rtc_once. Qed.

Lemma parts_other m t id :
  manager_ok m → id ≠ t_id t →
  is_Some (dget (dpop (st_temp (tm_storage m)) (t_id t)) id) ↔ is_Some (dget (st_temp (tm_storage m)) id).
Proof. intros Ho Hne. rewrite dget_dpop by apply Ho. by rewrite decide_False. Qed.

Lemma terminal_not_in_progress t : t_state t ∈ TERMINAL_STATES → ¬ in_progress t.
Proof. unfold TERMINAL_STATES, in_progress. intros H [_ H']. destruct (t_state t); set_solver. Qed.

(** [_settle_terminal], except for the completion of a download, whose part
    file is already moved. *)
Lemma settle_good m t s r m' :
  manager_ok m → dget (tm_transfers m) (t_id t) = Some t → s ∈ TERMINAL_STATES →
  t_direction t = SENDING ∨ s ≠ COMPLETED →
  settle_terminal limits env m t s = (r, m') → good m m'.
Proof.
  intros Ho Ht Hs Hd. unfold settle_terminal. destruct (transition_to t s (e_now env)) as [t'|e] eqn:E.
  2: { intros H. paths; by apply good_refl. }
  apply transition_Ok in E as [Hal ->]. intros [= <- <-].
  eapply good_then_core; [|apply core_promote].
  apply (good_update m _ t (set_state t s (e_now env))); try done.
  - by apply follows_state.
  - exact (progress_of m t Ho Ht).
  - by case_match.
  - by case_match.
  - left. by case_match.
  - case_match; [apply dict_wf_dpop|]; apply Ho.
  - intros id Hne. case_match; [|done]. by apply parts_other.
  - split; [|intros Hp; by apply terminal_not_in_progress in Hp].
    intros Hsome. exfalso. destruct (t_direction t) eqn:Edir.
    + assert (Hin : ∃ u, dget (tm_transfers m) (t_id t) = Some u ∧ in_progress u).
      { apply (mo_parts _ Ho); [by apply (mo_all _ Ho _ _ Ht)|]. by rewrite bool_decide_false in Hsome. }
      destruct Hin as (u & Hu & [Hud _]). congruence.
    + destruct Hd as [|Hd]; [done|]. rewrite bool_decide_true, bool_decide_false in Hsome by done.
      cbn in Hsome. rewrite dget_dpop, decide_True in Hsome by (done || apply Ho). by destruct Hsome.
  - left. by case_match.
  - by case_match.
Qed.

Lemma fail_good m t r m' :
  manager_ok m → dget (tm_transfers m) (t_id t) = Some t →
  fail_transfer limits env m t = (r, m') → good m m'.
Proof.
  unfold fail_transfer. intros Ho Ht H. case_match; [simplify_eq; by apply good_refl|].
  eapply settle_good; try done; [unfold TERMINAL_STATES; set_solver|by right].
Qed.

Lemma integrity_good m t r m' :
  manager_ok m → dget (tm_transfers m) (t_id t) = Some t →
  integrity_failure limits env m t = (r, m') → good m m'.
Proof.
  unfold integrity_failure. intros Ho Ht H.
  destruct (fail_transfer limits env m t) as [[[]|e] m1] eqn:E; simplify_eq;
    apply fail_good in E; try done. by apply good_send.
Qed.

(** ** Progress and bitmaps *)

Lemma bitmap_of m t :
  manager_ok m → dget (tm_transfers m) (t_id t) = Some t →
  ∃ b, dget (tm_bitmaps m) (t_id t) = Some b ∧ bitmap_for t b.
Proof.
  intros Ho Ht. destruct (to_bitmap _ _ (proj2 (mo_all _ Ho _ _ Ht))) as (b & Hb & Hw & He).
  exists b. done.
Qed.

Lemma progress_with t b :
  bitmap_for t b → 1 <= t_size t → 1 <= t_chunk_size t → progress_ok (with_progress t b).
Proof.
  intros [W Et] Hs Hc. unfold progress_ok, with_progress, set_progress. cbn. rewrite <- Et.
  pose proof (bw_count b W) as E. pose proof (count_if_bound (has b) (chunk_numbers (bm_total b))) as Hb.
  pose proof (bw_total b W). rewrite <- E in Hb. unfold chunk_numbers in Hb. rewrite length_seqZ in Hb. lia.
Qed.

Lemma mark_for t b n r b' : bitmap_for t b → mark b n = (r, b') → bitmap_for t b'.
Proof.
  intros [W E] H. destruct (decide (1 <= n <= bm_total b)) as [Hn|Hn].
  - destruct (mark_spec b n W Hn) as (b1 & Hm & W1 & E1 & _). rewrite Hm in H. simplify_eq.
    split; [done|congruence].
  - unfold mark in H. destruct ((1 <=? n) && (n <=? bm_total b)) eqn:Eb; breflect; [lia|]. by simplify_eq/=.
Qed.

Lemma adopt_for t b peer total : bitmap_for t b → bitmap_for t (adopt_bitmap b peer total).
Proof.
  unfold adopt_bitmap. revert b. induction (chunk_numbers total) as [|n l IH]; intros b Hb; [done|].
  cbn. apply IH. case_match; [|done]. destruct (mark b n) eqn:E. by eapply mark_for.
Qed.

Lemma follows_progress t c n : follows t (set_progress t c n).
Proof. split; [by split|done]. Qed.

(** A transfer's bitmap and progress change together. *)
Lemma good_progress m t b t' :
  manager_ok m → dget (tm_transfers m) (t_id t) = Some t → bitmap_for t b →
  follows (with_progress t b) t' → t_chunks_done t' = t_chunks_done (with_progress t b) →
  t_bytes_done t' = t_bytes_done (with_progress t b) → (in_progress t' ↔ in_progress t) →
  good m (put_transfer (set_bitmaps m (dset (tm_bitmaps m) (t_id t) b)) t').
Proof.
  intros Ho Ht Hb Hf Hc Hby Hin. pose proof (ss_id _ _ (proj1 Hf)) as Hid. cbn in Hid.
  destruct (mo_all _ Ho _ _ Ht) as [_ Hto].
  apply (good_update m _ t t'); try done; cbn.
  - eapply follows_trans; [apply follows_progress|exact Hf].
  - destruct (progress_with t b Hb) as [H1 H2]; try apply Hto. destruct Hf as [Hss _].
    unfold progress_ok. rewrite Hc, Hby, (ss_total _ _ Hss), (ss_size _ _ Hss). done.
  - by rewrite Hid.
  - right. by exists b.
  - apply Ho.
  - rewrite (mo_parts _ Ho) by apply Hto. rewrite Hin, Ht. naive_solver.
  - by left.
Qed.

(** ** Handlers on one transfer *)

Lemma own_id m id t : manager_ok m → dget (tm_transfers m) id = Some t → t_id t = id.
Proof. intros Ho Ht. apply (mo_all _ Ho _ _ Ht). Qed.

(** A change of state that keeps a transfer being received, or not. *)
Lemma good_state m t t' s :
  manager_ok m → dget (tm_transfers m) (t_id t) = Some t →
  (∃ b, transition_to (set_notified t b) s (e_now env) = Ok t') →
  (t_direction t = RECEIVING → s ∈ [ACCEPTED; TRANSFERRING; PAUSED] ↔
     t_state t ∈ [ACCEPTED; TRANSFERRING; PAUSED]) →
  good m (put_transfer m t').
Proof.
  intros Ho Ht [b [Hal ->]%transition_Ok] Hin. apply (good_put m t); try done.
  - split; [by split|]. by apply rtc_once.
  - exact (progress_of m t Ho Ht).
  - unfold in_progress. cbn. naive_solver.
Qed.

Lemma notified_same t : set_notified t (t_resume_notified t) = t.
Proof. by destruct t. Qed.

Lemma transition_good m t t' s :
  manager_ok m → dget (tm_transfers m) (t_id t) = Some t → transition_to t s (e_now env) = Ok t' →
  (t_direction t = RECEIVING → s ∈ [ACCEPTED; TRANSFERRING; PAUSED] ↔
     t_state t ∈ [ACCEPTED; TRANSFERRING; PAUSED]) →
  good m (put_transfer m t').
Proof.
  intros Ho Ht Htr Hin. apply (good_state m t t' s); try done.
  exists (t_resume_notified t). by rewrite notified_same.
Qed.

Lemma touch_good m t :
  manager_ok m → dget (tm_transfers m) (t_id t) = Some t → good m (put_transfer m (touch t (e_now env))).
Proof.
  intros Ho Ht. apply (good_put m t _ Ho Ht); [split; [by split|done]|exact (progress_of m t Ho Ht)|done].
Qed.

(** Take a call apart and close the paths that change nothing. *)
Ltac unchanged :=
  match goal with
  | Ho : manager_ok ?m |- good ?m ?m => exact (good_refl m Ho)
  | Ho : manager_ok ?m |- good ?m (send ?m _) => exact (good_send m m _ (good_refl m Ho))
  | Ho : manager_ok ?m |- good ?m (share_bitmap ?m ?id) =>
      exact (good_core m _ (core_share m id) Ho)
  end.

Lemma pause_good m id r m' : manager_ok m → pause env m id = (r, m') → good m m'.
Proof.
  intros Ho H. unfold pause, require_transfer in H.
  destruct (dget (tm_transfers m) id) as [t|] eqn:Ht; cbn [of_option] in H; [|simplify_eq; unchanged].
  pose proof (own_id _ _ _ Ho Ht) as <-. destruct (bool_decide _) eqn:Es; cbn [guard_or] in H; [|simplify_eq; unchanged].
  breflect. destruct (transition_to _ _ _) as [t1|] eqn:E; simplify_eq; [|unchanged].
  apply good_send, (good_state m t t1 PAUSED); eauto. intros _. rewrite Es. set_solver.
Qed.

Lemma on_pause_good m id r m' : manager_ok m → on_pause env m id = (r, m') → good m m'.
Proof.
  intros Ho H. unfold on_pause in H.
  destruct (dget (tm_transfers m) id) as [t|] eqn:Ht; [|simplify_eq; unchanged].
  pose proof (own_id _ _ _ Ho Ht) as <-. case_decide as Es; [|simplify_eq; unchanged].
  destruct (transition_to _ _ _) as [t1|] eqn:E; simplify_eq; [|unchanged].
  apply (good_state m t t1 PAUSED); eauto. intros _. rewrite Es. set_solver.
Qed.

Lemma resume_good m id r m' : manager_ok m → resume env m id = (r, m') → good m m'.
Proof.
  intros Ho H. unfold resume, require_transfer in H.
  destruct (dget (tm_transfers m) id) as [t|] eqn:Ht; cbn [of_option] in H; [|simplify_eq; unchanged].
  pose proof (own_id _ _ _ Ho Ht) as <-. destruct (bool_decide _) eqn:Es; cbn [guard_or] in H; [|simplify_eq; unchanged].
  breflect. destruct (transition_to _ _ _) as [t1|] eqn:E; simplify_eq; [|unchanged].
  assert (G : good m (send (put_transfer m t1) (FileResume (t_id t)))).
  { apply good_send, (good_state m t t1 TRANSFERRING); eauto. intros _. rewrite Es. set_solver. }
  case_decide; [|done]. eapply good_then_core; [done|apply core_share].
Qed.

Lemma on_resume_good m id r m' : manager_ok m → on_resume env m id = (r, m') → good m m'.
Proof.
  intros Ho H. unfold on_resume, require_manifest in H.
  destruct (dget (tm_transfers m) id) as [t|] eqn:Ht; [|simplify_eq; unchanged].
  pose proof (own_id _ _ _ Ho Ht) as <-.
  assert (G : ∀ t1, (if decide (t_state t = PAUSED)
      then transition_to (set_notified t true) TRANSFERRING (e_now env) else Ok t) = Ok t1 →
      good m (put_transfer m t1)).
  { intros t1. case_decide as Es.
    - intros E. apply (good_state m t t1 TRANSFERRING); eauto. intros _. rewrite Es. set_solver.
    - intros [= <-]. apply (good_put m t t Ho Ht); [apply follows_refl|exact (progress_of m t Ho Ht)|done]. }
  destruct (if decide _ then _ else _) as [t1|] eqn:E; [|simplify_eq; unchanged]. specialize (G t1 eq_refl). clear E.
  repeat case_decide; try (simplify_eq; done).
  - destruct (of_option _ _); simplify_eq; [by apply good_send|done].
  - simplify_eq. eapply good_then_core; [done|apply core_share].
Qed.

Lemma cancel_good m id r m' : manager_ok m → cancel limits env m id = (r, m') → good m m'.
Proof.
  intros Ho H. unfold cancel, require_transfer in H.
  destruct (dget (tm_transfers m) id) as [t|] eqn:Ht; cbn [of_option] in H; [|simplify_eq; unchanged].
  pose proof (own_id _ _ _ Ho Ht) as <-. destruct (negb _) eqn:Es; cbn [guard_or] in H; [|simplify_eq; unchanged].
  destruct (settle_terminal _ _ _ _ _) as [[[]|e] m1] eqn:E; simplify_eq;
    (eapply settle_good in E; [|done|done|unfold TERMINAL_STATES; set_solver|by right]); [by apply good_send|done].
Qed.

Lemma reject_good m id r m' : manager_ok m → reject limits env m id = (r, m') → good m m'.
Proof.
  intros Ho H. unfold reject, require_transfer in H.
  destruct (dget (tm_transfers m) id) as [t|] eqn:Ht; cbn [of_option] in H; [|simplify_eq; unchanged].
  pose proof (own_id _ _ _ Ho Ht) as <-. do 2 (destruct (bool_decide _); cbn [guard_or] in H; [|simplify_eq; unchanged]).
  destruct (settle_terminal _ _ _ _ _) as [[[]|e] m1] eqn:E; simplify_eq;
    (eapply settle_good in E; [|done|done|unfold TERMINAL_STATES; set_solver|by right]); [by apply good_send|done].
Qed.

Lemma on_end_good m id s r m' :
  manager_ok m → s = CANCELLED ∨ s = FAILED → on_end limits env m id s = (r, m') → good m m'.
Proof.
  intros Ho Hs H. unfold on_end in H.
  destruct (dget (tm_transfers m) id) as [t|] eqn:Ht; [|simplify_eq; unchanged].
  pose proof (own_id _ _ _ Ho Ht) as <-. case_match; [simplify_eq; unchanged|].
  eapply settle_good; try done; destruct Hs as [-> | ->]; unfold TERMINAL_STATES; try set_solver; by right.
Qed.

Lemma on_reject_good m id r m' : manager_ok m → on_reject_frame limits env m id = (r, m') → good m m'.
Proof.
  intros Ho H. unfold on_reject_frame in H.
  destruct (dget (tm_transfers m) id) as [t|] eqn:Ht; [|simplify_eq; unchanged].
  pose proof (own_id _ _ _ Ho Ht) as <-. case_decide; [|simplify_eq; unchanged].
  eapply settle_good; try done; [unfold TERMINAL_STATES; set_solver|by left].
Qed.

Lemma on_reoffer_good m t r m' :
  manager_ok m → dget (tm_transfers m) (t_id t) = Some t → on_reoffer env m t = (r, m') → good m m'.
Proof.
  intros Ho Ht H. unfold on_reoffer, require_manifest in H.
  case_decide; [simplify_eq; unchanged|]. case_decide; [simplify_eq; by apply touch_good|].
  case_decide; [destruct (of_option _ _); simplify_eq; unchanged|]. case_match; simplify_eq; unchanged.
Qed.

Lemma on_ack_good m id n r m' : manager_ok m → on_ack env m id n = (r, m') → good m m'.
Proof.
  intros Ho H. unfold on_ack in H.
  destruct (dget (tm_transfers m) id) as [t|] eqn:Ht; [|simplify_eq; unchanged].
  pose proof (own_id _ _ _ Ho Ht) as <-. do 2 (case_match; [simplify_eq; unchanged|]).
  destruct (bitmap_of m t Ho Ht) as (b & Hb & Hf). rewrite Hb in H.
  destruct (mark b n) as [[[]|e] b1] eqn:Em; simplify_eq; try unchanged.
  apply (good_progress m t b1 _ Ho Ht); [by eapply mark_for|split; [by split|done]|done..].
Qed.

(** ** Offers *)

Lemma good_add m m' t f b :
  manager_ok m → dget (tm_transfers m) (t_id t) = None →
  is_valid_transfer_id (t_id t) = true → 1 <= t_size t ∧ 1 <= t_chunk_size t →
  t_total t = chunk_count (t_size t) (t_chunk_size t) →
  (t_state t = QUEUED → t_direction t = SENDING) → ¬ in_progress t → progress_ok t →
  describes f t → bitmap_for t b →
  tm_transfers m' = dset (tm_transfers m) (t_id t) t →
  tm_manifests m' = dset (tm_manifests m) (t_id t) f →
  tm_bitmaps m' = dset (tm_bitmaps m) (t_id t) b →
  tm_storage m' = tm_storage m → tm_pumps m' = tm_pumps m → good m m'.
Proof.
  intros Ho Hnew Hid Hsz Htot Hq Hnp Hpr Hd [Hw Hbt] Et Em Eb Es Ep.
  assert (Hdata : ∀ u, t_id u ≠ t_id t → transfer_ok m u → transfer_ok m' u).
  { intros u Hne []. split; try done; rewrite ?Em, ?Eb, dget_dset, decide_False by congruence; done. }
  split.
  - split; rewrite ?Et, ?Em, ?Eb, ?Es, ?Ep; try (apply dict_wf_dset); try apply Ho.
    + intros id u. rewrite dget_dset. case_decide as Hi.
      * intros [= <-]. split; [done|]. split; try done; rewrite ?Em, ?Eb, dget_dset, decide_True by done; eauto.
      * intros Hu. destruct (mo_all _ Ho _ _ Hu) as [Hui Huo]. split; [done|]. apply Hdata; [congruence|done].
    + intros id Hv. setoid_rewrite dget_dset. rewrite (mo_parts _ Ho id Hv).
      destruct (decide (t_id t = id)) as [<-|]; [|done]. rewrite Hnew. naive_solver.
  - intros id u Hu. exists u. rewrite Et, dget_dset, decide_False by congruence.
    split; [done|apply follows_refl].
  - intros name c. rewrite Es. by left.
Qed.

Lemma offer_good m t r m' :
  manager_ok m → dget (tm_transfers m) (t_id t) = Some t → offer env m t = (r, m') → good m m'.
Proof.
  intros Ho Ht H. unfold offer in H. destruct (key_for env m (t_id t)) as [[[key|]|e] m1] eqn:Ek.
  all: apply core_key_for in Ek as Hc; pose proof (good_core m m1 Hc Ho) as G.
  2-3: by simplify_eq.
  destruct (require_manifest _ _); [|by simplify_eq].
  eapply good_trans; [exact G|]. apply go_ok in G. rewrite <- (ce_transfers _ _ Hc) in Ht.
  destruct (if decide _ then _ else _) as [t1|] eqn:E; simplify_eq; [|by apply good_refl].
  assert (follows t t1 ∧ progress_ok t1 ∧ (in_progress t1 ↔ in_progress t)) as (Hf & Hp & Hi).
  { case_decide as Es; [|simplify_eq; split; [apply follows_refl|split; [exact (progress_of m1 t1 G Ht)|done]]].
    apply transition_Ok in E as [Hal ->]. split; [by apply follows_state|].
    split; [exact (progress_of m1 t G Ht)|]. unfold in_progress. cbn. rewrite Es. set_solver. }
  apply good_send, (good_put m1 t _ G Ht); [|done|exact Hi].
  eapply follows_trans; [exact Hf|]. split; [by split|done].
Qed.

Lemma Transfer_init_Ok t t' :
  Transfer_init t = Ok t' →
  t' = t ∧ is_valid_transfer_id (t_id t) = true ∧ 1 <= t_size t ∧ 1 <= t_chunk_size t ∧ 1 <= t_total t.
Proof.
  unfold Transfer_init. intros (? & H1%guard_or_Ok & (? & H2%guard_or_Ok & (? & H3%guard_or_Ok & [= <-])%bind_Ok)%bind_Ok)%bind_Ok.
  breflect. repeat split; try done; lia.
Qed.

(** [send_file], when the random id is not in use. *)
Lemma send_file_good m name file guess random r m' :
  manager_ok m → dget (tm_transfers m) (generate_transfer_id random) = None →
  send_file limits env m name file guess random = (r, m') → good m m'.
Proof.
  intros Ho Hnew H. unfold send_file in H. cbv zeta in H.
  destruct (of_option file _) as [content|]; [|simplify_eq; unchanged].
  destruct (of_option (e_session_key env) _); [|simplify_eq; unchanged].
  destruct (of_option (sanitize_filename name) _) as [safe|]; [|simplify_eq; unchanged].
  do 3 (destruct (guard_or _ _) in H; [|simplify_eq; unchanged]).
  destruct (Transfer_init _) as [t|] eqn:Et in H; [|simplify_eq; unchanged].
  apply Transfer_init_Ok in Et as (-> & Hid & Hs & Hc & Htot).
  cbn [t_total t_size t_chunk_size t_id mf_total mf_chunk_size] in Hid, Hs, Hc, Htot, H.
  destruct (bitmap_empty_wf _ Htot) as (b & Hb & Hw & Hbt & _).
  rewrite Hb in H. set (t := mkTransfer _ _ _ _ _ _ _ _ _ _ _ _ _ _ _ _ _) in H.
  match type of H with (if _ then offer _ ?x _ else _) = _ => set (m3 := x) in H end.
  assert (G : good m m3).
  { eapply (good_add m m3 t _ b); try done; try reflexivity.
    - unfold in_progress. cbn. naive_solver.
    - unfold progress_ok. cbn. lia.
    - by split. }
  case_match; [|by simplify_eq]. eapply good_trans; [exact G|].
  eapply offer_good; [apply G| |done]. cbn. by rewrite dget_dset, decide_True.
Qed.

Lemma manifest_validate_Ok f limit u :
  manifest_validate f limit = Ok u →
  1 <= mf_size f ∧ 1 <= mf_chunk_size f ∧ mf_total f = chunk_count (mf_size f) (mf_chunk_size f).
Proof.
  unfold manifest_validate. intros H.
  repeat (apply bind_Ok in H as (? & ?%guard_or_Ok & H)). unfold MIN_CHUNK_SIZE in *. breflect. lia.
Qed.

Lemma on_offer_good m id ct r m' : manager_ok m → on_offer limits env m id ct = (r, m') → good m m'.
Proof.
  intros Ho H. unfold on_offer in H. destruct (is_valid_transfer_id id) eqn:Hv; cbn [negb] in H; [|simplify_eq; unchanged].
  destruct (dget (tm_transfers m) id) as [t|] eqn:Ht.
  { eapply on_reoffer_good; [done| |exact H]. by rewrite (own_id _ _ _ Ho Ht). }
  destruct (key_for env m id) as [[[key|]|e] m1] eqn:Ek; apply core_key_for in Ek as Hc;
    pose proof (good_core m m1 Hc Ho) as G; [|by simplify_eq..].
  destruct (offered_manifest limits key id ct) as [f|e] eqn:Ef.
  2: { destruct e; simplify_eq; try done; apply good_send; try done.
       eapply good_then_core; [exact G|by split]. }
  case_match; [simplify_eq; by apply good_send|]. case_match; [simplify_eq; by apply good_send|].
  destruct (Transfer_init _) as [t|] eqn:Et in H; [|by simplify_eq].
  apply Transfer_init_Ok in Et as (-> & Hid & Hs & Hcs & Htot).
  unfold offered_manifest in Ef.
  apply bind_Ok in Ef as (raw & _ & Ef). apply bind_Ok in Ef as (f' & _ & Ef).
  apply bind_Ok in Ef as (u & Hval%manifest_validate_Ok & [= <-]).
  cbn [t_total t_size t_chunk_size t_id] in Hid, Hs, Hcs, Htot, H.
  destruct (bitmap_empty_wf _ Htot) as (b & Hb & Hw & Hbt & _). rewrite Hb in H.
  set (t := mkTransfer _ _ _ _ _ _ _ _ _ _ _ _ _ _ _ _ _) in H. cbv zeta in H.
  match type of H with (_, ?x) = _ => set (m3 := x) in H end.
  eapply good_trans; [exact G|]. assert (m' = m3) as -> by congruence.
  eapply (good_add m1 m3 t f' b); try done; try reflexivity; try apply G.
  - by rewrite (ce_transfers _ _ Hc).
  - apply Hval.
  - unfold in_progress. cbn. set_solver.
  - unfold progress_ok. cbn. lia.
Qed.

(** ** Accepting *)

Lemma good_pumps m m' :
  manager_ok m → tm_storage m' = tm_storage m → tm_transfers m' = tm_transfers m →
  tm_manifests m' = tm_manifests m → tm_bitmaps m' = tm_bitmaps m →
  dict_wf (tm_pumps m') → (∀ id p, dget (tm_pumps m') id = Some p → window_ok p) → good m m'.
Proof.
  intros Ho Es Et Em Eb Hw Hp. split.
  - destruct Ho. split; rewrite ?Es, ?Et, ?Em, ?Eb; try done.
    intros id t Ht. destruct (mo_all0 _ _ Ht). split; [done|]. by eapply transfer_ok_data.
  - intros id t Ht. exists t. rewrite Et. split; [done|apply follows_refl].
  - intros name c Hc. left. by rewrite <- Es.
Qed.

Lemma ensure_pump_good m id : manager_ok m → good m (ensure_pump m id).
Proof.
  intros Ho. unfold ensure_pump. case_match; [unchanged|]. apply good_pumps; try done; cbn.
  - apply dict_wf_dset, Ho.
  - intros id' p. rewrite dget_dset. case_decide; [intros [= <-]; split; [apply dict_wf_nil|done]|apply Ho].
Qed.

Lemma accepted_good m t r m' :
  manager_ok m → dget (tm_transfers m) (t_id t) = Some t → t_direction t = SENDING →
  accepted env m t = (r, m') → good m m'.
Proof.
  intros Ho Ht Hd H. unfold accepted in H. case_decide as Es.
  - destruct (transition_to t ACCEPTED (e_now env)) as [t1|] eqn:E1; [|simplify_eq; unchanged].
    assert (G1 : good m (put_transfer m t1)) by (apply (transition_good m t t1 ACCEPTED Ho Ht E1); congruence).
    destruct (transition_to t1 TRANSFERRING (e_now env)) as [t2|] eqn:E2; [|by simplify_eq].
    simplify_eq. apply transition_Ok in E1 as [H1 ->]. apply transition_Ok in E2 as [H2 ->].
    assert (G2 : good m (put_transfer m (set_state (set_state t ACCEPTED (e_now env)) TRANSFERRING (e_now env)))).
    { apply (good_put m t _ Ho Ht); [|exact (progress_of m t Ho Ht)|split; intros [Hr _]; cbn in Hr; congruence].
      eapply follows_trans; by apply follows_state. }
    eapply good_trans; [exact G2|]. apply ensure_pump_good, G2.
  - case_decide as Ep; [|simplify_eq; unchanged].
    destruct (transition_to _ TRANSFERRING _) as [t1|] eqn:E; simplify_eq; [|unchanged].
    assert (G : good m (put_transfer m t1)) by (apply (good_state m t t1 TRANSFERRING Ho Ht); [eauto|congruence]).
    eapply good_trans; [exact G|]. apply ensure_pump_good, G.
Qed.

Lemma on_accept_good m id o r m' : manager_ok m → on_accept limits env m id o = (r, m') → good m m'.
Proof.
  intros Ho H. unfold on_accept in H.
  destruct (dget (tm_transfers m) id) as [t|] eqn:Ht; [|simplify_eq; unchanged].
  pose proof (own_id _ _ _ Ho Ht) as <-. destruct (bool_decide _) eqn:Ed; cbn [negb] in H; [|simplify_eq; unchanged].
  breflect. destruct o as [s|]; [|by eapply accepted_good]. case_decide; [by eapply accepted_good|].
  destruct (from_b64 s (t_total t)) as [peer|].
  - destruct (bitmap_of m t Ho Ht) as (b & Hb & Hf). rewrite Hb in H.
    pose proof (adopt_for t b peer (t_total t) Hf) as Hf'.
    assert (G := good_progress m t _ _ Ho Ht Hf' (follows_refl _) eq_refl eq_refl (iff_refl _)).
    eapply good_trans; [exact G|]. apply (accepted_good _ (with_progress t (adopt_bitmap b peer (t_total t))) r m' (go_ok _ _ G)); [apply dget_put|done..].
  - destruct (fail_transfer limits env m t) as [[[]|e1] m1] eqn:E; simplify_eq; apply fail_good in E; try done.
    by apply good_send.
Qed.

Lemma open_temp_spec s id u s' :
  open_temp s id = (Ok u, s') → dict_wf (st_temp s) →
  dict_wf (st_temp s') ∧ st_downloads s' = st_downloads s ∧ is_Some (dget (st_temp s') id) ∧
  ∀ id', id' ≠ id → dget (st_temp s') id' = dget (st_temp s) id'.
Proof.
  unfold open_temp. intros H Hw. case_match; [done|]. case_match eqn:Hm; simplify_eq; cbn.
  - repeat split; try done. by apply dget_is_Some, dmem_spec.
  - split; [by apply dict_wf_dset|]. split; [done|]. rewrite dget_dset, decide_True by done. split; [by eexists|].
    intros id' Hne. by rewrite dget_dset, decide_False.
Qed.

Lemma accept_checks_Ok m id f : accept_checks limits m id = Ok f →
  ∃ t, dget (tm_transfers m) id = Some t ∧ t_direction t = RECEIVING ∧ t_state t = OFFERED.
Proof.
  unfold accept_checks, require_transfer. destruct (dget (tm_transfers m) id) as [t|]; [|done]. cbn [of_option mbind result_bind].
  intros (? & Hd%guard_or_Ok & (? & Hs%guard_or_Ok & _)%bind_Ok)%bind_Ok. breflect. by exists t.
Qed.

Lemma accept_good m id r m' : manager_ok m → accept limits env m id = (r, m') → good m m'.
Proof.
  intros Ho H. unfold accept in H. destruct (accept_checks limits m id) as [f|] eqn:Ec; [|simplify_eq; unchanged].
  destruct (accept_checks_Ok m id f Ec) as (t & Ht & Ed & Es). pose proof (own_id _ _ _ Ho Ht) as <-.
  destruct (destination_for _ _) as [d|]; [|simplify_eq; unchanged]. unfold open_part in H.
  destruct (open_temp (tm_storage m) (t_id t)) as [[u|e] s] eqn:Eo.
  2: { assert (s = tm_storage m) as -> by (unfold open_temp in Eo; paths). simplify_eq. apply good_core; [by split|done]. }
  assert (Hal : allowed (t_direction t) (t_state t) ACCEPTED).
  { rewrite Ed, Es. unfold allowed. cbn. set_solver. }
  unfold accept_end, require_transfer in H. cbn [tm_transfers set_destinations set_storage] in H. rewrite Ht in H. cbn [of_option] in H.
  rewrite transition_allowed in H by exact Hal. simplify_eq.
  destruct (open_temp_spec _ _ _ _ Eo (mo_temp _ Ho)) as (Hw & Hdl & Hself & Hoth).
  apply good_send, (good_update m _ t (set_state t ACCEPTED (e_now env)) Ho Ht); try done; cbn.
  - by apply follows_state.
  - exact (progress_of m t Ho Ht).
  - by left.
  - intros id Hne. by rewrite Hoth.
  - split; [|done]. intros _. split; [done|]. cbn. set_solver.
  - by left.
Qed.

(** ** Receiving *)

Lemma storage_write_spec s id n cs data u s' :
  storage_write_chunk s id n cs data = (Ok u, s') → dict_wf (st_temp s) →
  dict_wf (st_temp s') ∧ st_downloads s' = st_downloads s ∧
  ∀ id', is_Some (dget (st_temp s') id') ↔ is_Some (dget (st_temp s) id').
Proof.
  unfold storage_write_chunk. intros H Hw. case_match; [done|]. case_match eqn:Hp; simplify_eq; cbn.
  split; [by apply dict_wf_dset|]. split; [done|]. intros id'. rewrite dget_dset.
  case_decide as E; [|done]. subst. rewrite Hp. split; by eexists.
Qed.

Lemma finalize_spec s id d saved s' :
  finalize s id d = (Ok saved, s') →
  ∃ part, dget (st_temp s) id = Some part ∧ saved = d ∧ st_temp s' = dpop (st_temp s) id ∧
    st_downloads s' = dset (st_downloads s) d part.
Proof. unfold finalize. intros H. case_match; [done|]. case_match; simplify_eq. eauto. Qed.

(** The download completes: the verified part file is published. *)
Lemma complete_good m t saved d s r m' :
  manager_ok m → dget (tm_transfers m) (t_id t) = Some t → t_direction t = RECEIVING →
  t_state t = TRANSFERRING →
  (∀ part, dget (st_temp (tm_storage m)) (t_id t) = Some part →
     Z.of_nat (length part) = t_size t ∧ hash_file part = t_integrity t) →
  finalize (tm_storage m) (t_id t) d = (Ok saved, s) →
  settle_terminal limits env (put_transfer (set_storage m s) (set_saved t saved)) (set_saved t saved) COMPLETED
    = (r, m') → good m m'.
Proof.
  intros Ho Ht Hd Hs Hpart (part & Hp & -> & Etemp & Edl)%finalize_spec H.
  assert (Hal : allowed (t_direction t) (t_state t) COMPLETED).
  { rewrite Hd, Hs. unfold allowed. cbn. set_solver. }
  unfold settle_terminal in H. rewrite transition_allowed in H by exact Hal. cbn in H. rewrite Hd in H. cbn in H.
  destruct (Hpart part Hp) as [Hlen Hhash].
  injection H as <- <-. eapply good_then_core; [|apply core_promote].
  set (t' := set_state (set_saved t d) COMPLETED (e_now env)).
  match goal with |- good _ ?x => set (m2 := x) end.
  assert (Et : tm_transfers m2 = dset (tm_transfers m) (t_id t) t').
  { cbn. generalize (tm_transfers m). intros l. induction l as [|[k v] l IH]; cbn.
    - by rewrite decide_True.
    - case_decide; cbn; [by rewrite decide_True|]. rewrite decide_False by done. by rewrite IH. }
  apply (good_update m m2 t t' Ho Ht); try done; cbn.
  - split; [by split|]. by apply rtc_once.
  - exact (progress_of m t Ho Ht).
  - by left.
  - rewrite Etemp. apply dict_wf_dpop, Ho.
  - intros id Hne. rewrite Etemp. by apply parts_other.
  - rewrite Etemp, dget_dpop, decide_True by (done || apply Ho). split; [by intros [? ?]|].
    intros [_ Hst]. cbn in Hst. set_solver.
  - right. intros name c. cbn. rewrite Edl, dget_dset. case_decide; [|by left]. intros [= <-]. right.
    exists (t_id t), t'. rewrite Et, dget_dset, decide_True by done. done.
Qed.

Lemma finish_receiving_good m t r m' :
  manager_ok m → dget (tm_transfers m) (t_id t) = Some t → t_direction t = RECEIVING →
  t_state t = TRANSFERRING → finish_receiving limits env m t = (r, m') → good m m'.
Proof.
  intros Ho Ht Hd Hs H. unfold finish_receiving, require_manifest, part_digest in H.
  destruct (to_manifest _ _ (proj2 (mo_all _ Ho _ _ Ht))) as (f & Hf & Hde). rewrite Hf in H. cbn [of_option] in H.
  destruct (dget (st_temp (tm_storage m)) (t_id t)) as [part|] eqn:Hp; [|by eapply integrity_good].
  cbn [of_option mbind result_bind] in H. unfold hash_temp in H. destruct (Z.of_nat (length part) =? mf_size f) eqn:El; cbn [guard_or mbind result_bind] in H; [|by eapply integrity_good].
  unfold finish_checked in H. destruct (bool_decide _) eqn:Eh; cbn [negb] in H; [|by eapply integrity_good]. breflect.
  destruct (match dget (tm_destinations m) (t_id t) with Some d => Ok d | None => _ end) as [d|];
    [|simplify_eq; unchanged].
  destruct (finalize (tm_storage m) (t_id t) d) as [[saved|e] s] eqn:Ef.
  2: { destruct (fail_transfer limits env m t) as [[[]|e'] m1] eqn:E; simplify_eq;
         apply fail_good in E; try done. by apply good_send. }
  unfold finish_published in H. destruct (settle_terminal _ _ _ _ _) as [[[]|e] m1] eqn:E;
    (eapply complete_good in E; [|done|done|done|done| |done]);
    try (intros part' Hp'; rewrite Hp in Hp'; injection Hp' as <-; destruct Hde; split; congruence);
    simplify_eq; [|done].
  eapply good_then_core; [exact E|]. by split.
Qed.

(** A chunk was written: the bitmap, the progress and perhaps the state change. *)
Lemma stored_good m t b n s u t' :
  manager_ok m → dget (tm_transfers m) (t_id t) = Some t → bitmap_for t b → in_progress t →
  storage_write_chunk (tm_storage m) (t_id t) n (t_chunk_size t) u = (Ok tt, s) →
  follows (with_progress t b) t' → t_chunks_done t' = t_chunks_done (with_progress t b) →
  t_bytes_done t' = t_bytes_done (with_progress t b) → in_progress t' →
  good m (put_transfer (set_bitmaps (set_storage m s) (dset (tm_bitmaps m) (t_id t) b)) t').
Proof.
  intros Ho Ht Hb Hin Hw Hf Hc Hby Hin'. pose proof (ss_id _ _ (proj1 Hf)) as Hid. cbn in Hid.
  destruct (mo_all _ Ho _ _ Ht) as [_ Hto].
  destruct (storage_write_spec _ _ _ _ _ _ _ Hw (mo_temp _ Ho)) as (Hwf & Hdl & Hsame).
  apply (good_update m _ t t' Ho Ht); try done; cbn.
  - eapply follows_trans; [apply follows_progress|exact Hf].
  - destruct (progress_with t b Hb) as [H1 H2]; try apply Hto. destruct Hf as [Hss _].
    unfold progress_ok. rewrite Hc, Hby, (ss_total _ _ Hss), (ss_size _ _ Hss). done.
  - by rewrite Hid.
  - right. by exists b.
  - rewrite Hsame, (mo_parts _ Ho) by apply Hto. split; [done|]. intros _. by exists t.
  - by left.
Qed.

Lemma store_chunk_good m t b n data r m' :
  manager_ok m → dget (tm_transfers m) (t_id t) = Some t → t_direction t = RECEIVING →
  t_state t = ACCEPTED ∨ t_state t = TRANSFERRING → bitmap_for t b →
  store_chunk limits env m t b n data = (r, m') → good m m'.
Proof.
  intros Ho Ht Hd Hs Hb H. unfold store_chunk in H. cbv zeta in H.
  destruct (storage_write_chunk _ _ _ _ _) as [[[]|e] s] eqn:Ew.
  2: { destruct (fail_transfer limits env m t) as [[[]|e1] m1] eqn:E; destruct e; simplify_eq; try unchanged;
         apply fail_good in E; try done. by apply good_send. }
  destruct (mark b n) as [r1 b1] eqn:Em. cbn [snd] in H. pose proof (mark_for t b n r1 b1 Hb Em) as Hb1.
  set (t1 := touch (with_progress t b1) (e_now env)) in H.
  assert (Hin : in_progress t) by (split; [done|]; destruct Hs as [-> | ->]; set_solver).
  assert (Hf1 : follows (with_progress t b1) t1) by (split; [by split|done]).
  destruct (if decide (t_state t1 = ACCEPTED) then _ else _) as [t2|] eqn:E2.
  2: { simplify_eq. by eapply stored_good. }
  assert (follows (with_progress t b1) t2 ∧ t_chunks_done t2 = bm_count b1 ∧
    t_bytes_done t2 = t_bytes_done t1 ∧ t_state t2 = TRANSFERRING) as (Hf2 & Hc2 & Hb2 & Hs2).
  { case_decide as Es.
    - apply transition_Ok in E2 as [Hal ->]. split; [|done].
      eapply follows_trans; [exact Hf1|by apply follows_state].
    - injection E2 as <-. split; [done|]. split; [done|]. split; [done|]. cbn in *. naive_solver. }
  assert (Hd2 : t_direction t2 = RECEIVING) by (by rewrite (ss_direction _ _ (proj1 Hf2))).
  assert (Hin2 : in_progress t2) by (split; [done|]; rewrite Hs2; set_solver).
  assert (G := stored_good m t b1 n s data t2 Ho Ht Hb1 Hin Ew Hf2 Hc2 Hb2 Hin2).
  case_match; [|simplify_eq; by apply good_send].
  apply (good_send _ _ (FileAck (t_id t) n)) in G. eapply good_trans; [exact G|].
  eapply finish_receiving_good; [apply G|apply dget_put|done..].
Qed.

Lemma on_chunk_good m id n sealed r m' :
  manager_ok m → on_chunk limits env m id n sealed = (r, m') → good m m'.
Proof.
  intros Ho H. unfold on_chunk in H. cbv zeta in H.
  destruct (dget (tm_transfers m) id) as [t|] eqn:Ht; [|simplify_eq; unchanged].
  pose proof (own_id _ _ _ Ho Ht) as <-. destruct (bool_decide (t_direction t = _)) eqn:Ed; cbn [negb] in H; [|simplify_eq; unchanged].
  case_decide as Hof; [simplify_eq; unchanged|].
  destruct (is_terminal t || bool_decide (t_state t = PAUSED)) eqn:Etp; [simplify_eq; unchanged|].
  unfold is_terminal in Etp. breflect.
  destruct (negb _) eqn:En in H.
  { destruct (fail_transfer limits env m t) as [[[]|e] m1] eqn:E; simplify_eq; apply fail_good in E; try done. by apply good_send. }
  destruct (negb _) eqn:El in H; [by eapply integrity_good|].
  destruct (bitmap_of m t Ho Ht) as (b & Hb & Hf). rewrite Hb in H.
  case_match; [simplify_eq; unchanged|].
  destruct (key_for env m (t_id t)) as [[[key|]|e] m1] eqn:Ek; apply core_key_for in Ek as Hc;
    pose proof (good_core m m1 Hc Ho) as G; [|by simplify_eq..].
  eapply good_trans; [exact G|]. apply go_ok in G. rewrite <- (ce_transfers _ _ Hc) in Ht.
  destruct (open_chunk _ _ _ _) as [plain|]; [|by eapply integrity_good].
  case_match; [by eapply integrity_good|].
  eapply store_chunk_good; [done..| |done|done].
  assert (Hq : t_state t ≠ QUEUED).
  { intros Eq. pose proof (to_queued _ _ (proj2 (mo_all _ G _ _ Ht)) Eq). congruence. }
  unfold TERMINAL_STATES in *. destruct (t_state t); try done; try (by left); try (by right); set_solver.
Qed.

Lemma on_complete_good m id digest r m' :
  manager_ok m → on_complete limits env m id digest = (r, m') → good m m'.
Proof.
  intros Ho H. unfold on_complete in H. cbv zeta in H.
  destruct (dget (tm_transfers m) id) as [t|] eqn:Ht; [|simplify_eq; unchanged].
  pose proof (own_id _ _ _ Ho Ht) as <-. destruct (bool_decide (t_direction t = _)) eqn:Ed; cbn [negb] in H; [|simplify_eq; unchanged].
  destruct (bool_decide _) eqn:Es in H; cbn [negb] in H; [|simplify_eq; unchanged].
  destruct (bool_decide _) eqn:Eh in H; cbn [negb] in H; [|by eapply fail_good]. breflect.
  set (t1 := set_progress t (t_total t) (t_size t)) in H.
  assert (G : good m (put_transfer m t1)).
  { apply (good_put m t t1 Ho Ht); [apply follows_progress| |done].
    destruct (mo_all _ Ho _ _ Ht) as [_ Hto]. destruct (to_progress _ _ Hto), (to_size _ _ Hto).
    unfold progress_ok. cbn. lia. }
  destruct (settle_terminal _ _ _ _ _) as [[[]|e] m1] eqn:E;
    (eapply settle_good in E; [|apply G|apply dget_put|unfold TERMINAL_STATES; set_solver|by left]);
    simplify_eq; (eapply good_trans; [exact G|]); [|done].
  eapply good_then_core; [exact E|]. by split.
Qed.

Lemma handle_frame_good m f r m' : manager_ok m → handle_frame limits env m f = (r, m') → good m m'.
Proof.
  intros Ho H. unfold handle_frame in H. case_match; [simplify_eq; unchanged|]. destruct f.
  - by eapply on_offer_good.
  - by eapply on_accept_good.
  - by eapply on_reject_good.
  - by eapply on_chunk_good.
  - by eapply on_ack_good.
  - by eapply on_pause_good.
  - by eapply on_resume_good.
  - eapply on_end_good; [done| |exact H]. by left.
  - by eapply on_complete_good.
  - eapply on_end_good; [done| |exact H]. by right.
Qed.
End handlers.
