(* ===== verification/TransferPump.v ===== *)
(** * The pump and the rest of the manager's steps

    The chunks a turn of the sender's pump puts on the wire, the session
    events, the housekeeping and the shutdown, each related to the invariant
    of the manager. *)

From S2P Require Import Prelude Text Utf8 Primitives Json Chunking TransferStorage Transfer TransferInvariant.

Open Scope Z_scope.

Section pump.
Context {P : Primitives} {U : UnicodeData} {C : Coercions}.
Variable limits : TransferLimits.
Variable env : Env.

(** ** The chunks of one turn *)

Inductive sends (id : unicode) (key : bytes) : list Z → Manager → Pump → Manager → Pump → Prop :=
| sends_nil m p : sends id key [] m p m p
| sends_cons n ns m p r now data m' p' :
    sends id key ns (pump_chunk env m id key p r n now data).1
      (pump_chunk env m id key p r n now data).2 m' p' →
    sends id key (n :: ns) m p m' p'.

Definition attempts (p : Pump) (n : Z) : Z := default 0 (dget (pu_attempts p) n).

Definition is_chunk (id : unicode) (n : Z) (f : FileFrame) : bool :=
  match f with FileChunk i k _ => bool_decide (i = id) && (k =? n) | _ => false end.
Definition chunks_sent (m : Manager) (id : unicode) (n : Z) : Z := count_if (is_chunk id n) (tm_sent m).

Record sends_facts (id : unicode) (ns : list Z) (m : Manager) (p : Pump) (m' : Manager) (p' : Pump) : Prop := {
  sf_core : core_eq m m';
  sf_keys : ∀ n, n ∈ keys (pu_in_flight p') ↔ n ∈ keys (pu_in_flight p) ∨ n ∈ ns;
  sf_wf : dict_wf (pu_in_flight p) → dict_wf (pu_in_flight p');
  sf_length : (length (pu_in_flight p') <= length (pu_in_flight p) + length ns)%nat;
  sf_known : ∀ n, is_Some (dget (pu_attempts p') n) ↔ is_Some (dget (pu_attempts p) n) ∨ n ∈ ns;
  sf_attempts : ∀ n, attempts p' n = attempts p n + count_if (λ k, k =? n) ns;
  sf_sent : ∀ n, chunks_sent m' id n = chunks_sent m id n + count_if (λ k, k =? n) ns;
  sf_probes : pu_probes p' = pu_probes p;
}.

Lemma count_if_cons {A} (q : A → bool) x l : count_if q (x :: l) = (if q x then 1 else 0) + count_if q l.
Proof. done. Qed.

Lemma sends_spec id key ns m p m' p' : sends id key ns m p m' p' → sends_facts id ns m p m' p'.
Proof.
  induction 1 as [m p|n ns m p r now data m' p' _ IH].
  { split; try done; [set_solver|lia|set_solver|intros; cbn; lia..]. }
  destruct IH as [Hc Hk Hw Hl Hkn Ha Hs Hp]. split.
  - eapply core_eq_trans; [|exact Hc]. by split.
  - intros k. rewrite Hk. cbn. rewrite keys_dset. case_decide; set_solver.
  - intros Hd. apply Hw. cbn. by apply dict_wf_dset.
  - etrans; [exact Hl|]. cbn. rewrite length_dset. case_decide; lia.
  - intros k. rewrite Hkn. cbn. rewrite dget_dset. case_decide as E; [|set_solver].
    subst. split; [intros _; right; set_solver|]. intros _. left. by eexists.
  - intros k. rewrite Ha, count_if_cons. unfold attempts. cbn [pump_chunk snd pu_attempts]. rewrite dget_dset.
    case_decide as E; destruct (Z.eqb_spec n k); try done; subst; unfold default, from_option, Datatypes.id; lia.
  - intros k. rewrite Hs, count_if_cons. unfold chunks_sent. cbn [pump_chunk fst send set_sent tm_sent].
    rewrite count_if_app, count_if_cons. cbn [is_chunk]. rewrite bool_decide_true by done.
    cbn. destruct (n =? k); lia.
  - by rewrite Hp.
Qed.

Lemma count_one (l : list Z) n : NoDup l → count_if (λ k, k =? n) l = if decide (n ∈ l) then 1 else 0.
Proof.
  induction 1 as [|k l Hk _ IH]; [done|]. rewrite count_if_cons, IH.
  destruct (Z.eqb_spec k n) as [->|]; repeat case_decide; try done; set_solver.
Qed.

(** Either the loop went to its end, having sent some chunks, or the pump
    ended with the transfer failed. *)
Definition stops {A} (m : Manager) (x : result TransferError (option A)) (m' : Manager) : Prop :=
  (∀ y, x ≠ Ok (Some y)) ∧ good m m'.

Lemma failed_stops {A} m t r m' :
  manager_ok m → dget (tm_transfers m) (t_id t) = Some t → fail_transfer limits env m t = (r, m') →
  stops m (match r with Ok _ => Ok (@None A) | Err e => Err e end) m'.
Proof. intros Ho Ht H. split; [by destruct r|]. by eapply fail_good. Qed.

Lemma stops_core {A} m m1 m' (x : result TransferError (option A)) :
  manager_ok m → core_eq m m1 → stops m1 x m' → stops m x m'.
Proof. intros Ho Hc [Hx Hg]. split; [done|]. eapply good_trans; [by apply good_core|done]. Qed.

Lemma pump_fill_spec m t key p r now free ns x m' :
  manager_ok m → dget (tm_transfers m) (t_id t) = Some t →
  pump_fill limits env m t key p r now free ns = (x, m') →
  (∃ p' r' sent, x = Ok (Some (p', r')) ∧ sends (t_id t) key sent m p m' p' ∧ sublist sent ns ∧
     (∀ n, n ∈ sent → n ∉ keys (pu_in_flight p)) ∧ Z.of_nat (length sent) <= Z.max 0 free) ∨ stops m x m'.
Proof.
  revert m p r free. induction ns as [|n ns IH]; intros m p r free Ho Ht H; cbn in H.
  { simplify_eq. left. exists p, r, []. split_and!; [done|constructor|done|set_solver|cbn; lia]. }
  destruct (free <=? 0) eqn:Efree.
  { simplify_eq. left. exists p, r, []. split_and!; [done|constructor|apply sublist_nil_l|set_solver|cbn; lia]. }
  breflect. destruct (dmem (pu_in_flight p) n) eqn:Em.
  { apply IH in H as [(p' & r' & sent & -> & Hs & Hsub & Hn & Hl)|]; [|by right|done..].
    left. exists p', r', sent. split_and!; try done. by apply sublist_cons. }
  destruct (read r n) as [[data|e] r1] eqn:Er.
  2: { right. destruct (fail_transfer limits env m t) as [[[]|e1] m1] eqn:E; simplify_eq;
       destruct (failed_stops (A := Pump * ChunkReader) m t _ _ Ho Ht E); split; try done. by apply good_send. }
  assert (Hc : core_eq m (pump_chunk env m (t_id t) key p r1 n now data).1) by (by split).
  assert (Ho1 := go_ok _ _ (good_core _ _ Hc Ho)). rewrite <- (ce_transfers _ _ Hc) in Ht.
  apply IH in H as [(p' & r' & sent & -> & Hs & Hsub & Hn & Hl)|Hst]; [|right; exact (stops_core m _ m' x Ho Hc Hst)|done..].
  left. exists p', r', (n :: sent). split; [done|]. split; [exact (sends_cons _ _ _ _ _ _ r1 now data _ _ Hs)|].
  split; [by apply sublist_skip|]. split; [|cbn [length]; lia]. intros k [->|Hk]%elem_of_cons.
  - by apply dget_None, dmem_false.
  - apply Hn in Hk. cbn in Hk. rewrite keys_dset in Hk. case_decide; set_solver.
Qed.

Lemma pump_retry_spec m t key p r now items x m' :
  manager_ok m → dget (tm_transfers m) (t_id t) = Some t → NoDup (keys items) →
  pump_retry limits env m t key p r now items = (x, m') →
  (∃ p' r' sent, x = Ok (Some (p', r')) ∧ sends (t_id t) key sent m p m' p' ∧ sublist sent (keys items) ∧
     (∀ n, n ∈ sent → attempts p n < l_retry_limit limits)) ∨ stops m x m'.
Proof.
  revert m p r. induction items as [|[n sent_at] items IH]; intros m p r Ho Ht Hnd H; cbn in H.
  { simplify_eq. left. exists p, r, []. split_and!; [done|constructor|done|set_solver]. }
  change (keys ((n, sent_at) :: items)) with (n :: keys items) in *. apply NoDup_cons in Hnd as [Hn Hnd].
  case_match.
  { apply IH in H as [(p' & r' & sent & -> & Hs & Hsub & Ha)|]; [|by right|done..].
    left. exists p', r', sent. split_and!; try done. by apply sublist_cons. }
  destruct (l_retry_limit limits <=? _) eqn:El.
  { right. destruct (fail_transfer limits env m t) as [[[]|e1] m1] eqn:E; simplify_eq;
      destruct (failed_stops (A := Pump * ChunkReader) m t _ _ Ho Ht E); split; try done. by apply good_send. }
  destruct (read r n) as [[data|e] r1] eqn:Er.
  2: { right. destruct (fail_transfer limits env m t) as [[[]|e1] m1] eqn:E; simplify_eq;
       by destruct (failed_stops (A := Pump * ChunkReader) m t _ _ Ho Ht E). }
  assert (Hc : core_eq m (pump_chunk env m (t_id t) key p r1 n now data).1) by (by split).
  assert (Ho1 := go_ok _ _ (good_core _ _ Hc Ho)). rewrite <- (ce_transfers _ _ Hc) in Ht.
  apply IH in H as [(p' & r' & sent & -> & Hs & Hsub & Ha)|Hst]; [|right; exact (stops_core m _ m' x Ho Hc Hst)|done..].
  left. exists p', r', (n :: sent). split; [done|]. split; [exact (sends_cons _ _ _ _ _ _ r1 now data _ _ Hs)|].
  split; [by apply sublist_skip|]. breflect. intros k [->|Hk]%elem_of_cons; [done|].
  specialize (Ha k Hk). unfold attempts in *. cbn in Ha. rewrite dget_dset, decide_False in Ha; [done|].
  intros ->. by apply Hn, (sublist_subseteq _ _ Hsub).
Qed.

(** ** The limits of a pump *)

(** At most a window of chunks is unacknowledged, and no chunk and no probe
    is sent more often than the retry limit allows. *)
Record pump_ok (b : ChunkBitmap) (p : Pump) : Prop := {
  po_window : window_ok p;
  po_attempts : ∀ n, is_Some (dget (pu_attempts p) n) →
    1 <= attempts p n <= Z.max 1 (l_retry_limit limits) ∧ (n ∈ keys (pu_in_flight p) ∨ has b n = true);
  po_probes : 0 <= pu_probes p <= Z.max 0 (l_retry_limit limits);
}.

Lemma keys_filter (b : ChunkBitmap) (l : list (Z * Z)) n :
  n ∈ keys (filter (λ x, has b x.1 = false) l) ↔ n ∈ keys l ∧ has b n = false.
Proof.
  unfold keys. rewrite !list_elem_of_fmap. setoid_rewrite list_elem_of_filter.
  split; [naive_solver|]. intros [(x & -> & Hx) Hb]. by exists x.
Qed.

Lemma attempts_none p n : dget (pu_attempts p) n = None → attempts p n = 0.
Proof. unfold attempts. by intros ->. Qed.

(** What a turn that continues did: [m] and [p] become [m'] and [p']. *)
Record turn_facts (id : unicode) (b : ChunkBitmap) (m : Manager) (p : Pump) (m' : Manager) (p' : Pump) : Prop := {
  tf_core : core_eq m m';
  tf_window : window_ok p → window_ok p';
  tf_ok : pump_ok b p → pump_ok b p';
  tf_sent : ∀ n, chunks_sent m' id n - chunks_sent m id n = attempts p' n - attempts p n;
}.

Lemma turn_trans id b m1 p1 m2 p2 m3 p3 :
  turn_facts id b m1 p1 m2 p2 → turn_facts id b m2 p2 m3 p3 → turn_facts id b m1 p1 m3 p3.
Proof.
  intros [] []. split; try tauto; [by eapply core_eq_trans|]. intros n.
  specialize (tf_sent0 n). specialize (tf_sent1 n). lia.
Qed.

Lemma missing_sub b sent n : sublist sent (missing b) → n ∈ sent → has b n = false.
Proof.
  intros Hs Hn%(sublist_subseteq _ _ Hs). unfold missing in Hn. apply list_elem_of_filter in Hn as [Hn _]. exact Hn.
Qed.

Lemma NoDup_missing b : NoDup (missing b).
Proof. apply NoDup_filter, NoDup_seqZ. Qed.

Lemma fill_turn id key b sent m p m' p' :
  sends id key sent m p m' p' → sublist sent (missing b) →
  (∀ n, n ∈ sent → n ∉ keys (pu_in_flight p)) →
  Z.of_nat (length sent) <= Z.max 0 (TRANSFER_WINDOW_CHUNKS - Z.of_nat (length (pu_in_flight p))) →
  turn_facts id b m p m' p'.
Proof.
  intros [Hc Hk Hw Hl Hkn Ha Hs Hp]%sends_spec Hsub Hnew Hlen.
  assert (Hnd : NoDup sent) by (eapply sublist_NoDup; [apply (NoDup_missing b)|done]).
  assert (HW : window_ok p → window_ok p') by (intros [? ?]; split; [by apply Hw|lia]).
  split; try done; [|intros n; rewrite Hs, Ha; lia].
  intros [H1 H2 H3]. split; [by apply HW| |by rewrite Hp].
  intros n Hn. rewrite Ha, count_one by done. rewrite Hk. case_decide as Hin.
  - destruct (dget (pu_attempts p) n) as [k|] eqn:E; [|rewrite attempts_none by done; split; [lia|by left; right]].
    destruct (H2 n) as [_ [Hf|Hf]]; [by rewrite E; eexists|by apply Hnew in Hin|].
    by rewrite (missing_sub _ _ _ Hsub Hin) in Hf.
  - apply Hkn in Hn as [Hn|]; [|done]. destruct (H2 n Hn) as [? [|]]; (split; [lia|tauto]).
Qed.

Lemma acked_turn id b m p r :
  turn_facts id b m p m
    (mkPump r (filter (λ x, has b x.1 = false) (pu_in_flight p)) (pu_attempts p) (pu_probes p) (pu_all_acked p)).
Proof.
  assert (HW : window_ok p → window_ok (mkPump r (filter (λ x, has b x.1 = false) (pu_in_flight p))
    (pu_attempts p) (pu_probes p) (pu_all_acked p))).
  { intros [? ?]. split; cbn; [by apply dict_wf_filter|].
    pose proof (length_filter (λ x, has b x.1 = false) (pu_in_flight p)). lia. }
  split; [apply core_eq_refl|done| |].
  - intros [H1 H2 H3]. split; [by apply HW| |done]. intros n Hn. cbn in *. destruct (H2 n Hn) as [? Hor].
    split; [done|]. rewrite keys_filter. destruct (has b n) eqn:Eb; [by right|]. destruct Hor; [by left|done].
  - intros n. unfold attempts. cbn. lia.
Qed.

Lemma retry_turn id key b sent m p m' p' :
  sends id key sent m p m' p' → NoDup sent → (∀ n, n ∈ sent → n ∈ keys (pu_in_flight p)) →
  (∀ n, n ∈ sent → attempts p n < l_retry_limit limits) → turn_facts id b m p m' p'.
Proof.
  intros [Hc Hk Hw Hl Hkn Ha Hs Hp]%sends_spec Hnd Hin Hlim.
  assert (HW : window_ok p → window_ok p').
  { intros [Hd Hwin]. specialize (Hw Hd). split; [done|]. etrans; [|exact Hwin].
    apply Nat2Z.inj_le. pose proof (submseteq_length (keys (pu_in_flight p')) (keys (pu_in_flight p))) as Hsl.
    unfold keys in Hsl at 1 3. rewrite !length_fmap in Hsl. unfold keys in Hsl at 2. rewrite ?length_fmap in Hsl.
    apply Hsl. apply NoDup_submseteq; [done|]. intros n [?|?]%Hk; [done|by apply Hin]. }
  split; try done; [|intros n; rewrite Hs, Ha; lia].
  intros [H1 H2 H3]. split; [by apply HW| |by rewrite Hp].
  intros n Hn. rewrite Ha, count_one, Hk by done. case_decide as Hs'.
  - specialize (Hlim n Hs'). split; [|by left; right].
    destruct (dget (pu_attempts p) n) as [k|] eqn:E; [|rewrite attempts_none in * by done; lia].
    destruct (H2 n) as [? _]; [by rewrite E; eexists|lia].
  - apply Hkn in Hn as [Hn|]; [|done]. destruct (H2 n Hn) as [? [|]]; (split; [lia|tauto]).
Qed.

Lemma reader_turn id b m p r :
  turn_facts id b m p m (mkPump r (pu_in_flight p) (pu_attempts p) (pu_probes p) (pu_all_acked p)).
Proof.
  split; [apply core_eq_refl|done|intros [? ? ?]; by split|]. intros n. unfold attempts. cbn. lia.
Qed.

Lemma probe_turn m t b p now x m' :
  manager_ok m → dget (tm_transfers m) (t_id t) = Some t →
  pump_probe limits env m t p now = (x, m') →
  (∃ p', x = Ok (Some p') ∧ turn_facts (t_id t) b m p m' p') ∨ stops m x m'.
Proof.
  intros Ho Ht H. unfold pump_probe in H. cbv zeta in H. destruct (_ <? _) in H.
  { simplify_eq. left. eexists. split; [done|]. split; [apply core_eq_refl|done|intros [? ? ?]; by split|].
    intros n. unfold attempts. cbn. lia. }
  destruct (_ <=? _) eqn:El in H; breflect.
  { right. destruct (fail_transfer limits env m t) as [[[]|e] m1] eqn:E; simplify_eq;
      exact (failed_stops (A := Pump) m t _ _ Ho Ht E). }
  simplify_eq. left. eexists. split; [done|]. split; [apply core_send|done| |].
  - intros [? ? ?]. split; try done. cbn. lia.
  - intros n. unfold attempts, chunks_sent. cbn [send set_sent tm_sent pu_attempts].
    rewrite count_if_app. cbn. lia.
Qed.

Lemma body_turn later m t b key p r x m' :
  manager_ok m → dget (tm_transfers m) (t_id t) = Some t → window_ok p →
  pump_body limits env later m t b key p r = (x, m') →
  (∃ p', x = Ok (Some p') ∧ turn_facts (t_id t) b m p m' p') ∨ stops m x m'.
Proof.
  intros Ho Ht Hwin H. unfold pump_body in H. cbv zeta in H.
  destruct (pump_fill _ _ _ _ _ _ _ _ _ _) as [f m1] eqn:Ef.
  apply pump_fill_spec in Ef as [(p1 & r1 & sent & -> & Hs & Hsub & Hnew & Hlen)|[Hn Hg]]; [| |done..].
  2: { right. destruct f as [[y|]|]; simplify_eq; [by specialize (Hn y)|by split..]. }
  assert (T1 := fill_turn _ _ b _ _ _ _ _ Hs Hsub Hnew Hlen).
  assert (T2 := acked_turn (t_id t) b m1 p1 (pu_reader p1)).
  assert (Hc1 := tf_core _ _ _ _ _ _ T1). assert (Ho1 := go_ok _ _ (good_core _ _ Hc1 Ho)).
  set (p2 := mkPump (pu_reader p1) _ _ _ _) in *.
  assert (Hw2 : window_ok p2) by (apply (tf_window _ _ _ _ _ _ T2), (tf_window _ _ _ _ _ _ T1), Hwin).
  destruct (pump_retry _ _ _ _ _ _ _ _ _) as [g m2] eqn:Eg.
  apply pump_retry_spec in Eg as [(p3 & r3 & again & -> & Hs3 & Hsub3 & Hlim)|[Hn Hg]];
    [| |done|by rewrite (ce_transfers _ _ Hc1)|apply Hw2].
  2: { right. apply (stops_core m m1); [done|done|]. destruct g as [[y|]|]; simplify_eq; [by specialize (Hn y)|by split..]. }
  assert (T3 : turn_facts (t_id t) b m1 p2 m2 p3).
  { apply (retry_turn _ key b again); try done; [eapply sublist_NoDup; [apply Hw2|exact Hsub3]|].
    intros n. by apply sublist_subseteq. }
  assert (T4 := reader_turn (t_id t) b m2 p3 (Some r3)).
  assert (T := turn_trans _ _ _ _ _ _ _ _ (turn_trans _ _ _ _ _ _ _ _ T1 T2) (turn_trans _ _ _ _ _ _ _ _ T3 T4)).
  destruct (is_complete b); [|simplify_eq; left; by eexists].
  assert (Hc := tf_core _ _ _ _ _ _ T). apply (probe_turn m2 t b) in H as [(p' & -> & Tp)|Hst].
  - left. exists p'. split; [done|]. by eapply turn_trans.
  - right. by apply (stops_core m m2).
  - exact (go_ok _ _ (good_core _ _ Hc Ho)).
  - by rewrite (ce_transfers _ _ Hc).
Qed.

Lemma pump_turn_spec later m id p b x m' :
  manager_ok m → dget (tm_bitmaps m) id = Some b → window_ok p →
  pump_turn limits env later m id p = (x, m') →
  (∃ p', x = Ok (Some p') ∧ turn_facts id b m p m' p') ∨ stops m x m'.
Proof.
  intros Ho Hb Hwin H. unfold pump_turn in H.
  assert (Hstop : ∀ y : result TransferError (option Pump), (∀ z, y ≠ Ok (Some z)) → stops m y m)
    by (intros y Hy; split; [done|by apply good_refl]).
  case_match; [simplify_eq; right; by apply Hstop|].
  destruct (dget (tm_transfers m) id) as [t|] eqn:Ht; [|simplify_eq; right; by apply Hstop].
  pose proof (own_id _ _ _ Ho Ht) as <-.
  case_match; [simplify_eq; right; by apply Hstop|]. rewrite Hb in H.
  assert (Hself : ∀ m1, core_eq m m1 → tm_sent m1 = tm_sent m → turn_facts (t_id t) b m p m1 p).
  { intros m1 Hc Es. split; [done..|]. intros n. unfold chunks_sent. rewrite Es. lia. }
  case_match; [simplify_eq; left; eexists; split; [done|]; by apply Hself|].
  destruct (key_for env m (t_id t)) as [[[key|]|e] m1] eqn:Ek; apply core_key_for in Ek as Hc;
    assert (Es : tm_sent m1 = tm_sent m) by (unfold key_for in Ek; paths).
  2: { simplify_eq. left. eexists. split; [done|]. by apply Hself. }
  2: { simplify_eq. right. split; [done|]. by apply good_core. }
  assert (Ho1 := go_ok _ _ (good_core _ _ Hc Ho)).
  assert (Hgo : ∀ p1 r, turn_facts (t_id t) b m p m1 p1 → pump_body limits env later m1 t b key p1 r = (x, m') →
    (∃ p', x = Ok (Some p') ∧ turn_facts (t_id t) b m p m' p') ∨ stops m x m').
  { intros p1 r T Hbd. apply body_turn in Hbd as [(p' & -> & T')|Hst]; try done.
    - left. exists p'. split; [done|]. by eapply turn_trans.
    - right. by eapply stops_core.
    - by rewrite (ce_transfers _ _ Hc).
    - by apply (tf_window _ _ _ _ _ _ T). }
  destruct (pu_reader p) as [r|]; [by eapply Hgo, H; apply Hself|].
  destruct (t_source t) as [file|].
  - eapply Hgo, H. eapply turn_trans; [by apply Hself|]. apply reader_turn.
  - simplify_eq. right. split; [done|]. by apply good_core.
Qed.

Lemma good_set_pumps m m1 l :
  good m m1 → dict_wf l → (∀ id p, dget l id = Some p → window_ok p) → good m (set_pumps m1 l).
Proof. intros G Hw Hp. eapply good_trans; [exact G|]. by apply good_pumps; try apply G. Qed.

Lemma good_pop_pump m m1 id : good m m1 → good m (set_pumps m1 (dpop (tm_pumps m1) id)).
Proof.
  intros G. pose proof (mo_pumps _ (go_ok _ _ G)) as Hw. apply good_set_pumps; [done|by apply dict_wf_dpop|].
  intros id' p. rewrite dget_dpop by done. case_decide; [done|]. apply G.
Qed.

Lemma good_put_pump m m1 id p :
  good m m1 → window_ok p → good m (set_pumps m1 (dset (tm_pumps m1) id p)).
Proof.
  intros G Hp. pose proof (mo_pumps _ (go_ok _ _ G)) as Hw. apply good_set_pumps; [done|by apply dict_wf_dset|].
  intros id' p'. rewrite dget_dset. case_decide; [by intros [= <-]|]. apply G.
Qed.

Lemma send_pump_good later m id r m' :
  manager_ok m → send_pump limits env later m id = (r, m') → good m m'.
Proof.
  intros Ho H. unfold send_pump in H.
  destruct (dget (tm_pumps m) id) as [p|] eqn:Hp; [|simplify_eq; by apply good_refl].
  pose proof (mo_window _ Ho _ _ Hp) as Hwin.
  destruct (pump_turn _ _ _ _ _ _) as [x m1] eqn:Et.
  assert (Hx : good m m1 ∧ ∀ p', x = Ok (Some p') → window_ok p').
  { destruct (dget (tm_bitmaps m) id) as [b|] eqn:Hb.
    - apply (pump_turn_spec _ _ _ _ b) in Et as [(p' & -> & T)|[Hn Hg]]; try done.
      + split; [apply good_core; [apply T|done]|]. intros q [= <-]. by apply T.
      + split; [done|]. intros p' ->. by destruct (Hn p').
    - unfold pump_turn in Et. rewrite Hb in Et. paths; (split; [by apply good_refl|done]). }
  destruct Hx as [G Hpw]. destruct x as [[p'|]|e]; simplify_eq.
  - apply good_put_pump; [done|by apply Hpw].
  - by apply good_pop_pump.
  - destruct (dget (tm_transfers m1) id) as [t|] eqn:Ht; [|simplify_eq; by apply good_pop_pump].
    case_match; [simplify_eq; by apply good_pop_pump|].
    destruct (fail_transfer limits env m1 t) as [r2 m2] eqn:Ef. simplify_eq. apply good_pop_pump.
    eapply good_trans; [exact G|]. eapply fail_good; [apply G| |done].
    by rewrite (own_id _ _ _ (go_ok _ _ G) Ht).
Qed.

(** ** Session events *)

Definition keeps (body : Manager → Transfer → outcome Manager TransferError unit) : Prop :=
  ∀ m t r m', manager_ok m → dget (tm_transfers m) (t_id t) = Some t → body m t = (r, m') → good m m'.

Lemma for_transfers_good body ids m r m' :
  keeps body → manager_ok m → for_transfers body ids m = (r, m') → good m m'.
Proof.
  intros Hk. revert m. induction ids as [|id ids IH]; intros m Ho H; cbn in H; [simplify_eq; by apply good_refl|].
  destruct (dget (tm_transfers m) id) as [t|] eqn:Ht; [|by apply IH].
  destruct (body m t) as [[[]|e] m1] eqn:Eb; (apply Hk in Eb; [|done|by rewrite (own_id _ _ _ Ho Ht)]).
  - eapply good_trans; [exact Eb|]. by apply IH; [apply Eb|].
  - by simplify_eq.
Qed.

Lemma auto_pause_keeps : keeps (auto_pause_one env).
Proof.
  intros m t r m' Ho Ht H. unfold auto_pause_one in H. case_decide as Es; [|simplify_eq; by apply good_refl].
  destruct (transition_to _ _ _) as [t1|] eqn:E; simplify_eq; [|by apply good_refl].
  apply (good_state env m t t1 PAUSED Ho Ht); [eauto|]. intros _. rewrite Es. set_solver.
Qed.

Lemma recover_keeps : keeps (recover_one env).
Proof.
  intros m t r m' Ho Ht H. unfold recover_one in H. case_match eqn:Ed; [simplify_eq; by apply good_refl|].
  case_decide.
  { destruct (offer env m t) as [[[]|e] m1] eqn:Eo; apply offer_good in Eo; try done; [by simplify_eq|].
    case_match; by simplify_eq. }
  case_decide as Es; [|simplify_eq; by apply good_refl].
  destruct (transition_to _ _ _) as [t1|] eqn:E; simplify_eq; [|by apply good_refl].
  assert (G : good m (send (put_transfer m t1) (FileResume (t_id t)))).
  { apply good_send, (good_state env m t t1 TRANSFERRING Ho Ht); [eauto|]. intros _. rewrite (proj1 Es). set_solver. }
  eapply good_trans; [exact G|]. apply ensure_pump_good, G.
Qed.

Lemma recover_good m r m' : manager_ok m → recover_transfers env m = (r, m') → good m m'.
Proof.
  intros Ho H. unfold recover_transfers in H. case_match; [simplify_eq; by apply good_refl|].
  by eapply for_transfers_good; [apply recover_keeps| |].
Qed.

Lemma on_chat_event_good m k d r m' : manager_ok m → on_chat_event env m k d = (r, m') → good m m'.
Proof.
  intros Ho H. unfold on_chat_event, auto_pause in H.
  pose proof (good_refl m Ho) as Hr.
  assert (Hw : good m (spawn (wipe_keys m) RecoverTask)) by (apply good_core; [by split|done]).
  case_match; [by simplify_eq|]. destruct k; repeat case_match; simplify_eq; try done;
    eapply for_transfers_good; try apply auto_pause_keeps; done.
Qed.

Lemma run_spawned_good m : manager_ok m → good m (run_spawned env m).
Proof.
  intros Ho. unfold run_spawned. destruct (tm_spawned m) as [|task rest]; [by apply good_refl|].
  assert (Hc : core_eq m (set_spawned m rest)) by (by split).
  assert (G := good_core _ _ Hc Ho). eapply good_trans; [exact G|]. apply go_ok in G. destruct task as [id|].
  - destruct (dget (tm_transfers (set_spawned m rest)) id) as [t|] eqn:Ht.
    + destruct (offer env (set_spawned m rest) t) as [r m'] eqn:E. eapply offer_good; [done| |exact E].
      by rewrite (own_id _ _ _ G Ht).
    + destruct (key_for env (set_spawned m rest) id) as [o m'] eqn:E. apply good_core; [|done].
      by eapply core_key_for.
  - destruct (recover_transfers env (set_spawned m rest)) as [r m'] eqn:E. by eapply recover_good.
Qed.
End pump.
