(* ===== verification/TransferDelivery.v ===== *)
(** * An honest sender's file arrives

    The chunks of a file, sealed under the transfer's key and delivered in
    any order with repetitions, take an accepted transfer to its end: the
    verified file is in the downloads. *)

From S2P Require Import Prelude Text Utf8 Primitives Crypto Json Chunking TransferStorage Transfer TransferInvariant.

Open Scope Z_scope.

Section delivery.
Context {P : Primitives} {L : PrimitiveLaws P} {U : UnicodeData} {C : Coercions}.
Variable limits : TransferLimits.
Variable env : Env.
Variable session_key : bytes.
Hypothesis Hkey : e_session_key env = Some session_key.
Hypothesis Hnonce : ∀ n, length (e_nonce env n) = NONCE_BYTES.
Variables (id : unicode) (file : bytes) (destination : unicode).

Let key : bytes := transfer_key session_key id.

(** The frame that carries chunk [n]. *)
Definition honest_chunk (chunk_size n : Z) : FileFrame :=
  FileChunk id n (seal_chunk key id n (e_nonce env n) (chunk_of file chunk_size n)).

(** The accepted transfer [t] of the file, of which [b] and [part] hold what
    arrived. *)
Record receiving (m : Manager) (t : Transfer) (b : ChunkBitmap) (part : bytes) : Prop := {
  rc_open : tm_closing m = false;
  rc_transfer : dget (tm_transfers m) id = Some t; rc_id : t_id t = id;
  rc_direction : t_direction t = RECEIVING;
  rc_state : t_state t = ACCEPTED ∨ t_state t = TRANSFERRING;
  rc_size : t_size t = Z.of_nat (length file); rc_chunk_size : 1 <= t_chunk_size t;
  rc_total : t_total t = chunk_count (t_size t) (t_chunk_size t);
  rc_manifest : ∃ f, dget (tm_manifests m) id = Some f ∧ describes f t ∧ mf_sha256 f = hash_file file;
  rc_bitmap : dget (tm_bitmaps m) id = Some b; rc_for : bitmap_for t b;
  rc_missing : is_complete b = false;
  rc_temp_name : temp_name_ok id = true;
  rc_part : dget (st_temp (tm_storage m)) id = Some part;
  rc_length : (length part <= length file)%nat;
  rc_holds : ∀ n, 1 <= n <= t_total t → has b n = true → holds file part (t_chunk_size t) n;
  rc_key : dget (tm_keys m) id = None ∧ is_Some (ascii_text id) ∨ dget (tm_keys m) id = Some key;
  rc_destination : dget (tm_destinations m) id = Some destination;
}.

Record delivered (m : Manager) : Prop := {
  dl_transfer : ∃ t, dget (tm_transfers m) id = Some t ∧ t_direction t = RECEIVING ∧
    t_state t = COMPLETED ∧ t_saved t = Some destination;
  dl_file : dget (st_downloads (tm_storage m)) destination = Some file;
  dl_confirmed : FileComplete id (hash_file file) ∈ tm_sent m;
}.

Section transfer.
Variables (m : Manager) (t : Transfer) (b : ChunkBitmap) (part : bytes).
Hypothesis R : receiving m t b part.

Let cs : Z := t_chunk_size t.

Lemma size_positive : 1 <= t_size t.
Proof.
  pose proof (bw_total b (bf_wf _ _ (rc_for _ _ _ _ R))) as Ht. rewrite (bf_total _ _ (rc_for _ _ _ _ R)) in Ht.
  rewrite (rc_total _ _ _ _ R) in Ht. unfold chunk_count in Ht. pose proof (rc_chunk_size _ _ _ _ R) as Hc.
  destruct (Z.le_gt_cases 1 (t_size t)); [done|]. exfalso.
  assert ((t_size t + t_chunk_size t - 1) / t_chunk_size t < 1); [|lia].
  apply Z.div_lt_upper_bound; lia.
Qed.

Lemma chunk_bounds n : 1 <= n <= t_total t →
  expected_chunk_length t n = Z.of_nat (length (chunk_of file cs n)) ∧
  (n - 1) * cs < Z.of_nat (length file) ∧ Z.of_nat (length file) <= t_total t * cs.
Proof.
  intros Hn. pose proof (rc_chunk_size _ _ _ _ R) as Hc. pose proof size_positive as Hs.
  destruct (chunk_count_spec _ _ Hs Hc) as (H1 & H2 & H3). rewrite <- (rc_total _ _ _ _ R) in *.
  rewrite (rc_size _ _ _ _ R) in *. unfold cs. rewrite length_chunk_of by lia.
  unfold expected_chunk_length. rewrite (rc_size _ _ _ _ R). destruct (Z.eqb_spec n (t_total t)) as [->|]; [nia|].
  assert ((n - 1) * t_chunk_size t + t_chunk_size t <= (t_total t - 1) * t_chunk_size t) by nia. nia.
Qed.

Lemma sealed_length n : 1 <= n <= t_total t →
  Z.of_nat (length (seal_chunk key id n (e_nonce env n) (chunk_of file cs n))) =
    expected_chunk_length t n + 12 + 16.
Proof.
  intros Hn. destruct (chunk_bounds n Hn) as (-> & _). unfold seal_chunk.
  rewrite length_seal, Hnonce. unfold NONCE_BYTES. lia.
Qed.

Lemma opens n : 1 <= n <= t_total t →
  open_chunk key id n (seal_chunk key id n (e_nonce env n) (chunk_of file cs n)) = Ok (chunk_of file cs n).
Proof.
  intros Hn. unfold open_chunk, seal_chunk. by rewrite open_seal.
Qed.

(** The key is derived once and kept. *)
Lemma key_known : ∃ m1, key_for env m id = (Ok (Some key), m1) ∧ receiving m1 t b part ∧ dget (tm_keys m1) id = Some key.
Proof.
  unfold key_for. destruct (rc_key _ _ _ _ R) as [[E Ha]|E]; rewrite E.
  - unfold derive_transfer_key. rewrite Hkey, bool_decide_true by done. cbn [guard_or mbind result_bind]. eexists. split; [done|]. cbn. rewrite dget_dset, decide_True by done. split; [|done].
    destruct R. split; cbn; try done. right. by rewrite dget_dset, decide_True.
  - exists m. done.
Qed.

(** The checks an honest chunk passes. *)
Lemma honest_checked n : 1 <= n <= t_total t →
  handle_frame limits env m (honest_chunk cs n) =
    if has b n then (Ok tt, send m (FileAck id n))
    else store_chunk limits env (key_for env m id).2 t b n (chunk_of file cs n).
Proof.
  intros Hn. unfold handle_frame, honest_chunk. rewrite (rc_open _ _ _ _ R). unfold on_chunk.
  rewrite (rc_transfer _ _ _ _ R), (bool_decide_true (t_direction t = RECEIVING)) by apply R. cbn [negb].
  assert (Hst : t_state t ≠ OFFERED ∧ is_terminal t = false ∧ bool_decide (t_state t = PAUSED) = false).
  { unfold is_terminal. destruct (rc_state _ _ _ _ R) as [-> | ->]; by split_and!. }
  destruct Hst as (Hof & -> & ->). rewrite decide_False by done. cbn [orb].
  rewrite (proj2 (Z.leb_le 1 n)), (proj2 (Z.leb_le n (t_total t))) by lia. cbn [andb negb]. cbv zeta.
  rewrite sealed_length, Z.eqb_refl by done. cbn [negb]. rewrite (rc_bitmap _ _ _ _ R).
  destruct (has b n); [done|]. destruct key_known as (m1 & -> & _). cbn [snd]. rewrite opens by done.
  destruct (chunk_bounds n Hn) as (-> & _). by rewrite Z.eqb_refl.
Qed.

(** A new chunk is written where it belongs. *)
Lemma chunk_written n : 1 <= n <= t_total t →
  let part' := write_chunk part n cs (chunk_of file cs n) in
  (length part' <= length file)%nat ∧
  ∀ b', (∀ k, 1 <= k → has b' k = has b k || (k =? n)) →
    ∀ k, 1 <= k <= t_total t → has b' k = true → holds file part' cs k.
Proof.
  intros Hn part'. destruct (chunk_bounds n Hn) as (_ & Hlt & _). pose proof (rc_chunk_size _ _ _ _ R) as Hc.
  split; [apply (write_chunk_holds file part cs n n); try done; try lia; apply R|].
  intros b' Hb' k Hk. rewrite Hb' by lia. intros Ho. apply (write_chunk_holds file part cs n k); try done; try lia; [apply R|].
  apply orb_true_iff in Ho as [Ho|Ho]; [right; by apply R|left; lia].
Qed.
End transfer.

(** The last chunk: the file is verified, published and confirmed. *)
Lemma last_chunk_delivers m t f :
  dget (tm_transfers m) (t_id t) = Some t → t_id t = id → t_direction t = RECEIVING →
  t_state t = TRANSFERRING → temp_name_ok id = true → t_size t = Z.of_nat (length file) →
  dget (tm_manifests m) id = Some f → describes f t → mf_sha256 f = hash_file file →
  dget (st_temp (tm_storage m)) id = Some file → dget (tm_destinations m) id = Some destination →
  ∃ m', finish_receiving limits env m t = (Ok tt, m') ∧ delivered m'.
Proof.
  intros Ht Hid Hd Hs Hn Hsz Hf [Hde _ _] Hsha Hp Hdest. unfold finish_receiving, require_manifest, part_digest. rewrite Hid, Hf.
  cbn [of_option]. rewrite Hp. cbn [of_option mbind result_bind]. unfold hash_temp. rewrite Hde, Hsz, Z.eqb_refl.
  cbn [guard_or mbind result_bind]. unfold finish_checked. rewrite Hsha, bool_decide_true by done. cbn [negb]. rewrite Hid, Hdest.
  unfold finalize. rewrite Hn, Hp. cbn [negb]. unfold finish_published, settle_terminal.
  rewrite transition_allowed.
  2: { unfold allowed. cbn. rewrite Hd, Hs. cbn. set_solver. }
  rewrite (bool_decide_true (COMPLETED = COMPLETED)) by done. rewrite andb_false_r.
  eexists. split; [reflexivity|]. split.
  - eexists. cbn [send set_sent set_history tm_transfers].
    rewrite (ce_transfers _ _ (core_promote limits _)). cbn. rewrite Hid, dget_dset, decide_True by done. done.
  - cbn [send set_sent set_history tm_storage]. rewrite (ce_storage _ _ (core_promote limits _)). cbn.
    by rewrite dget_dset, decide_True.
  - cbn. apply elem_of_app. right. set_solver.
Qed.

(** What remains of the transfer after some chunks: those of [seen] arrived. *)
Definition remaining (m : Manager) (chunk_size total : Z) (seen : Z → Prop) : Prop :=
  delivered m ∨ ∃ t b part, receiving m t b part ∧ t_chunk_size t = chunk_size ∧ t_total t = total ∧
    ∀ k, 1 <= k → seen k → has b k = true.

Lemma stored_chunk m t b part n :
  receiving m t b part → dget (tm_keys m) id = Some key → 1 <= n <= t_total t → has b n = false →
  ∃ m', store_chunk limits env m t b n (chunk_of file (t_chunk_size t) n) = (Ok tt, m') ∧
    remaining m' (t_chunk_size t) (t_total t) (λ k, has b k = true ∨ k = n).
Proof.
  intros R Hk Hn Hb. destruct (chunk_written m t b part R n Hn) as [Hlen Hwr]. cbv zeta in *.
  destruct (chunk_bounds m t b part R n Hn) as (_ & _ & Hcover).
  set (part' := write_chunk part n (t_chunk_size t) (chunk_of file (t_chunk_size t) n)) in *.
  destruct (mark_spec b n (bf_wf _ _ (rc_for _ _ _ _ R))) as (b' & Hm & Hw' & Ht' & Hhas).
  { by rewrite (bf_total _ _ (rc_for _ _ _ _ R)). }
  destruct (rc_manifest _ _ _ _ R) as (f & Hf & Hde & Hsha).
  unfold store_chunk. cbv zeta. rewrite (rc_id _ _ _ _ R). unfold storage_write_chunk.
  rewrite (rc_temp_name _ _ _ _ R), (rc_part _ _ _ _ R). cbn [negb]. rewrite Hm. cbn [snd].
  set (t1 := touch (with_progress t b') (e_now env)).
  assert (∃ t2, (if decide (t_state t1 = ACCEPTED) then transition_to t1 TRANSFERRING (e_now env) else Ok t1) = Ok t2 ∧
    t2 = set_state t1 TRANSFERRING (e_now env)) as (t2 & -> & ->).
  { case_decide as Es.
    - rewrite transition_allowed; [by eexists|]. rewrite Es. unfold allowed.
      destruct (t_direction t1); cbn; set_solver.
    - exists t1. split; [done|]. destruct (rc_state _ _ _ _ R) as [E|E]; [done|].
      unfold t1, touch, set_state. cbn. by rewrite E. }
  set (t2 := set_state t1 TRANSFERRING (e_now env)).
  match goal with |- context [send ?x _] => set (m2 := send x (FileAck id n)) end.
  assert (Hseen : ∀ k, 1 <= k → has b k = true ∨ k = n → has b' k = true).
  { intros k Hk1 Ho. rewrite Hhas by done. destruct Ho as [-> | ->]; [done|]. by rewrite Z.eqb_refl, orb_true_r. }
  destruct (is_complete b') eqn:Ec.
  - pose proof (proj1 (is_complete_iff b' Hw') Ec) as Hall.
    rewrite Ht', (bf_total _ _ (rc_for _ _ _ _ R)) in Hall.
    assert (part' = file) as Hpart.
    { apply (holds_all file part' (t_chunk_size t) (t_total t)); [apply R|done|done|].
      intros k Hk1. apply (Hwr b' Hhas k Hk1). by apply Hall. }
    destruct (last_chunk_delivers m2 t2 f) as (m' & -> & Hdl); try (by apply R); try done.
    + cbn. by rewrite dget_dset, decide_True.
    + destruct Hde. by split.
    + cbn. rewrite dget_dset, decide_True by done. f_equal. exact Hpart.
    + exists m'. split; [done|]. by left.
  - exists m2. split; [done|]. right. exists t2, b', part'. split_and!; try done.
    destruct R. split; try done; cbn; rewrite ?rc_id0, ?dget_dset, ?decide_True by done; try done.
    + by right.
    + exists f. destruct Hde. done.
    + split; [done|]. cbn. rewrite Ht'. apply rc_for0.
    + by apply Hwr.
Qed.

Lemma honest_step m t b part n :
  receiving m t b part → 1 <= n <= t_total t →
  ∃ m', handle_frame limits env m (honest_chunk (t_chunk_size t) n) = (Ok tt, m') ∧
    remaining m' (t_chunk_size t) (t_total t) (λ k, has b k = true ∨ k = n).
Proof.
  intros R Hn. rewrite (honest_checked m t b part R n Hn). destruct (has b n) eqn:Hb.
  - eexists. split; [done|]. right. exists t, b, part. split_and!; try done; [destruct R; by split|].
    intros k _ [? | ->]; done.
  - destruct (key_known m t b part R) as (m1 & -> & R1 & Hk1). cbn [snd]. by apply stored_chunk with part.
Qed.

(** Later copies of its chunks leave a finished download alone. *)
Lemma late_chunk m cs n :
  delivered m → handle_frame limits env m (honest_chunk cs n) = (Ok tt, m).
Proof.
  intros [(t & Ht & Hd & Hs & _) _ _]. unfold handle_frame, honest_chunk. case_match; [done|].
  unfold on_chunk. rewrite Ht, bool_decide_true by done. cbn [negb]. rewrite decide_False by congruence.
  unfold is_terminal. by rewrite Hs.
Qed.

Definition deliver (m : Manager) (frames : list FileFrame) : Manager :=
  foldl (λ m f, (handle_frame limits env m f).2) m frames.

Lemma deliver_remaining cs total order m (seen : Z → Prop) :
  Forall (λ n, 1 <= n <= total) order → remaining m cs total seen →
  remaining (deliver m (honest_chunk cs <$> order)) cs total (λ k, seen k ∨ k ∈ order).
Proof.
  revert m seen. induction order as [|n order IH]; intros m seen Hr Hm; cbn.
  { destruct Hm as [?|(t & b & part & H)]; [by left|]. right. exists t, b, part. set_solver. }
  apply Forall_cons in Hr as [Hn Hr]. destruct Hm as [Hd|(t & b & part & R & <- & <- & Hs)].
  - rewrite late_chunk by done. cbn [snd]. destruct (IH m (λ k, True) Hr) as [?|(t & b & part & H)]; [by left|by left|].
    right. exists t, b, part. split_and!; try apply H. intros k Hk _. apply H; [done|by left].
  - destruct (honest_step m t b part n R Hn) as (m' & -> & Hm'). cbn [snd].
    destruct (IH m' _ Hr Hm') as [?|(t' & b' & part' & R' & ? & ? & Hs')]; [by left|].
    right. exists t', b', part'. split_and!; try done. intros k Hk Ho. apply Hs'; [done|].
    rewrite elem_of_cons in Ho. destruct Ho as [Ho|[->|Ho]]; [left; left; by apply Hs|left; by right|by right].
Qed.
End delivery.

(** C36: An honest sender's file is delivered: when the chunks of a file,
    sealed under the transfer's key, reach an accepted transfer of it in any
    order and as often as the sender retries, then once every chunk came the
    transfer is completed, the downloads hold exactly that file under the
    chosen name, and the sender was told its hash. *)
Theorem honest_chunks_deliver {P : Primitives} {L : PrimitiveLaws P} {U : UnicodeData} {C : Coercions}
    limits env session_key id file destination m t b part order :
  e_session_key env = Some session_key → (∀ n, length (e_nonce env n) = NONCE_BYTES) →
  receiving session_key id file destination m t b part →
  Forall (λ n, 1 <= n <= t_total t) order → (∀ n, 1 <= n <= t_total t → n ∈ order) →
  delivered id file destination
    (deliver limits env m (honest_chunk env session_key id file (t_chunk_size t) <$> order)).
Proof.
  intros Hk Hn R Hr Hall.
  destruct (deliver_remaining limits env session_key Hk Hn id file destination (t_chunk_size t) (t_total t)
    order m (λ _, False) Hr) as [?|(t' & b' & part' & R' & _ & Ht & Hs)]; [|done|].
  { right. exists t, b, part. split_and!; done. }
  exfalso. pose proof (rc_missing _ _ _ _ _ _ _ _ R') as Hm. destruct (rc_for _ _ _ _ _ _ _ _ R') as [W E].
  assert (is_complete b' = true); [|congruence]. apply is_complete_iff; [done|]. intros n Hn'. apply Hs; [lia|].
  right. apply Hall. congruence.
Qed.

(** ** A run: a file is offered, accepted and received *)

#[export] Instance plain_coercions : Coercions := {| str_of_json _ := []; int_of_json _ := Mistyped |}.

Definition sample_limits : TransferLimits :=
  mkLimits (50 * 1024 * 1024) 2 1024 10 3 (200 * 1024 * 1024) 3600 120 600.
Definition sample_key : bytes := replicate 32 5.
Definition env_at (now : Z) : Env := mkEnv (Some sample_key) true now now (λ n, replicate 12 (n mod 256)).
Definition sample_file : bytes := (λ i, i mod 251) <$> seqZ 0 1500.
Definition no_storage : Storage := mkStorage [] [].

(** The frames a sender emits for a file, and a receiver that accepts it. *)
Definition offer_frames (name : unicode) (file random : bytes) : list FileFrame :=
  tm_sent (send_file sample_limits (env_at 0) (empty_manager no_storage) name (Some file)
             (λ _, cp "text/plain") random).2.
Definition offered (m : Manager) (name : unicode) (file random : bytes) : Manager :=
  deliver sample_limits (env_at 0) m (offer_frames name file random).
Definition accepting (m : Manager) (id : unicode) : Manager :=
  (accept sample_limits (env_at 0) m id).2.

Definition sample_random : bytes := [1; 2; 3; 4].
Definition sample_id : unicode := generate_transfer_id sample_random.
Definition sample_receiver : Manager :=
  accepting (offered (empty_manager no_storage) (cp "notes.txt") sample_file sample_random) sample_id.
Definition sample_transfer : Transfer :=
  mkTransfer sample_id RECEIVING ACCEPTED (cp "notes.txt") 1500 (cp "text/plain") 1024 2
    (hash_file sample_file) None None 0 0 0 0 3600 false.
Definition sample_bits : ChunkBitmap := mkBitmap 2 [0] 0.

Lemma sample_receiving :
  receiving sample_key sample_id sample_file (cp "notes.txt") sample_receiver sample_transfer sample_bits [].
Proof.
  destruct (bitmap_empty_wf 2 ltac:(lia)) as (b & Hb & Hw & Ht & Hh). cbn in Hb. injection Hb as <-.
  split; try (vm_compute; reflexivity).
  - by left.
  - cbn. lia.
  - exists (mkManifest TRANSFER_PROTOCOL sample_id (cp "notes.txt") 1500 (cp "text/plain") 1024 2
      (hash_file sample_file)). split; [vm_compute; reflexivity|]. split; [by split|done].
  - by split.
  - cbn. lia.
  - intros n _ Hn. unfold sample_bits in Hn. by rewrite Hh in Hn.
  - right. vm_compute. reflexivity.
Qed.

Lemma sample_nonce n : length (e_nonce (env_at 0) n) = NONCE_BYTES.
Proof. reflexivity. Qed.

Lemma sample_order : Forall (λ n, 1 <= n <= t_total sample_transfer) [2; 1; 2] ∧
  ∀ n, 1 <= n <= t_total sample_transfer → n ∈ [2; 1; 2].
Proof.
  cbn. split; [repeat constructor; lia|]. intros n Hn.
  assert (n = 1 ∨ n = 2) as [-> | ->] by lia; set_solver.
Qed.

Lemma honest_chunks_deliver_witness :
  delivered sample_id sample_file (cp "notes.txt")
    (deliver sample_limits (env_at 0) sample_receiver
       (honest_chunk (env_at 0) sample_key sample_id sample_file 1024 <$> [2; 1; 2])).
Proof.
  exact (honest_chunks_deliver sample_limits (env_at 0) sample_key sample_id sample_file (cp "notes.txt")
    sample_receiver sample_transfer sample_bits [] [2; 1; 2] eq_refl sample_nonce sample_receiving
    (proj1 sample_order) (proj2 sample_order)).
Defined.

(** ** Offers that get no answer *)

(** The interpreter's Unicode data, for the digits of Arabic. *)
Definition arabic_data : UnicodeData := {|
  nfc s := s; printable c := 32 <=? c; wide_space _ := false;
  wide_digit c := if (1632 <=? c) && (c <=? 1641) then Some (c - 1632) else None |}.

(** Eight decimal digits that are not ASCII make a valid identifier, from
    which no key can be derived: the error escapes the handler. *)
Example wide_id_escapes :
  let id := TRANSFER_ID_PREFIX ++ replicate 8 1636 in
  is_valid_transfer_id (U := arabic_data) id = true ∧
  on_offer (U := arabic_data) sample_limits (env_at 0) (empty_manager no_storage) id [] =
    (Err PyUnicodeError, empty_manager no_storage).
Proof. split; vm_compute; reflexivity. Qed.

(** [int] of an infinity raises what [from_json] does not catch. *)
Definition float_coercions : Coercions := {|
  str_of_json _ := [];
  int_of_json v := match v with JFloat l => if bool_decide (l = cp "Infinity") then Overflows else Mistyped | _ => Mistyped end |}.
Definition infinite_manifest : bytes :=
  dumps (JObj [(cp "v", JStr TRANSFER_PROTOCOL); (cp "id", JStr sample_id); (cp "name", JStr (cp "notes.txt"));
    (cp "size", JFloat (cp "Infinity"))]).
Example infinite_size_escapes :
  let ct := seal_manifest (transfer_key sample_key sample_id) sample_id (replicate 12 0) infinite_manifest in
  (on_offer (C := float_coercions) sample_limits (env_at 0) (empty_manager no_storage) sample_id ct).1 = Err PyOverflowError.
Proof. vm_compute. reflexivity. Qed.

(** ** Calls that come between the pieces of a handler *)

(** A transfer cancelled while [accept] waits for its threads: the part file
    they create outlives it, and [accept] raises. *)
Example cancelled_while_accepting :
  let m := offered (empty_manager no_storage) (cp "notes.txt") sample_file sample_random in
  let m1 := (cancel sample_limits (env_at 0) m sample_id).2 in
  let m2 := (open_part m1 sample_id).2 in
  is_ok (accept_checks sample_limits m sample_id) = true ∧
  (accept_end (env_at 0) m2 sample_id (cp "notes.txt")).1 = Err TransferStateError ∧
  (t_state <$> dget (tm_transfers m2) sample_id) = Some CANCELLED ∧
  dget (st_temp (tm_storage m2)) sample_id = Some [].
Proof. by vm_compute. Qed.

(** A transfer paused while its last part file is hashed: the file is
    published, and the transfer stays paused. *)
Example paused_while_hashing :
  let t := set_state sample_transfer TRANSFERRING 0 in
  let m := set_storage (put_transfer sample_receiver t) (mkStorage [(sample_id, sample_file)] []) in
  let m1 := (pause (env_at 0) m sample_id).2 in
  let r := t1 ← of_option (dget (tm_transfers m1) sample_id) TransferErr; f ← require_manifest m1 sample_id;
           Ok (finish_checked sample_limits (env_at 0) m1 t1 f (hash_file sample_file)) in
  part_digest m sample_id 1500 = Ok (hash_file sample_file) ∧
  match r with
  | Ok (x, m2) => x = Err TransferStateError ∧ dget (st_downloads (tm_storage m2)) (cp "notes.txt") = Some sample_file ∧
      (t_state <$> dget (tm_transfers m2) sample_id) = Some PAUSED
  | Err _ => False
  end.
Proof. by vm_compute. Qed.
