(* ===== verification/TransferTheorems.v ===== *)
(** * What the transfer manager guarantees

    The steps of the manager as a relation, its invariant along every run,
    and the theorems: a transfer follows its lifecycle, a file that appears
    among the downloads is the one that was offered, part files belong to
    downloads in progress, closing leaves none, and a pump stays within its
    window and its retries. *)

From S2P Require Import Prelude Text Utf8 Primitives Json Chunking TransferStorage Transfer TransferInvariant TransferPump TransferDelivery.

Open Scope Z_scope.

Section housekeeping.
Context {P : Primitives} {U : UnicodeData} {C : Coercions}.
Variable limits : TransferLimits.
Variable env : Env.

(** ** Housekeeping and shutdown *)

(** No transfer appears, and those that stay follow their lifecycle. *)
Definition shrinks (m m' : Manager) : Prop :=
  ∀ id t', dget (tm_transfers m') id = Some t' → ∃ t, dget (tm_transfers m) id = Some t ∧ follows t t'.

Record tidy (m m' : Manager) : Prop := {
  ti_ok : manager_ok m'; ti_shrinks : shrinks m m';
  ti_downloads : st_downloads (tm_storage m') = st_downloads (tm_storage m);
}.

Lemma shrinks_refl m : shrinks m m.
Proof. intros id t Ht. exists t. split; [done|apply follows_refl]. Qed.

Lemma tidy_refl m : manager_ok m → tidy m m.
Proof. intros Ho. split; [done|apply shrinks_refl|done]. Qed.

Lemma tidy_trans m1 m2 m3 : tidy m1 m2 → tidy m2 m3 → tidy m1 m3.
Proof.
  intros [Ho1 Hs1 Hd1] [Ho2 Hs2 Hd2]. split; [done| |congruence].
  intros id t (t2 & (t1 & Ht1 & Hf1)%Hs1 & Hf2)%Hs2. exists t1. split; [done|]. by eapply follows_trans.
Qed.

Lemma tidy_core m m1 m2 : tidy m m1 → core_eq m1 m2 → tidy m m2.
Proof.
  intros [Ho Hs Hd] Hc. split; [exact (go_ok _ _ (good_core _ _ Hc Ho))| |].
  - intros id t. rewrite (ce_transfers _ _ Hc). apply Hs.
  - by rewrite (ce_storage _ _ Hc).
Qed.

Lemma settle_tidy m t s r m' :
  manager_ok m → dget (tm_transfers m) (t_id t) = Some t → s ∈ TERMINAL_STATES → s ≠ COMPLETED →
  settle_terminal limits env m t s = (r, m') → tidy m m'.
Proof.
  intros Ho Ht Hs Hne H. pose proof (settle_good limits env m t s r m' Ho Ht Hs (or_intror Hne) H) as G.
  split; [apply G| |]; unfold settle_terminal in H;
    (destruct (transition_to t s (e_now env)) as [t1|] eqn:E;
     [apply transition_Ok in E as [Hal ->]|case_decide; simplify_eq; (done || apply shrinks_refl)]);
    injection H as <- <-.
  - intros id t'. rewrite (ce_transfers _ _ (core_promote limits _)).
    assert (Hu : ∀ l, l = dset (tm_transfers m) (t_id t) (set_state t s (e_now env)) → dget l id = Some t' →
      ∃ u, dget (tm_transfers m) id = Some u ∧ follows u t'); [|apply Hu; by case_match].
    intros l -> . rewrite dget_dset. destruct (decide (t_id t = id)) as [Ei|Ei].
    2: { intros Hu. exists t'. split; [done|apply follows_refl]. }
    intros [= <-]. exists t. rewrite <- Ei. split; [done|by apply follows_state].
  - rewrite (ce_storage _ _ (core_promote limits _)). by case_match.
Qed.

Lemma purge_tidy m t :
  manager_ok m → dget (tm_transfers m) (t_id t) = Some t → is_terminal t = true → tidy m (purge m (t_id t)).
Proof.
  intros Ho Ht Hterm. unfold is_terminal in Hterm. breflect. destruct Ho.
  assert (Hget : ∀ id, dget (tm_transfers (purge m (t_id t))) id =
    if decide (t_id t = id) then None else dget (tm_transfers m) id) by (intros id; by apply dget_dpop).
  split; [split; cbn; try (by apply dict_wf_dpop); try done| |done].
  - intros id u Hu. change (dget (tm_transfers (purge m (t_id t))) id = Some u) in Hu. rewrite Hget in Hu.
    case_decide; [done|]. destruct (mo_all _ _ Hu) as [Hid Huo]. split; [done|].
    destruct Huo. split; try done; cbn; rewrite dget_dpop, decide_False by (done || congruence); done.
  - intros id Hv. rewrite mo_parts by done. change (dpop (tm_transfers m) (t_id t)) with (tm_transfers (purge m (t_id t))).
    setoid_rewrite Hget. case_decide as E; [|done]. subst. rewrite Ht. split; [|naive_solver].
    intros (u & [= <-] & Hu). by apply terminal_not_in_progress in Hu.
  - intros id u Hu. rewrite Hget in Hu. case_decide; [done|]. exists u. split; [done|apply follows_refl].
Qed.

Lemma sweep_one_tidy m t r m' :
  manager_ok m → dget (tm_transfers m) (t_id t) = Some t → sweep_one limits env m t = (r, m') → tidy m m'.
Proof.
  intros Ho Ht H. unfold sweep_one in H. cbv zeta in H.
  assert (Hexp : ∀ r1 m1, settle_terminal limits env m t EXPIRED = (r1, m1) → tidy m m1).
  { intros r1 m1. apply settle_tidy; [done..| |done]. unfold TERMINAL_STATES. set_solver. }
  destruct (is_terminal t) eqn:Eterm; [case_match; simplify_eq; [by apply purge_tidy|by apply tidy_refl]|].
  destruct (settle_terminal limits env m t EXPIRED) as [[[]|e] m1] eqn:Es; specialize (Hexp _ _ eq_refl);
    repeat case_match; simplify_eq; try done; try (by apply tidy_refl);
    first [by eapply tidy_core; [exact Hexp|] | by eapply tidy_core; [exact (tidy_refl _ Ho)|]].
Qed.

Lemma sweep_tidy m r m' : manager_ok m → sweep limits env m = (r, m') → tidy m m'.
Proof.
  unfold sweep. generalize (keys (tm_transfers m)) as ids. intros ids. revert m.
  induction ids as [|id ids IH]; intros m Ho H; cbn in H; [simplify_eq; by apply tidy_refl|].
  destruct (dget (tm_transfers m) id) as [t|] eqn:Ht; [|by apply IH].
  destruct (sweep_one limits env m t) as [[[]|e] m1] eqn:Eb;
    (apply sweep_one_tidy in Eb; [|done|by rewrite (own_id _ _ _ Ho Ht)]).
  - eapply tidy_trans; [exact Eb|]. apply IH; [apply Eb|done].
  - by simplify_eq.
Qed.

(** [close]: every active transfer is cancelled. *)
Lemma active_cancels t : is_active t = true → allowed (t_direction t) (t_state t) CANCELLED.
Proof.
  unfold is_active, ACTIVE_STATES, allowed. intros H. breflect.
  destruct (t_direction t), (t_state t); cbn; set_solver.
Qed.

Lemma close_one_spec m t :
  manager_ok m → dget (tm_transfers m) (t_id t) = Some t →
  ∃ m1, close_one limits env m t = (Ok tt, m1) ∧ tidy m m1 ∧
    (∀ u, dget (tm_transfers m1) (t_id t) = Some u → is_active u = false) ∧
    ∀ id, id ≠ t_id t → dget (tm_transfers m1) id = dget (tm_transfers m) id.
Proof.
  intros Ho Ht. unfold close_one. destruct (is_active t) eqn:Ea.
  2: { exists m. split; [done|]. split; [by apply tidy_refl|]. split; [congruence|done]. }
  set (m0 := send m (FileCancel (t_id t))).
  assert (T0 : tidy m m0) by (eapply tidy_core; [by apply tidy_refl|by split]).
  destruct (settle_terminal limits env m0 t CANCELLED) as [r m1] eqn:Es. exists m1.
  assert (T1 : tidy m0 m1).
  { apply (settle_tidy m0 t CANCELLED r m1); [apply T0|exact Ht| |done|done]. unfold TERMINAL_STATES. set_solver. }
  unfold settle_terminal in Es. rewrite transition_allowed in Es by (by apply active_cancels). injection Es as <- <-.
  split; [done|]. split; [by eapply tidy_trans|]. rewrite (ce_transfers _ _ (core_promote limits _)).
  assert (Hl : ∀ l, l = dset (tm_transfers m) (t_id t) (set_state t CANCELLED (e_now env)) →
    (∀ u, dget l (t_id t) = Some u → is_active u = false) ∧
    ∀ id, id ≠ t_id t → dget l id = dget (tm_transfers m) id); [|apply Hl; by case_match].
  intros l ->. split.
  - intros u. rewrite dget_dset, decide_True by done. by intros [= <-].
  - intros id Hne. by rewrite dget_dset, decide_False.
Qed.

Lemma close_loop ids m :
  manager_ok m → ∃ m', for_transfers (close_one limits env) ids m = (Ok tt, m') ∧ manager_ok m' ∧
    st_downloads (tm_storage m') = st_downloads (tm_storage m) ∧
    ∀ id t, dget (tm_transfers m') id = Some t →
      is_active t = false ∨ (id ∉ ids ∧ dget (tm_transfers m) id = Some t).
Proof.
  revert m. induction ids as [|id ids IH]; intros m Ho; cbn.
  { exists m. split_and!; try done. intros id t Ht. right. set_solver. }
  destruct (dget (tm_transfers m) id) as [t|] eqn:Ht.
  2: { destruct (IH m Ho) as (m' & -> & Ho' & Hd & Hin). exists m'. split_and!; try done.
       intros id' t' Ht'. destruct (Hin _ _ Ht') as [|[? Hm]]; [by left|]. right. split; [|done].
       intros [->|]%elem_of_cons; [congruence|done]. }
  pose proof (own_id _ _ _ Ho Ht) as <-. destruct (close_one_spec m t Ho Ht) as (m1 & -> & T & Hoff & Hoth).
  destruct (IH m1 (ti_ok _ _ T)) as (m' & -> & Ho' & Hd & Hin). exists m'. split_and!; try done.
  { by rewrite Hd, (ti_downloads _ _ T). }
  intros id' t' Ht'. destruct (Hin _ _ Ht') as [|[Hn Hm1]]; [by left|].
  destruct (decide (id' = t_id t)) as [->|Hne]; [left; by apply Hoff|].
  right. rewrite <- Hoth by done. split; [set_solver|done].
Qed.

Lemma close_spec m :
  manager_ok m → tm_closing m = false →
  ∃ m', close limits env m = (Ok tt, m') ∧ manager_ok m' ∧ tm_closing m' = true ∧ tm_keys m' = [] ∧
    tm_transfers m' = [] ∧ tm_pumps m' = [] ∧ tm_spawned m' = [] ∧
    st_downloads (tm_storage m') = st_downloads (tm_storage m).
Proof.
  intros Ho Hc. unfold close. rewrite Hc.
  assert (Ho0 : manager_ok (set_closing m true)) by (eapply go_ok, (good_core m); [by split|done]).
  destruct (close_loop (keys (tm_transfers m)) _ Ho0) as (m1 & -> & Ho1 & Hd & Hin).
  eexists. split; [done|]. split; [|done]. split; cbn; try apply dict_wf_nil; try done; [apply Ho1|].
  intros id Hv. rewrite (mo_parts _ Ho1 id Hv). split; [|naive_solver]. intros (t & Ht & Hp). exfalso.
  destruct (Hin _ _ Ht) as [Hi|[Hn Hm]].
  - unfold is_active, ACTIVE_STATES in Hi. breflect. destruct Hp as [_ Hp]. set_solver.
  - apply Hn, dget_is_Some. by eexists.
Qed.

(** [start]: the part files of earlier runs are removed. *)
Lemma start_ok s : dict_wf (st_temp s) → manager_ok (start (empty_manager s)).
Proof.
  intros Hw. split; cbn; try apply dict_wf_nil; try done; [by apply dict_wf_filter|].
  intros id Hv. split; [|naive_solver]. intros [part Hp]. apply dget_filter in Hp as [_ Hp]; [|done]. exfalso.
  unfold is_valid_transfer_id in Hv. breflect. cbn in Hp. rewrite bool_decide_true in Hp by done.
  rewrite bool_decide_false in Hp by set_solver. done.
Qed.
End housekeeping.

(** ** Runs of the manager *)

Section runs.
Context {P : Primitives} {U : UnicodeData} {C : Coercions}.
Variable limits : TransferLimits.

(** One call of the manager, whatever the clocks and the session are.  A
    random id does not collide with a known one. *)
Inductive tstep : Manager → Manager → Prop :=
| step_frame env m f r m' : handle_frame limits env m f = (r, m') → tstep m m'
| step_send env m name file guess random r m' :
    dget (tm_transfers m) (generate_transfer_id random) = None →
    send_file limits env m name file guess random = (r, m') → tstep m m'
| step_accept env m id r m' : accept limits env m id = (r, m') → tstep m m'
| step_reject env m id r m' : reject limits env m id = (r, m') → tstep m m'
| step_pause env m id r m' : pause env m id = (r, m') → tstep m m'
| step_resume env m id r m' : resume env m id = (r, m') → tstep m m'
| step_cancel env m id r m' : cancel limits env m id = (r, m') → tstep m m'
| step_pump env later m id r m' : send_pump limits env later m id = (r, m') → tstep m m'
| step_event env m kind detail r m' : on_chat_event env m kind detail = (r, m') → tstep m m'
| step_spawned env m : tstep m (run_spawned env m)
| step_sweep env m r m' : sweep limits env m = (r, m') → tstep m m'
| step_close env m r m' : close limits env m = (r, m') → tstep m m'.

Inductive transfer_reachable : Manager → Prop :=
| reach_start s : dict_wf (st_temp s) → transfer_reachable (start (empty_manager s))
| reach_step m m' : transfer_reachable m → tstep m m' → transfer_reachable m'.

(** Every step is good, or removes finished transfers. *)
Lemma step_good_or_tidy m m' : manager_ok m → tstep m m' → good m m' ∨ tidy m m'.
Proof.
  intros Ho H. destruct H; try (left; eauto using handle_frame_good, send_file_good, accept_good,
    reject_good, pause_good, resume_good, cancel_good, send_pump_good, on_chat_event_good, run_spawned_good; fail).
  - right. by eapply sweep_tidy.
  - right. destruct (tm_closing m) eqn:Ec.
    + unfold close in H. rewrite Ec in H. simplify_eq. by apply tidy_refl.
    + destruct (close_spec limits env m Ho Ec) as (m1 & E & Ho1 & _ & _ & Et & _ & _ & Hd).
      rewrite E in H. simplify_eq. split; [done| |done]. intros id t. by rewrite Et.
Qed.

Lemma reachable_ok m : transfer_reachable m → manager_ok m.
Proof.
  induction 1 as [s Hs|m m' _ IH Hst]; [by apply start_ok|].
  destruct (step_good_or_tidy m m' IH Hst) as [G|T]; [apply G|apply T].
Qed.
End runs.

(** ** Theorems *)


(** A transfer only moves along its lifecycle: whatever one step of the
    manager does, a transfer known before and after is the same transfer
    (id, direction, size, chunks, hash), its state moved by allowed
    transitions, and a terminal state is never left. *)
Theorem transfer_lifecycle {P : Primitives} {U : UnicodeData} {C : Coercions} limits m m' id t t' :
  transfer_reachable limits m → tstep limits m m' →
  dget (tm_transfers m) id = Some t → dget (tm_transfers m') id = Some t' →
  same_static t t' ∧ rtc (allowed (t_direction t)) (t_state t) (t_state t') ∧
  (is_terminal t = true → t_state t' = t_state t).
Proof.
  intros Hr Hst Ht Ht'. apply reachable_ok in Hr.
  assert (Hf : follows t t').
  { destruct (step_good_or_tidy limits m m' Hr Hst) as [G|T].
    - destruct (go_evolves _ _ G _ _ Ht) as (u & Hu & Hf). congruence.
    - destruct (ti_shrinks _ _ T _ _ Ht') as (u & Hu & Hf). congruence. }
  destruct Hf as [Hs Hrtc]. split; [done|]. split; [done|]. unfold is_terminal. intros Hx. breflect.
  by eapply terminal_stays.
Qed.


(** Closing succeeds from every reachable state, forgets every
    transfer, pump, task and key, touches no download, and leaves no part
    file of any transfer behind. *)
Theorem close_leaves_no_parts {P : Primitives} {U : UnicodeData} {C : Coercions} limits env m :
  transfer_reachable limits m → tm_closing m = false →
  ∃ m', close limits env m = (Ok tt, m') ∧ tm_transfers m' = [] ∧ tm_keys m' = [] ∧ tm_pumps m' = [] ∧
    tm_spawned m' = [] ∧ st_downloads (tm_storage m') = st_downloads (tm_storage m) ∧
    ∀ id, is_valid_transfer_id id = true → dget (st_temp (tm_storage m')) id = None.
Proof.
  intros Hr Hc. apply reachable_ok in Hr.
  destruct (close_spec limits env m Hr Hc) as (m' & E & Ho & _ & Hk & Ht & Hp & Hs & Hd).
  exists m'. split_and!; try done. intros id Hv. apply eq_None_not_Some. rewrite (mo_parts _ Ho id Hv), Ht.
  by intros (t & ? & _).
Qed.


(** ** Runs *)

Lemma frame_step {P : Primitives} {U : UnicodeData} {C : Coercions} limits env m f :
  tstep limits m (handle_frame limits env m f).2.
Proof. eapply step_frame, surjective_pairing. Qed.

Lemma accept_step {P : Primitives} {U : UnicodeData} {C : Coercions} limits env m id :
  tstep limits m (accept limits env m id).2.
Proof. eapply step_accept, surjective_pairing. Qed.


Lemma deliver_reachable {P : Primitives} {U : UnicodeData} {C : Coercions} limits env m frames :
  transfer_reachable limits m → transfer_reachable limits (deliver limits env m frames).
Proof.
  revert m. induction frames as [|f frames IH]; intros m Hm; [done|]. cbn. apply IH.
  eapply reach_step; [exact Hm|]. eapply step_frame, surjective_pairing.
Qed.

Lemma sample_reachable : transfer_reachable sample_limits sample_receiver.
Proof.
  exact (reach_step _ _ _ (deliver_reachable sample_limits (env_at 0) _ _
    (reach_start _ no_storage dict_wf_nil)) (accept_step _ _ _ _)).
Qed.

Definition chunk_frame (n : Z) : FileFrame := honest_chunk (env_at 0) sample_key sample_id sample_file 1024 n.
Definition half_received : Manager := deliver sample_limits (env_at 0) sample_receiver [chunk_frame 2].
Definition half_transfer : Transfer := set_state (set_progress sample_transfer 1 1024) TRANSFERRING 0.
Definition received : Manager := (handle_frame sample_limits (env_at 0) half_received (chunk_frame 1)).2.
Definition received_transfer : Transfer :=
  set_state (set_saved (set_progress sample_transfer 2 1500) (cp "notes.txt")) COMPLETED 0.

Lemma half_reachable : transfer_reachable sample_limits half_received.
Proof. exact (deliver_reachable _ _ _ _ sample_reachable). Qed.

Lemma receives : tstep sample_limits half_received received.
Proof. exact (frame_step _ _ _ _). Qed.

Lemma half_known : dget (tm_transfers half_received) sample_id = Some half_transfer.
Proof. vm_compute. reflexivity. Qed.

Lemma received_known : dget (tm_transfers received) sample_id = Some received_transfer.
Proof. vm_compute. reflexivity. Qed.


Lemma half_open : tm_closing half_received = false.
Proof. vm_compute. reflexivity. Qed.


Lemma transfer_lifecycle_witness :
  same_static half_transfer received_transfer ∧ rtc (allowed RECEIVING) TRANSFERRING COMPLETED ∧
  (is_terminal half_transfer = true → COMPLETED = TRANSFERRING).
Proof.
  exact (transfer_lifecycle sample_limits half_received received sample_id half_transfer received_transfer
    half_reachable receives half_known received_known).
Defined.


Lemma close_leaves_no_parts_witness :
  ∃ m', close sample_limits (env_at 5) half_received = (Ok tt, m') ∧ tm_transfers m' = [] ∧ tm_keys m' = [] ∧
    tm_pumps m' = [] ∧ tm_spawned m' = [] ∧
    st_downloads (tm_storage m') = st_downloads (tm_storage half_received) ∧
    ∀ id, is_valid_transfer_id id = true → dget (st_temp (tm_storage m')) id = None.
Proof. exact (close_leaves_no_parts sample_limits (env_at 5) half_received half_reachable half_open). Defined.

(** A sender whose offer was accepted. *)
Definition sends_file (limits : TransferLimits) (now : Z) (m : Manager) (random : bytes) : Manager :=
  (send_file limits (env_at now) m (cp "notes.txt") (Some sample_file) (λ _, cp "text/plain") random).2.






(** ** Where the manager departs from its documentation *)

Definition other_file : bytes := replicate 600 9.
Definition other_random : bytes := [9; 9; 9; 9].
Definition other_id : unicode := generate_transfer_id other_random.

(** Two downloads of the same name, accepted before either is complete. *)
Definition both_received : Manager :=
  let m1 := offered (empty_manager no_storage) (cp "notes.txt") sample_file sample_random in
  let m2 := offered m1 (cp "notes.txt") other_file other_random in
  let m3 := accepting (accepting m2 sample_id) other_id in
  deliver sample_limits (env_at 0) m3
    [chunk_frame 1; chunk_frame 2; honest_chunk (env_at 0) sample_key other_id other_file 1024 1].

(** Accepting two offers of the same name loses a file: both transfers
    reserve the same destination when they are accepted, both complete and
    report it as the place of their file, and the second [os.replace]
    silently overwrites the first download. *)
Theorem same_name_downloads_overwrite :
  (t_state <$> dget (tm_transfers both_received) sample_id) = Some COMPLETED ∧
  (t_state <$> dget (tm_transfers both_received) other_id) = Some COMPLETED ∧
  (t_saved <$> dget (tm_transfers both_received) sample_id) =
    (t_saved <$> dget (tm_transfers both_received) other_id) ∧
  st_downloads (tm_storage both_received) = [(cp "notes.txt", other_file)].
Proof. split_and!; vm_compute; reflexivity. Qed.

(** One transfer at a time. *)
Definition single : TransferLimits := mkLimits (50 * 1024 * 1024) 1 1024 10 3 (200 * 1024 * 1024) 3600 120 600.

(** One file is offered and two wait in the queue. *)
Definition three_files : Manager :=
  foldl (sends_file single 0) (empty_manager no_storage) [sample_random; other_random; [0; 0; 0; 1]].
Definition promoted : Manager :=
  let m1 := (cancel single (env_at 1) three_files sample_id).2 in
  run_spawned (env_at 1) (run_spawned (env_at 1) m1).

(** The concurrency cap is exceeded: when the only active transfer ends,
    [_promote_queued] schedules an offer for every queued transfer, because
    none of them is active before its offer runs, and two transfers are then
    active under a cap of one. *)
Theorem promotion_exceeds_concurrency :
  active_count three_files = 1%nat ∧ l_max_concurrent single = 1%nat ∧ active_count promoted = 2%nat.
Proof. split_and!; vm_compute; reflexivity. Qed.

(** The first file is offered, the second waits, the third was cancelled; the
    session is lost, so that no key is available any more. *)
Definition no_session (now : Z) : Env := mkEnv None false now now (λ _, []).
Definition third_id : unicode := generate_transfer_id [0; 0; 0; 1].
Definition stalled : Manager := (cancel single (env_at 1) three_files third_id).2.
Definition swept : Manager := run_spawned (no_session 5000) (sweep single (no_session 5000) stalled).2.

(** An expired queued transfer stops the housekeeping: a queued transfer
    may not expire, so that [_settle_terminal] raises out of [_sweep]; every
    sweep ends there, and the transfers behind it (here a cancelled one whose
    time to live is long over) are never visited. *)
Theorem queued_expiry_stops_sweep :
  (sweep single (no_session 5000) stalled).1 = Err TransferStateError ∧
  (sweep single (no_session 9000) swept).1 = Err TransferStateError ∧
  (t_state <$> dget (tm_transfers (sweep single (no_session 9000) swept).2) third_id) = Some CANCELLED.
Proof. split_and!; vm_compute; reflexivity. Qed.
