(* ===== verification/ChatTransfers.v ===== *)
(** * Session events and file transfers

    The transfer manager listens to the events of its chat session and
    recognises them by words of their text.  Here the events the session
    emits are put through the manager's listener. *)

From S2P Require Import Prelude Text Utf8 Primitives Crypto Messages MessageTheorems Json ChannelFrames Handshake ChatSession ChatInvariant ChatDelivery Chunking TransferStorage Transfer.

Open Scope Z_scope.

Lemma contains_infix needle a b : contains needle (a ++ needle ++ b) = true.
Proof.
  induction a as [|c a IH]; cbn [app].
  - unfold contains. destruct (needle ++ b) as [|x l] eqn:E; fold contains; rewrite <- ?E;
      rewrite take_app_length, bool_decide_true by done; done.
  - cbn [contains]. rewrite IH. apply orb_true_r.
Qed.

(** What a call of the session adds to its events. *)
Definition adds (s s' : ChatSession) (es : list ChatEvent) : Prop := cs_events s' = cs_events s ++ es.

Section listening.
Context {P : Primitives} {K : KexPrimitives} (tenv : Transfer.Env).

(** The manager's listener on a session event. *)
Definition listens (m : Manager) (e : ChatEvent) : outcome Manager Chunking.TransferError unit :=
  on_chat_event tenv m (ce_kind e) (ce_detail e).

Lemma listens_connection m detail :
  tm_closing m = false →
  contains (cp "lost") detail || contains (cp "Disconnected") detail || contains (cp "closed") (ascii_lower detail) = true →
  listens m (mkEvent CONNECTION detail None) = auto_pause tenv m.
Proof. intros Hm Hd. unfold listens, on_chat_event. rewrite Hm. cbn [ce_kind ce_detail]. by rewrite Hd. Qed.

Lemma listens_peer m detail :
  tm_closing m = false → contains (cp "left") detail = true → listens m (mkEvent PEER detail None) = auto_pause tenv m.
Proof. intros Hm Hd. unfold listens, on_chat_event. rewrite Hm. cbn [ce_kind ce_detail]. by rewrite Hd. Qed.

(** The session's events reach the transfers: on a live session, losing the
    connection, being disconnected or closed, and the peer leaving each add
    one event, and the manager answers that event by pausing every running
    transfer; the event of a new key makes it drop its transfer keys and
    schedule the recovery of its transfers. *)
Theorem session_events_drive_transfers env s m sec :
  chat_inv s → ln_closing (cs_link s) = false → ln_started (cs_link s) = true → tm_closing m = false →
  (∀ st, st ∈ [RECONNECTING; DISCONNECTED; CLOSED] →
    ∃ e, adds s (on_connection_state env s st).2 [e] ∧ listens m e = auto_pause tenv m) ∧
  (∃ e, adds s (on_peer s (sf_channel (cs_self s)) "left") [e] ∧ listens m e = auto_pause tenv m) ∧
  (∃ e rest, adds s (set_session s sec) (e :: rest) ∧
    listens m e = (Ok tt, Transfer.spawn (wipe_keys m) RecoverTask)).
Proof.
  intros I Hc Hst Hm. split_and!.
  - intros st Hin. rewrite !elem_of_cons, elem_of_nil in Hin. unfold on_connection_state. rewrite Hc. cbv zeta.
    destruct Hin as [-> | [-> | [-> | []]]].
    + exists (mkEvent CONNECTION (cp "Connection lost " ++ dash ++ cp " reconnecting" ++ ellipsis) None).
      split; [|by apply listens_connection; [|vm_compute]].
      set (s1 := cancel_waiters _). assert (I1 : chat_inv s1).
      { apply cancel_waiters_inv. by apply set_link_inv; [apply set_link_inv|..]. }
      destruct (OutboxProofs.requeue_spec (cs_outbox s1) (ev_now env) (oi_box _ _ _ (ci_out _ I1))) as (ob & -> & _).
      assert (He : cs_events s1 = cs_events s) by (subst s1; unfold cancel_waiters; by repeat case_match).
      unfold adds. cbn [snd emit set_events set_outbox cs_events]. by rewrite He.
    + eexists. split; [reflexivity|]. by apply listens_connection; [|vm_compute].
    + eexists. split; [reflexivity|]. by apply listens_connection; [|vm_compute].
  - unfold on_peer. rewrite decide_False by (intros H; by apply H). rewrite Hc, Hst. cbn [negb orb].
    rewrite (decide_False (P := "left" = "joined")), (decide_True (P := "left" = "left")) by done.
    eexists. split; [reflexivity|]. apply listens_peer; [done|].
    pose proof (contains_infix (cp "left") (pe_name (cs_peer s) ++ cp " ") (cp " the conversation")) as Hi.
    rewrite <- app_assoc in Hi. exact Hi.
  - unfold set_session. cbv zeta.
    match goal with |- context [emit ?x SESSION ?d None] => set (det := d); set (s1 := x) end.
    exists (mkEvent SESSION det None).
    exists (if ss_identity_bound sec && bool_decide (is_Some (peer_identity_fingerprint (emit s1 SESSION det None)))
            then [mkEvent NOTICE [] None] else []). split.
    + unfold adds. case_match; cbn [emit set_events cs_events]; [rewrite <- app_assoc; reflexivity|reflexivity].
    + unfold listens, on_chat_event. rewrite Hm. cbn [ce_kind ce_detail].
      assert (Hd : contains (cp "Active") det = true); [|by rewrite Hd].
      exact (contains_infix (cp "Active") (cp "Encryption: ") (cp " " ++ dash ++ cp " safety code " ++ cp (ss_fingerprint sec))).
Qed.

(** A name can pause every transfer: the manager takes any PEER event whose
    text contains the word left for a departure, so a peer called Clefton
    pauses the running transfers by joining. *)
Theorem a_name_can_pause_transfers s m :
  ln_closing (cs_link s) = false → ln_started (cs_link s) = true → tm_closing m = false →
  pe_name (cs_peer s) = cp "Clefton" →
  ∃ e, adds s (on_peer s (sf_channel (cs_self s)) "joined") [e] ∧ listens m e = auto_pause tenv m.
Proof.
  intros Hc Hst Hm Hn. unfold on_peer. rewrite decide_False by (intros H; by apply H). rewrite Hc, Hst, Hn. cbn [negb orb].
  rewrite (decide_True (P := "joined" = "joined")) by done.
  exists (mkEvent PEER (cp "Clefton" ++ cp " joined the conversation") None).
  split; [by case_decide|]. by apply listens_peer; [|vm_compute].
Qed.
End listening.

(** ** Witnesses *)

Definition idle_manager : Manager := mkTM (mkStorage [] []) [] [] [] [] [] [] [] [] false [] [].
Definition no_link : Transfer.Env := mkEnv None false 0 0 (λ _, []).
Definition clefton : ChatSession := set_peer (demo_session HostRole 1 1) (mkPeer (cp "Clefton") None).

Lemma session_events_drive_transfers_witness :
  ∃ e, adds (demo_session HostRole 1 1) (on_connection_state (demo_env 1) (demo_session HostRole 1 1) RECONNECTING).2 [e] ∧
    listens no_link idle_manager e = auto_pause no_link idle_manager.
Proof.
  destruct (session_events_drive_transfers no_link (demo_env 1) (demo_session HostRole 1 1) idle_manager demo_secure) as [H _].
  - by apply demo_session_inv.
  - reflexivity.
  - reflexivity.
  - reflexivity.
  - apply H. left.
Defined.

Lemma a_name_can_pause_transfers_witness :
  ∃ e, adds clefton (on_peer clefton "room" "joined") [e] ∧
    listens no_link idle_manager e = auto_pause no_link idle_manager.
Proof. by apply (a_name_can_pause_transfers no_link clefton idle_manager). Defined.
