(* ===== verification/GaloisField.v ===== *)
(** * The field of the error correction

    The tables of [utils/qr.py] for GF(2^8) with the polynomial 0x11D, and
    multiplication of polynomials over GF(2) modulo it as the reference:
    [gf_mul] multiplies, and multiplication with exclusive or is a field's.
    Laws are proved on the eight powers of two and extended by linearity. *)

From S2P Require Import Prelude Text.

Open Scope Z_scope.

(** ** The tables *)

(** One turn of the loop that fills the tables. *)
Definition xtime (v : Z) : Z :=
  let v := Z.shiftl v 1 in
  if Z.testbit v 8 then Z.lxor v 285 else v.

(** [_GF_EXP] and [_GF_LOG] after the first loop: the values of [_val], and
    the table of their indices. *)
Fixpoint gf_loop (n : nat) (i v : Z) (exp log : list Z) : list Z * list Z :=
  match n with
  | O => (exp, log)
  | S n' => gf_loop n' (i + 1) (xtime v) (<[Z.to_nat i := v]> exp) (<[Z.to_nat v := i]> log)
  end.
Definition gf_first : list Z * list Z := gf_loop 255 0 1 (replicate 512 0) (replicate 256 0).

(** The second loop: [_GF_EXP[i] = _GF_EXP[i - 255]] for [i] from 255. *)
Fixpoint gf_wrap (n : nat) (i : nat) (exp : list Z) : list Z :=
  match n with
  | O => exp
  | S n' => gf_wrap n' (S i) (<[i := nth (i - 255) exp 0]> exp)
  end.

Definition GF_EXP : list Z := Eval vm_compute in gf_wrap 257 255 gf_first.1.
Definition GF_LOG : list Z := Eval vm_compute in gf_first.2.

(** [_gf_mul] *)
Definition gf_mul (x y : Z) : Z :=
  if (x =? 0) || (y =? 0) then 0
  else nth (Z.to_nat (nth (Z.to_nat x) GF_LOG 0 + nth (Z.to_nat y) GF_LOG 0)) GF_EXP 0.

(** ** The reference *)

(** [x * y] modulo the polynomial: the multiples of [x] by the powers of the
    variable that occur in [y] (the lowest [n] of them), added up. *)
Fixpoint pmul_bits (n : nat) (x y : Z) : Z :=
  match n with
  | O => 0
  | S n' => Z.lxor (if Z.testbit y 0 then x else 0) (pmul_bits n' (xtime x) (Z.shiftr y 1))
  end.
Definition pmul (x y : Z) : Z := pmul_bits 8 x y.

(** ** Linearity *)

Definition linear (f : Z → Z) : Prop := ∀ a b, f (Z.lxor a b) = Z.lxor (f a) (f b).

Lemma lxor_swap a b c d : Z.lxor (Z.lxor a b) (Z.lxor c d) = Z.lxor (Z.lxor a c) (Z.lxor b d).
Proof. rewrite !Z.lxor_assoc. f_equal. rewrite <- !Z.lxor_assoc. f_equal. apply Z.lxor_comm. Qed.

Lemma xtime_eq v : xtime v = Z.lxor (Z.shiftl v 1) (if Z.testbit v 7 then 285 else 0).
Proof.
  unfold xtime. rewrite Z.shiftl_spec by lia. change (8 - 1) with 7.
  destruct (Z.testbit v 7); [done|]. by rewrite Z.lxor_0_r.
Qed.

Lemma xtime_linear : linear xtime.
Proof.
  intros a b. rewrite !xtime_eq, Z.shiftl_lxor, Z.lxor_spec, lxor_swap.
  by destruct (Z.testbit a 7), (Z.testbit b 7).
Qed.

Lemma pick_linear (b : bool) x y : (if b then Z.lxor x y else 0) = Z.lxor (if b then x else 0) (if b then y else 0).
Proof. by destruct b. Qed.

Lemma pmul_linear_l y : linear (λ x, pmul x y).
Proof.
  intros a b. unfold pmul. generalize 8%nat. intros n. revert a b y. induction n as [|n IH]; intros a b y; [done|]. cbn [pmul_bits].
  rewrite xtime_linear, IH, lxor_swap, pick_linear. done.
Qed.

Lemma pmul_linear_r x : linear (pmul x).
Proof.
  intros a b. unfold pmul. generalize 8%nat. intros n. revert x a b. induction n as [|n IH]; intros x a b; [done|]. cbn [pmul_bits].
  rewrite Z.shiftr_lxor, IH, Z.lxor_spec, lxor_swap. f_equal.
  destruct (Z.testbit a 0), (Z.testbit b 0); cbn [xorb]; by rewrite ?Z.lxor_nilpotent, ?Z.lxor_0_r, ?Z.lxor_0_l.
Qed.

Lemma linear_0 f : linear f → f 0 = 0.
Proof. intros H. pose proof (H 0 0) as E. rewrite Z.lxor_nilpotent in E. rewrite E at 1. by rewrite Z.lxor_nilpotent. Qed.

(** The powers of two a byte consists of. *)
Definition parts (y : Z) : list Z := filter (λ p, Z.land y p = p) [1; 2; 4; 8; 16; 32; 64; 128].

Lemma parts_sum y : 0 <= y < 256 → foldr Z.lxor 0 (parts y) = y.
Proof.
  intros H. apply Z.eqb_eq. revert y H. apply (forallb_range (λ y, foldr Z.lxor 0 (parts y) =? y) 256).
  by vm_compute.
Qed.

(** Linear functions that agree on the powers of two agree on bytes. *)
Lemma linear_ext f g y :
  linear f → linear g → (∀ p, p ∈ [1; 2; 4; 8; 16; 32; 64; 128] → f p = g p) → 0 <= y < 256 → f y = g y.
Proof.
  intros Hf Hg Hp Hy. rewrite <- (parts_sum y Hy).
  assert (Hsub : Forall (λ p, f p = g p) (parts y)).
  { apply Forall_forall. intros p [_ Hin]%list_elem_of_filter. by apply Hp. }
  induction Hsub as [|p l Hpl _ IH]; cbn [foldr]; [by rewrite !linear_0|]. by rewrite Hf, Hg, IH, Hpl.
Qed.

(** ** The algebra *)

(** Quantify over the powers of two. *)
Definition on_powers (p : Z → bool) : bool := forallb p [1; 2; 4; 8; 16; 32; 64; 128].

Lemma on_powers_spec p : on_powers p = true → ∀ x, x ∈ [1; 2; 4; 8; 16; 32; 64; 128] → p x = true.
Proof. intros H x Hx. unfold on_powers in H. rewrite forallb_forall in H. by apply H, list_elem_of_In. Qed.

Lemma linear_comp f g : linear f → linear g → linear (λ x, f (g x)).
Proof. intros Hf Hg a b. by rewrite Hg, Hf. Qed.

Lemma byte_lxor a b : byte_ok a → byte_ok b → byte_ok (Z.lxor a b).
Proof.
  unfold byte_ok. intros [Ha Ha'] [Hb Hb']. assert (H : 0 <= Z.lxor a b) by (apply Z.lxor_nonneg; lia).
  split; [done|]. destruct (Z.eq_dec (Z.lxor a b) 0) as [->|Hne]; [lia|].
  apply (Z.log2_lt_pow2 _ 8); [lia|]. eapply Z.le_lt_trans; [by apply Z.log2_lxor|].
  apply Z.max_lub_lt; [destruct (Z.eq_dec a 0) as [->|]|destruct (Z.eq_dec b 0) as [->|]]; try (cbn; lia);
    apply Z.log2_lt_pow2; lia.
Qed.

Lemma byte_xtime x : byte_ok x → byte_ok (xtime x).
Proof.
  intros H. assert (E : (0 <=? xtime x) && (xtime x <? 256) = true).
  { revert x H. apply (forallb_range (λ x, (0 <=? xtime x) && (xtime x <? 256)) 256). by vm_compute. }
  apply andb_true_iff in E. unfold byte_ok. lia.
Qed.

Lemma byte_pmul x y : byte_ok x → byte_ok (pmul x y).
Proof.
  unfold pmul. generalize 8%nat. intros n. revert x y. induction n as [|n IH]; intros x y Hx; cbn [pmul_bits].
  - unfold byte_ok. lia.
  - apply byte_lxor; [|by apply IH, byte_xtime]. destruct (Z.testbit y 0); [done|]. unfold byte_ok. lia.
Qed.

Lemma pmul_comm x y : byte_ok x → byte_ok y → pmul x y = pmul y x.
Proof.
  intros Hx Hy. apply (linear_ext (λ x, pmul x y) (pmul y)); [apply pmul_linear_l|apply pmul_linear_r| |done].
  intros p Hp. apply (linear_ext (pmul p) (λ y, pmul y p)); [apply pmul_linear_r|apply pmul_linear_l| |done].
  intros q Hq. apply Z.eqb_eq. revert q Hq. apply on_powers_spec.
  revert p Hp. apply on_powers_spec. by vm_compute.
Qed.

Lemma pmul_assoc x y z : byte_ok x → byte_ok y → byte_ok z → pmul x (pmul y z) = pmul (pmul x y) z.
Proof.
  intros Hx Hy Hz. apply (linear_ext (λ x, pmul x (pmul y z)) (λ x, pmul (pmul x y) z)); [apply pmul_linear_l| | |done].
  { apply (linear_comp (λ w, pmul w z) (λ x, pmul x y)); apply pmul_linear_l. }
  intros p Hp. apply (linear_ext (λ y, pmul p (pmul y z)) (λ y, pmul (pmul p y) z)); [| | |done].
  { apply (linear_comp (pmul p) (λ y, pmul y z)); [apply pmul_linear_r|apply pmul_linear_l]. }
  { apply (linear_comp (λ w, pmul w z) (pmul p)); [apply pmul_linear_l|apply pmul_linear_r]. }
  intros q Hq. apply (linear_ext (λ z, pmul p (pmul q z)) (pmul (pmul p q))); [| | |done].
  { apply (linear_comp (pmul p) (pmul q)); apply pmul_linear_r. }
  { apply pmul_linear_r. }
  intros r Hr. apply Z.eqb_eq. revert r Hr. apply on_powers_spec. revert q Hq. apply on_powers_spec.
  revert p Hp. apply on_powers_spec. by vm_compute.
Qed.

Lemma pmul_1_l x : byte_ok x → pmul 1 x = x.
Proof.
  intros Hx. apply (linear_ext (pmul 1) (λ x, x)); [apply pmul_linear_r|done| |done].
  intros p Hp. apply Z.eqb_eq. revert p Hp. apply on_powers_spec. by vm_compute.
Qed.

Lemma pmul_0_r x : pmul x 0 = 0.
Proof. apply (linear_0 (pmul x)), pmul_linear_r. Qed.
Lemma pmul_0_l x : pmul 0 x = 0.
Proof. apply (linear_0 (λ y, pmul y x)), pmul_linear_l. Qed.

Lemma pmul_2 x : byte_ok x → pmul x 2 = xtime x.
Proof.
  intros Hx. apply (linear_ext (λ x, pmul x 2) xtime); [apply pmul_linear_l|apply xtime_linear| |done].
  intros p Hp. apply Z.eqb_eq. revert p Hp. apply on_powers_spec. by vm_compute.
Qed.

(** ** The tables multiply *)

Definition gexp (n : nat) : Z := nth n GF_EXP 0.

Lemma gexp_byte n : byte_ok (gexp n).
Proof.
  unfold gexp. destruct (nth_in_or_default n GF_EXP 0) as [Hin|Hdef]; [|rewrite Hdef; unfold byte_ok; lia].
  revert Hin. generalize (nth n GF_EXP 0). apply List.Forall_forall, Forall_forall.
  assert (H : forallb (λ x, (0 <=? x) && (x <? 256)) GF_EXP = true) by by vm_compute.
  intros x Hx. rewrite forallb_forall in H. apply list_elem_of_In in Hx. pose proof (H x Hx) as E.
  apply andb_true_iff in E. unfold byte_ok. lia.
Qed.

Lemma gexp_succ n : (n < 511)%nat → gexp (S n) = xtime (gexp n).
Proof.
  intros H. apply Z.eqb_eq.
  pose proof (forallb_range (λ i, gexp (S (Z.to_nat i)) =? xtime (gexp (Z.to_nat i))) 511 ltac:(by vm_compute) (Z.of_nat n)) as Hn.
  cbn beta in Hn. rewrite Nat2Z.id in Hn. apply Hn. lia.
Qed.

Lemma gexp_add i j : (i + j < 512)%nat → gexp (i + j) = pmul (gexp i) (gexp j).
Proof.
  induction j as [|j IH]; intros H.
  - rewrite Nat.add_0_r. change (gexp 0) with 1. rewrite pmul_comm, pmul_1_l; try done; try apply gexp_byte.
  - rewrite Nat.add_succ_r, !gexp_succ by lia. rewrite IH by lia.
    rewrite <- !pmul_2 by (try apply byte_pmul; apply gexp_byte).
    symmetry. apply pmul_assoc; [apply gexp_byte..|]. unfold byte_ok. lia.
Qed.

Lemma glog_spec x : 0 < x < 256 → gexp (Z.to_nat (nth (Z.to_nat x) GF_LOG 0)) = x ∧ 0 <= nth (Z.to_nat x) GF_LOG 0 < 255.
Proof.
  intros H. pose proof (forallb_range (λ x, (x =? 0) || (gexp (Z.to_nat (nth (Z.to_nat x) GF_LOG 0)) =? x) &&
    ((0 <=? nth (Z.to_nat x) GF_LOG 0) && (nth (Z.to_nat x) GF_LOG 0 <? 255))) 256 ltac:(by vm_compute) x ltac:(lia)) as E.
  cbn beta in E. rewrite (proj2 (Z.eqb_neq x 0)) in E by lia. cbn [orb] in E.
  rewrite !andb_true_iff, Z.eqb_eq, Z.leb_le, Z.ltb_lt in E. tauto.
Qed.

(** The table lookup is multiplication modulo the polynomial. *)
Lemma gf_mul_pmul x y : byte_ok x → byte_ok y → gf_mul x y = pmul x y.
Proof.
  unfold byte_ok, gf_mul. intros Hx Hy.
  destruct (Z.eqb_spec x 0) as [->|Hx0]; [by rewrite pmul_0_l|].
  destruct (Z.eqb_spec y 0) as [->|Hy0]; [by rewrite pmul_0_r|]. cbn [orb].
  destruct (glog_spec x) as [Ex Lx]; [lia|]. destruct (glog_spec y) as [Ey Ly]; [lia|].
  rewrite Z2Nat.inj_add by lia. fold (gexp (Z.to_nat (nth (Z.to_nat x) GF_LOG 0) + Z.to_nat (nth (Z.to_nat y) GF_LOG 0))).
  rewrite gexp_add by lia. by rewrite Ex, Ey.
Qed.

(** No zero divisors, and the powers of the generator are distinct. *)
Lemma gexp_nonzero n : (n < 512)%nat → gexp n ≠ 0.
Proof.
  intros H. pose proof (forallb_range (λ i, negb (gexp (Z.to_nat i) =? 0)) 512 ltac:(by vm_compute) (Z.of_nat n) ltac:(lia)) as E.
  cbn beta in E. rewrite Nat2Z.id in E. apply negb_true_iff, Z.eqb_neq in E. done.
Qed.

Lemma pmul_nonzero x y : byte_ok x → byte_ok y → x ≠ 0 → y ≠ 0 → pmul x y ≠ 0.
Proof.
  unfold byte_ok. intros Hx Hy Hx0 Hy0. destruct (glog_spec x) as [Ex Lx]; [lia|]. destruct (glog_spec y) as [Ey Ly]; [lia|].
  rewrite <- Ex, <- Ey, <- gexp_add by lia. apply gexp_nonzero. lia.
Qed.

Lemma gexp_inj i j : (i < 255)%nat → (j < 255)%nat → gexp i = gexp j → i = j.
Proof.
  intros Hi Hj E.
  assert (H : ∀ k, (k < 255)%nat → nth (Z.to_nat (gexp k)) GF_LOG 0 = Z.of_nat k).
  { intros k Hk. pose proof (forallb_range (λ i, nth (Z.to_nat (gexp (Z.to_nat i))) GF_LOG 0 =? i) 255 ltac:(by vm_compute)
      (Z.of_nat k) ltac:(lia)) as Hx. cbn beta in Hx. rewrite Nat2Z.id in Hx. by apply Z.eqb_eq in Hx. }
  pose proof (H i Hi) as Ei. pose proof (H j Hj) as Ej. rewrite E in Ei. lia.
Qed.

(** ** Powers *)

Fixpoint ppow (x : Z) (n : nat) : Z := match n with O => 1 | S n' => pmul x (ppow x n') end.

Lemma byte_1 : byte_ok 1.
Proof. unfold byte_ok. lia. Qed.
Lemma byte_0 : byte_ok 0.
Proof. unfold byte_ok. lia. Qed.
Lemma byte_ppow x n : byte_ok x → byte_ok (ppow x n).
Proof. intros H. destruct n; [apply byte_1|]. by apply byte_pmul. Qed.

Create HintDb gf.
#[export] Hint Resolve byte_lxor byte_pmul byte_xtime byte_1 byte_0 byte_ppow gexp_byte : gf.

Lemma ppow_mul x y n : byte_ok x → byte_ok y → ppow (pmul x y) n = pmul (ppow x n) (ppow y n).
Proof.
  intros Hx Hy. induction n as [|n IH]; [done|]. cbn [ppow]. rewrite IH.
  rewrite <- (pmul_assoc x y), (pmul_assoc y (ppow x n)), (pmul_comm y (ppow x n)), <- (pmul_assoc (ppow x n) y), pmul_assoc;
    auto with gf.
Qed.

Lemma ppow_1 n : ppow 1 n = 1.
Proof. induction n as [|n IH]; [done|]. cbn [ppow]. by rewrite IH. Qed.

(** [(x^i)^m = (x^m)^i] *)
Lemma ppow_swap x i m : byte_ok x → ppow (ppow x i) m = ppow (ppow x m) i.
Proof.
  intros Hx. induction i as [|i IH]; [apply ppow_1|]. cbn [ppow]. by rewrite ppow_mul, IH by auto with gf.
Qed.

Lemma gexp_ppow n : (n < 512)%nat → gexp n = ppow 2 n.
Proof.
  induction n as [|n IH]; intros H; [done|]. rewrite gexp_succ by lia. cbn [ppow].
  rewrite <- pmul_2 by apply gexp_byte. rewrite IH by lia. apply pmul_comm; [|unfold byte_ok; lia].
  apply byte_ppow. unfold byte_ok. lia.
Qed.
