(* ===== verification/ReedSolomon.v ===== *)
(** * Error correction codewords

    [_rs_generator_poly] and [_rs_encode_block] of [utils/qr.py].  A block
    followed by its error correction vanishes at the first powers of the
    generator, and two such words that differ in at most as many places as
    there are correction codewords are equal. *)

From S2P Require Import Prelude Text GaloisField.

Open Scope Z_scope.

(** [a[j] ^= b[j]] for every [j] *)
Definition xor_lists (a b : list Z) : list Z := zip_with Z.lxor a b.

(** One turn of [_rs_generator_poly]. *)
Definition rs_generator_step (poly : list Z) (root : Z) : list Z :=
  xor_lists (poly ++ [0]) (0 :: ((λ p, gf_mul p root) <$> poly)).

(** [_rs_generator_poly] *)
Definition rs_generator_poly (degree : nat) : list Z :=
  foldl (λ poly i, rs_generator_step poly (gexp i)) [1] (seq 0 degree).

(** One turn of [_rs_encode_block]. *)
Definition rs_encode_step (gen rem : list Z) (b : Z) : list Z :=
  let factor := Z.lxor b (hd 0 rem) in
  let rem1 := tail rem ++ [0] in
  if factor =? 0 then rem1 else xor_lists rem1 ((λ g, gf_mul g factor) <$> tail gen).

(** [_rs_encode_block] *)
Definition rs_encode_block (data : list Z) (num_ec : nat) : list Z :=
  foldl (rs_encode_step (rs_generator_poly num_ec)) (replicate num_ec 0) data.

(** ** Evaluation *)

(** The value of a polynomial, highest coefficient first. *)
Definition eval (p : list Z) (r : Z) : Z := foldl (λ acc c, Z.lxor (pmul acc r) c) 0 p.

Lemma byte_eval p r : bytes_ok p → byte_ok r → byte_ok (eval p r).
Proof.
  intros Hp Hr. unfold eval. assert (H : ∀ acc, byte_ok acc → byte_ok (foldl (λ acc c, Z.lxor (pmul acc r) c) acc p)).
  { induction Hp as [|c p Hc _ IH]; intros acc Ha; [done|]. cbn [foldl]. apply IH. auto with gf. }
  apply H, byte_0.
Qed.
#[export] Hint Resolve byte_eval : gf.

Lemma eval_snoc p c r : eval (p ++ [c]) r = Z.lxor (pmul (eval p r) r) c.
Proof. unfold eval. by rewrite foldl_app. Qed.

Lemma eval_app p q r :
  bytes_ok p → bytes_ok q → byte_ok r → eval (p ++ q) r = Z.lxor (pmul (eval p r) (ppow r (length q))) (eval q r).
Proof.
  intros Hp Hq Hr. induction q as [|c q IH] using rev_ind.
  - rewrite app_nil_r. cbn [length ppow]. change (eval [] r) with 0.
    rewrite Z.lxor_0_r, pmul_comm, pmul_1_l; auto with gf.
  - apply Forall_app in Hq as [Hq Hc]. rewrite app_assoc, !eval_snoc, IH by done.
    rewrite length_app, Nat.add_1_r. cbn [ppow]. rewrite (pmul_linear_l r), Z.lxor_assoc. f_equal.
    rewrite <- pmul_assoc by auto with gf. by rewrite (pmul_comm (ppow r _) r) by auto with gf.
Qed.

Lemma eval_cons c p r : byte_ok c → bytes_ok p → byte_ok r → eval (c :: p) r = Z.lxor (pmul c (ppow r (length p))) (eval p r).
Proof.
  intros Hc Hp Hr. change (c :: p) with ([c] ++ p). rewrite eval_app; [|by apply Forall_singleton|done|done].
  change (eval [c] r) with (Z.lxor (pmul 0 r) c). by rewrite pmul_0_l, Z.lxor_0_l.
Qed.

Lemma eval_xor p q r : length p = length q → eval (xor_lists p q) r = Z.lxor (eval p r) (eval q r).
Proof.
  revert q. induction p as [|c p IH] using rev_ind; intros q Hl.
  - destruct q; done.
  - destruct q as [|d q _] using rev_ind; [rewrite length_app in Hl; cbn in Hl; lia|].
    rewrite !length_app in Hl. cbn in Hl. unfold xor_lists in *. rewrite zip_with_app by lia. cbn [zip_with].
    rewrite !eval_snoc, IH by lia. rewrite (pmul_linear_l r). apply lxor_swap.
Qed.

Lemma eval_scale p f r :
  bytes_ok p → byte_ok f → byte_ok r → eval ((λ x, gf_mul x f) <$> p) r = pmul (eval p r) f.
Proof.
  intros Hp Hf Hr. induction p as [|c p IH] using rev_ind; [by rewrite pmul_0_l|].
  apply Forall_app in Hp as [Hp Hc]. apply (proj1 (Forall_singleton _ _)) in Hc. rewrite fmap_app. cbn [fmap list_fmap]. rewrite !eval_snoc, IH by done.
  rewrite gf_mul_pmul, (pmul_linear_l f) by done. f_equal.
  rewrite <- !pmul_assoc by auto with gf. by rewrite (pmul_comm f r).
Qed.

Lemma bytes_xor p q : bytes_ok p → bytes_ok q → bytes_ok (xor_lists p q).
Proof.
  intros Hp. revert q. induction Hp as [|c p Hc _ IH]; intros q Hq; [constructor|].
  destruct Hq; constructor; [auto with gf|by apply IH].
Qed.

Lemma bytes_scale p f : bytes_ok p → byte_ok f → bytes_ok ((λ x, gf_mul x f) <$> p).
Proof.
  intros Hp Hf. apply Forall_fmap. eapply Forall_impl; [exact Hp|]. intros c Hc. change (byte_ok (gf_mul c f)).
  rewrite gf_mul_pmul by done. auto with gf.
Qed.
#[export] Hint Resolve bytes_xor bytes_scale : gf.

(** ** The generator *)

Lemma generator_step_shape poly root :
  bytes_ok poly → byte_ok root →
  bytes_ok (rs_generator_step poly root) ∧ length (rs_generator_step poly root) = S (length poly) ∧
  (∀ r, byte_ok r → eval (rs_generator_step poly root) r = pmul (eval poly r) (Z.lxor r root)) ∧
  (∀ h t, poly = h :: t → byte_ok h → hd 0 (rs_generator_step poly root) = h).
Proof.
  intros Hp Hr. unfold rs_generator_step.
  assert (H0 : bytes_ok (poly ++ [0])) by (apply Forall_app; split; [done|by repeat constructor]).
  assert (H1 : bytes_ok (0 :: ((λ p, gf_mul p root) <$> poly))) by (constructor; [apply byte_0|by apply bytes_scale]).
  assert (Hl : length (poly ++ [0]) = length (0 :: ((λ p, gf_mul p root) <$> poly))).
  { rewrite length_app. cbn [length]. rewrite length_fmap. lia. }
  split; [by apply bytes_xor|]. split; [|split].
  - unfold xor_lists. rewrite length_zip_with, <- Hl, length_app. cbn. lia.
  - intros r Hrr. rewrite eval_xor, eval_snoc by done.
    rewrite eval_cons; [|apply byte_0|auto with gf|done]. rewrite pmul_0_l, !Z.lxor_0_l, Z.lxor_0_r, eval_scale by done.
    symmetry. apply pmul_linear_r.
  - intros h t -> Hh. cbn. apply Z.lxor_0_r.
Qed.

Lemma generator_shape n :
  bytes_ok (rs_generator_poly n) ∧ length (rs_generator_poly n) = S n ∧ hd 0 (rs_generator_poly n) = 1 ∧
  (∀ i, (i < n)%nat → eval (rs_generator_poly n) (gexp i) = 0).
Proof.
  unfold rs_generator_poly. induction n as [|n (Hb & Hl & Hh & Hz)].
  - split; [repeat constructor; lia|]. split; [done|]. split; [done|lia].
  - rewrite seq_S, foldl_app. cbn [foldl Nat.add]. set (poly := foldl _ [1] (seq 0 n)) in *.
    destruct (generator_step_shape poly (gexp n) Hb (gexp_byte n)) as (Hb' & Hl' & He' & Hh').
    split; [done|]. split; [by rewrite Hl', Hl|]. split.
    + destruct poly as [|h t]; [done|]. cbn in Hh. subst h. by rewrite (Hh' 1 t) by auto with gf.
    + intros i Hi. rewrite He' by apply gexp_byte. destruct (decide (i = n)) as [->|Hne].
      * by rewrite Z.lxor_nilpotent, pmul_0_r.
      * rewrite Hz by lia. apply pmul_0_l.
Qed.

(** At a root the tail of the generator has the value of its leading term. *)
Lemma generator_tail n i :
  (i < n)%nat → bytes_ok (tail (rs_generator_poly n)) ∧ length (tail (rs_generator_poly n)) = n ∧
    eval (tail (rs_generator_poly n)) (gexp i) = ppow (gexp i) n.
Proof.
  intros Hi. destruct (generator_shape n) as (Hb & Hl & Hh & Hz). specialize (Hz i Hi).
  destruct (rs_generator_poly n) as [|h t]; [done|]. cbn in Hh, Hl. subst h. apply Forall_cons in Hb as [_ Hb].
  cbn [tail]. split; [done|]. split; [lia|]. rewrite eval_cons in Hz by auto with gf.
  replace (length t) with n in Hz by lia. rewrite pmul_1_l in Hz by auto with gf.
  symmetry. by apply Z.lxor_eq.
Qed.

(** ** Encoding *)

Lemma encode_step_shape n rem b :
  (0 < n)%nat → bytes_ok rem → length rem = n → byte_ok b →
  let rem' := rs_encode_step (rs_generator_poly n) rem b in
  bytes_ok rem' ∧ length rem' = n ∧
  ∀ i, (i < n)%nat →
    eval rem' (gexp i) = Z.lxor (pmul (eval rem (gexp i)) (gexp i)) (pmul b (ppow (gexp i) n)).
Proof.
  intros Hn Hr Hl Hb rem'. destruct rem as [|h t]; [cbn in Hl; lia|]. cbn [length] in Hl.
  apply Forall_cons in Hr as [Hh Ht]. destruct (generator_tail n 0 Hn) as (Hg & Hgl & _).
  assert (Hf : byte_ok (Z.lxor b h)) by auto with gf.
  assert (Ht0 : bytes_ok (t ++ [0])) by (apply Forall_app; split; [done|apply Forall_singleton, byte_0]).
  assert (E : rem' = xor_lists (t ++ [0]) ((λ g, gf_mul g (Z.lxor b h)) <$> tail (rs_generator_poly n))).
  { subst rem'. unfold rs_encode_step. cbn [hd tail]. destruct (Z.eqb_spec (Z.lxor b h) 0) as [E0|]; [|done].
    rewrite E0. symmetry. unfold xor_lists. apply list_eq. intros i. rewrite lookup_zip_with.
    destruct ((t ++ [0]) !! i) as [x|] eqn:Hx; [|done]. cbn. rewrite list_lookup_fmap.
    assert (Hi : (i < length (tail (rs_generator_poly n)))%nat).
    { apply lookup_lt_Some in Hx. rewrite length_app in Hx. cbn in Hx. lia. }
    apply lookup_lt_is_Some in Hi as [g ->]. cbn. unfold gf_mul. rewrite orb_true_r. by rewrite Z.lxor_0_r. }
  rewrite E. split; [by apply bytes_xor; [|apply bytes_scale]|]. split.
  - unfold xor_lists. rewrite length_zip_with, length_app, length_fmap, Hgl. cbn. lia.
  - intros i Hi. destruct (generator_tail n i Hi) as (_ & _ & He).
    rewrite eval_xor by (rewrite length_app, length_fmap, Hgl; cbn; lia).
    rewrite eval_snoc, Z.lxor_0_r, eval_scale, He by auto with gf.
    rewrite eval_cons by auto with gf. rewrite (pmul_linear_l (gexp i)).
    rewrite (pmul_comm (ppow (gexp i) n)) by auto with gf. rewrite (pmul_linear_l (ppow (gexp i) n)).
    replace n with (S (length t)) by lia. cbn [ppow].
    rewrite <- (pmul_assoc h (ppow (gexp i) (length t))) by auto with gf.
    rewrite (pmul_comm (ppow (gexp i) (length t)) (gexp i)) by auto with gf.
    set (A := pmul (eval t (gexp i)) (gexp i)). set (B := pmul b _). set (C := pmul h _).
    rewrite (Z.lxor_comm B C), <- !Z.lxor_assoc. f_equal. apply Z.lxor_comm.
Qed.

(** The remainder of what has been read. *)
Lemma encode_loop n : (0 < n)%nat → ∀ data, bytes_ok data →
  let rem := foldl (rs_encode_step (rs_generator_poly n)) (replicate n 0) data in
  bytes_ok rem ∧ length rem = n ∧
  ∀ i, (i < n)%nat → eval rem (gexp i) = pmul (eval data (gexp i)) (ppow (gexp i) n).
Proof.
  intros Hn data. induction data as [|b data IH] using rev_ind; intros Hd.
  - cbn [foldl]. split; [apply Forall_replicate, byte_0|]. split; [apply length_replicate|]. intros i Hi.
    change (eval [] (gexp i)) with 0. rewrite pmul_0_l. clear. induction n as [|n IH]; [done|].
    rewrite replicate_S_end, eval_snoc, IH, pmul_0_l. done.
  - apply Forall_app in Hd as [Hd Hb]. apply (proj1 (Forall_singleton _ _)) in Hb. destruct (IH Hd) as (I1 & I2 & I3).
    rewrite foldl_app. cbn [foldl]. set (rem := foldl _ _ data) in *.
    destruct (encode_step_shape n rem b Hn I1 I2 Hb) as (J1 & J2 & J3). split; [done|]. split; [done|].
    intros i Hi. rewrite J3, I3, eval_snoc by done. rewrite (pmul_linear_l (ppow (gexp i) n)). f_equal.
    rewrite <- !pmul_assoc by auto with gf. by rewrite (pmul_comm (gexp i)) by auto with gf.
Qed.

Lemma rs_codeword data n :
  (0 < n)%nat → bytes_ok data →
  bytes_ok (rs_encode_block data n) ∧ length (rs_encode_block data n) = n ∧
  ∀ i, (i < n)%nat → eval (data ++ rs_encode_block data n) (gexp i) = 0.
Proof.
  intros Hn Hd. destruct (encode_loop n Hn data Hd) as (H1 & H2 & H3). unfold rs_encode_block.
  split; [done|]. split; [done|]. intros i Hi. rewrite eval_app, H2, H3 by auto with gf. apply Z.lxor_nilpotent.
Qed.

(** ** Distance *)

(** [sum of e * X^i] over pairs [(e, X)] *)
Definition psum (l : list (Z * Z)) (i : nat) : Z := foldr (λ p acc, Z.lxor (pmul p.1 (ppow p.2 i)) acc) 0 l.

Lemma psum_cons e X l i : psum ((e, X) :: l) i = Z.lxor (pmul e (ppow X i)) (psum l i).
Proof. done. Qed.

Definition pairs_ok (l : list (Z * Z)) : Prop := Forall (λ p, byte_ok p.1 ∧ byte_ok p.2) l.

Lemma byte_psum l i : pairs_ok l → byte_ok (psum l i).
Proof. induction 1 as [|p l [H1 H2] _ IH]; [apply byte_0|]. cbn [psum foldr]. auto with gf. Qed.

(** Eliminating the term of [X]. *)
Lemma psum_eliminate X l i :
  byte_ok X → pairs_ok l →
  Z.lxor (psum l (S i)) (pmul X (psum l i)) = psum ((λ p, (pmul p.1 (Z.lxor p.2 X), p.2)) <$> l) i.
Proof.
  intros HX Hl. induction Hl as [|p l [H1 H2] Hl IH]; [by rewrite pmul_0_r|].
  rewrite fmap_cons. cbn [psum foldr fst snd]. fold (psum l (S i)) (psum l i). fold (psum ((λ p, (pmul p.1 (Z.lxor p.2 X), p.2)) <$> l) i).
  rewrite (pmul_linear_r X), lxor_swap, IH. f_equal. cbn [ppow].
  rewrite (pmul_linear_r p.1), (pmul_linear_l (ppow p.2 i)).
  rewrite <- (pmul_assoc p.1 p.2) by auto with gf. f_equal.
  rewrite pmul_assoc, (pmul_comm X p.1) by auto with gf. done.
Qed.

(** Vanishing power sums of few terms have no terms. *)
Lemma psum_zero n : ∀ l, pairs_ok l → NoDup l.*2 → (length l <= n)%nat →
  (∀ i, (i < n)%nat → psum l i = 0) → Forall (λ p, p.1 = 0) l.
Proof.
  induction n as [|n IH]; intros l Hok Hnd Hlen Hz; [by destruct l; [|cbn in Hlen; lia]|].
  destruct l as [|[e X] l]; [done|]. apply Forall_cons in Hok as [[He HX] Hok]. cbn [fst snd] in *.
  rewrite fmap_cons in Hnd. apply NoDup_cons in Hnd as [Hnot Hnd].
  assert (Hl : Forall (λ p, p.1 = 0) l).
  { set (l' := (λ p, (pmul p.1 (Z.lxor p.2 X), p.2)) <$> l).
    assert (Hz' : Forall (λ p, p.1 = 0) l').
    { apply IH.
      - apply Forall_fmap. eapply Forall_impl; [exact Hok|]. intros p [H1 H2]. split; [by apply byte_pmul|done].
      - subst l'. rewrite <- list_fmap_compose. exact Hnd.
      - subst l'. rewrite length_fmap. cbn [length] in Hlen. lia.
      - intros i Hi. subst l'. rewrite <- psum_eliminate by done.
        pose proof (Hz i ltac:(lia)) as E0. pose proof (Hz (S i) ltac:(lia)) as E1. rewrite psum_cons in E0, E1.
        cbn [ppow] in E1. apply Z.lxor_eq in E0, E1. rewrite <- E1, <- E0.
        rewrite pmul_assoc, (pmul_comm e X), <- pmul_assoc by auto with gf. apply Z.lxor_nilpotent. }
    rewrite Forall_forall in *. intros [e' X'] Hin. specialize (Hz' (pmul e' (Z.lxor X' X), X')).
    destruct (Hok _ Hin) as [H1 H2]. cbn [fst snd] in *.
    destruct (Z.eq_dec e' 0) as [|Hne]; [done|]. exfalso.
    apply (pmul_nonzero e' (Z.lxor X' X)); [done|auto with gf|done| |].
    - intros E%Z.lxor_eq. apply Hnot. subst X'. apply list_elem_of_fmap. by exists (e', X).
    - apply Hz'. subst l'. apply list_elem_of_fmap. by exists (e', X'). }
  constructor; [|done]. cbn [fst]. pose proof (Hz 0%nat ltac:(lia)) as E. rewrite psum_cons in E. cbn [ppow] in E.
  rewrite pmul_comm, pmul_1_l in E by auto with gf.
  assert (E0 : psum l 0 = 0).
  { clear -Hl. induction Hl as [|p l Hp _ IH]; [done|]. cbn [psum foldr]. fold (psum l 0). by rewrite IH, Hp, pmul_0_l. }
  by rewrite E0, Z.lxor_0_r in E.
Qed.

(** Each coefficient with the power of the generator at its place. *)
Definition located (p : list Z) : list (Z * Z) := zip p (gexp <$> reverse (seq 0 (length p))).

Lemma located_cons c p : located (c :: p) = (c, gexp (length p)) :: located p.
Proof. unfold located. cbn [length]. rewrite seq_S, reverse_snoc. done. Qed.

Lemma located_ok p : bytes_ok p → pairs_ok (located p).
Proof.
  induction 1 as [|c p Hc _ IH]; [constructor|]. rewrite located_cons. constructor; [|done]. split; [done|apply gexp_byte].
Qed.

Lemma eval_located p i : bytes_ok p → (length p <= 512)%nat → (i < 512)%nat → eval p (gexp i) = psum (located p) i.
Proof.
  intros Hp Hl Hi. induction Hp as [|c p Hc Hp IH]; [done|]. cbn [length] in Hl.
  rewrite located_cons, eval_cons by auto with gf. cbn [psum foldr fst snd]. fold (psum (located p) i).
  rewrite <- IH by lia. do 2 f_equal. rewrite (gexp_ppow i), (gexp_ppow (length p)) by lia. apply ppow_swap.
  unfold byte_ok. lia.
Qed.

Lemma located_places p : (length p <= 255)%nat → NoDup (located p).*2.
Proof.
  induction p as [|c p IH]; intros Hl; [constructor|]. cbn [length] in Hl. rewrite located_cons, fmap_cons. cbn [snd].
  apply NoDup_cons. split; [|apply IH; lia]. intros Hin.
  assert (H : ∀ X, X ∈ (located p).*2 → ∃ j, (j < length p)%nat ∧ X = gexp j).
  { clear. induction p as [|c p IH]; intros X HX; [by apply elem_of_nil in HX|]. rewrite located_cons, fmap_cons in HX.
    cbn [snd length] in *. apply elem_of_cons in HX as [->|HX]; [exists (length p); split; [lia|done]|].
    destruct (IH X HX) as (j & Hj & ->). exists j. split; [lia|done]. }
  destruct (H _ Hin) as (j & Hj & E). apply gexp_inj in E; lia.
Qed.

(** The number of places where two words differ. *)
Definition differences {A} `{EqDecision A} (a b : list A) : nat := length (filter (λ p, p.1 ≠ p.2) (zip a b)).

Lemma psum_filter l i : psum (filter (λ p, p.1 ≠ 0) l) i = psum l i.
Proof.
  induction l as [|p l IH]; [done|]. rewrite filter_cons. case_decide as Hd; cbn [psum foldr].
  - fold (psum (filter (λ p, p.1 ≠ 0) l) i) (psum l i). by rewrite IH.
  - fold (psum l i). destruct (Z.eq_dec p.1 0) as [->|Hne]; [|by destruct Hd]. by rewrite pmul_0_l, IH.
Qed.

Lemma located_differences a b :
  length a = length b → length (filter (λ p, p.1 ≠ 0) (located (xor_lists a b))) = differences a b.
Proof.
  unfold differences. revert b. induction a as [|x a IH]; intros [|y b] Hl; try done. cbn [xor_lists zip_with].
  fold (xor_lists a b). rewrite located_cons. cbn [zip zip_with]. rewrite !filter_cons. cbn [fst snd].
  injection Hl as Hl. specialize (IH b Hl). unfold zip in *.
  destruct (decide (x = y)) as [->|Hne].
  - rewrite decide_False by (rewrite Z.lxor_nilpotent; tauto). rewrite decide_False by tauto. done.
  - rewrite decide_True by (intros E%Z.lxor_eq; done). rewrite decide_True by done. cbn [length]. by f_equal.
Qed.

(** Two words that vanish at the first [n] powers and differ in at most [n]
    places are equal. *)
Lemma rs_distance n a b :
  (length a <= 255)%nat → length a = length b → bytes_ok a → bytes_ok b → (n <= 255)%nat →
  (∀ i, (i < n)%nat → eval a (gexp i) = 0) → (∀ i, (i < n)%nat → eval b (gexp i) = 0) →
  (differences a b <= n)%nat → a = b.
Proof.
  intros Hla Hl Ha Hb Hn Za Zb Hd. set (d := xor_lists a b).
  assert (Hld : length d = length a) by (unfold d, xor_lists; rewrite length_zip_with; lia).
  assert (Hdok : bytes_ok d) by by apply bytes_xor.
  assert (Hzero : Forall (λ p, p.1 = 0) (filter (λ p, p.1 ≠ 0) (located d))).
  { apply (psum_zero n).
    - apply Forall_forall. intros p Hp. apply list_elem_of_filter in Hp as [_ Hp].
      pose proof (located_ok d Hdok) as Hok. unfold pairs_ok in Hok. rewrite Forall_forall in Hok. by apply Hok.
    - eapply sublist_NoDup; [exact (located_places d ltac:(lia))|]. apply fmap_sublist, sublist_filter.
    - unfold d. by rewrite located_differences.
    - intros i Hi. rewrite psum_filter, <- eval_located by (try done; lia). unfold d. rewrite eval_xor by done.
      by rewrite Za, Zb. }
  assert (Hall : Forall (λ x, x = 0) d).
  { clear -Hzero. induction d as [|x d IH]; [constructor|]. rewrite located_cons, filter_cons in Hzero. cbn [fst] in Hzero.
    case_decide as Hx; [apply Forall_cons in Hzero as [H0 Hzero]; by destruct (Hx H0)|].
    constructor; [|by apply IH]. destruct (Z.eq_dec x 0); [done|by destruct Hx]. }
  clear -Hall Hl. subst d. revert b Hl Hall. induction a as [|x a IH]; intros [|y b] Hl Hall; try done.
  cbn [xor_lists zip_with] in Hall. apply Forall_cons in Hall as [E%Z.lxor_eq Hall]. subst y. f_equal. apply IH; [by injection Hl|done].
Qed.

Lemma differences_triangle {A} `{EqDecision A} (a b c : list A) :
  length a = length b → length b = length c → (differences a c <= differences b a + differences b c)%nat.
Proof.
  unfold differences. revert b c. induction a as [|x a IH]; intros [|y b] [|z c] H1 H2; try done.
  injection H1 as H1. injection H2 as H2. specialize (IH b c H1 H2). unfold zip in *. cbn [zip_with]. rewrite !filter_cons. cbn [fst snd].
  destruct (decide (x ≠ z)), (decide (y ≠ x)), (decide (y ≠ z)); cbn [length] in *; try lia.
  exfalso. naive_solver.
Qed.

Lemma differences_refl {A} `{EqDecision A} (a : list A) : differences a a = 0%nat.
Proof.
  unfold differences, zip. induction a as [|x a IH]; [done|]. cbn [zip_with]. rewrite filter_cons. cbn [fst snd].
  by rewrite decide_False by tauto.
Qed.
