(* ===== verification/QR.v ===== *)
(** * QR symbols

    [utils/qr.py]: the tables, the choice of the version, the data
    codewords, the function patterns, the placement of the bits with a mask,
    the penalty that chooses the mask, and the rendering.  A matrix is a list
    of rows of cells, [None] where nothing is placed yet; every index the
    code writes lies within the symbol.  The fraction of dark modules is
    computed exactly: the size is odd, so its floating-point value cannot
    cross a multiple of five. *)

From S2P Require Import Prelude Text Utf8 GaloisField ReedSolomon.

(** ** Tables *)

Inductive QRECLevel := EC_L | EC_M | EC_Q | EC_H.

#[export] Instance QRECLevel_eq_dec : EqDecision QRECLevel.
Proof. solve_decision. Defined.

(** [_ALIGNMENT_POSITIONS] *)
Definition ALIGNMENT_POSITIONS : list (list Z) :=
  [[]; [6; 18]; [6; 22]; [6; 26]; [6; 30]; [6; 34]; [6; 22; 38]; [6; 24; 42]; [6; 26; 46]; [6; 28; 50];
   [6; 30; 54]; [6; 32; 58]; [6; 34; 62]; [6; 26; 46; 66]; [6; 26; 48; 70]; [6; 26; 50; 74]; [6; 30; 54; 78];
   [6; 30; 56; 82]; [6; 30; 58; 86]; [6; 34; 62; 90]; [6; 28; 50; 72; 94]; [6; 26; 50; 74; 98];
   [6; 30; 54; 78; 102]; [6; 28; 54; 80; 106]; [6; 32; 58; 84; 110]; [6; 30; 58; 86; 114];
   [6; 34; 62; 90; 118]; [6; 26; 50; 74; 98; 122]; [6; 30; 54; 78; 102; 126]; [6; 26; 52; 78; 104; 130];
   [6; 30; 56; 82; 108; 134]; [6; 34; 60; 86; 112; 138]; [6; 30; 58; 86; 114; 142]; [6; 34; 62; 90; 118; 146];
   [6; 30; 54; 78; 102; 126; 150]; [6; 24; 50; 76; 102; 128; 154]; [6; 28; 54; 80; 106; 132; 158];
   [6; 32; 58; 84; 110; 136; 162]; [6; 26; 54; 82; 110; 138; 166]; [6; 30; 58; 86; 114; 142; 170]].

(** [_RS_BLOCK_TABLE] *)
Definition RS_BLOCK_TABLE : list (list nat) :=
  [[1; 26; 19]; [1; 26; 16]; [1; 26; 13]; [1; 26; 9]; [1; 44; 34]; [1; 44; 28]; [1; 44; 22]; [1; 44; 16];
   [1; 70; 55]; [1; 70; 44]; [2; 35; 17]; [2; 35; 13]; [1; 100; 80]; [2; 50; 32]; [2; 50; 24]; [4; 25; 9];
   [1; 134; 108]; [2; 67; 43]; [2; 33; 15; 2; 34; 16]; [2; 33; 11; 2; 34; 12]; [2; 86; 68]; [4; 43; 27];
   [4; 43; 19]; [4; 43; 15]; [2; 98; 78]; [4; 49; 31]; [2; 32; 14; 4; 33; 15]; [4; 39; 13; 1; 40; 14];
   [2; 121; 97]; [2; 60; 38; 2; 61; 39]; [4; 40; 18; 2; 41; 19]; [4; 40; 14; 2; 41; 15]; [2; 146; 116];
   [3; 58; 36; 2; 59; 37]; [4; 36; 16; 4; 37; 17]; [4; 36; 12; 4; 37; 13]; [2; 86; 68; 2; 87; 69];
   [4; 69; 43; 1; 70; 44]; [6; 43; 19; 2; 44; 20]; [6; 43; 15; 2; 44; 16]; [4; 101; 81];
   [1; 80; 50; 4; 81; 51]; [4; 50; 22; 4; 51; 23]; [3; 36; 12; 8; 37; 13]; [2; 116; 92; 2; 117; 93];
   [6; 58; 36; 2; 59; 37]; [4; 46; 20; 6; 47; 21]; [7; 42; 14; 4; 43; 15]; [4; 133; 107];
   [8; 59; 37; 1; 60; 38]; [8; 44; 20; 4; 45; 21]; [12; 33; 11; 4; 34; 12]; [3; 145; 115; 1; 146; 116];
   [4; 64; 40; 5; 65; 41]; [11; 36; 16; 5; 37; 17]; [11; 36; 12; 5; 37; 13]; [5; 109; 87; 1; 110; 88];
   [5; 65; 41; 5; 66; 42]; [5; 54; 24; 7; 55; 25]; [11; 36; 12; 7; 37; 13]; [5; 122; 98; 1; 123; 99];
   [7; 73; 45; 3; 74; 46]; [15; 43; 19; 2; 44; 20]; [3; 45; 15; 13; 46; 16]; [1; 135; 107; 5; 136; 108];
   [10; 74; 46; 1; 75; 47]; [1; 50; 22; 15; 51; 23]; [2; 42; 14; 17; 43; 15]; [5; 150; 120; 1; 151; 121];
   [9; 69; 43; 4; 70; 44]; [17; 50; 22; 1; 51; 23]; [2; 42; 14; 19; 43; 15]; [3; 141; 113; 4; 142; 114];
   [3; 70; 44; 11; 71; 45]; [17; 47; 21; 4; 48; 22]; [9; 39; 13; 16; 40; 14]; [3; 135; 107; 5; 136; 108];
   [3; 67; 41; 13; 68; 42]; [15; 54; 24; 5; 55; 25]; [15; 43; 15; 10; 44; 16]; [4; 144; 116; 4; 145; 117];
   [17; 68; 42]; [17; 50; 22; 6; 51; 23]; [19; 46; 16; 6; 47; 17]; [2; 139; 111; 7; 140; 112]; [17; 74; 46];
   [7; 54; 24; 16; 55; 25]; [34; 37; 13]; [4; 151; 121; 5; 152; 122]; [4; 75; 47; 14; 76; 48];
   [11; 54; 24; 14; 55; 25]; [16; 45; 15; 14; 46; 16]; [6; 147; 117; 4; 148; 118]; [6; 73; 45; 14; 74; 46];
   [11; 54; 24; 16; 55; 25]; [30; 46; 16; 2; 47; 17]; [8; 132; 106; 4; 133; 107]; [8; 75; 47; 13; 76; 48];
   [7; 54; 24; 22; 55; 25]; [22; 45; 15; 13; 46; 16]; [10; 142; 114; 2; 143; 115]; [19; 74; 46; 4; 75; 47];
   [28; 50; 22; 6; 51; 23]; [33; 46; 16; 4; 47; 17]; [8; 152; 122; 4; 153; 123]; [22; 73; 45; 3; 74; 46];
   [8; 53; 23; 26; 54; 24]; [12; 45; 15; 28; 46; 16]; [3; 147; 117; 10; 148; 118]; [3; 73; 45; 23; 74; 46];
   [4; 54; 24; 31; 55; 25]; [11; 45; 15; 31; 46; 16]; [7; 146; 116; 7; 147; 117]; [21; 73; 45; 7; 74; 46];
   [1; 53; 23; 37; 54; 24]; [19; 45; 15; 26; 46; 16]; [5; 145; 115; 10; 146; 116]; [19; 75; 47; 10; 76; 48];
   [15; 54; 24; 25; 55; 25]; [23; 45; 15; 25; 46; 16]; [13; 145; 115; 3; 146; 116]; [2; 74; 46; 29; 75; 47];
   [42; 54; 24; 1; 55; 25]; [23; 45; 15; 28; 46; 16]; [17; 145; 115]; [10; 74; 46; 23; 75; 47];
   [10; 54; 24; 35; 55; 25]; [19; 45; 15; 35; 46; 16]; [17; 145; 115; 1; 146; 116]; [14; 74; 46; 21; 75; 47];
   [29; 54; 24; 19; 55; 25]; [11; 45; 15; 46; 46; 16]; [13; 145; 115; 6; 146; 116]; [14; 74; 46; 23; 75; 47];
   [44; 54; 24; 7; 55; 25]; [59; 46; 16; 1; 47; 17]; [12; 151; 121; 7; 152; 122]; [12; 75; 47; 26; 76; 48];
   [39; 54; 24; 14; 55; 25]; [22; 45; 15; 41; 46; 16]; [6; 151; 121; 14; 152; 122]; [6; 75; 47; 34; 76; 48];
   [46; 54; 24; 10; 55; 25]; [2; 45; 15; 64; 46; 16]; [17; 152; 122; 4; 153; 123]; [29; 74; 46; 14; 75; 47];
   [49; 54; 24; 10; 55; 25]; [24; 45; 15; 46; 46; 16]; [4; 152; 122; 18; 153; 123]; [13; 74; 46; 32; 75; 47];
   [48; 54; 24; 14; 55; 25]; [42; 45; 15; 32; 46; 16]; [20; 147; 117; 4; 148; 118]; [40; 75; 47; 7; 76; 48];
   [43; 54; 24; 22; 55; 25]; [10; 45; 15; 67; 46; 16]; [19; 148; 118; 6; 149; 119]; [18; 75; 47; 31; 76; 48];
   [34; 54; 24; 34; 55; 25]; [20; 45; 15; 61; 46; 16]]%nat.

Open Scope Z_scope.

(** [_EC_OFFSETS], [_EC_INDICATORS] *)
Definition EC_OFFSETS (ec : QRECLevel) : nat := match ec with EC_L => 0 | EC_M => 1 | EC_Q => 2 | EC_H => 3 end.
Definition EC_INDICATORS (ec : QRECLevel) : Z := match ec with EC_L => 1 | EC_M => 0 | EC_Q => 3 | EC_H => 2 end.

(** ** Blocks and versions *)

Fixpoint blocks_of (entry : list nat) : list (nat * nat) :=
  match entry with
  | count :: total :: data :: entry' => replicate count (total, data) ++ blocks_of entry'
  | _ => []
  end.

(** [_get_rs_blocks], for a version from 1 to 40 *)
Definition get_rs_blocks (version : nat) (ec : QRECLevel) : list (nat * nat) :=
  blocks_of (nth ((version - 1) * 4 + EC_OFFSETS ec) RS_BLOCK_TABLE []).

Definition total_data (blocks : list (nat * nat)) : nat := list_sum blocks.*2.

(** [8 if version < 10 else 16] *)
Definition char_count_bits (version : nat) : nat := if (version <? 10)%nat then 8 else 16.

Definition fits (len version : nat) (ec : QRECLevel) : bool :=
  (4 + char_count_bits version + len * 8 <=? total_data (get_rs_blocks version ec) * 8)%nat.

(** [_find_min_version]; [None] is the [ValueError]. *)
Definition find_min_version (len : nat) (ec : QRECLevel) : option nat :=
  List.find (λ v, fits len v ec) (seq 1 40).

(** ** Format and version information *)

(** [for i in range(hi, lo - 1, -1): if (b >> i) & 1: b ^= g << (i - lo)] *)
Definition bch_reduce (g hi lo b : Z) : Z :=
  foldl (λ b i, if Z.land (Z.shiftr b i) 1 =? 1 then Z.lxor b (Z.shiftl g (i - lo)) else b) b
    (reverse (seqZ lo (hi - lo + 1))).

(** [_bch_format_info] *)
Definition bch_format_info (ec : QRECLevel) (mask_idx : Z) : Z :=
  let d := Z.lor (Z.shiftl (EC_INDICATORS ec) 3) mask_idx in
  let b := bch_reduce 1335 14 10 (Z.shiftl d 10) in
  Z.lxor (Z.lor (Z.shiftl d 10) b) 21522.

(** [_bch_version_info] *)
Definition bch_version_info (version : Z) : Z :=
  let d := bch_reduce 7973 17 12 (Z.shiftl version 12) in
  Z.lor (Z.shiftl version 12) d.

(** ** Data codewords *)

(** [(x >> i) & 1] for [i] from [n - 1] down to 0 *)
Definition bits_of (n : nat) (x : Z) : list Z :=
  (λ i, Z.land (Z.shiftr x (Z.of_nat i)) 1) <$> reverse (seq 0 n).

(** Steps 1 to 3: mode, count, data, terminator (a negative number of zeros
    is none), zeros up to a whole byte. *)
Definition bit_stream (version total_data_bytes : nat) (data : bytes) : list Z :=
  let bits := [0; 1; 0; 0] ++ bits_of (char_count_bits version) (Z.of_nat (length data))
                ++ (data ≫= bits_of 8) in
  let bits := bits ++ replicate (Nat.min 4 (total_data_bytes * 8 - length bits)) 0 in
  bits ++ replicate ((8 - length bits mod 8) mod 8) 0.

(** [cw = (cw << 1) | bit] over the bits *)
Definition bits_value (bits : list Z) : Z := foldl (λ cw b, Z.lor (Z.shiftl cw 1) b) 0 bits.

(** Step 4: eight bits to a codeword. *)
Fixpoint codewords_of (n : nat) (bits : list Z) : list Z :=
  match n with
  | O => []
  | S n' => bits_value (take 8 bits) :: codewords_of n' (drop 8 bits)
  end.

(** Step 5: the pad bytes, alternating. *)
Fixpoint pads (n : nat) (a b : Z) : list Z :=
  match n with O => [] | S n' => a :: pads n' b a end.

Definition data_codewords (version total_data_bytes : nat) (data : bytes) : list Z :=
  let bits := bit_stream version total_data_bytes data in
  let cws := codewords_of (length bits / 8) bits in
  cws ++ pads (total_data_bytes - length cws) 236 17.

(** ** Blocks *)

(** Step 6: the data of each block and its error correction. *)
Fixpoint split_blocks (blocks : list (nat * nat)) (cws : list Z) : list (list Z * list Z) :=
  match blocks with
  | [] => []
  | (total_c, data_c) :: blocks' =>
      let block_dc := take data_c cws in
      (block_dc, rs_encode_block block_dc (total_c - data_c)) :: split_blocks blocks' (drop data_c cws)
  end.

(** [for i in range(n): for block in blocks: if i < len(block): append(block[i])] *)
Definition interleave (n : nat) (blocks : list (list Z)) : list Z :=
  seq 0 n ≫= λ i, omap (λ b : list Z, b !! i) blocks.

(** Step 7 *)
Definition interleaved (blocks : list (nat * nat)) (cws : list Z) : list Z :=
  let max_dc := foldr Nat.max 0%nat blocks.*2 in
  let max_ec := foldr Nat.max 0%nat ((λ b : nat * nat, (b.1 - b.2)%nat) <$> blocks) in
  let bs := split_blocks blocks cws in
  interleave max_dc bs.*1 ++ interleave max_ec bs.*2.

(** ** The matrix *)

(** A module: [None] when nothing is placed there. *)
Notation matrix := (list (list (option bool))).

Definition cell (m : matrix) (r c : Z) : option (option bool) := m !! Z.to_nat r ≫= λ row, row !! Z.to_nat c.

(** [m[r][c] = v] *)
Definition mset (r c : Z) (v : bool) (m : matrix) : matrix :=
  alter (λ row, <[Z.to_nat c := Some v]> row) (Z.to_nat r) m.

Definition blank (size : Z) : matrix := replicate (Z.to_nat size) (replicate (Z.to_nat size) None).

Definition add_finder (size r c : Z) (m : matrix) : matrix :=
  foldl (λ m '(dr, dc),
    let rr := r + dr in let cc := c + dc in
    if (0 <=? rr) && (rr <? size) && (0 <=? cc) && (cc <? size) then
      mset rr cc (((0 <=? dr) && (dr <=? 6) && ((dc =? 0) || (dc =? 6)))
                  || ((0 <=? dc) && (dc <=? 6) && ((dr =? 0) || (dr =? 6)))
                  || ((2 <=? dr) && (dr <=? 4) && (2 <=? dc) && (dc <=? 4))) m
    else m) m (list_prod (seqZ (-1) 9) (seqZ (-1) 9)).

Definition add_alignment (pr pc : Z) (m : matrix) : matrix :=
  match cell m pr pc with
  | Some (Some _) => m
  | _ =>
      foldl (λ m '(dr, dc),
        mset (pr + dr) (pc + dc)
          ((dr =? -2) || (dr =? 2) || ((dc =? -2) || (dc =? 2)) || ((dr =? 0) && (dc =? 0))) m)
        m (list_prod (seqZ (-2) 5) (seqZ (-2) 5))
  end.

Definition add_alignments (version : nat) (m : matrix) : matrix :=
  let pos := nth (version - 1) ALIGNMENT_POSITIONS [] in
  foldl (λ m '(pr, pc), add_alignment pr pc m) m (list_prod pos pos).

(** [if m[r][c] is None: m[r][c] = v] *)
Definition mset_free (r c : Z) (v : bool) (m : matrix) : matrix :=
  match cell m r c with Some None => mset r c v m | _ => m end.

Definition add_timing (size : Z) (m : matrix) : matrix :=
  foldl (λ m i, mset_free 6 i (i mod 2 =? 0) (mset_free i 6 (i mod 2 =? 0) m)) m (seqZ 8 (size - 16)).

(** The two modules of bit [i] of the format information. *)
Definition format_cell_v (size i : Z) : Z * Z :=
  if i <? 6 then (i, 8) else if i <? 8 then (i + 1, 8) else (size - 15 + i, 8).
Definition format_cell_h (size i : Z) : Z * Z :=
  if i <? 8 then (8, size - i - 1) else if i <? 9 then (8, 15 - i - 1 + 1) else (8, 15 - i - 1).

Definition set_at (p : Z * Z) (v : bool) (m : matrix) : matrix := mset p.1 p.2 v m.

Definition place_format (size : Z) (bit : Z → bool) (m : matrix) : matrix :=
  foldl (λ m i, set_at (format_cell_h size i) (bit i) (set_at (format_cell_v size i) (bit i) m)) m (seqZ 0 15).

Definition place_version (size : Z) (bit : Z → bool) (m : matrix) : matrix :=
  foldl (λ m i, mset (i mod 3 + size - 11) (i / 3) (bit i) (mset (i / 3) (i mod 3 + size - 11) (bit i) m))
    m (seqZ 0 18).

(** [version * 4 + 17] *)
Definition symbol_size (version : nat) : Z := Z.of_nat version * 4 + 17.

(** Step 8: the function patterns and the reserved areas. *)
Definition base_matrix (version : nat) : matrix :=
  let size := symbol_size version in
  let m := add_finder size (size - 7) 0 (add_finder size 0 (size - 7) (add_finder size 0 0 (blank size))) in
  let m := add_alignments version m in
  let m := add_timing size m in
  let m := mset (size - 8) 8 true m in
  let m := place_format size (λ _, false) m in
  if (7 <=? version)%nat then place_version size (λ _, false) m else m.

(** [mask_func] *)
Definition mask_func (p r c : Z) : bool :=
  if p =? 0 then (r + c) mod 2 =? 0
  else if p =? 1 then r mod 2 =? 0
  else if p =? 2 then c mod 3 =? 0
  else if p =? 3 then (r + c) mod 3 =? 0
  else if p =? 4 then (r / 2 + c / 3) mod 2 =? 0
  else if p =? 5 then (r * c) mod 2 + (r * c) mod 3 =? 0
  else if p =? 6 then ((r * c) mod 2 + (r * c) mod 3) mod 2 =? 0
  else if p =? 7 then ((r + c) mod 2 + (r * c) mod 3) mod 2 =? 0
  else false.

(** ** Placement *)

Record placing := { pl_m : matrix; pl_row : Z; pl_inc : Z; pl_bit : Z; pl_byte : Z }.

(** The body of [for c in col_range]. *)
Definition place_cell (p : Z) (inter : list Z) (s : placing) (c : Z) : placing :=
  match cell (pl_m s) (pl_row s) c with
  | Some None =>
      let dark := if pl_byte s <? Z.of_nat (length inter)
                  then Z.land (Z.shiftr (nth (Z.to_nat (pl_byte s)) inter 0) (pl_bit s)) 1 =? 1 else false in
      let dark := if mask_func p (pl_row s) c then negb dark else dark in
      let bit := pl_bit s - 1 in
      {| pl_m := mset (pl_row s) c dark (pl_m s); pl_row := pl_row s; pl_inc := pl_inc s;
         pl_bit := if bit =? -1 then 7 else bit;
         pl_byte := if bit =? -1 then pl_byte s + 1 else pl_byte s |}
  | _ => s
  end.

(** The [while True] of a pair of columns; [None] when the fuel runs out. *)
Fixpoint place_column (fuel : nat) (size p : Z) (inter : list Z) (col : Z) (s : placing) : option placing :=
  match fuel with
  | O => None
  | S fuel' =>
      let s := place_cell p inter (place_cell p inter s col) (col - 1) in
      let row := pl_row s + pl_inc s in
      if (row <? 0) || (size <=? row) then
        Some {| pl_m := pl_m s; pl_row := row - pl_inc s; pl_inc := - pl_inc s; pl_bit := pl_bit s; pl_byte := pl_byte s |}
      else
        place_column fuel' size p inter col
          {| pl_m := pl_m s; pl_row := row; pl_inc := pl_inc s; pl_bit := pl_bit s; pl_byte := pl_byte s |}
  end.

(** [for col in range(size - 1, 0, -2)], with [col -= 1] from the timing
    column on. *)
Definition columns (size : Z) : list Z :=
  (λ k, let col := size - 1 - 2 * k in if col <=? 6 then col - 1 else col) <$> seqZ 0 ((size - 1) / 2).

Fixpoint place_columns (size p : Z) (inter : list Z) (cols : list Z) (s : placing) : option placing :=
  match cols with
  | [] => Some s
  | col :: cols' => place_column (Z.to_nat size) size p inter col s ≫= place_columns size p inter cols'
  end.

Definition place_data (size p : Z) (inter : list Z) (m : matrix) : option matrix :=
  pl_m <$> place_columns size p inter (columns size)
    {| pl_m := m; pl_row := size - 1; pl_inc := -1; pl_bit := 7; pl_byte := 0 |}.

(** ** Penalty *)

Notation bmatrix := (list (list bool)).

(** [3 + (count - 5)] for a run of five or more *)
Definition run_penalty (count : Z) : Z := if 5 <=? count then 3 + (count - 5) else 0.

Fixpoint runs (prev : bool) (count : Z) (line : list bool) : Z :=
  match line with
  | [] => run_penalty count
  | x :: line' =>
      if eqb x prev then runs x (count + 1) line' else run_penalty count + runs x 1 line'
  end.

(** The runs of a row or a column. *)
Definition n1_line (line : list bool) : Z := match line with [] => 0 | x :: line' => runs x 1 line' end.

Definition bcell (m : bmatrix) (r c : nat) : bool := nth c (nth r m []) false.
Definition bcolumn (m : bmatrix) (c : nat) : list bool := (λ row : list bool, nth c row false) <$> m.

Definition sum_over {A} (l : list A) (f : A → Z) : Z := foldr (λ x acc, f x + acc) 0 l.

Definition n2_block (m : bmatrix) (rc : nat * nat) : Z :=
  let '(r, c) := rc in
  if eqb (bcell m r c) (bcell m (S r) c) && eqb (bcell m (S r) c) (bcell m r (S c))
     && eqb (bcell m r (S c)) (bcell m (S r) (S c)) then 3 else 0.

Definition p1 : list bool := [false; false; false; false; true; false; true; true; true; false; true].
Definition p2 : list bool := [true; false; true; true; true; false; true; false; false; false; false].

Definition n3_line (size : nat) (line : list bool) : Z :=
  sum_over (seq 0 (size - 10)) (λ c,
    let sub := take 11 (drop c line) in
    if bool_decide (sub = p1) || bool_decide (sub = p2) then 40 else 0).

Definition dark_count (m : bmatrix) : Z := sum_over m (λ row, Z.of_nat (length (filter (λ x, x = true) row))).

(** [_calculate_mask_penalty] *)
Definition calculate_mask_penalty (m : bmatrix) (size : nat) : Z :=
  sum_over m n1_line
  + sum_over (seq 0 size) (λ c, n1_line (bcolumn m c))
  + sum_over (list_prod (seq 0 (size - 1)) (seq 0 (size - 1))) (n2_block m)
  + sum_over m (n3_line size)
  + sum_over (seq 0 size) (λ c, n3_line size (bcolumn m c))
  + (let n := Z.of_nat size * Z.of_nat size in Z.abs (dark_count m * 100 - 50 * n) / (5 * n) * 10).

(** ** The symbol *)

(** [bool(cell)] *)
Definition cell_bool (x : option bool) : bool := match x with Some b => b | None => false end.
Definition to_bool (m : matrix) : bmatrix := (λ row : list (option bool), cell_bool <$> row) <$> m.

(** [((x >> i) & 1) == 1] *)
Definition info_bit (x i : Z) : bool := Z.land (Z.shiftr x i) 1 =? 1.

(** One turn of the loop over the masks up to the penalty. *)
Definition masked (version : nat) (ec : QRECLevel) (inter : list Z) (mask_idx : Z) : option bmatrix :=
  let size := symbol_size version in
  let m := place_format size (info_bit (bch_format_info ec mask_idx)) (base_matrix version) in
  let m := if (7 <=? version)%nat then place_version size (info_bit (bch_version_info (Z.of_nat version))) m else m in
  to_bool <$> place_data size mask_idx inter m.

(** Step 9: the first mask of the lowest penalty. *)
Fixpoint best_of (version : nat) (ec : QRECLevel) (inter : list Z) (masks : list Z) (best : option (Z * Z * bmatrix)) :
    option (Z * Z * bmatrix) :=
  match masks with
  | [] => best
  | mask_idx :: masks' =>
      m ← masked version ec inter mask_idx;
      let penalty := calculate_mask_penalty m (Z.to_nat (symbol_size version)) in
      best_of version ec inter masks'
        (match best with
         | Some (_, least, _) => if penalty <? least then Some (mask_idx, penalty, m) else best
         | None => Some (mask_idx, penalty, m)
         end)
  end.

Record QRCode := {
  data_raw : bytes;
  ec_level : QRECLevel;
  qr_version : nat;
  qr_size : Z;
  mask_pattern : Z;
  qr_matrix : bmatrix
}.

(** [QRCode._generate]: the mask and the matrix. *)
Definition generate (version : nat) (ec : QRECLevel) (data : bytes) : option (Z * bmatrix) :=
  let rs_blocks := get_rs_blocks version ec in
  let cws := data_codewords version (total_data rs_blocks) data in
  '(mask, _, m) ← best_of version ec (interleaved rs_blocks cws) (seqZ 0 8) None;
  Some (mask, m).

Inductive qr_error :=
  | QRVersionRange      (* ValueError: QR version must be between 1 and 40 *)
  | QRCapacity          (* ValueError: payload exceeds capacity *)
  | QRUnencodable       (* UnicodeEncodeError of data.encode("utf-8") *)
  | QRDiverged.         (* the placement does not end *)

(** [data: str | bytes] *)
Inductive qr_data := QStr (s : unicode) | QBytes (b : bytes).

(** [QRCode.__init__] *)
Definition QRCode_init (data : qr_data) (ec : QRECLevel) (version : option Z) : result qr_error QRCode :=
  raw ← of_option (match data with QStr s => utf8_encode s | QBytes b => Some b end) QRUnencodable;
  v ← match version with
       | Some v => if (1 <=? v) && (v <=? 40) then Ok (Z.to_nat v) else Err QRVersionRange
       | None => of_option (find_min_version (length raw) ec) QRCapacity
       end;
  r ← of_option (generate v ec raw) QRDiverged;
  Ok {| data_raw := raw; ec_level := ec; qr_version := v; qr_size := symbol_size v;
        mask_pattern := r.1; qr_matrix := r.2 |}.

(** ** Rendering *)

(** [render_matrix]: the matrix within a quiet zone. *)
Definition render_matrix (q : QRCode) (border : nat) : bmatrix :=
  let total_size := (Z.to_nat (qr_size q) + 2 * border)%nat in
  let quiet := replicate border (replicate total_size false) in
  quiet ++ ((λ row, replicate border false ++ row ++ replicate border false) <$> qr_matrix q) ++ quiet.

(** The character of two modules, one above the other. *)
Definition half_block (top bottom : bool) : Z :=
  match top, bottom with
  | true, true => 9608
  | true, false => 9600
  | false, true => 9604
  | false, false => 32
  end.

Definition render_line (top bottom : list bool) : unicode := zip_with half_block top bottom.

(** [render_lines]: two rows to a line; below the last row is light. *)
Fixpoint render_rows (cols : nat) (rows : bmatrix) : list unicode :=
  match rows with
  | [] => []
  | [top] => [render_line top (replicate cols false)]
  | top :: bottom :: rows' => render_line top bottom :: render_rows cols rows'
  end.

Definition render_lines (q : QRCode) (border : nat) : list unicode :=
  let padded := render_matrix q border in render_rows (length (hd [] padded)) padded.

(** [sep.join(lines)] *)
Fixpoint join_lines (sep : unicode) (lines : list unicode) : unicode :=
  match lines with
  | [] => []
  | [l] => l
  | l :: lines' => l ++ sep ++ join_lines sep lines'
  end.

(** [render_ascii], [render_ansi] *)
Definition render_ascii (q : QRCode) (border : nat) : unicode := join_lines [10] (render_lines q border).
Definition render_ansi (q : QRCode) (border : nat) : unicode :=
  join_lines [10] ((λ line, [27; 91; 51; 48; 59; 52; 55; 109] ++ line ++ [27; 91; 48; 109]) <$> render_lines q border).
