(* ===== verification/QRPlacement.v ===== *)
(** * Placement of the bits

    The placement loop of [QRCode._generate] visits the modules along a fixed
    path, up and down pairs of columns, each once; it ends, leaves every module
    that was set alone, and the free modules hold the bits of the codewords in
    the order of the path, masked. *)

From S2P Require Import Prelude Text Utf8 GaloisField ReedSolomon QR.

Open Scope Z_scope.

(** ** Cells *)

Lemma cell_mset_eq m r c v x : cell m r c = Some x → cell (mset r c v m) r c = Some (Some v).
Proof.
  unfold cell, mset. rewrite list_lookup_alter_eq. destruct (m !! Z.to_nat r) as [row|]; cbn; [|done].
  intros H. apply list_lookup_insert_eq. by eapply lookup_lt_Some.
Qed.

Lemma cell_mset_ne m r c v r' c' :
  0 <= r → 0 <= c → 0 <= r' → 0 <= c' → r ≠ r' ∨ c ≠ c' → cell (mset r c v m) r' c' = cell m r' c'.
Proof.
  intros Hr Hc Hr' Hc' Hne. unfold cell, mset. rewrite list_lookup_alter.
  destruct (decide (Z.to_nat r = Z.to_nat r')) as [E|]; [|done]. assert (r = r') as <- by lia.
  destruct (m !! Z.to_nat r) as [row|]; cbn; [|done]. apply list_lookup_insert_ne. destruct Hne; lia.
Qed.

(** The size of a matrix. *)
Definition square (n : nat) {A} (m : list (list A)) : Prop := length m = n ∧ Forall (λ row, length row = n) m.

Lemma square_mset n r c v m : square n m → square n (mset r c v m).
Proof.
  intros [H1 H2]. split; [unfold mset; by rewrite length_alter|]. unfold mset.
  apply Forall_alter; [done|]. intros row _ Hrow. by rewrite length_insert.
Qed.

Lemma square_cell n m r c : square n m → 0 <= r < Z.of_nat n → 0 <= c < Z.of_nat n → is_Some (cell m r c).
Proof.
  intros [H1 H2] Hr Hc. unfold cell. destruct (lookup_lt_is_Some_2 m (Z.to_nat r)) as [row Erow]; [lia|].
  rewrite Erow. cbn. apply lookup_lt_is_Some_2. rewrite Forall_forall in H2.
  rewrite (H2 row); [lia|]. by eapply list_elem_of_lookup_2.
Qed.

Lemma square_blank size : square (Z.to_nat size) (blank size).
Proof. unfold blank. split; [apply length_replicate|]. apply Forall_replicate, length_replicate. Qed.

Lemma square_foldl {A} n (f : list (list (option bool)) → A → list (list (option bool))) l m :
  (∀ m x, square n m → square n (f m x)) → square n m → square n (foldl f m l).
Proof. intros Hf. revert m. induction l as [|x l IH]; intros m Hm; [done|]. cbn [foldl]. by apply IH, Hf. Qed.

Create HintDb square.
#[export] Hint Resolve square_mset square_blank : square.

Lemma square_finder n size r c m : square n m → square n (add_finder size r c m).
Proof. apply square_foldl. intros m' [dr dc] H. cbv zeta.
  match goal with |- context [if ?b then _ else m'] => destruct b end; auto with square.
Qed.

Lemma square_alignment n pr pc m : square n m → square n (add_alignment pr pc m).
Proof.
  intros H. unfold add_alignment. destruct (cell m pr pc) as [[b|]|]; [done| |];
    (apply square_foldl; [|done]; intros m' [dr dc] H'; auto with square).
Qed.

Lemma square_free n r c v m : square n m → square n (mset_free r c v m).
Proof. intros H. unfold mset_free. destruct (cell m r c) as [[b|]|]; auto with square. Qed.

Lemma square_format n size bit m : square n m → square n (place_format size bit m).
Proof. apply square_foldl. intros m' i H. unfold set_at. auto with square. Qed.
Lemma square_version n size bit m : square n m → square n (place_version size bit m).
Proof. apply square_foldl. intros m' i H. auto with square. Qed.
#[export] Hint Resolve square_finder square_alignment square_free square_format square_version : square.

Lemma square_base version : square (Z.to_nat (symbol_size version)) (base_matrix version).
Proof.
  unfold base_matrix. cbv zeta.
  assert (H : square (Z.to_nat (symbol_size version)) (add_timing (symbol_size version) (add_alignments version
    (add_finder (symbol_size version) (symbol_size version - 7) 0 (add_finder (symbol_size version) 0 (symbol_size version - 7)
      (add_finder (symbol_size version) 0 0 (blank (symbol_size version)))))))).
  { apply square_foldl; [intros; auto with square|]. apply square_foldl; [intros m' [pr pc] H; auto with square|].
    auto with square. }
  destruct (7 <=? version)%nat; auto 6 with square.
Qed.

(** ** The path *)

(** A module belongs to a column pair: rows in the given order, the right
    module first. *)
Definition column_path (col : Z) (rows : list Z) : list (Z * Z) := rows ≫= λ row, [(row, col); (row, col - 1)].

Definition col_of (size k : Z) : Z := let col := size - 1 - 2 * k in if col <=? 6 then col - 1 else col.
Definition rows_of (size k : Z) : list Z := if Z.even k then reverse (seqZ 0 size) else seqZ 0 size.

(** Up the first pair of columns, down the next, and so on. *)
Definition path (size : Z) : list (Z * Z) :=
  seqZ 0 ((size - 1) / 2) ≫= λ k, column_path (col_of size k) (rows_of size k).

Lemma elem_of_column_path col rows r c : (r, c) ∈ column_path col rows ↔ r ∈ rows ∧ (c = col ∨ c = col - 1).
Proof.
  unfold column_path. rewrite list_elem_of_bind. split.
  - intros (row & Hin & Hrow). apply elem_of_cons in Hin as [E|Hin]; [injection E as -> ->; tauto|].
    apply list_elem_of_singleton in Hin. injection Hin as -> ->. tauto.
  - intros [Hr Hc]. exists r. split; [|done]. destruct Hc as [-> | ->]; set_solver.
Qed.

Lemma elem_of_rows size k r : r ∈ rows_of size k ↔ 0 <= r < size.
Proof. unfold rows_of. destruct (Z.even k); rewrite ?elem_of_reverse, elem_of_seqZ; lia. Qed.

Lemma NoDup_column_path col rows : NoDup rows → NoDup (column_path col rows).
Proof.
  intros H. apply NoDup_bind; [| |done].
  - intros x1 x2 y Hy1 Hy2 H1 H2. set_solver.
  - intros x _. apply NoDup_cons. split; [|apply NoDup_singleton]. intros E%list_elem_of_singleton. injection E. lia.
Qed.

Lemma NoDup_rows size k : NoDup (rows_of size k).
Proof. unfold rows_of. destruct (Z.even k); [rewrite (reverse_Permutation (seqZ 0 size))|]; apply NoDup_seqZ. Qed.

(** Symbols have an odd size of at least 21. *)
Definition symbol_side (size : Z) : Prop := 21 <= size ∧ size mod 2 = 1.

Lemma symbol_size_side v : (1 <= v)%nat → symbol_side (symbol_size v).
Proof. intros H. unfold symbol_side, symbol_size. split; [lia|]. Z.div_mod_to_equations. lia. Qed.

Lemma path_nodup size : symbol_side size → NoDup (path size).
Proof.
  intros [Hs Hodd]. apply NoDup_bind; [| |apply NoDup_seqZ].
  - intros k1 k2 [r c] H1 H2 [_ Hc1]%elem_of_column_path [_ Hc2]%elem_of_column_path.
    unfold col_of in *. apply elem_of_seqZ in H1, H2.
    destruct (Z.leb_spec (size - 1 - 2 * k1) 6), (Z.leb_spec (size - 1 - 2 * k2) 6); Z.div_mod_to_equations; lia.
  - intros k _. apply NoDup_column_path, NoDup_rows.
Qed.

Lemma path_inside size r c : symbol_side size → (r, c) ∈ path size → 0 <= r < size ∧ 0 <= c < size.
Proof.
  intros [Hs Hodd] (k & Hin & Hk%elem_of_seqZ)%list_elem_of_bind.
  apply elem_of_column_path in Hin as [Hr Hc]. apply elem_of_rows in Hr. split; [done|].
  unfold col_of in Hc. destruct (Z.leb_spec (size - 1 - 2 * k) 6); Z.div_mod_to_equations; lia.
Qed.

(** ** The loop follows the path *)

(** What the loop carries apart from its direction: the matrix, the bit and
    the byte it is at. *)
Definition core : Type := matrix * Z * Z.
Definition core_of (s : placing) : core := (pl_m s, pl_bit s, pl_byte s).

Definition bit_value (inter : list Z) (bit byte : Z) : bool :=
  if byte <? Z.of_nat (length inter) then Z.land (Z.shiftr (nth (Z.to_nat byte) inter 0) bit) 1 =? 1 else false.

Definition put (p : Z) (inter : list Z) (s : core) (q : Z * Z) : core :=
  let '(m, bit, byte) := s in
  match cell m q.1 q.2 with
  | Some None =>
      (mset q.1 q.2 (xorb (mask_func p q.1 q.2) (bit_value inter bit byte)) m,
       if bit - 1 =? -1 then 7 else bit - 1, if bit - 1 =? -1 then byte + 1 else byte)
  | _ => s
  end.

Lemma place_cell_put p inter s c :
  place_cell p inter s c =
    (let '(m, bit, byte) := put p inter (core_of s) (pl_row s, c) in
     {| pl_m := m; pl_row := pl_row s; pl_inc := pl_inc s; pl_bit := bit; pl_byte := byte |}).
Proof.
  unfold place_cell, put, core_of. cbn [fst snd]. destruct (cell (pl_m s) (pl_row s) c) as [[b|]|];
    [by destruct s| |by destruct s].
  unfold bit_value. by destruct (mask_func p (pl_row s) c).
Qed.

Lemma place_pair p inter s col :
  let s' := place_cell p inter (place_cell p inter s col) (col - 1) in
  core_of s' = foldl (put p inter) (core_of s) (column_path col [pl_row s]) ∧ pl_row s' = pl_row s ∧ pl_inc s' = pl_inc s.
Proof.
  cbv zeta. rewrite (place_cell_put p inter (place_cell p inter s col)). rewrite (place_cell_put p inter s col).
  unfold column_path. cbn [mbind list_bind foldl app].
  destruct (put p inter (core_of s) (pl_row s, col)) as [[m bit] byte]. cbn [core_of pl_m pl_bit pl_byte pl_row pl_inc].
  destruct (put p inter (m, bit, byte) (pl_row s, col - 1)) as [[m' bit'] byte'] eqn:E.
  unfold core_of. cbn [pl_m pl_bit pl_byte]. by rewrite E.
Qed.

Lemma column_path_cons col r rows : column_path col (r :: rows) = column_path col [r] ++ column_path col rows.
Proof. done. Qed.

Lemma rows_up row : 0 <= row → reverse (seqZ 0 (row + 1)) = row :: reverse (seqZ 0 row).
Proof.
  intros H. rewrite seqZ_app by lia. rewrite reverse_app. by rewrite (seqZ_cons (0 + row) 1), seqZ_nil by lia.
Qed.

Definition at_end (size : Z) (s s' : placing) : Prop :=
  pl_inc s' = - pl_inc s ∧ pl_row s' = (if pl_inc s =? 1 then size - 1 else 0).

(** The loop over one pair of columns, upwards and downwards. *)
Lemma place_column_up size p inter col fuel : ∀ s,
  pl_inc s = -1 → 0 <= pl_row s < size → pl_row s < Z.of_nat fuel →
  ∃ s', place_column fuel size p inter col s = Some s' ∧ at_end size s s' ∧
    core_of s' = foldl (put p inter) (core_of s) (column_path col (reverse (seqZ 0 (pl_row s + 1)))).
Proof.
  induction fuel as [|fuel IH]; intros s Hinc Hrow Hf; [lia|]. cbn [place_column]. cbv zeta.
  destruct (place_pair p inter s col) as (Hc & Hr & Hi). set (s1 := place_cell _ _ _ _) in *.
  rewrite rows_up, column_path_cons, foldl_app, <- Hc, Hr, Hi, Hinc by lia.
  destruct (Z.ltb_spec (pl_row s + -1) 0) as [Hend|Hgo]; cbn [orb].
  - eexists. split; [done|]. unfold at_end. cbn. rewrite Hinc. split; [split; [done|]; cbn; lia|].
    by replace (pl_row s) with 0 by lia.
  - rewrite (proj2 (Z.leb_gt size (pl_row s + -1))) by lia.
    destruct (IH {| pl_m := pl_m s1; pl_row := pl_row s + -1; pl_inc := -1; pl_bit := pl_bit s1; pl_byte := pl_byte s1 |})
      as (s' & E & [H1 H2] & H3); cbn in *; try lia.
    exists s'. split; [done|]. unfold at_end. rewrite Hinc. split; [done|]. rewrite H3.
    by replace (pl_row s + -1 + 1) with (pl_row s) by lia.
Qed.

Lemma place_column_down size p inter col fuel : ∀ s,
  pl_inc s = 1 → 0 <= pl_row s < size → size - pl_row s <= Z.of_nat fuel →
  ∃ s', place_column fuel size p inter col s = Some s' ∧ at_end size s s' ∧
    core_of s' = foldl (put p inter) (core_of s) (column_path col (seqZ (pl_row s) (size - pl_row s))).
Proof.
  induction fuel as [|fuel IH]; intros s Hinc Hrow Hf; [lia|]. cbn [place_column]. cbv zeta.
  destruct (place_pair p inter s col) as (Hc & Hr & Hi). set (s1 := place_cell _ _ _ _) in *.
  rewrite seqZ_cons, column_path_cons, foldl_app, <- Hc, Hr, Hi, Hinc by lia.
  rewrite (proj2 (Z.ltb_ge (pl_row s + 1) 0)) by lia. cbn [orb].
  destruct (Z.leb_spec size (pl_row s + 1)) as [Hend|Hgo].
  - eexists. split; [done|]. unfold at_end. cbn. rewrite Hinc. split; [split; [done|]; cbn; lia|].
    by rewrite seqZ_nil by lia.
  - destruct (IH {| pl_m := pl_m s1; pl_row := pl_row s + 1; pl_inc := 1; pl_bit := pl_bit s1; pl_byte := pl_byte s1 |})
      as (s' & E & [H1 H2] & H3); cbn in *; try lia.
    exists s'. split; [done|]. unfold at_end. rewrite Hinc. split; [done|]. rewrite H3.
    by replace (size - (pl_row s + 1)) with (Z.pred (size - pl_row s)) by lia.
Qed.

(** The state before the [k]-th pair of columns. *)
Definition heading (size k : Z) (s : placing) : Prop :=
  pl_inc s = (if Z.even k then -1 else 1) ∧ pl_row s = (if Z.even k then size - 1 else 0).

Lemma place_column_path size p inter k s :
  0 < size → heading size k s →
  ∃ s', place_column (Z.to_nat size) size p inter (col_of size k) s = Some s' ∧ heading size (k + 1) s' ∧
    core_of s' = foldl (put p inter) (core_of s) (column_path (col_of size k) (rows_of size k)).
Proof.
  intros Hs [Hi Hr]. unfold heading, rows_of. rewrite Z.even_add. destruct (Z.even k); cbn [eqb Z.even].
  - destruct (place_column_up size p inter (col_of size k) (Z.to_nat size) s Hi) as (s' & E & [H1 H2] & H3); [lia|lia|].
    exists s'. split; [done|]. rewrite Hi in H1, H2. split; [done|]. rewrite H3, Hr. by replace (size - 1 + 1) with size by lia.
  - destruct (place_column_down size p inter (col_of size k) (Z.to_nat size) s Hi) as (s' & E & [H1 H2] & H3); [lia|lia|].
    exists s'. split; [done|]. rewrite Hi in H1, H2. split; [done|]. rewrite H3, Hr. by rewrite Z.sub_0_r.
Qed.

Lemma place_columns_path size p inter n : ∀ k s, 0 < size → heading size k s →
  ∃ s', place_columns size p inter (col_of size <$> seqZ k (Z.of_nat n)) s = Some s' ∧
    core_of s' = foldl (put p inter) (core_of s) (seqZ k (Z.of_nat n) ≫= λ k, column_path (col_of size k) (rows_of size k)).
Proof.
  induction n as [|n IH]; intros k s Hs Hh; [by exists s|].
  rewrite (seqZ_cons k) by lia. replace (Z.pred (Z.of_nat (S n))) with (Z.of_nat n) by lia.
  rewrite fmap_cons, bind_cons, foldl_app. cbn [place_columns].
  destruct (place_column_path size p inter k s Hs Hh) as (s1 & E1 & Hh1 & Hc1). rewrite E1. cbn [mbind option_bind].
  destruct (IH (k + 1) s1 Hs Hh1) as (s2 & E2 & Hc2). exists s2. split; [exact E2|]. rewrite Hc2, Hc1. done.
Qed.

(** The placement ends and is a fold along the path. *)
Lemma place_data_path size p inter m :
  symbol_side size → place_data size p inter m = Some (foldl (put p inter) (m, 7, 0) (path size)).1.1.
Proof.
  intros [Hs Hodd]. unfold place_data.
  destruct (place_columns_path size p inter (Z.to_nat ((size - 1) / 2)) 0
    {| pl_m := m; pl_row := size - 1; pl_inc := -1; pl_bit := 7; pl_byte := 0 |}) as (s' & E & Hc); [lia|done|].
  rewrite Z2Nat.id in E, Hc by (Z.div_mod_to_equations; lia).
  change (columns size) with (col_of size <$> seqZ 0 ((size - 1) / 2)). rewrite E. cbn [fmap option_fmap option_map].
  fold (path size) in Hc. unfold core_of at 2 in Hc. cbn [pl_m pl_bit pl_byte] in Hc. by rewrite <- Hc.
Qed.

(** ** What the path holds afterwards *)

(** The [k]-th bit of the codewords, [false] after the last. *)
Definition stream (inter : list Z) (k : Z) : bool := bit_value inter (7 - k mod 8) (k / 8).

Definition is_free (m : matrix) (q : Z * Z) : Prop := cell m q.1 q.2 = Some None.
#[export] Instance is_free_dec m q : Decision (is_free m q).
Proof. unfold is_free. apply _. Defined.
Definition on_grid (q : Z * Z) : Prop := 0 <= q.1 ∧ 0 <= q.2.

Lemma put_position p inter m bit byte q :
  is_free m q → 0 <= bit <= 7 →
  ∃ bit' byte', put p inter (m, bit, byte) q =
      (mset q.1 q.2 (xorb (mask_func p q.1 q.2) (stream inter (8 * byte + (7 - bit)))) m, bit', byte') ∧
    0 <= bit' <= 7 ∧ 8 * byte' + (7 - bit') = 8 * byte + (7 - bit) + 1.
Proof.
  intros Hfree Hb. unfold put. rewrite Hfree. eexists _, _. split; [unfold stream; do 4 f_equal; [|Z.div_mod_to_equations; lia..]|].
  - f_equal; Z.div_mod_to_equations; lia.
  - destruct (Z.eqb_spec (bit - 1) (-1)); lia.
Qed.

Lemma put_taken p inter m bit byte q : ¬ is_free m q → put p inter (m, bit, byte) q = (m, bit, byte).
Proof. unfold is_free, put. intros H. by destruct (cell m q.1 q.2) as [[b|]|]. Qed.

Lemma filter_ext_in {A} (P Q : A → Prop) `{∀ x, Decision (P x)} `{∀ x, Decision (Q x)} (l : list A) :
  (∀ x, x ∈ l → P x ↔ Q x) → filter P l = filter Q l.
Proof.
  induction l as [|x l IH]; intros HPQ; [done|]. rewrite !filter_cons, IH by (intros; apply HPQ; by right).
  pose proof (HPQ x ltac:(by left)) as Hx. destruct (decide (P x)), (decide (Q x)); tauto.
Qed.

Lemma put_fold p inter qs : ∀ m bit byte,
  NoDup qs → Forall on_grid qs → 0 <= bit <= 7 →
  let m' := (foldl (put p inter) (m, bit, byte) qs).1.1 in
  (∀ q, on_grid q → (is_free m q → q ∉ qs) → cell m' q.1 q.2 = cell m q.1 q.2) ∧
  (∀ i q, filter (is_free m) qs !! i = Some q →
     cell m' q.1 q.2 = Some (Some (xorb (mask_func p q.1 q.2) (stream inter (8 * byte + (7 - bit) + Z.of_nat i))))).
Proof.
  induction qs as [|q qs IH]; intros m bit byte Hnd Hgrid Hb; [done|]. cbn [foldl].
  apply NoDup_cons in Hnd as [Hnot Hnd]. apply Forall_cons in Hgrid as [[Hg1 Hg2] Hgrid]. rewrite filter_cons.
  destruct (decide (is_free m q)) as [Hfree|Htaken].
  2:{ rewrite put_taken by done. destruct (IH m bit byte Hnd Hgrid Hb) as [I1 I2]. split; [|exact I2].
      intros q' Hq' Hin. apply I1; [done|]. set_solver. }
  destruct (put_position p inter m bit byte q Hfree Hb) as (bit' & byte' & -> & Hb' & Hpos).
  set (m1 := mset q.1 q.2 _ m) in *. destruct (IH m1 bit' byte' Hnd Hgrid Hb') as [I1 I2].
  assert (Hne : ∀ q', on_grid q' → q' ≠ q → cell m1 q'.1 q'.2 = cell m q'.1 q'.2).
  { intros [r c] [G1 G2] Hqq. apply cell_mset_ne; cbn in *; try lia. destruct q as [r0 c0]. cbn.
    destruct (decide (r0 = r)) as [->|]; [|by left]. right. intros ->. done. }
  assert (Hq1 : cell m1 q.1 q.2 = Some (Some (xorb (mask_func p q.1 q.2) (stream inter (8 * byte + (7 - bit)))))).
  { by eapply cell_mset_eq. }
  split.
  - intros q' Hq' Hin. assert (Hqq : q' ≠ q) by (intros ->; apply Hin; [done|set_solver]).
    rewrite I1; [by apply Hne|done|]. unfold is_free. rewrite Hne by done. set_solver.
  - intros [|i] q' Hi; cbn [lookup list_lookup] in Hi.
    + injection Hi as <-. rewrite Z.add_0_r. rewrite I1; [exact Hq1|done|]. unfold is_free. by rewrite Hq1.
    + replace (8 * byte + (7 - bit) + Z.of_nat (S i)) with (8 * byte' + (7 - bit') + Z.of_nat i) by lia.
      apply I2. rewrite <- Hi. f_equal. apply filter_ext_in. rewrite Forall_forall in Hgrid. intros x Hx. unfold is_free.
      rewrite Hne; [done|by apply Hgrid|]. by intros ->.
Qed.
