(* ===== verification/QRScan.v ===== *)
(** * Reading a symbol

    A reference reader of QR symbols: the format information, the modules in
    the order of the standard, the codewords of the blocks and the payload
    they hold.  The lemmas here invert, one by one, the steps of
    [QRCode._generate]. *)

From S2P Require Import Prelude Text Utf8 GaloisField ReedSolomon QR QRPlacement.

Open Scope Z_scope.

(** ** Bits *)

Definition is_bit (b : Z) : Prop := b = 0 ∨ b = 1.

Lemma bits_of_S n x : bits_of (S n) x = Z.land (Z.shiftr x (Z.of_nat n)) 1 :: bits_of n x.
Proof. unfold bits_of. by rewrite seq_S, reverse_snoc, fmap_cons. Qed.

Lemma land_1 x : Z.land x 1 = x mod 2.
Proof. change 1 with (Z.ones 1). by rewrite Z.land_ones by lia. Qed.

Lemma length_bits_of n x : length (bits_of n x) = n.
Proof. unfold bits_of. by rewrite length_fmap, length_reverse, length_seq. Qed.

Lemma bits_of_bits n x : Forall is_bit (bits_of n x).
Proof.
  induction n as [|n IH]; [constructor|]. rewrite bits_of_S. constructor; [|done]. rewrite land_1.
  unfold is_bit. pose proof (Z.mod_pos_bound (Z.shiftr x (Z.of_nat n)) 2). lia.
Qed.

Lemma push_bit a b : is_bit b → Z.lor (Z.shiftl a 1) b = 2 * a + b.
Proof.
  intros Hb. rewrite Z.shiftl_mul_pow2 by lia. pose proof (Z.add_lor_land (a * 2 ^ 1) b).
  assert (E : Z.land (a * 2 ^ 1) b = 0); [|lia].
  destruct Hb as [-> | ->]; [apply Z.land_0_r|]. rewrite land_1. Z.div_mod_to_equations. lia.
Qed.

Definition push (cw b : Z) : Z := Z.lor (Z.shiftl cw 1) b.

Lemma push_bits bits : Forall is_bit bits → ∀ acc,
  foldl push acc bits = acc * 2 ^ Z.of_nat (length bits) + bits_value bits ∧ 0 <= bits_value bits < 2 ^ Z.of_nat (length bits).
Proof.
  unfold bits_value. change (λ cw b, Z.lor (Z.shiftl cw 1) b) with push.
  induction 1 as [|b bits Hb _ IH]; intros acc; [cbn; lia|]. cbn [foldl length].
  rewrite Nat2Z.inj_succ, Z.pow_succ_r by lia. destruct (IH (push acc b)) as [-> R]. destruct (IH (push 0 b)) as [-> _].
  assert (Hp : ∀ a, push a b = 2 * a + b) by (intros; by apply push_bit). rewrite !Hp. destruct Hb as [-> | ->]; lia.
Qed.

Lemma shiftr_bit x n : Z.land (Z.shiftr x (Z.of_nat n)) 1 = x / 2 ^ Z.of_nat n mod 2.
Proof. by rewrite land_1, Z.shiftr_div_pow2 by lia. Qed.

Lemma bits_of_mod n x y : x mod 2 ^ Z.of_nat n = y mod 2 ^ Z.of_nat n → bits_of n x = bits_of n y.
Proof.
  intros H. unfold bits_of. apply list_fmap_ext. intros i k Hk%list_elem_of_lookup_2.
  rewrite elem_of_reverse, elem_of_seq in Hk. rewrite !shiftr_bit.
  assert (E : ∀ z, z / 2 ^ Z.of_nat k mod 2 = (z mod 2 ^ Z.of_nat n) / 2 ^ Z.of_nat k mod 2).
  { intros z. rewrite <- !Z.testbit_spec' by lia. f_equal. by rewrite Z.mod_pow2_bits_low by lia. }
  by rewrite (E x), (E y), H.
Qed.

(** The bits of a value give the value back, and conversely. *)
Lemma bits_value_of n x : 0 <= x < 2 ^ Z.of_nat n → bits_value (bits_of n x) = x.
Proof.
  revert x. induction n as [|n IH]; intros x Hx; [cbn in *; lia|].
  rewrite bits_of_S. rewrite Nat2Z.inj_succ, Z.pow_succ_r in Hx by lia.
  assert (Hd : 0 <= x / 2 ^ Z.of_nat n < 2) by (split; [apply Z.div_pos; lia|apply Z.div_lt_upper_bound; lia]).
  change (bits_value (?b :: ?l)) with (foldl push (push 0 b) l). rewrite (proj1 (push_bits _ (bits_of_bits n x) _)).
  rewrite length_bits_of, shiftr_bit, (bits_of_mod n x (x mod 2 ^ Z.of_nat n)) by (by rewrite Z.mod_mod by lia).
  rewrite IH by (apply Z.mod_pos_bound; lia). rewrite (Z.mod_small _ 2) by lia. unfold push.
  rewrite push_bit by (unfold is_bit; lia). pose proof (Z.div_mod x (2 ^ Z.of_nat n)). lia.
Qed.

Lemma bits_of_value bits : Forall is_bit bits → bits_of (length bits) (bits_value bits) = bits.
Proof.
  induction 1 as [|b bits Hb Hbits IH]; [done|]. cbn [length]. rewrite bits_of_S.
  change (bits_value (b :: bits)) with (foldl push (push 0 b) bits).
  destruct (push_bits bits Hbits (push 0 b)) as [-> R]. unfold push. rewrite push_bit by done.
  f_equal.
  - rewrite shiftr_bit. replace (2 * 0 + b) with b by lia. rewrite Z.div_add_l by lia. rewrite (Z.div_small (bits_value bits)) by lia.
    rewrite Z.add_0_r. destruct Hb as [-> | ->]; done.
  - etransitivity; [|exact IH]. apply bits_of_mod. rewrite Z.add_comm, Z.mod_add by lia. done.
Qed.

(** ** Codewords *)

Lemma codewords_bits n bits :
  Forall is_bit bits → length bits = (n * 8)%nat → codewords_of n bits ≫= bits_of 8 = bits.
Proof.
  revert bits. induction n as [|n IH]; intros bits Hb Hl; [by destruct bits|]. cbn [codewords_of]. rewrite bind_cons.
  rewrite IH by (rewrite ?length_drop; try apply Forall_drop; done || lia).
  rewrite <- (take_drop 8 bits) at 3. f_equal.
  assert (E : length (take 8 bits) = 8%nat) by (rewrite length_take; lia).
  rewrite <- E at 1. by apply bits_of_value, Forall_take.
Qed.

Lemma length_bytes_bits (data : bytes) : length (data ≫= bits_of 8) = (length data * 8)%nat.
Proof. induction data as [|b data IH]; [done|]. rewrite bind_cons, length_app, length_bits_of, IH. done. Qed.

Lemma bytes_bits (data : bytes) : Forall is_bit (data ≫= bits_of 8).
Proof. induction data as [|b data IH]; [constructor|]. rewrite bind_cons. apply Forall_app. split; [apply bits_of_bits|done]. Qed.

(** The bytes at the front of a bit stream. *)
Lemma codewords_of_bytes (data : bytes) rest :
  bytes_ok data → codewords_of (length data) ((data ≫= bits_of 8) ++ rest) = data.
Proof.
  induction 1 as [|b data Hb Hd IH]; [done|]. cbn [length codewords_of]. rewrite bind_cons, <- app_assoc.
  rewrite take_app_length', drop_app_length' by (by rewrite length_bits_of). rewrite IH. by rewrite bits_value_of.
Qed.

Lemma length_codewords_of n bits : length (codewords_of n bits) = n.
Proof. revert bits. induction n as [|n IH]; intros bits; [done|]. cbn [codewords_of length]. by rewrite IH. Qed.

Lemma codewords_of_ok n bits : Forall is_bit bits → bytes_ok (codewords_of n bits).
Proof.
  revert bits. induction n as [|n IH]; intros bits Hb; [constructor|]. cbn [codewords_of].
  constructor; [|by apply IH, Forall_drop]. destruct (push_bits (take 8 bits) (Forall_take _ 8 _ Hb) 0) as [_ R].
  unfold byte_ok. assert (2 ^ Z.of_nat (length (take 8 bits)) <= 2 ^ 8); [|lia]. apply Z.pow_le_mono_r; [lia|].
  rewrite length_take. lia.
Qed.

Lemma length_pads n a b : length (pads n a b) = n.
Proof. revert a b. induction n as [|n IH]; intros a b; [done|]. cbn [pads length]. by rewrite IH. Qed.

Lemma pads_ok n a b : byte_ok a → byte_ok b → bytes_ok (pads n a b).
Proof. revert a b. induction n as [|n IH]; intros a b Ha Hb; [constructor|]. constructor; [done|]. by apply IH. Qed.

(** *** The payload *)

(** Mode, count and that many bytes. *)
Definition read_payload (version : nat) (cws : list Z) : option bytes :=
  let bits := cws ≫= bits_of 8 in
  let cc := char_count_bits version in
  if bool_decide (take 4 bits = [0; 1; 0; 0]) then
    Some (codewords_of (Z.to_nat (bits_value (take cc (drop 4 bits)))) (drop (4 + cc) bits))
  else None.

Lemma pad_to_byte n : ∃ k, (n + (8 - n mod 8) mod 8 = k * 8 ∧ (k * 8 < n + 8))%nat.
Proof.
  pose proof (Nat.div_mod_eq n 8). pose proof (Nat.mod_upper_bound n 8).
  destruct (decide (n mod 8 = 0)%nat) as [E|E].
  - exists (n / 8)%nat. rewrite E. change ((8 - 0) mod 8)%nat with 0%nat. lia.
  - exists (S (n / 8))%nat. rewrite (Nat.mod_small (8 - n mod 8)) by lia. lia.
Qed.

Lemma bit_stream_shape version total data :
  ∃ tail, bit_stream version total data =
            [0; 1; 0; 0] ++ bits_of (char_count_bits version) (Z.of_nat (length data)) ++ (data ≫= bits_of 8) ++ tail ∧
    Forall is_bit (bit_stream version total data) ∧ (length (bit_stream version total data) mod 8 = 0)%nat ∧
    ((4 + char_count_bits version + length data * 8 <= total * 8)%nat →
      (length (bit_stream version total data) <= total * 8)%nat).
Proof.
  unfold bit_stream. cbv zeta. set (bits := [0; 1; 0; 0] ++ _). set (bits1 := bits ++ replicate _ 0).
  assert (Hlen : length bits = (4 + char_count_bits version + length data * 8)%nat).
  { subst bits. rewrite !length_app, length_bits_of, length_bytes_bits. cbn [length]. lia. }
  exists (replicate (Nat.min 4 (total * 8 - length bits)) 0 ++ replicate ((8 - length bits1 mod 8) mod 8) 0).
  assert (Hb : Forall is_bit bits).
  { subst bits. repeat apply Forall_app_2; [|apply bits_of_bits|apply bytes_bits]. repeat constructor; unfold is_bit; lia. }
  split; [subst bits1; subst bits; by rewrite <- !app_assoc|]. split; [|split].
  - apply Forall_app_2; [apply Forall_app_2; [exact Hb|]|]; apply Forall_replicate; by left.
  - rewrite length_app, length_replicate. destruct (pad_to_byte (length bits1)) as (k & -> & _). apply Nat.Div0.mod_mul.
  - intros Hfit. rewrite length_app, length_replicate.
    assert (H1 : (length bits1 <= total * 8)%nat) by (subst bits1; rewrite length_app, length_replicate; lia).
    destruct (pad_to_byte (length bits1)) as (k & -> & Hk). lia.
Qed.

Lemma data_codewords_shape version total data :
  (4 + char_count_bits version + length data * 8 <= total * 8)%nat →
  length (data_codewords version total data) = total ∧ bytes_ok (data_codewords version total data) ∧
  ∃ tail, data_codewords version total data ≫= bits_of 8 =
            [0; 1; 0; 0] ++ bits_of (char_count_bits version) (Z.of_nat (length data)) ++ (data ≫= bits_of 8) ++ tail.
Proof.
  intros Hfit. destruct (bit_stream_shape version total data) as (tail & E & Hb & Hm & Hle). specialize (Hle Hfit).
  unfold data_codewords. cbv zeta. rewrite length_codewords_of. set (bits := bit_stream version total data) in *.
  assert (Hdiv : length bits = (length bits / 8 * 8)%nat) by (pose proof (Nat.div_mod_eq (length bits) 8); lia).
  assert (Hle8 : (length bits / 8 <= total)%nat) by lia.
  split; [rewrite length_app, length_codewords_of, length_pads; lia|]. split.
  - apply Forall_app_2; [by apply codewords_of_ok|]. apply pads_ok; unfold byte_ok; lia.
  - exists (tail ++ (pads (total - length bits / 8) 236 17 ≫= bits_of 8)).
    rewrite bind_app, (codewords_bits (length bits / 8) bits) by done. rewrite E. by rewrite <- !app_assoc.
Qed.

Lemma read_payload_codewords version total data :
  bytes_ok data → Z.of_nat (length data) < 2 ^ Z.of_nat (char_count_bits version) →
  (4 + char_count_bits version + length data * 8 <= total * 8)%nat →
  read_payload version (data_codewords version total data) = Some data.
Proof.
  intros Hd Hcc Hfit. destruct (data_codewords_shape version total data Hfit) as (_ & _ & tail & E).
  unfold read_payload. cbv zeta. rewrite E. set (cc := char_count_bits version) in *.
  rewrite bool_decide_eq_true_2 by done. f_equal.
  change (drop 4 ([0; 1; 0; 0] ++ ?l)) with l. change (drop (4 + cc) ([0; 1; 0; 0] ++ ?l)) with (drop cc l).
  rewrite take_app_length', drop_app_length' by (by rewrite length_bits_of).
  rewrite bits_value_of by lia. rewrite Nat2Z.id. by apply codewords_of_bytes.
Qed.

(** *** Blocks *)

(** Hand out one codeword to each block that has an [i]-th. *)
Fixpoint deal_row (i : nat) (lens : list nat) (accs : list (list Z)) (cws : list Z) : list (list Z) * list Z :=
  match lens, accs with
  | len :: lens', a :: accs' =>
      if (i <? len)%nat then
        match cws with
        | c :: cws' => let '(bs, rest) := deal_row i lens' accs' cws' in ((a ++ [c]) :: bs, rest)
        | [] => (accs, [])
        end
      else let '(bs, rest) := deal_row i lens' accs' cws in (a :: bs, rest)
  | _, _ => (accs, cws)
  end.

Definition deal_rows (lens : list nat) (rows : list nat) (s : list (list Z) * list Z) : list (list Z) * list Z :=
  foldl (λ '(accs, cws) i, deal_row i lens accs cws) s rows.

(** Undo [interleave] for blocks of the given lengths. *)
Definition deinterleave (n : nat) (lens : list nat) (cws : list Z) : list (list Z) :=
  (deal_rows lens (seq 0 n) (replicate (length lens) [], cws)).1.

Lemma deal_row_take i blocks rest :
  deal_row i (length <$> blocks) (take i <$> blocks) (omap (λ b : list Z, b !! i) blocks ++ rest) = (take (S i) <$> blocks, rest).
Proof.
  induction blocks as [|b blocks IH]; [done|]. rewrite !fmap_cons. cbn [deal_row omap list_omap].
  destruct (Nat.ltb_spec i (length b)) as [Hi|Hi].
  - destruct (lookup_lt_is_Some_2 b i Hi) as [c Ec]. rewrite Ec. cbn [app]. rewrite IH. by rewrite (take_S_r b i c Ec).
  - rewrite lookup_ge_None_2 by done. rewrite IH. by rewrite !take_ge by lia.
Qed.

Lemma deal_rows_take blocks n : ∀ k rest,
  deal_rows (length <$> blocks) (seq k n) (take k <$> blocks, (seq k n ≫= λ i, omap (λ b : list Z, b !! i) blocks) ++ rest)
    = (take (k + n) <$> blocks, rest).
Proof.
  unfold deal_rows. induction n as [|n IH]; intros k rest; [by rewrite Nat.add_0_r|].
  cbn [seq]. rewrite bind_cons, <- app_assoc. cbn [foldl]. rewrite deal_row_take, IH. by rewrite Nat.add_succ_r.
Qed.

Lemma deinterleave_interleave n blocks rest :
  Forall (λ b, length b <= n)%nat blocks →
  deinterleave n (length <$> blocks) (interleave n blocks ++ rest) = blocks.
Proof.
  intros H. unfold deinterleave, interleave.
  assert (E : replicate (length (length <$> blocks)) [] = (take 0 <$> blocks : list (list Z))).
  { rewrite length_fmap. clear. by induction blocks as [|b blocks IH]; [|cbn; f_equal]. }
  rewrite E, deal_rows_take. cbn [fst]. rewrite <- (list_fmap_id blocks) at 2. apply list_fmap_ext.
  intros i b Hb%list_elem_of_lookup_2. rewrite Forall_forall in H. apply take_ge. by apply H.
Qed.

Lemma row_length n (blocks : list (list Z)) :
  (list_sum ((λ b, length (take n b)) <$> blocks) + length (omap (λ b : list Z, b !! n) blocks)
   = list_sum ((λ b, length (take (S n) b)) <$> blocks))%nat.
Proof.
  induction blocks as [|b blocks IH]; [done|]. rewrite !fmap_cons.
  change (list_sum (?x :: ?l)) with (x + list_sum l)%nat. cbn [omap list_omap].
  rewrite <- IH. destruct (b !! n) as [c|] eqn:Ec.
  - rewrite (take_S_r b n c Ec), length_app. cbn [length]. lia.
  - apply lookup_ge_None in Ec. rewrite !take_ge by lia. lia.
Qed.

Lemma length_interleave n blocks :
  Forall (λ b, length b <= n)%nat blocks → length (interleave n blocks) = list_sum (length <$> blocks).
Proof.
  unfold interleave. intros H.
  assert (G : ∀ n, length (seq 0 n ≫= λ i, omap (λ b : list Z, b !! i) blocks) = list_sum ((λ b, length (take n b)) <$> blocks)).
  { clear. induction n as [|n IH].
    - induction blocks as [|b blocks IH]; [done|]. rewrite fmap_cons. exact IH.
    - rewrite <- row_length, <- IH, seq_S, bind_app, length_app. f_equal. rewrite bind_cons, length_app. cbn. lia. }
  rewrite G. f_equal. apply list_fmap_ext. intros i b Hb%list_elem_of_lookup_2. rewrite Forall_forall in H.
  by rewrite take_ge by (by apply H).
Qed.

Lemma split_blocks_data blocks : ∀ cws, length cws = total_data blocks →
  mjoin (split_blocks blocks cws).*1 = cws ∧ length <$> (split_blocks blocks cws).*1 = blocks.*2.
Proof.
  induction blocks as [|[t d] blocks IH]; intros cws Hl; [by destruct cws|].
  unfold total_data in *. rewrite fmap_cons in Hl. cbn [snd] in Hl.
  change (list_sum (?x :: ?l)) with (x + list_sum l)%nat in Hl. cbn [split_blocks]. cbv zeta. rewrite !fmap_cons. cbn [fst snd].
  destruct (IH (drop d cws)) as [I1 I2]; [rewrite length_drop; lia|]. split.
  - change (mjoin (?x :: ?l)) with (x ++ mjoin l). rewrite I1. apply take_drop.
  - rewrite I2, length_take. f_equal. lia.
Qed.

(** A block has data, correction codewords and at most 255 codewords. *)
Definition block_ok (b : nat * nat) : Prop := (0 < b.2 < b.1 ∧ b.1 <= 255)%nat.

Lemma split_blocks_ec blocks : ∀ cws, Forall block_ok blocks → bytes_ok cws →
  length <$> (split_blocks blocks cws).*2 = (λ b : nat * nat, (b.1 - b.2)%nat) <$> blocks ∧
  Forall bytes_ok (split_blocks blocks cws).*2.
Proof.
  induction blocks as [|[t d] blocks IH]; intros cws Hb Hc; [done|]. apply Forall_cons in Hb as [Hb1 Hb].
  cbn [split_blocks]. cbv zeta. rewrite !fmap_cons. cbn [fst snd].
  destruct (IH (drop d cws) Hb (Forall_drop _ _ _ Hc)) as [I1 I2]. destruct Hb1 as [Hb1 _]. cbn [fst snd] in Hb1.
  destruct (rs_codeword (take d cws) (t - d)) as (R1 & R2 & _); [lia|by apply Forall_take|].
  split; [by rewrite I1, R2|]. by constructor.
Qed.

Lemma max_bound (l : list nat) : Forall (λ x, x <= foldr Nat.max 0%nat l)%nat l.
Proof.
  induction l as [|x l IH]; constructor; cbn [foldr]; [lia|]. eapply Forall_impl; [exact IH|]. cbn. lia.
Qed.

Lemma blocks_max {A} (bs : list (list A)) lens :
  length <$> bs = lens → Forall (λ b, length b <= foldr Nat.max 0%nat lens)%nat bs.
Proof. intros <-. pose proof (max_bound (length <$> bs)) as H. by apply Forall_fmap in H. Qed.

(** Data codewords, then correction codewords. *)
Definition read_blocks (blocks : list (nat * nat)) (cws : list Z) : list (list Z) :=
  deinterleave (foldr Nat.max 0%nat blocks.*2) blocks.*2 cws.

Lemma read_blocks_interleaved blocks cws rest :
  length cws = total_data blocks → mjoin (read_blocks blocks (interleaved blocks cws ++ rest)) = cws.
Proof.
  intros Hl. destruct (split_blocks_data blocks cws Hl) as [E1 E2]. unfold read_blocks, interleaved. cbv zeta.
  rewrite <- app_assoc. rewrite <- E2 at 2. rewrite deinterleave_interleave; [exact E1|]. by apply blocks_max.
Qed.

Definition total_codewords (blocks : list (nat * nat)) : nat := list_sum blocks.*1.

Lemma list_sum_split (blocks : list (nat * nat)) :
  Forall block_ok blocks →
  (list_sum blocks.*2 + list_sum ((λ b : nat * nat, (b.1 - b.2)%nat) <$> blocks) = list_sum blocks.*1)%nat.
Proof.
  induction 1 as [|[t d] blocks [Hb _] _ IH]; [done|]. rewrite !fmap_cons. cbn [fst snd] in *.
  change (list_sum (?x :: ?l)) with (x + list_sum l)%nat. lia.
Qed.

Lemma interleave_ok n (bs : list (list Z)) : Forall bytes_ok bs → bytes_ok (interleave n bs).
Proof.
  intros H. unfold interleave, bytes_ok. apply Forall_forall. intros x (i & Hx & _)%list_elem_of_bind.
  apply list_elem_of_omap in Hx as (b & Hb & Hi). rewrite Forall_forall in H. specialize (H b Hb). unfold bytes_ok in H.
  rewrite Forall_forall in H. by apply H; eapply list_elem_of_lookup_2.
Qed.

Lemma bytes_join (bs : list (list Z)) : bytes_ok (mjoin bs) → Forall bytes_ok bs.
Proof.
  induction bs as [|b bs IH]; [constructor|]. change (mjoin (b :: bs)) with (b ++ mjoin bs).
  intros [H1 H2]%Forall_app. constructor; [done|]. by apply IH.
Qed.

Lemma interleaved_shape blocks cws :
  Forall block_ok blocks → bytes_ok cws → length cws = total_data blocks →
  length (interleaved blocks cws) = total_codewords blocks ∧ bytes_ok (interleaved blocks cws).
Proof.
  intros Hb Hc Hl. destruct (split_blocks_data blocks cws Hl) as [E1 E2].
  destruct (split_blocks_ec blocks cws Hb Hc) as [E3 E4]. unfold interleaved. cbv zeta. split.
  - rewrite length_app, !length_interleave by by apply blocks_max. rewrite E2, E3. by apply list_sum_split.
  - apply Forall_app_2; apply interleave_ok; [|done]. apply bytes_join. by rewrite E1.
Qed.

(** ** Modules *)

Definition module_at (m : bmatrix) (q : Z * Z) : bool := bcell m (Z.to_nat q.1) (Z.to_nat q.2).

(** The modules that carry data, in the order of the path. *)
Definition read_cells (version : nat) : list (Z * Z) :=
  filter (is_free (base_matrix version)) (path (symbol_size version)).

Definition read_bits (version : nat) (mask : Z) (m : bmatrix) : list Z :=
  (λ q, Z.b2z (xorb (mask_func mask q.1 q.2) (module_at m q))) <$> read_cells version.

Lemma stream_bits inter :
  (λ k, Z.b2z (stream inter k)) <$> seqZ 0 (8 * Z.of_nat (length inter)) = inter ≫= bits_of 8.
Proof.
  induction inter as [|x inter IH]; [done|]. cbn [length].
  replace (8 * Z.of_nat (S (length inter))) with (8 + 8 * Z.of_nat (length inter)) by lia.
  rewrite seqZ_app, fmap_app, bind_cons by lia. f_equal.
  - assert (Hb : ∀ n, Z.b2z (Z.land (Z.shiftr x n) 1 =? 1) = Z.land (Z.shiftr x n) 1).
    { intros n. rewrite land_1. pose proof (Z.mod_pos_bound (Z.shiftr x n) 2). destruct (Z.eqb_spec (Z.shiftr x n mod 2) 1); cbn; lia. }
    assert (E : ∀ k, 0 <= k < 8 → Z.b2z (stream (x :: inter) k) = Z.land (Z.shiftr x (7 - k)) 1).
    { intros k Hk. unfold stream, bit_value. rewrite Z.div_small, Z.mod_small by lia. cbn [length].
      rewrite (proj2 (Z.ltb_lt _ _)) by lia. cbn [nth Z.to_nat]. apply Hb. }
    change (seqZ 0 8) with [0; 1; 2; 3; 4; 5; 6; 7]. cbn [fmap list_fmap]. rewrite !E by lia. done.
  - rewrite <- IH. replace (0 + 8) with (8 + 0) by lia. rewrite <- fmap_add_seqZ, <- list_fmap_compose.
    apply list_fmap_ext. intros i k Hk%list_elem_of_lookup_2. apply elem_of_seqZ in Hk. unfold compose. f_equal.
    unfold stream, bit_value. replace ((8 + k) / 8) with (k / 8 + 1) by (Z.div_mod_to_equations; lia).
    replace ((8 + k) mod 8) with (k mod 8) by (Z.div_mod_to_equations; lia).
    assert (0 <= k / 8) by (Z.div_mod_to_equations; lia). cbn [length].
    replace (Z.to_nat (k / 8 + 1)) with (S (Z.to_nat (k / 8))) by lia. cbn [nth].
    destruct (Z.ltb_spec (k / 8 + 1) (Z.of_nat (S (length inter)))), (Z.ltb_spec (k / 8) (Z.of_nat (length inter))); lia || done.
Qed.
