(* ===== verification/QRSymbol.v ===== *)
(** * The drawn symbol

    Format and version information only overwrite reserved modules, so the
    modules free for data are those of the function patterns alone; the
    placement fills them and leaves the format information readable. *)

From S2P Require Import Prelude Text Utf8 GaloisField ReedSolomon QR QRPlacement QRScan.

Open Scope Z_scope.

(** ** Modules that are taken stay taken *)

Lemma taken_self m r c v : ¬ is_free (mset r c v m) (r, c).
Proof.
  unfold is_free. cbn [fst snd]. intros H. destruct (cell m r c) as [x|] eqn:E.
  - by rewrite (cell_mset_eq m r c v x E) in H.
  - unfold cell, mset in *. rewrite list_lookup_alter_eq in H. destruct (m !! Z.to_nat r) as [row|]; cbn in *; [|done].
    rewrite list_insert_ge in H by (by apply lookup_ge_None). congruence.
Qed.

Lemma free_mset m r c v q : 0 <= r → 0 <= c → on_grid q → is_free (mset r c v m) q → is_free m q ∧ q ≠ (r, c).
Proof.
  intros Hr Hc [G1 G2] H. destruct (decide (q = (r, c))) as [->|Hne]; [by apply taken_self in H|]. split; [|done].
  unfold is_free in *. rewrite cell_mset_ne in H; try done. destruct q as [r' c']. cbn in *.
  destruct (decide (r = r')) as [->|]; [|by left]. right. by intros ->.
Qed.

Lemma free_mset_back m r c v q : 0 <= r → 0 <= c → on_grid q → is_free m q → q ≠ (r, c) → is_free (mset r c v m) q.
Proof.
  intros Hr Hc [G1 G2] H Hne. unfold is_free in *. rewrite cell_mset_ne; try done. destruct q as [r' c']. cbn in *.
  destruct (decide (r = r')) as [->|]; [|by left]. right. by intros ->.
Qed.

(** A fold of writes over a list that contains [x] takes the module [q], and
    keeps it when it is taken. *)
Lemma taken_fold_keep {A} (f : matrix → A → matrix) l q m :
  (∀ m y, y ∈ l → ¬ is_free m q → ¬ is_free (f m y) q) → ¬ is_free m q → ¬ is_free (foldl f m l) q.
Proof.
  revert m. induction l as [|y l IH]; intros m Hf Hm; [done|]. cbn [foldl]. apply IH; [set_solver|]. apply Hf; set_solver.
Qed.

Lemma taken_fold {A} (f : matrix → A → matrix) l x q m :
  (∀ m y, y ∈ l → ¬ is_free m q → ¬ is_free (f m y) q) → (∀ m, ¬ is_free (f m x) q) → x ∈ l → ¬ is_free (foldl f m l) q.
Proof.
  revert m. induction l as [|y l IH]; intros m Hf Hx Hin; [by apply elem_of_nil in Hin|]. cbn [foldl].
  apply elem_of_cons in Hin as [<-|Hin]; [apply taken_fold_keep; [set_solver|done]|]. apply IH; [set_solver|done|done].
Qed.

(** Writing taken modules does not change which are free. *)
Lemma free_fold {A} (f : matrix → A → matrix) l m0 m q :
  (∀ m x, x ∈ l → (∀ q, on_grid q → is_free m q ↔ is_free m0 q) → ∀ q, on_grid q → is_free (f m x) q ↔ is_free m0 q) →
  (∀ q, on_grid q → is_free m q ↔ is_free m0 q) → on_grid q → is_free (foldl f m l) q ↔ is_free m0 q.
Proof.
  revert m q. induction l as [|x l IH]; intros m q Hf Hm Hq; [by apply Hm|]. cbn [foldl].
  apply IH; [| |done].
  - intros m' y Hy. apply Hf. by right.
  - apply Hf; [by left|done].
Qed.

Lemma free_write m m0 r c v :
  0 <= r → 0 <= c → ¬ is_free m0 (r, c) → (∀ q, on_grid q → is_free m q ↔ is_free m0 q) →
  ∀ q, on_grid q → is_free (mset r c v m) q ↔ is_free m0 q.
Proof.
  intros Hr Hc Hnot Hm q Hq. rewrite <- Hm by done. split.
  - intros H. by apply free_mset in H as [? _].
  - intros H. apply free_mset_back; try done. intros ->. apply Hnot. by apply Hm.
Qed.

(** ** The reserved areas *)

Lemma format_grid size i : 17 <= size → 0 <= i < 15 → on_grid (format_cell_v size i) ∧ on_grid (format_cell_h size i).
Proof.
  intros Hs Hi. unfold on_grid, format_cell_v, format_cell_h.
  destruct (Z.ltb_spec i 6), (Z.ltb_spec i 8), (Z.ltb_spec i 9); cbn; lia.
Qed.

(** A write keeps a module taken. *)
Lemma taken_mset m r c v q : 0 <= r → 0 <= c → on_grid q → ¬ is_free m q → ¬ is_free (mset r c v m) q.
Proof. intros Hr Hc Hq H Hf. apply H. by apply free_mset in Hf as [? _]. Qed.

Lemma taken_set m p v q : on_grid p → on_grid q → ¬ is_free m q → ¬ is_free (set_at p v m) q.
Proof. destruct p as [r c]. intros [H1 H2]. by apply taken_mset. Qed.

Lemma taken_format size bit m i q :
  17 <= size → 0 <= i < 15 → q = format_cell_v size i ∨ q = format_cell_h size i → ¬ is_free (place_format size bit m) q.
Proof.
  intros Hs Hi Hq. assert (Hg : on_grid q) by (pose proof (format_grid size i Hs Hi); destruct Hq as [-> | ->]; tauto).
  apply (taken_fold _ _ i); [| |apply elem_of_seqZ; lia].
  - intros m' y Hy%elem_of_seqZ Hm. destruct (format_grid size y Hs ltac:(lia)) as [G1 G2]. by apply taken_set, taken_set.
  - intros m'. destruct (format_grid size i Hs Hi) as [G1 G2]. destruct Hq as [-> | ->].
    + apply taken_set; [done..|]. unfold set_at. destruct (format_cell_v size i) as [r c]. apply taken_self.
    + unfold set_at at 1. destruct (format_cell_h size i) as [r c]. apply taken_self.
Qed.

Lemma version_grid size i : 17 <= size → 0 <= i < 18 → 0 <= i mod 3 + size - 11 ∧ 0 <= i / 3.
Proof. intros. Z.div_mod_to_equations. lia. Qed.

Lemma taken_version_keep size bit m q : 17 <= size → on_grid q → ¬ is_free m q → ¬ is_free (place_version size bit m) q.
Proof.
  intros Hs Hq Hm. apply taken_fold_keep; [|done]. intros m' y Hy%elem_of_seqZ Hm'.
  destruct (version_grid size y Hs ltac:(lia)) as [G1 G2]. by apply taken_mset, taken_mset.
Qed.

Lemma taken_version size bit m i q :
  17 <= size → 0 <= i < 18 → q = (i / 3, i mod 3 + size - 11) ∨ q = (i mod 3 + size - 11, i / 3) →
  ¬ is_free (place_version size bit m) q.
Proof.
  intros Hs Hi Hq. destruct (version_grid size i Hs Hi) as [G1 G2].
  assert (Hg : on_grid q) by (unfold on_grid; destruct Hq as [-> | ->]; cbn; lia).
  apply (taken_fold _ _ i); [| |apply elem_of_seqZ; lia].
  - intros m' y Hy%elem_of_seqZ Hm. destruct (version_grid size y Hs ltac:(lia)) as [G3 G4]. by apply taken_mset, taken_mset.
  - intros m'. destruct Hq as [-> | ->]; [apply taken_mset; try done|]; apply taken_self.
Qed.

(** ** Before the placement *)

(** The symbol with its function patterns and information, before the data. *)
Definition prepared (version : nat) (ec : QRECLevel) (mask_idx : Z) : matrix :=
  let size := symbol_size version in
  let m := place_format size (info_bit (bch_format_info ec mask_idx)) (base_matrix version) in
  if (7 <=? version)%nat then place_version size (info_bit (bch_version_info (Z.of_nat version))) m else m.

Lemma base_format_taken version i q :
  (1 <= version)%nat → 0 <= i < 15 → q = format_cell_v (symbol_size version) i ∨ q = format_cell_h (symbol_size version) i →
  ¬ is_free (base_matrix version) q.
Proof.
  intros Hv Hi Hq. assert (Hs : 17 <= symbol_size version) by (unfold symbol_size; lia).
  unfold base_matrix. cbv zeta. destruct (7 <=? version)%nat; [|by eapply taken_format].
  apply taken_version_keep; [done| |by eapply taken_format].
  pose proof (format_grid _ i Hs Hi). destruct Hq as [-> | ->]; tauto.
Qed.

Lemma prepared_free version ec mask q :
  (1 <= version)%nat → on_grid q → is_free (prepared version ec mask) q ↔ is_free (base_matrix version) q.
Proof.
  intros Hv. assert (Hs : 17 <= symbol_size version) by (unfold symbol_size; lia). revert q.
  assert (Hfmt : ∀ bit q, on_grid q → is_free (place_format (symbol_size version) bit (base_matrix version)) q
                                        ↔ is_free (base_matrix version) q).
  { intros bit q. apply free_fold; [|done]. intros m i Hi%elem_of_seqZ Hm.
    destruct (format_grid _ i Hs ltac:(lia)) as [[G1 G2] [G3 G4]]. unfold set_at.
    apply free_write; try done; [|apply free_write; try done].
    - apply (base_format_taken version i); [done|lia|]. right. by destruct (format_cell_h _ i).
    - apply (base_format_taken version i); [done|lia|]. left. by destruct (format_cell_v _ i). }
  intros q. unfold prepared. cbv zeta. destruct (7 <=? version)%nat eqn:E7; [|apply Hfmt].
  apply free_fold; [|apply Hfmt]. intros m i Hi%elem_of_seqZ Hm.
  destruct (version_grid (symbol_size version) i Hs ltac:(lia)) as [G1 G2].
  assert (Ht : ∀ p, p = (i / 3, i mod 3 + symbol_size version - 11) ∨ p = (i mod 3 + symbol_size version - 11, i / 3) →
    ¬ is_free (base_matrix version) p).
  { intros p Hp. unfold base_matrix. cbv zeta. rewrite E7. apply (taken_version _ _ _ i); [done|lia|done]. }
  apply free_write; try done; [|apply free_write; try done]; apply Ht; tauto.
Qed.

Lemma prepared_square version ec mask : square (Z.to_nat (symbol_size version)) (prepared version ec mask).
Proof.
  unfold prepared. cbv zeta. pose proof (square_base version). destruct (7 <=? version)%nat; auto with square.
Qed.

(** The matrix after the placement. *)
Definition placed (version : nat) (ec : QRECLevel) (inter : list Z) (mask_idx : Z) : matrix :=
  (foldl (put mask_idx inter) (prepared version ec mask_idx, 7, 0) (path (symbol_size version))).1.1.

(** The placement ends; the matrix is the fold along the path. *)
Lemma masked_placed version ec inter mask :
  (1 <= version)%nat → masked version ec inter mask = Some (to_bool (placed version ec inter mask)).
Proof.
  intros Hv. unfold masked. cbv zeta. fold (prepared version ec mask).
  by rewrite place_data_path by by apply symbol_size_side.
Qed.

Lemma path_grid version : (1 <= version)%nat → Forall on_grid (path (symbol_size version)).
Proof.
  intros Hv. apply Forall_forall. intros [r c] Hin. apply path_inside in Hin; [|by apply symbol_size_side].
  unfold on_grid. cbn. lia.
Qed.

(** What the placement leaves in the free modules, and in the others. *)
Lemma placed_cells version ec inter mask :
  (1 <= version)%nat →
  (∀ q, on_grid q → ¬ is_free (base_matrix version) q → cell (placed version ec inter mask) q.1 q.2 = cell (prepared version ec mask) q.1 q.2) ∧
  (∀ i q, read_cells version !! i = Some q →
     cell (placed version ec inter mask) q.1 q.2 = Some (Some (xorb (mask_func mask q.1 q.2) (stream inter (Z.of_nat i))))).
Proof.
  intros Hv. destruct (put_fold mask inter (path (symbol_size version)) (prepared version ec mask) 7 0) as [H1 H2].
  - by apply path_nodup, symbol_size_side.
  - by apply path_grid.
  - lia.
  - split.
    + intros q Hq Hnot. apply H1; [done|]. intros Hf. apply prepared_free in Hf; done.
    + intros i q Hi. apply (H2 i q). rewrite <- Hi. unfold read_cells. f_equal. apply filter_ext_in. intros x Hx.
      apply prepared_free; [done|]. pose proof (path_grid version Hv) as Hg. rewrite Forall_forall in Hg. by apply Hg.
Qed.

(** ** Reading the modules *)

Lemma module_to_bool m q b : cell m q.1 q.2 = Some (Some b) → module_at (to_bool m) q = b.
Proof.
  unfold cell, module_at, bcell, to_bool. intros H. apply bind_Some in H as (row & Hr & Hc).
  rewrite (nth_lookup_Some _ _ _ (cell_bool <$> row)) by (by rewrite list_lookup_fmap, Hr).
  by rewrite (nth_lookup_Some _ _ _ b) by (by rewrite list_lookup_fmap, Hc).
Qed.

Lemma read_bits_placed version ec inter mask :
  (1 <= version)%nat →
  read_bits version mask (to_bool (placed version ec inter mask)) =
    (λ k, Z.b2z (stream inter k)) <$> seqZ 0 (Z.of_nat (length (read_cells version))).
Proof.
  intros Hv. destruct (placed_cells version ec inter mask Hv) as [_ Hc]. apply list_eq. intros i. unfold read_bits.
  rewrite !list_lookup_fmap. destruct (read_cells version !! i) as [q|] eqn:Eq.
  - rewrite (lookup_seqZ_lt 0 _ i) by (apply lookup_lt_Some in Eq; lia). cbn [fmap option_fmap option_map].
    rewrite (module_to_bool _ _ _ (Hc i q Eq)). do 2 f_equal. rewrite Z.add_0_l.
    by destruct (mask_func mask q.1 q.2), (stream inter (Z.of_nat i)).
  - apply lookup_ge_None in Eq. by rewrite (lookup_seqZ_ge 0 _ i) by lia.
Qed.

(** The codewords come back when the symbol has room for them. *)
Lemma read_codewords version ec inter mask :
  (1 <= version)%nat → bytes_ok inter → (length inter * 8 <= length (read_cells version))%nat →
  codewords_of (length inter) (read_bits version mask (to_bool (placed version ec inter mask))) = inter.
Proof.
  intros Hv Hi Hl. rewrite read_bits_placed by done. set (n := length (read_cells version)) in *.
  replace (Z.of_nat n) with (8 * Z.of_nat (length inter) + (Z.of_nat n - 8 * Z.of_nat (length inter))) by lia.
  rewrite seqZ_app, fmap_app, stream_bits by lia. by apply codewords_of_bytes.
Qed.

(** ** Format information *)

(** The fifteen bits of a format word. *)
Definition format_word (w : QRECLevel * Z) : list bool := info_bit (bch_format_info w.1 w.2) <$> seqZ 0 15.
Definition format_words : list (QRECLevel * Z) := list_prod [EC_L; EC_M; EC_Q; EC_H] (seqZ 0 8).

(** The nearest word, when it differs in at most three bits. *)
Definition read_format (bits : list bool) : option (QRECLevel * Z) :=
  List.find (λ w, differences bits (format_word w) <=? 3)%nat format_words.

Lemma format_words_apart :
  forallb (λ w, forallb (λ w', bool_decide (w = w') || (7 <=? differences (format_word w) (format_word w'))%nat) format_words)
    format_words = true.
Proof. by vm_compute. Qed.

Lemma format_distance w w' : w ∈ format_words → w' ∈ format_words → w ≠ w' →
  (7 <= differences (format_word w) (format_word w'))%nat.
Proof.
  intros H1 H2 Hne. pose proof format_words_apart as H. rewrite forallb_forall in H. apply list_elem_of_In in H1, H2.
  specialize (H w H1). rewrite forallb_forall in H. specialize (H w' H2). apply orb_true_iff in H as [H|H].
  - by apply bool_decide_eq_true in H.
  - by apply Nat.leb_le in H.
Qed.

Lemma length_format_word w : length (format_word w) = 15%nat.
Proof. unfold format_word. by rewrite length_fmap, length_seqZ. Qed.

Lemma read_format_near bits w :
  w ∈ format_words → length bits = 15%nat → (differences bits (format_word w) <= 3)%nat → read_format bits = Some w.
Proof.
  intros Hw Hl Hd. unfold read_format. destruct (List.find _ format_words) as [w'|] eqn:E.
  - apply List.find_some in E as [Hin Hd']. apply Nat.leb_le in Hd'. apply list_elem_of_In in Hin.
    destruct (decide (w' = w)) as [->|Hne]; [done|]. pose proof (format_distance w' w Hin Hw Hne).
    pose proof (differences_triangle (format_word w') bits (format_word w)) as Ht. rewrite !length_format_word in Ht.
    specialize (Ht ltac:(by symmetry) ltac:(done)). lia.
  - exfalso. apply List.find_none with (x := w) in E; [|by apply list_elem_of_In]. apply Nat.leb_gt in E. lia.
Qed.

Lemma fold_last {A} `{EqDecision A} (f : matrix → A → matrix) n l x q b m :
  (∀ m y, y ∈ l → square n m → square n (f m y)) →
  (∀ m y, y ∈ l → square n m → y ≠ x → cell (f m y) q.1 q.2 = cell m q.1 q.2) →
  (∀ m, square n m → cell (f m x) q.1 q.2 = Some (Some b)) → NoDup l → x ∈ l → square n m →
  cell (foldl f m l) q.1 q.2 = Some (Some b).
Proof.
  intros Hsq Hne Hx. revert m. induction l as [|y l IH] using rev_ind; intros m Hnd Hin Hm; [by apply elem_of_nil in Hin|].
  assert (Hm' : square n (foldl f m l)).
  { clear -Hsq Hm. revert m Hm. induction l as [|z l IHl]; intros m Hm; [done|]. cbn [foldl app] in *. apply IHl; [set_solver|].
    apply Hsq; [set_solver|done]. }
  rewrite foldl_app. cbn [foldl]. apply NoDup_app in Hnd as (Hnd & Hdis & _).
  destruct (decide (y = x)) as [->|Hyx]; [by apply Hx|].
  rewrite Hne by (done || set_solver). apply IH; [set_solver..|done|set_solver|done].
Qed.

Lemma symbol_size_nat version : Z.of_nat (Z.to_nat (symbol_size version)) = symbol_size version.
Proof. unfold symbol_size. lia. Qed.

Lemma format_v_inj size i j :
  17 <= size → 0 <= i < 15 → 0 <= j < 15 → format_cell_v size i = format_cell_v size j → i = j.
Proof.
  intros Hs Hi Hj. unfold format_cell_v.
  destruct (Z.ltb_spec i 6), (Z.ltb_spec i 8), (Z.ltb_spec j 6), (Z.ltb_spec j 8); intros E; injection E; lia.
Qed.

Lemma format_h_apart size i j :
  17 <= size → 0 <= i < 15 → 0 <= j < 15 → format_cell_h size i ≠ format_cell_v size j.
Proof.
  intros Hs Hi Hj. unfold format_cell_v, format_cell_h.
  destruct (Z.ltb_spec i 8), (Z.ltb_spec i 9), (Z.ltb_spec j 6), (Z.ltb_spec j 8); intros E; injection E; lia.
Qed.

Lemma set_at_ne m p q v : on_grid p → on_grid q → p ≠ q → cell (set_at p v m) q.1 q.2 = cell m q.1 q.2.
Proof.
  intros [G1 G2] [G3 G4] Hne. unfold set_at. apply cell_mset_ne; try done. destruct p as [r c], q as [r' c']. cbn in *.
  destruct (decide (r = r')) as [->|]; [|by left]. right. by intros ->.
Qed.

Lemma mset_ne m r c v q : 0 <= r → 0 <= c → on_grid q → (r, c) ≠ q → cell (mset r c v m) q.1 q.2 = cell m q.1 q.2.
Proof. intros Hr Hc. by apply (set_at_ne m (r, c) q v). Qed.

Lemma format_placed n size bit m i :
  17 <= size → Z.of_nat n = size → square n m → 0 <= i < 15 →
  cell (place_format size bit m) (format_cell_v size i).1 (format_cell_v size i).2 = Some (Some (bit i)).
Proof.
  intros Hs Hn Hm Hi. destruct (format_grid size i Hs Hi) as [Gv Gh].
  apply (fold_last _ n _ i); [|  |  |apply NoDup_seqZ|apply elem_of_seqZ; lia|done].
  - intros m' y _ Hm'. unfold set_at. auto with square.
  - intros m' y Hy%elem_of_seqZ Hm' Hne. destruct (format_grid size y Hs ltac:(lia)) as [Gv' Gh'].
    rewrite set_at_ne; [|done..|by apply format_h_apart; lia]. apply set_at_ne; [done..|].
    intros E. apply Hne. apply (format_v_inj size); [done|lia|lia|done].
  - intros m' Hm'. rewrite set_at_ne; [|done..|by apply format_h_apart].
    destruct (square_cell n m' (format_cell_v size i).1 (format_cell_v size i).2 Hm') as [x Ex].
    + unfold format_cell_v. destruct (Z.ltb_spec i 6), (Z.ltb_spec i 8); cbn; lia.
    + unfold format_cell_v. destruct (Z.ltb_spec i 6), (Z.ltb_spec i 8); cbn; lia.
    + unfold set_at. by eapply cell_mset_eq.
Qed.

Lemma version_apart size i j :
  45 <= size → 0 <= i < 18 → 0 <= j < 15 →
  (i / 3, i mod 3 + size - 11) ≠ format_cell_v size j ∧ (i mod 3 + size - 11, i / 3) ≠ format_cell_v size j.
Proof.
  intros Hs Hi Hj. unfold format_cell_v.
  destruct (Z.ltb_spec j 6), (Z.ltb_spec j 8); split; intros E; injection E; Z.div_mod_to_equations; lia.
Qed.

Lemma format_prepared version ec mask i :
  (1 <= version)%nat → 0 <= i < 15 →
  let q := format_cell_v (symbol_size version) i in
  cell (prepared version ec mask) q.1 q.2 = Some (Some (info_bit (bch_format_info ec mask) i)).
Proof.
  intros Hv Hi q. assert (Hs : 17 <= symbol_size version) by (unfold symbol_size; lia).
  destruct (format_grid _ i Hs Hi) as [Gv _]. fold q in Gv.
  pose proof (format_placed _ _ (info_bit (bch_format_info ec mask)) _ i Hs (symbol_size_nat version) (square_base version) Hi) as E.
  unfold prepared. cbv zeta. destruct (7 <=? version)%nat eqn:E7; [|exact E]. apply Nat.leb_le in E7.
  assert (Hs45 : 45 <= symbol_size version) by (unfold symbol_size; lia). rewrite <- E. fold q. generalize (place_format (symbol_size version)
    (info_bit (bch_format_info ec mask)) (base_matrix version)). unfold place_version.
  assert (Hl : Forall (λ k, 0 <= k < 18) (seqZ 0 18)) by (apply Forall_forall; intros k Hk%elem_of_seqZ; lia).
  induction Hl as [|k l Hk _ IH]; intros m; [done|]. cbn [foldl]. rewrite IH.
  destruct (version_apart _ k i Hs45 Hk Hi) as [A1 A2]. destruct (version_grid _ k Hs Hk) as [G1 G2].
  by rewrite !mset_ne.
Qed.

(** The format information of a placed symbol. *)
Definition format_bits (m : bmatrix) (size : Z) : list bool := (λ i, module_at m (format_cell_v size i)) <$> seqZ 0 15.

Lemma format_bits_placed version ec inter mask :
  (1 <= version)%nat → format_bits (to_bool (placed version ec inter mask)) (symbol_size version) = format_word (ec, mask).
Proof.
  intros Hv. apply list_fmap_ext. intros k i Hi%list_elem_of_lookup_2. apply elem_of_seqZ in Hi.
  assert (Hs : 17 <= symbol_size version) by (unfold symbol_size; lia).
  apply module_to_bool. destruct (format_grid _ i Hs ltac:(lia)) as [Gv _].
  rewrite (proj1 (placed_cells version ec inter mask Hv)); [|done|].
  - apply format_prepared; [done|lia].
  - apply (base_format_taken version i); [done|lia|by left].
Qed.
