(* ===== verification/QRTheorems.v ===== *)
(** * QR symbols: theorems

    The symbol of [QRCode] can be read back, whatever the payload, the level
    and the version, also from the terminal; the constructor fails exactly when
    no version has room; the mask is the one of least penalty; damage within
    the correction capacity leaves one payload only.  A version given by the
    caller is not checked against the payload. *)

From S2P Require Import Prelude Text Utf8 GaloisField ReedSolomon QR QRPlacement QRScan QRSymbol QRRoom.

Open Scope Z_scope.

(** ** Facts of the tables *)

Definition level_ok (version : nat) (ec : QRECLevel) : bool :=
  let blocks := get_rs_blocks version ec in
  forallb (λ b : nat * nat, (0 <? b.2) && (b.2 <? b.1) && (b.1 <=? 255))%nat blocks
  && (total_codewords blocks =? total_codewords (get_rs_blocks version EC_L))%nat
  && (Z.of_nat (total_data blocks) <? 2 ^ Z.of_nat (char_count_bits version)).

Lemma tables_ok : forallb (λ v, forallb (level_ok v) levels) (seq 1 40) = true.
Proof. by vm_compute. Qed.

Definition valid_version (v : nat) : Prop := (1 <= v <= 40)%nat.

Lemma table_facts v ec :
  valid_version v →
  Forall block_ok (get_rs_blocks v ec) ∧ (total_codewords (get_rs_blocks v ec) * 8 <= length (read_cells v))%nat ∧
  Z.of_nat (total_data (get_rs_blocks v ec)) < 2 ^ Z.of_nat (char_count_bits v).
Proof.
  intros Hv. assert (Hin : v ∈ seq 1 40) by (apply elem_of_seq; unfold valid_version in Hv; lia). apply list_elem_of_In in Hin.
  pose proof tables_ok as Ht. rewrite forallb_forall in Ht. specialize (Ht v Hin). rewrite forallb_forall in Ht.
  specialize (Ht ec ltac:(destruct ec; cbn; tauto)). unfold level_ok in Ht. rewrite !andb_true_iff in Ht.
  destruct Ht as [[H1 H2] H3]. apply Nat.eqb_eq in H2. apply Z.ltb_lt in H3.
  pose proof versions_have_room as Hr. rewrite forallb_forall in Hr. specialize (Hr v Hin). unfold room_ok in Hr.
  apply andb_true_iff in Hr as [Hr Htm]. apply Nat.leb_le in Hr. split; [|split; [|done]].
  - apply Forall_forall. intros b Hb. rewrite forallb_forall in H1. specialize (H1 b ltac:(by apply list_elem_of_In)).
    rewrite !andb_true_iff, !Nat.ltb_lt, Nat.leb_le in H1. unfold block_ok. lia.
  - rewrite H2. pose proof (read_cells_count v ltac:(unfold valid_version in Hv; lia) Htm). lia.
Qed.

(** ** The reader *)

(** Read a symbol: version from the size, level and mask from the format
    information, codewords, blocks, payload. *)
Definition scan (m : bmatrix) : option bytes :=
  let version := ((length m - 17) / 4)%nat in
  '(ec, mask) ← read_format (format_bits m (symbol_size version));
  let blocks := get_rs_blocks version ec in
  let cws := codewords_of (total_codewords blocks) (read_bits version mask m) in
  read_payload version (mjoin (read_blocks blocks cws)).

Lemma fits_spec len v ec :
  fits len v ec = true ↔ (4 + char_count_bits v + len * 8 <= total_data (get_rs_blocks v ec) * 8)%nat.
Proof. apply Nat.leb_le. Qed.

Definition the_codewords (v : nat) (ec : QRECLevel) (data : bytes) : list Z :=
  data_codewords v (total_data (get_rs_blocks v ec)) data.
Definition the_stream (v : nat) (ec : QRECLevel) (data : bytes) : list Z :=
  interleaved (get_rs_blocks v ec) (the_codewords v ec data).

Lemma length_square {A} n (m : list (list A)) : square n m → length m = n.
Proof. by intros [? _]. Qed.

Lemma square_put n p inter qs : ∀ s, square n s.1.1 → square n (foldl (put p inter) s qs).1.1.
Proof.
  induction qs as [|q qs IH]; intros [[m bit] byte] Hm; [done|]. cbn [foldl]. apply IH. unfold put.
  destruct (cell m q.1 q.2) as [[b|]|]; [done| |done]. cbn [fst] in *. auto with square.
Qed.

Lemma placed_square v ec inter mask : square (Z.to_nat (symbol_size v)) (to_bool (placed v ec inter mask)).
Proof.
  destruct (square_put _ mask inter (path (symbol_size v)) (prepared v ec mask, 7, 0) (prepared_square v ec mask)) as [H1 H2].
  fold (placed v ec inter mask) in *. unfold to_bool. split; [by rewrite length_fmap|]. apply Forall_fmap.
  eapply Forall_impl; [exact H2|]. intros row Hrow. cbn. by rewrite length_fmap.
Qed.

Lemma mask_word ec mask : 0 <= mask < 8 → (ec, mask) ∈ format_words.
Proof.
  intros H. unfold format_words. apply list_elem_of_In, List.in_prod; apply list_elem_of_In.
  - destruct ec; set_solver.
  - apply elem_of_seqZ. lia.
Qed.

(** A symbol with any mask scans when the payload fits. *)
Lemma placed_scans v ec data mask :
  valid_version v → bytes_ok data → fits (length data) v ec = true → 0 <= mask < 8 →
  scan (to_bool (placed v ec (the_stream v ec data) mask)) = Some data.
Proof.
  intros Hv Hd Hfit%fits_spec Hmask. destruct (table_facts v ec Hv) as (Hb & Hroom & Hcc).
  set (blocks := get_rs_blocks v ec) in *.
  destruct (data_codewords_shape v (total_data blocks) data Hfit) as (Hlen & Hok & _).
  destruct (interleaved_shape blocks (the_codewords v ec data) Hb Hok Hlen) as [Hil Hio].
  set (m := to_bool _). assert (Hm : length m = Z.to_nat (symbol_size v)) by (apply length_square, placed_square).
  assert (E : ((length m - 17) / 4)%nat = v).
  { rewrite Hm. unfold symbol_size. replace (Z.to_nat (Z.of_nat v * 4 + 17) - 17)%nat with (v * 4)%nat by lia.
    by apply Nat.div_mul. }
  unfold scan. cbv zeta. rewrite E. subst m. assert (Hv1 : (1 <= v)%nat) by (unfold valid_version in Hv; lia).
  rewrite format_bits_placed by done.
  rewrite (read_format_near _ (ec, mask)) by (try apply length_format_word; try (by apply mask_word); rewrite differences_refl; lia).
  cbn [mbind option_bind]. fold blocks. rewrite <- Hil. rewrite read_codewords by (done || (unfold the_stream; fold blocks; lia)).
  unfold the_stream. fold blocks. rewrite <- (app_nil_r (interleaved blocks _)).
  rewrite read_blocks_interleaved by done. apply read_payload_codewords; [done| |done]. lia.
Qed.

(** ** The mask *)

Definition symbol_of (v : nat) (ec : QRECLevel) (inter : list Z) (mask : Z) : bmatrix := to_bool (placed v ec inter mask).
Definition penalty_of (v : nat) (ec : QRECLevel) (inter : list Z) (mask : Z) : Z :=
  calculate_mask_penalty (symbol_of v ec inter mask) (Z.to_nat (symbol_size v)).

(** [k] is the first mask of least penalty among those below [n]. *)
Definition first_least (v : nat) (ec : QRECLevel) (inter : list Z) (n k : Z) : Prop :=
  0 <= k < n ∧ ∀ j, 0 <= j < n → penalty_of v ec inter k <= penalty_of v ec inter j ∧
                                 (j < k → penalty_of v ec inter k < penalty_of v ec inter j).

Definition candidate (v : nat) (ec : QRECLevel) (inter : list Z) (k : Z) : Z * Z * bmatrix :=
  (k, penalty_of v ec inter k, symbol_of v ec inter k).

Lemma first_least_step v ec inter a k :
  first_least v ec inter a k →
  first_least v ec inter (a + 1) (if penalty_of v ec inter a <? penalty_of v ec inter k then a else k).
Proof.
  intros [Hk Hj]. destruct (Z.ltb_spec (penalty_of v ec inter a) (penalty_of v ec inter k)) as [Hlt|Hge].
  - split; [lia|]. intros j Hj'. destruct (decide (j = a)) as [->|]; [lia|]. specialize (Hj j ltac:(lia)). lia.
  - split; [lia|]. intros j Hj'. destruct (decide (j = a)) as [->|]; [lia|]. apply Hj. lia.
Qed.

Lemma best_of_least v ec inter n : (1 <= v)%nat → ∀ a k,
  first_least v ec inter a k →
  ∃ k', best_of v ec inter (seqZ a (Z.of_nat n)) (Some (candidate v ec inter k)) = Some (candidate v ec inter k') ∧
    first_least v ec inter (a + Z.of_nat n) k'.
Proof.
  intros Hv. induction n as [|n IH]; intros a k Hk.
  - exists k. rewrite Z.add_0_r. done.
  - rewrite seqZ_cons by lia. replace (Z.pred (Z.of_nat (S n))) with (Z.of_nat n) by lia. cbn [best_of].
    rewrite masked_placed by done. cbn [mbind option_bind]. cbv zeta. unfold candidate at 1.
    destruct (IH (Z.succ a) (if penalty_of v ec inter a <? penalty_of v ec inter k then a else k)) as (k' & E & Hk').
    { apply first_least_step in Hk. by replace (Z.succ a) with (a + 1) by lia. }
    exists k'. replace (a + Z.of_nat (S n)) with (Z.succ a + Z.of_nat n) by lia. split; [|done]. rewrite <- E. f_equal.
    fold (symbol_of v ec inter a). fold (penalty_of v ec inter a). by destruct (_ <? _).
Qed.

Lemma best_of_masks v ec inter :
  (1 <= v)%nat →
  ∃ k, best_of v ec inter (seqZ 0 8) None = Some (candidate v ec inter k) ∧ first_least v ec inter 8 k.
Proof.
  intros Hv. rewrite seqZ_cons by lia. cbn [best_of]. rewrite masked_placed by done. cbn [mbind option_bind]. cbv zeta.
  apply (best_of_least v ec inter 7 Hv 1 0). split; [lia|]. intros j Hj. assert (j = 0) as -> by lia. lia.
Qed.

Lemma generate_least v ec data :
  (1 <= v)%nat →
  ∃ k, generate v ec data = Some (k, symbol_of v ec (the_stream v ec data) k) ∧ first_least v ec (the_stream v ec data) 8 k.
Proof.
  intros Hv. destruct (best_of_masks v ec (the_stream v ec data) Hv) as (k & E & Hk). exists k. split; [|done].
  unfold generate. cbv zeta. fold (the_codewords v ec data). fold (the_stream v ec data). by rewrite E.
Qed.

(** ** The constructor *)

(** The bytes of the payload, when it can be encoded. *)
Definition raw_of (data : qr_data) : option bytes := match data with QStr s => utf8_encode s | QBytes b => Some b end.
Definition data_ok (data : qr_data) : Prop := match data with QStr _ => True | QBytes b => bytes_ok b end.

(** The version the constructor uses. *)
Definition version_of (raw : bytes) (ec : QRECLevel) (version : option Z) : result qr_error nat :=
  match version with
  | Some v => if (1 <=? v) && (v <=? 40) then Ok (Z.to_nat v) else Err QRVersionRange
  | None => of_option (find_min_version (length raw) ec) QRCapacity
  end.

Lemma find_min_spec len ec v :
  find_min_version len ec = Some v ↔ valid_version v ∧ fits len v ec = true ∧ ∀ v', (1 <= v' < v)%nat → fits len v' ec = false.
Proof.
  unfold find_min_version, valid_version.
  assert (G : ∀ n a, List.find (λ v, fits len v ec) (seq a n) = Some v ↔
    (a <= v < a + n)%nat ∧ fits len v ec = true ∧ ∀ v', (a <= v' < v)%nat → fits len v' ec = false).
  { induction n as [|n IH]; intros a; [split; [done|lia]|]. cbn [seq List.find]. destruct (fits len a ec) eqn:Ea.
    - split; [intros E; injection E as <-; split; [lia|]; split; [done|lia]|]. intros (H1 & H2 & H3).
      destruct (decide (a = v)) as [->|]; [done|]. specialize (H3 a ltac:(lia)). congruence.
    - rewrite IH. split; intros (H1 & H2 & H3); split; try lia.
      + split; [done|]. intros v' Hv'. destruct (decide (v' = a)) as [->|]; [done|]. apply H3. lia.
      + destruct (decide (a = v)) as [->|]; [congruence|]. lia.
      + split; [done|]. intros v' Hv'. apply H3. lia. }
  rewrite G. split; intros (H1 & H2 & H3); (split; [lia|done]).
Qed.

Lemma find_min_none len ec : find_min_version len ec = None ↔ ∀ v, valid_version v → fits len v ec = false.
Proof.
  split.
  - intros E v Hv. apply List.find_none with (x := v) in E; [done|]. apply list_elem_of_In, elem_of_seq.
    unfold valid_version in Hv. lia.
  - intros H. destruct (find_min_version len ec) as [v|] eqn:E; [|done]. apply find_min_spec in E as (Hv & Hf & _).
    by rewrite H in Hf.
Qed.

Lemma version_of_valid raw ec version v : version_of raw ec version = Ok v → valid_version v.
Proof.
  unfold version_of, valid_version. destruct version as [z|].
  - destruct (Z.leb_spec 1 z), (Z.leb_spec z 40); cbn; intros E; try done. injection E as <-. lia.
  - intros E%of_option_Ok. by apply find_min_spec in E as [? _].
Qed.

(** What the constructor builds. *)
Lemma init_shape data ec version raw v :
  raw_of data = Some raw → version_of raw ec version = Ok v →
  ∃ k, QRCode_init data ec version = Ok {| data_raw := raw; ec_level := ec; qr_version := v; qr_size := symbol_size v;
         mask_pattern := k; qr_matrix := symbol_of v ec (the_stream v ec raw) k |} ∧
       first_least v ec (the_stream v ec raw) 8 k.
Proof.
  intros Hr Hv. pose proof (version_of_valid _ _ _ _ Hv) as Hvv. unfold valid_version in Hvv.
  destruct (generate_least v ec raw ltac:(lia)) as (k & E & Hk). exists k. split; [|done].
  unfold QRCode_init. fold (raw_of data). rewrite Hr. cbn [of_option mbind result_bind]. fold (version_of raw ec version).
  rewrite Hv. cbn [mbind result_bind]. rewrite E. done.
Qed.

Lemma init_inv data ec version q :
  QRCode_init data ec version = Ok q →
  raw_of data = Some (data_raw q) ∧ version_of (data_raw q) ec version = Ok (qr_version q) ∧ ec_level q = ec.
Proof.
  unfold QRCode_init. fold (raw_of data). intros H. apply bind_Ok in H as (raw & Hr%of_option_Ok & H).
  fold (version_of raw ec version) in H. apply bind_Ok in H as (v & Hv & H). apply bind_Ok in H as (r & _ & H).
  injection H as <-. done.
Qed.

(** ** Theorems *)

Lemma raw_ok data raw : data_ok data → raw_of data = Some raw → bytes_ok raw.
Proof. destruct data as [s|b]; cbn; [intros _; apply utf8_encode_ok|]. by intros H [= <-]. Qed.

Lemma init_scans data ec version q :
  data_ok data → QRCode_init data ec version = Ok q →
  version = None ∨ fits (length (data_raw q)) (qr_version q) ec = true → scan (qr_matrix q) = Some (data_raw q).
Proof.
  intros Hd Hq Hfit. destruct (init_inv _ _ _ _ Hq) as (Hr & Hv & _). destruct (init_shape _ _ _ _ _ Hr Hv) as (k & E & [Hk _]).
  rewrite Hq in E. injection E as E. rewrite E. cbn [qr_matrix data_raw]. unfold symbol_of. apply placed_scans; [| | |done].
  - by eapply version_of_valid.
  - by eapply raw_ok.
  - destruct Hfit as [->|Hf]; [|done]. apply of_option_Ok, find_min_spec in Hv. tauto.
Qed.

(** C26: Every symbol can be read back: for a payload given as text or bytes,
    any level, and a version chosen by the constructor (or given and large
    enough), the reader gets from the matrix exactly the payload's bytes. *)
Theorem symbol_scans data ec version q :
  data_ok data → QRCode_init data ec version = Ok q →
  version = None ∨ fits (length (data_raw q)) (qr_version q) ec = true → scan (qr_matrix q) = Some (data_raw q).
Proof. apply init_scans. Qed.

(** The constructor always ends.  It fails when a text cannot be encoded,
    when a given version is not between 1 and 40, and, without a version,
    when no version has room; otherwise it succeeds, without a version with
    the least version that has room. *)
Theorem constructor_outcome data ec version :
  match raw_of data with
  | None => QRCode_init data ec version = Err QRUnencodable
  | Some raw =>
      match version with
      | Some v =>
          if (1 <=? v) && (v <=? 40)
          then ∃ q, QRCode_init data ec version = Ok q ∧ Z.of_nat (qr_version q) = v ∧ data_raw q = raw
          else QRCode_init data ec version = Err QRVersionRange
      | None =>
          (∃ q, QRCode_init data ec version = Ok q ∧ data_raw q = raw ∧ fits (length raw) (qr_version q) ec = true ∧
                ∀ v, (1 <= v < qr_version q)%nat → fits (length raw) v ec = false) ∨
          (QRCode_init data ec version = Err QRCapacity ∧ ∀ v, valid_version v → fits (length raw) v ec = false)
      end
  end.
Proof.
  destruct (raw_of data) as [raw|] eqn:Hr; [|unfold QRCode_init; fold (raw_of data); by rewrite Hr].
  destruct version as [v|].
  - destruct ((1 <=? v) && (v <=? 40)) eqn:Ev.
    + destruct (init_shape data ec (Some v) raw (Z.to_nat v) Hr) as (k & E & _); [cbn; by rewrite Ev|].
      eexists. split; [exact E|]. cbn. split; [lia|done].
    + unfold QRCode_init. fold (raw_of data). rewrite Hr. cbn. by rewrite Ev.
  - destruct (find_min_version (length raw) ec) as [v|] eqn:Ef.
    + left. destruct (init_shape data ec None raw v Hr) as (k & E & _); [unfold version_of; by rewrite Ef|].
      eexists. split; [exact E|]. cbn [data_raw qr_version]. split; [done|]. apply find_min_spec in Ef. tauto.
    + right. split; [unfold QRCode_init; fold (raw_of data); rewrite Hr; cbn [of_option mbind result_bind]; by rewrite Ef|]. by apply find_min_none.
Qed.

(** The mask of a symbol has the least penalty of the eight, and it is
    the first with that penalty. *)
Theorem mask_is_least data ec version q :
  QRCode_init data ec version = Ok q →
  first_least (qr_version q) ec (the_stream (qr_version q) ec (data_raw q)) 8 (mask_pattern q).
Proof.
  intros Hq. destruct (init_inv _ _ _ _ Hq) as (Hr & Hv & _). destruct (init_shape _ _ _ _ _ Hr Hv) as (k & E & Hk).
  rewrite Hq in E. injection E as E. by rewrite E.
Qed.

(** The format information survives damage: with up to three of its
    fifteen bits flipped, the level and the mask are still read. *)
Theorem format_survives bits ec mask :
  0 <= mask < 8 → length bits = 15%nat → (differences bits (format_word (ec, mask)) <= 3)%nat →
  read_format bits = Some (ec, mask).
Proof. intros Hm. apply read_format_near. by apply mask_word. Qed.

(** *** Damaged codewords *)

(** The codewords of each block, with its correction. *)
Definition block_words (blocks : list (nat * nat)) (cws : list Z) : list (list Z) :=
  (λ b : list Z * list Z, b.1 ++ b.2) <$> split_blocks blocks cws.

(** Each received block differs from the block sent in at most half as many
    codewords as it has correction codewords. *)
Definition correctable (blocks : list (nat * nat)) (received sent : list (list Z)) : Prop :=
  ∀ j b w c, blocks !! j = Some b → received !! j = Some w → sent !! j = Some c →
    length w = length c ∧ (2 * differences w c <= b.1 - b.2)%nat.

Lemma split_blocks_lookup blocks : ∀ cws j b, length cws = total_data blocks → blocks !! j = Some b →
  ∃ d, split_blocks blocks cws !! j = Some (d, rs_encode_block d (b.1 - b.2)) ∧ length d = b.2 ∧ (bytes_ok cws → bytes_ok d).
Proof.
  induction blocks as [|[t d] blocks IH]; intros cws j b Hl Hj; [done|].
  unfold total_data in *. rewrite fmap_cons in Hl. change (list_sum (?x :: ?l)) with (x + list_sum l)%nat in Hl. cbn [snd] in Hl.
  cbn [split_blocks]. cbv zeta. destruct j as [|j].
  - injection Hj as <-. exists (take d cws). split; [done|]. split; [rewrite length_take; cbn; lia|]. apply Forall_take.
  - destruct (IH (drop d cws) j b) as (d' & E & Hd & Hok); [rewrite length_drop; lia|done|]. exists d'. split; [done|].
    split; [done|]. intros H. by apply Hok, Forall_drop.
Qed.

Lemma block_unique b d1 d2 w :
  block_ok b → bytes_ok d1 → bytes_ok d2 → length d1 = b.2 → length d2 = b.2 →
  let c1 := d1 ++ rs_encode_block d1 (b.1 - b.2) in let c2 := d2 ++ rs_encode_block d2 (b.1 - b.2) in
  length w = length c1 → (2 * differences w c1 <= b.1 - b.2)%nat → (2 * differences w c2 <= b.1 - b.2)%nat → d1 = d2.
Proof.
  intros [[Hb0 Hb1] Hb2] Hd1 Hd2 L1 L2 c1 c2 Hw D1 D2.
  destruct (rs_codeword d1 (b.1 - b.2)) as (R1 & R2 & R3); [lia|done|].
  destruct (rs_codeword d2 (b.1 - b.2)) as (S1 & S2 & S3); [lia|done|].
  assert (Lc1 : length c1 = b.1) by (subst c1; rewrite length_app; lia).
  assert (Lc2 : length c2 = b.1) by (subst c2; rewrite length_app; lia).
  assert (E : c1 = c2).
  { apply (rs_distance (b.1 - b.2)); try done; try lia.
    - by apply Forall_app_2.
    - by apply Forall_app_2.
    - pose proof (differences_triangle c1 w c2 ltac:(lia) ltac:(lia)). lia. }
  subst c1 c2. by apply app_inj_1 in E as [-> _]; [|lia].
Qed.

Lemma unambiguous_codewords blocks received cws1 cws2 :
  Forall block_ok blocks → bytes_ok cws1 → bytes_ok cws2 → length cws1 = total_data blocks → length cws2 = total_data blocks →
  length received = length blocks →
  correctable blocks received (block_words blocks cws1) → correctable blocks received (block_words blocks cws2) → cws1 = cws2.
Proof.
  intros Hb H1 H2 L1 L2 Lr C1 C2. destruct (split_blocks_data blocks cws1 L1) as [E1 _].
  destruct (split_blocks_data blocks cws2 L2) as [E2 _]. rewrite <- E1, <- E2. f_equal.
  apply list_eq. intros j. rewrite !list_lookup_fmap. destruct (blocks !! j) as [b|] eqn:Ej.
  - destruct (split_blocks_lookup blocks cws1 j b L1 Ej) as (d1 & S1 & K1 & O1).
    destruct (split_blocks_lookup blocks cws2 j b L2 Ej) as (d2 & S2 & K2 & O2).
    destruct (lookup_lt_is_Some_2 received j) as [w Ew]; [apply lookup_lt_Some in Ej; lia|].
    specialize (C1 j b w (d1 ++ rs_encode_block d1 (b.1 - b.2)) Ej Ew). specialize (C2 j b w (d2 ++ rs_encode_block d2 (b.1 - b.2)) Ej Ew).
    unfold block_words in C1, C2. rewrite list_lookup_fmap, S1 in C1. rewrite list_lookup_fmap, S2 in C2.
    destruct (C1 eq_refl) as [W1 D1]. destruct (C2 eq_refl) as [W2 D2].
    rewrite Forall_forall in Hb. specialize (Hb b (list_elem_of_lookup_2 _ _ _ Ej)).
    rewrite S1, S2. cbn. f_equal. exact (block_unique b d1 d2 w Hb (O1 H1) (O2 H2) K1 K2 W1 D1 D2).
  - assert (G : ∀ cws, split_blocks blocks cws !! j = None).
    { clear -Ej. revert j Ej. induction blocks as [|[t d] blocks IH]; intros [|j] Ej cws; try done. cbn. by apply IH. }
    by rewrite !G.
Qed.

(** Damage within the correction capacity is unambiguous: when each
    received block differs from the blocks of two payloads in at most half as
    many codewords as the block has correction codewords, the payloads are
    equal. *)
Theorem damage_is_unambiguous v ec data1 data2 received :
  valid_version v → bytes_ok data1 → bytes_ok data2 → fits (length data1) v ec = true → fits (length data2) v ec = true →
  length received = length (get_rs_blocks v ec) →
  correctable (get_rs_blocks v ec) received (block_words (get_rs_blocks v ec) (the_codewords v ec data1)) →
  correctable (get_rs_blocks v ec) received (block_words (get_rs_blocks v ec) (the_codewords v ec data2)) → data1 = data2.
Proof.
  intros Hv H1 H2 F1%fits_spec F2%fits_spec Lr C1 C2. destruct (table_facts v ec Hv) as (Hb & _ & Hcc).
  unfold the_codewords in *. set (blocks := get_rs_blocks v ec) in *.
  destruct (data_codewords_shape v (total_data blocks) data1 F1) as (L1 & O1 & _).
  destruct (data_codewords_shape v (total_data blocks) data2 F2) as (L2 & O2 & _).
  pose proof (unambiguous_codewords blocks received _ _ Hb O1 O2 L1 L2 Lr C1 C2) as E.
  pose proof (read_payload_codewords v (total_data blocks) data1 H1 ltac:(lia) F1) as P1. rewrite E in P1.
  rewrite (read_payload_codewords v (total_data blocks) data2 H2 ltac:(lia) F2) in P1. by injection P1.
Qed.

(** ** The terminal *)

(** The two modules a character shows. *)
Definition glyph_modules (c : Z) : bool * bool :=
  if c =? 9608 then (true, true) else if c =? 9600 then (true, false) else if c =? 9604 then (false, true) else (false, false).

Fixpoint glyph_rows (lines : list unicode) : bmatrix :=
  match lines with
  | [] => []
  | line :: lines' => ((λ c, (glyph_modules c).1) <$> line) :: ((λ c, (glyph_modules c).2) <$> line) :: glyph_rows lines'
  end.

(** Read a symbol off the terminal: the modules of the characters, without
    the quiet zone. *)
Definition scan_lines (border : nat) (lines : list unicode) : option bytes :=
  let width := length (hd [] lines) in
  let side := (width - 2 * border)%nat in
  scan ((λ row, take side (drop border row)) <$> take side (drop border (glyph_rows lines))).

Lemma half_block_modules top bottom : glyph_modules (half_block top bottom) = (top, bottom).
Proof. by destruct top, bottom. Qed.

Lemma render_line_modules top bottom :
  length top = length bottom →
  (λ c, (glyph_modules c).1) <$> render_line top bottom = top ∧ (λ c, (glyph_modules c).2) <$> render_line top bottom = bottom.
Proof.
  unfold render_line. revert bottom. induction top as [|t top IH]; intros [|b bottom] Hl; try done. injection Hl as Hl.
  cbn [zip_with]. rewrite !fmap_cons, half_block_modules. destruct (IH bottom Hl) as [-> ->]. done.
Qed.

Lemma render_rows_modules cols n : ∀ rows, (length rows <= n)%nat → Forall (λ row, length row = cols) rows →
  ∃ rest, glyph_rows (render_rows cols rows) = rows ++ rest.
Proof.
  induction n as [|n IH]; intros rows Hn Hr; [by exists []; destruct rows; [|cbn in Hn; lia]|].
  destruct rows as [|top [|bottom rows]]; [by exists []| |].
  - apply Forall_cons in Hr as [Ht _]. cbn [render_rows glyph_rows].
    destruct (render_line_modules top (replicate cols false)) as [-> ->]; [by rewrite length_replicate|]. by eexists [_].
  - apply Forall_cons in Hr as [Ht Hr]. apply Forall_cons in Hr as [Hb Hr]. cbn [length] in Hn. cbn [render_rows glyph_rows].
    destruct (render_line_modules top bottom) as [-> ->]; [lia|]. destruct (IH rows) as [rest ->]; [lia|done|]. by exists rest.
Qed.

Lemma render_matrix_square q border :
  square (Z.to_nat (qr_size q)) (qr_matrix q) →
  square (Z.to_nat (qr_size q) + 2 * border) (render_matrix q border).
Proof.
  intros [H1 H2]. unfold render_matrix. cbv zeta. split.
  - rewrite !length_app, !length_replicate, length_fmap. lia.
  - repeat apply Forall_app_2; try (apply Forall_replicate, length_replicate). apply Forall_fmap.
    eapply Forall_impl; [exact H2|]. intros row Hrow. unfold compose. cbn beta in Hrow. rewrite !length_app, !length_replicate, Hrow. lia.
Qed.

Lemma render_matrix_inside q border rest :
  square (Z.to_nat (qr_size q)) (qr_matrix q) →
  (λ row, take (Z.to_nat (qr_size q)) (drop border row)) <$> take (Z.to_nat (qr_size q)) (drop border (render_matrix q border ++ rest))
  = qr_matrix q.
Proof.
  intros [H1 H2]. unfold render_matrix. cbv zeta. rewrite <- !app_assoc.
  rewrite drop_app_length' by (by rewrite length_replicate). rewrite take_app_length' by (by rewrite length_fmap).
  rewrite <- list_fmap_compose. rewrite <- (list_fmap_id (qr_matrix q)) at 2. apply list_fmap_ext.
  intros i row Hi%list_elem_of_lookup_2. rewrite Forall_forall in H2. specialize (H2 row Hi). unfold compose.
  rewrite drop_app_length' by (by rewrite length_replicate). by rewrite take_app_length'.
Qed.

Lemma render_rows_width cols rows : rows ≠ [] → Forall (λ row, length row = cols) rows → length (hd [] (render_rows cols rows)) = cols.
Proof.
  intros Hne Hr. destruct rows as [|top [|bottom rows]]; [done| |]; cbn [render_rows hd]; unfold render_line; rewrite length_zip_with.
  - apply Forall_cons in Hr as [-> _]. rewrite length_replicate. lia.
  - apply Forall_cons in Hr as [-> Hr]. apply Forall_cons in Hr as [-> _]. lia.
Qed.

Lemma scan_rendered q border :
  0 < qr_size q → square (Z.to_nat (qr_size q)) (qr_matrix q) → scan_lines border (render_lines q border) = scan (qr_matrix q).
Proof.
  intros Hs Hq. destruct (render_matrix_square q border Hq) as [L1 L2]. unfold scan_lines, render_lines. cbv zeta.
  set (padded := render_matrix q border) in *. set (n := (Z.to_nat (qr_size q) + 2 * border)%nat) in *.
  assert (Hn : (0 < n)%nat) by (subst n; lia).
  assert (Hne : padded ≠ []) by (intros E; rewrite E in L1; cbn [length] in L1; lia).
  assert (Hhd : length (hd [] padded) = n) by (destruct padded as [|row padded']; [done|]; by apply Forall_cons in L2 as [? _]).
  rewrite Hhd, render_rows_width by done. destruct (render_rows_modules n (length padded) padded) as [rest ->]; [lia|done|].
  replace (n - 2 * border)%nat with (Z.to_nat (qr_size q)) by (subst n; lia). subst padded. by rewrite render_matrix_inside.
Qed.

(** What the terminal shows can be scanned: from the half-block
    characters of [render_lines], with any quiet zone, the reader gets the
    payload's bytes. *)
Theorem terminal_scans data ec version q border :
  data_ok data → QRCode_init data ec version = Ok q →
  version = None ∨ fits (length (data_raw q)) (qr_version q) ec = true →
  scan_lines border (render_lines q border) = Some (data_raw q).
Proof.
  intros Hd Hq Hf. rewrite scan_rendered; [by eapply init_scans| |];
    destruct (init_inv _ _ _ _ Hq) as (Hr & Hv & _); destruct (init_shape _ _ _ _ _ Hr Hv) as (k & E & _);
    rewrite Hq in E; injection E as ->; cbn [qr_size qr_matrix].
  - unfold symbol_size. lia.
  - apply placed_square.
Qed.

(** ** A version that is too small *)

(** Two payloads of twenty bytes in a version for fourteen. *)
Definition long_payload (last : Z) : bytes := replicate 19 65 ++ [last].

Lemma long_payloads_stream : the_stream 1 EC_M (long_payload 66) = the_stream 1 EC_M (long_payload 67).
Proof. by vm_compute. Qed.

(** A version given by the caller is not checked against the payload:
    two different payloads that do not fit give the same symbol, which
    therefore cannot be read as either. *)
Theorem explicit_version_truncates :
  long_payload 66 ≠ long_payload 67 ∧
  ∃ q1 q2, QRCode_init (QBytes (long_payload 66)) EC_M (Some 1) = Ok q1 ∧
           QRCode_init (QBytes (long_payload 67)) EC_M (Some 1) = Ok q2 ∧ qr_matrix q1 = qr_matrix q2.
Proof.
  split; [by intros [=]|].
  destruct (init_shape (QBytes (long_payload 66)) EC_M (Some 1) _ 1 eq_refl eq_refl) as (k1 & E1 & [B1 L1]).
  destruct (init_shape (QBytes (long_payload 67)) EC_M (Some 1) _ 1 eq_refl eq_refl) as (k2 & E2 & [B2 L2]).
  eexists _, _. split; [exact E1|]. split; [exact E2|]. cbn [qr_matrix]. rewrite long_payloads_stream in *. f_equal.
  destruct (L1 k2 B2) as [A1 A2]. destruct (L2 k1 B1) as [A3 A4]. lia.
Qed.

(** ** The field *)

(** C39: The logarithm tables multiply in GF(2^8): [_gf_mul] is the product of
    polynomials modulo 0x11D, it is associative and commutative, distributes
    over exclusive or, and has no zero divisors. *)
Theorem gf_mul_field x y z :
  byte_ok x → byte_ok y → byte_ok z →
  gf_mul x y = pmul x y ∧ gf_mul x y = gf_mul y x ∧ gf_mul x (gf_mul y z) = gf_mul (gf_mul x y) z ∧
  gf_mul x (Z.lxor y z) = Z.lxor (gf_mul x y) (gf_mul x z) ∧ (gf_mul x y = 0 → x = 0 ∨ y = 0).
Proof.
  intros Hx Hy Hz. rewrite !(gf_mul_pmul _ _) by (rewrite ?gf_mul_pmul; auto with gf). split; [done|].
  split; [by apply pmul_comm|]. split; [by apply pmul_assoc|]. split; [apply pmul_linear_r|].
  intros E. destruct (decide (x = 0)) as [|Hx0]; [by left|]. destruct (decide (y = 0)) as [|Hy0]; [by right|].
  by apply pmul_nonzero in E.
Qed.

(** ** Witnesses *)

Definition hi : qr_data := QStr [72; 105; 8364].

Lemma hi_version : ∃ k, QRCode_init hi EC_M None = Ok {| data_raw := [72; 105; 226; 130; 172]; ec_level := EC_M; qr_version := 1;
  qr_size := symbol_size 1; mask_pattern := k; qr_matrix := symbol_of 1 EC_M (the_stream 1 EC_M [72; 105; 226; 130; 172]) k |}.
Proof. destruct (init_shape hi EC_M None [72; 105; 226; 130; 172] 1) as (k & E & _); [by vm_compute..|]. by exists k. Qed.

Lemma symbol_scans_witness : ∃ q, QRCode_init hi EC_M None = Ok q ∧ scan (qr_matrix q) = Some [72; 105; 226; 130; 172].
Proof.
  destruct hi_version as [k E]. eexists. split; [exact E|].
  exact (symbol_scans hi EC_M None _ I E (or_introl eq_refl)).
Defined.

Lemma terminal_scans_witness :
  ∃ q, QRCode_init hi EC_M None = Ok q ∧ scan_lines 4 (render_lines q 4) = Some [72; 105; 226; 130; 172].
Proof.
  destruct hi_version as [k E]. eexists. split; [exact E|].
  exact (terminal_scans hi EC_M None _ 4 I E (or_introl eq_refl)).
Defined.

Lemma mask_is_least_witness :
  ∃ q, QRCode_init hi EC_M None = Ok q ∧ first_least 1 EC_M (the_stream 1 EC_M [72; 105; 226; 130; 172]) 8 (mask_pattern q).
Proof.
  destruct hi_version as [k E]. eexists. split; [exact E|]. exact (mask_is_least hi EC_M None _ E).
Defined.

(** The word of level M with mask 0, three bits flipped. *)
Lemma format_survives_witness :
  read_format [true; true; true; false; true; false; false; false; false; false; true; false; true; false; true] = Some (EC_M, 0).
Proof. apply format_survives; [lia|by vm_compute|]. vm_compute. lia. Defined.

(** The block of [[7]] with one codeword changed is not a damaged block of
    [[8]]. *)
Definition received : list (list Z) :=
  [[0; 16; 112; 236; 17; 236; 17; 236; 17] ++ rs_encode_block [64; 16; 112; 236; 17; 236; 17; 236; 17] 17].

Lemma received_correctable :
  correctable (get_rs_blocks 1 EC_H) received (block_words (get_rs_blocks 1 EC_H) (the_codewords 1 EC_H [7])).
Proof.
  intros [|[|j]] b w c Hb Hw Hc; try done. vm_compute in Hb, Hw, Hc. simplify_eq. split; [done|]. vm_compute. lia.
Qed.

Lemma damage_is_unambiguous_witness :
  correctable (get_rs_blocks 1 EC_H) received (block_words (get_rs_blocks 1 EC_H) (the_codewords 1 EC_H [7])) ∧
  ¬ correctable (get_rs_blocks 1 EC_H) received (block_words (get_rs_blocks 1 EC_H) (the_codewords 1 EC_H [8])).
Proof.
  split; [exact received_correctable|]. intros H. assert (E : [7] = [8]); [|by injection E].
  apply (damage_is_unambiguous 1 EC_H [7] [8] received); [| | | | | | |exact H]; try done.
  - unfold valid_version. lia.
  - repeat constructor; unfold byte_ok; lia.
  - repeat constructor; unfold byte_ok; lia.
  - exact received_correctable.
Defined.

Lemma gf_mul_field_witness : gf_mul 83 202 = pmul 83 202.
Proof. apply (gf_mul_field 83 202 7); unfold byte_ok; lia. Defined.
