(* ===== verification/RelayPackets.v ===== *)
(** * Packets of the relay

    [transport/relay/protocol.py]: the packets a client and the relay
    exchange, their schema and their codec.  Text is code points; numbers are
    kept as the JSON numbers they are written as.  The identifier and the time
    a new packet draws are the argument [stamp] of its builder. *)

From Stdlib Require Import Ascii.
From S2P Require Import Prelude Text Utf8 Primitives Ids Json ChannelFrames.

Open Scope Z_scope.

(** ** Constants *)

Definition PROTOCOL_VERSION : Z := 4.
Definition SUPPORTED_PROTOCOL_VERSIONS : list Z := [1; 2; 3; 4].
Definition MAX_CLIENT_NAME_LENGTH : nat := 64.
Definition MAX_REASON_LENGTH : nat := 256.
Definition MAX_ERROR_LENGTH : nat := 256.
Definition MAX_NONCE_LENGTH : nat := 64.
Definition MAX_PACKET_ID_LENGTH : nat := 16.
Definition GROUP_FORWARD_BODY_B64_MAX : nat := 8240.
Definition MAX_INVITE_FIELD_LENGTH : nat := 96.
Definition INVITE_MAX_REDEMPTIONS : Z := 16.
Definition GROUP_SIGNATURE_B64_MAX : nat := 128.
Definition GROUP_OP_ID_LENGTH : nat := 16.
Definition GROUP_FORWARD_BODY_MAX : nat := 6144.
Definition GROUP_KEX_BODY_MAX : nat := 2048.
Definition MAX_FORWARD_PAYLOAD_BYTES : nat := 8192.
Definition PUBKEY_HEX_LENGTH : nat := 64.
Definition NAME_MAX_LEN : nat := 48.
Definition DISPLAY_NAME_MAX_LEN : nat := 24.
Definition MEMBERS_MAX : nat := 8.
Definition EVENTS_KEPT : nat := 16.
(** Lengths of texts beyond what [nat] literals should unfold to. *)
Definition MAX_FORWARD_BODY_LENGTH : Z := 10924.
Definition MAX_MESSAGE_BYTES : Z := 1048576.

Definition CHANNEL_ROLES : list string := ["host"; "guest"].
Definition PEER_EVENTS : list string := ["joined"; "left"].
Definition INVITE_KINDS : list string := ["chat"; "group"].
Definition INVITE_STATES : list string := ["active"; "expired"; "redeemed"; "revoked"].
Definition GROUP_ROLES : list string := ["owner"; "member"].
Definition GROUP_ATTEST_ROLES : list string := ["owner"; "member"; "candidate"].
Definition GROUP_STATES : list string := ["active"; "dissolved"].
Definition EVENT_KINDS : list string := ["join"; "left"; "removed"; "dissolved"].
Definition CRYPTO_SUITES : list string := ["mesh-v1"; "senderkey-v1"].
Definition DEFAULT_CRYPTO_SUITE : string := "mesh-v1".
Definition GROUP_FORWARD_KINDS : list string := ["kex"; "msg"; "sk"; "skmsg"].

(** ** Packets *)

Inductive PacketType :=
| HELLO | WELCOME | PING | PONG | DISCONNECT | ERROR | HEARTBEAT
| ATTACH | ATTACHED | DETACH | FORWARD | PEER
| INVITE_CREATE | INVITE_GRANTED | INVITE_QUERY | INVITE_STATE | INVITE_REVOKE | REDEEM | REDEEMED
| GROUP_CREATE | GROUP_GRANTED | GROUP_ATTEST | GROUP_ATTESTED | GROUP_STATE | GROUP_ROSTER
| GROUP_LEAVE | GROUP_REMOVE | GROUP_DISSOLVE | GROUP_SIGN_REQUEST | GROUP_SIGN | GROUP_EVENT
| GROUP_FORWARD.

#[export] Instance PacketType_eq_dec : EqDecision PacketType.
Proof. solve_decision. Defined.

Definition packet_type_name (t : PacketType) : string :=
  match t with
  | HELLO => "HELLO" | WELCOME => "WELCOME" | PING => "PING" | PONG => "PONG"
  | DISCONNECT => "DISCONNECT" | ERROR => "ERROR" | HEARTBEAT => "HEARTBEAT"
  | ATTACH => "ATTACH" | ATTACHED => "ATTACHED" | DETACH => "DETACH" | FORWARD => "FORWARD"
  | PEER => "PEER" | INVITE_CREATE => "INVITE_CREATE" | INVITE_GRANTED => "INVITE_GRANTED"
  | INVITE_QUERY => "INVITE_QUERY" | INVITE_STATE => "INVITE_STATE"
  | INVITE_REVOKE => "INVITE_REVOKE" | REDEEM => "REDEEM" | REDEEMED => "REDEEMED"
  | GROUP_CREATE => "GROUP_CREATE" | GROUP_GRANTED => "GROUP_GRANTED"
  | GROUP_ATTEST => "GROUP_ATTEST" | GROUP_ATTESTED => "GROUP_ATTESTED"
  | GROUP_STATE => "GROUP_STATE" | GROUP_ROSTER => "GROUP_ROSTER" | GROUP_LEAVE => "GROUP_LEAVE"
  | GROUP_REMOVE => "GROUP_REMOVE" | GROUP_DISSOLVE => "GROUP_DISSOLVE"
  | GROUP_SIGN_REQUEST => "GROUP_SIGN_REQUEST" | GROUP_SIGN => "GROUP_SIGN"
  | GROUP_EVENT => "GROUP_EVENT" | GROUP_FORWARD => "GROUP_FORWARD"
  end.

Definition packet_types : list PacketType :=
  [HELLO; WELCOME; PING; PONG; DISCONNECT; ERROR; HEARTBEAT; ATTACH; ATTACHED; DETACH; FORWARD; PEER;
   INVITE_CREATE; INVITE_GRANTED; INVITE_QUERY; INVITE_STATE; INVITE_REVOKE; REDEEM; REDEEMED;
   GROUP_CREATE; GROUP_GRANTED; GROUP_ATTEST; GROUP_ATTESTED; GROUP_STATE; GROUP_ROSTER; GROUP_LEAVE;
   GROUP_REMOVE; GROUP_DISSOLVE; GROUP_SIGN_REQUEST; GROUP_SIGN; GROUP_EVENT; GROUP_FORWARD].

(** [PacketType(name)] *)
Definition packet_type_of (s : unicode) : option PacketType :=
  list_find (λ t, cp (packet_type_name t) = s) packet_types ≫= λ x, Some x.2.

Record Packet := mkPacket { pk_type : PacketType; pk_payload : fields; pk_id : unicode; pk_sent_at : json }.

(** [Packet.to_dict] *)
Definition packet_dict (p : Packet) : json :=
  JObj [(cp "v", JInt PROTOCOL_VERSION); (cp "id", JStr (pk_id p));
        (cp "type", JStr (cp (packet_type_name (pk_type p)))); (cp "ts", pk_sent_at p);
        (cp "payload", JObj (pk_payload p))].

(** *** Builders *)

Definition text (s : string) : json := JStr (cp s).
Definition new_packet (t : PacketType) (d : list (string * json)) (st : stamp) : Packet :=
  mkPacket t ((λ x, (cp x.1, x.2)) <$> d) st.1 st.2.

Definition hello_packet (client_name : string) (session_id : option string) : stamp → Packet :=
  new_packet HELLO ([("protocol", JInt PROTOCOL_VERSION); ("client", text client_name)]
    ++ match session_id with Some s => if decide (s = "") then [] else [("session_id", text s)] | None => [] end).
Definition welcome_packet (session_id server_name : string) (server_time heartbeat : json) (attest_nonce : option string)
    : stamp → Packet :=
  new_packet WELCOME ([("session_id", text session_id); ("server", text server_name); ("server_time", server_time);
    ("heartbeat_interval", heartbeat); ("protocol", JInt PROTOCOL_VERSION)]
    ++ match attest_nonce with Some n => [("attest_nonce", text n)] | None => [] end).
Definition ping_packet (nonce : string) (sent_at : json) : stamp → Packet :=
  new_packet PING [("nonce", text nonce); ("sent_at", sent_at)].
Definition pong_packet (nonce : unicode) (sent_at answered_at : json) : stamp → Packet :=
  new_packet PONG [("nonce", JStr nonce); ("sent_at", sent_at); ("answered_at", answered_at)].
Definition heartbeat_packet (sequence : Z) (timestamp : json) : stamp → Packet :=
  new_packet HEARTBEAT [("seq", JInt sequence); ("timestamp", timestamp)].
Definition disconnect_packet (reason : string) (code : Z) : stamp → Packet :=
  new_packet DISCONNECT [("reason", text reason); ("code", JInt code)].
Definition error_packet (code : string) (message : unicode) : stamp → Packet :=
  new_packet ERROR [("code", text code); ("message", JStr message)].
Definition attach_packet (channel role : string) : stamp → Packet :=
  new_packet ATTACH [("channel", text channel); ("role", text role)].
Definition attached_packet (channel : unicode) (role : string) (peers : Z) : stamp → Packet :=
  new_packet ATTACHED [("channel", JStr channel); ("role", text role); ("peers", JInt peers)].
Definition detach_packet (channel : string) : stamp → Packet := new_packet DETACH [("channel", text channel)].
Definition forward_packet (channel body : unicode) : stamp → Packet :=
  new_packet FORWARD [("channel", JStr channel); ("body", JStr body)].
Definition peer_packet (channel : unicode) (event : string) : stamp → Packet :=
  new_packet PEER [("channel", JStr channel); ("event", text event)].
Definition invite_granted_packet (invite_id : string) (expires_at : json) (uses : Z) : stamp → Packet :=
  new_packet INVITE_GRANTED [("invite", text invite_id); ("expires_at", expires_at); ("uses", JInt uses)].
Definition invite_state_packet (invite_id state : string) (uses max_uses : Z) (expires_in : json) (room_id : option string)
    (kind : string) (group_id : option string) : stamp → Packet :=
  new_packet INVITE_STATE ([("invite", text invite_id); ("state", text state); ("uses", JInt uses);
    ("max_uses", JInt max_uses); ("expires_in", expires_in)]
    ++ match room_id with Some r => [("room", text r)] | None => [] end
    ++ (if decide (kind = "chat") then [] else [("kind", text kind)])
    ++ match group_id with Some g => [("group", text g)] | None => [] end).
Definition redeemed_packet (invite_id room_id : string) (expires_at : json) : stamp → Packet :=
  new_packet REDEEMED [("invite", text invite_id); ("expires_at", expires_at); ("room", text room_id)].
Definition redeemed_group_packet (invite_id : string) (expires_at : json) (group_id group_name owner owner_key : string)
    (members : list json) (epoch : Z) (crypto_suite : string) : stamp → Packet :=
  new_packet REDEEMED [("invite", text invite_id); ("expires_at", expires_at); ("kind", text "group");
    ("group", text group_id); ("name", text group_name); ("owner", text owner); ("owner_key", text owner_key);
    ("members", JArr members); ("epoch", JInt epoch); ("suite", text crypto_suite)].
Definition group_granted_packet (group_id : string) (epoch : Z) (crypto_suite : string) : stamp → Packet :=
  new_packet GROUP_GRANTED [("group", text group_id); ("epoch", JInt epoch); ("suite", text crypto_suite)].
Definition group_attested_packet (group_id role : string) (epoch : Z) (members events : option (list json))
    (crypto_suite : string) : stamp → Packet :=
  new_packet GROUP_ATTESTED ([("group", text group_id); ("role", text role); ("epoch", JInt epoch); ("suite", text crypto_suite)]
    ++ match members with Some l => [("members", JArr l)] | None => [] end
    ++ match events with Some l => [("events", JArr l)] | None => [] end).
Definition group_roster_packet (group_id : string) (epoch : Z) (state : string) (members events : list json)
    (crypto_suite : string) : stamp → Packet :=
  new_packet GROUP_ROSTER [("group", text group_id); ("epoch", JInt epoch); ("state", text state);
    ("members", JArr members); ("events", JArr events); ("suite", text crypto_suite)].
Definition group_sign_request_packet (group_id op_id kind subject : string) (epoch : Z) (message_b64 : string) : stamp → Packet :=
  new_packet GROUP_SIGN_REQUEST [("group", text group_id); ("op", text op_id); ("kind", text kind); ("subject", text subject);
    ("epoch", JInt epoch); ("message", text message_b64)].
Definition group_event_packet (group_id : string) (epoch : Z) (kind subject wall_ts signer signature_b64 : string)
    (member : option json) : stamp → Packet :=
  new_packet GROUP_EVENT ([("group", text group_id); ("epoch", JInt epoch); ("kind", text kind); ("subject", text subject);
    ("wall_ts", text wall_ts); ("signer", text signer); ("sig", text signature_b64)]
    ++ match member with Some m => [("member", m)] | None => [] end).
Definition invite_create_packet (token room_id : string) (ttl : json) (uses : Z) (kind group_id : string) : stamp → Packet :=
  new_packet INVITE_CREATE ([("token", text token); ("room", text room_id); ("ttl", ttl); ("uses", JInt uses)]
    ++ if decide (kind = "chat") then [] else [("kind", text kind); ("group", text group_id)]).
Definition invite_query_packet (token : string) : stamp → Packet := new_packet INVITE_QUERY [("token", text token)].
Definition invite_revoke_packet (token : string) : stamp → Packet := new_packet INVITE_REVOKE [("token", text token)].
Definition redeem_packet (token : string) : stamp → Packet := new_packet REDEEM [("token", text token)].
Definition group_create_packet (name public_key_hex pop_b64 handle display_name crypto_suite : string) : stamp → Packet :=
  new_packet GROUP_CREATE [("name", text name); ("pubkey", text public_key_hex); ("pop", text pop_b64);
    ("handle", text handle); ("display", text display_name); ("suite", text crypto_suite)].
Definition group_attest_packet (group_id public_key_hex signature_b64 handle display_name : string) : stamp → Packet :=
  new_packet GROUP_ATTEST [("group", text group_id); ("pubkey", text public_key_hex); ("sig", text signature_b64);
    ("handle", text handle); ("display", text display_name)].
Definition group_state_packet (group_id : string) : stamp → Packet := new_packet GROUP_STATE [("group", text group_id)].
Definition group_leave_packet (group_id : string) : stamp → Packet := new_packet GROUP_LEAVE [("group", text group_id)].
Definition group_remove_packet (group_id subject : string) : stamp → Packet :=
  new_packet GROUP_REMOVE [("group", text group_id); ("subject", text subject)].
Definition group_dissolve_packet (group_id : string) : stamp → Packet := new_packet GROUP_DISSOLVE [("group", text group_id)].
Definition group_sign_packet (group_id op_id signature_b64 : string) : stamp → Packet :=
  new_packet GROUP_SIGN [("group", text group_id); ("op", text op_id); ("sig", text signature_b64)].
Definition group_forward_packet (group_id : string) (epoch : Z) (from to kind body_b64 : string) : stamp → Packet :=
  new_packet GROUP_FORWARD [("group", text group_id); ("epoch", JInt epoch); ("from", text from); ("to", text to);
    ("kind", text kind); ("body", text body_b64)].

(** ** Validation *)

(** [PacketValidationError]; the errors of [json.loads] and [float] on an
    integer that is too large, and of [in] on a list or a dictionary. *)
Inductive packet_error := PacketValidationError | PktValueError | PktOverflowError | PktTypeError.

(** [_require] *)
Definition demand (b : bool) : result packet_error unit := guard_or b PacketValidationError.

Definition field (d : fields) (name : string) : option json := dget d (cp name).
Definition has (d : fields) (name : string) : bool := dmem d (cp name).

(** [_require_str] *)
Definition demand_str (d : fields) (name : string) (max_length : nat) : result packet_error unicode :=
  match field d name with
  | Some (JStr s) => demand (bounded 1 max_length s);; Ok s
  | _ => Err PacketValidationError
  end.

(** [_require_number]; [float(value)] of an integer can overflow and round. *)
Definition demand_number (d : fields) (name : string) : result packet_error json :=
  match field d name with
  | Some (JInt z) => guard_or (negb (float_overflows z)) PktOverflowError;; Ok (JInt (float_round z))
  | Some (JFloat l) => Ok (JFloat l)
  | _ => Err PacketValidationError
  end.

(** [_require_int] *)
Definition demand_int (d : fields) (name : string) (minimum : Z) : result packet_error Z :=
  match field d name with
  | Some (JInt z) => demand (minimum <=? z);; Ok z
  | _ => Err PacketValidationError
  end.

(** [value in names] *)
Definition among (s : unicode) (names : list string) : bool := bool_decide (s ∈ cp <$> names).

(** A string of [names]. *)
Definition demand_among (d : fields) (name : string) (max_length : nat) (names : list string) : result packet_error unicode :=
  s ← demand_str d name max_length; demand (among s names);; Ok s.

(** [is_valid_room_id], [is_valid_group_id], [is_valid_fingerprint] of any
    text.  Of what [upper] does to other characters only that of U+FB00 (the
    ligature ff) can give a fingerprint. *)
Definition room_text (s : unicode) : bool :=
  match ascii_text (uni_strip s) with Some t => is_valid_room_id t | None => false end.
Definition group_text (s : unicode) : bool :=
  match ascii_text s with Some t => is_valid_group_id t | None => false end.
Definition fingerprint_text (s : unicode) : bool :=
  match ascii_text (uni_strip s ≫= λ c, if c =? 64256 then [70; 70] else [c]) with
  | Some t => is_valid_fingerprint t
  | None => false
  end.

(** [_require_channel], [_require_room_field], [_require_group_field],
    [_require_fingerprint_field], [_require_suite_field] *)
Definition demand_channel (d : fields) : result packet_error unit := s ← demand_str d "channel" 64; demand (room_text s).
Definition demand_room (d : fields) : result packet_error unit := s ← demand_str d "room" 64; demand (room_text s).
Definition demand_group (d : fields) (name : string) : result packet_error unit :=
  s ← demand_str d name 64; demand (group_text s).
Definition demand_fingerprint (d : fields) (name : string) : result packet_error unit :=
  s ← demand_str d name 40; demand (fingerprint_text s).
Definition demand_suite (d : fields) : result packet_error unit :=
  match default (text DEFAULT_CRYPTO_SUITE) (field d "suite") with
  | JStr s => demand (among s CRYPTO_SUITES)
  | _ => Err PacketValidationError
  end.

(** A hexadecimal key of 64 characters. *)
Definition demand_key (d : fields) (name : string) : result packet_error unit :=
  s ← demand_str d name PUBKEY_HEX_LENGTH; demand (length s =? PUBKEY_HEX_LENGTH)%nat.

(** [_require_member_payload] *)
Definition demand_member (m : json) : result packet_error unit :=
  match m with
  | JObj d =>
      demand_fingerprint d "fingerprint";; demand_str d "handle" 16;; demand_str d "display_name" DISPLAY_NAME_MAX_LEN;;
      demand_key d "public_key_hex";; demand_among d "role" 8 GROUP_ROLES;; demand_int d "joined_epoch" 0;; Ok tt
  | _ => Err PacketValidationError
  end.

(** [_require_event_payload] *)
Definition demand_event (e : json) : result packet_error unit :=
  match e with
  | JObj d =>
      demand_group d "group_id";; demand_int d "epoch" 1;; demand_among d "kind" 16 EVENT_KINDS;;
      demand_fingerprint d "subject";; demand_str d "wall_ts" 64;; demand_fingerprint d "signer";;
      demand_str d "signature" GROUP_SIGNATURE_B64_MAX;; Ok tt
  | _ => Err PacketValidationError
  end.

Fixpoint demand_all (check : json → result packet_error unit) (l : list json) : result packet_error unit :=
  match l with [] => Ok tt | x :: l' => check x;; demand_all check l' end.

(** [_require_members_field], [_require_events_field] *)
Definition demand_list (d : fields) (name : string) (limit : nat) (check : json → result packet_error unit)
    : result packet_error unit :=
  match field d name with
  | Some (JArr l) => demand (length l <=? limit)%nat;; demand_all check l
  | _ => Err PacketValidationError
  end.
Definition demand_members (d : fields) : result packet_error unit := demand_list d "members" MEMBERS_MAX demand_member.
Definition demand_events (d : fields) : result packet_error unit := demand_list d "events" EVENTS_KEPT demand_event.

(** [_require_b64], [_require_forward_body] *)
Definition demand_b64 (s : unicode) (max_decoded : nat) : result packet_error unit :=
  match ascii_text s ≫= b64decode with
  | Some raw => demand ((0 <? length raw) && (length raw <=? max_decoded))%nat
  | None => Err PacketValidationError
  end.

Definition supported (z : Z) : bool := bool_decide (z ∈ SUPPORTED_PROTOCOL_VERSIONS).

(** [1.0 <= ttl <= 86400.0]: a literal counts as the float it rounds to. *)
Definition ttl_in_range (v : json) : bool :=
  match v with
  | JInt z => (1 <=? z) && (z <=? 86400)
  | JFloat l =>
      if decide (l = cp "Infinity") then false
      else if decide (l = cp "-Infinity") then false
      else if decide (l = cp "NaN") then false
      else let '(neg, m, e) := float_parts l in
        negb neg && decimal_ge m e (2 ^ 54 - 1) 54 && decimal_le m e (86400 * 2 ^ 37 + 1) 37
  | _ => false
  end.

(** [str(payload.get("kind", "chat")) == "group"]: only the string is. *)
Definition group_kind (d : fields) : bool :=
  match field d "kind" with Some (JStr s) => bool_decide (s = cp "group") | _ => false end.

(** [_validate_group_packet] *)
Definition validate_group_packet (t : PacketType) (d : fields) : result packet_error unit :=
  (if decide (t = GROUP_CREATE) then Ok tt else demand_group d "group");;
  match t with
  | GROUP_CREATE =>
      demand_str d "name" NAME_MAX_LEN;; demand_key d "pubkey";; demand_str d "pop" GROUP_SIGNATURE_B64_MAX;;
      demand_str d "handle" 16;; demand_str d "display" DISPLAY_NAME_MAX_LEN;; demand_suite d
  | GROUP_GRANTED => demand_int d "epoch" 1;; demand_suite d
  | GROUP_ATTEST =>
      demand_key d "pubkey";; demand_str d "sig" GROUP_SIGNATURE_B64_MAX;; demand_str d "handle" 16;;
      demand_str d "display" DISPLAY_NAME_MAX_LEN;; Ok tt
  | GROUP_ATTESTED =>
      demand_among d "role" 16 GROUP_ATTEST_ROLES;; demand_int d "epoch" 0;; demand_suite d;;
      (if has d "members" then demand_members d else Ok tt);;
      (if has d "events" then demand_events d else Ok tt)
  | GROUP_ROSTER =>
      demand_int d "epoch" 1;; demand_among d "state" 16 GROUP_STATES;; demand_suite d;; demand_members d;; demand_events d
  | GROUP_REMOVE => demand_fingerprint d "subject"
  | GROUP_SIGN_REQUEST =>
      op ← demand_str d "op" GROUP_OP_ID_LENGTH; demand (8 <=? length op)%nat;;
      demand_among d "kind" 16 EVENT_KINDS;; demand_fingerprint d "subject";; demand_int d "epoch" 2;;
      message ← demand_str d "message" 512; demand_b64 message 512
  | GROUP_SIGN =>
      op ← demand_str d "op" GROUP_OP_ID_LENGTH; demand (8 <=? length op)%nat;;
      demand_str d "sig" GROUP_SIGNATURE_B64_MAX;; Ok tt
  | GROUP_EVENT =>
      demand_int d "epoch" 1;; demand_among d "kind" 16 EVENT_KINDS;; demand_fingerprint d "subject";;
      demand_str d "wall_ts" 64;; demand_fingerprint d "signer";; demand_str d "sig" GROUP_SIGNATURE_B64_MAX;;
      match field d "member" with Some m => demand_member m | None => Ok tt end
  | GROUP_FORWARD =>
      demand_int d "epoch" 1;; demand_fingerprint d "from";; demand_fingerprint d "to";;
      kind ← demand_among d "kind" 8 GROUP_FORWARD_KINDS;
      body ← demand_str d "body" GROUP_FORWARD_BODY_B64_MAX;
      demand_b64 body (if among kind ["msg"; "skmsg"] then GROUP_FORWARD_BODY_MAX else GROUP_KEX_BODY_MAX)
  | _ => Ok tt
  end.

(** [_require_str(payload, "body", max_length=MAX_FORWARD_BODY_LENGTH)] *)
Definition demand_body (d : fields) : result packet_error unicode :=
  match field d "body" with
  | Some (JStr s) => demand ((0 <? Z.of_nat (length s)) && (Z.of_nat (length s) <=? MAX_FORWARD_BODY_LENGTH));; Ok s
  | _ => Err PacketValidationError
  end.

(** [validate_packet] *)
Definition validate_packet (t : PacketType) (d : fields) : result packet_error unit :=
  match t with
  | HELLO =>
      protocol ← demand_int d "protocol" 1; demand (supported protocol);;
      demand_str d "client" MAX_CLIENT_NAME_LENGTH;;
      (if has d "session_id" then demand_str d "session_id" 64;; Ok tt else Ok tt)
  | WELCOME =>
      demand_str d "session_id" 64;; demand_str d "server" MAX_CLIENT_NAME_LENGTH;; demand_number d "server_time";;
      demand_number d "heartbeat_interval";; protocol ← demand_int d "protocol" 1; demand (supported protocol);;
      (if has d "attest_nonce" then demand_str d "attest_nonce" MAX_NONCE_LENGTH;; Ok tt else Ok tt)
  | PING => demand_str d "nonce" MAX_NONCE_LENGTH;; demand_number d "sent_at";; Ok tt
  | PONG => demand_str d "nonce" MAX_NONCE_LENGTH;; demand_number d "sent_at";; demand_number d "answered_at";; Ok tt
  | DISCONNECT => demand_str d "reason" MAX_REASON_LENGTH;; demand_int d "code" 0;; Ok tt
  | ERROR => demand_str d "code" 64;; demand_str d "message" MAX_ERROR_LENGTH;; Ok tt
  | HEARTBEAT => demand_int d "seq" 0;; demand_number d "timestamp";; Ok tt
  | ATTACH => demand_channel d;; demand_among d "role" 8 CHANNEL_ROLES;; Ok tt
  | ATTACHED => demand_channel d;; demand_among d "role" 8 CHANNEL_ROLES;; demand_int d "peers" 0;; Ok tt
  | DETACH => demand_channel d
  | FORWARD => demand_channel d;; body ← demand_body d; demand_b64 body MAX_FORWARD_PAYLOAD_BYTES
  | PEER => demand_channel d;; demand_among d "event" 8 PEER_EVENTS;; Ok tt
  | INVITE_CREATE =>
      demand_str d "token" MAX_INVITE_FIELD_LENGTH;;
      (if group_kind d then demand_group d "group" else demand_room d);;
      ttl ← demand_number d "ttl"; demand (ttl_in_range ttl);;
      uses ← demand_int d "uses" 1; demand (uses <=? INVITE_MAX_REDEMPTIONS)
  | INVITE_GRANTED => demand_str d "invite" MAX_INVITE_FIELD_LENGTH;; demand_number d "expires_at";; demand_int d "uses" 1;; Ok tt
  | INVITE_STATE =>
      demand_str d "invite" MAX_INVITE_FIELD_LENGTH;; demand_among d "state" 16 INVITE_STATES;; demand_int d "uses" 0;;
      demand_int d "max_uses" 1;; demand_number d "expires_in";;
      (if has d "room" then demand_room d else Ok tt);;
      (if has d "kind" then demand_among d "kind" 8 INVITE_KINDS;; Ok tt else Ok tt);;
      (if has d "group" then demand_group d "group" else Ok tt)
  | INVITE_QUERY | INVITE_REVOKE | REDEEM => demand_str d "token" MAX_INVITE_FIELD_LENGTH;; Ok tt
  | REDEEMED =>
      demand_str d "invite" MAX_INVITE_FIELD_LENGTH;; demand_number d "expires_at";;
      if group_kind d then
        demand_group d "group";; demand_str d "name" NAME_MAX_LEN;; demand_fingerprint d "owner";; demand_key d "owner_key";;
        demand_members d;; demand_int d "epoch" 1;; demand_suite d
      else demand_room d
  | _ => validate_group_packet t d
  end.

(** ** Codec *)

(** [encode_packet]; JSON text is ASCII, one byte per character. *)
Definition encode_packet (p : Packet) : result packet_error bytes :=
  validate_packet (pk_type p) (pk_payload p);;
  let encoded := dumps (packet_dict p) in
  demand (Z.of_nat (length encoded) <=? MAX_MESSAGE_BYTES);;
  Ok encoded.

(** A float literal that rounds to 1, 2, 3 or 4: half a unit in the last
    place below and above, ties included. *)
Definition float_version (l : unicode) : bool :=
  if decide (l = cp "Infinity") then false
  else if decide (l = cp "-Infinity") then false
  else if decide (l = cp "NaN") then false
  else let '(neg, m, e) := float_parts l in
    negb neg &&
    ((decimal_ge m e (2 ^ 54 - 1) 54 && decimal_le m e (2 ^ 53 + 1) 53)
     || (decimal_ge m e (2 * 2 ^ 53 - 1) 53 && decimal_le m e (2 * 2 ^ 52 + 1) 52)
     || (decimal_ge m e (3 * 2 ^ 52 - 1) 52 && decimal_le m e (3 * 2 ^ 52 + 1) 52)
     || (decimal_ge m e (4 * 2 ^ 52 - 1) 52 && decimal_le m e (4 * 2 ^ 51 + 1) 51)).

(** [version in SUPPORTED_PROTOCOL_VERSIONS]: a list or a dictionary cannot
    be looked up in a set. *)
Definition demand_version (v : option json) : result packet_error unit :=
  match v with
  | Some (JInt z) => demand (supported z)
  | Some (JBool b) => demand b
  | Some (JFloat l) => demand (float_version l)
  | Some (JArr _) | Some (JObj _) => Err PktTypeError
  | _ => Err PacketValidationError
  end.

Definition demand_timestamp (v : option json) : result packet_error json :=
  match v with
  | Some (JInt z) => demand (0 <? z);; Ok (JInt z)
  | Some (JFloat l) => demand (float_positive l);; Ok (JFloat l)
  | _ => Err PacketValidationError
  end.

(** The checks of [decode_packet] on the parsed document. *)
Definition packet_of_document (document : json) : result packet_error Packet :=
  match document with
  | JObj d =>
      demand_version (field d "v");;
      packet_id ← demand_str d "id" MAX_PACKET_ID_LENGTH;
      t ← match field d "type" with
          | Some (JStr s) => of_option (packet_type_of s) PacketValidationError
          | _ => Err PacketValidationError
          end;
      sent_at ← demand_timestamp (field d "ts");
      match field d "payload" with
      | Some (JObj payload) =>
          validate_packet t payload;;
          stamp ← match sent_at with
                  | JInt z => guard_or (negb (float_overflows z)) PktOverflowError;; Ok (JInt (float_round z))
                  | v => Ok v
                  end;
          Ok (mkPacket t payload packet_id stamp)
      | _ => Err PacketValidationError
      end
  | _ => Err PacketValidationError
  end.

(** [decode_packet] *)
Definition decode_packet (raw : bytes) : result packet_error Packet :=
  demand (Z.of_nat (length raw) <=? MAX_MESSAGE_BYTES);;
  s ← of_option (utf8_decode raw) PacketValidationError;
  document ← match loads s with
             | Ok v => Ok v
             | Err JSONDecodeError => Err PacketValidationError
             | Err IntTooLong => Err PktValueError
             end;
  packet_of_document document.
