(* ===== verification/RelayState.v ===== *)
(** * The state of the relay server

    [transport/relay/server.py] with the session registry of
    [transport/session.py]: sessions, client contexts, channels, the tables of
    the abuse brakes, the monad the handlers run in and the requests they serve.

    A client and its context are one record under the client's number; the
    session table refers to it by that number.  Clocks count microseconds,
    token buckets millionths of a token.  Metadata of sessions and logging are
    left out. *)

From S2P Require Import Prelude Text Utf8 Primitives Ids Events GroupAuthority Invites Json ChannelFrames RelayPackets.

Open Scope Z_scope.

Definition INVITE_PROTOCOL_VERSION : Z := 3.
Definition GROUP_PROTOCOL_VERSION : Z := 4.
Definition CHANNEL_CAPACITY : nat := 2.
Definition GROUP_MAX_ACTIVE_INVITES : nat := 8.
Definition MICRO : Z := 1000000.
Definition GROUP_FORWARD_RATE_PER_SECOND : Z := 20.
Definition GROUP_FORWARD_RATE_BURST : Z := 20.
Definition GROUP_EVENT_RATE_OPS : nat := 4.
Definition GROUP_EVENT_RATE_WINDOW : Z := 10 * MICRO.
Definition GROUP_SIGN_REOFFER : Z := 15 * MICRO.

(** ** Sessions ([transport/session.py]) *)

Inductive SessionStatus := SActive | SIdle | SExpired | SClosed.

#[export] Instance SessionStatus_eq_dec : EqDecision SessionStatus.
Proof. solve_decision. Defined.

Record Session := mkSession {
  se_id : string; se_created : Z; se_activity : Z; se_status : SessionStatus; se_ttl : option Z;
}.

(** [Session.create] *)
Definition Session_create (id : string) (ttl : option Z) (now : Z) : Session := mkSession id now now SActive ttl.

(** [touch] *)
Definition touch (now : Z) (x : Session) : Session :=
  mkSession (se_id x) (se_created x) now (if decide (se_status x = SIdle) then SActive else se_status x) (se_ttl x).

(** [idle_seconds], [is_expired] *)
Definition idle (x : Session) (now : Z) : Z := Z.max 0 (now - se_activity x).
Definition is_expired (x : Session) (now : Z) : bool :=
  if decide (se_status x = SExpired) then true
  else match se_ttl x with None => false | Some ttl => ttl <=? idle x now end.

Definition set_status (st : SessionStatus) (x : Session) : Session :=
  mkSession (se_id x) (se_created x) (se_activity x) st (se_ttl x).

(** The session objects, and the registry's dictionary of those it tracks. *)
Record Registry := mkRegistry {
  rg_objs : list (string * Session); rg_live : list string; rg_total_expired : Z;
}.

(** [register]: a key that is present keeps its place. *)
Definition register_session (r : Registry) (x : Session) : Registry :=
  mkRegistry (dset (rg_objs r) (se_id x) x)
    (if decide (se_id x ∈ rg_live r) then rg_live r else rg_live r ++ [se_id x]) (rg_total_expired r).

Definition alter_session (f : Session → Session) (id : string) (r : Registry) : Registry :=
  match dget (rg_objs r) id with
  | Some x => mkRegistry (dset (rg_objs r) id (f x)) (rg_live r) (rg_total_expired r)
  | None => r
  end.

(** [remove] *)
Definition remove_session (r : Registry) (id : string) : Registry :=
  if decide (id ∈ rg_live r) then
    let r1 := alter_session (set_status SClosed) id r in
    mkRegistry (rg_objs r1) (filter (λ x, x ≠ id) (rg_live r1)) (rg_total_expired r1)
  else r.

Definition overdue (r : Registry) (now : Z) (id : string) : bool :=
  match dget (rg_objs r) id with Some x => is_expired x now | None => false end.

(** [sweep_expired] *)
Definition sweep_expired (r : Registry) (now : Z) : Registry :=
  let expired := filter (λ id, overdue r now id = true) (rg_live r) in
  let r1 := foldl (λ r id, alter_session (set_status SExpired) id r) r expired in
  mkRegistry (rg_objs r1) (filter (λ id, id ∉ expired) (rg_live r)) (rg_total_expired r + Z.of_nat (length expired)).

(** ** State *)

Inductive conn_state := NoConnection | Open | Closed.

#[export] Instance conn_state_eq_dec : EqDecision conn_state.
Proof. solve_decision. Defined.

(** [_ClientContext] *)
Record Context := mkContext {
  cx_remote : string; cx_conn : conn_state; cx_session : option string; cx_attachments : list (unicode * string);
  cx_protocol : Z; cx_nonce : string;
}.

(** [_Channel.members]: client → role *)
Definition members : Type := list (Z * string).

Record Limits := mkLimits {
  lm_session_ttl : Z; lm_heartbeat : json; lm_server_name : string;
  lm_max_connections : Z; lm_connect_rate : Z; lm_connect_burst : Z;
}.

Record Relay := mkRelay {
  rl_limits : Limits;
  rl_clients : list (Z * Context); rl_next : Z;
  rl_channels : list (unicode * members);
  rl_invites : Invites; rl_groups : Authority;
  rl_registry : Registry; rl_by_session : list (string * Z);
  rl_last_sign : list (string * (string * string));
  rl_connect : list (string * (Z * Z));
  rl_forward : list (string * string * (Z * Z));
  rl_windows : list (string * list Z);
  rl_wire : list (Z * Packet);
}.

(** [RelayServer.__init__] *)
Definition RelayServer_init (limits : Limits) : Relay :=
  mkRelay limits [] 0 [] [] empty_authority (mkRegistry [] [] 0) [] [] [] [] [] [].

(** *** Field updates *)

Definition set_clients (s : Relay) x : Relay :=
  mkRelay (rl_limits s) x (rl_next s) (rl_channels s) (rl_invites s) (rl_groups s) (rl_registry s) (rl_by_session s)
    (rl_last_sign s) (rl_connect s) (rl_forward s) (rl_windows s) (rl_wire s).
Definition set_next (s : Relay) x : Relay :=
  mkRelay (rl_limits s) (rl_clients s) x (rl_channels s) (rl_invites s) (rl_groups s) (rl_registry s) (rl_by_session s)
    (rl_last_sign s) (rl_connect s) (rl_forward s) (rl_windows s) (rl_wire s).
Definition set_channels (s : Relay) x : Relay :=
  mkRelay (rl_limits s) (rl_clients s) (rl_next s) x (rl_invites s) (rl_groups s) (rl_registry s) (rl_by_session s)
    (rl_last_sign s) (rl_connect s) (rl_forward s) (rl_windows s) (rl_wire s).
Definition set_invites (s : Relay) x : Relay :=
  mkRelay (rl_limits s) (rl_clients s) (rl_next s) (rl_channels s) x (rl_groups s) (rl_registry s) (rl_by_session s)
    (rl_last_sign s) (rl_connect s) (rl_forward s) (rl_windows s) (rl_wire s).
Definition set_authority (s : Relay) x : Relay :=
  mkRelay (rl_limits s) (rl_clients s) (rl_next s) (rl_channels s) (rl_invites s) x (rl_registry s) (rl_by_session s)
    (rl_last_sign s) (rl_connect s) (rl_forward s) (rl_windows s) (rl_wire s).
Definition set_registry (s : Relay) x : Relay :=
  mkRelay (rl_limits s) (rl_clients s) (rl_next s) (rl_channels s) (rl_invites s) (rl_groups s) x (rl_by_session s)
    (rl_last_sign s) (rl_connect s) (rl_forward s) (rl_windows s) (rl_wire s).
Definition set_by_session (s : Relay) x : Relay :=
  mkRelay (rl_limits s) (rl_clients s) (rl_next s) (rl_channels s) (rl_invites s) (rl_groups s) (rl_registry s) x
    (rl_last_sign s) (rl_connect s) (rl_forward s) (rl_windows s) (rl_wire s).
Definition set_last_sign (s : Relay) x : Relay :=
  mkRelay (rl_limits s) (rl_clients s) (rl_next s) (rl_channels s) (rl_invites s) (rl_groups s) (rl_registry s) (rl_by_session s)
    x (rl_connect s) (rl_forward s) (rl_windows s) (rl_wire s).
Definition set_connect (s : Relay) x : Relay :=
  mkRelay (rl_limits s) (rl_clients s) (rl_next s) (rl_channels s) (rl_invites s) (rl_groups s) (rl_registry s) (rl_by_session s)
    (rl_last_sign s) x (rl_forward s) (rl_windows s) (rl_wire s).
Definition set_forward (s : Relay) x : Relay :=
  mkRelay (rl_limits s) (rl_clients s) (rl_next s) (rl_channels s) (rl_invites s) (rl_groups s) (rl_registry s) (rl_by_session s)
    (rl_last_sign s) (rl_connect s) x (rl_windows s) (rl_wire s).
Definition set_windows (s : Relay) x : Relay :=
  mkRelay (rl_limits s) (rl_clients s) (rl_next s) (rl_channels s) (rl_invites s) (rl_groups s) (rl_registry s) (rl_by_session s)
    (rl_last_sign s) (rl_connect s) (rl_forward s) x (rl_wire s).
Definition set_wire (s : Relay) x : Relay :=
  mkRelay (rl_limits s) (rl_clients s) (rl_next s) (rl_channels s) (rl_invites s) (rl_groups s) (rl_registry s) (rl_by_session s)
    (rl_last_sign s) (rl_connect s) (rl_forward s) (rl_windows s) x.

(** ** The monad of handlers *)

(** What a handler can raise; each ends the client it runs for.  A
    [PacketValidationError], [ConnectionClosed] or [HandshakeError] is a
    [TransportError]. *)
Inductive relay_error :=
| RPacketInvalid      (** [PacketValidationError] of an outgoing packet *)
| RLink               (** [TransportError], [ConnectionError] or [OSError] of a send *)
| RGoodbye            (** [ConnectionClosed] after a DISCONNECT *)
| RHandshake          (** [HandshakeError] *)
| RDecode             (** what [decode_packet] raises *)
| RKeyError           (** [KeyError] of a missing payload field *)
| RUncaught.          (** an error of an authority that is not a [GroupError] *)

(** What the environment gives to a handler: the monotonic and the wall
    clock, which sockets take what is written to them, the text of a number
    of seconds ([ev_num], of microseconds) and of [float(v)], the identifier
    and time of the packet that comes n-th on the wire, the text of an error of
    [decode_packet], and the random draws. *)
Record Env := mkEnv {
  ev_now : Z; ev_wall : datetime; ev_up : Z → bool; ev_num : Z → unicode; ev_float : json → unicode;
  ev_stamp : nat → stamp; ev_note : unicode;
  ev_op : string; ev_mints : list (list Z); ev_session_id : string; ev_nonce : string;
}.

Definition M (A : Type) : Type := Relay → result relay_error A * Relay.

#[export] Instance M_ret : MRet M := λ A a s, (Ok a, s).
#[export] Instance M_bind : MBind M := λ A B f m s, match m s with (Ok a, s') => f a s' | (Err e, s') => (Err e, s') end.

Definition raise {A} (e : relay_error) : M A := λ s, (Err e, s).
Definition gets {A} (f : Relay → A) : M A := λ s, (Ok (f s), s).
Definition modify (f : Relay → Relay) : M unit := λ s, (Ok tt, f s).
Definition skip : M unit := mret tt.

(** The errors of a send that [suppress(TransportError, ConnectionError,
    OSError)] and the handler of [_send_to_session] catch. *)
Definition caught (e : relay_error) : bool :=
  match e with RPacketInvalid | RLink | RGoodbye | RHandshake => true | _ => false end.

(** Run [m]; a caught error makes it [false]. *)
Definition attempted (m : M unit) : M bool := λ s,
  match m s with
  | (Ok _, s') => (Ok true, s')
  | (Err e, s') => if caught e then (Ok false, s') else (Err e, s')
  end.

(** [with suppress(TransportError, ConnectionError, OSError)] *)
Definition suppress (m : M unit) : M unit := attempted m;; skip.

(** [for x in l: f(x)] *)
Fixpoint for_each {A} (l : list A) (f : A → M unit) : M unit :=
  match l with [] => skip | x :: l' => f x;; for_each l' f end.

(** A call of an authority: its result and the state it leaves. *)
Definition on_invites {E A} (f : Invites → outcome Invites E A) : M (result E A) :=
  λ s, let '(r, i) := f (rl_invites s) in (Ok r, set_invites s i).
Definition on_groups {E A} (f : Authority → outcome Authority E A) : M (result E A) :=
  λ s, let '(r, a) := f (rl_groups s) in (Ok r, set_authority s a).

(** ** Requests *)

(** A packet from a client, its fields as the handlers read them
    ([str(payload[...])], [int(...)]).  Texts for the authorities are ASCII, as
    in their models. *)
Inductive Request :=
| QPing (nonce : unicode) (sent_at : json)
| QHeartbeat (seq : Z)
| QDisconnect
| QAttach (channel : unicode) (role : string)
| QDetach (channel : unicode)
| QForward (channel body : unicode)
| QInviteCreate (token : string) (room : option string) (ttl uses : Z) (kind group : string)
| QInviteQuery (token : string)
| QInviteRevoke (token : string)
| QRedeem (token : string)
| QGroupCreate (name pubkey pop handle display suite : string)
| QGroupAttest (group pubkey sig handle display : string)
| QGroupState (group : string)
| QGroupLeave (group : string)
| QGroupRemove (group subject : string)
| QGroupDissolve (group : string)
| QGroupSign (group op sig : string)
| QGroupForward (group : string) (epoch : Z) (from to : string) (packet : Packet)
| QMidSession         (** HELLO or WELCOME *)
| QUnsupported.       (** a packet only a client handles *)

(** The microseconds of a number of seconds, rounded half to even. *)
Definition round_div (n d : Z) : Z :=
  let q := n / d in let r := n mod d in
  if 2 * r <? d then q else if d <? 2 * r then q + 1 else if Z.even q then q else q + 1.
Definition micros_of (v : json) : Z :=
  match v with
  | JInt z => z * MICRO
  | JFloat l =>
      let '(neg, m, e) := float_parts l in
      let x := if 0 <=? e + 6 then m * 10 ^ (e + 6) else round_div m (10 ^ (- (e + 6))) in
      if neg then - x else x
  | _ => 0
  end.

Definition str_field (d : fields) (name : string) : option string :=
  match field d name with Some (JStr s) => ascii_text s | _ => None end.
Definition uni_field (d : fields) (name : string) : option unicode :=
  match field d name with Some (JStr s) => Some s | _ => None end.
Definition int_field (d : fields) (name : string) : option Z :=
  match field d name with Some (JInt z) => Some z | _ => None end.

(** [str(payload.get(name, default))] *)
Definition str_default (d : fields) (name fallback : string) : option string :=
  match field d name with None => Some fallback | Some (JStr s) => ascii_text s | _ => None end.

Definition request_of (p : Packet) : option Request :=
  let d := pk_payload p in
  match pk_type p with
  | PING => nonce ← uni_field d "nonce"; sent_at ← field d "sent_at"; Some (QPing nonce sent_at)
  | HEARTBEAT => QHeartbeat <$> int_field d "seq"
  | DISCONNECT => Some QDisconnect
  | ATTACH => channel ← uni_field d "channel"; role ← str_field d "role"; Some (QAttach channel role)
  | DETACH => QDetach <$> uni_field d "channel"
  | FORWARD => channel ← uni_field d "channel"; body ← uni_field d "body"; Some (QForward channel body)
  | INVITE_CREATE =>
      token ← str_field d "token"; ttl ← field d "ttl"; uses ← int_field d "uses";
      kind ← str_default d "kind" "chat"; group ← str_default d "group" "";
      room ← (match field d "room" with None => Some None | Some (JStr s) => Some <$> ascii_text s | _ => None end);
      Some (QInviteCreate token room (micros_of ttl) uses kind group)
  | INVITE_QUERY => QInviteQuery <$> str_field d "token"
  | INVITE_REVOKE => QInviteRevoke <$> str_field d "token"
  | REDEEM => QRedeem <$> str_field d "token"
  | GROUP_CREATE =>
      name ← str_field d "name"; pubkey ← str_field d "pubkey"; pop ← str_field d "pop"; handle ← str_field d "handle";
      display ← str_field d "display"; suite ← str_default d "suite" DEFAULT_CRYPTO_SUITE;
      Some (QGroupCreate name pubkey pop handle display suite)
  | GROUP_ATTEST =>
      group ← str_field d "group"; pubkey ← str_field d "pubkey"; sig ← str_field d "sig"; handle ← str_field d "handle";
      display ← str_field d "display"; Some (QGroupAttest group pubkey sig handle display)
  | GROUP_STATE => QGroupState <$> str_field d "group"
  | GROUP_LEAVE => QGroupLeave <$> str_field d "group"
  | GROUP_REMOVE => group ← str_field d "group"; subject ← str_field d "subject"; Some (QGroupRemove group subject)
  | GROUP_DISSOLVE => QGroupDissolve <$> str_field d "group"
  | GROUP_SIGN =>
      group ← str_field d "group"; op ← str_field d "op"; sig ← str_field d "sig"; Some (QGroupSign group op sig)
  | GROUP_FORWARD =>
      group ← str_field d "group"; epoch ← int_field d "epoch"; from ← str_field d "from"; to ← str_field d "to";
      Some (QGroupForward group epoch from to p)
  | HELLO | WELCOME => Some QMidSession
  | _ => Some QUnsupported
  end.
