(* ===== verification/RelayPacketTheorems.v ===== *)
(** * Packets survive the wire

    The round trip of [encode_packet] and [decode_packet] of
    [transport/relay/protocol.py], what a decoded packet promises to the
    handlers of the relay, and the errors that escape the decoder. *)

From S2P Require Import Prelude Text Utf8 Primitives Ids Json ChannelFrames RelayPackets RelayState.

Open Scope Z_scope.

Lemma packet_type_of_name t : packet_type_of (cp (packet_type_name t)) = Some t.
Proof. by destruct t. Qed.

(** What the constructors of packets fill in. *)
Record packet_wf (p : Packet) : Prop := {
  pw_id : bounded 1 MAX_PACKET_ID_LENGTH (pk_id p) = true ∧ Forall (λ c, is_scalar c = true) (pk_id p);
  pw_time : timestamp_ok (pk_sent_at p);
  pw_payload : json_ok (JObj (pk_payload p));
}.

Lemma packet_type_scalar t : Forall (λ c, is_scalar c = true) (cp (packet_type_name t)).
Proof. destruct t; repeat constructor. Qed.

Lemma packet_dict_ok p : packet_wf p → json_ok (packet_dict p).
Proof.
  intros [[_ Hid] Ht Hd]. unfold packet_dict. constructor.
  - unfold dict_wf, keys. cbn [fmap list_fmap fst]. apply (bool_decide_unpack _). vm_compute. exact I.
  - repeat constructor.
  - constructor; [constructor; unfold int_ok; vm_compute; lia|].
    constructor; [by constructor|]. constructor; [constructor; apply packet_type_scalar|].
    constructor; [|constructor; [exact Hd|constructor]].
    cbn [snd]. destruct (pk_sent_at p); try done; constructor; apply Ht.
Qed.

Lemma demand_timestamp_ok v :
  timestamp_ok v → demand_timestamp (Some v) = Ok v ∧
  match v with
  | JInt z => guard_or (negb (float_overflows z)) PktOverflowError;; Ok (JInt (float_round z))
  | v => Ok v
  end = Ok v.
Proof.
  destruct v as [| |z|l| | |]; try done; cbn [timestamp_ok demand_timestamp].
  - intros (H1 & H2 & H3 & _). rewrite (proj2 (Z.ltb_lt _ _) H1), H2, H3. done.
  - intros [_ H]. by rewrite H.
Qed.

Lemma demand_Ok b u : demand b = Ok u ↔ b = true.
Proof. apply guard_or_Ok. Qed.

Lemma packet_of_dict p : packet_wf p → validate_packet (pk_type p) (pk_payload p) = Ok tt → packet_of_document (packet_dict p) = Ok p.
Proof.
  intros [[Hid _] Ht _] Hv. destruct (demand_timestamp_ok _ Ht) as [H1 H2].
  destruct p as [t d id ts]. cbn [pk_type pk_payload pk_id pk_sent_at] in *.
  unfold packet_of_document, packet_dict. cbn [pk_type pk_payload pk_id pk_sent_at].
  set (doc := [(cp "v", _); _; _; _; _]).
  assert (E1 : field doc "v" = Some (JInt PROTOCOL_VERSION)) by reflexivity.
  assert (E2 : field doc "id" = Some (JStr id)) by reflexivity.
  assert (E3 : field doc "type" = Some (JStr (cp (packet_type_name t)))) by reflexivity.
  assert (E4 : field doc "ts" = Some ts) by reflexivity.
  assert (E5 : field doc "payload" = Some (JObj d)) by reflexivity.
  unfold demand_str. rewrite E1, E2, E3, E4, E5, packet_type_of_name, H1, Hid.
  change (demand_version (Some (JInt PROTOCOL_VERSION))) with (Ok (E := packet_error) tt).
  cbn [demand guard_or of_option mbind result_bind]. rewrite Hv. cbn [mbind result_bind].
  destruct ts; cbn [mbind result_bind] in *; try reflexivity. by rewrite H2.
Qed.

Lemma packet_survives p raw : packet_wf p → encode_packet p = Ok raw → decode_packet raw = Ok p.
Proof.
  intros Hp H. unfold encode_packet in H. apply bind_Ok in H as ([] & Hv & H).
  apply bind_Ok in H as ([] & Hlen%demand_Ok & H).
  assert (E : raw = dumps (packet_dict p)) by congruence. clear H. subst raw.
  pose proof (packet_dict_ok p Hp) as Hok. unfold decode_packet.
  rewrite Hlen, (utf8_decode_ascii _ (dumps_ascii _ Hok)).
  cbn [demand guard_or of_option mbind result_bind]. rewrite (loads_dumps _ Hok).
  by apply packet_of_dict.
Qed.

(** C28: A packet survives the wire: whatever [encode_packet] accepts of a
    packet with an identifier of 1 to 16 characters and a positive time stamp
    (a float, or an integer that a double holds exactly) is decoded to the very
    same packet, if its texts consist of Unicode scalar values (no
    surrogates), its integers have at most 4300 digits and its floats are
    finite.  Text of any such characters survives. *)
Theorem relay_packet_roundtrip p raw : packet_wf p → encode_packet p = Ok raw → decode_packet raw = Ok p.
Proof. apply packet_survives. Qed.

Definition sample_packet : Packet :=
  forward_packet (cp "gl-room-AAAA-AAAA-AAAA") (cp "aGVsbG8=") (cp "0123456789abcdef", JFloat (cp "1731888000.25")).

Lemma sample_packet_wf : packet_wf sample_packet.
Proof.
  split.
  - split; [reflexivity|]. repeat constructor.
  - split; [|vm_compute; reflexivity].
    exists false, (cp "1731888000"), (cp ".25"), []. split; [reflexivity|]. split; [|split; [|split]].
    + right. eexists _, _. split; [reflexivity|]. split; [vm_compute; split; congruence|]. repeat constructor.
    + right. eexists _, _. split; [reflexivity|]. repeat constructor.
    + by left.
    + discriminate.
  - constructor.
    + apply (bool_decide_unpack _). vm_compute. exact I.
    + repeat constructor.
    + constructor; [by repeat constructor|]. constructor; [by repeat constructor|]. constructor.
Qed.

Lemma relay_packet_roundtrip_witness : decode_packet (dumps (packet_dict sample_packet)) = Ok sample_packet.
Proof. apply relay_packet_roundtrip; [exact sample_packet_wf|]. vm_compute. reflexivity. Defined.

(** ** What a decoded packet promises *)

Lemma decode_packet_Ok raw p :
  decode_packet raw = Ok p →
  Z.of_nat (length raw) <= MAX_MESSAGE_BYTES ∧ bounded 1 MAX_PACKET_ID_LENGTH (pk_id p) = true ∧
  validate_packet (pk_type p) (pk_payload p) = Ok tt.
Proof.
  unfold decode_packet. intros H. apply bind_Ok in H as ([] & Hl%demand_Ok & H). breflect.
  apply bind_Ok in H as (t & _ & H). apply bind_Ok in H as (doc & _ & H).
  unfold packet_of_document in H. destruct doc as [| | | | | |d]; try done.
  apply bind_Ok in H as ([] & _ & H). apply bind_Ok in H as (id & Hid & H).
  apply bind_Ok in H as (ty & _ & H). apply bind_Ok in H as (ts & _ & H).
  destruct (field d "payload") as [[| | | | | |payload]|]; try done.
  apply bind_Ok in H as ([] & Hv & H). apply bind_Ok in H as (stamp & _ & H). injection H as <-.
  split; [done|]. split; [|done]. unfold demand_str in Hid. cbn [pk_id].
  destruct (field d "id") as [[]|]; try done. by apply bind_Ok in Hid as ([] & Hb%demand_Ok & [= <-]).
Qed.

Lemma demand_str_Ok d name n s : demand_str d name n = Ok s → field d name = Some (JStr s) ∧ (1 <= length s <= n)%nat.
Proof.
  unfold demand_str. destruct (field d name) as [[]|]; try done. intros H.
  apply bind_Ok in H as ([] & Hb%demand_Ok & [= ->]). split; [done|]. unfold bounded in Hb. by breflect.
Qed.

Lemma demand_int_Ok d name n z : demand_int d name n = Ok z → field d name = Some (JInt z) ∧ n <= z.
Proof.
  unfold demand_int. destruct (field d name) as [[]|]; try done. intros H.
  apply bind_Ok in H as ([] & Hb%demand_Ok & [= ->]). split; [done|]. by breflect.
Qed.

Lemma demand_among_Ok d name n names s :
  demand_among d name n names = Ok s → field d name = Some (JStr s) ∧ ∃ t, t ∈ names ∧ s = cp t.
Proof.
  unfold demand_among. intros H. apply bind_Ok in H as (s' & [Hs _]%demand_str_Ok & H).
  apply bind_Ok in H as ([] & Ha%demand_Ok & [= ->]). split; [done|]. unfold among in Ha. breflect.
  apply list_elem_of_fmap in Ha as (t & -> & Ht). eauto.
Qed.

(** A field that is text, and the text is ASCII. *)
Definition ascii_payload (d : fields) : Prop := ∀ name s, field d name = Some (JStr s) → is_Some (ascii_text s).
Definition text_present (d : fields) (name : string) : Prop := ∃ s, field d name = Some (JStr s).

Lemma demand_str_text d name n s : demand_str d name n = Ok s → text_present d name.
Proof. intros [H _]%demand_str_Ok. by exists s. Qed.
Lemma demand_among_text d name n names s : demand_among d name n names = Ok s → text_present d name.
Proof. intros [H _]%demand_among_Ok. by exists s. Qed.
Lemma demand_group_text d name : demand_group d name = Ok tt → text_present d name.
Proof. unfold demand_group. intros H. apply bind_Ok in H as (s & H%demand_str_text & _). done. Qed.
Lemma demand_fingerprint_text d name : demand_fingerprint d name = Ok tt → text_present d name.
Proof. unfold demand_fingerprint. intros H. apply bind_Ok in H as (s & H%demand_str_text & _). done. Qed.
Lemma demand_channel_text d : demand_channel d = Ok tt → text_present d "channel".
Proof. unfold demand_channel. intros H. apply bind_Ok in H as (s & H%demand_str_text & _). done. Qed.
Lemma demand_key_text d name : demand_key d name = Ok tt → text_present d name.
Proof. unfold demand_key. intros H. apply bind_Ok in H as (s & H%demand_str_text & _). done. Qed.
Lemma demand_body_text d s : demand_body d = Ok s → text_present d "body".
Proof. unfold demand_body. destruct (field d "body") as [[]|] eqn:E; try done. intros _. by eexists. Qed.

Lemma text_uni d name : text_present d name → is_Some (uni_field d name).
Proof. intros [s Hs]. unfold uni_field. rewrite Hs. eauto. Qed.
Lemma text_str d name : ascii_payload d → text_present d name → is_Some (str_field d name).
Proof. intros Ha [s Hs]. unfold str_field. rewrite Hs. by eapply Ha. Qed.
Lemma int_present d name n z : demand_int d name n = Ok z → is_Some (int_field d name).
Proof. intros [H _]%demand_int_Ok. unfold int_field. rewrite H. eauto. Qed.
Lemma number_present d name v : demand_number d name = Ok v → is_Some (field d name).
Proof. unfold demand_number. destruct (field d name); [eauto|done]. Qed.
Lemma suite_present d : demand_suite d = Ok tt → ascii_payload d → is_Some (str_default d "suite" DEFAULT_CRYPTO_SUITE).
Proof.
  unfold demand_suite, str_default. intros H Ha. destruct (field d "suite") as [[]|] eqn:E; try done.
  by eapply Ha.
Qed.

Create HintDb packets.
#[export] Hint Resolve demand_str_text demand_among_text demand_group_text demand_fingerprint_text demand_channel_text
  demand_key_text demand_body_text text_uni text_str int_present number_present suite_present : packets.

(** Take a sequence of checks apart. *)
Ltac demands H :=
  repeat match type of H with
  | (_ ≫= _) = Ok _ => let x := fresh "x" in let E := fresh "E" in apply bind_Ok in H as (x & E & H); match type of x with unit => destruct x | _ => idtac end
  end.

(** A read that succeeds, then what is built from it. *)
Lemma bind_is_Some {A B} (o : option A) (f : A → option B) : is_Some o → (∀ a, is_Some (f a)) → is_Some (o ≫= f).
Proof. intros [a ->] H. apply H. Qed.
Lemma fmap_is_Some' {A B} (o : option A) (f : A → B) : is_Some o → is_Some (f <$> o).
Proof. intros [a ->]. eauto. Qed.

(** C29: No handler meets a missing field: a packet that was decoded, from
    any bytes, came from at most a mebibyte, carries an identifier of 1 to 16
    characters and, when its text is ASCII, every field that the relay's
    handler of its type reads, with the type it reads it as.  An
    INVITE_CREATE is the exception: its room may be absent. *)
Theorem decoded_packet_has_request raw p :
  decode_packet raw = Ok p → ascii_payload (pk_payload p) → pk_type p ≠ INVITE_CREATE →
  Z.of_nat (length raw) <= MAX_MESSAGE_BYTES ∧ bounded 1 MAX_PACKET_ID_LENGTH (pk_id p) = true ∧ ∃ q, request_of p = Some q.
Proof.
  intros (Hl & Hid & Hv)%decode_packet_Ok Ha Ht. split; [done|]. split; [done|]. change (is_Some (request_of p)).
  unfold request_of. unfold validate_packet, validate_group_packet in Hv.
  destruct (pk_type p); try done; cbn [decide] in Hv; demands Hv;
    repeat first [solve [eauto with packets] | apply fmap_is_Some' | apply bind_is_Some; [|intros ?]].
Qed.

Lemma decoded_packet_has_request_witness : ∃ q, request_of sample_packet = Some q.
Proof.
  apply (decoded_packet_has_request (dumps (packet_dict sample_packet))); [vm_compute; reflexivity| |done].
  intros name s. unfold field, sample_packet. cbn [pk_payload forward_packet new_packet].
  cbn [fmap list_fmap fst snd dget]. repeat case_decide; intros [= <-]; vm_compute; eauto.
Defined.

(** ** Errors that escape the decoder *)

Definition list_version : bytes := cp "{" ++ [quote] ++ cp "v" ++ [quote] ++ cp ":[]}".

(** An envelope whose version is a list raises the [TypeError] of a set
    lookup instead of the validation error callers handle. *)
Example list_version_escapes : decode_packet list_version = Err PktTypeError.
Proof. vm_compute. reflexivity. Qed.

Definition huge_timestamp : bytes :=
  dumps (packet_dict (mkPacket PING [(cp "nonce", JStr (cp "n")); (cp "sent_at", JInt (10 ^ 309))] (cp "a") (JFloat (cp "1.5")))).

(** A number of 310 digits passes as JSON and raises [OverflowError] in
    [float]. *)
Example huge_number_escapes : decode_packet huge_timestamp = Err PktOverflowError.
Proof. vm_compute. reflexivity. Qed.

(** ** The relay's copy of a forwarded body *)

(** A stamp as [Packet] draws it: a short identifier and a time. *)
Definition stamp_ok (st : stamp) : Prop :=
  bounded 1 MAX_PACKET_ID_LENGTH st.1 = true ∧ ∃ l, st.2 = JFloat l ∧ (length l <= 64)%nat.

Lemma forward_copy_encodes d channel body st :
  validate_packet FORWARD d = Ok tt → field d "channel" = Some (JStr channel) → field d "body" = Some (JStr body) → stamp_ok st →
  ∃ raw, encode_packet (forward_packet channel body st) = Ok raw.
Proof.
  intros Hv Hc Hb ([_ Hid]%andb_true_iff & l & Hl & Hn).
  assert (Hv' : validate_packet FORWARD (pk_payload (forward_packet channel body st)) = Ok tt).
  { rewrite <- Hv. unfold validate_packet, demand_channel, demand_str, demand_body. by rewrite Hc, Hb. }
  assert (Hlen : (length channel <= 64)%nat ∧ Z.of_nat (length body) <= MAX_FORWARD_BODY_LENGTH).
  { unfold validate_packet, demand_channel, demand_body in Hv. apply bind_Ok in Hv as ([] & H1 & Hv).
    apply bind_Ok in H1 as (s & [Hs [_ H1]]%demand_str_Ok & _). rewrite Hc in Hs. simplify_eq. split; [done|].
    rewrite Hb in Hv. apply bind_Ok in Hv as (b & Hv & _). apply bind_Ok in Hv as ([] & Hv%demand_Ok & _). by breflect. }
  unfold encode_packet. change (pk_type (forward_packet channel body st)) with FORWARD. rewrite Hv'. cbn [mbind result_bind].
  assert (Hsize : Z.of_nat (length (dumps (packet_dict (forward_packet channel body st)))) <=? MAX_MESSAGE_BYTES = true); [|rewrite Hsize; by eexists].
  apply Z.leb_le. unfold packet_dict. cbn [pk_id pk_sent_at pk_type pk_payload forward_packet new_packet packet_type_name fmap list_fmap fst snd].
  rewrite Hl. cbn [dumps fmap list_fmap joined fst snd].
  repeat (rewrite length_app || (cbn [length app])).
  pose proof (dump_string_length channel). pose proof (dump_string_length body). pose proof (dump_string_length st.1).
  assert (Hk : ∀ s : string, (length (dump_string (cp s)) <= 12 * length (cp s) + 2)%nat) by (intros; apply dump_string_length).
  apply Nat.leb_le in Hid. destruct Hlen as [Hl1 Hl2]. unfold MAX_PACKET_ID_LENGTH, MAX_FORWARD_BODY_LENGTH, MAX_MESSAGE_BYTES in *.
  assert (Hs : ∀ s : string, (length (cp s) <= 12)%nat → (length (dump_string (cp s)) <= 146)%nat) by (intros s Hs; specialize (Hk s); lia).
  assert (Hz : (length (cp (str_of_Z PROTOCOL_VERSION)) <= 12)%nat) by (vm_compute; lia).
  pose proof (Hs "v" ltac:(vm_compute; lia)). pose proof (Hs "id" ltac:(vm_compute; lia)). pose proof (Hs "type" ltac:(vm_compute; lia)).
  pose proof (Hs "ts" ltac:(vm_compute; lia)). pose proof (Hs "payload" ltac:(vm_compute; lia)). pose proof (Hs "channel" ltac:(vm_compute; lia)).
  pose proof (Hs "body" ltac:(vm_compute; lia)). pose proof (Hs "FORWARD" ltac:(vm_compute; lia)). lia.
Qed.
