(* ===== verification/RelayServer.v ===== *)
(** * The relay server

    [transport/relay/server.py]: admission, the opening HELLO, the dispatch of
    every packet, rendezvous channels, invites and groups through their
    authorities, the abuse brakes, the sweeps and the teardown of a client.

    Sending a packet appends it to the log of what was put on the wire, or
    raises when the packet does not validate, the connection is closed or the
    socket fails.  A handler runs to its end without interleaving.  The text of
    an error reply is represented by the error's code; it has 1 to 256
    characters except where it quotes the packet it refuses ([ev_note]). *)

From S2P Require Import Prelude Text Utf8 Primitives Ids Events GroupAuthority Invites Json ChannelFrames RelayPackets RelayState.

Open Scope Z_scope.

(** ** Sending *)

Definition client (c : Z) (s : Relay) : option Context := dget (rl_clients s) c.

Definition alter_client (f : Context → Context) (c : Z) (s : Relay) : Relay :=
  match client c s with Some x => set_clients s (dset (rl_clients s) c (f x)) | None => s end.

Definition set_conn (k : conn_state) (x : Context) : Context :=
  mkContext (cx_remote x) k (cx_session x) (cx_attachments x) (cx_protocol x) (cx_nonce x).
Definition set_session (i : option string) (x : Context) : Context :=
  mkContext (cx_remote x) (cx_conn x) i (cx_attachments x) (cx_protocol x) (cx_nonce x).
Definition set_attachments (l : list (unicode * string)) (x : Context) : Context :=
  mkContext (cx_remote x) (cx_conn x) (cx_session x) l (cx_protocol x) (cx_nonce x).
Definition set_version (v : Z) (nonce : string) (x : Context) : Context :=
  mkContext (cx_remote x) (cx_conn x) (cx_session x) (cx_attachments x) v nonce.

(** [_send] *)
Definition send (env : Env) (c : Z) (build : stamp → Packet) : M unit := λ s,
  match cx_conn <$> client c s with
  | None | Some NoConnection => (Err RLink, s)
  | Some k =>
      let p := build (ev_stamp env (length (rl_wire s))) in
      match encode_packet p with
      | Err PacketValidationError => (Err RPacketInvalid, s)
      | Err _ => (Err RUncaught, s)
      | Ok _ => if bool_decide (k = Open) && ev_up env c then (Ok tt, set_wire s (rl_wire s ++ [(c, p)])) else (Err RLink, s)
      end
  end.

(** An ERROR packet with fields that say what it is about. *)
Definition scoped_error (code : string) (about : list (string * json)) : stamp → Packet :=
  new_packet ERROR ([("code", text code); ("message", text code)] ++ about).

(** [_channel_error], [_invite_error], [_group_error], [_group_forward_error] *)
Definition channel_error (env : Env) (c : Z) (code : string) (channel : unicode) : M unit :=
  send env c (scoped_error code [("channel", JStr channel)]).
Definition invite_error (env : Env) (c : Z) (code invite_id : string) : M unit :=
  send env c (scoped_error code (if decide (invite_id = "") then [] else [("invite", text invite_id)])).
Definition group_error (env : Env) (c : Z) (code group_id : string) : M unit :=
  send env c (scoped_error code (if decide (group_id = "") then [] else [("group", text group_id)])).
Definition group_forward_error (env : Env) (c : Z) (code group_id member : string) : M unit :=
  send env c (scoped_error code [("group", text group_id); ("member", text member)]).

(** [_send_to_session] *)
Definition send_to_session (env : Env) (session_id : string) (build : stamp → Packet) : M bool :=
  target ← gets (λ s, d ← dget (rl_by_session s) session_id; x ← client d s; Some (d, cx_conn x));
  match target with
  | Some (d, Open) => attempted (send env d build)
  | _ => mret false
  end.

(** ** Rate limits *)

(** A token bucket: [(tokens, stamped)] before, whether a token was taken, and
    the bucket after. *)
Definition take_token (rate burst now : Z) (bucket : option (Z * Z)) : bool * (Z * Z) :=
  let '(tokens, stamped) := default (burst * MICRO, now) bucket in
  let tokens := Z.min (burst * MICRO) (tokens + (now - stamped) * rate) in
  if tokens <? MICRO then (false, (tokens, now)) else (true, (tokens - MICRO, now)).

(** [_forward_rate_allowed] *)
Definition forward_rate_allowed (env : Env) (group_id session_id : string) : M bool := λ s,
  let '(ok, bucket) := take_token GROUP_FORWARD_RATE_PER_SECOND GROUP_FORWARD_RATE_BURST (ev_now env)
    (dget (rl_forward s) (group_id, session_id)) in
  (Ok ok, set_forward s (dset (rl_forward s) (group_id, session_id) bucket)).

(** [_event_rate_allowed] *)
Definition slide (now : Z) (window : list Z) : list Z := drop_while (λ t, GROUP_EVENT_RATE_WINDOW <? now - t) window.
Definition event_rate_allowed (env : Env) (session_id : string) : M bool := λ s,
  let window := slide (ev_now env) (default [] (dget (rl_windows s) session_id)) in
  if (GROUP_EVENT_RATE_OPS <=? length window)%nat
  then (Ok false, set_windows s (dset (rl_windows s) session_id window))
  else (Ok true, set_windows s (dset (rl_windows s) session_id (window ++ [ev_now env]))).

(** [_prune_connect_tokens] *)
Fixpoint prune (burst now : Z) (todo d : list (string * (Z * Z))) : list (string * (Z * Z)) :=
  match todo with
  | [] => d
  | (host, (tokens, stamped)) :: todo' =>
      let d' := if (burst * MICRO <=? tokens) && (300 * MICRO <? now - stamped) then dpop d host else d in
      if (Z.of_nat (length d') <=? 2048) then d' else prune burst now todo' d'
  end.
Definition prune_connect_tokens (env : Env) : M unit := modify (λ s,
  if Z.of_nat (length (rl_connect s)) <=? 4096 then s
  else set_connect s (prune (lm_connect_burst (rl_limits s)) (ev_now env) (rl_connect s) (rl_connect s))).

(** ** Accepting *)

(** [remote.rsplit(":", 1)[0] if ":" in remote else remote] *)
Definition host_of (remote : string) : string :=
  let cs := reverse (chars remote) in
  let fix after l := match l with [] => None | c :: l' => if decide (code c = 58) then Some l' else after l' end in
  match after cs with Some l => of_chars (reverse l) | None => remote end.

(** [_connection_admitted] *)
Definition connection_admitted (env : Env) (remote : string) : M bool := λ s,
  let lim := rl_limits s in
  if lm_max_connections lim <=? Z.of_nat (length (rl_clients s)) then (Ok false, s)
  else
    let '(ok, bucket) := take_token (lm_connect_rate lim) (lm_connect_burst lim) (ev_now env)
      (dget (rl_connect s) (host_of remote)) in
    (Ok ok, set_connect s (dset (rl_connect s) (host_of remote) bucket)).

(** [_on_connection]: the client's number when it is admitted. *)
Definition on_connection (env : Env) (remote : string) : M (option Z) :=
  ok ← connection_admitted env remote;
  if negb ok then mret None
  else
    modify (λ s, set_next s (rl_next s + 1));;
    c ← gets rl_next;
    modify (λ s, set_clients s (dset (rl_clients s) c (mkContext remote NoConnection None [] 1 "")));;
    mret (Some c).

(** The upgrade at the start of [_handle_client]. *)
Definition upgrade (c : Z) : M unit := modify (alter_client (set_conn Open) c).

(** The state a HELLO sets up before WELCOME is sent: the session, the
    version and the challenge of the client, the table of sessions. *)
Definition open_session (env : Env) (c : Z) (version : Z) (s : Relay) : Relay :=
  let i := ev_session_id env in
  let s1 := set_registry s (register_session (rl_registry s)
    (Session_create i (Some (lm_session_ttl (rl_limits s))) (ev_wall env))) in
  let s2 := alter_client (set_version version (ev_nonce env)) c s1 in
  set_by_session s2 (dset (rl_by_session s2) i c).

(** [_expect_hello], and [context.session = session] after it. *)
Definition expect_hello (env : Env) (c : Z) (data : bytes) : M unit :=
  match decode_packet data with
  | Err _ => raise RDecode
  | Ok packet =>
      if negb (bool_decide (pk_type packet = HELLO)) then
        send env c (scoped_error "protocol/expected-hello" []);; raise RHandshake
      else
        lim ← gets rl_limits;
        modify (open_session env c (default 1 (int_field (pk_payload packet) "protocol")));;
        send env c (welcome_packet (ev_session_id env) (lm_server_name lim) (JFloat (ev_num env (ev_wall env)))
          (lm_heartbeat lim) (Some (ev_nonce env)));;
        modify (alter_client (set_session (Some (ev_session_id env))) c)
  end.

(** ** Channels *)

(** [_Channel.counterparty] *)
Definition counterparty (ms : members) (c : Z) : option (Z * string) := head (filter (λ x, x.1 ≠ c) ms).

(** [_attach_membership]: [false] when the channel is full. *)
Definition attach_membership (c : Z) (channel : unicode) (role : string) : M bool := λ s,
  let ms := default [] (dget (rl_channels s) channel) in
  if dmem ms c || negb (CHANNEL_CAPACITY <=? length ms)%nat then
    let s1 := set_channels s (dset (rl_channels s) channel (dset ms c role)) in
    (Ok true, alter_client (λ x, set_attachments (dset (cx_attachments x) channel role) x) c s1)
  else (Ok false, s).

(** [_notify_peer_joined] *)
Definition notify_peer_joined (env : Env) (c : Z) (channel : unicode) : M unit :=
  target ← gets (λ s, ms ← dget (rl_channels s) channel; o ← counterparty ms c; client o.1 s;; Some o.1);
  match target with Some d => suppress (send env d (peer_packet channel "joined")) | None => skip end.

(** [_notify_peer_left] *)
Definition notify_peer_left (env : Env) (channel : unicode) : M unit :=
  target ← gets (λ s, ms ← dget (rl_channels s) channel; o ← head ms; client o.1 s;; Some o.1);
  match target with Some d => suppress (send env d (peer_packet channel "left")) | None => skip end.

(** [_leave_channel] *)
Definition leave_channel (env : Env) (c : Z) (channel : unicode) : M unit :=
  found ← gets (λ s, dget (rl_channels s) channel);
  match found with
  | None => skip
  | Some ms =>
      if negb (dmem ms c) then skip
      else
        let ms' := dpop ms c in
        modify (λ s, set_channels s (dset (rl_channels s) channel ms'));;
        modify (alter_client (λ x, set_attachments (dpop (cx_attachments x) channel) x) c);;
        if decide (ms' = []) then modify (λ s, set_channels s (dpop (rl_channels s) channel))
        else notify_peer_left env channel
  end.

(** [_handle_attach] *)
Definition handle_attach (env : Env) (c : Z) (channel : unicode) (role : string) : M unit :=
  ok ← attach_membership c channel role;
  if negb ok then channel_error env c "relay/channel-full" channel
  else
    ms ← gets (λ s, default [] (dget (rl_channels s) channel));
    send env c (attached_packet channel role (Z.of_nat (length ms) - 1));;
    match counterparty ms c with Some _ => notify_peer_joined env c channel | None => skip end.

(** [_handle_detach] *)
Definition handle_detach (env : Env) (c : Z) (x : Context) (channel : unicode) : M unit :=
  if negb (dmem (cx_attachments x) channel) then channel_error env c "relay/not-attached" channel
  else leave_channel env c channel.

(** [_handle_forward] *)
Definition handle_forward (env : Env) (c : Z) (channel body : unicode) : M unit :=
  found ← gets (λ s, dget (rl_channels s) channel);
  match found with
  | None => channel_error env c "relay/not-attached" channel
  | Some ms =>
      if negb (dmem ms c) then channel_error env c "relay/not-attached" channel
      else match counterparty ms c with
           | None => channel_error env c "relay/no-peer" channel
           | Some (d, _) =>
               state ← gets (λ s, cx_conn <$> client d s);
               match state with
               | Some Open => send env d (forward_packet channel body)
               | _ => channel_error env c "relay/no-peer" channel
               end
           end
  end.

(** ** Groups: errors and payloads *)

(** [_group_error_code]; [None] for what is not a [GroupError]. *)
Definition group_error_code (e : GroupError) : option string :=
  match e with
  | GroupEpochError => Some "group/state"
  | GroupConflictError => Some "group/conflict"
  | GroupDissolvedError => Some "group/dissolved"
  | GroupFullError => Some "group/full"
  | GroupPermissionError => Some "group/not-owner"
  | GroupNotMemberError => Some "group/not-member"
  | GroupUnknownError => Some "group/unknown"
  | GroupValidationError | GroupStateError | GroupDefunctError => Some "group/invalid"
  | Events.ConfigValidationError | Events.AssertionError | Events.PyValueError => None
  end.

(** [except GroupError as exc: reply(code)] *)
Definition refuse (e : GroupError) (reply : string → M unit) : M unit :=
  match group_error_code e with Some code => reply code | None => raise RUncaught end.

(** [MemberView.to_payload], [GroupEvent.to_dict] *)
Definition member_payload (m : MemberView) : json :=
  JObj ((λ x, (cp x.1, x.2)) <$> [("fingerprint", text (v_fingerprint m)); ("handle", text (v_handle m));
    ("display_name", text (v_display_name m)); ("public_key_hex", text (v_public_key_hex m));
    ("role", text (v_role m)); ("joined_epoch", JInt (v_joined_epoch m))]).
Definition event_payload (e : event_dict) : json :=
  JObj ((λ x, (cp x.1, x.2)) <$> [("group_id", text (ed_group_id e)); ("epoch", JInt (ed_epoch e));
    ("kind", text (ed_kind e)); ("subject", text (ed_subject e)); ("wall_ts", text (ed_wall_ts e));
    ("signer", text (ed_signer e)); ("signature", text (ed_signature e))]).

(** [_session_id], [_invite_session_id] *)
Definition session_id (x : Context) : string := default "none" (cx_session x).

(** [_group_protocol_gate] *)
Definition group_protocol_gate (env : Env) (c : Z) (x : Context) (group_id : string) (k : M unit) : M unit :=
  if GROUP_PROTOCOL_VERSION <=? cx_protocol x then k else group_error env c "protocol/unsupported" group_id.

(** [_group_event_rate_gate] *)
Definition group_event_rate_gate (env : Env) (c : Z) (x : Context) (group_id : string) (k : M unit) : M unit :=
  ok ← event_rate_allowed env (session_id x);
  if ok : bool then k else group_error env c "group/rate" group_id.

Section handlers.
Context `{P : Primitives} (env : Env).

(** ** Invites *)

(** [_public_invite_id] *)
Definition public_invite_id (token : string) : string :=
  let normalized := upper (strip token) in
  if is_valid_invite_token normalized then default "" (invite_id_for_token normalized)
  else invite_id_of_hash (hash_token normalized).

(** What [_handle_invite_create] checks of a group invite: the code of the
    refusal. *)
Definition group_invite_refusal (x : Context) (group : string) (uses : Z) : M (option string) :=
  if cx_protocol x <? GROUP_PROTOCOL_VERSION then mret (Some "protocol/unsupported")
  else
    a ← gets rl_groups; invites ← gets rl_invites;
    match allow_invite_mint a group (session_id x) uses with
    | Err e => match group_error_code e with Some code => mret (Some code) | None => raise RUncaught end
    | Ok _ =>
        if (GROUP_MAX_ACTIVE_INVITES <=? count_active_group_invites invites group (ev_now env))%nat
        then mret (Some "group/conflict") else mret None
    end.

(** [_handle_invite_create]; the last line is the log of [payload["room"]]. *)
Definition handle_invite_create (c : Z) (x : Context) (token : string) (room : option string) (ttl uses : Z)
    (kind group : string) : M unit :=
  if cx_protocol x <? INVITE_PROTOCOL_VERSION then invite_error env c "protocol/unsupported" (public_invite_id token)
  else
    refusal ← (if decide (kind = "group") then group_invite_refusal x group uses else mret None);
    match refusal with
    | Some code => invite_error env c code (public_invite_id token)
    | None =>
        r ← on_invites (λ i, Invites.register i token (default "" room) ttl uses (session_id x) kind group (ev_now env) (ev_wall env));
        match r with
        | Err _ => invite_error env c "invite/invalid" (public_invite_id token)
        | Ok grant =>
            send env c (invite_granted_packet (gr_invite_id grant) (JFloat (ev_num env (gr_expires_at grant))) (gr_max grant));;
            match room with Some _ => skip | None => raise RKeyError end
        end
    end.

Definition invite_state_reply (c : Z) (st : InviteStatus) : M unit :=
  send env c (invite_state_packet (is_invite_id st) (is_state st) (is_redemptions st) (is_max_redemptions st)
    (JFloat (ev_num env (is_remaining st))) (is_room_id st) "chat" None).

(** [_handle_invite_query] *)
Definition handle_invite_query (c : Z) (x : Context) (token : string) : M unit :=
  if cx_protocol x <? INVITE_PROTOCOL_VERSION then invite_error env c "protocol/unsupported" (public_invite_id token)
  else
    invites ← gets rl_invites;
    match Invites.status invites token (session_id x) (ev_now env) with
    | None => invite_error env c "invite/unknown" (public_invite_id token)
    | Some st => invite_state_reply c st
    end.

(** [_handle_invite_revoke] *)
Definition handle_invite_revoke (c : Z) (x : Context) (token : string) : M unit :=
  if cx_protocol x <? INVITE_PROTOCOL_VERSION then invite_error env c "protocol/unsupported" (public_invite_id token)
  else
    r ← on_invites (λ i, Invites.revoke i token (session_id x) (ev_now env));
    match r with
    | Err _ => invite_error env c "invite/not-creator" (public_invite_id token)
    | Ok None => invite_error env c "invite/unknown" (public_invite_id token)
    | Ok (Some st) => invite_state_reply c st
    end.

(** The table of verdicts; [REDEEMED] is not in it. *)
Definition verdict_code (v : RedemptionVerdict) : option string :=
  match v with
  | UNKNOWN => Some "invite/unknown" | EXPIRED => Some "invite/expired" | REVOKED => Some "invite/revoked"
  | ALREADY_USED => Some "invite/already-used" | Invites.REDEEMED => None
  end.

Definition redeem_invite (token session : string) : M RedemptionResult := λ s,
  let '(r, i) := Invites.redeem (rl_invites s) token session (ev_now env) in (Ok r, set_invites s i).

Definition verdict_error (c : Z) (r : RedemptionResult) : M unit :=
  match verdict_code (rr_verdict r) with
  | Some code => invite_error env c code (rr_invite_id r)
  | None => raise RKeyError
  end.

(** [result.expires_at.timestamp() if result.expires_at else 0.0] *)
Definition expiry (r : RedemptionResult) : json := JFloat (ev_num env (default 0 (rr_expires_at r))).

(** [_handle_group_redeem] *)
Definition handle_group_redeem (c : Z) (x : Context) (token group : string) : M unit :=
  let session := session_id x in
  let invite_id := public_invite_id token in
  if cx_protocol x <? GROUP_PROTOCOL_VERSION then invite_error env c "protocol/unsupported" invite_id
  else
    joined ← on_groups (λ a, begin_join_redemption a group session invite_id (ev_now env));
    match joined with
    | Err e => refuse e (λ code, invite_error env c code invite_id)
    | Ok sn =>
        r ← redeem_invite token session;
        if negb (bool_decide (rr_verdict r = Invites.REDEEMED)) then
          modify (λ s, set_authority s (cancel_pending_join (rl_groups s) group session));;
          verdict_error c r
        else
          send env c (redeemed_group_packet (rr_invite_id r) (expiry r) (sn_group_id sn) (sn_name sn)
            (sn_owner_fingerprint sn) (sn_owner_public_key_hex sn) (member_payload <$> sn_members sn)
            (sn_epoch sn) (sn_crypto_suite sn))
    end.

(** [_handle_redeem] *)
Definition handle_redeem (c : Z) (x : Context) (token : string) : M unit :=
  if cx_protocol x <? INVITE_PROTOCOL_VERSION then invite_error env c "protocol/unsupported" (public_invite_id token)
  else
    peek ← gets (λ s, Invites.lookup (rl_invites s) token);
    match (l ← peek; if decide (il_kind l = "group") then Some (il_group_id l) else None) with
    | Some group => handle_group_redeem c x token group
    | None =>
        r ← redeem_invite token (session_id x);
        match rr_verdict r, rr_room_id r with
        | Invites.REDEEMED, Some room =>
            ok ← attach_membership c (cp room) "guest";
            if negb ok then invite_error env c "invite/room-full" (rr_invite_id r)
            else
              send env c (redeemed_packet (rr_invite_id r) room (expiry r));;
              ms ← gets (λ s, default [] (dget (rl_channels s) (cp room)));
              send env c (attached_packet (cp room) "guest" (Z.of_nat (length ms) - 1));;
              notify_peer_joined env c (cp room)
        | _, _ => verdict_error c r
        end
    end.

(** ** Group lifecycle *)

(** [_deliver_sign_task] *)
Definition deliver_sign_task (group_id : string) : M unit :=
  r ← on_groups (λ a, next_sign_task a group_id (ev_now env) (ev_wall env));
  match r with
  | Err _ => raise RUncaught
  | Ok None => skip
  | Ok (Some task) =>
      match st_signer_session task with
      | None => skip
      | Some signer =>
          last ← gets (λ s, dget (rl_last_sign s) group_id);
          if decide (last = Some (st_op_id task, signer)) then skip
          else
            delivered ← send_to_session env signer (group_sign_request_packet (st_group_id task) (st_op_id task)
              (st_kind task) (st_subject task) (st_epoch task) (st_message_b64 task));
            if delivered : bool
            then modify (λ s, set_last_sign s (dset (rl_last_sign s) group_id (st_op_id task, signer))) else skip
      end
  end.

(** [_broadcast_group_event] *)
Definition broadcast_group_event (committed : CommittedOp) : M unit :=
  let event := event_to_dict (co_event committed) in
  for_each (co_notify committed) (λ session,
    send_to_session env session (group_event_packet (ed_group_id event) (ed_epoch event) (ed_kind event)
      (ed_subject event) (ed_wall_ts event) (ed_signer event) (ed_signature event)
      (member_payload <$> co_join_member committed));; skip).

(** [_handle_group_create] *)
Definition handle_group_create (c : Z) (x : Context) (name pubkey pop handle display suite : string) : M unit :=
  if cx_protocol x <? GROUP_PROTOCOL_VERSION then group_error env c "protocol/unsupported" ""
  else
    r ← on_groups (λ a, create_group a (session_id x) name pubkey pop (cx_nonce x) handle display suite (ev_wall env) (ev_mints env));
    match r with
    | Err e => refuse e (λ code, group_error env c code "")
    | Ok sn => send env c (group_granted_packet (sn_group_id sn) (sn_epoch sn) (sn_crypto_suite sn))
    end.

(** [_handle_group_attest] *)
Definition handle_group_attest (c : Z) (x : Context) (group pubkey sig handle display : string) : M unit :=
  group_protocol_gate env c x group (
    r ← on_groups (λ a, attest a (session_id x) group pubkey sig (cx_nonce x) handle display (ev_now env) (ev_op env));
    match r with
    | Err e => refuse e (λ code, group_error env c code group)
    | Ok out =>
        send env c (group_attested_packet (at_group_id out) (at_role out) (at_epoch out)
          ((λ sn, member_payload <$> sn_members sn) <$> at_snapshot out)
          ((λ sn, event_payload <$> sn_events sn) <$> at_snapshot out)
          (from_option sn_crypto_suite DEFAULT_CRYPTO_SUITE (at_snapshot out)));;
        deliver_sign_task group
    end).

(** [_handle_group_state] *)
Definition handle_group_state (c : Z) (x : Context) (group : string) : M unit :=
  group_protocol_gate env c x group (
    a ← gets rl_groups;
    match roster_view a group (session_id x) with
    | Err e => refuse e (λ code, group_error env c code group)
    | Ok sn => send env c (group_roster_packet (sn_group_id sn) (sn_epoch sn) (sn_state sn)
                 (member_payload <$> sn_members sn) (event_payload <$> sn_events sn) (sn_crypto_suite sn))
    end).

(** A membership request behind both gates; the sign task it queued is
    offered to its signer. *)
Definition membership_request (c : Z) (x : Context) (group : string) (f : Authority → outcome Authority GroupError unit) : M unit :=
  group_protocol_gate env c x group (group_event_rate_gate env c x group (
    r ← on_groups f;
    match r with
    | Err e => refuse e (λ code, group_error env c code group)
    | Ok _ => deliver_sign_task group
    end)).

(** [_handle_group_leave], [_handle_group_remove], [_handle_group_dissolve] *)
Definition handle_group_leave (c : Z) (x : Context) (group : string) : M unit :=
  membership_request c x group (λ a, request_leave a group (session_id x) (ev_now env) (ev_op env)).
Definition handle_group_remove (c : Z) (x : Context) (group subject : string) : M unit :=
  membership_request c x group (λ a, request_remove a group (session_id x) subject (ev_now env) (ev_op env)).
Definition handle_group_dissolve (c : Z) (x : Context) (group : string) : M unit :=
  membership_request c x group (λ a, request_dissolve a group (session_id x) (ev_now env) (ev_op env)).

(** [_handle_group_sign] *)
Definition handle_group_sign (c : Z) (x : Context) (group op sig : string) : M unit :=
  group_protocol_gate env c x group (
    r ← on_groups (λ a, submit_signature a group (session_id x) op sig (ev_now env) (ev_wall env));
    match r with
    | Err e => refuse e (λ code, group_error env c code group)
    | Ok committed =>
        broadcast_group_event committed;;
        modify (λ s, set_last_sign s (dpop (rl_last_sign s) group));;
        deliver_sign_task group
    end).

(** The access check of [_handle_group_forward]: the addressee's session. *)
Definition forward_access (a : Authority) (group session from to : string) (epoch : Z) : result GroupError (option string) :=
  guard_or (bool_decide (session_fingerprint a group session = Some from)) GroupNotMemberError;;
  authorize_forward a group session to epoch.

(** [_handle_group_forward] *)
Definition handle_group_forward (c : Z) (x : Context) (group : string) (epoch : Z) (from to : string) (packet : Packet) : M unit :=
  group_protocol_gate env c x group (
    a ← gets rl_groups;
    match forward_access a group (session_id x) from to epoch with
    | Err e => refuse e (λ code, group_forward_error env c code group to)
    | Ok target =>
        ok ← forward_rate_allowed env group (session_id x);
        if negb ok then group_forward_error env c "group/rate" group to
        else match target with
             | None => group_forward_error env c "group/offline" group to
             | Some session =>
                 delivered ← send_to_session env session (λ _, packet);
                 if delivered : bool then skip else group_forward_error env c "group/offline" group to
             end
    end).

(** ** Sweeps *)

Definition pop_last_sign (group_id : string) : M unit := modify (λ s, set_last_sign s (dpop (rl_last_sign s) group_id)).

(** [sorted(self._groups)] *)
Fixpoint insert_string (x : string) (l : list string) : list string :=
  match l with [] => [x] | y :: l' => if String.leb x y then x :: l else y :: insert_string x l' end.
Definition group_ids (a : Authority) : list string := foldr insert_string [] (keys (a_groups a)).

(** One notice of the authority's sweep. *)
Definition announce (n : ExpiredNotice) : M unit :=
  (match en_session n with
   | Some session => send_to_session env session (scoped_error (en_code n) [("group", text (en_group_id n))]);; skip
   | None => skip
   end);;
  pop_last_sign (en_group_id n);;
  deliver_sign_task (en_group_id n).

(** Offer a signature request again when the first offer is old. *)
Definition reoffer (group_id : string) : M unit :=
  age ← gets (λ s, sign_task_age (rl_groups s) group_id (ev_now env));
  match age with
  | Some t => if GROUP_SIGN_REOFFER <? t then pop_last_sign group_id;; deliver_sign_task group_id else skip
  | None => skip
  end.

Definition sweep_authority : M (list ExpiredNotice) := λ s,
  let '(notices, a) := sweep default_config (rl_groups s) (ev_now env) in (Ok notices, set_authority s a).

(** One round of [_sweep_groups] *)
Definition sweep_groups : M unit :=
  notices ← sweep_authority;
  for_each notices announce;;
  groups ← gets (λ s, group_ids (rl_groups s));
  for_each groups reoffer;;
  prune_connect_tokens env.

(** ** Teardown *)

(** [_disconnect_client] *)
Definition disconnect_client (c : Z) (reason : string) : M unit :=
  found ← gets (client c);
  match found with
  | Some x =>
      if decide (cx_conn x = Open) then
        (match cx_session x with Some _ => suppress (send env c (disconnect_packet reason 1000)) | None => skip end);;
        modify (alter_client (set_conn Closed) c)
      else skip
  | None => skip
  end.

(** The end of a session in [_detach_client] *)
Definition drop_session (i : string) (s : Relay) : Relay :=
  let s1 := set_authority s (disbind_session (rl_groups s) i) in
  let s2 := set_by_session s1 (dpop (rl_by_session s1) i) in
  let s3 := set_registry s2 (remove_session (rl_registry s2) i) in
  let s4 := set_windows s3 (dpop (rl_windows s3) i) in
  set_forward s4 (filter (λ x, x.1.2 ≠ i) (rl_forward s4)).

(** [_detach_client] *)
Definition detach_client (c : Z) : M unit :=
  found ← gets (client c);
  match found with
  | None => skip
  | Some x =>
      modify (λ s, set_clients s (dpop (rl_clients s) c));;
      for_each (keys (cx_attachments x)) (leave_channel env c);;
      match cx_session x with Some i => modify (drop_session i) | None => skip end
  end.

(** ** Dispatch *)

Definition touch_session (x : Context) : M unit :=
  match cx_session x with
  | Some i => modify (λ s, set_registry s (alter_session (touch (ev_wall env)) i (rl_registry s)))
  | None => skip
  end.

Definition serve_request (c : Z) (x : Context) (q : Request) : M unit :=
  match q with
  | QPing nonce sent_at =>
      send env c (pong_packet nonce (JFloat (ev_float env sent_at)) (JFloat (ev_num env (ev_wall env))))
  | QHeartbeat seq => send env c (heartbeat_packet seq (JFloat (ev_num env (ev_wall env))))
  | QDisconnect => disconnect_client c "client requested disconnect";; raise RGoodbye
  | QAttach channel role => handle_attach env c channel role
  | QDetach channel => handle_detach env c x channel
  | QForward channel body => handle_forward env c channel body
  | QInviteCreate token room ttl uses kind group => handle_invite_create c x token room ttl uses kind group
  | QInviteQuery token => handle_invite_query c x token
  | QInviteRevoke token => handle_invite_revoke c x token
  | QRedeem token => handle_redeem c x token
  | QGroupCreate name pubkey pop handle display suite => handle_group_create c x name pubkey pop handle display suite
  | QGroupAttest group pubkey sig handle display => handle_group_attest c x group pubkey sig handle display
  | QGroupState group => handle_group_state c x group
  | QGroupLeave group => handle_group_leave c x group
  | QGroupRemove group subject => handle_group_remove c x group subject
  | QGroupDissolve group => handle_group_dissolve c x group
  | QGroupSign group op sig => handle_group_sign c x group op sig
  | QGroupForward group epoch from to packet => handle_group_forward c x group epoch from to packet
  | QMidSession => send env c (scoped_error "protocol/unexpected-type" [])
  | QUnsupported => send env c (scoped_error "protocol/unsupported" [])
  end.

(** [_dispatch]; [None] when the packet has text outside the model of the
    authorities. *)
Definition dispatch (c : Z) (x : Context) (data : bytes) : option (M unit) :=
  match decode_packet data with
  | Err PacketValidationError => Some (send env c (error_packet "protocol/invalid-packet" (ev_note env)))
  | Err _ => Some (raise RDecode)
  | Ok p => q ← request_of p; Some (touch_session x;; serve_request c x q)
  end.

(** [_serve_client]: whatever a handler raises ends this client only. *)
Definition serve (c : Z) (m : M unit) : Relay → Relay := λ s,
  match m s with
  | (Ok _, s') => s'
  | (Err _, s') => (detach_client c s').2
  end.

(** ** The relay as a state machine *)

Inductive event :=
| EConnect (remote : string)
| EUpgrade (c : Z)
| EHello (c : Z) (data : bytes)     (** the first message of an upgraded client *)
| EData (c : Z) (data : bytes)      (** a message of a client with a session *)
| EGone (c : Z)                     (** its stream ended, or a timeout *)
| ESweepSessions
| ESweepGroups
| EShutdown.                        (** the goodbyes of [aclose] *)

Definition run_event (e : event) (s : Relay) : option Relay :=
  match e with
  | EConnect remote => Some (on_connection env remote s).2
  | EUpgrade c =>
      x ← client c s;
      if decide (cx_conn x = NoConnection) then Some (upgrade c s).2 else None
  | EHello c data =>
      x ← client c s;
      if decide (cx_conn x = Open ∧ cx_session x = None) then Some (serve c (expect_hello env c data) s) else None
  | EData c data =>
      x ← client c s;
      if decide (cx_conn x = Open ∧ is_Some (cx_session x)) then m ← dispatch c x data; Some (serve c m s) else None
  | EGone c => Some (detach_client c s).2
  | ESweepSessions => Some (set_registry s (sweep_expired (rl_registry s) (ev_wall env)))
  | ESweepGroups => Some (sweep_groups s).2
  | EShutdown => Some (for_each (keys (rl_clients s)) (λ c, disconnect_client c "relay shutting down") s).2
  end.
End handlers.
