(* ===== verification/RelayEffects.v ===== *)
(** * The effects of the relay's handlers

    A handler of [transport/relay/server.py] changes the relay through few
    kinds of updates: packets put on the wire, calls of the two authorities,
    the memberships of its own client, the tables of the brakes, the
    activity of a session.  [effect] lists them as a relation and [performs]
    says that a computation of the monad, whether it returns or raises, is a
    sequence of effects; the rules below follow the structure of the code. *)

From S2P Require Import Prelude Text Utf8 Primitives Ids Events GroupAuthority GroupInvariant GroupSpec Invites Json ChannelFrames RelayPackets RelayState RelayServer.

Open Scope Z_scope.

(** ** Computations and the relations they stay in *)

(** Whatever [m] returns or raises, the state it leaves is in [T] with the
    state it started from. *)
Definition stable (T : relation Relay) {A} (m : M A) : Prop := ∀ s, T s (m s).2.

Section stable.
Context (T : relation Relay) `{!PreOrder T}.

Lemma stable_ret {A} (a : A) : stable T (mret a).
Proof. intros s. reflexivity. Qed.
Lemma stable_raise {A} e : stable T (raise (A := A) e).
Proof. intros s. reflexivity. Qed.
Lemma stable_gets {A} (f : Relay → A) : stable T (gets f).
Proof. intros s. reflexivity. Qed.
Lemma stable_skip : stable T skip.
Proof. intros s. reflexivity. Qed.

Lemma stable_modify f : (∀ s, T s (f s)) → stable T (modify f).
Proof. intros H s. apply H. Qed.

Lemma stable_bind {A B} (m : M A) (f : A → M B) : stable T m → (∀ a, stable T (f a)) → stable T (m ≫= f).
Proof.
  intros Hm Hf s. specialize (Hm s). unfold mbind, M_bind. destruct (m s) as [[a|e] s1]; simpl in *; [|done].
  etrans; [exact Hm|]. apply Hf.
Qed.

Lemma stable_attempted m : stable T m → stable T (attempted m).
Proof. intros Hm s. specialize (Hm s). unfold attempted. destruct (m s) as [[a|e] s1]; [done|]. by destruct (caught e). Qed.

Lemma stable_suppress m : stable T m → stable T (suppress m).
Proof. intros Hm. apply stable_bind; [by apply stable_attempted|]. intros _. apply stable_skip. Qed.

Lemma stable_for_each {A} (l : list A) f : (∀ x, stable T (f x)) → stable T (for_each l f).
Proof. intros Hf. induction l as [|x l IH]; [apply stable_skip|]. apply stable_bind; auto. Qed.

(** A value read from the state can be used with what is known of it. *)
Lemma stable_gets_bind {A B} (g : Relay → A) (f : A → M B) : (∀ s, T s (f (g s) s).2) → stable T (gets g ≫= f).
Proof. intros H s. apply H. Qed.
End stable.

(** ** Effects *)

(** The two parts of [leave_channel] that precede the notice. *)
Definition without_member (c : Z) (channel : unicode) (ms : members) (s : Relay) : Relay :=
  let s1 := set_channels s (dset (rl_channels s) channel (dpop ms c)) in
  let s2 := alter_client (λ x, set_attachments (dpop (cx_attachments x) channel) x) c s1 in
  if decide (dpop ms c = []) then set_channels s2 (dpop (rl_channels s2) channel) else s2.

(** Who acts: the handler of a client, the periodic sweep, the shutdown. *)
Inductive actor := Handler (c : Z) | Sweeper | Closer.

Section effects.
Context `{P : Primitives} (env : Env) (who : actor) (permitted : Relay → Z → Packet → Prop).

Inductive effect (s : Relay) : Relay → Prop :=
| eff_send d p :
    cx_conn <$> client d s = Some Open → ev_up env d = true → is_ok (encode_packet p) = true → permitted s d p →
    effect s (set_wire s (rl_wire s ++ [(d, p)]))
| eff_invites call : effect s (set_invites s (run_invite 0 (rl_invites s) call))
| eff_groups call : call_ok call → effect s (set_authority s (run_call default_config (rl_groups s) call))
| eff_last_sign x : effect s (set_last_sign s x)
| eff_forward group session : effect s (forward_rate_allowed env group session s).2
| eff_window session : effect s (event_rate_allowed env session s).2
| eff_touch i : effect s (set_registry s (alter_session (touch (ev_wall env)) i (rl_registry s)))
| eff_attach c channel role : who = Handler c → effect s (attach_membership c channel role s).2
| eff_leave c channel ms : who = Handler c → dget (rl_channels s) channel = Some ms → c ∈ keys ms → effect s (without_member c channel ms s)
| eff_close c : who = Handler c ∨ who = Closer → effect s (alter_client (set_conn Closed) c s)
| eff_prune : effect s (prune_connect_tokens env s).2.

Definition effects : relation Relay := rtc effect.

#[export] Instance effects_preorder : PreOrder effects.
Proof. unfold effects. apply _. Qed.

Abbreviation performs := (stable effects).

Lemma effect_step s s' : effect s s' → effects s s'.
Proof. apply rtc_once. Qed.

(** ** Sending *)

(** What a send does, for every way it can end. *)
Lemma send_result d build s :
  let p := build (ev_stamp env (length (rl_wire s))) in
  (∃ e, send env d build s = (Err e, s)) ∨
  (send env d build s = (Ok tt, set_wire s (rl_wire s ++ [(d, p)])) ∧
   cx_conn <$> client d s = Some Open ∧ ev_up env d = true ∧ is_ok (encode_packet p) = true).
Proof.
  intros p. unfold send. fold p. destruct (cx_conn <$> client d s) as [[]|] eqn:Hc; eauto;
    destruct (encode_packet p) as [b|[]] eqn:He; eauto; simpl; eauto.
  case_match eqn:Hu; [|eauto]. right. done.
Qed.

Lemma performs_send_at d build s :
  permitted s d (build (ev_stamp env (length (rl_wire s)))) → effects s (send env d build s).2.
Proof.
  intros Hp. destruct (send_result d build s) as [[e ->]|(-> & ? & ? & ?)]; [by constructor|].
  simpl. apply effect_step. by constructor.
Qed.

Lemma performs_send d build : (∀ s st, permitted s d (build st)) → performs (send env d build).
Proof. intros Hp s. apply performs_send_at, Hp. Qed.

Lemma performs_send_to_session session build :
  (∀ s d, dget (rl_by_session s) session = Some d → permitted s d (build (ev_stamp env (length (rl_wire s))))) →
  performs (send_to_session env session build).
Proof.
  intros Hp. apply stable_gets_bind. intros s.
  destruct (dget (rl_by_session s) session) as [d|] eqn:Hd; simpl; [|by constructor].
  destruct (client d s) as [x|]; simpl; [|by constructor]. destruct (cx_conn x); [by constructor| |by constructor].
  specialize (performs_send_at d build s (Hp _ _ Hd)). unfold attempted.
  destruct (send env d build s) as [[|e] s1]; [done|]. by destruct (caught e).
Qed.

(** ** Calls of the authorities *)

Lemma performs_groups {E A} (f : Authority → outcome Authority E A) (call : auth_call) :
  call_ok call → (∀ a, (f a).2 = run_call default_config a call) → performs (on_groups f).
Proof.
  intros Hc Hf s. unfold on_groups. specialize (Hf (rl_groups s)).
  destruct (f (rl_groups s)) as [r a]; simpl in *; subst. by apply effect_step, eff_groups.
Qed.

Lemma performs_invites {E A} (f : Invites → outcome Invites E A) (call : invite_call) :
  (∀ i, (f i).2 = run_invite 0 i call) → performs (on_invites f).
Proof.
  intros Hf s. unfold on_invites. specialize (Hf (rl_invites s)).
  destruct (f (rl_invites s)) as [r i]; simpl in *; subst. apply effect_step, eff_invites.
Qed.

Lemma performs_redeem token session : performs (redeem_invite env token session).
Proof.
  intros s. unfold redeem_invite. pose proof (eff_invites s (Redeem token session (ev_now env))) as H. simpl in H.
  destruct (redeem (rl_invites s) token session (ev_now env)) as [r i]. by apply effect_step.
Qed.

Lemma performs_last_sign f : performs (modify (λ s, set_last_sign s (f s))).
Proof. apply stable_modify. intros s. apply effect_step. constructor. Qed.

Lemma performs_forward_rate group session : performs (forward_rate_allowed env group session).
Proof. intros s. apply effect_step. constructor. Qed.
Lemma performs_event_rate session : performs (event_rate_allowed env session).
Proof. intros s. apply effect_step. constructor. Qed.
Lemma performs_attach c channel role : who = Handler c → performs (attach_membership c channel role).
Proof. intros H s. apply effect_step. by constructor. Qed.
Lemma performs_prune : performs (prune_connect_tokens env).
Proof. intros s. apply effect_step. constructor. Qed.
Lemma performs_touch x : performs (touch_session env x).
Proof.
  unfold touch_session. destruct (cx_session x) as [i|]; [|apply stable_skip; apply _].
  apply stable_modify. intros s. apply effect_step. constructor.
Qed.
End effects.

(** ** Handlers *)

(** The packets a handler sends to other clients than its own. *)
Definition pushed : list PacketType := [PEER; GROUP_EVENT; GROUP_SIGN_REQUEST].
Definition routed : list PacketType := [FORWARD; GROUP_FORWARD].

Lemma scoped_error_reply code about st : pk_type (scoped_error code about st) ∉ pushed ++ routed.
Proof. simpl. set_solver. Qed.

Create HintDb relay.
#[export] Hint Resolve stable_skip stable_raise stable_ret stable_gets performs_redeem performs_last_sign
  performs_forward_rate performs_event_rate performs_prune performs_touch : relay.
#[export] Hint Extern 1 (PreOrder _) => apply _ : relay.

Ltac performing :=
  repeat first
    [ progress (eauto with relay)
    | match goal with
      | |- stable _ (_ ≫= _) => apply stable_bind; [apply _| |intros ?]
      | |- stable _ (suppress _) => apply stable_suppress; [apply _|]
      | |- stable _ (for_each _ _) => apply stable_for_each; [apply _|intros ?]
      | |- stable _ (if _ then _ else _) => case_match
      | |- stable _ (match _ with _ => _ end) => case_match
      end ].

Section handlers.
Context `{P : Primitives} (env : Env) (c : Z) (permitted : Relay → Z → Packet → Prop).
Hypothesis pushes : ∀ s d p, pk_type p ∈ pushed → permitted s d p.

Abbreviation performs := (stable (effects env (Handler c) permitted)).

Lemma performs_push d build : (∀ st, pk_type (build st) ∈ pushed) → performs (send env d build).
Proof. intros H. apply performs_send. intros s st. by apply pushes. Qed.

Lemma performs_push_session session build : (∀ st, pk_type (build st) ∈ pushed) → performs (send_to_session env session build).
Proof. intros H. apply performs_send_to_session. intros s d _. by apply pushes. Qed.

Lemma performs_notify_joined channel : performs (notify_peer_joined env c channel).
Proof. unfold notify_peer_joined. performing. apply performs_push. intros st. simpl. set_solver. Qed.

Lemma performs_notify_left channel : performs (notify_peer_left env channel).
Proof. unfold notify_peer_left. performing. apply performs_push. intros st. simpl. set_solver. Qed.
#[local] Hint Extern 1 (stable _ (attach_membership _ _ _)) => apply performs_attach; reflexivity : relay.
#[local] Hint Resolve performs_notify_joined performs_notify_left : relay.

(** [leave_channel] as its update and its notice. *)
Lemma leave_channel_eq channel s :
  leave_channel env c channel s =
    match dget (rl_channels s) channel with
    | Some ms =>
        if negb (dmem ms c) then (Ok tt, s)
        else if decide (dpop ms c = []) then (Ok tt, without_member c channel ms s)
        else notify_peer_left env channel (without_member c channel ms s)
    | None => (Ok tt, s)
    end.
Proof.
  unfold leave_channel, without_member. unfold mbind, M_bind, gets, modify. simpl.
  destruct (dget (rl_channels s) channel) as [ms|]; [|done]. destruct (negb (dmem ms c)); [done|].
  by destruct (decide (dpop ms c = [])).
Qed.

Lemma performs_leave channel : performs (leave_channel env c channel).
Proof.
  intros s. rewrite leave_channel_eq. destruct (dget (rl_channels s) channel) as [ms|] eqn:Hch; [|by constructor].
  destruct (dmem ms c) eqn:Hc; simpl; [|by constructor]. apply dmem_spec in Hc.
  assert (effects env (Handler c) permitted s (without_member c channel ms s)) by (apply effect_step; by constructor).
  case_decide; [done|]. etrans; [done|]. apply performs_notify_left.
Qed.
#[local] Hint Resolve performs_leave : relay.

Hypothesis replies : ∀ s p, pk_type p ∉ pushed ++ routed → permitted s c p.

Lemma performs_reply build : (∀ st, pk_type (build st) ∉ pushed ++ routed) → performs (send env c build).
Proof. intros H. apply performs_send. intros s st. by apply replies. Qed.

Lemma performs_error code about : performs (send env c (scoped_error code about)).
Proof. apply performs_reply, scoped_error_reply. Qed.

Lemma performs_refuse e reply : (∀ code, performs (reply code)) → performs (refuse e reply).
Proof. intros H. unfold refuse. performing. Qed.

#[local] Hint Resolve performs_error performs_refuse : relay.
#[local] Hint Extern 2 (stable _ (channel_error _ _ _ _)) => apply performs_error : relay.
#[local] Hint Extern 2 (stable _ (invite_error _ _ _ _)) => apply performs_error : relay.
#[local] Hint Extern 2 (stable _ (group_error _ _ _ _)) => apply performs_error : relay.
#[local] Hint Extern 2 (stable _ (group_forward_error _ _ _ _ _)) => apply performs_error : relay.
#[local] Hint Extern 3 (stable _ (send env c _)) => apply performs_reply; intros ?; simpl; set_solver : relay.
#[local] Hint Extern 3 (stable _ (refuse _ _)) => apply performs_refuse; intros ? : relay.

Lemma performs_handle_attach channel role : performs (handle_attach env c channel role).
Proof. unfold handle_attach. performing. Qed.

Lemma performs_handle_detach x channel : performs (handle_detach env c x channel).
Proof. unfold handle_detach. performing. Qed.

Lemma performs_invite_create x token room ttl uses kind group :
  performs (handle_invite_create env c x token room ttl uses kind group).
Proof.
  unfold handle_invite_create, group_invite_refusal. performing.
  by apply (performs_invites _ _ _ _ (Register token (default "" room) ttl uses (session_id x) kind group (ev_now env) (ev_wall env))).
Qed.

Lemma performs_invite_query x token : performs (handle_invite_query env c x token).
Proof. unfold handle_invite_query, invite_state_reply. performing. Qed.

Lemma performs_invite_revoke x token : performs (handle_invite_revoke env c x token).
Proof.
  unfold handle_invite_revoke, invite_state_reply. performing.
  by apply (performs_invites _ _ _ _ (Revoke token (session_id x) (ev_now env))).
Qed.

Lemma performs_verdict r : performs (verdict_error env c r).
Proof. unfold verdict_error. performing. Qed.
#[local] Hint Resolve performs_verdict : relay.

Lemma performs_group_redeem x token group : performs (handle_group_redeem env c x token group).
Proof.
  unfold handle_group_redeem. performing.
  - by apply (performs_groups _ _ _ _ (BeginJoin group (session_id x) (public_invite_id token) (ev_now env))).
  - apply stable_modify. intros s. by apply effect_step, (eff_groups _ _ _ _ (CancelJoin group (session_id x))).
Qed.
#[local] Hint Resolve performs_group_redeem : relay.

Lemma performs_handle_redeem x token : performs (handle_redeem env c x token).
Proof. unfold handle_redeem. performing. Qed.

Lemma performs_deliver group_id : performs (deliver_sign_task env group_id).
Proof.
  unfold deliver_sign_task. performing.
  - by apply (performs_groups _ _ _ _ (NextTask group_id (ev_now env) (ev_wall env))).
  - apply performs_push_session. intros st. simpl. set_solver.
Qed.
#[local] Hint Resolve performs_deliver : relay.

Lemma performs_broadcast committed : performs (broadcast_group_event env committed).
Proof. unfold broadcast_group_event. performing. apply performs_push_session. intros st. simpl. set_solver. Qed.
#[local] Hint Resolve performs_broadcast : relay.

Lemma performs_group_create x name pubkey pop handle display suite :
  mints_ok (ev_mints env) → performs (handle_group_create env c x name pubkey pop handle display suite).
Proof.
  intros Hm. unfold handle_group_create. performing.
  by apply (performs_groups _ _ _ _ (Create (session_id x) name pubkey pop (cx_nonce x) handle display suite (ev_wall env) (ev_mints env))).
Qed.

Lemma performs_group_attest x group pubkey sig handle display :
  performs (handle_group_attest env c x group pubkey sig handle display).
Proof.
  unfold handle_group_attest, group_protocol_gate. performing.
  by apply (performs_groups _ _ _ _ (Attest (session_id x) group pubkey sig (cx_nonce x) handle display (ev_now env) (ev_op env))).
Qed.

Lemma performs_group_state x group : performs (handle_group_state env c x group).
Proof. unfold handle_group_state, group_protocol_gate. performing. Qed.

Lemma performs_membership x group f (call : auth_call) :
  call_ok call → (∀ a, (f a).2 = run_call default_config a call) → performs (membership_request env c x group f).
Proof.
  intros Hc Hf. unfold membership_request, group_protocol_gate, group_event_rate_gate. performing.
  by apply (performs_groups _ _ _ _ call).
Qed.

Lemma performs_group_sign x group op sig : performs (handle_group_sign env c x group op sig).
Proof.
  unfold handle_group_sign, group_protocol_gate. performing.
  by apply (performs_groups _ _ _ _ (Submit group (session_id x) op sig (ev_now env) (ev_wall env))).
Qed.

Lemma performs_disconnect reason : performs (disconnect_client env c reason).
Proof.
  unfold disconnect_client. performing. apply stable_modify. intros s. apply effect_step. constructor. by left.
Qed.
#[local] Hint Resolve performs_disconnect : relay.

(** Every request but the two that route a body. *)
Lemma performs_request x q :
  mints_ok (ev_mints env) →
  match q with QForward _ _ | QGroupForward _ _ _ _ _ => True | _ => performs (serve_request env c x q) end.
Proof.
  intros Hm. destruct q; try done; cbn [serve_request]; eauto using performs_handle_attach, performs_handle_detach,
    performs_invite_create, performs_invite_query, performs_invite_revoke, performs_handle_redeem, performs_group_create,
    performs_group_attest, performs_group_state, performs_group_sign; performing.
  - by apply (performs_membership _ _ _ (Leave group (session_id x) (ev_now env) (ev_op env))).
  - by apply (performs_membership _ _ _ (Remove group (session_id x) subject (ev_now env) (ev_op env))).
  - by apply (performs_membership _ _ _ (Dissolve group (session_id x) (ev_now env) (ev_op env))).
Qed.
End handlers.
