(* ===== verification/RelaySteps.v ===== *)
(** * Events of the relay

    What every event of the relay's state machine may do to its state, as one
    proof rule ([run_event_rule]), and who may be sent what ([entitled]). *)

From S2P Require Import Prelude Text Utf8 Primitives Ids Events GroupAuthority GroupInvariant GroupSpec Invites Json ChannelFrames RelayPackets RelayState RelayServer RelayEffects.

Open Scope Z_scope.

(** The client an event is about, and the request it carries. *)
Definition subject (e : event) : option Z :=
  match e with EUpgrade c | EHello c _ | EData c _ | EGone c => Some c | _ => None end.

#[export] Instance event_eq_dec : EqDecision event.
Proof. solve_decision. Defined.

Definition request_in (e : event) (s : Relay) : option (Z * Context * Request) :=
  match e with
  | EData c data =>
      x ← client c s;
      match decode_packet data with Ok p => q ← request_of p; Some (c, x, q) | Err _ => None end
  | _ => None
  end.

(** Who may be sent a packet while an event is handled. *)
Definition entitled (e : event) (s : Relay) (d : Z) (p : Packet) : Prop :=
  match pk_type p with
  | FORWARD =>
      ∃ c x channel body ms, request_in e s = Some (c, x, QForward channel body) ∧
        dget (rl_channels s) channel = Some ms ∧ c ∈ keys ms ∧ d ∈ keys ms ∧ d ≠ c ∧
        p = forward_packet channel body (pk_id p, pk_sent_at p)
  | GROUP_FORWARD =>
      ∃ c x group epoch from to session, request_in e s = Some (c, x, QGroupForward group epoch from to p) ∧
        forward_access (rl_groups s) group (session_id x) from to epoch = Ok (Some session) ∧
        dget (rl_by_session s) session = Some d
  | PEER | GROUP_EVENT | GROUP_SIGN_REQUEST => True
  | ERROR => subject e = Some d ∨ e = ESweepGroups
  | DISCONNECT => subject e = Some d ∨ e = EShutdown
  | _ => subject e = Some d
  end.

Section steps.
Context `{P : Primitives} (env : Env).

Lemma entitled_reply e c s0 p : subject e = Some c → pk_type p ∉ pushed ++ routed → entitled e s0 c p.
Proof.
  intros He Hp. unfold entitled. destruct (pk_type p); try done; try (by left); exfalso; apply Hp; set_solver.
Qed.

Lemma entitled_push e s0 d p : pk_type p ∈ pushed → entitled e s0 d p.
Proof. intros Hp. unfold entitled. destruct (pk_type p); try done; set_solver. Qed.

Lemma counterparty_Some ms c o : counterparty ms c = Some o → o ∈ ms ∧ o.1 ≠ c.
Proof.
  intros H. unfold counterparty in H. apply head_Some_elem_of in H. apply list_elem_of_filter in H. naive_solver.
Qed.

(** ** The two requests that route a body *)

Section request.
Context (c : Z) (data : bytes) (s0 : Relay) (p : Packet) (x : Context).
Hypothesis Hp : decode_packet data = Ok p.
Hypothesis Hx : client c s0 = Some x.
Abbreviation performed s m := (effects env (Handler c) (λ _, entitled (EData c data) s0) s (m s).2).

Lemma reply_here s code about : performed s (send env c (scoped_error code about)).
Proof. apply performs_send. intros s' st. apply entitled_reply; [done|]. apply scoped_error_reply. Qed.

Lemma performs_forward channel body s :
  request_of p = Some (QForward channel body) → rl_channels s = rl_channels s0 →
  performed s (handle_forward env c channel body).
Proof.
  intros Hq Hs. unfold handle_forward. unfold mbind, M_bind, gets. simpl.
  destruct (dget (rl_channels s) channel) as [ms|] eqn:Hms; [|apply reply_here].
  destruct (dmem ms c) eqn:Hc; simpl; [|apply reply_here].
  destruct (counterparty ms c) as [[d role]|] eqn:Ho; [|apply reply_here].
  destruct (cx_conn <$> client d s) as [[]|]; try apply reply_here.
  apply performs_send_at. unfold entitled. cbn [pk_type forward_packet new_packet].
  apply counterparty_Some in Ho as [Ho Hne]. exists c, x, channel, body, ms. split.
  { simpl. by rewrite Hx, Hp; simpl; rewrite Hq. }
  rewrite <- Hs. split; [done|]. split; [by apply dmem_spec|].
  split; [|done]. apply list_elem_of_fmap. by exists (d, role).
Qed.

Lemma performs_group_forward group epoch from to s :
  request_of p = Some (QGroupForward group epoch from to p) →
  rl_groups s = rl_groups s0 → rl_by_session s = rl_by_session s0 → pk_type p = GROUP_FORWARD →
  performed s (handle_group_forward env c x group epoch from to p).
Proof.
  intros Hq Hg Hb Ht. unfold handle_group_forward, group_protocol_gate.
  case_match; [|apply reply_here]. unfold mbind at 1, M_bind at 1, gets at 1. simpl.
  destruct (forward_access (rl_groups s) group (session_id x) from to epoch) as [target|e] eqn:Ha.
  2:{ unfold refuse. destruct (group_error_code e); [apply reply_here|by constructor]. }
  unfold mbind, M_bind. pose proof (performs_forward_rate env (Handler c) (λ _, entitled (EData c data) s0) group (session_id x) s) as Hr.
  destruct (forward_rate_allowed env group (session_id x) s) as [r s1] eqn:Hf. simpl in Hr.
  assert (Hs1 : rl_groups s1 = rl_groups s ∧ rl_by_session s1 = rl_by_session s ∧ ∃ b, r = Ok b).
  { unfold forward_rate_allowed in Hf. destruct (take_token _ _ _ _). simplify_eq/=. eauto. }
  destruct Hs1 as (Hg1 & Hb1 & b & ->). destruct b; simpl; [|etrans; [exact Hr|apply reply_here]].
  etrans; [exact Hr|]. destruct target as [session|]; [|apply reply_here].
  assert (performed s1 (send_to_session env session (λ _, p))) as Hd.
  { unfold send_to_session, mbind, M_bind, gets. simpl.
    destruct (dget (rl_by_session s1) session) as [d|] eqn:Hds; simpl; [|by constructor].
    destruct (client d s1) as [y|]; simpl; [|by constructor]. destruct (cx_conn y); [by constructor| |by constructor].
    assert (Hent : entitled (EData c data) s0 d p).
    { unfold entitled. rewrite Ht. exists c, x, group, epoch, from, to, session. split.
      { simpl. by rewrite Hx, Hp; simpl; rewrite Hq. }
      split; [congruence|congruence]. }
    pose proof (performs_send_at env (Handler c) (λ _, entitled (EData c data) s0) d (λ _, p) s1 Hent) as Hsend.
    unfold attempted. destruct (send env d (λ _, p) s1) as [[|e] s2]; [done|]. by destruct (caught e). }
  destruct (send_to_session env session (λ _, p) s1) as [[[]|e] s2]; simpl in *; [done| |done].
  etrans; [exact Hd|apply reply_here].
Qed.
End request.

(** ** One message *)

Lemma request_forward_packet p group epoch from to p' :
  request_of p = Some (QGroupForward group epoch from to p') → p' = p ∧ pk_type p = GROUP_FORWARD.
Proof.
  unfold request_of. destruct (pk_type p); intros H;
    repeat (apply bind_Some in H as (? & _ & H) || apply fmap_Some in H as (? & _ & H)); by simplify_eq.
Qed.

Lemma touch_session_eq x s :
  ∃ g, touch_session env x s = (Ok tt, set_registry s g) ∧
    (∀ i, cx_session x = Some i → g = alter_session (touch (ev_wall env)) i (rl_registry s)).
Proof.
  unfold touch_session. destruct (cx_session x) as [i|].
  - eexists. split; [done|]. intros ? [= <-]. done.
  - exists (rl_registry s). split; [by destruct s|done].
Qed.

Lemma dispatch_effects c data s x m :
  mints_ok (ev_mints env) → client c s = Some x → dispatch env c x data = Some m →
  effects env (Handler c) (λ _, entitled (EData c data) s) s (m s).2.
Proof.
  intros Hm Hx Hd. unfold dispatch in Hd. destruct (decode_packet data) as [p|[]] eqn:Hp.
  2:{ simplify_eq. apply performs_send. intros s' st. apply entitled_reply; [done|]. simpl. set_solver. }
  2-4: simplify_eq; by constructor.
  apply bind_Some in Hd as (q & Hq & [= <-]).
  assert (Hreq : ∀ s1, rl_channels s1 = rl_channels s → rl_groups s1 = rl_groups s → rl_by_session s1 = rl_by_session s →
    effects env (Handler c) (λ _, entitled (EData c data) s) s1 (serve_request env c x q s1).2).
  { intros s1 H1 H2 H3. pose proof (performs_request env c (λ _, entitled (EData c data) s)
      (λ _ d p', entitled_push (EData c data) s d p') (λ _ p', entitled_reply (EData c data) c s p' eq_refl) x q Hm) as Hg.
    destruct q; try exact (Hg s1); cbn [serve_request].
    - by eapply performs_forward.
    - apply request_forward_packet in Hq as Hq'. destruct Hq' as [-> Ht]. by eapply performs_group_forward. }
  pose proof (performs_touch env (Handler c) (λ _, entitled (EData c data) s) x s) as Ht.
  unfold mbind, M_bind. destruct (touch_session_eq x s) as (g & Hg & _). rewrite Hg in *. simpl in Ht.
  etrans; [exact Ht|]. by apply Hreq.
Qed.

(** ** Sweeps *)

Lemma performs_sweep s0 : stable (effects env Sweeper (λ _, entitled ESweepGroups s0)) (sweep_groups env).
Proof.
  set (T := effects env Sweeper (λ _, entitled ESweepGroups s0)).
  assert (Hdel : ∀ g, stable T (deliver_sign_task env g)).
  { intros g. unfold deliver_sign_task. performing.
    - by apply (performs_groups _ _ _ _ (NextTask g (ev_now env) (ev_wall env))).
    - apply performs_send_to_session. intros ? ? _. by apply entitled_push; simpl; set_solver. }
  unfold sweep_groups. apply stable_bind; [apply _| |intros notices].
  { intros s. unfold sweep_authority. pose proof (eff_groups env Sweeper (λ _, entitled ESweepGroups s0) s (Sweep (ev_now env)) I) as He.
    cbn [run_call] in He. destruct (sweep default_config (rl_groups s) (ev_now env)) as [ns a]. by apply effect_step. }
  performing; unfold announce, reoffer, pop_last_sign; performing.
  apply performs_send_to_session. intros ? ? _. unfold entitled. simpl. by right.
Qed.

Lemma performs_goodbye c s0 reason : stable (effects env Closer (λ _, entitled EShutdown s0)) (disconnect_client env c reason).
Proof.
  unfold disconnect_client. performing.
  - apply performs_send. intros ? ?. unfold entitled. simpl. by right.
  - apply stable_modify. intros ?. apply effect_step. constructor. by right.
Qed.

(** ** The end of a client *)

Section detach.
Context (who : actor) (permitted : Relay → Z → Packet → Prop) (T : relation Relay) `{!PreOrder T}.
Hypothesis of_effect : ∀ s s', effect env who permitted s s' → T s s'.

Lemma effects_sub s s' : effects env who permitted s s' → T s s'.
Proof. induction 1 as [|s s1 s2 He _ IH]; [done|]. etrans; eauto. Qed.

Lemma stable_detach c :
  who = Handler c → (∀ s d p, pk_type p ∈ pushed → permitted s d p) →
  (∀ s, T s (set_clients s (dpop (rl_clients s) c))) → (∀ i s, T s (drop_session i s)) →
  stable T (detach_client env c).
Proof.
  intros Hw Hpush Hpop Hdrop. unfold detach_client. apply stable_bind; [done| |intros [x|]].
  - by apply stable_gets.
  - apply stable_bind; [done|by apply stable_modify|intros _]. apply stable_bind; [done| |intros _].
    + apply stable_for_each; [done|]. intros ch s. apply effects_sub. rewrite Hw. apply (performs_leave env c permitted Hpush).
    + destruct (cx_session x); [by apply stable_modify|by apply stable_skip].
  - by apply stable_skip.
Qed.
End detach.

(** ** Every event *)

Definition acting (e : event) : actor :=
  match subject e with Some c => Handler c | None => if decide (e = EShutdown) then Closer else Sweeper end.

(** A message: effects of its handler, and the end of the client if it raised. *)
Lemma data_event c data s s' :
  mints_ok (ev_mints env) → run_event env (EData c data) s = Some s' →
  is_Some (client c s) ∧
  ∃ s1, effects env (Handler c) (λ _, entitled (EData c data) s) s s1 ∧ (s' = s1 ∨ s' = (detach_client env c s1).2).
Proof.
  intros Hm Hrun. simpl in Hrun. apply bind_Some in Hrun as (x & Hx & Hrun). case_decide; [|done].
  apply bind_Some in Hrun as (m & Hd & [= <-]). split; [done|]. exists (m s).2. split; [by eapply dispatch_effects|].
  unfold serve. destruct (m s) as [[] s1]; auto.
Qed.

(** The opening message: an effect, or a session that is complete when
    WELCOME was sent. *)
Lemma hello_event c data s s' :
  run_event env (EHello c data) s = Some s' →
  ∃ x, client c s = Some x ∧ cx_conn x = Open ∧ cx_session x = None ∧
    ((∃ s1, effects env (Handler c) (λ _, entitled (EHello c data) s) s s1 ∧ s' = (detach_client env c s1).2) ∨
     ∃ version, let s1 := open_session env c version s in
       s' = (detach_client env c s1).2 ∨
       ∃ s2, effect env (Handler c) (λ _, entitled (EHello c data) s) s1 s2 ∧ (∃ l, s2 = set_wire s1 l) ∧
         s' = alter_client (set_session (Some (ev_session_id env))) c s2).
Proof.
  intros Hrun. simpl in Hrun. apply bind_Some in Hrun as (x & Hx & Hrun). case_decide as Hc; simplify_eq. destruct Hc as [Hc Hn].
  exists x. do 3 (split; [done|]). unfold serve, expect_hello.
  destruct (decode_packet data) as [p|]; [|left; exists s; split; [by constructor|done]]. destruct (negb (bool_decide (pk_type p = HELLO))).
  - left. exists (send env c (scoped_error "protocol/expected-hello" []) s).2. split.
    + apply performs_send. intros s1 st. apply entitled_reply; [done|]. apply scoped_error_reply.
    + unfold mbind, M_bind. by destruct (send env c _ s) as [[] s1].
  - right. unfold mbind, M_bind, gets, modify. simpl. set (v := default 1 _). exists v.
    set (s1 := open_session env c v s). set (build := welcome_packet _ _ _ _ _).
    destruct (send_result env c build s1) as [[err ->]|(-> & Ho & Hu & Hok)]; [by left|]. right.
    eexists. split; [apply (eff_send env _ _ s1 c); [exact Ho|exact Hu|exact Hok|]|].
    + apply entitled_reply; [done|]. simpl. set_solver.
    + split; [eauto|done].
Qed.

Lemma run_event_rule (T : relation Relay) `{!PreOrder T} e s s' :
  mints_ok (ev_mints env) → run_event env e s = Some s' →
  (∀ s1 s2, effect env (acting e) (λ _, entitled e s) s1 s2 → T s1 s2) →
  (∀ c, subject e = Some c → stable T (detach_client env c)) →
  match e with
  | EConnect remote => T s (on_connection env remote s).2
  | EUpgrade c => T s (upgrade c s).2
  | EHello c data =>
      (∀ version, T s (open_session env c version s)) ∧
      (∀ s1, T s1 (alter_client (set_session (Some (ev_session_id env))) c s1))
  | ESweepSessions => T s (set_registry s (sweep_expired (rl_registry s) (ev_wall env)))
  | _ => True
  end → T s s'.
Proof.
  intros Hm Hrun Heff Hdet Hown. pose proof (effects_sub (acting e) (λ _, entitled e s) T Heff) as Hin.
  destruct e as [remote|c|c data|c data|c| | |]; try (simpl in Hrun; simplify_eq; done).
  - simpl in Hrun. apply bind_Some in Hrun as (x & Hx & Hrun). by case_decide; simplify_eq.
  - apply hello_event in Hrun as (x & _ & _ & _ & [(s1 & H1 & ->)|(v & [->|(s2 & H2 & _ & ->)])]); destruct Hown as [Hopen Hset].
    + etrans; [by apply Hin|by apply Hdet].
    + etrans; [apply (Hopen v)|by apply Hdet].
    + etrans; [apply (Hopen v)|]. etrans; [by apply Heff|apply Hset].
  - apply data_event in Hrun as (_ & s1 & H1 & [->| ->]); [by apply Hin| |done].
    etrans; [by apply Hin|by apply Hdet].
  - simpl in Hrun. simplify_eq. by apply Hdet.
  - simpl in Hrun. simplify_eq. apply Hin, performs_sweep.
  - simpl in Hrun. simplify_eq. apply stable_for_each; [done|]. intros c s1. apply Hin, performs_goodbye.
Qed.
End steps.
