(* ===== verification/RelayInvariant.v ===== *)
(** * The invariant of the relay

    What holds of the relay between two events ([relay_wf]): channels have
    one or two members, who are exactly the live clients attached to them;
    the session table is exact for live clients; the tables of the brakes are
    within their bounds.  Every effect of a handler keeps it, the opening and
    the end of a client restore it. *)

From S2P Require Import Prelude Text Utf8 Primitives Ids Events GroupAuthority GroupInvariant GroupSpec Invites Json ChannelFrames RelayPackets RelayState RelayServer RelayEffects RelaySteps.

Open Scope Z_scope.

(** ** Definition *)

(** The role of a client on a channel, from the channel and from the client. *)
Definition member_role (s : Relay) (channel : unicode) (c : Z) : option string :=
  ms ← dget (rl_channels s) channel; dget ms c.
Definition attached_role (s : Relay) (c : Z) (channel : unicode) : option string :=
  x ← client c s; dget (cx_attachments x) channel.

(** A bucket was used at least once, so it is not full. *)
Definition bucket_used (burst : Z) (b : Z * Z) : Prop := b.1 < burst * MICRO.

Record base_wf (s : Relay) : Prop := {
  wf_clients : dict_wf (rl_clients s);
  wf_next : 0 <= rl_next s;
  wf_numbers : ∀ c x, client c s = Some x → 0 < c <= rl_next s;
  wf_channels : dict_wf (rl_channels s);
  wf_members : ∀ ch ms, dget (rl_channels s) ch = Some ms → dict_wf ms ∧ (1 <= length ms <= CHANNEL_CAPACITY)%nat;
  wf_attachments : ∀ c x, client c s = Some x → dict_wf (cx_attachments x);
  wf_by_session : dict_wf (rl_by_session s);
  wf_session : ∀ c x i, client c s = Some x → cx_session x = Some i → dget (rl_by_session s) i = Some c;
  wf_known : ∀ i c, dget (rl_by_session s) i = Some c → is_Some (dget (rg_objs (rl_registry s)) i) ∧ c <= rl_next s;
  wf_windows : dict_wf (rl_windows s);
  wf_window : ∀ i w, dget (rl_windows s) i = Some w → (length w <= GROUP_EVENT_RATE_OPS)%nat;
  wf_forward : dict_wf (rl_forward s);
  wf_forward_bucket : ∀ k b, dget (rl_forward s) k = Some b → bucket_used GROUP_FORWARD_RATE_BURST b;
  wf_connect : dict_wf (rl_connect s);
  wf_burst : 1 <= lm_connect_burst (rl_limits s);
  wf_connect_bucket : ∀ h b, dget (rl_connect s) h = Some b → bucket_used (lm_connect_burst (rl_limits s)) b;
}.

(** Memberships and attachments agree, but for one client. *)
Definition attached_but (c : option Z) (s : Relay) : Prop :=
  ∀ d ch, c ≠ Some d → member_role s ch d = attached_role s d ch.

(** A session of the table that leads to a live client is that client's,
    but for one client. *)
Definition bound_but (c : option Z) (s : Relay) : Prop :=
  ∀ i d x, c ≠ Some d → dget (rl_by_session s) i = Some d → client d s = Some x → cx_session x = Some i.

Record relay_wf (s : Relay) : Prop := {
  wf_base : base_wf s;
  wf_attached : attached_but None s;
  wf_bound : bound_but None s;
}.

(** ** Updates that touch none of it *)

Lemma init_wf limits : 1 <= lm_connect_burst limits → relay_wf (RelayServer_init limits).
Proof. intros H. split; [split|..]; try done; apply dict_wf_nil. Qed.

(** The same tables but for what the invariant does not mention. *)
Definition same_tables (s s' : Relay) : Prop :=
  rl_clients s' = rl_clients s ∧ rl_next s' = rl_next s ∧ rl_channels s' = rl_channels s ∧
  rl_by_session s' = rl_by_session s ∧ rl_limits s' = rl_limits s ∧
  (∀ i, is_Some (dget (rg_objs (rl_registry s)) i) → is_Some (dget (rg_objs (rl_registry s')) i)).

Lemma base_same s s' :
  same_tables s s' → base_wf s →
  dict_wf (rl_windows s') ∧ (∀ i w, dget (rl_windows s') i = Some w → (length w <= GROUP_EVENT_RATE_OPS)%nat) →
  dict_wf (rl_forward s') ∧ (∀ k b, dget (rl_forward s') k = Some b → bucket_used GROUP_FORWARD_RATE_BURST b) →
  dict_wf (rl_connect s') ∧ (∀ h b, dget (rl_connect s') h = Some b → bucket_used (lm_connect_burst (rl_limits s)) b) →
  base_wf s'.
Proof.
  intros (E1 & E2 & E3 & E4 & E5 & E6) B [? ?] [? ?] [? ?].
  destruct B. split; unfold client in *; rewrite ?E1, ?E2, ?E3, ?E4, ?E5; try done.
  intros i c Hi. destruct (wf_known0 i c Hi). auto.
Qed.

Lemma attached_same c s s' : rl_clients s' = rl_clients s → rl_channels s' = rl_channels s → attached_but c s → attached_but c s'.
Proof. intros E1 E2 H d ch Hd. unfold member_role, attached_role, client in *. rewrite E1, E2. by apply H. Qed.

Lemma bound_same c s s' : rl_clients s' = rl_clients s → rl_by_session s' = rl_by_session s → bound_but c s → bound_but c s'.
Proof. intros E1 E2 H i d x. unfold client. rewrite E1, E2. apply H. Qed.

Lemma wf_same s s' :
  same_tables s s' → relay_wf s →
  dict_wf (rl_windows s') ∧ (∀ i w, dget (rl_windows s') i = Some w → (length w <= GROUP_EVENT_RATE_OPS)%nat) →
  dict_wf (rl_forward s') ∧ (∀ k b, dget (rl_forward s') k = Some b → bucket_used GROUP_FORWARD_RATE_BURST b) →
  dict_wf (rl_connect s') ∧ (∀ h b, dget (rl_connect s') h = Some b → bucket_used (lm_connect_burst (rl_limits s)) b) →
  relay_wf s'.
Proof.
  intros E [B A D] ? ? ?. split; [by eapply base_same|..]; destruct E as (E1 & E2 & E3 & E4 & E5 & E6).
  - by eapply attached_same.
  - by eapply bound_same.
Qed.

(** ** The brakes *)

Lemma slide_length now w : (length (slide now w) <= length w)%nat.
Proof. unfold slide. induction w as [|t w IH]; simpl; [lia|]. case_match; simpl; lia. Qed.

Lemma event_rate_wf env i s : relay_wf s → relay_wf (event_rate_allowed env i s).2.
Proof.
  intros W. destruct (wf_base s W). unfold event_rate_allowed.
  assert (Hw : (length (slide (ev_now env) (default [] (dget (rl_windows s) i))) <= GROUP_EVENT_RATE_OPS)%nat).
  { etrans; [apply slide_length|]. destruct (dget (rl_windows s) i) as [w|] eqn:E; simpl; [eauto|lia]. }
  case_match eqn:Hf; apply wf_same with s; try done; simpl; (split; [by apply dict_wf_dset|]); intros j w;
    rewrite dget_dset; case_decide; try apply wf_window0; intros [= <-]; [done|].
  breflect. rewrite length_app. simpl. lia.
Qed.

Lemma take_token_used rate burst now b : 1 <= burst → bucket_used burst (take_token rate burst now b).2.
Proof.
  intros Hb. unfold take_token, bucket_used. destruct (default _ b) as [t st].
  case_match; simpl; breflect; unfold MICRO in *; lia.
Qed.

Lemma forward_rate_wf env g i s : relay_wf s → relay_wf (forward_rate_allowed env g i s).2.
Proof.
  intros W. destruct (wf_base s W). unfold forward_rate_allowed.
  pose proof (take_token_used GROUP_FORWARD_RATE_PER_SECOND GROUP_FORWARD_RATE_BURST (ev_now env) (dget (rl_forward s) (g, i)) ltac:(done)) as Hb.
  destruct (take_token _ _ _ _) as [ok b]. apply wf_same with s; try done. simpl. split; [by apply dict_wf_dset|].
  intros k b'. rewrite dget_dset. case_decide; [|apply wf_forward_bucket0]. by intros [= <-].
Qed.

Lemma prune_sub burst now todo : ∀ d x, x ∈ prune burst now todo d → x ∈ d.
Proof.
  induction todo as [|[h [t st]] todo IH]; intros d x; simpl; [done|].
  assert (Hd : ∀ (b : bool), x ∈ (if b then dpop d h else d) → x ∈ d) by (intros []; [apply dpop_elem|done]).
  case_match; intros Hx; [by eapply Hd|]. apply IH in Hx. by eapply Hd.
Qed.

Lemma prune_dict burst now todo : ∀ d, dict_wf d → dict_wf (prune burst now todo d).
Proof.
  induction todo as [|[h [t st]] todo IH]; intros d Hd; simpl; [done|].
  assert (Hp : ∀ (b : bool), dict_wf (if b then dpop d h else d)) by (intros []; [by apply dict_wf_dpop|done]).
  case_match; [apply Hp|]. apply IH, Hp.
Qed.

Lemma prune_wf env s : relay_wf s → relay_wf (prune_connect_tokens env s).2.
Proof.
  intros W. destruct (wf_base s W). unfold prune_connect_tokens, modify. simpl. case_match; [done|].
  apply wf_same with s; try done. simpl. split; [by apply prune_dict|]. intros h b Hb. apply dget_Some_elem, prune_sub in Hb.
  eapply wf_connect_bucket0, elem_dget; eauto.
Qed.

Lemma alter_session_known f i r j : is_Some (dget (rg_objs r) j) → is_Some (dget (rg_objs (alter_session f i r)) j).
Proof.
  intros Hj. unfold alter_session. destruct (dget (rg_objs r) i); [|done]. simpl. rewrite dget_dset. case_decide; eauto.
Qed.

Lemma registry_wf s g :
  relay_wf s → (∀ i, is_Some (dget (rg_objs (rl_registry s)) i) → is_Some (dget (rg_objs g) i)) → relay_wf (set_registry s g).
Proof. intros W Hg. destruct (wf_base s W). by apply wf_same with s. Qed.

(** ** Clients *)

Lemma client_alter f c s d : client d (alter_client f c s) = if decide (c = d) then f <$> client c s else client d s.
Proof.
  unfold alter_client. destruct (client c s) as [x|] eqn:E.
  - unfold client in *. simpl. rewrite dget_dset. by case_decide.
  - case_decide; [by subst; rewrite E|done].
Qed.

(** [alter_client] changes the table of clients only. *)
Lemma alter_client_eq f c s : ∃ l, alter_client f c s = set_clients s l ∧ (dict_wf (rl_clients s) → dict_wf l).
Proof.
  unfold alter_client. destruct (client c s); [|by exists (rl_clients s); destruct s].
  eexists. split; [done|]. apply dict_wf_dset.
Qed.

(** The base invariant for another table of clients. *)
Lemma base_clients s l :
  base_wf s → dict_wf l →
  (∀ c x, dget l c = Some x → 0 < c <= rl_next s ∧ dict_wf (cx_attachments x) ∧
     ∀ i, cx_session x = Some i → dget (rl_by_session s) i = Some c) →
  base_wf (set_clients s l).
Proof.
  intros [] Hl H. split; try done; unfold client; simpl.
  - intros c x Hx. by apply (H c x).
  - intros c x Hx. by apply (H c x).
  - intros c x i Hx. by apply (H c x).
Qed.

Lemma base_alter f c s :
  base_wf s → (∀ x, client c s = Some x → dict_wf (cx_attachments (f x)) ∧
    ∀ i, cx_session (f x) = Some i → dget (rl_by_session s) i = Some c) → base_wf (alter_client f c s).
Proof.
  intros B Hf. destruct (alter_client_eq f c s) as (l & E & Hl). rewrite E. apply base_clients; [done|by apply Hl, wf_clients|].
  intros d x Hx. assert (Hd : client d (alter_client f c s) = Some x) by by rewrite E.
  rewrite client_alter in Hd. case_decide as Hcd; [subst d|].
  - apply fmap_Some in Hd as (y & Hy & ->). destruct (Hf y Hy) as [H1 H2].
    split; [by eapply wf_numbers|]. by split.
  - split; [by eapply wf_numbers|]. split; [by eapply wf_attachments|]. intros i. by eapply wf_session.
Qed.

(** A change of a client that keeps its attachments and its session. *)
Lemma alter_wf f c s :
  (∀ x, cx_attachments (f x) = cx_attachments x ∧ cx_session (f x) = cx_session x) → relay_wf s → relay_wf (alter_client f c s).
Proof.
  intros Hf [B A D]. split.
  - apply base_alter; [done|]. intros x Hx. destruct (Hf x) as [-> ->]. split; [by eapply wf_attachments|]. intros i. by eapply wf_session.
  - intros d ch _. specialize (A d ch ltac:(done)). unfold member_role, attached_role in *. rewrite client_alter.
    destruct (alter_client_eq f c s) as (l & -> & _). simpl. rewrite A. case_decide; [subst|done].
    destruct (client d s) as [x|]; [|done]. simpl. by destruct (Hf x) as [-> _].
  - intros i d x _ Hi Hx. rewrite client_alter in Hx. destruct (alter_client_eq f c s) as (l & E & _). rewrite E in Hi. simpl in Hi.
    case_decide; [subst|by eapply D]. apply fmap_Some in Hx as (y & Hy & ->). destruct (Hf y) as [_ ->]. by eapply D.
Qed.

(** ** Channels *)

Lemma base_channels s l :
  base_wf s → dict_wf l →
  (∀ ch ms, dget l ch = Some ms → dict_wf ms ∧ (1 <= length ms <= CHANNEL_CAPACITY)%nat) → base_wf (set_channels s l).
Proof. intros [] Hl H. by split. Qed.

Lemma member_role_dset s ch ms ch' d :
  member_role (set_channels s (dset (rl_channels s) ch ms)) ch' d = if decide (ch = ch') then dget ms d else member_role s ch' d.
Proof. unfold member_role. simpl. rewrite dget_dset. by case_decide. Qed.

Lemma attached_role_alter s c d ch g :
  attached_role (alter_client (λ x, set_attachments (g (cx_attachments x)) x) c s) d ch =
    if decide (c = d) then x ← client d s; dget (g (cx_attachments x)) ch else attached_role s d ch.
Proof.
  unfold attached_role. rewrite client_alter. case_decide; [subst|done]. by destruct (client d s).
Qed.

Lemma member_role_alter s f c d ch : member_role (alter_client f c s) ch d = member_role s ch d.
Proof. unfold member_role. by destruct (alter_client_eq f c s) as (l & -> & _). Qed.

Lemma attach_wf c ch role s : is_Some (client c s) → relay_wf s → relay_wf (attach_membership c ch role s).2.
Proof.
  intros [x Hx] [B A D]. unfold attach_membership. set (ms := default [] (dget (rl_channels s) ch)).
  case_match eqn:Hok; [|by split]. simpl.
  assert (Hms : dict_wf ms ∧ (length ms <= CHANNEL_CAPACITY)%nat).
  { unfold ms. destruct (dget (rl_channels s) ch) eqn:E; simpl; [|split; [apply dict_wf_nil|unfold CHANNEL_CAPACITY; lia]].
    by apply wf_members in E as [? [? ?]]. }
  assert (Hlen : (1 <= length (dset ms c role) <= CHANNEL_CAPACITY)%nat).
  { rewrite length_dset. case_decide as Hc.
    - split; [|apply Hms]. destruct ms; [set_solver|simpl; lia].
    - apply orb_true_iff in Hok as [Hok|Hok]; [by apply dmem_spec in Hok|]. breflect. lia. }
  set (s1 := set_channels s (dset (rl_channels s) ch (dset ms c role))).
  assert (B1 : base_wf s1).
  { apply base_channels; [done|by apply dict_wf_dset, wf_channels|]. intros ch' ms'. rewrite dget_dset.
    case_decide; [|by apply wf_members]. intros [= <-]. split; [apply dict_wf_dset, Hms|done]. }
  split.
  - apply base_alter; [done|]. intros y Hy. simpl. split; [|intros i; by eapply (wf_session _ B)].
    apply dict_wf_dset. by eapply (wf_attachments _ B).
  - intros d ch' _. rewrite (attached_role_alter _ c d ch' (λ l, dset l ch role)), member_role_alter.
    unfold s1. rewrite member_role_dset. specialize (A d ch' ltac:(done)).
    assert (Hd : dget ms d = member_role s ch d) by (unfold ms, member_role; by destruct (dget (rl_channels s) ch)).
    destruct (decide (c = d)) as [<-|Hcd].
    + change (client c (set_channels s (dset (rl_channels s) ch (dset ms c role)))) with (client c s). rewrite Hx. simpl. rewrite !dget_dset. unfold attached_role in A. rewrite Hx in A. simpl in A. repeat case_decide; done || (by rewrite A).
    + change (attached_role (set_channels s (dset (rl_channels s) ch (dset ms c role))) d ch') with (attached_role s d ch'). case_decide; [subst; by rewrite dget_dset, decide_False, Hd by done|done].
  - intros i d y _ Hi Hy. rewrite client_alter in Hy. destruct (alter_client_eq (λ x, set_attachments (dset (cx_attachments x) ch role) x) c s1) as (l & E & _).
    rewrite E in Hi. simpl in Hi. case_decide; [subst|by eapply D]. apply fmap_Some in Hy as (z & Hz & ->). simpl. by eapply (D i d z).
Qed.

Section leave.
Context (c : Z) (ch : unicode) (ms : members) (s : Relay).
Hypothesis B : base_wf s.
Hypothesis Hms : dget (rl_channels s) ch = Some ms.

Let s2 := alter_client (λ x, set_attachments (dpop (cx_attachments x) ch) x) c
            (set_channels s (dset (rl_channels s) ch (dpop ms c))).

Lemma leave_channels : rl_channels s2 = dset (rl_channels s) ch (dpop ms c).
Proof. unfold s2. by destruct (alter_client_eq (λ x, set_attachments (dpop (cx_attachments x) ch) x) c
  (set_channels s (dset (rl_channels s) ch (dpop ms c)))) as (l & -> & _). Qed.

Lemma without_member_channels :
  dict_wf (rl_channels (without_member c ch ms s)) ∧
  ∀ ch', dget (rl_channels (without_member c ch ms s)) ch' =
    if decide (ch = ch') then (if decide (dpop ms c = []) then None else Some (dpop ms c)) else dget (rl_channels s) ch'.
Proof.
  unfold without_member. fold s2. assert (Hw : dict_wf (rl_channels s2)) by (rewrite leave_channels; by apply dict_wf_dset, wf_channels).
  case_decide; simpl; rewrite leave_channels in *.
  - split; [by apply dict_wf_dpop|]. intros ch'. rewrite dget_dpop, dget_dset by done. by case_decide.
  - split; [done|]. intros ch'. rewrite dget_dset. by case_decide.
Qed.

Lemma without_member_client d :
  client d (without_member c ch ms s) =
    if decide (c = d) then (λ x, set_attachments (dpop (cx_attachments x) ch) x) <$> client c s else client d s.
Proof.
  transitivity (client d s2); [unfold without_member; fold s2; by case_decide|]. unfold s2. by rewrite client_alter.
Qed.

Lemma without_member_role ch' d :
  member_role (without_member c ch ms s) ch' d = if decide (ch = ch' ∧ c = d) then None else member_role s ch' d.
Proof.
  unfold member_role. rewrite (proj2 without_member_channels ch').
  destruct (wf_members _ B _ _ Hms) as [Hd _]. destruct (decide (ch = ch')) as [<-|Hne].
  - rewrite Hms. simpl. pose proof (dget_dpop ms c d Hd) as Hp. destruct (decide (dpop ms c = [])) as [E|].
    + rewrite E in Hp. simpl in Hp. simpl. repeat case_decide; naive_solver.
    + simpl. rewrite Hp. repeat case_decide; naive_solver.
  - by rewrite decide_False by naive_solver.
Qed.

Lemma without_member_attached d ch' :
  attached_role (without_member c ch ms s) d ch' = if decide (ch = ch' ∧ c = d) then None else attached_role s d ch'.
Proof.
  unfold attached_role. rewrite without_member_client. destruct (decide (c = d)) as [<-|].
  - destruct (client c s) as [x|] eqn:Hx; simpl; [|by case_decide].
    rewrite dget_dpop by (by eapply (wf_attachments _ B)). repeat case_decide; naive_solver.
  - by rewrite decide_False by naive_solver.
Qed.

Lemma without_member_base : base_wf (without_member c ch ms s).
Proof.
  assert (E : ∃ k l, without_member c ch ms s = set_channels (set_clients s k) l ∧ (dict_wf (rl_clients s) → dict_wf k)).
  { unfold without_member. destruct (alter_client_eq (λ x, set_attachments (dpop (cx_attachments x) ch) x) c
      (set_channels s (dset (rl_channels s) ch (dpop ms c)))) as (k & E & Hk). rewrite E. case_decide; simpl; eauto. }
  destruct E as (k & l & E & Hk). pose proof without_member_channels as [Hd Hg]. pose proof without_member_client as Hc.
  rewrite E in *. apply base_channels; [apply base_clients|done|]; [done|by apply Hk, wf_clients| |].
  - intros d x Hx. specialize (Hc d). unfold client in Hc at 1. simpl in Hc. rewrite Hx in Hc. symmetry in Hc. case_decide; [subst d|].
    + apply fmap_Some in Hc as (y & Hy & ->). split; [by eapply (wf_numbers _ B)|]. simpl.
      split; [apply dict_wf_dpop; by eapply (wf_attachments _ B)|]. intros i. by eapply (wf_session _ B).
    + split; [by eapply (wf_numbers _ B)|]. split; [by eapply (wf_attachments _ B)|]. intros i. by eapply (wf_session _ B).
  - intros ch' ms' H. pose proof (eq_trans (eq_sym H) (Hg ch')) as Hg1. case_decide; [|by eapply (wf_members _ B)].
    case_decide as Hn; simplify_eq. destruct (wf_members _ B _ _ Hms) as [Hm [H1 H2]]. split; [by apply dict_wf_dpop|].
    pose proof (length_dpop ms c). split; [|lia]. destruct (dpop ms c); [done|simpl; lia].
Qed.

Lemma without_member_bound k : bound_but k s → bound_but k (without_member c ch ms s).
Proof.
  intros D i d x Hk Hi Hx. rewrite without_member_client in Hx.
  assert (Hb : rl_by_session (without_member c ch ms s) = rl_by_session s).
  { unfold without_member. destruct (alter_client_eq (λ x, set_attachments (dpop (cx_attachments x) ch) x) c
      (set_channels s (dset (rl_channels s) ch (dpop ms c)))) as (l & E & _). rewrite E. by destruct (decide (dpop ms c = [])). }
  rewrite Hb in Hi. case_decide; [subst|by eapply D]. apply fmap_Some in Hx as (y & Hy & ->). by eapply (D i d y).
Qed.

Lemma leave_wf : attached_but None s → bound_but None s → relay_wf (without_member c ch ms s).
Proof.
  intros A D. split; [apply without_member_base| |by apply without_member_bound].
  intros d ch' Hd. rewrite without_member_role, without_member_attached. case_decide; [done|]. by apply A.
Qed.
End leave.

(** ** Effects keep the invariant *)

Section effects.
Context `{P : Primitives} (env : Env) (who : actor) (permitted : Relay → Z → Packet → Prop).

(** The client whose handler acts is live. *)
Definition actor_live (s : Relay) : Prop := match who with Handler c => is_Some (client c s) | _ => True end.

Lemma effect_live s s' c : effect env who permitted s s' → is_Some (client c s) → is_Some (client c s').
Proof.
  intros He [x Hx]. destruct He; try (exists x; exact Hx).
  - unfold forward_rate_allowed. destruct (take_token _ _ _ _). by exists x.
  - unfold event_rate_allowed. case_match; by exists x.
  - unfold attach_membership. case_match; [|by exists x]. cbn [snd]. rewrite client_alter. unfold client in *. simpl. rewrite Hx.
    case_decide; [subst; rewrite Hx|]; eauto.
  - assert (H' : client c (alter_client (λ x, set_attachments (dpop (cx_attachments x) channel) x) c0
      (set_channels s (dset (rl_channels s) channel (dpop ms c0)))) = client c (without_member c0 channel ms s)).
    { unfold without_member. by case_decide. }
    rewrite <- H', client_alter. unfold client in *. simpl. case_decide; [subst; rewrite Hx|]; eauto.
  - rewrite client_alter. case_decide; [subst; rewrite Hx|]; eauto.
  - unfold prune_connect_tokens, modify. simpl. case_match; by exists x.
Qed.

Lemma effect_wf s s' : effect env who permitted s s' → relay_wf s ∧ actor_live s → relay_wf s' ∧ actor_live s'.
Proof.
  intros He [W Hl]. assert (Hk : ∀ c, is_Some (client c s) → is_Some (client c s')) by (intros c; by apply effect_live).
  split; [|unfold actor_live in *; destruct who; auto].
  pose proof (wf_base s W) as B. destruct He; try (destruct B; by apply wf_same with s).
  - by apply forward_rate_wf.
  - by apply event_rate_wf.
  - apply registry_wf; [done|]. intros j. apply alter_session_known.
  - apply attach_wf; [|done]. unfold actor_live in Hl. by subst who.
  - by apply leave_wf; destruct W.
  - apply alter_wf; [done|done].
  - by apply prune_wf.
Qed.

Lemma effects_wf s s' : effects env who permitted s s' → relay_wf s ∧ actor_live s → relay_wf s' ∧ actor_live s'.
Proof. induction 1; [done|]. eauto using effect_wf. Qed.
End effects.

(** ** The end of a client *)

Section detach.
Context `{P : Primitives} (env : Env).

Lemma send_wire d build s : ∃ r l, send env d build s = (r, set_wire s l).
Proof.
  destruct (send_result env d build s) as [[e ->]|(-> & _)]; [|eauto]. exists (Err e), (rl_wire s). by destruct s.
Qed.

Lemma validate_peer_error d e : validate_packet PEER d = Err e → e = PacketValidationError.
Proof.
  unfold validate_packet, demand_channel, demand_among, demand_str, demand, guard_or. simpl. intros H.
  repeat (case_match; simplify_eq/=; try done).
Qed.

Lemma encode_peer_error channel ev st e : encode_packet (peer_packet channel ev st) = Err e → e = PacketValidationError.
Proof.
  unfold encode_packet. cbn [pk_type peer_packet new_packet]. destruct (validate_packet PEER _) as [[]|e'] eqn:Hv.
  - simpl. unfold demand, guard_or. case_match; simpl; congruence.
  - apply validate_peer_error in Hv as ->. simpl. congruence.
Qed.

(** A send whose packet can only be refused as invalid raises what is caught. *)
Lemma send_caught d build s e s' :
  (∀ st err, encode_packet (build st) = Err err → err = PacketValidationError) →
  send env d build s = (Err e, s') → caught e = true ∧ s' = s.
Proof.
  intros He. unfold send. destruct (cx_conn <$> client d s) as [[]|]; [by intros [= <- <-]| | |by intros [= <- <-]].
  all: destruct (encode_packet _) as [b|err] eqn:Hp; [case_match; by intros [= <- <-]|];
    rewrite (He _ _ Hp); by intros [= <- <-].
Qed.

(** A notice of arrival or departure is sent, or dropped silently. *)
Lemma peer_notice d channel ev s : ∃ l, suppress (send env d (peer_packet channel ev)) s = (Ok tt, set_wire s l).
Proof.
  unfold suppress, mbind, M_bind, attempted.
  destruct (send_wire d (peer_packet channel ev) s) as (r & l & Hs). exists l. rewrite Hs. destruct r as [|e]; [done|].
  by destruct (send_caught d _ s e _ (encode_peer_error channel ev) Hs) as [-> _].
Qed.

Lemma notify_left_wire channel s : ∃ l, notify_peer_left env channel s = (Ok tt, set_wire s l).
Proof.
  unfold notify_peer_left, mbind, M_bind, gets. simpl. case_match; [apply peer_notice|].
  exists (rl_wire s). by destruct s.
Qed.

(** While the channels [l] of the client [c], which is no longer live, are
    still to be left. *)
Record departing (c : Z) (l : list unicode) (s0 s : Relay) : Prop := {
  dp_base : base_wf s;
  dp_gone : client c s = None;
  dp_attached : attached_but (Some c) s;
  dp_bound : bound_but None s;
  dp_left : ∀ ch, is_Some (member_role s ch c) → ch ∈ l;
  dp_sessions : rl_by_session s = rl_by_session s0;
  dp_others : ∀ d, d ≠ c → client d s = client d s0;
}.

Lemma departing_wire c l s0 s w : departing c l s0 s → departing c l s0 (set_wire s w).
Proof. intros []. split; try done. destruct dp_base0. by apply base_same with s. Qed.

Lemma leave_departing c ch l s0 s :
  departing c (ch :: l) s0 s → ∃ s', leave_channel env c ch s = (Ok tt, s') ∧ departing c l s0 s'.
Proof.
  intros D. rewrite leave_channel_eq.
  assert (Hstay : (∀ r, member_role s ch c ≠ Some r) → departing c l s0 s).
  { intros Hn. destruct D. split; try done. intros ch' [r Hr]. specialize (dp_left0 ch' ltac:(eauto)).
    apply elem_of_cons in dp_left0 as [->|]; [|done]. by destruct (Hn r). }
  destruct (dget (rl_channels s) ch) as [ms|] eqn:Hms.
  2:{ exists s. split; [done|]. apply Hstay. unfold member_role. by rewrite Hms. }
  destruct (dmem ms c) eqn:Hc; simpl.
  2:{ exists s. split; [done|]. apply Hstay. unfold member_role. rewrite Hms. simpl. apply dmem_false in Hc. by rewrite Hc. }
  assert (Hw : departing c l s0 (without_member c ch ms s)).
  { destruct D. split.
    - by apply without_member_base.
    - rewrite without_member_client. by rewrite decide_True, dp_gone0.
    - intros d ch' Hd. rewrite without_member_role, without_member_attached by done. case_decide; [done|]. by apply dp_attached0.
    - by apply without_member_bound.
    - intros ch' Hr. rewrite without_member_role in Hr by done. case_decide as Hb; [by destruct Hr|].
      apply dp_left0, elem_of_cons in Hr as [->|]; [naive_solver|done].
    - rewrite <- dp_sessions0. unfold without_member. destruct (alter_client_eq (λ x, set_attachments (dpop (cx_attachments x) ch) x) c
        (set_channels s (dset (rl_channels s) ch (dpop ms c)))) as (k & E & _). rewrite E. by case_decide.
    - intros d Hd. rewrite without_member_client, decide_False by done. by apply dp_others0. }
  case_decide; [eauto|]. destruct (notify_left_wire ch (without_member c ch ms s)) as [w ->].
  eexists. split; [done|]. by apply departing_wire.
Qed.

Lemma leave_all c l s0 : ∀ s, departing c l s0 s → ∃ s', for_each l (leave_channel env c) s = (Ok tt, s') ∧ departing c [] s0 s'.
Proof.
  induction l as [|ch l IH]; intros s D; [eauto|]. simpl. unfold mbind, M_bind.
  destruct (leave_departing c ch l s0 s D) as (s1 & -> & D1). by apply IH.
Qed.

(** The client is taken out of the table. *)
Lemma pop_departing c s x :
  base_wf s → attached_but None s → bound_but (Some c) s → client c s = Some x →
  departing c (keys (cx_attachments x)) s (set_clients s (dpop (rl_clients s) c)).
Proof.
  intros B A D Hx.
  assert (Hcl : ∀ d, client d (set_clients s (dpop (rl_clients s) c)) = if decide (c = d) then None else client d s).
  { intros d. unfold client. simpl. rewrite dget_dpop by (by apply wf_clients). done. }
  split.
  - apply base_clients; [done|by apply dict_wf_dpop, wf_clients|]. intros d y Hy. rewrite dget_dpop in Hy by (by apply wf_clients).
    case_decide; [done|]. split; [by eapply wf_numbers|]. split; [by eapply wf_attachments|]. intros i. by eapply (wf_session s B).
  - by rewrite Hcl, decide_True.
  - intros d ch Hd. unfold attached_role. rewrite Hcl, decide_False by congruence. apply (A d ch). done.
  - intros i d y _ Hi Hy. rewrite Hcl in Hy. case_decide; [done|]. apply (D i d y); [congruence|done|done].
  - intros ch Hr. change (is_Some (member_role s ch c)) in Hr. rewrite (A c ch) in Hr by done.
    unfold attached_role in Hr. rewrite Hx in Hr. simpl in Hr. by apply dget_is_Some.
  - done.
  - intros d Hd. by rewrite Hcl, decide_False.
Qed.

Lemma departed_wf c s0 s : departing c [] s0 s → relay_wf s.
Proof.
  intros []. split; [done| |done]. intros d ch _. destruct (decide (d = c)) as [->|Hd]; [|apply dp_attached0; congruence].
  unfold attached_role. rewrite dp_gone0. simpl. destruct (member_role s ch c) eqn:E; [|done].
  specialize (dp_left0 ch ltac:(eauto)). set_solver.
Qed.

Lemma remove_session_known r i j : is_Some (dget (rg_objs r) j) → is_Some (dget (rg_objs (remove_session r i)) j).
Proof. intros H. unfold remove_session. case_decide; [|done]. simpl. by apply alter_session_known. Qed.

Lemma drop_session_wf i s : relay_wf s → (∀ c x, client c s = Some x → cx_session x ≠ Some i) → relay_wf (drop_session i s).
Proof.
  intros [B A D] Hi. assert (Hd : ∀ j, dget (rl_by_session (drop_session i s)) j = if decide (i = j) then None else dget (rl_by_session s) j).
  { intros j. simpl. rewrite dget_dpop by (by apply wf_by_session). done. }
  split; [|done|].
  - destruct B. split; try done; try (simpl; by eauto with ghost).
    + intros c x j Hc Hj. rewrite Hd. rewrite decide_False; [by eapply wf_session0|]. intros ->. by apply (Hi c x).
    + intros j c Hj. rewrite Hd in Hj. case_decide; [done|]. destruct (wf_known0 j c Hj). split; [|done].
      simpl. by apply remove_session_known.
    + intros j w. simpl. rewrite dget_dpop by done. case_decide; [done|]. apply wf_window0.
    + intros k b. simpl. intros Hk. apply dget_filter in Hk as [Hk _]; [|done]. by eapply wf_forward_bucket0.
  - intros j d x _ Hj Hx. rewrite Hd in Hj. case_decide; [done|]. by eapply D.
Qed.

(** What [detach_client] leaves of a client that was live. *)
Lemma detach_result c s x :
  base_wf s → attached_but None s → bound_but (Some c) s → client c s = Some x →
  ∃ s1, departing c [] s s1 ∧ relay_wf s1 ∧ (∀ i, cx_session x = Some i → dget (rl_by_session s) i = Some c) ∧
    detach_client env c s = (Ok tt, match cx_session x with Some i => drop_session i s1 | None => s1 end).
Proof.
  intros B A D Hx. destruct (leave_all c _ s _ (pop_departing c s x B A D Hx)) as (s1 & E & D1).
  exists s1. split; [done|]. split; [by eapply departed_wf|]. split; [intros i; by eapply wf_session|].
  unfold detach_client, mbind, M_bind, gets, modify. simpl. rewrite Hx. rewrite E. by destruct (cx_session x).
Qed.

Lemma detach_wf c s : base_wf s → attached_but None s → bound_but (Some c) s → relay_wf (detach_client env c s).2.
Proof.
  intros B A D. destruct (client c s) as [x|] eqn:Hx.
  - destruct (detach_result c s x B A D Hx) as (s1 & D1 & W1 & Hi & ->). simpl.
    destruct (cx_session x) as [i|]; [|done]. apply drop_session_wf; [done|]. intros d y Hd Hs.
    pose proof (wf_session s1 (wf_base s1 W1) d y i Hd Hs) as Hb. rewrite (dp_sessions _ _ _ _ D1), (Hi i eq_refl) in Hb.
    simplify_eq. by rewrite (dp_gone _ _ _ _ D1) in Hd.
  - unfold detach_client, mbind, M_bind, gets. simpl. rewrite Hx. simpl. split; [done..|].
    intros i d y _ Hi Hy. apply (D i d y); [|done|done]. intros [= ->]. by rewrite Hx in Hy.
Qed.
End detach.

(** ** The opening of a client *)

Section opening.
Context `{P : Primitives} (env : Env).

Lemma on_connection_wf remote s : relay_wf s → relay_wf (on_connection env remote s).2.
Proof.
  intros W. pose proof (wf_base s W) as B. unfold on_connection, connection_admitted, mbind, M_bind, gets, modify. simpl.
  destruct (lm_max_connections (rl_limits s) <=? Z.of_nat (length (rl_clients s))); [done|]. pose proof (take_token_used (lm_connect_rate (rl_limits s)) _ (ev_now env) (dget (rl_connect s) (host_of remote)) (wf_burst s B)) as Hb.
  destruct (take_token _ _ _ _) as [ok b] eqn:Ht. cbn [snd] in Hb.
  set (s1 := set_connect s (dset (rl_connect s) (host_of remote) b)).
  assert (W1 : relay_wf s1).
  { destruct B. apply wf_same with s; try done. simpl. split; [by apply dict_wf_dset|]. intros h b'. rewrite dget_dset.
    case_decide; [by intros [= <-]|apply wf_connect_bucket0]. }
  destruct ok; simpl; [|done]. destruct W1 as [B1 A1 D1].
  pose proof (wf_next s B) as Hn. remember (rl_next s + 1) as n eqn:En. set (x := mkContext remote NoConnection None [] 1 "").
  assert (Hfresh : client n s1 = None).
  { destruct (client n s1) eqn:E; [|done]. apply (wf_numbers _ B1) in E. simpl in E. lia. }
  assert (Hcl : ∀ d, dget (dset (rl_clients s) n x) d = if decide (n = d) then Some x else client d s1) by (intros d; by rewrite dget_dset).
  change (relay_wf (set_clients (set_next s1 n) (dset (rl_clients s) n x))). split.
  - apply base_clients.
    + destruct B1. split; try done; simpl in *; try lia.
      * intros c y Hy. destruct (wf_numbers0 c y Hy). lia.
      * intros i c Hi. destruct (wf_known0 i c Hi). split; [done|lia].
    + apply dict_wf_dset, (wf_clients s B).
    + intros c y Hy. rewrite Hcl in Hy. case_decide.
      * simplify_eq/=. split; [lia|]. split; [apply dict_wf_nil|done].
      * destruct (wf_numbers _ B1 c y Hy). split; [simpl in *; lia|]. split; [by eapply (wf_attachments _ B1)|].
        intros i. by eapply (wf_session _ B1).
  - intros d ch _. specialize (A1 d ch ltac:(done)). unfold attached_role in *. unfold client at 1. cbn [rl_clients set_clients].
    rewrite Hcl. case_decide as Hd; [|exact A1]. subst d. rewrite Hfresh in A1. exact A1.
  - intros i d y _ Hi Hy. unfold client in Hy. cbn [rl_clients set_clients] in Hy. rewrite Hcl in Hy. case_decide as Hd; [|by eapply D1].
    subst d. destruct (wf_known _ B1 i n Hi) as [_ H]. simpl in H. lia.
Qed.

Definition fresh (s : Relay) : Prop := dget (rg_objs (rl_registry s)) (ev_session_id env) = None.

Lemma fresh_unbound s c : relay_wf s → fresh s → dget (rl_by_session s) (ev_session_id env) ≠ Some c.
Proof. intros W Hf Hc. destruct (wf_known s (wf_base s W) _ _ Hc) as [[y Hy] _]. unfold fresh in Hf. congruence. Qed.

Lemma registered_known r x i : is_Some (dget (rg_objs r) i) → is_Some (dget (rg_objs (register_session r x)) i).
Proof. intros [y Hy]. simpl. rewrite dget_dset. case_decide; eauto. Qed.

Section hello.
Context (c version : Z) (s : Relay) (x : Context).
Hypothesis W : relay_wf s.
Hypothesis F : fresh s.
Hypothesis Hx : client c s = Some x.
Hypothesis Hnone : cx_session x = None.

Lemma open_session_client d :
  client d (open_session env c version s) = if decide (c = d) then Some (set_version version (ev_nonce env) x) else client d s.
Proof.
  transitivity (client d (alter_client (set_version version (ev_nonce env)) c (set_registry s (register_session (rl_registry s)
    (Session_create (ev_session_id env) (Some (lm_session_ttl (rl_limits s))) (ev_wall env)))))); [done|].
  rewrite client_alter. unfold client in *. simpl. by rewrite Hx.
Qed.

Lemma open_session_by j :
  dget (rl_by_session (open_session env c version s)) j = if decide (ev_session_id env = j) then Some c else dget (rl_by_session s) j.
Proof.
  unfold open_session. destruct (alter_client_eq (set_version version (ev_nonce env)) c (set_registry s (register_session (rl_registry s)
    (Session_create (ev_session_id env) (Some (lm_session_ttl (rl_limits s))) (ev_wall env))))) as (l & E & _). rewrite E. simpl. by rewrite dget_dset.
Qed.

Lemma open_session_base : base_wf (open_session env c version s).
Proof.
  set (g := register_session (rl_registry s) (Session_create (ev_session_id env) (Some (lm_session_ttl (rl_limits s))) (ev_wall env))).
  assert (W1 : relay_wf (set_registry s g)) by (apply registry_wf; [done|intros i; apply registered_known]).
  assert (W2 : relay_wf (alter_client (set_version version (ev_nonce env)) c (set_registry s g))) by by apply alter_wf.
  pose proof (wf_base s W) as B0. destruct (wf_base _ W2) as []. split; try done.
  - by apply dict_wf_dset.
  - intros d y i Hd Hi. rewrite open_session_by. rewrite open_session_client in Hd. destruct (decide (c = d)) as [Hcd|Hcd].
    + by simplify_eq/=.
    + pose proof (wf_session s B0 d y i Hd Hi) as Hb. rewrite decide_False; [done|]. intros Hi2. rewrite <- Hi2 in Hb. exact (fresh_unbound s d W F Hb).
  - intros i d Hi. rewrite open_session_by in Hi. destruct (wf_base _ W2) as [].
    assert (E : rl_registry (open_session env c version s) = g ∧ rl_next (open_session env c version s) = rl_next s).
    { unfold open_session. fold g. destruct (alter_client_eq (set_version version (ev_nonce env)) c (set_registry s g)) as (l & E & _). by rewrite E. }
    destruct E as [-> ->]. case_decide.
    + simplify_eq. split; [|by destruct (wf_numbers s B0 d x Hx)]. unfold g. simpl. rewrite dget_dset, decide_True by done. eauto.
    + destruct (wf_known s B0 i d Hi). split; [by apply registered_known|done].
Qed.

Lemma open_session_attached : attached_but None (open_session env c version s).
Proof.
  intros d ch _. unfold attached_role. rewrite open_session_client.
  assert (E : member_role (open_session env c version s) ch d = member_role s ch d).
  { unfold member_role, open_session. destruct (alter_client_eq (set_version version (ev_nonce env)) c (set_registry s (register_session (rl_registry s)
      (Session_create (ev_session_id env) (Some (lm_session_ttl (rl_limits s))) (ev_wall env))))) as (l & E & _). by rewrite E. }
  rewrite E, (wf_attached s W d ch) by done. unfold attached_role. case_decide; [subst; by rewrite Hx|done].
Qed.

Lemma open_session_bound : bound_but (Some c) (open_session env c version s).
Proof.
  intros i d y Hc Hi Hy. rewrite open_session_by in Hi. rewrite open_session_client in Hy.
  rewrite decide_False in Hy by congruence. case_decide; [congruence|]. by eapply (wf_bound s W).
Qed.

Lemma session_set_wf w :
  relay_wf (alter_client (set_session (Some (ev_session_id env))) c (set_wire (open_session env c version s) w)).
Proof.
  set (s1 := set_wire (open_session env c version s) w).
  assert (B1 : base_wf s1) by (destruct open_session_base; by apply base_same with (open_session env c version s)).
  assert (Hc : client c s1 = Some (set_version version (ev_nonce env) x)).
  { change (client c (open_session env c version s) = Some (set_version version (ev_nonce env) x)). by rewrite open_session_client, decide_True. }
  split.
  - apply base_alter; [done|]. intros y Hy. simplify_eq. simpl.
    split; [by eapply (wf_attachments _ (wf_base s W))|]. intros i [= <-].
    change (dget (rl_by_session (open_session env c version s)) (ev_session_id env) = Some c). by rewrite open_session_by, decide_True.
  - intros d ch _. pose proof (open_session_attached d ch ltac:(done)) as A. rewrite member_role_alter.
    change (member_role (open_session env c version s) ch d = attached_role (alter_client (set_session (Some (ev_session_id env))) c s1) d ch).
    rewrite A. unfold attached_role. rewrite client_alter. case_decide as Hd; [|done]. subst d. rewrite Hc.
    by rewrite open_session_client, decide_True.
  - intros i d y _ Hi Hy. rewrite client_alter in Hy.
    assert (Hi' : dget (rl_by_session (open_session env c version s)) i = Some d).
    { destruct (alter_client_eq (set_session (Some (ev_session_id env))) c s1) as (l & E & _). rewrite E in Hi. exact Hi. }
    rewrite open_session_by in Hi'. destruct (decide (c = d)) as [Hd|Hd].
    + subst d. rewrite Hc in Hy. simplify_eq/=. case_decide; [congruence|].
      pose proof (wf_bound s W i c x ltac:(done) Hi' Hx). congruence.
    + change (client d (open_session env c version s) = Some y) in Hy. case_decide; [congruence|].
      rewrite open_session_client, decide_False in Hy by done. by eapply (wf_bound s W).
Qed.
End hello.

Lemma hello_wf c data s s' : relay_wf s → fresh s → run_event env (EHello c data) s = Some s' → relay_wf s'.
Proof.
  intros W F Hrun. apply hello_event in Hrun as (x & Hx & Ho & Hn & [(s1 & H1 & ->)|(v & [->|(s2 & _ & [l ->] & ->)])]).
  - destruct (effects_wf _ _ _ _ _ H1) as [[B A D] _]; [split; [done|by exists x]|]. apply detach_wf; [done|done|].
    intros i d y _. by apply D.
  - apply detach_wf; [by eapply open_session_base|by eapply open_session_attached|by eapply open_session_bound].
  - by eapply session_set_wf.
Qed.

Lemma sweep_expired_known r now i : is_Some (dget (rg_objs r) i) → is_Some (dget (rg_objs (sweep_expired r now)) i).
Proof.
  intros H. unfold sweep_expired. simpl. revert H. generalize (filter (λ id, overdue r now id = true) (rg_live r)). intros l. revert r.
  induction l as [|j l IH]; intros r H; [done|]. simpl. by apply IH, alter_session_known.
Qed.

Lemma run_event_wf e s s' : mints_ok (ev_mints env) → fresh s → run_event env e s = Some s' → relay_wf s → relay_wf s'.
Proof.
  intros Hm F Hrun W. destruct e as [remote|c|c data|c data|c| | |].
  - simpl in Hrun. simplify_eq. by apply on_connection_wf.
  - simpl in Hrun. apply bind_Some in Hrun as (x & Hx & Hrun). case_decide; simplify_eq. by apply alter_wf.
  - by eapply hello_wf.
  - apply data_event in Hrun as (Hl & s1 & H1 & Hs'); [|done]. apply effects_wf in H1 as [W1 _]; [|by split].
    destruct Hs' as [->| ->]; [done|]. destruct W1 as [B A D]. apply detach_wf; [done|done|]. intros i d y _. by apply D.
  - simpl in Hrun. simplify_eq. destruct W as [B A D]. apply detach_wf; [done|done|]. intros i d y _. by apply D.
  - simpl in Hrun. simplify_eq. apply registry_wf; [done|]. intros i. apply sweep_expired_known.
  - simpl in Hrun. simplify_eq. by eapply (effects_wf _ Sweeper _ _ _ (performs_sweep env s s)).
  - simpl in Hrun. simplify_eq. pose (T s1 s2 := relay_wf s1 → relay_wf s2).
    assert (PreOrder T) by (split; [intros ? H; exact H|intros s1 s2 s3; unfold T; auto]).
    refine (stable_for_each T _ _ _ s W). intros c s1 W1.
    by apply (effects_wf _ Closer _ _ _ (performs_goodbye env c s "relay shutting down" s1)).
Qed.
End opening.

(** ** Reachable relays *)

Inductive relay_step `{P : Primitives} (s s' : Relay) : Prop :=
| relay_step_intro env e : mints_ok (ev_mints env) → fresh env s → run_event env e s = Some s' → relay_step s s'.

Definition relay_reachable `{P : Primitives} (s : Relay) : Prop :=
  ∃ limits, 1 <= lm_connect_burst limits ∧ rtc relay_step (RelayServer_init limits) s.

Lemma reachable_wf `{P : Primitives} s : relay_reachable s → relay_wf s.
Proof.
  intros (limits & Hb & Hr). assert (Hw : relay_wf (RelayServer_init limits)) by by apply init_wf.
  revert Hw. clear Hb. induction Hr as [|s1 s2 s3 [env e Hm Hf Hrun] _ IH]; [done|]. intros W. by eapply IH, run_event_wf.
Qed.
