(* ===== verification/RelayTheorems.v ===== *)
(** * What the relay guarantees

    The theorems on [transport/relay/server.py]: its invariant, who is sent
    what, the isolation of clients, its use of the authorities, the
    end of a client, the redemption of a group invite, the brakes. *)

From S2P Require Import Prelude Text Utf8 Primitives Ids Events GroupAuthority GroupInvariant GroupSpec Invites Json ChannelFrames RelayPackets RelayState RelayPacketTheorems RelayServer RelayEffects RelaySteps RelayInvariant.

Open Scope Z_scope.

(** ** The invariant *)

(** C6: The relay stays consistent: in every state it can reach, whatever
    clients connect, send, raise or vanish in between, a channel has one or
    two members, and they are exactly the live clients that are attached to it,
    with the same role; the session of a live client leads back to it in the
    session table, and a session that leads to a live client is its own; a
    session has at most four membership operations in its window, and no bucket
    of a brake holds more than its burst. *)
Theorem relay_stays_consistent `{P : Primitives} s :
  relay_reachable s →
  (∀ ch ms, dget (rl_channels s) ch = Some ms → dict_wf ms ∧ (1 <= length ms <= 2)%nat) ∧
  (∀ ch c role, (∃ ms, dget (rl_channels s) ch = Some ms ∧ dget ms c = Some role) ↔
     (∃ x, client c s = Some x ∧ dget (cx_attachments x) ch = Some role)) ∧
  (∀ c x i, client c s = Some x → cx_session x = Some i ↔ dget (rl_by_session s) i = Some c) ∧
  (∀ i w, dget (rl_windows s) i = Some w → (length w <= 4)%nat) ∧
  (∀ k b, dget (rl_forward s) k = Some b → b.1 < 20 * MICRO) ∧
  (∀ h b, dget (rl_connect s) h = Some b → b.1 < lm_connect_burst (rl_limits s) * MICRO).
Proof.
  intros [B A D]%reachable_wf. split; [by destruct B|]. split.
  { intros ch c role. specialize (A c ch ltac:(done)). unfold member_role, attached_role in A.
    split; intros (y & H1 & H2); rewrite H1 in A; simpl in A; rewrite H2 in A; [symmetry in A|]; by apply bind_Some in A. }
  split; [|by destruct B]. intros c x i Hx. split; [by apply (wf_session s B)|]. intros Hi. by apply (D i c x).
Qed.

(** ** Who is sent what *)

(** The packets an event puts on the wire, each to whom may have it. *)
Definition extends (env : Env) (e : event) (s : Relay) : relation Relay := λ s1 s2,
  ∃ l, rl_wire s2 = rl_wire s1 ++ l ∧
    Forall (λ x, entitled e s x.1 x.2 ∧ ev_up env x.1 = true ∧ is_ok (encode_packet x.2) = true) l.

#[export] Instance extends_preorder env e s : PreOrder (extends env e s).
Proof.
  split.
  - intros s1. exists []. by rewrite app_nil_r.
  - intros s1 s2 s3 (l1 & E1 & H1) (l2 & E2 & H2). exists (l1 ++ l2). rewrite E2, E1, <- app_assoc.
    split; [done|]. by apply Forall_app.
Qed.

Lemma extends_wire env e s s1 s2 : rl_wire s2 = rl_wire s1 → extends env e s s1 s2.
Proof. intros H. exists []. by rewrite H, app_nil_r. Qed.

Lemma alter_client_wire f c s : rl_wire (alter_client f c s) = rl_wire s.
Proof. by destruct (alter_client_eq f c s) as (l & -> & _). Qed.

(** What an effect does to the wire. *)
Lemma effect_wire `{P : Primitives} env who permitted s s' :
  effect env who permitted s s' →
  rl_wire s' = rl_wire s ∨
  ∃ d p, rl_wire s' = rl_wire s ++ [(d, p)] ∧ permitted s d p ∧ ev_up env d = true ∧ is_ok (encode_packet p) = true.
Proof.
  intros [d p Hc Hu Hok Hp|call|call _|x|group session|session|i|c ch role _|c ch ms _ _ _|c _| ]; try (by left).
  - right. by exists d, p.
  - left. unfold forward_rate_allowed. by destruct (take_token _ _ _ _).
  - left. unfold event_rate_allowed. by case_match.
  - left. unfold attach_membership. case_match; [|done]. cbn [snd]. by rewrite alter_client_wire.
  - left. unfold without_member. case_decide; simpl; by rewrite alter_client_wire.
  - left. by rewrite alter_client_wire.
  - left. unfold prune_connect_tokens, modify. simpl. by case_match.
Qed.

(** C7: The relay routes and nothing else: whatever it puts on the wire
    while it handles an event was accepted by its own encoder and goes to a
    client that may have it.  A FORWARD is sent only for a FORWARD request, to
    another member of a channel its sender is a member of, with the body
    untouched; a GROUP_FORWARD is the very packet the sender gave, sent only
    when the sender's session is attested as the [from] it names and the
    authority admits it, to the client whose session the addressee is bound
    to; answers go to the client that asked; only arrivals and departures,
    membership events and signature requests reach others. *)
Theorem packets_reach_the_entitled `{P : Primitives} env e s s' :
  mints_ok (ev_mints env) → run_event env e s = Some s' →
  ∃ l, rl_wire s' = rl_wire s ++ l ∧
    Forall (λ x, entitled e s x.1 x.2 ∧ ev_up env x.1 = true ∧ is_ok (encode_packet x.2) = true) l.
Proof.
  intros Hm Hrun. change (extends env e s s s').
  assert (Heff : ∀ s1 s2, effect env (acting e) (λ _, entitled e s) s1 s2 → extends env e s s1 s2).
  { intros s1 s2 He. apply effect_wire in He as [H|(d & p & H & Hp)]; [by apply extends_wire|].
    exists [(d, p)]. split; [done|]. by apply Forall_singleton. }
  apply (run_event_rule env _ e s s' Hm Hrun Heff).
  - intros c Hc. apply (stable_detach env (acting e) (λ _, entitled e s) _ Heff c); [|intros; by apply entitled_push|..].
    + unfold acting. by rewrite Hc.
    + intros s1. by apply extends_wire.
    + intros i s1. by apply extends_wire.
  - destruct e as [remote|c|c data|c data|c| | |]; try done.
    + apply extends_wire. unfold on_connection, connection_admitted, mbind, M_bind, gets, modify. simpl.
      destruct (_ <=? _); [done|]. by destruct (take_token _ _ _ _) as [[] b].
    + apply extends_wire. unfold upgrade, modify. simpl. apply alter_client_wire.
    + split; intros; apply extends_wire; [|apply alter_client_wire]. unfold open_session. simpl. by rewrite alter_client_wire.
    + by apply extends_wire.
Qed.

(** ** A scenario: two clients meet in a room *)

Section script.
Context `{P : Primitives}.

(** Run events, each with its environment, while the drawn session is new. *)
Fixpoint run_script (l : list (Env * event)) (s : Relay) : option Relay :=
  match l with
  | [] => Some s
  | (env, e) :: l' =>
      if dmem (rg_objs (rl_registry s)) (ev_session_id env) then None
      else s' ← run_event env e s; run_script l' s'
  end.

Lemma run_script_reachable l : ∀ s s',
  Forall (λ x, mints_ok (ev_mints x.1)) l → relay_reachable s → run_script l s = Some s' → relay_reachable s'.
Proof.
  induction l as [|[env e] l IH]; intros s s' Hm Hs; simpl; [by intros [= <-]|].
  apply Forall_cons in Hm as [Hm Hl]. case_match eqn:Hf; [done|]. intros H. apply bind_Some in H as (s1 & H1 & H2).
  apply dmem_false in Hf. destruct Hs as (limits & Hb & Hr). eapply IH; [done| |done].
  exists limits. split; [done|]. eapply rtc_r; [done|]. by econstructor.
Qed.
End script.

Definition demo_limits : Limits := mkLimits (300 * MICRO) (JFloat (cp "15.0")) "ghostlink-relay" 1024 40 80.
Definition demo_env (n : Z) (session : string) : Env :=
  mkEnv (n * MICRO) (n * MICRO) (λ _, true) (λ _, cp "1.5") (λ _, cp "1.0") (λ _, (cp "0123456789abcdef", JFloat (cp "1.5")))
    (cp "Invalid packet") "op-000000001" [] session "00112233445566778899aabbccddeeff".
Definition demo_stamp : stamp := (cp "fedcba9876543210", JFloat (cp "2.5")).
Definition wire_bytes (build : stamp → Packet) : bytes := dumps (packet_dict (build demo_stamp)).
Definition demo_room : string := "gl-room-AAAA-AAAA-AAAA".

Definition demo_script : list (Env * event) :=
  [(demo_env 1 "sess_1", EConnect "10.0.0.1:5000"); (demo_env 1 "sess_2", EConnect "10.0.0.2:5000");
   (demo_env 1 "sess_1", EUpgrade 1); (demo_env 1 "sess_2", EUpgrade 2);
   (demo_env 2 "sess_1", EHello 1 (wire_bytes (hello_packet "alice" None)));
   (demo_env 2 "sess_2", EHello 2 (wire_bytes (hello_packet "bob" None)));
   (demo_env 3 "sess_3", EData 1 (wire_bytes (attach_packet demo_room "host")));
   (demo_env 3 "sess_3", EData 2 (wire_bytes (attach_packet demo_room "guest")))].

Definition demo_relay : Relay := default (RelayServer_init demo_limits) (run_script demo_script (RelayServer_init demo_limits)).

Lemma demo_runs : run_script demo_script (RelayServer_init demo_limits) = Some demo_relay.
Proof. vm_compute. reflexivity. Qed.

Lemma demo_mints : Forall (λ x : Env * event, mints_ok (ev_mints x.1)) demo_script.
Proof. repeat constructor. Qed.

Lemma init_reachable limits : 1 <= lm_connect_burst limits → relay_reachable (RelayServer_init limits).
Proof. intros H. exists limits. by split; [|constructor]. Qed.

Lemma demo_reachable : relay_reachable demo_relay.
Proof. eapply run_script_reachable; [apply demo_mints| |apply demo_runs]. by apply init_reachable. Qed.

Lemma relay_stays_consistent_witness :
  ∃ ms, dget (rl_channels demo_relay) (cp demo_room) = Some ms ∧ dict_wf ms ∧ (1 <= length ms <= 2)%nat.
Proof.
  exists [(1, "host"); (2, "guest")]. assert (H : dget (rl_channels demo_relay) (cp demo_room) = Some [(1, "host"); (2, "guest")]) by (vm_compute; reflexivity).
  split; [exact H|]. exact (proj1 (relay_stays_consistent demo_relay demo_reachable) _ _ H).
Defined.

(** Alice, the first client, sends a body to the room. *)
Definition demo_body : unicode := cp "aGVsbG8=".
Definition demo_forward : event := EData 1 (wire_bytes (forward_packet (cp demo_room) demo_body)).
Definition demo_after : Relay := default demo_relay (run_event (demo_env 4 "sess_3") demo_forward demo_relay).

Lemma demo_forwards : run_event (demo_env 4 "sess_3") demo_forward demo_relay = Some demo_after.
Proof. vm_compute. reflexivity. Qed.

Lemma packets_reach_the_entitled_witness :
  ∃ l, rl_wire demo_after = rl_wire demo_relay ++ l ∧
    Forall (λ x, entitled demo_forward demo_relay x.1 x.2 ∧ ev_up (demo_env 4 "sess_3") x.1 = true ∧ is_ok (encode_packet x.2) = true) l.
Proof. apply packets_reach_the_entitled; [constructor|]. apply demo_forwards. Defined.

(** ** Isolation *)

Lemma dget_dpop_ne {K V} `{EqDecision K} (l : list (K * V)) k k' : k ≠ k' → dget (dpop l k) k' = dget l k'.
Proof. intros Hne. induction l as [|[k0 v] l IH]; simpl; [done|]. repeat (case_decide; simplify_eq/=); done. Qed.

(** An effect of another client's handler leaves a client alone. *)
Lemma effect_other `{P : Primitives} env who permitted s s' d :
  effect env who permitted s s' → who ≠ Handler d → who ≠ Closer → client d s' = client d s.
Proof.
  intros [d' p Hc Hu Hok Hp|call|call _|x|group session|session|i|c ch role Hw|c ch ms Hw _ _|c [Hw|Hw]| ] H1 H2; try done;
    try (assert (c ≠ d) by congruence).
  - unfold forward_rate_allowed. by destruct (take_token _ _ _ _).
  - unfold event_rate_allowed. by case_match.
  - unfold attach_membership. case_match; [|done]. cbn [snd]. by rewrite client_alter, decide_False.
  - unfold without_member. case_decide.
    + change (client d (alter_client (λ x, set_attachments (dpop (cx_attachments x) ch) x) c (set_channels s (dset (rl_channels s) ch (dpop ms c)))) = client d s).
      by rewrite client_alter, decide_False.
    + by rewrite client_alter, decide_False.
  - by rewrite client_alter, decide_False.
  - unfold prune_connect_tokens, modify. simpl. by case_match.
Qed.

(** C15: Clients are isolated: handling an event of one client, whatever it
    sends and whatever its handler raises, leaves every other client live with
    its context (connection, session, attachments, version, challenge) as it
    was; so do new connections and both sweeps.  Only the shutdown of the
    relay touches all. *)
Theorem clients_are_isolated `{P : Primitives} env e s s' d x :
  relay_reachable s → mints_ok (ev_mints env) → run_event env e s = Some s' →
  e ≠ EShutdown → subject e ≠ Some d → client d s = Some x → client d s' = Some x.
Proof.
  intros Hr Hm Hrun He Hd. pose (T s1 s2 := client d s1 = Some x → client d s2 = Some x).
  assert (PreOrder T) by (split; [intros s1 H; exact H|intros s1 s2 s3; unfold T; auto]). change (T s s').
  assert (Hw : acting e ≠ Handler d ∧ acting e ≠ Closer).
  { unfold acting. destruct (subject e) eqn:E; [split; congruence|]. rewrite decide_False by done. done. }
  assert (Heff : ∀ s1 s2, effect env (acting e) (λ _, entitled e s) s1 s2 → T s1 s2).
  { intros s1 s2 H1 Hx. rewrite <- Hx. destruct Hw. by eapply effect_other. }
  assert (Hsame : ∀ s1 s2, rl_clients s2 = rl_clients s1 → T s1 s2) by (intros s1 s2 E; unfold T, client; by rewrite E).
  assert (Halt : ∀ f c s1, c ≠ d → T s1 (alter_client f c s1)) by (intros f c s1 Hc; unfold T; by rewrite client_alter, decide_False).
  apply (run_event_rule env T e s s' Hm Hrun Heff).
  - intros c Hc. assert (c ≠ d) by congruence. apply (stable_detach env (acting e) (λ _, entitled e s) _ Heff c).
    + unfold acting. by rewrite Hc.
    + intros. by apply entitled_push.
    + intros s1. unfold T, client. simpl. by rewrite dget_dpop_ne.
    + intros i s1. by apply Hsame.
  - destruct e as [remote|c|c data|c data|c| | |]; try done.
    + pose proof (wf_base s (reachable_wf s Hr)) as B. unfold T. intros Hx. pose proof (wf_numbers s B d x Hx) as Hn.
      unfold on_connection, connection_admitted, mbind, M_bind, gets, modify. simpl. destruct (_ <=? _); [done|].
      destruct (take_token _ _ _ _) as [[] b]; [|done]. unfold client in *. simpl. rewrite dget_dset, decide_False; [done|lia].
    + apply Halt. simpl in Hd. congruence.
    + assert (c ≠ d) by (simpl in Hd; congruence). split; intros; [|by apply Halt].
      unfold open_session. unfold T. intros Hx.
      match goal with |- client d (set_by_session ?s2 _) = _ => change (client d s2 = Some x) end.
      by rewrite client_alter, decide_False.
    + by apply Hsame.
Qed.

Lemma clients_are_isolated_witness : ∃ x, client 2 demo_relay = Some x ∧ client 2 demo_after = Some x.
Proof.
  eexists. split; [vm_compute; reflexivity|].
  eapply (clients_are_isolated (demo_env 4 "sess_3") demo_forward demo_relay); [apply demo_reachable|constructor|apply demo_forwards|done|done|vm_compute; reflexivity].
Defined.

(** ** The authorities *)

Definition calls_only `{P : Primitives} (s1 s2 : Relay) : Prop :=
  rtc (auth_step default_config) (rl_groups s1) (rl_groups s2) ∧
  ∃ calls, rl_invites s2 = foldl (run_invite 0) (rl_invites s1) calls.

#[export] Instance calls_only_preorder `{P : Primitives} : PreOrder calls_only.
Proof.
  split.
  - intros s. split; [done|]. by exists [].
  - intros s1 s2 s3 [H1 [l1 E1]] [H2 [l2 E2]]. split; [by etrans|]. exists (l1 ++ l2). by rewrite foldl_app, <- E1.
Qed.

Lemma calls_only_same `{P : Primitives} s1 s2 : rl_groups s2 = rl_groups s1 → rl_invites s2 = rl_invites s1 → calls_only s1 s2.
Proof. intros E1 E2. split; [by rewrite E1|]. by exists []. Qed.

Lemma alter_client_authorities f c s :
  rl_groups (alter_client f c s) = rl_groups s ∧ rl_invites (alter_client f c s) = rl_invites s.
Proof. by destruct (alter_client_eq f c s) as (l & -> & _). Qed.

Lemma effect_calls `{P : Primitives} env who permitted s s' : effect env who permitted s s' → calls_only s s'.
Proof.
  assert (Ha : ∀ f c s1, rl_groups s1 = rl_groups s → rl_invites s1 = rl_invites s → calls_only s (alter_client f c s1)).
  { intros f c s1 E1 E2. destruct (alter_client_authorities f c s1). apply calls_only_same; congruence. }
  intros [d p Hc Hu Hok Hp|call|call Hcall|x|group session|session|i|c ch role Hw|c ch ms Hw _ _|c _| ]; try (by apply calls_only_same).
  - split; [done|]. by exists [call].
  - split; [by apply rtc_once|]. by exists [].
  - unfold forward_rate_allowed. destruct (take_token _ _ _ _). by apply calls_only_same.
  - unfold event_rate_allowed. case_match; by apply calls_only_same.
  - unfold attach_membership. case_match; [by apply Ha|by apply calls_only_same].
  - unfold without_member. case_decide; [|by apply Ha].
    destruct (Ha (λ x, set_attachments (dpop (cx_attachments x) ch) x) c (set_channels s (dset (rl_channels s) ch (dpop ms c)))) as [H1 H2]; done.
  - by apply Ha.
  - unfold prune_connect_tokens, modify. simpl. case_match; by apply calls_only_same.
Qed.

Lemma run_event_calls `{P : Primitives} env e s s' :
  mints_ok (ev_mints env) → run_event env e s = Some s' → calls_only s s'.
Proof.
  intros Hm Hrun. assert (Halt : ∀ f c s1, calls_only s1 (alter_client f c s1)).
  { intros f c s1. destruct (alter_client_authorities f c s1). by apply calls_only_same. }
  apply (run_event_rule env _ e s s' Hm Hrun (effect_calls env _ _)).
  - intros c Hc. apply (stable_detach env (acting e) (λ _, entitled e s) _ (effect_calls env _ _) c).
    + unfold acting. by rewrite Hc.
    + intros. by apply entitled_push.
    + intros s1. by apply calls_only_same.
    + intros i s1. split; [by apply rtc_once, (auth_step_call default_config _ (Disbind i))|]. by exists [].
  - destruct e as [remote|c|c data|c data|c| | |]; try done.
    + unfold on_connection, connection_admitted, mbind, M_bind, gets, modify. simpl. destruct (_ <=? _); [done|].
      destruct (take_token _ _ _ _) as [[] b]; by apply calls_only_same.
    + apply Halt.
    + split; intros; [|apply Halt]. etrans; [|by apply calls_only_same]. etrans; [|apply Halt]. by apply calls_only_same.
    + by apply calls_only_same.
Qed.

Lemma reachable_calls `{P : Primitives} s :
  relay_reachable s → auth_reachable default_config (rl_groups s) ∧ ∃ calls, rl_invites s = foldl (run_invite 0) [] calls.
Proof.
  intros (limits & _ & Hr). assert (H : calls_only (RelayServer_init limits) s); [|exact H].
  induction Hr as [|s1 s2 s3 [env e Hm _ Hrun] _ IH]; [done|]. etrans; [by eapply run_event_calls|exact IH].
Qed.

Lemma reachable_authority_inv `{P : Primitives} `{!PrimitiveLaws P} s : relay_reachable s → authority_inv (rl_groups s).
Proof. intros [Ha _]%reachable_calls. by eapply reachable_inv. Qed.

(** C8: The relay drives its authorities only through their calls: in every
    state it can reach, its groups are those of a run of calls of the group
    authority from nothing, and its invites those of a run of calls of the
    invite authority; so whatever clients send, a hosted group holds at most
    eight seats and queues at most eight operations, and an invite is never
    redeemed more often than its limit. *)
Theorem relay_composes_authorities `{P : Primitives} `{!PrimitiveLaws P} s :
  relay_reachable s →
  auth_reachable default_config (rl_groups s) ∧
  (∃ calls, rl_invites s = foldl (run_invite 0) [] calls) ∧
  (∀ gid g, dget (a_groups (rl_groups s)) gid = Some g →
     (reserved_count g <= MAX_GROUP_MEMBERS)%nat ∧ (length (g_ops g) <= GROUP_MAX_PENDING_OPS)%nat) ∧
  (∀ h e, dget (rl_invites s) h = Some e → 0 <= e_redemptions e <= e_max_redemptions e).
Proof.
  intros Hr. pose proof (reachable_authority_inv s Hr) as A. destruct (reachable_calls s Hr) as [Ha [calls Hc]].
  split; [done|]. split; [eauto|]. split.
  - intros gid g Hg. destruct (ai_inv _ A _ _ Hg) as [_ I]. rewrite (reserved_count_eq g I). split; apply I.
  - intros h e He. assert (Hi : invites_inv (rl_invites s)) by (rewrite Hc; apply run_invites_inv, empty_invites_inv).
    by apply Hi in He as (_ & _ & ?).
Qed.

Lemma relay_composes_authorities_witness : auth_reachable default_config (rl_groups demo_relay).
Proof. apply (relay_composes_authorities demo_relay), demo_reachable. Defined.

(** ** The end of a client *)

Lemma unbind_objs_session g sid l m : l ∈ values (g_members g) → unbind_objs g sid !! l = Some m → m_session m ≠ Some sid.
Proof.
  unfold unbind_objs. generalize (values (g_members g)) (g_objs g). intros ls os.
  revert m. induction ls as [|l' ls IH]; intros m Hl; [set_solver|]. simpl.
  set (f := λ m, if decide (m_session m = Some sid) then _ else m). destruct (decide (l' = l)) as [->|Hne].
  - rewrite lookup_alter_eq. intros H. apply fmap_Some in H as (y & _ & ->). unfold f. case_decide; simpl; congruence.
  - rewrite lookup_alter_ne by done. apply IH. set_solver.
Qed.

Lemma disbind_group_session g sid m : m ∈ roster (disbind_group sid g) → m_session m ≠ Some sid.
Proof.
  intros Hm. unfold roster in Hm. apply list_elem_of_omap in Hm as (l & Hl & Hm). exact (unbind_objs_session g sid l m Hl Hm).
Qed.

Lemma remove_session_live r i : i ∉ rg_live (remove_session r i).
Proof. unfold remove_session. case_decide; [|done]. simpl. rewrite list_elem_of_filter. naive_solver. Qed.

(** C16: A client leaves no trace: when a client with a session is detached
    (its stream ended, it said goodbye, or its handler raised anything at all),
    it is in no table and no channel any more, its session leads nowhere, is
    no longer tracked, has no window and no bucket left, is bound to no
    member and holds no pending admission in any group; and every other client
    is as it was. *)
Theorem detached_client_leaves_no_trace `{P : Primitives} env c s x i :
  relay_reachable s → client c s = Some x → cx_session x = Some i →
  let s' := (detach_client env c s).2 in
  (detach_client env c s).1 = Ok tt ∧ client c s' = None ∧
  (∀ d, d ≠ c → client d s' = client d s) ∧
  (∀ ch ms, dget (rl_channels s') ch = Some ms → c ∉ keys ms) ∧
  (∀ j, dget (rl_by_session s') j ≠ Some c) ∧ dget (rl_by_session s') i = None ∧
  i ∉ rg_live (rl_registry s') ∧ dget (rl_windows s') i = None ∧ (∀ g, dget (rl_forward s') (g, i) = None) ∧
  (∀ gid g, dget (a_groups (rl_groups s')) gid = Some g →
     (∀ m, m ∈ roster g → m_session m ≠ Some i) ∧ (∀ k pj, (k, pj) ∈ g_pending g → pj_redeem_session pj ≠ i)).
Proof.
  intros Hr Hx Hi. pose proof (reachable_wf s Hr) as W. destruct W as [B A D].
  assert (D' : bound_but (Some c) s) by (intros j d y _; by apply D).
  destruct (detach_result env c s x B A D' Hx) as (s1 & D1 & W1 & _ & E).
  rewrite Hi in E. rewrite E. cbn [fst snd]. pose proof (wf_base s1 W1) as B1.
  assert (Hb : dict_wf (rl_by_session s1)) by by apply wf_by_session.
  split; [done|]. split; [apply (dp_gone _ _ _ _ D1)|]. split; [apply (dp_others _ _ _ _ D1)|]. split.
  { intros ch ms Hms Hc. apply dget_is_Some in Hc as [role Hc].
    assert (Hm : member_role s1 ch c = Some role) by (unfold member_role; apply bind_Some; by exists ms).
    pose proof (dp_left _ _ _ _ D1 ch ltac:(eauto)). set_solver. }
  split.
  { intros j Hj. simpl in Hj. rewrite dget_dpop in Hj by done. case_decide; [done|].
    rewrite (dp_sessions _ _ _ _ D1) in Hj. pose proof (D j c x ltac:(done) Hj Hx). congruence. }
  split; [simpl; by rewrite dget_dpop, decide_True|]. split; [apply remove_session_live|].
  split; [simpl; rewrite dget_dpop, decide_True by (done || by apply wf_windows); done|]. split.
  { intros g. simpl. destruct (dget (filter _ _) (g, i)) as [b|] eqn:Hf; [|done].
    apply dget_filter in Hf as [_ Hf]; [done|by apply wf_forward]. }
  intros gid g Hg. simpl in Hg. rewrite dget_fmap in Hg. apply fmap_Some in Hg as (g0 & _ & ->). split.
  - intros m. apply disbind_group_session.
  - intros k pj Hk. simpl in Hk. apply list_elem_of_filter in Hk as [Hk _]. exact Hk.
Qed.

Lemma detached_client_leaves_no_trace_witness :
  ∃ x, client 1 demo_relay = Some x ∧ cx_session x = Some "sess_1" ∧ client 1 (detach_client (demo_env 5 "sess_3") 1 demo_relay).2 = None.
Proof.
  eexists. split; [vm_compute; reflexivity|]. split; [reflexivity|].
  eapply (detached_client_leaves_no_trace (demo_env 5 "sess_3") 1 demo_relay); [apply demo_reachable|vm_compute; reflexivity|reflexivity].
Defined.

(** ** Redeeming a group invite *)

Lemma dset_dset {K V} `{EqDecision K} (l : list (K * V)) k v w : dset (dset l k v) k w = dset l k w.
Proof. induction l as [|[k0 v0] l IH]; simpl; [by rewrite decide_True|]. case_decide; simpl; [by rewrite decide_True|]. rewrite decide_False by done. by rewrite IH. Qed.

Lemma dset_same {K V} `{EqDecision K} (l : list (K * V)) k v : dget l k = Some v → dset l k v = l.
Proof. induction l as [|[k0 v0] l IH]; simpl; [done|]. case_decide; [intros [= ->]; done|]. intros Hk. by rewrite IH. Qed.

Lemma dpop_dset {K V} `{EqDecision K} (l : list (K * V)) k v : dget l k = None → dpop (dset l k v) k = l.
Proof. induction l as [|[k0 v0] l IH]; simpl; [by rewrite decide_True|]. case_decide; [done|]. intros Hk. simpl. rewrite decide_False by done. by rewrite IH. Qed.

Lemma set_pending_same g : set_pending g (g_pending g) = g.
Proof. by destruct g. Qed.

(** What [begin_join_redemption] does when it admits. *)
Lemma begin_join_Ok a gid session invite now sn a' :
  authority_inv a → begin_join_redemption a gid session invite now = (Ok sn, a') →
  ∃ g, dget (a_groups a) gid = Some g ∧ g_group_id g = gid ∧ dget (g_pending g) session = None ∧
    (reserved_count g < MAX_GROUP_MEMBERS)%nat ∧
    a' = put_group a (set_pending g (dset (g_pending g) session (mkPending session invite now))).
Proof.
  intros A. unfold begin_join_redemption. destruct (GroupAuthority.require a gid) as [g|] eqn:Hg; [|done].
  apply (require_inv a gid g A) in Hg as (Hg & Hid & _). destruct (require_active_group g); [|done].
  destruct (dmem (g_pending g) session) eqn:Hp; [done|]. cbn [negb guard_or].
  destruct (MAX_GROUP_MEMBERS <=? reserved_count g)%nat eqn:Hc; [done|]. cbn [negb guard_or].
  intros [= <- <-]. exists g. apply dmem_false in Hp. apply Nat.leb_gt in Hc. done.
Qed.

Lemma begin_join_Err a gid session invite now e a' : begin_join_redemption a gid session invite now = (Err e, a') → a' = a.
Proof. unfold begin_join_redemption. repeat (case_match; [|by intros [= _ <-]]). done. Qed.

Lemma cancel_restores a gid g session invite now :
  dget (a_groups a) gid = Some g → g_group_id g = gid → dget (g_pending g) session = None →
  cancel_pending_join (put_group a (set_pending g (dset (g_pending g) session (mkPending session invite now)))) gid session = a.
Proof.
  intros Hg Hid Hp. unfold cancel_pending_join, put_group, set_groups. simpl. rewrite Hid, dget_dset, decide_True by done. simpl.
  rewrite Hid, dset_dset. rewrite dpop_dset by done.
  assert (E : set_pending (set_pending g (dset (g_pending g) session (mkPending session invite now))) (g_pending g) = g) by by destruct g.
  rewrite E, dset_same by done. by destruct a.
Qed.

Lemma send_authorities env d build s : rl_groups (send env d build s).2 = rl_groups s ∧ rl_invites (send env d build s).2 = rl_invites s.
Proof. by destruct (send_wire env d build s) as (r & l & ->). Qed.

Lemma verdict_error_authorities env c r s :
  rl_groups (verdict_error env c r s).2 = rl_groups s ∧ rl_invites (verdict_error env c r s).2 = rl_invites s.
Proof. unfold verdict_error. case_match; [apply send_authorities|done]. Qed.

Lemma redeem_refused `{P : Primitives} i token session now :
  rr_verdict (redeem i token session now).1 ≠ Invites.REDEEMED → (redeem i token session now).2 = i.
Proof. unfold redeem. by repeat case_match. Qed.

Lemma redeem_granted `{P : Primitives} i token session now :
  rr_verdict (redeem i token session now).1 = Invites.REDEEMED →
  ∃ h e, lookup_entry i token = Some (h, e) ∧ e_revoked e = false ∧ now < e_expires_monotonic e ∧
    e_redemptions e < e_max_redemptions e ∧ (redeem i token session now).2 = dset i h (consume e session now).
Proof.
  unfold redeem. destruct (lookup_entry i token) as [[h e]|]; [|done]. destruct (e_revoked e) eqn:Hr; [done|].
  unfold expired, exhausted. destruct (Z.leb_spec (e_expires_monotonic e) now); [done|].
  destruct (Z.leb_spec (e_max_redemptions e) (e_redemptions e)); [done|]. intros _. by exists h, e.
Qed.

(** C17: Redeeming a group invite is all or nothing: either neither
    authority changed (the version was too old, the group refused, or the
    invite turned out expired, revoked, used up or unknown and the reserved
    seat was given back), or the group had a seat free and no admission
    pending for this session, the invite was usable, and exactly one use of it
    was consumed and exactly this session's admission added.  What happens
    to the answer on the wire changes neither. *)
Theorem group_redeem_is_atomic `{P : Primitives} `{!PrimitiveLaws P} env c x token group s :
  relay_reachable s →
  let s' := (handle_group_redeem env c x token group s).2 in
  let now := ev_now env in
  (rl_groups s' = rl_groups s ∧ rl_invites s' = rl_invites s) ∨
  (∃ g h e, dget (a_groups (rl_groups s)) group = Some g ∧ (reserved_count g < MAX_GROUP_MEMBERS)%nat ∧
     dget (g_pending g) (session_id x) = None ∧
     rl_groups s' = put_group (rl_groups s) (set_pending g (g_pending g ++
       [(session_id x, mkPending (session_id x) (public_invite_id token) now)])) ∧
     lookup_entry (rl_invites s) token = Some (h, e) ∧ e_revoked e = false ∧ now < e_expires_monotonic e ∧
     e_redemptions e < e_max_redemptions e ∧
     rl_invites s' = dset (rl_invites s) h (consume e (session_id x) now)).
Proof.
  intros A%reachable_authority_inv s' now. assert (Es : s' = (handle_group_redeem env c x token group s).2) by done.
  clearbody s'. revert Es. unfold handle_group_redeem.
  destruct (cx_protocol x <? GROUP_PROTOCOL_VERSION); [intros ->; left; apply send_authorities|].
  unfold mbind at 1, M_bind at 1, on_groups.
  destruct (begin_join_redemption _ _ _ _ _) as [[sn|e] a] eqn:Hb.
  2:{ apply begin_join_Err in Hb as ->. intros ->. left. unfold refuse. destruct (group_error_code e) as [code|]; [|done].
      unfold invite_error. match goal with |- context [send env c ?b ?s1] => by destruct (send_authorities env c b s1) as [-> ->] end. }
  apply begin_join_Ok in Hb as (g & Hg & Hid & Hp & Hcap & ->); [|done].
  unfold mbind at 1, M_bind at 1, redeem_invite. simpl rl_invites.
  destruct (redeem (rl_invites s) token (session_id x) (ev_now env)) as [r i] eqn:Hred.
  destruct (bool_decide (rr_verdict r = Invites.REDEEMED)) eqn:Hv; cbn [negb].
  - intros ->. right. apply bool_decide_eq_true in Hv. pose proof (redeem_granted (rl_invites s) token (session_id x) (ev_now env)) as Hok.
    rewrite Hred in Hok. destruct (Hok Hv) as (h & e & H1 & H2 & H3 & H4 & H5). exists g, h, e.
    match goal with |- context [send env c ?b ?s1] => destruct (send_authorities env c b s1) as [-> ->] end. simpl.
    unfold now. rewrite <- (dset_new (g_pending g) (session_id x)) by (by apply dget_None). by repeat split.
  - intros ->. left. apply bool_decide_eq_false in Hv. pose proof (redeem_refused (rl_invites s) token (session_id x) (ev_now env)) as Hno.
    rewrite Hred in Hno. specialize (Hno Hv). simpl in Hno. subst i. unfold mbind, M_bind, modify. simpl.
    match goal with |- context [verdict_error env c r ?s1] => destruct (verdict_error_authorities env c r s1) as [-> ->] end. simpl.
    split; [by apply cancel_restores|done].
Qed.

(** ** Delivery *)

Lemma counterparty_of_two (ms : members) c d rc rd :
  (length ms <= 2)%nat → dget ms c = Some rc → dget ms d = Some rd → c ≠ d → counterparty ms c = Some (d, rd).
Proof.
  intros Hl Hc Hd Hne. unfold counterparty. destruct ms as [|[a ra] [|[b rb] [|]]]; [done| | |simpl in Hl; lia];
    simpl in Hc, Hd; unfold filter, list_filter; cbn [fst]; repeat case_decide; simplify_eq/=; try done.
  change (head (filter (λ x : Z * string, x.1 ≠ c) [(d, rd)] : list (Z * string)) = Some (d, rd)). by rewrite filter_cons_True by (simpl; congruence).
Qed.

Lemma forward_request_payload p ch body :
  request_of p = Some (QForward ch body) →
  pk_type p = FORWARD ∧ field (pk_payload p) "channel" = Some (JStr ch) ∧ field (pk_payload p) "body" = Some (JStr body).
Proof.
  unfold request_of, uni_field. destruct (pk_type p) eqn:Ht; intros H;
    try (repeat (apply bind_Some in H as (? & _ & H) || apply fmap_Some in H as (? & _ & H)); by simplify_eq).
  apply bind_Some in H as (? & H1 & H). apply bind_Some in H as (? & H2 & H).
  destruct (field (pk_payload p) "channel") as [[]|]; simplify_eq/=.
  destruct (field (pk_payload p) "body") as [[]|]; simplify_eq/=. done.
Qed.

(** A body is delivered: when two live clients are attached to one
    channel and both are connected, a FORWARD of the one, whatever the
    identifier and the extra fields of its packet, puts exactly one packet on
    the wire: the body, unchanged, to the other; and it leaves clients,
    channels, groups and invites as they were. *)
Theorem forward_is_delivered `{P : Primitives} env c d x y ch body data p s :
  relay_reachable s → d ≠ c →
  client c s = Some x → cx_conn x = Open → is_Some (cx_session x) → is_Some (dget (cx_attachments x) ch) →
  client d s = Some y → cx_conn y = Open → is_Some (dget (cx_attachments y) ch) → ev_up env d = true →
  decode_packet data = Ok p → request_of p = Some (QForward ch body) → stamp_ok (ev_stamp env (length (rl_wire s))) →
  ∃ s', run_event env (EData c data) s = Some s' ∧
    rl_wire s' = rl_wire s ++ [(d, forward_packet ch body (ev_stamp env (length (rl_wire s))))] ∧
    rl_clients s' = rl_clients s ∧ rl_channels s' = rl_channels s ∧ rl_groups s' = rl_groups s ∧ rl_invites s' = rl_invites s.
Proof.
  intros [B A D]%reachable_wf Hne Hx Hox Hsx [rc Hac] Hy Hoy [rd Had] Hup Hp Hq Hst.
  assert (Hms : ∃ ms, dget (rl_channels s) ch = Some ms ∧ dget ms c = Some rc ∧ dget ms d = Some rd).
  { pose proof (A c ch ltac:(done)) as Hc. pose proof (A d ch ltac:(done)) as Hd. unfold attached_role in *.
    rewrite Hx in Hc. rewrite Hy in Hd. simpl in Hc, Hd. rewrite Hac in Hc. rewrite Had in Hd.
    unfold member_role in *. apply bind_Some in Hc as (ms & E1 & E2). rewrite E1 in Hd. eauto. }
  destruct Hms as (ms & Hms & Hmc & Hmd). destruct (wf_members s B ch ms Hms) as [_ [_ Hlen]].
  destruct (forward_request_payload p ch body Hq) as (Ht & Hfc & Hfb).
  destruct (decode_packet_Ok data p Hp) as (_ & _ & Hv). rewrite Ht in Hv.
  destruct (forward_copy_encodes _ ch body (ev_stamp env (length (rl_wire s))) Hv Hfc Hfb Hst) as [raw Henc].
  simpl. rewrite Hx. simpl. rewrite decide_True by done. unfold dispatch. rewrite Hp, Hq. simpl. eexists. split; [done|].
  unfold serve, mbind, M_bind. destruct (touch_session_eq env x s) as (g & -> & _). cbn [serve_request].
  unfold handle_forward, mbind, M_bind, gets. cbn [rl_channels set_registry]. rewrite Hms.
  rewrite (proj2 (dmem_spec ms c)) by (apply dget_is_Some; eauto). cbn [negb].
  rewrite (counterparty_of_two ms c d rc rd) by done. unfold client in *. cbn [rl_clients set_registry]. rewrite Hy. simpl. rewrite Hoy.
  unfold send, client. cbn [rl_clients set_registry rl_wire]. rewrite Hy. simpl. rewrite Hoy, Henc, bool_decide_true, Hup by done. done.
Qed.

Lemma forward_is_delivered_witness :
  ∃ s', run_event (demo_env 4 "sess_3") demo_forward demo_relay = Some s' ∧
    rl_wire s' = rl_wire demo_relay ++ [(2, forward_packet (cp demo_room) demo_body (ev_stamp (demo_env 4 "sess_3") (length (rl_wire demo_relay))))] ∧
    rl_clients s' = rl_clients demo_relay ∧ rl_channels s' = rl_channels demo_relay ∧ rl_groups s' = rl_groups demo_relay ∧ rl_invites s' = rl_invites demo_relay.
Proof.
  eapply (forward_is_delivered (demo_env 4 "sess_3") 1 2 _ _ (cp demo_room) demo_body (wire_bytes (forward_packet (cp demo_room) demo_body)));
    [exact demo_reachable|done|vm_compute; reflexivity|reflexivity|vm_compute; eauto|vm_compute; eauto|vm_compute; reflexivity|reflexivity
    |vm_compute; eauto|reflexivity|vm_compute; reflexivity|vm_compute; reflexivity|].
  split; [reflexivity|]. exists (cp "1.5"). split; [reflexivity|]. vm_compute. lia.
Defined.
