(* ===== verification/RelayRates.v ===== *)
(** * The brakes of the relay

    The token buckets and the sliding window of [transport/relay/server.py]
    over any sequence of calls, whatever groups and sessions they are for. *)

From Stdlib Require Import Sorting.Sorted.
From S2P Require Import Prelude Text Utf8 Primitives Ids Events GroupAuthority Invites Json ChannelFrames RelayPackets RelayState RelayServer RelayInvariant.

Open Scope Z_scope.

(** ** Token buckets *)

(** The tokens a bucket offers at a time. *)
Definition available (rate burst now : Z) (bucket : option (Z * Z)) : Z :=
  match bucket with None => burst * MICRO | Some (tokens, stamped) => Z.min (burst * MICRO) (tokens + (now - stamped) * rate) end.

Lemma take_token_eq rate burst now bucket :
  0 <= burst →
  take_token rate burst now bucket =
    if available rate burst now bucket <? MICRO then (false, (available rate burst now bucket, now))
    else (true, (available rate burst now bucket - MICRO, now)).
Proof.
  intros Hb. unfold take_token, available. destruct bucket as [[t st]|]; simpl; [done|].
  replace (Z.min (burst * MICRO) (burst * MICRO + (now - now) * rate)) with (burst * MICRO); [done|]. unfold MICRO. lia.
Qed.

Lemma available_grows rate burst now now' bucket :
  0 <= rate → now <= now' → available rate burst now' bucket <= available rate burst now bucket + (now' - now) * rate.
Proof. intros Hr Hn. unfold available. destruct bucket as [[t st]|]; nia. Qed.

(** Calls of [_forward_rate_allowed], and how many of one sender in one group
    were let through. *)
Fixpoint forwards_allowed (key : string * string) (l : list (Env * string * string)) (s : Relay) : Z :=
  match l with
  | [] => 0
  | (env, group, session) :: l' =>
      let '(r, s') := forward_rate_allowed env group session s in
      (if decide ((group, session) = key) then (match r with Ok true => 1 | _ => 0 end) else 0) + forwards_allowed key l' s'
  end.

Lemma forwards_allowed_bound key t1 : ∀ l s t0,
  Sorted Z.le (t0 :: ((λ x, ev_now x.1.1) <$> l)) → Forall (λ x, ev_now x.1.1 <= t1) l → t0 <= t1 →
  0 <= available GROUP_FORWARD_RATE_PER_SECOND GROUP_FORWARD_RATE_BURST t0 (dget (rl_forward s) key) →
  (∀ t, t0 <= t → available GROUP_FORWARD_RATE_PER_SECOND GROUP_FORWARD_RATE_BURST t0 (dget (rl_forward s) key) <=
     available GROUP_FORWARD_RATE_PER_SECOND GROUP_FORWARD_RATE_BURST t (dget (rl_forward s) key)) →
  forwards_allowed key l s * MICRO <=
    available GROUP_FORWARD_RATE_PER_SECOND GROUP_FORWARD_RATE_BURST t0 (dget (rl_forward s) key)
    + (t1 - t0) * GROUP_FORWARD_RATE_PER_SECOND.
Proof.
  assert (Hrate : 0 <= GROUP_FORWARD_RATE_PER_SECOND) by done. assert (HM : 0 <= MICRO) by done.
  induction l as [|[[env g] i] l IH]; intros s t0 Hs Ht H01 Hav Hmon; simpl.
  { unfold GROUP_FORWARD_RATE_PER_SECOND, MICRO in *. lia. }
  apply Sorted_inv in Hs as [Hs Hhd]. apply HdRel_inv in Hhd. simpl in Hhd. apply Forall_cons in Ht as [Ht1 Ht]. simpl in Ht1.
  pose proof (available_grows _ GROUP_FORWARD_RATE_BURST t0 (ev_now env) (dget (rl_forward s) key) Hrate Hhd) as Hg.
  pose proof (Hmon (ev_now env) Hhd) as Hge.
  unfold forward_rate_allowed. rewrite take_token_eq by done.
  set (av := available GROUP_FORWARD_RATE_PER_SECOND GROUP_FORWARD_RATE_BURST) in *.
  assert (Hnew : ∀ b, 0 <= b <= GROUP_FORWARD_RATE_BURST * MICRO →
    av (ev_now env) (Some (b, ev_now env)) = b ∧ ∀ t, ev_now env <= t → b <= av t (Some (b, ev_now env))).
  { intros b Hb. unfold av, available, GROUP_FORWARD_RATE_BURST, GROUP_FORWARD_RATE_PER_SECOND, MICRO in *. split; [lia|]. intros t Htt. lia. }
  assert (Hcap : av (ev_now env) (dget (rl_forward s) (g, i)) <= GROUP_FORWARD_RATE_BURST * MICRO).
  { unfold av, available. destruct (dget (rl_forward s) (g, i)) as [[t st]|]; lia. }
  destruct (decide ((g, i) = key)) as [<-|Hne].
  - set (a := av (ev_now env) (dget (rl_forward s) (g, i))) in *. destruct (Z.ltb_spec a MICRO).
    + destruct (Hnew a ltac:(lia)) as [E1 E2].
      specialize (IH (set_forward s (dset (rl_forward s) (g, i) (a, ev_now env))) (ev_now env)).
      cbn [rl_forward set_forward] in IH. rewrite dget_dset, decide_True in IH by done. rewrite E1 in IH.
      specialize (IH Hs Ht Ht1 ltac:(lia) E2). unfold GROUP_FORWARD_RATE_PER_SECOND, MICRO in *. lia.
    + destruct (Hnew (a - MICRO) ltac:(lia)) as [E1 E2].
      specialize (IH (set_forward s (dset (rl_forward s) (g, i) (a - MICRO, ev_now env))) (ev_now env)).
      cbn [rl_forward set_forward] in IH. rewrite dget_dset, decide_True in IH by done. rewrite E1 in IH.
      specialize (IH Hs Ht Ht1 ltac:(lia) E2). unfold GROUP_FORWARD_RATE_PER_SECOND, MICRO in *. lia.
  - assert (Hoth : ∀ b, forwards_allowed key l (set_forward s (dset (rl_forward s) (g, i) b)) * MICRO <=
      av (ev_now env) (dget (rl_forward s) key) + (t1 - ev_now env) * GROUP_FORWARD_RATE_PER_SECOND).
    { intros b. specialize (IH (set_forward s (dset (rl_forward s) (g, i) b)) (ev_now env)).
      cbn [rl_forward set_forward] in IH. rewrite dget_dset, decide_False in IH by done. apply IH; try done; [lia|].
      intros t Htt. unfold av, available, GROUP_FORWARD_RATE_PER_SECOND. destruct (dget (rl_forward s) key) as [[tk st]|]; lia. }
    destruct (av (ev_now env) (dget (rl_forward s) (g, i)) <? MICRO); simpl; [specialize (Hoth (av (ev_now env) (dget (rl_forward s) (g, i)), ev_now env))
      |specialize (Hoth (av (ev_now env) (dget (rl_forward s) (g, i)) - MICRO, ev_now env))]; unfold GROUP_FORWARD_RATE_PER_SECOND, MICRO in *; lia.
Qed.

(** C27: No sender floods a group: over any stretch of time, from the
    moment a sender's bucket is fresh, at most 20 envelopes plus 20 per second of
    one session are let through to one group, however the calls of others
    are interleaved. *)
Theorem forwards_are_limited key l s t0 t1 :
  dget (rl_forward s) key = None →
  Sorted Z.le (t0 :: ((λ x, ev_now x.1.1) <$> l)) → Forall (λ x, ev_now x.1.1 <= t1) l → t0 <= t1 →
  forwards_allowed key l s * MICRO <= 20 * MICRO + (t1 - t0) * 20.
Proof.
  intros Hn Hs Ht H01. pose proof (forwards_allowed_bound key t1 l s t0 Hs Ht H01) as H. rewrite Hn in H.
  simpl in H. apply H; [done|]. done.
Qed.

(** ** The sliding window *)

(** Calls of [_event_rate_allowed], and when those of one session were let
    through. *)
Fixpoint operations_allowed (key : string) (l : list (Env * string)) (s : Relay) : list Z :=
  match l with
  | [] => []
  | (env, session) :: l' =>
      let '(r, s') := event_rate_allowed env session s in
      (if decide (session = key) then (match r with Ok true => [ev_now env] | _ => [] end) else []) ++ operations_allowed key l' s'
  end.

(** The window holds the last admissions; those before it are old. *)
Definition window_of (adm w : list Z) (now : Z) : Prop :=
  ∃ old, adm = old ++ w ∧ Forall (λ t, GROUP_EVENT_RATE_WINDOW < now - t) old.

(** Five admissions in a row never fit the window. *)
Definition spaced (adm : list Z) : Prop :=
  ∀ k t t', adm !! k = Some t → adm !! (k + 4)%nat = Some t' → GROUP_EVENT_RATE_WINDOW < t' - t.

Lemma slide_window adm w now now' : window_of adm w now → now <= now' → window_of adm (slide now' w) now'.
Proof.
  intros (old & -> & Hold) Hn. assert (Hold' : Forall (λ t, GROUP_EVENT_RATE_WINDOW < now' - t) old) by (eapply Forall_impl; [exact Hold|simpl; lia]).
  clear Hold. unfold slide. revert old Hold'. induction w as [|t w IH]; intros old Hold; simpl; [by exists old|].
  destruct (GROUP_EVENT_RATE_WINDOW <? now' - t) eqn:Ht; [|by exists old]. breflect. destruct (IH (old ++ [t])) as (o & E & Ho).
  - apply Forall_app. split; [done|]. by apply Forall_singleton.
  - exists o. split; [|done]. by rewrite <- E, <- app_assoc.
Qed.

Lemma spaced_snoc adm w now : spaced adm → window_of adm w now → (length w < 4)%nat → spaced (adm ++ [now]).
Proof.
  intros Hs (old & -> & Hold) Hw k t t' Hk Hk'.
  destruct (decide (k + 4 < length (old ++ w))%nat) as [Hlt|Hge].
  - rewrite lookup_app_l in Hk by lia. rewrite lookup_app_l in Hk' by lia. by eapply Hs.
  - apply lookup_lt_Some in Hk' as Hl. rewrite length_app in Hl. simpl in Hl.
    rewrite lookup_app_r in Hk' by lia. replace (k + 4 - length (old ++ w))%nat with 0%nat in Hk' by lia. simpl in Hk'. simplify_eq.
    rewrite length_app in Hl, Hge. rewrite lookup_app_l in Hk by (rewrite length_app; lia). rewrite lookup_app_l in Hk by lia.
    rewrite Forall_forall in Hold. apply Hold. by eapply list_elem_of_lookup_2.
Qed.

Lemma operations_spaced key : ∀ l s t0 adm,
  Sorted Z.le (t0 :: ((λ x, ev_now x.1) <$> l)) → spaced adm → window_of adm (default [] (dget (rl_windows s) key)) t0 →
  spaced (adm ++ operations_allowed key l s).
Proof.
  induction l as [|[env i] l IH]; intros s t0 adm Hs Hsp Hw; simpl; [by rewrite app_nil_r|].
  apply Sorted_inv in Hs as [Hs Hhd]. apply HdRel_inv in Hhd. simpl in Hhd.
  unfold event_rate_allowed. destruct (decide (i = key)) as [->|Hne].
  - pose proof (slide_window _ _ _ _ Hw Hhd) as Hw'. set (w := slide (ev_now env) _) in *. destruct (GROUP_EVENT_RATE_OPS <=? length w)%nat eqn:Hlen; breflect.
    + simpl. apply (IH _ (ev_now env)); [done|done|]. simpl. by rewrite dget_dset, decide_True.
    + rewrite app_assoc. apply (IH _ (ev_now env)); [done|by eapply spaced_snoc|]. simpl. rewrite dget_dset, decide_True by done. simpl.
      destruct Hw' as (old & -> & Hold). exists old. by rewrite app_assoc.
  - destruct (GROUP_EVENT_RATE_OPS <=? _)%nat; simpl; apply (IH _ (ev_now env)); try done; simpl; rewrite dget_dset, decide_False by done;
      destruct Hw as (old & -> & Hold); exists old; (split; [done|]); (eapply Forall_impl; [exact Hold|simpl; lia]).
Qed.

(** Membership operations are paced: of the leave, remove and dissolve
    requests of one session, whatever others do in between, any five that
    were let through span more than the window of 10 seconds. *)
Theorem operations_are_paced key l s t0 k t t' :
  dget (rl_windows s) key = None → Sorted Z.le (t0 :: ((λ x, ev_now x.1) <$> l)) →
  operations_allowed key l s !! k = Some t → operations_allowed key l s !! (k + 4)%nat = Some t' →
  10 * MICRO < t' - t.
Proof.
  intros Hn Hs. apply (operations_spaced key l s t0 []); [done|done|]. rewrite Hn. by exists [].
Qed.

(** ** The table of connections *)

Lemma prune_nothing burst now todo d : Forall (λ x, bucket_used burst x.2) todo → prune burst now todo d = d.
Proof.
  induction 1 as [|[h [t st]] todo Hx _ IH]; [done|]. simpl. unfold bucket_used in Hx. simpl in Hx.
  rewrite (proj2 (Z.leb_gt _ _) Hx). simpl. by case_match.
Qed.

(** The pruning of connection buckets prunes nothing: a bucket is pruned
    only when it is full, a bucket that is stored was just used, and refilling
    happens only on the next use; so in every state the relay can reach,
    [_prune_connect_tokens] leaves the table as it is, however large. *)
Theorem prune_never_prunes `{P : Primitives} env s :
  relay_reachable s → (prune_connect_tokens env s).2 = s.
Proof.
  intros W%reachable_wf. pose proof (wf_base s W) as B. unfold prune_connect_tokens, modify. simpl. case_match; [done|].
  rewrite prune_nothing; [by destruct s|]. apply Forall_forall. intros [h b] Hb. simpl.
  eapply (wf_connect_bucket s B), elem_dget; [by apply wf_connect|done].
Qed.

(** ** Witnesses *)

Definition rate_env (n : Z) : Env :=
  mkEnv n n (λ _, true) (λ _, cp "1.5") (λ _, cp "1.0") (λ _, (cp "0123456789abcdef", JFloat (cp "1.5"))) (cp "Invalid packet")
    "op" [] "sess" "nonce".
Definition rate_relay : Relay := RelayServer_init (mkLimits (300 * MICRO) (JFloat (cp "15.0")) "ghostlink-relay" 1024 40 80).

Lemma forwards_are_limited_witness :
  forwards_allowed ("g", "a") (repeat (rate_env 0, "g", "a") 25) rate_relay = 20 ∧
  forwards_allowed ("g", "a") (repeat (rate_env 0, "g", "a") 25) rate_relay * MICRO <= 20 * MICRO + (0 - 0) * 20.
Proof.
  split; [vm_compute; reflexivity|]. apply forwards_are_limited; [reflexivity| | |lia].
  - simpl. repeat constructor; apply Z.le_refl.
  - simpl. repeat constructor; apply Z.le_refl.
Defined.

Lemma operations_are_paced_witness :
  ∃ t t', operations_allowed "a" [(rate_env 0, "a"); (rate_env 1, "a"); (rate_env 2, "a"); (rate_env 3, "a"); (rate_env 4, "a");
      (rate_env 10000001, "a")] rate_relay = [0; 1; 2; 3; 10000001] ∧ t = 0 ∧ t' = 10000001 ∧ 10 * MICRO < t' - t.
Proof.
  exists 0, 10000001. split; [vm_compute; reflexivity|]. do 2 (split; [reflexivity|]).
  apply (operations_are_paced "a" [(rate_env 0, "a"); (rate_env 1, "a"); (rate_env 2, "a"); (rate_env 3, "a"); (rate_env 4, "a");
      (rate_env 10000001, "a")] rate_relay 0 0); [reflexivity| |vm_compute; reflexivity|vm_compute; reflexivity].
  simpl. repeat constructor; simpl; lia.
Defined.

Lemma prune_never_prunes_witness : (prune_connect_tokens (rate_env 0) rate_relay).2 = rate_relay.
Proof.
  apply prune_never_prunes. exists (mkLimits (300 * MICRO) (JFloat (cp "15.0")) "ghostlink-relay" 1024 40 80).
  split; [vm_compute; discriminate|]. apply rtc_refl.
Defined.
