(* ===== verification/RelayScenario.v ===== *)
(** * Scenarios of the relay

    Runs of the relay on concrete packets: a group from its creation to its
    first envelope, and the runs that show where the relay does not do what
    it means to.  Identities are those of the group scenario. *)

From S2P Require Import Prelude Text Utf8 Primitives Ids Events GroupAuthority GroupInvariant GroupSpec GroupTheorems Invites Json ChannelFrames RelayPackets RelayState RelayServer RelayEffects RelaySteps RelayInvariant RelayTheorems.

Open Scope Z_scope.

(** ** A group over the wire *)

Definition nonce0 : string := "00112233445566778899aabbccddeeff".
Definition group_env (n : Z) (session : string) : Env :=
  mkEnv (n * MICRO) (n * MICRO) (λ _, true) (λ _, cp "1.5") (λ _, cp "1.0") (λ _, (cp "0123456789abcdef", JFloat (cp "1.5")))
    (cp "Invalid packet") "op-000000001" scenario_draws session nonce0.
Definition demo_token : string := "AAAAAAAAAAAAAAAAAAAA".

(** What a client can read of the last packet it was sent. *)
Definition last_to (c : Z) (s : Relay) : option Packet := snd <$> last (filter (λ x, x.1 = c) (rl_wire s)).
Definition last_text (c : Z) (name : string) (s : Relay) : option string :=
  p ← last_to c s; str_field (pk_payload p) name.

(** Alice (client 1) creates a group and mints an invite. *)
Definition group_script : list (Env * event) :=
  demo_script ++
  [(group_env 4 "sess_3", EData 1 (wire_bytes (group_create_packet "ops" (key_hex_of 1)
      (sign_as 1 (canonical_create_form "ops" nonce0)) (handle_of 1) "alice" "mesh-v1")));
   (group_env 5 "sess_3", EData 1 (wire_bytes (invite_create_packet demo_token "" (JFloat (cp "600.0")) 1 "group" scenario_gid)))].

Definition group_relay : Relay := default (RelayServer_init demo_limits) (run_script group_script (RelayServer_init demo_limits)).

Lemma group_runs : run_script group_script (RelayServer_init demo_limits) = Some group_relay.
Proof. vm_compute. reflexivity. Qed.

Lemma scenario_mints : mints_ok scenario_draws.
Proof. apply Forall_singleton. split; [reflexivity|]. apply Forall_replicate. unfold draw_ok. lia. Qed.

Lemma group_reachable : relay_reachable group_relay.
Proof.
  eapply run_script_reachable; [| |apply group_runs]; [|by apply init_reachable].
  apply Forall_app. split; [apply demo_mints|]. constructor; [apply scenario_mints|]. constructor; [apply scenario_mints|]. constructor.
Qed.

(** Bob (client 2) redeems it, attests, and Alice countersigns. *)
Definition admit_script : list (Env * event) :=
  [(group_env 6 "sess_3", EData 2 (wire_bytes (redeem_packet demo_token)));
   (group_env 7 "sess_3", EData 2 (wire_bytes (group_attest_packet scenario_gid (key_hex_of 2)
      (sign_as 2 (canonical_attest_form scenario_gid (fp_of 2) nonce0)) (handle_of 2) "bob")))].

Definition asked_relay : Relay := default group_relay (run_script admit_script group_relay).

(** The bytes Alice is asked to sign. *)
Definition asked_bytes : bytes := default [] (last_text 1 "message" asked_relay ≫= b64decode).

Definition member_script : list (Env * event) :=
  [(group_env 8 "sess_3", EData 1 (wire_bytes (group_sign_packet scenario_gid "op-000000001" (sign_as 1 asked_bytes))));
   (group_env 9 "sess_3", EData 1 (wire_bytes (group_forward_packet scenario_gid 2 (fp_of 1) (fp_of 2) "msg" "aGVsbG8=")))].

Definition member_relay : Relay := default asked_relay (run_script member_script asked_relay).

(** The whole run: redeemed, attested, asked, signed, announced to both, and
    the envelope reaches Bob as Alice sent it. *)
Example group_over_the_wire :
  last ((λ x, (x.1, pk_type x.2)) <$> rl_wire asked_relay) = Some (1, GROUP_SIGN_REQUEST) ∧
  (λ x, (x.1, pk_type x.2)) <$> drop (length (rl_wire asked_relay)) (rl_wire member_relay) =
    [(1, GROUP_EVENT); (2, GROUP_EVENT); (2, GROUP_FORWARD)] ∧
  last_to 2 member_relay = Some (group_forward_packet scenario_gid 2 (fp_of 1) (fp_of 2) "msg" "aGVsbG8=" demo_stamp).
Proof. vm_compute. auto. Qed.

Lemma bob_context : client 2 group_relay = Some (default (mkContext "" Closed None [] 0 "") (client 2 group_relay)).
Proof. vm_compute. reflexivity. Qed.

Lemma group_redeem_is_atomic_witness :
  let x := default (mkContext "" Closed None [] 0 "") (client 2 group_relay) in
  let s' := (handle_group_redeem (group_env 6 "sess_3") 2 x demo_token scenario_gid group_relay).2 in
  ((rl_groups s' = rl_groups group_relay ∧ rl_invites s' = rl_invites group_relay) ∨
  (∃ g h e, dget (a_groups (rl_groups group_relay)) scenario_gid = Some g ∧ (reserved_count g < MAX_GROUP_MEMBERS)%nat ∧
     dget (g_pending g) (session_id x) = None ∧
     rl_groups s' = put_group (rl_groups group_relay) (set_pending g (g_pending g ++
       [(session_id x, mkPending (session_id x) (public_invite_id demo_token) (ev_now (group_env 6 "sess_3")))])) ∧
     lookup_entry (rl_invites group_relay) demo_token = Some (h, e) ∧ e_revoked e = false ∧ ev_now (group_env 6 "sess_3") < e_expires_monotonic e ∧
     e_redemptions e < e_max_redemptions e ∧
     rl_invites s' = dset (rl_invites group_relay) h (consume e (session_id x) (ev_now (group_env 6 "sess_3"))))) ∧
  pk_type <$> last_to 2 s' = Some REDEEMED.
Proof.
  intros x s'. split; [exact (group_redeem_is_atomic (group_env 6 "sess_3") 2 x demo_token scenario_gid group_relay group_reachable)|].
  vm_compute. reflexivity.
Defined.

(** ** Where the relay drops a client it should serve *)

(** The owner of a group who asks for the state of an invite it minted is
    disconnected: the relay answers with the empty room of the invite,
    which its own encoder refuses. *)
Example owner_query_disconnects :
  client 1 <$> run_event (group_env 6 "sess_3") (EData 1 (wire_bytes (invite_query_packet demo_token))) group_relay = Some None ∧
  client 1 <$> run_event (group_env 6 "sess_3") (EData 1 (wire_bytes (invite_revoke_packet demo_token))) group_relay = Some None.
Proof. vm_compute. auto. Qed.

(** A group invite minted without a room is granted, and then the client is
    disconnected: the log line reads the absent field. *)
Definition roomless_invite : stamp → Packet :=
  new_packet INVITE_CREATE [("token", text "BBBBBBBBBBBBBBBBBBBB"); ("ttl", JFloat (cp "600.0")); ("uses", JInt 1);
    ("kind", text "group"); ("group", text scenario_gid)].
Example roomless_invite_disconnects :
  option_map (λ s, (client 1 s, pk_type <$> last_to 1 s))
    (run_event (group_env 6 "sess_3") (EData 1 (wire_bytes roomless_invite)) group_relay) = Some (None, Some INVITE_GRANTED).
Proof. vm_compute. reflexivity. Qed.

(** An error reply that quotes more than the packet schema allows is refused
    by the encoder, and the client is disconnected. *)
Definition long_note (env : Env) : Env :=
  mkEnv (ev_now env) (ev_wall env) (ev_up env) (ev_num env) (ev_float env) (ev_stamp env) (replicate 300 120)
    (ev_op env) (ev_mints env) (ev_session_id env) (ev_nonce env).
Example long_error_disconnects :
  client 1 <$> run_event (long_note (demo_env 4 "sess_3")) (EData 1 (cp "{}")) demo_relay = Some None.
Proof. vm_compute. reflexivity. Qed.

Definition broken_socket (c : Z) (env : Env) : Env :=
  mkEnv (ev_now env) (ev_wall env) (λ d, negb (d =? c)) (ev_num env) (ev_float env) (ev_stamp env) (ev_note env)
    (ev_op env) (ev_mints env) (ev_session_id env) (ev_nonce env).

(** When the socket of the addressee fails, it is the sender who is
    disconnected, and the addressee stays. *)
Example broken_peer_drops_sender :
  option_map (λ s, (client 1 s, bool_decide (is_Some (client 2 s))))
    (run_event (broken_socket 2 (demo_env 4 "sess_3")) demo_forward demo_relay) = Some (None, true).
Proof. vm_compute. reflexivity. Qed.

(** A client whose WELCOME fails leaves its session behind: it is gone, but
    its session stays in the table of sessions and in the registry. *)
Definition half_open : list (Env * event) :=
  [(demo_env 1 "sess_1", EConnect "10.0.0.1:5000"); (demo_env 1 "sess_1", EUpgrade 1);
   (broken_socket 1 (demo_env 2 "sess_1"), EHello 1 (wire_bytes (hello_packet "alice" None)))].
Example failed_welcome_leaks :
  option_map (λ s, (client 1 s, dget (rl_by_session s) "sess_1", rg_live (rl_registry s)))
    (run_script half_open (RelayServer_init demo_limits)) = Some (None, Some 1, ["sess_1"]).
Proof. vm_compute. reflexivity. Qed.

(** A session that was swept as expired keeps being served. *)
Example expired_session_served :
  option_map (λ s, (rg_live (rl_registry s), pk_type <$> last_to 1 s))
    (run_script [(demo_env 400 "sess_3", ESweepSessions);
                 (demo_env 401 "sess_3", EData 1 (wire_bytes (ping_packet "n" (JFloat (cp "1.5")))))] demo_relay) = Some ([], Some PONG).
Proof. vm_compute. reflexivity. Qed.

(** A chat invite is used up by a guest who then finds the room full. *)
Definition third_guest : list (Env * event) :=
  [(demo_env 4 "sess_3", EData 1 (wire_bytes (invite_create_packet demo_token demo_room (JFloat (cp "600.0")) 1 "chat" "")));
   (demo_env 5 "sess_3", EConnect "10.0.0.3:5000"); (demo_env 5 "sess_3", EUpgrade 3);
   (demo_env 5 "sess_3", EHello 3 (wire_bytes (hello_packet "carol" None)));
   (demo_env 6 "sess_4", EData 3 (wire_bytes (redeem_packet demo_token)))].
Example full_room_burns_invite :
  option_map (λ s, (last_text 3 "code" s, e_redemptions <$> values (rl_invites s))) (run_script third_guest demo_relay) =
    Some (Some "invite/room-full", [1]).
Proof. vm_compute. reflexivity. Qed.
