(* ===== verification/Heartbeat.v ===== *)
(** * Heartbeats

    [transport/heartbeat.py]: the monitor that keeps a connection alive and
    measures round trips.  Times are microseconds of the monotonic clock.  A
    cycle of the monitor ([_tick]) waits twice for the network; it is given as
    its pieces, and [tick] composes them with the outcomes of the two sends. *)

From S2P Require Import Prelude.

Open Scope Z_scope.

Definition MAX_RTT_SAMPLES : nat := 256.
Definition MISSED_PING_LIMIT : Z := 3.

(** [HeartbeatStats] *)
Record HeartbeatStats := mkStats {
  hs_sent : Z; hs_acked : Z; hs_pings : Z; hs_pongs : Z; hs_missed : Z; hs_streak : Z; hs_rtts : list Z;
}.

(** [HeartbeatMonitor]; [hm_running] says that its task is alive. *)
Record Monitor := mkMonitor {
  hm_timeout : Z; hm_limit : Z;
  hm_running : bool; hm_sequence : Z; hm_pings : list (string * Z); hm_beats : list Z; hm_stats : HeartbeatStats;
}.

(** [HeartbeatMonitor.__init__] *)
Definition HeartbeatMonitor_init (timeout missed_limit : Z) : Monitor :=
  mkMonitor timeout (Z.max 1 missed_limit) false 0 [] [] (mkStats 0 0 0 0 0 0 []).

Definition set_pings (m : Monitor) x : Monitor :=
  mkMonitor (hm_timeout m) (hm_limit m) (hm_running m) (hm_sequence m) x (hm_beats m) (hm_stats m).
Definition set_beats (m : Monitor) x : Monitor :=
  mkMonitor (hm_timeout m) (hm_limit m) (hm_running m) (hm_sequence m) (hm_pings m) x (hm_stats m).
Definition set_stats (m : Monitor) x : Monitor :=
  mkMonitor (hm_timeout m) (hm_limit m) (hm_running m) (hm_sequence m) (hm_pings m) (hm_beats m) x.
Definition set_running (m : Monitor) x : Monitor :=
  mkMonitor (hm_timeout m) (hm_limit m) x (hm_sequence m) (hm_pings m) (hm_beats m) (hm_stats m).
Definition set_sequence (m : Monitor) x : Monitor :=
  mkMonitor (hm_timeout m) (hm_limit m) (hm_running m) x (hm_pings m) (hm_beats m) (hm_stats m).

(** [record_rtt]: the last samples are kept. *)
Definition record_rtt (l : list Z) (rtt : Z) : list Z :=
  let l1 := l ++ [rtt] in if (MAX_RTT_SAMPLES <? length l1)%nat then drop (length l1 - MAX_RTT_SAMPLES) l1 else l1.

(** [latest_rtt_ms], [min_rtt_ms], [max_rtt_ms] *)
Definition latest_rtt (st : HeartbeatStats) : option Z := last (hs_rtts st).
Definition min_rtt (st : HeartbeatStats) : option Z :=
  match hs_rtts st with [] => None | x :: l => Some (foldl Z.min x l) end.
Definition max_rtt (st : HeartbeatStats) : option Z :=
  match hs_rtts st with [] => None | x :: l => Some (foldl Z.max x l) end.

(** [start], [stop] *)
Definition start (m : Monitor) : Monitor := set_running m true.
Definition stop (m : Monitor) : Monitor := set_running m false.

(** [_reap_expired_pings]: the monitor after it, and whether [on_missed] was
    called. *)
Definition reap (now : Z) (m : Monitor) : Monitor * bool :=
  let expired := filter (λ x, x.2 < now - hm_timeout m) (hm_pings m) in
  match expired with
  | [] => (m, false)
  | _ =>
      let m1 := set_pings m (filter (λ x, ¬ x.2 < now - hm_timeout m) (hm_pings m)) in
      let st := hm_stats m in
      let streak := hs_streak st + 1 in
      let fired := hm_limit m <=? streak in
      (set_stats m1 (mkStats (hs_sent st) (hs_acked st) (hs_pings st) (hs_pongs st) (hs_missed st + Z.of_nat (length expired))
         (if fired then 0 else streak) (hs_rtts st)), fired)
  end.

(** Before and after [_send_heartbeat]. *)
Definition begin_heartbeat (m : Monitor) : Monitor * Z :=
  let m1 := set_sequence m (hm_sequence m + 1) in
  let q := hm_sequence m1 in
  (set_beats m1 (if decide (q ∈ hm_beats m1) then hm_beats m1 else hm_beats m1 ++ [q]), q).
Definition end_heartbeat (q : Z) (ok : bool) (m : Monitor) : Monitor :=
  if ok then
    let st := hm_stats m in
    set_stats m (mkStats (hs_sent st + 1) (hs_acked st) (hs_pings st) (hs_pongs st) (hs_missed st) (hs_streak st) (hs_rtts st))
  else set_beats m (filter (λ x, x ≠ q) (hm_beats m)).

(** Before and after [_send_ping]. *)
Definition begin_ping (nonce : string) (now : Z) (m : Monitor) : Monitor := set_pings m (dset (hm_pings m) nonce now).
Definition end_ping (nonce : string) (ok : bool) (m : Monitor) : Monitor :=
  if ok then
    let st := hm_stats m in
    set_stats m (mkStats (hs_sent st) (hs_acked st) (hs_pings st + 1) (hs_pongs st) (hs_missed st) (hs_streak st) (hs_rtts st))
  else set_pings m (dpop (hm_pings m) nonce).

(** [_tick], with the outcome of its two sends: the monitor after it, and
    whether [on_missed] was called. *)
Definition tick (now now' : Z) (nonce : string) (beat_ok ping_ok : bool) (m : Monitor) : Monitor * bool :=
  let '(m1, fired) := reap now m in
  let '(m2, q) := begin_heartbeat m1 in
  let m3 := end_heartbeat q beat_ok m2 in
  (end_ping nonce ping_ok (begin_ping nonce now' m3), fired).

(** [ack_pong]: the round trip, if the nonce is known. *)
Definition ack_pong (nonce : string) (now : Z) (m : Monitor) : Monitor * option Z :=
  match dget (hm_pings m) nonce with
  | None => (m, None)
  | Some sent_at =>
      let st := hm_stats m in
      (set_stats (set_pings m (dpop (hm_pings m) nonce))
         (mkStats (hs_sent st) (hs_acked st) (hs_pings st) (hs_pongs st + 1) (hs_missed st) 0 (record_rtt (hs_rtts st) (now - sent_at))),
       Some (now - sent_at))
  end.

(** [ack_heartbeat] *)
Definition ack_heartbeat (q : Z) (m : Monitor) : Monitor * bool :=
  if decide (q ∈ hm_beats m) then
    let st := hm_stats m in
    (set_stats (set_beats m (filter (λ x, x ≠ q) (hm_beats m)))
       (mkStats (hs_sent st) (hs_acked st + 1) (hs_pings st) (hs_pongs st) (hs_missed st) (hs_streak st) (hs_rtts st)), true)
  else (m, false).

(** ** Runs *)

Inductive beat_event :=
| Tick (now now' : Z) (nonce : string) (beat_ok ping_ok : bool)
| Pong (nonce : string) (now : Z)
| Beat (q : Z).

Definition run_beat (e : beat_event) (m : Monitor) : Monitor * bool :=
  match e with
  | Tick now now' nonce b p => tick now now' nonce b p m
  | Pong nonce now => ((ack_pong nonce now m).1, false)
  | Beat q => ((ack_heartbeat q m).1, false)
  end.

(** The monitor after some events, and how often it called [on_missed]. *)
Fixpoint beats (l : list beat_event) (m : Monitor) : Monitor * nat :=
  match l with
  | [] => (m, 0%nat)
  | e :: l' => let '(m1, fired) := run_beat e m in let '(m2, n) := beats l' m1 in (m2, (if fired then S n else n))
  end.

(** ** Accounts *)

Definition nonces (l : list beat_event) : list string :=
  omap (λ e, match e with Tick _ _ nonce _ _ => Some nonce | _ => None end) l.

(** Every ping sent is answered, missed or awaited; every heartbeat sent is
    acknowledged or awaited. *)
Record beat_wf (m : Monitor) : Prop := {
  bw_dict : dict_wf (hm_pings m);
  bw_beats : NoDup (hm_beats m);
  bw_seq : ∀ q, q ∈ hm_beats m → q <= hm_sequence m;
  bw_pings : hs_pings (hm_stats m) = hs_pongs (hm_stats m) + hs_missed (hm_stats m) + Z.of_nat (length (hm_pings m));
  bw_sent : hs_sent (hm_stats m) = hs_acked (hm_stats m) + Z.of_nat (length (hm_beats m));
  bw_streak : 0 <= hs_streak (hm_stats m) < hm_limit m;
  bw_rtts : Z.of_nat (length (hs_rtts (hm_stats m))) = Z.min (hs_pongs (hm_stats m)) (Z.of_nat MAX_RTT_SAMPLES);
}.

Lemma length_filter_split {A} (P : A → Prop) `{!∀ x, Decision (P x)} l :
  (length (filter P l) + length (filter (λ x, ¬ P x) l) = length l)%nat.
Proof. induction l as [|x l IH]; [done|]. rewrite !filter_cons. repeat case_decide; simpl; try lia; tauto. Qed.

Lemma filter_keeps {A} `{EqDecision A} (q : A) (l : list A) : q ∉ l → filter (λ x, x ≠ q) l = l.
Proof.
  induction l as [|x l IH]; [done|]. intros [Hx Hl]%not_elem_of_cons. rewrite filter_cons, decide_True by done. by rewrite IH.
Qed.

Lemma length_filter_remove {A} `{EqDecision A} (q : A) (l : list A) : NoDup l → q ∈ l → (S (length (filter (λ x, x ≠ q) l)) = length l)%nat.
Proof.
  induction 1 as [|x l Hx Hl IH]; [by intros ?%elem_of_nil|]. intros [-> | Hq]%elem_of_cons; rewrite filter_cons.
  - rewrite decide_False by (intros H; by apply H). f_equal. by rewrite filter_keeps.
  - rewrite decide_True by (intros ->; done). simpl. f_equal. by apply IH.
Qed.

Lemma length_record_rtt l r : (length (record_rtt l r) = Nat.min (S (length l)) MAX_RTT_SAMPLES)%nat.
Proof.
  unfold record_rtt. rewrite length_app. simpl length. case_match eqn:E.
  - apply Nat.ltb_lt in E. rewrite length_drop, length_app. simpl length. lia.
  - apply Nat.ltb_ge in E. rewrite length_app. simpl length. lia.
Qed.

Lemma reap_wf now m : beat_wf m → beat_wf (reap now m).1 ∧ keys (hm_pings (reap now m).1) ⊆ keys (hm_pings m).
Proof.
  intros W. pose proof W as [Hd Hb Hq Hp Hs Hk Hr]. unfold reap. set (P := λ x : string * Z, x.2 < now - hm_timeout m).
  pose proof (length_filter_split P (hm_pings m)) as Hl. change (filter (λ x, x.2 < _) _) with (filter P (hm_pings m)).
  destruct (filter P (hm_pings m)) as [|x l] eqn:E; [done|]. cbn [fst]. split.
  - split; simpl; try done.
    + by apply dict_wf_filter.
    + change (filter _ (hm_pings m)) with (filter (λ x, ¬ P x) (hm_pings m)). simpl in Hl. lia.
    + case_match; [lia|]. apply Z.leb_gt in H. lia.
  - simpl. intros k. unfold keys. rewrite !list_elem_of_fmap. intros (y & -> & [_ Hy]%list_elem_of_filter). eauto.
Qed.

Lemma begin_heartbeat_eq m : beat_wf m →
  begin_heartbeat m = (set_beats (set_sequence m (hm_sequence m + 1)) (hm_beats m ++ [hm_sequence m + 1]), hm_sequence m + 1).
Proof.
  intros W. unfold begin_heartbeat. simpl. rewrite decide_False; [done|]. intros H%(bw_seq m W). lia.
Qed.

Lemma heartbeat_wf b m : beat_wf m →
  let '(m1, q) := begin_heartbeat m in beat_wf (end_heartbeat q b m1) ∧ hm_pings (end_heartbeat q b m1) = hm_pings m.
Proof.
  intros W. rewrite (begin_heartbeat_eq m W). pose proof W as [Hd Hb Hq Hp Hs Hk Hr].
  assert (Hn : hm_sequence m + 1 ∉ hm_beats m) by (intros H%Hq; lia). destruct b; simpl; (split; [|done]); split; simpl; try done.
  - apply NoDup_app. split; [done|]. split; [|apply NoDup_singleton]. intros x Hx ->%list_elem_of_singleton. done.
  - intros q [H%Hq | ->%list_elem_of_singleton]%elem_of_app; lia.
  - rewrite length_app. simpl. lia.
  - by apply NoDup_filter; apply NoDup_app; split; [done|]; split; [|apply NoDup_singleton];
      intros x Hx ->%list_elem_of_singleton.
  - intros q [_ [H%Hq | ->%list_elem_of_singleton]%elem_of_app]%list_elem_of_filter; lia.
  - rewrite filter_app, filter_keeps by done. rewrite filter_cons, decide_False by (intros H; by apply H). rewrite app_nil_r. done.
Qed.

Lemma ping_wf nonce now p m : beat_wf m → nonce ∉ keys (hm_pings m) →
  beat_wf (end_ping nonce p (begin_ping nonce now m)) ∧
  keys (hm_pings (end_ping nonce p (begin_ping nonce now m))) ⊆ nonce :: keys (hm_pings m).
Proof.
  intros W Hn. pose proof W as [Hd Hb Hq Hp Hs Hk Hr]. destruct p; simpl.
  - split; [|intros k; rewrite keys_dset; case_decide; set_solver]. split; simpl; try done.
    + by apply dict_wf_dset.
    + rewrite length_dset. rewrite decide_False by done. lia.
  - assert (E : dpop (dset (hm_pings m) nonce now) nonce = hm_pings m) by by apply dpop_dset_fresh.
    rewrite E. split; [|set_solver]. split; simpl; by rewrite ?E.
Qed.

Lemma tick_wf now now' nonce b p m : beat_wf m → nonce ∉ keys (hm_pings m) →
  beat_wf (tick now now' nonce b p m).1 ∧ keys (hm_pings (tick now now' nonce b p m).1) ⊆ nonce :: keys (hm_pings m).
Proof.
  intros W Hn. unfold tick. destruct (reap_wf now m W) as [W1 Hk]. destruct (reap now m) as [m1 fired]. simpl in W1, Hk.
  pose proof (heartbeat_wf b m1 W1) as H. destruct (begin_heartbeat m1) as [m2 q]. destruct H as [W2 E2].
  assert (Hn2 : nonce ∉ keys (hm_pings (end_heartbeat q b m2))) by (rewrite E2; set_solver).
  destruct (ping_wf nonce now' p _ W2 Hn2) as [W3 Hk3]. split; [done|]. cbn [fst]. rewrite E2 in Hk3. set_solver.
Qed.

Lemma ack_pong_wf nonce now m : beat_wf m → beat_wf (ack_pong nonce now m).1 ∧ keys (hm_pings (ack_pong nonce now m).1) ⊆ keys (hm_pings m).
Proof.
  intros W. pose proof W as [Hd Hb Hq Hp Hs Hk Hr]. unfold ack_pong. destruct (dget (hm_pings m) nonce) eqn:E; [|done].
  simpl. split; [|intros k; apply keys_dpop_subset]. split; simpl; try done.
  - by apply dict_wf_dpop.
  - pose proof (length_dpop (hm_pings m) nonce) as Hl. rewrite decide_True in Hl by (apply dget_is_Some; eauto). lia.
  - lia.
  - rewrite length_record_rtt. lia.
Qed.

Lemma ack_heartbeat_wf q m : beat_wf m → beat_wf (ack_heartbeat q m).1 ∧ hm_pings (ack_heartbeat q m).1 = hm_pings m.
Proof.
  intros W. pose proof W as [Hd Hb Hq Hp Hs Hk Hr]. unfold ack_heartbeat. case_decide as E; [|done]. simpl. split; [|done].
  split; simpl; try done.
  - by apply NoDup_filter.
  - intros x [_ H%Hq]%list_elem_of_filter. done.
  - pose proof (length_filter_remove q (hm_beats m) Hb E). lia.
Qed.

Lemma beats_wf l m : beat_wf m → NoDup (nonces l) → (∀ n, n ∈ nonces l → n ∉ keys (hm_pings m)) → beat_wf (beats l m).1.
Proof.
  revert m. induction l as [|e l IH]; intros m W Hd Hn; [done|].
  assert (H : beat_wf (beats l (run_beat e m).1).1).
  { destruct e as [now now' nonce b p|nonce now|q]; simpl in *.
    - apply NoDup_cons in Hd as [Hx Hd]. destruct (tick_wf now now' nonce b p m W) as [W1 Hk]; [apply Hn; set_solver|].
      apply IH; [done|done|]. intros x Hx' [-> | H]%Hk%elem_of_cons; [done|]. apply (Hn x); set_solver.
    - destruct (ack_pong_wf nonce now m W) as [W1 Hk]. apply IH; [done|done|]. intros x Hx H%Hk. by apply (Hn x).
    - destruct (ack_heartbeat_wf q m W) as [W1 Hk]. apply IH; [done|done|]. rewrite Hk. exact Hn. }
  simpl. destruct (run_beat e m) as [m1 fired]. simpl in H. by destruct (beats l m1).
Qed.

Lemma init_beat_wf timeout limit : beat_wf (HeartbeatMonitor_init timeout limit).
Proof. split; simpl; try done; try constructor; try lia. by intros q ?%elem_of_nil. Qed.

(** The accounts of the monitor balance: as long as its nonces do not repeat,
    every ping it sent was answered once, given up or is awaited, every
    heartbeat was acknowledged once or is awaited, the streak stays below the
    limit and the last 256 round trips are kept, whatever pongs and
    acknowledgements arrive. *)
Theorem heartbeat_accounts timeout limit l :
  NoDup (nonces l) →
  let m := (beats l (HeartbeatMonitor_init timeout limit)).1 in
  let st := hm_stats m in
  hs_pings st = hs_pongs st + hs_missed st + Z.of_nat (length (hm_pings m)) ∧
  hs_sent st = hs_acked st + Z.of_nat (length (hm_beats m)) ∧
  0 <= hs_streak st < Z.max 1 limit ∧
  Z.of_nat (length (hs_rtts st)) = Z.min (hs_pongs st) 256.
Proof.
  intros Hd m st. assert (W : beat_wf m). { apply beats_wf; [apply init_beat_wf|done|]. intros n _. apply not_elem_of_nil. }
  assert (Hl : hm_limit m = Z.max 1 limit).
  { subst m. clear. change (Z.max 1 limit) with (hm_limit (HeartbeatMonitor_init timeout limit)).
    generalize (HeartbeatMonitor_init timeout limit). induction l as [|e l IH]; intros m; [done|]. simpl.
    assert (E : hm_limit (run_beat e m).1 = hm_limit m).
    { destruct e; simpl.
      - unfold tick, reap, end_ping, end_heartbeat, begin_heartbeat. by repeat case_match; simplify_eq.
      - unfold ack_pong. by case_match.
      - unfold ack_heartbeat. by case_match. }
    destruct (run_beat e m) as [m1 f]. specialize (IH m1). destruct (beats l m1) as [m2 n]. simpl in *. congruence. }
  rewrite <- Hl. destruct W as [_ _ _ Hp Hs Hk Hr]. done.
Qed.

(** ** A silent peer *)

(** Cycles whose sends succeed, each more than [timeout] after the ping
    before it, and nothing else. *)
Fixpoint silence (timeout t : Z) (l : list beat_event) : Prop :=
  match l with
  | [] => True
  | Tick now now' _ _ true :: l' => t + timeout < now ∧ now <= now' ∧ silence timeout now' l'
  | _ => False
  end.

Lemma silence_fires l m nonce t :
  silence (hm_timeout m) t l → hm_pings m = [(nonce, t)] → 0 <= hs_streak (hm_stats m) < hm_limit m →
  Z.of_nat (beats l m).2 = (hs_streak (hm_stats m) + Z.of_nat (length l)) / hm_limit m.
Proof.
  revert m nonce t. induction l as [|e l IH]; intros m nonce t Hs Hp Hk.
  { simpl. rewrite Z.add_0_r, Z.div_small; lia. }
  destruct e as [now now' n b [|]| |]; try done. destruct Hs as (H1 & H2 & Hs).
  assert (Hr : ∃ m1, reap now m = (m1, hm_limit m <=? hs_streak (hm_stats m) + 1) ∧ hm_pings m1 = [] ∧ hm_limit m1 = hm_limit m ∧
    hm_timeout m1 = hm_timeout m ∧
    hs_streak (hm_stats m1) = (if hm_limit m <=? hs_streak (hm_stats m) + 1 then 0 else hs_streak (hm_stats m) + 1)).
  { unfold reap. rewrite Hp. rewrite !filter_cons. simpl. rewrite decide_True by lia. rewrite decide_False by lia. by eexists. }
  destruct Hr as (m1 & Er & Ep & El & Et & Ek).
  set (m2 := (tick now now' n b true m).1).
  assert (Em : tick now now' n b true m = (m2, hm_limit m <=? hs_streak (hm_stats m) + 1)).
  { unfold m2, tick. rewrite Er. by destruct (begin_heartbeat m1). }
  assert (Hm2 : hm_pings m2 = [(n, now')] ∧ hm_limit m2 = hm_limit m ∧ hm_timeout m2 = hm_timeout m ∧
    hs_streak (hm_stats m2) = hs_streak (hm_stats m1)).
  { unfold m2, tick, begin_heartbeat, end_heartbeat. rewrite Er. destruct b; simpl; by rewrite ?Ep. }
  destruct Hm2 as (Ep2 & El2 & Et2 & Ek2). simpl. rewrite Em. specialize (IH m2 n now').
  rewrite Et2, El2, Ek2, Ek in IH. specialize (IH Hs Ep2). destruct (beats l m2) as [m3 k]. cbn [snd] in *.
  destruct (hm_limit m <=? hs_streak (hm_stats m) + 1) eqn:E.
  - apply Z.leb_le in E. assert (E' : hs_streak (hm_stats m) = hm_limit m - 1) by lia.
    rewrite Nat2Z.inj_succ, IH by lia. rewrite E'.
    replace (hm_limit m - 1 + Z.of_nat (S (length l))) with (0 + Z.of_nat (length l) + 1 * hm_limit m) by lia.
    rewrite Z.div_add by lia. lia.
  - apply Z.leb_gt in E. rewrite IH by lia. f_equal. lia.
Qed.

(** Cycles whose ping is answered before the next. *)
Definition answered (l : list (Z * Z * string * bool * bool * Z)) : list beat_event :=
  l ≫= λ '(now, now', nonce, b, p, t), [Tick now now' nonce b p; Pong nonce t].

Lemma answered_fires l m : hm_pings m = [] → (beats (answered l) m).2 = 0%nat.
Proof.
  revert m. induction l as [|[[[[[now now'] nonce] b] p] t] l IH]; intros m Hp; [done|].
  change (answered (_ :: l)) with (Tick now now' nonce b p :: Pong nonce t :: answered l).
  cbn [beats run_beat]. unfold tick, reap, begin_heartbeat. rewrite Hp. cbn [filter list_filter].
  set (m1 := end_ping _ _ _). assert (E : hm_pings (ack_pong nonce t m1).1 = []).
  { unfold m1, ack_pong, end_ping, begin_ping, end_heartbeat. destruct b, p; simpl; rewrite ?Hp; simpl;
      rewrite ?decide_True by done; simpl; rewrite ?Hp; simpl; by rewrite ?decide_True. }
  specialize (IH _ E). destruct (beats (answered l) (ack_pong nonce t m1).1). done.
Qed.

(** C20: A silent peer is detected: when no pong comes, every ping is sent
    and every cycle begins more than [timeout] after the ping of the one before
    it, the monitor declares the peer dead at the cycle after every [limit]
    (three) more unanswered ones, so at the fourth, the seventh, ...: after [n]
    cycles it has done so exactly [(n - 1) / limit] times, and not only once
    in a silence.  A peer that answers each ping before the next cycle is never
    declared dead. *)
Theorem silent_peer_detected timeout limit now now' nonce b l rounds :
  silence timeout now' l →
  Z.of_nat (beats (Tick now now' nonce b true :: l) (HeartbeatMonitor_init timeout limit)).2 = Z.of_nat (length l) / Z.max 1 limit ∧
  (beats (answered rounds) (HeartbeatMonitor_init timeout limit)).2 = 0%nat.
Proof.
  intros Hs. split; [|by apply answered_fires]. cbn [beats run_beat].
  assert (E : ∃ m, tick now now' nonce b true (HeartbeatMonitor_init timeout limit) = (m, false) ∧ hm_timeout m = timeout ∧
    hm_limit m = Z.max 1 limit ∧ hm_pings m = [(nonce, now')] ∧ hs_streak (hm_stats m) = 0).
  { unfold tick, begin_heartbeat, end_heartbeat. simpl. destruct b; by eexists. }
  destruct E as (m & -> & Et & El & Ep & Ek). pose proof (silence_fires l m nonce now') as H. rewrite Et, El, Ek in H.
  specialize (H Hs Ep ltac:(lia)). destruct (beats l m). exact H.
Qed.

Lemma silent_peer_detected_witness :
  (beats (Tick 0 0 "a" true true :: [Tick 10 10 "b" true true; Tick 20 20 "c" true true; Tick 30 30 "d" true true])
     (HeartbeatMonitor_init 5 3)).2 = 1%nat.
Proof.
  assert (H : Z.of_nat (beats (Tick 0 0 "a" true true :: [Tick 10 10 "b" true true; Tick 20 20 "c" true true; Tick 30 30 "d" true true])
     (HeartbeatMonitor_init 5 3)).2 = 3 / Z.max 1 3).
  { apply (silent_peer_detected 5 3 0 0 "a" true [Tick 10 10 "b" true true; Tick 20 20 "c" true true; Tick 30 30 "d" true true] []).
    simpl. lia. }
  apply Nat2Z.inj. exact H.
Defined.

(** A heartbeat that nobody acknowledges is remembered for ever: the set of
    awaited ones grows with every cycle. *)
Example awaited_heartbeats_grow :
  length (hm_beats (beats (answered (replicate 100 (0, 0, "n", true, true, 0))) (HeartbeatMonitor_init 5 3)).1) = 100%nat.
Proof. by vm_compute. Qed.
