(* ===== verification/Connection.v ===== *)
(** * Connections that recover

    [transport/connection.py]: the manager of one logical connection over
    fresh transports.  The coroutines [open], [_reader_loop] and
    [_reconnect_loop] are cut at their waits for the network, for the clock and
    for [on_connected], and a created task at its start; each piece is a step,
    and any other step may come in between.  Closing a transport and waiting for
    a cancelled task end at once.

    Transports are numbered in the order the factory makes them;
    [cm_open] holds those whose state is OPEN, whoever made them.  Listeners
    see the list [cm_history].  Times of state changes and logging are left
    out. *)

From S2P Require Import Prelude ChatSession.

Open Scope Z_scope.

#[export] Instance ConnectionState_eq_dec : EqDecision ConnectionState.
Proof. solve_decision. Defined.

(** [_ALLOWED_TRANSITIONS] *)
Definition allowed_transitions (s : ConnectionState) : list ConnectionState :=
  match s with
  | CONNECTING => [CONNECTED; TIMED_OUT; DISCONNECTED; CLOSED]
  | CONNECTED => [RECONNECTING; TIMED_OUT; DISCONNECTED; CLOSED]
  | RECONNECTING => [CONNECTED; TIMED_OUT; DISCONNECTED; CLOSED]
  | TIMED_OUT => [RECONNECTING; DISCONNECTED; CLOSED]
  | DISCONNECTED => [CONNECTING; RECONNECTING; CLOSED]
  | CLOSED => []
  end.

(** [ReconnectPolicy.delay_for]: the backoff before retry [attempt], in
    microseconds, with the draw [wobble] of [random.uniform].  The policy has
    its default of 30 seconds as the longest delay and a quarter of jitter. *)
Definition MAX_DELAY : Z := 30 * 1000000.
Definition raw_delay (base : Z) (attempt : Z) : Z := Z.min (base * 2 ^ (attempt - 1)) MAX_DELAY.
Definition delay_for (base attempt wobble : Z) : Z := Z.max 0 (raw_delay base attempt + wobble).

(** ** State *)

(** Where a run of [_reconnect_loop] stands: not yet started (a task that was
    only created), in the sleep before an attempt, in that attempt, before or
    after its transport is open, or waiting for [on_connected]. *)
Inductive phase :=
| Starting
| Sleeping (attempt : nat)
| Dialing (attempt : nat) (transport : nat)
| Greeting (attempt : nat) (transport : nat)
| Announcing (transport : nat).

Record Manager := mkManager {
  cm_attempts : nat;                 (** [ReconnectPolicy.attempts] *)
  cm_state : ConnectionState;
  cm_transport : option nat;
  cm_open : list nat;
  cm_next : nat;
  cm_opening : option nat;           (** the transport of an [open] that connects *)
  cm_opened : list nat;              (** those of each [open] that waits for [on_connected] *)
  cm_readers : list (nat * option nat);   (** reader tasks: not yet started, or the transport each reads *)
  cm_next_reader : nat;
  cm_reader : option nat;            (** [_reader_task] *)
  cm_loops : list (nat * phase);     (** runs of [_reconnect_loop] *)
  cm_next_loop : nat;
  cm_task : option nat;              (** [_reconnect_task] *)
  cm_close_requested : bool;
  cm_closed_event : bool;
  cm_connects : Z; cm_successes : Z; cm_retries : Z;
  cm_history : list ConnectionState;
}.

Definition ConnectionManager_init (attempts : nat) : Manager :=
  mkManager attempts DISCONNECTED None [] 0 None [] [] 0 None [] 0 None false false 0 0 0 [].

Definition set_state (m : Manager) st : Manager :=
    mkManager (cm_attempts m) st (cm_transport m) (cm_open m) (cm_next m) (cm_opening m) (cm_opened m) (cm_readers m)
      (cm_next_reader m) (cm_reader m) (cm_loops m) (cm_next_loop m) (cm_task m) (cm_close_requested m)
      (cm_closed_event m) (cm_connects m) (cm_successes m) (cm_retries m) (cm_history m ++ [st]).
Definition set_transport (m : Manager) t : Manager :=
    mkManager (cm_attempts m) (cm_state m) t (cm_open m) (cm_next m) (cm_opening m) (cm_opened m) (cm_readers m)
      (cm_next_reader m) (cm_reader m) (cm_loops m) (cm_next_loop m) (cm_task m) (cm_close_requested m)
      (cm_closed_event m) (cm_connects m) (cm_successes m) (cm_retries m) (cm_history m).
Definition set_open (m : Manager) l : Manager :=
    mkManager (cm_attempts m) (cm_state m) (cm_transport m) l (cm_next m) (cm_opening m) (cm_opened m) (cm_readers m)
      (cm_next_reader m) (cm_reader m) (cm_loops m) (cm_next_loop m) (cm_task m) (cm_close_requested m)
      (cm_closed_event m) (cm_connects m) (cm_successes m) (cm_retries m) (cm_history m).
Definition set_next_transport (m : Manager) n : Manager :=
    mkManager (cm_attempts m) (cm_state m) (cm_transport m) (cm_open m) n (cm_opening m) (cm_opened m) (cm_readers m)
      (cm_next_reader m) (cm_reader m) (cm_loops m) (cm_next_loop m) (cm_task m) (cm_close_requested m)
      (cm_closed_event m) (cm_connects m) (cm_successes m) (cm_retries m) (cm_history m).
Definition set_opening (m : Manager) o : Manager :=
    mkManager (cm_attempts m) (cm_state m) (cm_transport m) (cm_open m) (cm_next m) o (cm_opened m) (cm_readers m)
      (cm_next_reader m) (cm_reader m) (cm_loops m) (cm_next_loop m) (cm_task m) (cm_close_requested m)
      (cm_closed_event m) (cm_connects m) (cm_successes m) (cm_retries m) (cm_history m).
Definition set_opened (m : Manager) l : Manager :=
    mkManager (cm_attempts m) (cm_state m) (cm_transport m) (cm_open m) (cm_next m) (cm_opening m) l (cm_readers m)
      (cm_next_reader m) (cm_reader m) (cm_loops m) (cm_next_loop m) (cm_task m) (cm_close_requested m)
      (cm_closed_event m) (cm_connects m) (cm_successes m) (cm_retries m) (cm_history m).
Definition set_readers (m : Manager) l : Manager :=
    mkManager (cm_attempts m) (cm_state m) (cm_transport m) (cm_open m) (cm_next m) (cm_opening m) (cm_opened m) l
      (cm_next_reader m) (cm_reader m) (cm_loops m) (cm_next_loop m) (cm_task m) (cm_close_requested m)
      (cm_closed_event m) (cm_connects m) (cm_successes m) (cm_retries m) (cm_history m).
Definition set_reader (m : Manager) r : Manager :=
    mkManager (cm_attempts m) (cm_state m) (cm_transport m) (cm_open m) (cm_next m) (cm_opening m) (cm_opened m)
      (cm_readers m) (cm_next_reader m) r (cm_loops m) (cm_next_loop m) (cm_task m) (cm_close_requested m)
      (cm_closed_event m) (cm_connects m) (cm_successes m) (cm_retries m) (cm_history m).
Definition set_loops (m : Manager) l : Manager :=
    mkManager (cm_attempts m) (cm_state m) (cm_transport m) (cm_open m) (cm_next m) (cm_opening m) (cm_opened m)
      (cm_readers m) (cm_next_reader m) (cm_reader m) l (cm_next_loop m) (cm_task m) (cm_close_requested m)
      (cm_closed_event m) (cm_connects m) (cm_successes m) (cm_retries m) (cm_history m).
Definition set_task (m : Manager) t : Manager :=
    mkManager (cm_attempts m) (cm_state m) (cm_transport m) (cm_open m) (cm_next m) (cm_opening m) (cm_opened m)
      (cm_readers m) (cm_next_reader m) (cm_reader m) (cm_loops m) (cm_next_loop m) t (cm_close_requested m)
      (cm_closed_event m) (cm_connects m) (cm_successes m) (cm_retries m) (cm_history m).
Definition set_close (m : Manager) requested event : Manager :=
    mkManager (cm_attempts m) (cm_state m) (cm_transport m) (cm_open m) (cm_next m) (cm_opening m) (cm_opened m)
      (cm_readers m) (cm_next_reader m) (cm_reader m) (cm_loops m) (cm_next_loop m) (cm_task m) requested event
      (cm_connects m) (cm_successes m) (cm_retries m) (cm_history m).
Definition set_counts (m : Manager) connects successes retries : Manager :=
    mkManager (cm_attempts m) (cm_state m) (cm_transport m) (cm_open m) (cm_next m) (cm_opening m) (cm_opened m)
      (cm_readers m) (cm_next_reader m) (cm_reader m) (cm_loops m) (cm_next_loop m) (cm_task m) (cm_close_requested m)
      (cm_closed_event m) connects successes retries (cm_history m).

(** A new run of [_reconnect_loop], a new reader task. *)
Definition new_loop (m : Manager) (p : phase) : Manager :=
    mkManager (cm_attempts m) (cm_state m) (cm_transport m) (cm_open m) (cm_next m) (cm_opening m) (cm_opened m)
      (cm_readers m) (cm_next_reader m) (cm_reader m) (dset (cm_loops m) (cm_next_loop m) p) (S (cm_next_loop m))
      (cm_task m) (cm_close_requested m) (cm_closed_event m) (cm_connects m) (cm_successes m) (cm_retries m)
      (cm_history m).
Definition new_reader (m : Manager) : Manager :=
    mkManager (cm_attempts m) (cm_state m) (cm_transport m) (cm_open m) (cm_next m) (cm_opening m) (cm_opened m)
      (dset (cm_readers m) (cm_next_reader m) None) (S (cm_next_reader m)) (Some (cm_next_reader m)) (cm_loops m)
      (cm_next_loop m) (cm_task m) (cm_close_requested m) (cm_closed_event m) (cm_connects m) (cm_successes m)
      (cm_retries m) (cm_history m).

Definition transport_open (m : Manager) (t : nat) : bool := bool_decide (t ∈ cm_open m).

(** [is_usable] *)
Definition is_usable (m : Manager) : bool :=
  bool_decide (cm_state m = CONNECTED) && match cm_transport m with Some t => transport_open m t | None => false end.

(** ** Errors *)

(** [IllegalTransition] is the [TransportError] of [_transition]; [Refused]
    one of a guard; [Failed] whatever a transport, a handshake or
    [on_connected] raised. *)
Inductive conn_error := IllegalTransition | Refused | TimedOut | Failed.

Definition step : Type := Manager → outcome Manager conn_error unit.
Definition andthen (a b : step) : step := λ m, match a m with (Ok _, m') => b m' | r => r end.
Definition always (f : Manager → Manager) : step := λ m, (Ok tt, f m).
Notation "a '>>' b" := (andthen a b) (at level 60, right associativity).

(** ** Operations *)

(** [_transition] *)
Definition transition (st : ConnectionState) : step := λ m,
  if decide (st ∈ allowed_transitions (cm_state m)) then (Ok tt, set_state m st) else (Err IllegalTransition, m).

(** [transport.close()] *)
Definition close_transport (t : nat) (m : Manager) : Manager := set_open m (filter (λ x, x ≠ t) (cm_open m)).

(** [open], up to the wait for the transport to open. *)
Definition open : step := λ m,
  if decide (cm_state m = DISCONNECTED) then
    (transition CONNECTING >>
     always (λ m, set_close m false false) >>
     always (λ m, set_counts m (cm_connects m + 1) (cm_successes m) (cm_retries m)) >>
     always (λ m, set_next_transport (set_opening m (Some (cm_next m))) (S (cm_next m)))) m
  else (Err Refused, m).

(** The transport of [open] is open; [handshake] begins. *)
Definition open_dialed : step := λ m,
  match cm_opening m with
  | Some t => if transport_open m t then (Err Refused, m) else (Ok tt, set_open m (t :: cm_open m))
  | None => (Err Refused, m)
  end.

(** [open] after its deadline. *)
Definition open_timed_out : step := λ m,
  match cm_opening m with
  | Some t =>
      (always (λ m, set_opening (close_transport t m) None) >> transition TIMED_OUT >> transition DISCONNECTED >>
       always (λ m, set_close m (cm_close_requested m) true) >> (λ m, (Err TimedOut, m))) m
  | None => (Err Refused, m)
  end.

(** [open] after a failure of the transport or the handshake. *)
Definition open_failed : step := λ m,
  match cm_opening m with
  | Some t =>
      (always (λ m, set_opening (close_transport t m) None) >> transition DISCONNECTED >>
       always (λ m, set_close m (cm_close_requested m) true) >> (λ m, (Err Failed, m))) m
  | None => (Err Refused, m)
  end.

(** A transport has passed its handshake: it is the connection now. *)
Definition connected (t : nat) : step :=
  always (λ m, set_transport m (Some t)) >>
  always (λ m, set_counts m (cm_connects m) (cm_successes m + 1) (cm_retries m)) >>
  transition CONNECTED.

(** [open] after the handshake, up to the wait for [on_connected]. *)
Definition open_connected : step := λ m,
  match cm_opening m with
  | Some t =>
      if transport_open m t then
        (always (λ m, set_opening m None) >> connected t >> always (λ m, set_opened m (t :: cm_opened m))) m
      else (Err Refused, m)
  | None => (Err Refused, m)
  end.

(** Who waits for [on_connected]: the [open] of a transport, or a run. *)
Inductive waiter := Opener (transport : nat) | Run (i : nat).
#[export] Instance waiter_eq_dec : EqDecision waiter.
Proof. solve_decision. Defined.

(** The transport whose [on_connected] [w] waits for. *)
Definition welcoming (m : Manager) (w : waiter) : option nat :=
  match w with
  | Opener t => if decide (t ∈ cm_opened m) then Some t else None
  | Run i => match dget (cm_loops m) i with Some (Announcing t) => Some t | _ => None end
  end.

Definition end_loop (i : nat) (m : Manager) : Manager := set_loops m (dpop (cm_loops m) i).

Definition waited (w : waiter) (m : Manager) : Manager :=
  match w with
  | Opener t => set_opened m (filter (λ x, x ≠ t) (cm_opened m))
  | Run i => end_loop i m
  end.

(** [on_connected] is over: the reader task is created, unless it raised. *)
Definition on_connected (w : waiter) (ok : bool) : step := λ m,
  match welcoming m w with
  | Some _ => if ok then (Ok tt, new_reader (waited w m)) else (Err Failed, waited w m)
  | None => (Err Refused, m)
  end.

(** A reader task ends or is cancelled. *)
Definition end_reader (r : nat) (m : Manager) : Manager := set_readers m (dpop (cm_readers m) r).

(** [_reader_loop] starts: it reads the transport the manager has then. *)
Definition reader_begins (r : nat) : step := λ m,
  match dget (cm_readers m) r with
  | Some None =>
      (Ok tt, match cm_transport m with
              | Some t => if cm_close_requested m then end_reader r m else set_readers m (dset (cm_readers m) r (Some t))
              | None => end_reader r m
              end)
  | _ => (Err Refused, m)
  end.

(** [_handle_unexpected_close] *)
Definition handle_unexpected_close : step :=
  always (λ m, match cm_transport m with Some t => close_transport t m | None => m end) >>
  (λ m, if decide (cm_state m = CONNECTED) then transition DISCONNECTED m else (Ok tt, m)) >>
  (λ m, if ((0 <? cm_attempts m)%nat && negb (cm_close_requested m))%bool then
          (Ok tt, set_task (new_loop m Starting) (Some (cm_next_loop m)))
        else
          ((λ m, if decide (cm_state m = DISCONNECTED) then transition CLOSED m else (Ok tt, m)) >>
           always (λ m, set_close m (cm_close_requested m) true)) m).

(** The end of [_reader_loop]: the peer closed the channel, or the transport
    or the callback raised.  [lost] says that the transport is not open any more,
    as after the end of its stream. *)
Definition reader_ended (r : nat) (lost : bool) : step := λ m,
  match dget (cm_readers m) r with
  | Some (Some t) =>
      let m1 := end_reader r (if lost then close_transport t m else m) in
      if cm_close_requested m1 then (Ok tt, m1) else handle_unexpected_close m1
  | _ => (Err Refused, m)
  end.

(** The head of the loop: the next attempt, or the end. *)
Definition loop_next (i attempt : nat) : step := λ m,
  if (attempt <=? cm_attempts m)%nat then
    if cm_close_requested m then (Ok tt, end_loop i m)
    else (Ok tt, set_loops (set_counts m (cm_connects m) (cm_successes m) (cm_retries m + 1)) (dset (cm_loops m) i (Sleeping attempt)))
  else
    (always (end_loop i) >>
     (λ m, if decide (cm_state m = RECONNECTING) then (transition DISCONNECTED >> transition CLOSED) m else (Ok tt, m)) >>
     always (λ m, set_close m (cm_close_requested m) true)) m.

(** The first piece of [_reconnect_loop]; an exception ends the run. *)
Definition loop_start (i : nat) : step := λ m,
  match transition RECONNECTING m with
  | (Ok _, m1) => loop_next i 1 m1
  | (Err e, m1) => (Err e, end_loop i m1)
  end.

(** The task of a run is scheduled for the first time. *)
Definition loop_begins (i : nat) : step := λ m,
  match dget (cm_loops m) i with Some Starting => loop_start i m | _ => (Err Refused, m) end.

(** The sleep is over: a transport is made and opened. *)
Definition loop_woken (i : nat) : step := λ m,
  match dget (cm_loops m) i with
  | Some (Sleeping k) => (Ok tt, set_next_transport (set_loops m (dset (cm_loops m) i (Dialing k (cm_next m)))) (S (cm_next m)))
  | _ => (Err Refused, m)
  end.

(** The transport is open; the handshake begins. *)
Definition loop_dialed (i : nat) : step := λ m,
  match dget (cm_loops m) i with
  | Some (Dialing k t) => (Ok tt, set_open (set_loops m (dset (cm_loops m) i (Greeting k t))) (t :: cm_open m))
  | _ => (Err Refused, m)
  end.

(** The attempt failed. *)
Definition loop_failed (i : nat) : step := λ m,
  match dget (cm_loops m) i with
  | Some (Dialing k _) | Some (Greeting k _) => loop_next i (S k) m
  | _ => (Err Refused, m)
  end.

(** The handshake is done; the run waits for [on_connected]. *)
Definition loop_connected (i : nat) : step := λ m,
  match dget (cm_loops m) i with
  | Some (Greeting k t) =>
      match connected t m with
      | (Ok _, m1) => (Ok tt, set_loops m1 (dset (cm_loops m1) i (Announcing t)))
      | (Err e, m1) => (Err e, end_loop i m1)
      end
  | _ => (Err Refused, m)
  end.

(** The reader is cancelled, the transport given up and closed. *)
Definition drop_transport (m : Manager) : Manager :=
  let m1 := match cm_reader m with Some r => end_reader r m | None => m end in
  let m2 := set_transport (set_reader m1 None) None in
  match cm_transport m with Some t => close_transport t m2 | None => m2 end.

(** A task that is done is not among the runs. *)
Definition task_alive (m : Manager) : bool :=
  match cm_task m with Some i => dmem (cm_loops m) i | None => false end.

(** [close] *)
Definition close : step := λ m,
  if decide (cm_state m = CLOSED) then (Ok tt, m)
  else
    (always (λ m, set_close m true (cm_closed_event m)) >>
     always (λ m, set_task (match cm_task m with Some i => end_loop i m | None => m end) None) >>
     always drop_transport >>
     (λ m, if decide (cm_state m = DISCONNECTED) then (Ok tt, m) else transition DISCONNECTED m) >>
     transition CLOSED >>
     always (λ m, set_close m true true)) m.

(** [reconnect], up to the first sleep of its loop, which runs in the
    caller. *)
Definition reconnect : step := λ m,
  if (cm_attempts m =? 0)%nat then (Err Refused, m)
  else if task_alive m then (Err Refused, m)
  else
    (always drop_transport >>
     (λ m, if decide (cm_state m = CONNECTED) then transition DISCONNECTED m else (Ok tt, m)) >>
     (λ m, loop_start (cm_next_loop m) (new_loop m Starting))) m.

(** ** Runs *)

(** What can happen to a manager: calls, the starts of its tasks, and the waits
    of its coroutines that end. *)
Inductive conn_event :=
| CallOpen | CallClose | CallReconnect
| OpenDialed | OpenTimedOut | OpenFailed | OpenConnected
| Welcomed (w : waiter) (ok : bool)
| ReaderBegins (r : nat) | ReaderEnded (r : nat) (lost : bool)
| LoopBegins (i : nat) | LoopWoken (i : nat) | LoopDialed (i : nat) | LoopFailed (i : nat) | LoopConnected (i : nat).

Definition run_conn (e : conn_event) : step :=
  match e with
  | CallOpen => open
  | CallClose => close
  | CallReconnect => reconnect
  | OpenDialed => open_dialed
  | OpenTimedOut => open_timed_out
  | OpenFailed => open_failed
  | OpenConnected => open_connected
  | Welcomed w ok => on_connected w ok
  | ReaderBegins r => reader_begins r
  | ReaderEnded r lost => reader_ended r lost
  | LoopBegins i => loop_begins i
  | LoopWoken i => loop_woken i
  | LoopDialed i => loop_dialed i
  | LoopFailed i => loop_failed i
  | LoopConnected i => loop_connected i
  end.

Definition after (m : Manager) (l : list conn_event) : Manager := foldl (λ m e, (run_conn e m).2) m l.

(** ** The invariant *)

(** [l] is a sequence of legal transitions from [s] to [s']. *)
Fixpoint legal (s : ConnectionState) (l : list ConnectionState) (s' : ConnectionState) : Prop :=
  match l with
  | [] => s = s'
  | x :: l' => x ∈ allowed_transitions s ∧ legal x l' s'
  end.

(** The run is in one of its attempts. *)
Definition attempting (p : phase) : bool := match p with Sleeping _ | Dialing _ _ | Greeting _ _ => true | _ => false end.
Definition tries (m : Manager) (i : nat) : Prop := ∃ p, dget (cm_loops m) i = Some p ∧ attempting p = true.

(** What is going on in each state. *)
Definition shape (m : Manager) : Prop :=
  match cm_state m with
  | CONNECTING => is_Some (cm_opening m) ∧ cm_close_requested m = false ∧ ∀ i, ¬ tries m i
  | DISCONNECTED | CONNECTED => cm_opening m = None ∧ cm_close_requested m = false ∧ ∀ i, ¬ tries m i
  | RECONNECTING => cm_opening m = None ∧ cm_close_requested m = false ∧ ∃ i, tries m i
  | CLOSED => True
  | TIMED_OUT => False
  end.

Record conn_wf (m : Manager) : Prop := {
  cw_legal : legal DISCONNECTED (cm_history m) (cm_state m);
  cw_loops : dict_wf (cm_loops m);
  cw_ids : ∀ i p, dget (cm_loops m) i = Some p → (i < cm_next_loop m)%nat;
  cw_one : ∀ i j, tries m i → tries m j → i = j;
  cw_shape : shape m;
}.

Lemma legal_snoc s l s1 s2 : legal s l s1 → s2 ∈ allowed_transitions s1 → legal s (l ++ [s2]) s2.
Proof. revert s. induction l as [|x l IH]; simpl; intros s; [intros ->; naive_solver|]. intros [Hx Hl] H. auto. Qed.

Lemma conn_wf_init attempts : conn_wf (ConnectionManager_init attempts).
Proof.
  assert (Ht : ∀ i, ¬ tries (ConnectionManager_init attempts) i) by (intros i (p & Hp & _); discriminate Hp).
  split; [done|constructor|done| |done]. intros i j T. by apply Ht in T.
Qed.

(** What the invariant reads of a manager. *)
Definition core (m : Manager) :=
  (cm_state m, cm_history m, cm_loops m, cm_next_loop m, cm_opening m, cm_close_requested m).

Lemma core_wf m m' : core m' = core m → conn_wf m → conn_wf m'.
Proof.
  unfold core. intros [= E1 E2 E3 E4 E5 E6] [Hl Hd Hi Ho Hs]. unfold shape, tries in *.
  split; unfold shape, tries; rewrite ?E1, ?E2, ?E3, ?E4, ?E5, ?E6; done.
Qed.

Lemma transition_ok st m : st ∈ allowed_transitions (cm_state m) → transition st m = (Ok tt, set_state m st).
Proof. intros H. unfold transition. by rewrite decide_True. Qed.

Ltac allowed := simpl; try eassumption; repeat match goal with E : cm_state _ = _ |- _ => rewrite E end; by apply (bool_decide_eq_true_1 _).

Ltac legal_solve :=
  first [eassumption | eapply legal_snoc; [legal_solve|apply (bool_decide_eq_true_1 _); reflexivity]].

(** *** The runs *)

Lemma tries_set m l i p j : cm_loops m = dset l i p → tries m j ↔ (j = i ∧ attempting p = true) ∨ (j ≠ i ∧ ∃ q, dget l j = Some q ∧ attempting q = true).
Proof. intros E. unfold tries. rewrite E. setoid_rewrite dget_dset. case_decide; naive_solver. Qed.

Lemma tries_pop m l i j : dict_wf l → cm_loops m = dpop l i → tries m j ↔ j ≠ i ∧ ∃ q, dget l j = Some q ∧ attempting q = true.
Proof. intros Hd E. unfold tries. rewrite E. setoid_rewrite (dget_dpop l i); [|done]. case_decide; naive_solver. Qed.

(** The runs of [m'] are those of [m], with run [i] at [p]. *)
Record moves (i : nat) (p : phase) (m m' : Manager) : Prop := {
  mv_loops : cm_loops m' = dset (cm_loops m) i p;
  mv_next : cm_next_loop m' = cm_next_loop m;
}.
(** ... and run [i] gone. *)
Record leaves (i : nat) (m m' : Manager) : Prop := {
  lv_loops : cm_loops m' = dpop (cm_loops m) i;
  lv_next : cm_next_loop m' = cm_next_loop m;
}.

Lemma moves_wf i p m m' : moves i p m m' → conn_wf m → (i < cm_next_loop m)%nat →
  legal DISCONNECTED (cm_history m') (cm_state m') → (attempting p = true → ∀ j, tries m j → j = i) → shape m' → conn_wf m'.
Proof.
  intros [El En] [Hl Hd Hi Ho Hs] Hlt Hl' Hp Hs'. split; [done|rewrite El; by apply dict_wf_dset| | |done].
  - intros j q. rewrite El, En, dget_dset. case_decide as E; [by subst|apply Hi].
  - intros j k. rewrite !(tries_set m' _ _ _ _ El). intros [[-> Ha]|[Hj Tj]] [[-> Ha']|[Hk Tk]]; try done.
    + symmetry. by apply Hp.
    + by apply Hp.
    + by apply Ho.
Qed.

Lemma leaves_wf i m m' : leaves i m m' → conn_wf m → legal DISCONNECTED (cm_history m') (cm_state m') → shape m' → conn_wf m'.
Proof.
  intros [El En] [Hl Hd Hi Ho Hs] Hl' Hs'. split; [done|rewrite El; by apply dict_wf_dpop| | |done].
  - intros j q. rewrite El, En, dget_dpop by done. case_decide; [done|apply Hi].
  - intros j k. rewrite !(tries_pop m' _ _ _ Hd El). intros [_ Tj] [_ Tk]. by apply Ho.
Qed.

(** Only the state changed. *)
Lemma state_wf m m' : cm_loops m' = cm_loops m → cm_next_loop m' = cm_next_loop m → conn_wf m →
  legal DISCONNECTED (cm_history m') (cm_state m') → shape m' → conn_wf m'.
Proof.
  intros El En [Hl Hd Hi Ho Hs] Hl' Hs'. split; [done| | | |done]; unfold tries; rewrite El, ?En; done.
Qed.

(** Solves [state_wf] in the usual case. *)
Ltac restate m :=
  apply (state_wf m); try done; simpl; try legal_solve;
  try match goal with E : cm_state _ = _ |- _ => first [by rewrite E | unfold shape; simpl; by rewrite E] end;
  try (split; [done|]; split; assumption).

Lemma tries_same m m' i : cm_loops m' = cm_loops m → tries m' i ↔ tries m i.
Proof. intros E. unfold tries. by rewrite E. Qed.

(** *** Every step keeps it *)

Lemma open_wf m : conn_wf m → conn_wf (open m).2.
Proof.
  intros W. unfold open. case_decide as E; [|done]. pose proof (cw_legal m W) as Hl. pose proof (cw_shape m W) as Hs.
  unfold shape in Hs. rewrite E in Hs, Hl. destruct Hs as (_ & _ & Ht). unfold andthen at 1. rewrite transition_ok by allowed.
  restate m.
Qed.

Lemma open_dialed_wf m : conn_wf m → conn_wf (open_dialed m).2.
Proof. intros W. unfold open_dialed. repeat case_match; try done. by apply (core_wf m). Qed.

Lemma opening_state m t : conn_wf m → cm_opening m = Some t →
  cm_state m = CONNECTING ∧ cm_close_requested m = false ∧ (∀ i, ¬ tries m i) ∨ cm_state m = CLOSED.
Proof. intros W E. pose proof (cw_shape m W) as Hs. unfold shape in Hs. destruct (cm_state m); naive_solver. Qed.

Lemma open_ended_wf m : conn_wf m → conn_wf (open_timed_out m).2 ∧ conn_wf (open_failed m).2.
Proof.
  intros W. unfold open_timed_out, open_failed. destruct (cm_opening m) as [t|] eqn:E; [|done].
  unfold andthen at 1 5, always. set (m1 := set_opening _ None).
  destruct (opening_state m t W E) as [(Es & Hc & Ht) | Es]; pose proof (cw_legal m W) as Hl; rewrite Es in Hl.
  - unfold andthen. rewrite !transition_ok by allowed. split; restate m.
  - unfold andthen, transition. assert (Es1 : cm_state m1 = CLOSED) by done. rewrite Es1, !decide_False by apply not_elem_of_nil.
    split; restate m.
Qed.

(** A transport that passed its handshake becomes the connection, unless the
    manager was closed. *)
Lemma connected_eq t m : CONNECTED ∈ allowed_transitions (cm_state m) →
  connected t m = (Ok tt, set_state (set_counts (set_transport m (Some t)) (cm_connects m) (cm_successes m + 1) (cm_retries m)) CONNECTED).
Proof. intros H. unfold connected, andthen, always. by rewrite transition_ok. Qed.
Lemma connected_closed t m : cm_state m = CLOSED →
  connected t m = (Err IllegalTransition, set_counts (set_transport m (Some t)) (cm_connects m) (cm_successes m + 1) (cm_retries m)).
Proof. intros H. unfold connected, andthen, always, transition. simpl. rewrite H. by rewrite decide_False by apply not_elem_of_nil. Qed.

Lemma open_connected_wf m : conn_wf m → conn_wf (open_connected m).2.
Proof.
  intros W. unfold open_connected. destruct (cm_opening m) as [t|] eqn:E; [|done]. case_match; [|done].
  unfold andthen at 1, always at 1. destruct (opening_state m t W E) as [(Es & Hc & Ht) | Es]; pose proof (cw_legal m W) as Hl; rewrite Es in Hl; unfold andthen.
  - rewrite connected_eq by allowed. restate m.
  - rewrite connected_closed by done. restate m.
Qed.

Lemma shape_core m m' : shape m → cm_state m' = cm_state m → cm_opening m' = cm_opening m → cm_close_requested m' = cm_close_requested m →
  (∀ i, tries m' i ↔ tries m i) → shape m'.
Proof.
  unfold shape. intros Hs -> -> -> Ht. destruct (cm_state m); try done; destruct Hs as (? & ? & Hs); (split; [done|]; split; [done|]).
  1-2,4: intros i; rewrite Ht; apply Hs. destruct Hs as [i Hi]. exists i. by apply Ht.
Qed.

(** A run that is in no attempt ends. *)
Lemma end_loop_wf i m : conn_wf m → ¬ tries m i → conn_wf (end_loop i m).
Proof.
  intros W Hi. pose proof (cw_loops m W) as Hd. apply (leaves_wf i m); try done; [apply W|]. apply (shape_core m); try done; [apply W|].
  intros j. rewrite (tries_pop (end_loop i m) (cm_loops m) i j Hd eq_refl). split; [by intros [_ ?]|].
  intros Hj. split; [|done]. by intros ->.
Qed.

Lemma on_connected_wf w ok m : conn_wf m → conn_wf (on_connected w ok m).2.
Proof.
  intros W. unfold on_connected. destruct (welcoming m w) as [t|] eqn:E; [|done].
  assert (W1 : conn_wf (waited w m)).
  { destruct w as [t'|i]; [by apply (core_wf m)|]. apply end_loop_wf; [done|]. intros (p & Hp & Ha). simpl in E. by rewrite Hp in E; destruct p. }
  destruct ok; [|done]. by apply (core_wf (waited w m)).
Qed.

Lemma reader_begins_wf r m : conn_wf m → conn_wf (reader_begins r m).2.
Proof. intros W. unfold reader_begins. repeat case_match; try done; by apply (core_wf m). Qed.

(** Only the list of open transports may differ. *)
Lemma closed_transport m : ∃ o, match cm_transport m with Some t => close_transport t m | None => m end = set_open m o.
Proof. destruct (cm_transport m); [by eexists|]. exists (cm_open m). by destruct m. Qed.

Lemma new_loop_wf m : conn_wf m → conn_wf (new_loop m Starting).
Proof.
  intros W. pose proof W as [Hl Hd Hi Ho Hs].
  assert (Hn : dget (cm_loops m) (cm_next_loop m) = None).
  { destruct (dget _ _) eqn:E; [|done]. apply Hi in E. lia. }
  assert (Ht : ∀ j, tries (new_loop m Starting) j ↔ tries m j).
  { intros j. rewrite (tries_set (new_loop m Starting) (cm_loops m) (cm_next_loop m) Starting j eq_refl). unfold tries. split; [naive_solver|].
    intros (q & Hq & Ha). right. split; [|eauto]. intros ->. congruence. }
  split; simpl; [done|by apply dict_wf_dset| | |].
  - intros j q. rewrite dget_dset. case_decide; [intros _; lia|]. intros Hq%Hi. lia.
  - intros j k. rewrite !Ht. apply Ho.
  - by apply (shape_core m).
Qed.

(** The part of [_handle_unexpected_close] up to its choice. *)
Definition lost_transport (m : Manager) (o : list nat) : Manager :=
  if decide (cm_state m = CONNECTED) then set_state (set_open m o) DISCONNECTED else set_open m o.

Lemma unexpected_close_eq m : ∃ o, let m1 := lost_transport m o in
  (handle_unexpected_close m).2 =
    if ((0 <? cm_attempts m)%nat && negb (cm_close_requested m))%bool then set_task (new_loop m1 Starting) (Some (cm_next_loop m))
    else set_close (if decide (cm_state m1 = DISCONNECTED) then set_state m1 CLOSED else m1) (cm_close_requested m) true.
Proof.
  unfold handle_unexpected_close, andthen at 1, always at 1. destruct (closed_transport m) as [o ->]. exists o. cbv zeta.
  unfold andthen at 1, lost_transport. change (cm_state (set_open m o)) with (cm_state m). case_decide as Es.
  - rewrite transition_ok by allowed. cbn [cm_attempts cm_close_requested set_state set_open]. case_match; [done|].
    unfold andthen, always. rewrite (decide_True (P := cm_state (set_state _ _) = _)) by done. by rewrite transition_ok by allowed.
  - cbn [cm_attempts cm_close_requested set_open]. case_match; [done|]. unfold andthen, always.
    change (cm_state (set_open m o)) with (cm_state m). case_decide as Ed; [|done]. by rewrite transition_ok by allowed.
Qed.

Lemma lost_transport_wf m o : conn_wf m → conn_wf (lost_transport m o).
Proof.
  intros W. unfold lost_transport. case_decide as Es; [|by apply (core_wf m)].
  pose proof (cw_legal m W) as Hl. pose proof (cw_shape m W) as Hs. unfold shape in Hs. rewrite Es in Hs, Hl.
  restate m.
Qed.

Lemma closes_wf m requested event : conn_wf m → CLOSED ∈ allowed_transitions (cm_state m) → conn_wf (set_close (set_state m CLOSED) requested event).
Proof. intros W H. apply (state_wf m); try done. simpl. eapply legal_snoc; [apply W|done]. Qed.

Lemma unexpected_close_wf m : conn_wf m → conn_wf (handle_unexpected_close m).2.
Proof.
  intros W. destruct (unexpected_close_eq m) as [o ->]. pose proof (lost_transport_wf m o W) as W1. cbv zeta. case_match.
  - eapply core_wf; [|by apply new_loop_wf, W1]. done.
  - case_decide as Es; [apply closes_wf; [done|allowed]|]. apply (core_wf (lost_transport m o)); [|done].
    unfold lost_transport in *. by case_decide.
Qed.

Lemma reader_ended_wf r lost m : conn_wf m → conn_wf (reader_ended r lost m).2.
Proof.
  intros W. unfold reader_ended. destruct (dget (cm_readers m) r) as [[t|]|]; try done. set (m1 := end_reader r _).
  assert (W1 : conn_wf m1) by (apply (core_wf m); [by destruct lost|done]). case_match; [done|]. by apply unexpected_close_wf.
Qed.

(** [_reconnect_loop] when no attempt is left. *)
Definition exhausted (i : nat) (m : Manager) : Manager :=
  let m1 := end_loop i m in
  set_close (if decide (cm_state m = RECONNECTING) then set_state (set_state m1 DISCONNECTED) CLOSED else m1) (cm_close_requested m) true.

Lemma loop_next_eq i k m : (loop_next i k m).2 =
  if (k <=? cm_attempts m)%nat then
    if cm_close_requested m then end_loop i m
    else set_loops (set_counts m (cm_connects m) (cm_successes m) (cm_retries m + 1)) (dset (cm_loops m) i (Sleeping k))
  else exhausted i m.
Proof.
  unfold loop_next, exhausted. case_match; [by case_match|]. unfold andthen, always. change (cm_state (end_loop i m)) with (cm_state m).
  case_decide as Es; [|done]. rewrite transition_ok by allowed. rewrite transition_ok by (by apply (bool_decide_eq_true_1 _)). done.
Qed.

(** The head of the loop, entered by the run that is the only one to try. *)
Lemma loop_next_wf i k m : legal DISCONNECTED (cm_history m) (cm_state m) → dict_wf (cm_loops m) →
  (∀ j p, dget (cm_loops m) j = Some p → (j < cm_next_loop m)%nat) → (i < cm_next_loop m)%nat →
  (∀ j, tries m j → j = i) → cm_state m = RECONNECTING ∧ cm_opening m = None ∧ cm_close_requested m = false ∨ cm_state m = CLOSED →
  conn_wf (loop_next i k m).2.
Proof.
  intros Hl Hd Hi Hlt Ho Hs. rewrite loop_next_eq.
  assert (Hpop : ∀ m' j, cm_loops m' = dpop (cm_loops m) i → ¬ tries m' j).
  { intros m' j E. rewrite (tries_pop m' _ i j Hd E). intros [Hj T]. by apply Hj, Ho. }
  assert (Hset : ∀ m' j, cm_loops m' = dset (cm_loops m) i (Sleeping k) → tries m' j ↔ j = i).
  { intros m' j E. rewrite (tries_set m' _ i _ j E). simpl. split; [|by left]. intros [[-> _]|[Hj T]]; [done|]. by apply Ho. }
  case_match; [case_match eqn:Ec|].
  - destruct Hs as [(_ & _ & ?)|Hs]; [congruence|].
    split; simpl; [done|by apply dict_wf_dpop| | |unfold shape; simpl; by rewrite Hs].
    + intros j q. rewrite dget_dpop by done. case_decide; [done|apply Hi].
    + intros j l T. by apply Hpop in T.
  - split; simpl; [done|by apply dict_wf_dset| | |].
    + intros j q. rewrite dget_dset. case_decide; [by subst|apply Hi].
    + intros j l Hj Hl'. rewrite Hset in Hj, Hl' by done. congruence.
    + unfold shape. simpl. destruct Hs as [(-> & ? & ?)| ->]; [|done]. split; [done|]. split; [done|]. exists i. by apply Hset.
  - unfold exhausted.
    assert (Hids : ∀ j q, dget (dpop (cm_loops m) i) j = Some q → (j < cm_next_loop m)%nat).
    { intros j q. rewrite dget_dpop by done. case_decide; [done|apply Hi]. }
    destruct Hs as [(Es & _)|Es]; rewrite Es in Hl; [rewrite decide_True by done|rewrite decide_False by congruence].
    + split; simpl; [legal_solve|by apply dict_wf_dpop|done| |done]. intros j l T. by apply Hpop in T.
    + split; simpl; [by rewrite Es|by apply dict_wf_dpop|done| |unfold shape; simpl; by rewrite Es]. intros j l T. by apply Hpop in T.
Qed.

Lemma dget_ids m i p : conn_wf m → dget (cm_loops m) i = Some p → (i < cm_next_loop m)%nat.
Proof. intros W E. by eapply cw_ids. Qed.

(** The first piece of a run that is in no attempt. *)
Lemma loop_start_wf i m : conn_wf m → (i < cm_next_loop m)%nat → ¬ tries m i → conn_wf (loop_start i m).2.
Proof.
  intros W Hi Hn. unfold loop_start, transition. case_decide as Ha; [|by apply end_loop_wf].
  pose proof W as [Hl Hd Hids Ho Hs].
  assert (Hno : cm_opening m = None ∧ cm_close_requested m = false ∧ ∀ j, ¬ tries m j).
  { unfold shape in Hs. destruct (cm_state m); try done; simpl in Ha; set_solver. }
  destruct Hno as (Hop & Hc & Hno). apply loop_next_wf; simpl; try done.
  - by eapply legal_snoc.
  - intros j T. by apply Hno in T.
  - by left.
Qed.

Lemma loop_begins_wf i m : conn_wf m → conn_wf (loop_begins i m).2.
Proof.
  intros W. unfold loop_begins. destruct (dget (cm_loops m) i) as [[]|] eqn:E; try done.
  apply loop_start_wf; [done|by eapply dget_ids|]. intros (p & Hp & Ha). rewrite E in Hp. by injection Hp as <-.
Qed.

(** A run in an attempt is the only one, and the state is RECONNECTING, or
    the manager was closed. *)
Lemma tries_state m i : conn_wf m → tries m i →
  (∀ j, tries m j → j = i) ∧ (i < cm_next_loop m)%nat ∧
  (cm_state m = RECONNECTING ∧ cm_opening m = None ∧ cm_close_requested m = false ∨ cm_state m = CLOSED).
Proof.
  intros W T. split; [intros j Hj; by apply (cw_one m W)|]. split; [destruct T as (p & Hp & _); by eapply dget_ids|].
  pose proof (cw_shape m W) as Hs. unfold shape in Hs. destruct (cm_state m); naive_solver.
Qed.

Lemma loop_goes_wf i p q m m' : conn_wf m → dget (cm_loops m) i = Some p → attempting p = true → attempting q = true →
  moves i q m m' → cm_state m' = cm_state m → cm_history m' = cm_history m → cm_opening m' = cm_opening m →
  cm_close_requested m' = cm_close_requested m → conn_wf m'.
Proof.
  intros W E Hp Hq Hm Es Eh Eo Ec. assert (T : tries m i) by (by exists p). destruct (tries_state m i W T) as (Ho & Hi & _).
  apply (moves_wf i q m m' Hm W Hi); [rewrite Es, Eh; apply W|done|]. apply (shape_core m); try done; [apply W|].
  intros j. rewrite (tries_set m' _ _ _ j (mv_loops _ _ _ _ Hm)). split.
  - intros [[-> _]|[_ ?]]; done.
  - intros Tj. left. split; [by apply Ho|done].
Qed.

Lemma loop_woken_wf i m : conn_wf m → conn_wf (loop_woken i m).2 ∧ conn_wf (loop_dialed i m).2.
Proof.
  intros W. unfold loop_woken, loop_dialed. destruct (dget (cm_loops m) i) as [[]|] eqn:E; try done; (split; [|]); try done; simpl.
  all: match goal with |- context [dset _ _ ?q] => by apply (loop_goes_wf i _ q m _ W E) end.
Qed.

Lemma loop_failed_wf i m : conn_wf m → conn_wf (loop_failed i m).2.
Proof.
  intros W. unfold loop_failed. destruct (dget (cm_loops m) i) as [[]|] eqn:E; try done.
  all: destruct (tries_state m i W) as (Ho & Hi & Hst); [by eexists|]; apply loop_next_wf; try done; apply W.
Qed.

Lemma loop_connected_wf i m : conn_wf m → conn_wf (loop_connected i m).2.
Proof.
  intros W. unfold loop_connected. destruct (dget (cm_loops m) i) as [[]|] eqn:E; try done.
  destruct (tries_state m i W) as (Ho & Hi & Hst); [by eexists|]. pose proof W as [Hl Hd _ _ _].
  destruct Hst as [(Es & Hop & Hc) | Es].
  - rewrite connected_eq by allowed. rewrite Es in Hl. apply (moves_wf i (Announcing transport) m); try done; simpl; [legal_solve|].
    split; [done|]. split; [done|]. intros j Tj. apply (tries_set _ (cm_loops m) i (Announcing transport)) in Tj; [|done]. destruct Tj as [[_ ?]|[Hj T]]; [done|]. by apply Hj, Ho.
  - rewrite connected_closed by done. apply (leaves_wf i m); try done; simpl; first [by rewrite Es in * | unfold shape; simpl; by rewrite Es].
Qed.

(** [close], up to its transitions. *)
Definition abandoned (m : Manager) : Manager :=
  let m1 := set_close m true (cm_closed_event m) in
  drop_transport (set_task (match cm_task m with Some i => end_loop i m1 | None => m1 end) None).

Definition shut (m : Manager) : Manager :=
  let m1 := abandoned m in
  set_close (set_state (if decide (cm_state m = DISCONNECTED) then m1 else set_state m1 DISCONNECTED) CLOSED) true true.

Lemma dropped_fields m :
  cm_state (drop_transport m) = cm_state m ∧ cm_history (drop_transport m) = cm_history m ∧ cm_transport (drop_transport m) = None ∧
  cm_reader (drop_transport m) = None ∧ cm_task (drop_transport m) = cm_task m ∧ cm_next_loop (drop_transport m) = cm_next_loop m ∧
  cm_loops (drop_transport m) = cm_loops m ∧ cm_opening (drop_transport m) = cm_opening m ∧
  cm_close_requested (drop_transport m) = cm_close_requested m ∧ cm_opened (drop_transport m) = cm_opened m ∧
  cm_attempts (drop_transport m) = cm_attempts m ∧
  cm_readers (drop_transport m) = match cm_reader m with Some r => dpop (cm_readers m) r | None => cm_readers m end ∧
  cm_next_reader (drop_transport m) = cm_next_reader m.
Proof. by destruct m as [? ? [] ? ? ? ? ? ? []]. Qed.

Lemma abandoned_fields m :
  cm_state (abandoned m) = cm_state m ∧ cm_history (abandoned m) = cm_history m ∧ cm_transport (abandoned m) = None ∧
  cm_reader (abandoned m) = None ∧ cm_task (abandoned m) = None ∧ cm_next_loop (abandoned m) = cm_next_loop m ∧
  cm_loops (abandoned m) = match cm_task m with Some i => dpop (cm_loops m) i | None => cm_loops m end ∧
  cm_readers (abandoned m) = match cm_reader m with Some r => dpop (cm_readers m) r | None => cm_readers m end ∧
  cm_next_reader (abandoned m) = cm_next_reader m ∧ cm_attempts (abandoned m) = cm_attempts m.
Proof. by destruct m as [? ? [] ? ? ? ? ? ? [] ? ? []]. Qed.

Lemma close_eq m : cm_state m ≠ CLOSED → cm_state m ≠ TIMED_OUT → close m = (Ok tt, shut m).
Proof.
  intros H1 H2. unfold close. rewrite decide_False by done. unfold andthen at 1 2 3, always.
  change (drop_transport _) with (abandoned m). destruct (abandoned_fields m) as (Hs & _).
  unfold shut. unfold andthen at 1. rewrite Hs. case_decide as H; unfold andthen, always.
  - rewrite transition_ok; [done|]. rewrite Hs, H. by apply (bool_decide_eq_true_1 _).
  - rewrite transition_ok; [rewrite transition_ok; [done|by apply (bool_decide_eq_true_1 _)]|].
    rewrite Hs. by destruct (cm_state m); try apply (bool_decide_eq_true_1 _).
Qed.

(** [close] always ends in CLOSED, with nothing left of the connection. *)
Lemma shut_fields m :
  cm_state (shut m) = CLOSED ∧ cm_transport (shut m) = None ∧ cm_reader (shut m) = None ∧ cm_task (shut m) = None ∧
  cm_closed_event (shut m) = true ∧ cm_next_loop (shut m) = cm_next_loop m ∧ cm_loops (shut m) = cm_loops (abandoned m) ∧
  cm_readers (shut m) = cm_readers (abandoned m) ∧ cm_next_reader (shut m) = cm_next_reader m ∧ cm_close_requested (shut m) = true.
Proof. destruct (abandoned_fields m) as (_ & _ & H1 & H2 & H3 & H4 & _ & _ & H5 & _). unfold shut. case_decide; by repeat split. Qed.

Lemma not_timed_out m : conn_wf m → cm_state m ≠ TIMED_OUT.
Proof. intros W E. pose proof (cw_shape m W) as Hs. unfold shape in Hs. by rewrite E in Hs. Qed.

Lemma shut_wf m : conn_wf m → cm_state m ≠ CLOSED → conn_wf (shut m).
Proof.
  intros W Hc. destruct (abandoned_fields m) as (Es & Eh & _ & _ & _ & _ & El & _).
  destruct (shut_fields m) as (Fs & _ & _ & _ & _ & Fn & Fl & _).
  assert (Hl : legal DISCONNECTED (cm_history (shut m)) (cm_state (shut m))).
  { pose proof (cw_legal m W) as Hl. rewrite Fs. unfold shut. case_decide as Hd; simpl; rewrite Eh; [rewrite Hd in Hl; legal_solve|].
    pose proof (not_timed_out m W). destruct (cm_state m); try done; legal_solve. }
  assert (Hs : shape (shut m)) by (unfold shape; by rewrite Fs). rewrite El in Fl. destruct (cm_task m) as [i|].
  - by apply (leaves_wf i m).
  - by apply (state_wf m).
Qed.

Lemma close_wf m : conn_wf m → conn_wf (close m).2.
Proof.
  intros W. destruct (decide (cm_state m = CLOSED)) as [H|H]; [unfold close; by rewrite decide_True|].
  rewrite close_eq; [by apply shut_wf|done|by apply not_timed_out].
Qed.

(** [reconnect], up to its loop. *)
Definition detached (m : Manager) : Manager :=
  let m1 := drop_transport m in if decide (cm_state m = CONNECTED) then set_state m1 DISCONNECTED else m1.

Lemma reconnect_eq m : reconnect m = (Err Refused, m) ∨
  reconnect m = loop_start (cm_next_loop m) (new_loop (detached m) Starting).
Proof.
  unfold reconnect. case_match; [by left|]. case_match; [by left|]. right. unfold andthen at 1, always, detached.
  destruct (dropped_fields m) as (Es & _ & _ & _ & _ & En & _). unfold andthen. rewrite Es. case_decide as E.
  - rewrite transition_ok by (rewrite Es, E; by apply (bool_decide_eq_true_1 _)). simpl. by rewrite En.
  - by rewrite En.
Qed.

Lemma detached_wf m : conn_wf m → conn_wf (detached m).
Proof.
  intros W. destruct (dropped_fields m) as (Es & Eh & _ & _ & _ & En & El & Eo & Ec & _). unfold detached. case_decide as E.
  - pose proof (cw_legal m W) as Hl. pose proof (cw_shape m W) as Hs. unfold shape in Hs. rewrite E in Hs, Hl.
    apply (state_wf m); try done; simpl; [rewrite Eh; legal_solve|]. unfold shape, tries. simpl. by rewrite Eo, Ec, El.
  - apply (core_wf m); [|done]. unfold core. congruence.
Qed.

Lemma reconnect_wf m : conn_wf m → conn_wf (reconnect m).2.
Proof.
  intros W. destruct (reconnect_eq m) as [-> | ->]; [done|]. pose proof (detached_wf m W) as W1.
  assert (En : cm_next_loop (detached m) = cm_next_loop m).
  { destruct (dropped_fields m) as (_ & _ & _ & _ & _ & En & _). unfold detached. by case_decide. }
  apply loop_start_wf; [by apply new_loop_wf|simpl; lia|]. intros (p & Hp & Ha). simpl in Hp. rewrite <- En, dget_dset, decide_True in Hp by done.
  by injection Hp as <-.
Qed.

Lemma run_conn_wf e m : conn_wf m → conn_wf (run_conn e m).2.
Proof.
  intros W. destruct e; simpl.
  - by apply open_wf.
  - by apply close_wf.
  - by apply reconnect_wf.
  - by apply open_dialed_wf.
  - by apply open_ended_wf.
  - by apply open_ended_wf.
  - by apply open_connected_wf.
  - by apply on_connected_wf.
  - by apply reader_begins_wf.
  - by apply reader_ended_wf.
  - by apply loop_begins_wf.
  - by apply loop_woken_wf.
  - by apply loop_woken_wf.
  - by apply loop_failed_wf.
  - by apply loop_connected_wf.
Qed.


(** ** CLOSED is for ever *)






(** ** What an operation leaves alone *)

Lemma andthen_moves (R : relation Manager) `{!PreOrder R} a b m :
  R m (a m).2 → (∀ m', R m' (b m').2) → R m ((a >> b) m).2.
Proof. intros Ha Hb. unfold andthen. destruct (a m) as [[] m1]; simpl in *; [|done]. etrans; [exact Ha|apply Hb]. Qed.

Create HintDb conn.

(** [R] along the syntax of a step; the database knows [transition]. *)
Ltac footprint :=
  lazymatch goal with
  | |- _ _ ((_ >> _) _).2 => apply andthen_moves; [typeclasses eauto|footprint|intros ?; footprint]
  | |- _ _ (transition _ _).2 => solve [auto with conn]
  | |- _ _ (always _ _).2 => unfold always; simpl; repeat case_match; done
  | |- _ ?m ?x => first [reflexivity | done | progress (cbn beta; repeat case_match); footprint]
  end.

(** The reader tasks and their numbers stay. *)
Definition same_readers (m m' : Manager) : Prop := cm_readers m' = cm_readers m ∧ cm_next_reader m' = cm_next_reader m.
#[export] Instance same_readers_preorder : PreOrder same_readers.
Proof. split; [done|]. intros m1 m2 m3 (? & ?) (? & ?). split; congruence. Qed.

Lemma transition_readers st m : same_readers m (transition st m).2.
Proof. unfold transition. by case_decide. Qed.
#[export] Hint Resolve transition_readers : conn.

Definition readers_wf (m : Manager) : Prop :=
  dict_wf (cm_readers m) ∧ ∀ r o, dget (cm_readers m) r = Some o → (r < cm_next_reader m)%nat.

Lemma same_readers_wf m m' : same_readers m m' → readers_wf m → readers_wf m'.
Proof. intros [E1 E2] W. unfold readers_wf. by rewrite E1, E2. Qed.

Lemma end_reader_wf r m : readers_wf m → readers_wf (end_reader r m).
Proof.
  intros [Hd Hi]. split; [by apply dict_wf_dpop|]. intros r' o. simpl. rewrite dget_dpop by done. case_decide; [done|apply Hi].
Qed.

Lemma drop_transport_readers m : readers_wf m → readers_wf (drop_transport m).
Proof.
  intros W. assert (W1 : readers_wf (match cm_reader m with Some r => end_reader r m | None => m end)) by (case_match; [by apply end_reader_wf|done]).
  eapply same_readers_wf; [|exact W1]. destruct (dropped_fields m) as (_ & _ & _ & _ & _ & _ & _ & _ & _ & _ & _ & Er & En).
  split; [rewrite Er|rewrite En]; by case_match.
Qed.

Lemma loop_next_readers i k m : same_readers m (loop_next i k m).2.
Proof. unfold loop_next. footprint. Qed.
Lemma loop_start_readers i m : same_readers m (loop_start i m).2.
Proof. unfold loop_start, transition. case_decide; [|done]. etrans; [|apply loop_next_readers]. done. Qed.
Lemma unexpected_close_readers m : same_readers m (handle_unexpected_close m).2.
Proof. unfold handle_unexpected_close. footprint. Qed.
Lemma connected_readers t m : same_readers m (connected t m).2.
Proof. unfold connected. footprint. Qed.

Lemma run_readers_wf e m : conn_wf m → readers_wf m → readers_wf (run_conn e m).2.
Proof.
  intros C W. destruct e; simpl.
  - eapply same_readers_wf; [|exact W]. unfold open. footprint.
  - destruct (decide (cm_state m = CLOSED)) as [H|H]; [unfold close; by rewrite decide_True|].
    rewrite close_eq by (done || by apply not_timed_out). cbn [snd].
    destruct (shut_fields m) as (_ & _ & _ & _ & _ & _ & _ & Fr & Fn & _). destruct (abandoned_fields m) as (_ & _ & _ & _ & _ & _ & _ & Er & _).
    apply (same_readers_wf (match cm_reader m with Some r => end_reader r m | None => m end)); [|case_match; [by apply end_reader_wf|done]].
    split; [rewrite Fr, Er|rewrite Fn]; by case_match.
  - destruct (reconnect_eq m) as [-> | ->]; [done|]. eapply same_readers_wf; [apply loop_start_readers|].
    apply drop_transport_readers in W. unfold detached. by case_decide.
  - eapply same_readers_wf; [|exact W]. unfold open_dialed. footprint.
  - eapply same_readers_wf; [|exact W]. unfold open_timed_out. footprint.
  - eapply same_readers_wf; [|exact W]. unfold open_failed. footprint.
  - eapply same_readers_wf; [|exact W]. unfold open_connected, connected. footprint.
  - unfold on_connected. case_match; [|done]. assert (W1 : readers_wf (waited w m)) by (by destruct w). destruct ok; [|done].
    destruct W1 as [Hd Hi]. split; simpl; [by apply dict_wf_dset|]. intros r o. rewrite dget_dset. case_decide; [intros _; lia|].
    intros Hr%Hi. lia.
  - unfold reader_begins. destruct (dget _ _) as [[|]|] eqn:E; try done. simpl. case_match; [case_match|]; try by apply end_reader_wf.
    destruct W as [Hd Hi]. split; simpl; [by apply dict_wf_dset|]. intros r' o. rewrite dget_dset. case_decide; [|apply Hi].
    intros _. subst. by eapply Hi.
  - unfold reader_ended. destruct (dget _ _) as [[t|]|]; try done. set (m1 := end_reader r _).
    assert (W1 : readers_wf m1) by (apply end_reader_wf; by destruct lost). case_match; [done|].
    eapply same_readers_wf; [apply unexpected_close_readers|done].
  - unfold loop_begins. repeat case_match; try done. eapply same_readers_wf; [apply loop_start_readers|done].
  - unfold loop_woken. by repeat case_match.
  - unfold loop_dialed. by repeat case_match.
  - unfold loop_failed. repeat case_match; try done; (eapply same_readers_wf; [apply loop_next_readers|done]).
  - unfold loop_connected. destruct (dget (cm_loops m) i) as [[]|]; try done. pose proof (connected_readers transport m) as H.
    destruct (connected transport m) as [[] m1]; by apply (same_readers_wf m).
Qed.

Lemma after_readers_wf l m : conn_wf m → readers_wf m → readers_wf (after m l).
Proof. revert m. induction l as [|e l IH]; intros m C W; [done|]. by apply IH; [apply run_conn_wf|apply run_readers_wf]. Qed.

(** ** A connection that stands is read *)



(** Events in which no [on_connected] fails. *)
Definition welcomed (e : conn_event) : bool := match e with Welcomed _ ok => ok | _ => true end.











(** ** ... by one reader *)

(** No task of a run waits to be started. *)
Definition settled (m : Manager) : bool := forallb (λ x, match x.2 with Starting => false | _ => true end) (cm_loops m).
(** No [on_connected] is running. *)
Definition unwaited (m : Manager) : bool :=
  bool_decide (cm_opened m = []) && forallb (λ x, match x.2 with Announcing _ => false | _ => true end) (cm_loops m).

(** The events of an orderly use: nobody calls [reconnect] while an
    [on_connected] is running, and a created run starts before a handshake ends. *)
Definition orderly (m : Manager) (e : conn_event) : bool :=
  match e with
  | CallReconnect => unwaited m
  | OpenConnected | LoopConnected _ => settled m
  | _ => true
  end.
Fixpoint orderly_run (m : Manager) (l : list conn_event) : bool :=
  match l with [] => true | e :: l' => orderly m e && orderly_run (run_conn e m).2 l' end.





(** Fewer coroutines wait for [on_connected], and the readers are the same. *)
Definition less (m m' : Manager) : Prop :=
  cm_readers m' = cm_readers m ∧ ∀ w t, welcoming m' w = Some t → welcoming m w = Some t.
#[export] Instance less_preorder : PreOrder less.
Proof. split; [done|]. intros m1 m2 m3 [E1 H1] [E2 H2]. split; [congruence|]. auto. Qed.























(** ** Reconnection ends *)

(** The run an event carries on. *)
Definition run_of (e : conn_event) : option nat :=
  match e with
  | LoopBegins i | LoopWoken i | LoopDialed i | LoopFailed i | LoopConnected i | Welcomed (Run i) _ => Some i
  | _ => None
  end.

(** How many steps run [i] makes along the events [l]. *)
Fixpoint run_steps (i : nat) (m : Manager) (l : list conn_event) : nat :=
  match l with
  | [] => 0
  | e :: l' =>
      let '(r, m') := run_conn e m in
      (if decide (run_of e = Some i) then match r with Err Refused => 0 | _ => 1 end else 0) + run_steps i m' l'
  end.

(** How many it can still make. *)
Definition phase_left (attempts : nat) (p : phase) : nat :=
  match p with
  | Starting => 3 * attempts + 2
  | Sleeping k => 3 * (attempts - k) + 4
  | Dialing k _ => 3 * (attempts - k) + 3
  | Greeting k _ => 3 * (attempts - k) + 2
  | Announcing _ => 1
  end.
Definition steps_left (i : nat) (m : Manager) : nat :=
  match dget (cm_loops m) i with
  | Some p => phase_left (cm_attempts m) p
  | None => if decide (i < cm_next_loop m)%nat then 0 else 3 * cm_attempts m + 2
  end.

(** The runs of the loop, their numbers and the policy stay. *)
Definition same_runs (m m' : Manager) : Prop :=
  cm_loops m' = cm_loops m ∧ cm_next_loop m' = cm_next_loop m ∧ cm_attempts m' = cm_attempts m.
#[export] Instance same_runs_preorder : PreOrder same_runs.
Proof. split; [done|]. intros m1 m2 m3 (? & ? & ?) (? & ? & ?). unfold same_runs. repeat split; congruence. Qed.
Lemma transition_runs st m : same_runs m (transition st m).2.
Proof. unfold transition. by case_decide. Qed.
#[export] Hint Resolve transition_runs : conn.

(** No run gets more steps. *)
Definition spends (m m' : Manager) : Prop := cm_attempts m' = cm_attempts m ∧ ∀ i, (steps_left i m' <= steps_left i m)%nat.
#[export] Instance spends_preorder : PreOrder spends.
Proof. split; [done|]. intros m1 m2 m3 [? H1] [? H2]. split; [congruence|]. intros i. specialize (H1 i). specialize (H2 i). lia. Qed.

Lemma same_spends m m' : same_runs m m' → spends m m'.
Proof. intros (H1 & H2 & H3). split; [done|]. intros i. unfold steps_left. by rewrite H1, H2, H3. Qed.

(** [m'] leaves at most [n] steps to run [i], and no other more than [m] does. *)
Definition spares (i n : nat) (m m' : Manager) : Prop :=
  cm_attempts m' = cm_attempts m ∧ (steps_left i m' <= n)%nat ∧ ∀ j, j ≠ i → (steps_left j m' <= steps_left j m)%nat.

Lemma spares_spends i n m m' : spares i n m m' → (n <= steps_left i m)%nat → spends m m'.
Proof. intros (Ha & Hi & Hj) Hn. split; [done|]. intros j. destruct (decide (j = i)) as [->|?]; [lia|auto]. Qed.

Lemma spares_more i n n' m m' : spares i n m m' → (n <= n')%nat → spares i n' m m'.
Proof. intros (Ha & Hi & Hj) Hn. split; [done|]. split; [lia|done]. Qed.

Lemma same_spares i n m m1 m2 : same_runs m m1 → spares i n m1 m2 → spares i n m m2.
Proof.
  intros [Ha' Hs]%same_spends (Ha & Hi & Hj). split; [congruence|]. split; [done|].
  intros j Hne. specialize (Hs j). specialize (Hj j Hne). lia.
Qed.

(** Run [i] ends, or is set to [p]. *)
Lemma pop_spares i m m' : dict_wf (cm_loops m) → (i < cm_next_loop m)%nat → leaves i m m' → cm_attempts m' = cm_attempts m → spares i 0 m m'.
Proof.
  intros Hd Hi [El En] Ea. split; [done|]. unfold steps_left. rewrite El, En, Ea.
  split; [|intros j Hj]; rewrite dget_dpop by done.
  - by rewrite !decide_True by done.
  - by rewrite decide_False.
Qed.

Lemma set_spares i p m m' : moves i p m m' → cm_attempts m' = cm_attempts m → spares i (phase_left (cm_attempts m) p) m m'.
Proof.
  intros [El En] Ea. split; [done|]. unfold steps_left. rewrite El, En, Ea. split; [|intros j Hj]; rewrite dget_dset.
  - by rewrite decide_True.
  - by rewrite decide_False.
Qed.

Lemma loop_next_spares i k m : dict_wf (cm_loops m) → (i < cm_next_loop m)%nat →
  spares i (if (k <=? cm_attempts m)%nat then 3 * (cm_attempts m - k) + 4 else 0) m (loop_next i k m).2.
Proof.
  intros Hd Hi. rewrite loop_next_eq. destruct (k <=? cm_attempts m)%nat; [case_match|].
  - eapply spares_more; [by apply pop_spares|lia].
  - by apply (set_spares i (Sleeping k)).
  - unfold exhausted. case_decide; by apply pop_spares.
Qed.

Lemma loop_start_spares i m : dict_wf (cm_loops m) → (i < cm_next_loop m)%nat → spares i (3 * cm_attempts m + 1) m (loop_start i m).2.
Proof.
  intros Hd Hi. unfold loop_start, transition. case_decide; cbn [fst snd].
  - eapply same_spares; [by instantiate (1 := set_state m RECONNECTING)|]. eapply spares_more; [by apply loop_next_spares|].
    cbn [cm_attempts set_state]. destruct (1 <=? cm_attempts m)%nat eqn:E; [apply Nat.leb_le in E|]; lia.
  - eapply spares_more; [by apply pop_spares|lia].
Qed.

(** A fresh run. *)
Lemma new_loop_spends m : conn_wf m → spends m (new_loop m Starting).
Proof.
  intros W. split; [done|]. intros j. unfold steps_left. simpl. rewrite dget_dset. case_decide as E; subst.
  - rewrite decide_False by lia. destruct (dget (cm_loops m) (cm_next_loop m)) eqn:E; [|simpl; lia].
    apply (dget_ids m _ _ W) in E. lia.
  - destruct (dget (cm_loops m) j); [done|]. repeat case_decide; lia.
Qed.

Lemma reconnect_spends m : conn_wf m → spends m (reconnect m).2.
Proof.
  intros W. destruct (reconnect_eq m) as [-> | ->]; [done|]. pose proof (detached_wf m W) as W1.
  assert (Hs : same_runs m (detached m)).
  { destruct (dropped_fields m) as (_ & _ & _ & _ & _ & En & El & _ & _ & _ & Ea & _). unfold detached. by case_decide. }
  pose proof Hs as (_ & En & Ea). etrans; [by apply same_spends|]. etrans; [by apply new_loop_spends|]. rewrite <- En.
  eapply spares_spends; [apply loop_start_spares|]; simpl; [by apply new_loop_wf|lia|].
  unfold steps_left. simpl. rewrite dget_dset, decide_True by done. simpl. lia.
Qed.

Lemma unexpected_close_spends m : conn_wf m → spends m (handle_unexpected_close m).2.
Proof.
  intros W. destruct (unexpected_close_eq m) as [o ->]. cbv zeta. pose proof (lost_transport_wf m o W) as W1.
  assert (Hs : same_runs m (lost_transport m o)) by (unfold lost_transport; by case_decide).
  etrans; [by apply same_spends|]. case_match.
  - etrans; [by apply new_loop_spends|]. by apply same_spends.
  - apply same_spends. by case_decide.
Qed.

Lemma close_spends m : conn_wf m → spends m (close m).2.
Proof.
  intros W. destruct (decide (cm_state m = CLOSED)); [unfold close; by rewrite decide_True|].
  rewrite close_eq by (done || by apply not_timed_out). cbn [snd].
  destruct (shut_fields m) as (_ & _ & _ & _ & _ & Fn & Fl & _). destruct (abandoned_fields m) as (_ & _ & _ & _ & _ & _ & El & _ & _ & Fa).
  assert (Ea : cm_attempts (shut m) = cm_attempts m) by (rewrite <- Fa; unfold shut; by case_decide).
  rewrite El in Fl. destruct (cm_task m) as [j|]; [|by apply same_spends]. destruct (dget (cm_loops m) j) as [p|] eqn:Ej.
  - eapply spares_spends; [apply (pop_spares j m (shut m)); [apply W|by eapply dget_ids|by split|done]|lia].
  - split; [done|]. intros i. unfold steps_left. rewrite Fl, Fn, Ea, dget_dpop by apply W. case_decide; [|done]. subst. by rewrite Ej.
Qed.

(** An event that carries no run on. *)
Lemma call_spends e m : conn_wf m → run_of e = None → spends m (run_conn e m).2.
Proof.
  intros W Hn. destruct e; try done; simpl.
  - apply same_spends. unfold open. footprint.
  - by apply close_spends.
  - by apply reconnect_spends.
  - apply same_spends. unfold open_dialed. footprint.
  - apply same_spends. unfold open_timed_out. footprint.
  - apply same_spends. unfold open_failed. footprint.
  - apply same_spends. unfold open_connected, connected. footprint.
  - destruct w; [|done]. apply same_spends. unfold on_connected. case_match; [by destruct ok|done].
  - apply same_spends. unfold reader_begins. by repeat case_match.
  - unfold reader_ended. destruct (dget _ _) as [[t|]|]; try done. set (m1 := end_reader r _).
    assert (Hs : same_runs m m1) by (unfold m1; by destruct lost).
    assert (W1 : conn_wf m1) by (apply (core_wf m); [unfold m1; by destruct lost|done]).
    case_match; [by apply same_spends|]. etrans; [by apply same_spends|]. by apply unexpected_close_spends.
Qed.

(** An event that carries run [i] on, and is not refused, uses up a step. *)
Lemma run_spends e i m : conn_wf m → run_of e = Some i → (run_conn e m).1 ≠ Err Refused →
  ∃ n, (n < steps_left i m)%nat ∧ spares i n m (run_conn e m).2.
Proof.
  intros W He Hr. pose proof (cw_loops m W) as Hd.
  destruct e as [| | | | | | |[t|j] ok| | |j|j|j|j|j]; try done; simpl in He; injection He as ->; simpl in *.
  - unfold on_connected in *. simpl in *. destruct (dget (cm_loops m) i) as [[]|] eqn:E; try done. exists 0%nat.
    split; [unfold steps_left; rewrite E; simpl; lia|]. destruct ok; (apply pop_spares; [done|by eapply dget_ids|by split|done]).
  - unfold loop_begins in *. destruct (dget (cm_loops m) i) as [[]|] eqn:E; try done.
    exists (3 * cm_attempts m + 1)%nat. split; [unfold steps_left; rewrite E; simpl; lia|]. apply loop_start_spares; [done|by eapply dget_ids].
  - unfold loop_woken in *. destruct (dget (cm_loops m) i) as [[]|] eqn:E; try done. eexists. split; [|by apply (set_spares i (Dialing attempt (cm_next m)))].
    unfold steps_left. rewrite E. simpl. lia.
  - unfold loop_dialed in *. destruct (dget (cm_loops m) i) as [[]|] eqn:E; try done. eexists. split; [|by apply (set_spares i (Greeting attempt transport))].
    unfold steps_left. rewrite E. simpl. lia.
  - unfold loop_failed in *. destruct (dget (cm_loops m) i) as [[]|] eqn:E; try done; eexists; (split; [|apply loop_next_spares; [done|by eapply dget_ids]]).
    all: unfold steps_left; rewrite E; case_match eqn:Ek; [apply Nat.leb_le in Ek|]; simpl; lia.
  - unfold loop_connected in *. destruct (dget (cm_loops m) i) as [[]|] eqn:E; try done. pose proof (dget_ids m i _ W E) as Hi.
    exists 1%nat. split; [unfold steps_left; rewrite E; simpl; lia|]. destruct (tries_state m i W) as (_ & _ & [(Es & _) | Es]); [by eexists| |].
    + rewrite connected_eq by allowed. by apply (set_spares i (Announcing transport)).
    + rewrite connected_closed by done. eapply spares_more; [by apply pop_spares|lia].
Qed.

(** A refused event changes nothing. *)
Lemma loop_next_error i k m : (loop_next i k m).1 ≠ Err Refused.
Proof. unfold loop_next, transition, andthen, always. repeat case_match; simpl in *; congruence. Qed.
Lemma loop_start_error i m : (loop_start i m).1 ≠ Err Refused.
Proof. unfold loop_start, transition. case_decide; [apply loop_next_error|done]. Qed.

Lemma refused_run e i m : run_of e = Some i → (run_conn e m).1 = Err Refused → (run_conn e m).2 = m.
Proof.
  intros He. destruct e as [| | | | | | |[t|j] ok| | |j|j|j|j|j]; try done; simpl.
  - unfold on_connected. case_match; [by destruct ok|done].
  - unfold loop_begins. destruct (dget _ _) as [[]|]; try done. by intros H%loop_start_error.
  - unfold loop_woken. by destruct (dget _ _) as [[]|].
  - unfold loop_dialed. by destruct (dget _ _) as [[]|].
  - unfold loop_failed. destruct (dget _ _) as [[]|]; try done; by intros H%loop_next_error.
  - unfold loop_connected. destruct (dget _ _) as [[]|]; try done. unfold connected, andthen, always, transition. by case_decide.
Qed.

Lemma run_steps_left i l m : conn_wf m → (run_steps i m l <= steps_left i m)%nat.
Proof.
  revert m. induction l as [|e l IH]; intros m W; simpl; [lia|].
  pose proof (run_conn_wf e m W) as W'. specialize (IH (run_conn e m).2 W').
  assert (Hs : (steps_left i (run_conn e m).2 + (if decide (run_of e = Some i) then match (run_conn e m).1 with Err Refused => 0 | _ => 1 end else 0)
                <= steps_left i m)%nat).
  { destruct (run_of e) as [j|] eqn:E.
    - assert ((run_conn e m).1 = Err Refused ∨ (run_conn e m).1 ≠ Err Refused) as [Er|Er]
        by (destruct (run_conn e m).1 as [|[]]; auto).
      + rewrite (refused_run e j m E Er), Er. case_decide; lia.
      + destruct (run_spends e j m W E Er) as (n & Hn & _ & Hi & Hj). case_decide as Ei.
        * injection Ei as ->. destruct (run_conn e m).1 as [|[]]; lia.
        * assert (i ≠ j) by congruence. specialize (Hj i ltac:(done)). lia.
    - rewrite decide_False by done. destruct (call_spends e m W E) as [_ Hc]. specialize (Hc i). lia. }
  destruct (run_conn e m) as [r m']. simpl in *. lia.
Qed.

(** A run under way always has a next step. *)
Lemma run_goes_on i m : dmem (cm_loops m) i = true → ∃ e, run_of e = Some i ∧ (run_conn e m).1 ≠ Err Refused.
Proof.
  unfold dmem. intros [p Hp]%bool_decide_eq_true.
  destruct p as [|k|k t|k t|t]; [exists (LoopBegins i)|exists (LoopWoken i)|exists (LoopFailed i)|exists (LoopFailed i)|exists (Welcomed (Run i) true)];
    (split; [done|]); unfold run_conn, loop_begins, loop_woken, loop_failed, on_connected, welcoming; rewrite Hp; try done.
  - apply loop_start_error.
  - apply loop_next_error.
  - apply loop_next_error.
Qed.

(** C19: Reconnection ends: whatever happens in between, a run of
    [_reconnect_loop] makes at most three steps per attempt of the policy (the
    sleep, the dial, the handshake), one to start and one when its
    [on_connected] returns; and as long as it is not over it is not stuck: a step
    of its own is possible. *)
Theorem reconnection_ends attempts l i :
  (run_steps i (ConnectionManager_init attempts) l <= 3 * attempts + 2)%nat ∧
  let m := after (ConnectionManager_init attempts) l in
  dmem (cm_loops m) i = true → ∃ e, run_of e = Some i ∧ (run_conn e m).1 ≠ Err Refused.
Proof.
  split; [|apply run_goes_on].
  etrans; [apply run_steps_left, conn_wf_init|]. unfold steps_left. simpl. lia.
Qed.

(** The delay before an attempt lies within a quarter of the backoff, which
    doubles up to half a minute. *)
Lemma delay_within base attempt wobble : 0 <= base → 1 <= attempt →
  4 * Z.abs wobble <= raw_delay base attempt →
  3 * raw_delay base attempt <= 4 * delay_for base attempt wobble <= 5 * raw_delay base attempt ∧ raw_delay base attempt <= MAX_DELAY.
Proof. intros Hb Ha Hw. unfold delay_for. split; [lia|]. unfold raw_delay. lia. Qed.

Lemma backoff_doubles base attempt : 0 <= base → 1 <= attempt →
  raw_delay base (attempt + 1) = Z.min (2 * raw_delay base attempt) MAX_DELAY.
Proof.
  intros Hb Ha. unfold raw_delay, MAX_DELAY. replace (attempt + 1 - 1) with (Z.succ (attempt - 1)) by lia.
  rewrite Z.pow_succ_r by lia. pose proof (Z.pow_nonneg 2 (attempt - 1)). nia.
Qed.

(** ** Runs that depart from the documentation *)

(** The first connection, with its reader. *)
Definition opening_run : list conn_event := [CallOpen; OpenDialed; OpenConnected; Welcomed (Opener 0) true; ReaderBegins 0].

(** A dropped connection recovers; the run is welcomed and orderly. *)
Definition recovery_run : list conn_event :=
  opening_run ++ [ReaderEnded 0 true; LoopBegins 0; LoopWoken 0; LoopFailed 0; LoopWoken 0; LoopDialed 0;
    LoopConnected 0; Welcomed (Run 0) true; ReaderBegins 1].
Example recovers :
  let m := after (ConnectionManager_init 2) recovery_run in
  forallb welcomed recovery_run = true ∧ orderly_run (ConnectionManager_init 2) recovery_run = true ∧
  cm_state m = CONNECTED ∧ is_usable m = true ∧ cm_readers m = [(1, Some 2)]%nat ∧
  cm_history m = [CONNECTING; CONNECTED; DISCONNECTED; RECONNECTING; CONNECTED].
Proof. by vm_compute. Qed.

(** An [on_connected] that raises while the connection recovers leaves it
    CONNECTED for ever with nobody reading it. *)
Example unread_connection :
  let m := after (ConnectionManager_init 2) (opening_run ++ [ReaderEnded 0 true; LoopBegins 0;
    LoopWoken 0; LoopDialed 0; LoopConnected 0; Welcomed (Run 0) false]) in
  cm_state m = CONNECTED ∧ cm_readers m = [] ∧ cm_loops m = [].
Proof. by vm_compute. Qed.

(** A [reconnect] while the [on_connected] of [open] is running: both start a
    reader, on the same transport, and the end of the second, which [_reader_task]
    does not name, takes down the connection that recovered after the end of the
    first. *)
Example two_readers :
  let l := [CallOpen; OpenDialed; OpenConnected; CallReconnect; LoopWoken 0; LoopDialed 0; LoopConnected 0; Welcomed (Run 0) true;
    ReaderBegins 0; Welcomed (Opener 0) true; ReaderBegins 1] in
  let recovery := [ReaderEnded 1 true; LoopBegins 1; LoopWoken 1; LoopDialed 1; LoopConnected 1; Welcomed (Run 1) true; ReaderBegins 2] in
  let m := after (ConnectionManager_init 1) l in let m1 := after m recovery in
  cm_readers m = [(0, Some 1); (1, Some 1)]%nat ∧ is_usable m1 = true ∧ cm_state (after m1 [ReaderEnded 0 false]) = DISCONNECTED.
Proof. by vm_compute. Qed.

(** Every attempt whose handshake fails leaves its transport open. *)
Example failed_attempts_leak :
  let m := after (ConnectionManager_init 3) (opening_run ++ [ReaderEnded 0 true; LoopBegins 0;
    LoopWoken 0; LoopDialed 0; LoopFailed 0; LoopWoken 0; LoopDialed 0; LoopFailed 0; LoopWoken 0; LoopDialed 0; LoopFailed 0]) in
  cm_state m = CLOSED ∧ cm_open m = [3; 2; 1]%nat.
Proof. by vm_compute. Qed.

(** A connection closed while it opens keeps its transport. *)
Example closed_while_opening :
  let m := after (ConnectionManager_init 0) [CallOpen; OpenDialed; CallClose; OpenConnected] in
  cm_state m = CLOSED ∧ cm_open m = [0]%nat ∧ cm_transport m = Some 0%nat.
Proof. by vm_compute. Qed.

(** [close] does not end a [reconnect] that its caller waits for: it dials
    afterwards. *)
Example dials_after_close :
  let m := after (ConnectionManager_init 1) (opening_run ++ [CallReconnect; CallClose; LoopWoken 0; LoopDialed 0]) in
  cm_state m = CLOSED ∧ cm_open m = [1]%nat.
Proof. by vm_compute. Qed.
