(* ===== verification/RelayClient.v ===== *)
(** * The relay client

    [transport/relay/client.py]: the client's end of a relay connection.  It
    owns a connection manager and a heartbeat monitor, sends requests and matches
    the answers to the coroutines that wait for them.

    A request is two steps: the call, up to the wait for its future, and its
    end, when the future is done ([resume]) or its time is up ([expire]).  A
    send ends at once, but those of [_post_connected], which keep the reader
    from starting: there each is waited for.  A future and the coroutine that
    waits for it share a number.  What listeners do is not modelled, nor what they
    raise, which the client swallows: their calls are logged.  Coroutines that the
    reader schedules are tasks, run as steps of their own.  Texts of errors are left out. *)

From S2P Require Import Prelude Text Utf8 Primitives Ids Json ChannelFrames Connection Heartbeat RelayPackets RelayState.

Open Scope Z_scope.

Definition MAX_ERROR_PACKETS_KEPT : nat := 20.

(** ** Errors *)

(** Classes of [exceptions/invites.py] and [exceptions/groups.py]. *)
Inductive invite_fault := InviteError | InviteExpiredError | InviteAlreadyUsedError | InviteRevokedError | InviteUnknownError
| InvitePermissionError | InviteValidationError.
Inductive group_fault := GroupError | GroupUnknownError | GroupFullError | GroupPermissionError | GroupNotMemberError
| GroupDissolvedError | GroupValidationError | GroupConflictError | GroupJoinTimeoutError | GroupOfflineError | GroupRateLimitError.

Inductive client_error :=
| ERelay                 (** [RelayError] *)
| ETransport             (** [TransportError] of a connection that is not usable *)
| EPacket                (** [PacketValidationError] of an outgoing packet *)
| EEncode                (** what else [encode_packet] raises *)
| EReset                 (** [OSError] of the socket *)
| EHandshake             (** [HandshakeError] *)
| EDecode                (** what [decode_packet] raises besides [PacketValidationError] *)
| ETimeout               (** [ConnectionTimeoutError] *)
| ECancelled             (** [CancelledError] *)
| EKey                   (** [KeyError] *)
| EValue                 (** [ValueError], [OverflowError] *)
| EInvite (f : invite_fault)
| EGroup (f : group_fault).

(** [except TransportError] *)
Definition is_transport (e : client_error) : bool :=
  match e with ERelay | ETransport | EPacket | EHandshake | ETimeout => true | _ => false end.

(** ** State *)

(** The coroutines that wait: [ping], [attach], the callers of
    [_invite_roundtrip] and [_group_roundtrip], and [wait_group_event]. *)
Inductive Call :=
| CPing (nonce : unicode) (started : Z)
| CAttach (channel : unicode) (role : string)
| CCreateInvite (invite : string) (max_redemptions : Z)
| CQueryInvite (invite : string)
| CRevokeInvite (invite : string)
| CRedeem (invite : string)
| CRedeemGroup (invite : string)
| CGroupCreate
| CGroupAttest (group : unicode)
| CGroupState (group : unicode)
| CGroupEvent (group kind subject : unicode).

Inductive future := Waiting | Answered (p : Packet) | Measured (rtt : option Z) | Refuted (e : client_error) | Cancelled.

(** Calls of the five listeners. *)
Inductive Notice :=
| NForward (channel body : unicode)
| NPeer (channel event : unicode)
| NGroupEvent (p : Packet)
| NGroupForward (p : Packet)
| NGroupForwardError (group member code message : unicode).

Record Listeners := mkListeners { on_forward : bool; on_peer : bool; on_group_event : bool; on_group_forward : bool; on_group_forward_error : bool }.

(** [_reply_ping], [_respond_group_sign], [_close_transport_for_recovery] *)
Inductive Task := TReplyPing (nonce : unicode) (sent_at : json) | TSign (p : Packet) | TRecover.

(** The [Session] of the client. *)
Record ClientSession := mkClientSession { ss_id : unicode; ss_server : unicode; ss_activity : Z; ss_status : SessionStatus }.

Record Client := mkClient {
  cl_name : string;
  cl_manager : Manager;
  cl_welcomes : list (waiter * list (unicode * string));   (** runs of [_post_connected] that wait for a send, and what they attach next *)
  cl_heart : Monitor;
  cl_session : option ClientSession;
  cl_nonce : option unicode;   (** [_attest_nonce] *)
  cl_waits : list (nat * (Call * future));   (** the coroutines that wait for a future *)
  cl_next : nat;
  cl_pings : list (unicode * nat);   (** [_pending_pings] and the other tables of futures *)
  cl_attaches : list (unicode * nat);
  cl_invites : list (unicode * nat);
  cl_groups : list (PacketType * unicode * nat);
  cl_create : option nat;
  cl_events : list (unicode * unicode * unicode * nat);
  cl_attachments : list (unicode * string);   (** channel → role *)
  cl_errors : list Packet;
  cl_listening : Listeners;
  cl_notices : list Notice;   (** the calls of listeners *)
  cl_tasks : list Task;   (** scheduled coroutines *)
  cl_wire : list Packet;   (** what was sent *)
}.

(** *** Field updates *)

Definition set_manager (s : Client) x : Client :=
  mkClient (cl_name s) x (cl_welcomes s) (cl_heart s) (cl_session s) (cl_nonce s) (cl_waits s) (cl_next s) (cl_pings s) (cl_attaches s)
    (cl_invites s) (cl_groups s) (cl_create s) (cl_events s) (cl_attachments s) (cl_errors s) (cl_listening s) (cl_notices s)
    (cl_tasks s) (cl_wire s).
Definition set_welcomes (s : Client) x : Client :=
  mkClient (cl_name s) (cl_manager s) x (cl_heart s) (cl_session s) (cl_nonce s) (cl_waits s) (cl_next s) (cl_pings s) (cl_attaches s)
    (cl_invites s) (cl_groups s) (cl_create s) (cl_events s) (cl_attachments s) (cl_errors s) (cl_listening s) (cl_notices s)
    (cl_tasks s) (cl_wire s).
Definition set_heart (s : Client) x : Client :=
  mkClient (cl_name s) (cl_manager s) (cl_welcomes s) x (cl_session s) (cl_nonce s) (cl_waits s) (cl_next s) (cl_pings s) (cl_attaches s)
    (cl_invites s) (cl_groups s) (cl_create s) (cl_events s) (cl_attachments s) (cl_errors s) (cl_listening s) (cl_notices s)
    (cl_tasks s) (cl_wire s).
Definition set_session (s : Client) x : Client :=
  mkClient (cl_name s) (cl_manager s) (cl_welcomes s) (cl_heart s) x (cl_nonce s) (cl_waits s) (cl_next s) (cl_pings s) (cl_attaches s)
    (cl_invites s) (cl_groups s) (cl_create s) (cl_events s) (cl_attachments s) (cl_errors s) (cl_listening s) (cl_notices s)
    (cl_tasks s) (cl_wire s).
Definition set_nonce (s : Client) x : Client :=
  mkClient (cl_name s) (cl_manager s) (cl_welcomes s) (cl_heart s) (cl_session s) x (cl_waits s) (cl_next s) (cl_pings s) (cl_attaches s)
    (cl_invites s) (cl_groups s) (cl_create s) (cl_events s) (cl_attachments s) (cl_errors s) (cl_listening s) (cl_notices s)
    (cl_tasks s) (cl_wire s).
Definition set_waits (s : Client) x : Client :=
  mkClient (cl_name s) (cl_manager s) (cl_welcomes s) (cl_heart s) (cl_session s) (cl_nonce s) x (cl_next s) (cl_pings s) (cl_attaches s)
    (cl_invites s) (cl_groups s) (cl_create s) (cl_events s) (cl_attachments s) (cl_errors s) (cl_listening s) (cl_notices s)
    (cl_tasks s) (cl_wire s).
Definition set_next (s : Client) x : Client :=
  mkClient (cl_name s) (cl_manager s) (cl_welcomes s) (cl_heart s) (cl_session s) (cl_nonce s) (cl_waits s) x (cl_pings s) (cl_attaches s)
    (cl_invites s) (cl_groups s) (cl_create s) (cl_events s) (cl_attachments s) (cl_errors s) (cl_listening s) (cl_notices s)
    (cl_tasks s) (cl_wire s).
Definition set_pings (s : Client) x : Client :=
  mkClient (cl_name s) (cl_manager s) (cl_welcomes s) (cl_heart s) (cl_session s) (cl_nonce s) (cl_waits s) (cl_next s) x (cl_attaches s)
    (cl_invites s) (cl_groups s) (cl_create s) (cl_events s) (cl_attachments s) (cl_errors s) (cl_listening s) (cl_notices s)
    (cl_tasks s) (cl_wire s).
Definition set_attaches (s : Client) x : Client :=
  mkClient (cl_name s) (cl_manager s) (cl_welcomes s) (cl_heart s) (cl_session s) (cl_nonce s) (cl_waits s) (cl_next s) (cl_pings s) x (cl_invites
    s) (cl_groups s) (cl_create s) (cl_events s) (cl_attachments s) (cl_errors s) (cl_listening s) (cl_notices s) (cl_tasks s)
    (cl_wire s).
Definition set_invites (s : Client) x : Client :=
  mkClient (cl_name s) (cl_manager s) (cl_welcomes s) (cl_heart s) (cl_session s) (cl_nonce s) (cl_waits s) (cl_next s) (cl_pings s) (cl_attaches
    s) x (cl_groups s) (cl_create s) (cl_events s) (cl_attachments s) (cl_errors s) (cl_listening s) (cl_notices s) (cl_tasks s)
    (cl_wire s).
Definition set_groups (s : Client) x : Client :=
  mkClient (cl_name s) (cl_manager s) (cl_welcomes s) (cl_heart s) (cl_session s) (cl_nonce s) (cl_waits s) (cl_next s) (cl_pings s) (cl_attaches
    s) (cl_invites s) x (cl_create s) (cl_events s) (cl_attachments s) (cl_errors s) (cl_listening s) (cl_notices s) (cl_tasks s)
    (cl_wire s).
Definition set_create (s : Client) x : Client :=
  mkClient (cl_name s) (cl_manager s) (cl_welcomes s) (cl_heart s) (cl_session s) (cl_nonce s) (cl_waits s) (cl_next s) (cl_pings s) (cl_attaches
    s) (cl_invites s) (cl_groups s) x (cl_events s) (cl_attachments s) (cl_errors s) (cl_listening s) (cl_notices s) (cl_tasks s)
    (cl_wire s).
Definition set_events (s : Client) x : Client :=
  mkClient (cl_name s) (cl_manager s) (cl_welcomes s) (cl_heart s) (cl_session s) (cl_nonce s) (cl_waits s) (cl_next s) (cl_pings s) (cl_attaches
    s) (cl_invites s) (cl_groups s) (cl_create s) x (cl_attachments s) (cl_errors s) (cl_listening s) (cl_notices s) (cl_tasks s)
    (cl_wire s).
Definition set_attachments (s : Client) x : Client :=
  mkClient (cl_name s) (cl_manager s) (cl_welcomes s) (cl_heart s) (cl_session s) (cl_nonce s) (cl_waits s) (cl_next s) (cl_pings s) (cl_attaches
    s) (cl_invites s) (cl_groups s) (cl_create s) (cl_events s) x (cl_errors s) (cl_listening s) (cl_notices s) (cl_tasks s)
    (cl_wire s).
Definition set_errors (s : Client) x : Client :=
  mkClient (cl_name s) (cl_manager s) (cl_welcomes s) (cl_heart s) (cl_session s) (cl_nonce s) (cl_waits s) (cl_next s) (cl_pings s) (cl_attaches
    s) (cl_invites s) (cl_groups s) (cl_create s) (cl_events s) (cl_attachments s) x (cl_listening s) (cl_notices s) (cl_tasks s)
    (cl_wire s).
Definition set_listening (s : Client) x : Client :=
  mkClient (cl_name s) (cl_manager s) (cl_welcomes s) (cl_heart s) (cl_session s) (cl_nonce s) (cl_waits s) (cl_next s) (cl_pings s) (cl_attaches
    s) (cl_invites s) (cl_groups s) (cl_create s) (cl_events s) (cl_attachments s) (cl_errors s) x (cl_notices s) (cl_tasks s)
    (cl_wire s).
Definition set_notices (s : Client) x : Client :=
  mkClient (cl_name s) (cl_manager s) (cl_welcomes s) (cl_heart s) (cl_session s) (cl_nonce s) (cl_waits s) (cl_next s) (cl_pings s) (cl_attaches
    s) (cl_invites s) (cl_groups s) (cl_create s) (cl_events s) (cl_attachments s) (cl_errors s) (cl_listening s) x (cl_tasks s)
    (cl_wire s).
Definition set_tasks (s : Client) x : Client :=
  mkClient (cl_name s) (cl_manager s) (cl_welcomes s) (cl_heart s) (cl_session s) (cl_nonce s) (cl_waits s) (cl_next s) (cl_pings s) (cl_attaches
    s) (cl_invites s) (cl_groups s) (cl_create s) (cl_events s) (cl_attachments s) (cl_errors s) (cl_listening s) (cl_notices s) x
    (cl_wire s).
Definition set_wire (s : Client) x : Client :=
  mkClient (cl_name s) (cl_manager s) (cl_welcomes s) (cl_heart s) (cl_session s) (cl_nonce s) (cl_waits s) (cl_next s) (cl_pings s) (cl_attaches
    s) (cl_invites s) (cl_groups s) (cl_create s) (cl_events s) (cl_attachments s) (cl_errors s) (cl_listening s) (cl_notices s)
    (cl_tasks s) x.

(** [RelayClient.__init__]; the reconnection policy and the heartbeat's timeout
    are those of the configuration. *)
Definition RelayClient_init (name : string) (attempts : nat) (timeout : Z) (listening : Listeners) : Client :=
  mkClient name (ConnectionManager_init attempts) [] (HeartbeatMonitor_init timeout MISSED_PING_LIMIT) None None [] 0 [] [] [] [] None [] []
    [] listening [] [] [].

(** What the environment gives to a call: the monotonic and the wall clock,
    what writing to the socket raises, the identifier and time of the packet
    sent n-th, the text of a number of seconds and of [float(v)], a drawn nonce,
    and the signer.  [ce_str], [ce_int] and [ce_seconds] are [str(v)],
    [int(str(v))] and [fromtimestamp(float(v))] of values that are not strings,
    integers and numbers; no schema lets an answer have them where they are read,
    except an answer of another type than the request expects. *)
Record CEnv := mkCEnv {
  ce_now : Z; ce_wall : Z; ce_link : option client_error; ce_stamp : nat → stamp; ce_num : Z → unicode; ce_float : json → unicode;
  ce_token : string; ce_str : json → unicode; ce_int : json → option Z; ce_seconds : json → option Z;
  ce_signer : option (unicode → unicode → bytes → option string);
}.

Definition CM (A : Type) : Type := Client → result client_error A * Client.

#[export] Instance CM_ret : MRet CM := λ A a s, (Ok a, s).
#[export] Instance CM_bind : MBind CM := λ A B f m s, match m s with (Ok a, s') => f a s' | (Err e, s') => (Err e, s') end.

Definition throw {A} (e : client_error) : CM A := λ s, (Err e, s).
Definition reads {A} (f : Client → A) : CM A := λ s, (Ok (f s), s).
Definition update (f : Client → Client) : CM unit := λ s, (Ok tt, f s).
Definition demand_or (b : bool) (e : client_error) : CM unit := λ s, if b then (Ok tt, s) else (Err e, s).

(** [try: m except TransportError] *)
Definition tolerate (m : CM unit) : CM unit := λ s,
  match m s with (Err e, s') => if is_transport e then (Ok tt, s') else (Err e, s') | r => r end.

(** A step of the manager. *)
Definition on_manager (a : Connection.step) (s : Client) : Client := set_manager s (a (cl_manager s)).2.

(** ** Sending *)

(** Writing a packet to a transport. *)
Definition put (env : CEnv) (build : stamp → Packet) : CM unit := λ s,
  let p := build (ce_stamp env (length (cl_wire s))) in
  match encode_packet p with
  | Err PacketValidationError => (Err EPacket, s)
  | Err _ => (Err EEncode, s)
  | Ok _ => match ce_link env with Some e => (Err e, s) | None => (Ok tt, set_wire s (cl_wire s ++ [p])) end
  end.

(** [send_packet] *)
Definition send_packet (env : CEnv) (build : stamp → Packet) : CM unit :=
  usable ← reads (λ s, is_usable (cl_manager s));
  demand_or usable ETransport;; put env build.

(** ** Futures *)

(** [future = loop.create_future()], and the coroutine that will wait for it. *)
Definition new_future (c : Call) : CM nat := λ s,
  (Ok (cl_next s), set_waits (set_next s (S (cl_next s))) (cl_waits s ++ [(cl_next s, (c, Waiting))])).

(** [if not future.done(): ...]: a future that nobody waits for does not
    matter any more. *)
Definition settle (f : nat) (v : future) (s : Client) : Client :=
  match dget (cl_waits s) f with
  | Some (c, Waiting) => set_waits s (dset (cl_waits s) f (c, v))
  | _ => s
  end.

Definition drop_wait (f : nat) (s : Client) : Client := set_waits s (dpop (cl_waits s) f).

Definition settle_all (fs : list nat) (v : future) (s : Client) : Client := foldl (λ s f, settle f v s) s fs.

(** The [finally] clause of the coroutine that waited. *)
Definition pop_create (f : nat) (s : Client) : Client := if decide (cl_create s = Some f) then set_create s None else s.
Definition cleanup (f : nat) (c : Call) (s : Client) : Client :=
  match c with
  | CPing _ _ => s
  | CAttach channel _ => set_attaches s (dpop (cl_attaches s) channel)
  | CCreateInvite i _ | CQueryInvite i | CRevokeInvite i | CRedeem i | CRedeemGroup i => set_invites s (dpop (cl_invites s) (cp i))
  | CGroupCreate => pop_create f s
  | CGroupAttest g => set_groups s (dpop (cl_groups s) (GROUP_ATTEST, g))
  | CGroupState g => set_groups s (dpop (cl_groups s) (GROUP_STATE, g))
  | CGroupEvent g k u => set_events s (dpop (cl_events s) (g, k, u))
  end.

(** [send_packet]; when it raises, [undo] and nobody waits for [f]. *)
Definition send_or (env : CEnv) (build : stamp → Packet) (f : nat) (undo : Client → Client) : CM nat := λ s,
  match send_packet env build s with
  | (Ok _, s') => (Ok f, s')
  | (Err e, s') => (Err e, drop_wait f (undo s'))
  end.

(** The future is filed, the request sent; a failure of the send runs the
    [finally] clause and nobody waits. *)
Definition request (env : CEnv) (c : Call) (file : nat → Client → Client) (build : stamp → Packet) : CM nat :=
  f ← new_future c;
  update (file f);;
  send_or env build f (cleanup f c).

(** ** Requests *)

(** [attach], up to the wait. *)
Definition attach (env : CEnv) (channel role : string) : CM nat :=
  demand_or (bool_decide (role ∈ CHANNEL_ROLES)) ERelay;;
  demand_or (is_valid_room_id channel) ERelay;;
  usable ← reads (λ s, is_usable (cl_manager s));
  demand_or usable ETransport;;
  request env (CAttach (cp channel) role) (λ f s, set_attaches s (dset (cl_attaches s) (cp channel) f)) (attach_packet channel role).

(** [detach] *)
Definition detach (env : CEnv) (channel : string) : CM unit :=
  update (λ s, set_attachments s (dpop (cl_attachments s) (cp channel)));;
  usable ← reads (λ s, is_usable (cl_manager s));
  if usable : bool then tolerate (send_packet env (detach_packet channel)) else mret tt.

(** [send_forward] *)
Definition send_forward (env : CEnv) (channel body : unicode) : CM unit := send_packet env (forward_packet channel body).

(** [_invite_roundtrip], up to the wait. *)
Definition invite_roundtrip (env : CEnv) (invite : string) (c : Call) (build : stamp → Packet) : CM nat :=
  usable ← reads (λ s, is_usable (cl_manager s));
  demand_or usable ETransport;;
  request env c (λ f s, set_invites s (dset (cl_invites s) (cp invite) f)) build.

(** [create_invite], [query_invite], [revoke_invite], [redeem_invite] and
    [redeem_group_invite] *)
Section invites.
Context `{P : Primitives}.

Definition with_token (token : string) (k : string → string → CM nat) : CM nat := λ s,
  match (t ← normalize_invite_token token; i ← invite_id_for_token t; Some (t, i)) with
  | Some (t, i) => k t i s
  | None => (Err (EInvite InviteValidationError), s)
  end.

Definition create_invite (env : CEnv) (token room_id : string) (ttl : json) (max_redemptions : Z) (kind group_id : string) : CM nat :=
  with_token token (λ t i, invite_roundtrip env i (CCreateInvite i max_redemptions)
    (invite_create_packet t room_id ttl max_redemptions kind group_id)).
Definition query_invite (env : CEnv) (token : string) : CM nat :=
  with_token token (λ t i, invite_roundtrip env i (CQueryInvite i) (invite_query_packet t)).
Definition revoke_invite (env : CEnv) (token : string) : CM nat :=
  with_token token (λ t i, invite_roundtrip env i (CRevokeInvite i) (invite_revoke_packet t)).
Definition redeem_invite (env : CEnv) (token : string) : CM nat :=
  with_token token (λ t i, invite_roundtrip env i (CRedeem i) (redeem_packet t)).
Definition redeem_group_invite (env : CEnv) (token : string) : CM nat :=
  with_token token (λ t i, invite_roundtrip env i (CRedeemGroup i) (redeem_packet t)).
End invites.

(** [_group_roundtrip], up to the wait: of a creation, and of the others. *)
Definition group_create (env : CEnv) (name public_key_hex pop_b64 handle display_name crypto_suite : string) : CM nat :=
  usable ← reads (λ s, is_usable (cl_manager s));
  demand_or usable ETransport;;
  busy ← reads cl_create;
  demand_or (bool_decide (busy = None)) (EGroup GroupConflictError);;
  request env CGroupCreate (λ f s, set_create s (Some f))
    (group_create_packet name public_key_hex pop_b64 handle display_name crypto_suite).

Definition group_roundtrip (env : CEnv) (t : PacketType) (group : string) (c : Call) (build : stamp → Packet) : CM nat :=
  usable ← reads (λ s, is_usable (cl_manager s));
  demand_or usable ETransport;;
  request env c (λ f s, set_groups s (dset (cl_groups s) (t, cp group) f)) build.

Definition group_attest (env : CEnv) (group public_key_hex signature_b64 handle display_name : string) : CM nat :=
  group_roundtrip env GROUP_ATTEST group (CGroupAttest (cp group))
    (group_attest_packet group public_key_hex signature_b64 handle display_name).
Definition group_state (env : CEnv) (group : string) : CM nat :=
  group_roundtrip env GROUP_STATE group (CGroupState (cp group)) (group_state_packet group).

(** [wait_group_event], up to the wait. *)
Definition wait_group_event (group kind subject : string) : CM nat :=
  f ← new_future (CGroupEvent (cp group) (cp kind) (cp subject));
  update (λ s, set_events s (dset (cl_events s) (cp group, cp kind, cp subject) f));;
  mret f.

(** [group_leave], [group_remove], [group_dissolve]: the waiter is a task of
    its own, which goes on when the send fails. *)
Definition membership_call (env : CEnv) (group kind subject : string) (build : stamp → Packet) : CM nat :=
  f ← wait_group_event group kind subject; send_packet env build;; mret f.
Definition group_leave (env : CEnv) (group subject : string) : CM nat :=
  membership_call env group "left" subject (group_leave_packet group).
Definition group_remove (env : CEnv) (group subject : string) : CM nat :=
  membership_call env group "removed" subject (group_remove_packet group subject).
Definition group_dissolve (env : CEnv) (group owner : string) : CM nat :=
  membership_call env group "dissolved" owner (group_dissolve_packet group).

(** [group_forward] *)
Definition group_forward (env : CEnv) (group : string) (epoch : Z) (from to kind body_b64 : string) : CM unit :=
  usable ← reads (λ s, is_usable (cl_manager s));
  demand_or usable ETransport;;
  send_packet env (group_forward_packet group epoch from to kind body_b64).

(** [ping], up to the wait: a send that fails leaves the future filed. *)
Definition ping (env : CEnv) : CM nat :=
  f ← new_future (CPing (cp (ce_token env)) (ce_now env));
  update (λ s, set_pings s (dset (cl_pings s) (cp (ce_token env)) f));;
  send_or env (ping_packet (ce_token env) (JFloat (ce_num env (ce_wall env)))) f (λ s, s).

(** ** Inbound packets *)

(** A field that is a string, [str(payload[name])] of a field that the schema
    requires to be one, and [isinstance(payload.get(name), str)]. *)
Definition txt (p : Packet) (name : string) : unicode := default [] (uni_field (pk_payload p) name).

(** [_resolve_pong] *)
Definition resolve_pong (env : CEnv) (p : Packet) (s : Client) : Client :=
  let nonce := txt p "nonce" in
  let '(h, rtt) := match ascii_text nonce with Some n => ack_pong n (ce_now env) (cl_heart s) | None => (cl_heart s, None) end in
  let s1 := set_heart s h in
  match dget (cl_pings s1) nonce with
  | Some f => settle f (Measured rtt) (set_pings s1 (dpop (cl_pings s1) nonce))
  | None => s1
  end.

(** [_resolve_attached] *)
Definition resolve_attached (p : Packet) (s : Client) : Client :=
  match dget (cl_attaches s) (txt p "channel") with Some f => settle f (Answered p) s | None => s end.

(** [_resolve_invite] *)
Definition resolve_invite (p : Packet) (s : Client) : Client :=
  match (i ← uni_field (pk_payload p) "invite"; dget (cl_invites s) i) with Some f => settle f (Answered p) s | None => s end.

(** [_resolve_group]; the request that [_GROUP_RESPONSE_REQUEST] names. *)
Definition response_request (t : PacketType) : option PacketType :=
  match t with GROUP_ATTESTED => Some GROUP_ATTEST | GROUP_ROSTER => Some GROUP_STATE | _ => None end.
Definition resolve_group (p : Packet) (s : Client) : Client :=
  let found := if decide (pk_type p = GROUP_GRANTED) then cl_create s
               else g ← uni_field (pk_payload p) "group"; t ← response_request (pk_type p); dget (cl_groups s) (t, g) in
  match found with Some f => settle f (Answered p) s | None => s end.

(** [_INVITE_ERROR_MAP], [_GROUP_ERROR_MAP] *)
Definition invite_error_map : list (string * invite_fault) :=
  [("invite/expired", InviteExpiredError); ("invite/already-used", InviteAlreadyUsedError); ("invite/revoked", InviteRevokedError);
   ("invite/unknown", InviteUnknownError); ("invite/not-creator", InvitePermissionError)].
Definition group_error_map : list (string * group_fault) :=
  [("group/unknown", GroupUnknownError); ("group/full", GroupFullError); ("group/not-owner", GroupPermissionError);
   ("group/not-member", GroupNotMemberError); ("group/dissolved", GroupDissolvedError); ("group/invalid", GroupValidationError);
   ("group/conflict", GroupConflictError); ("group/join-timeout", GroupJoinTimeoutError); ("group/signature", GroupPermissionError);
   ("group/state", GroupConflictError); ("group/offline", GroupOfflineError); ("group/rate", GroupRateLimitError)].
Definition by_code {A} (m : list (string * A)) (code : unicode) : option A := dget ((λ x, (cp x.1, x.2)) <$> m) code.
(** [code.startswith("group/")] *)
Definition group_code (code : unicode) : bool := bool_decide (take 6 code = cp "group/").

(** [_reject_pending_attach] *)
Definition reject_pending_attach (p : Packet) (s : Client) : Client :=
  match (c ← uni_field (pk_payload p) "channel"; f ← dget (cl_attaches s) c; Some (c, f)) with
  | Some (c, f) => settle f (Refuted ERelay) (set_attaches s (dpop (cl_attaches s) c))
  | None => s
  end.

(** [_reject_pending_invite] *)
Definition reject_pending_invite (p : Packet) (s : Client) : Client :=
  match (i ← uni_field (pk_payload p) "invite"; f ← dget (cl_invites s) i; Some (i, f)) with
  | Some (i, f) =>
      let code := txt p "code" in
      let e := if group_code code then EGroup (default GroupError (by_code group_error_map code))
               else EInvite (default InviteError (by_code invite_error_map code)) in
      settle f (Refuted e) (set_invites s (dpop (cl_invites s) i))
  | None => s
  end.

(** [_reject_pending_group] *)
Definition of_group (g : unicode) (x : unicode * unicode * unicode * nat) : bool := bool_decide (x.1.1.1 = g).
Definition reject_request (e : client_error) (t : PacketType) (g : unicode) (s : Client) : Client :=
  match dget (cl_groups s) (t, g) with
  | Some f => settle f (Refuted e) (set_groups s (dpop (cl_groups s) (t, g)))
  | None => s
  end.
Definition reject_scoped (e : client_error) (g : unicode) (s : Client) : Client :=
  let s1 := reject_request e GROUP_STATE g (reject_request e GROUP_ATTEST g s) in
  let hit := filter (λ x, of_group g x = true) (cl_events s1) in
  set_events (settle_all (snd <$> hit) (Refuted e) s1) (filter (λ x, of_group g x = false) (cl_events s1)).
Definition reject_group (e : client_error) (p : Packet) (s : Client) : Client :=
  let s1 := match uni_field (pk_payload p) "group" with Some g => reject_scoped e g s | None => s end in
  match cl_create s1 with Some f => settle f (Refuted e) s1 | None => s1 end.
Definition reject_pending_group (p : Packet) (s : Client) : Client :=
  let code := txt p "code" in
  match by_code group_error_map code with
  | Some f => reject_group (EGroup f) p s
  | None =>
      if group_code code || bool_decide (code = cp "protocol/unsupported") then reject_group (EGroup GroupError) p s else s
  end.

Definition notify (wanted : Listeners → bool) (n : Notice) (s : Client) : Client :=
  if wanted (cl_listening s) then set_notices s (cl_notices s ++ [n]) else s.

(** [_route_group_event] *)
Definition route_group_event (p : Packet) (s : Client) : Client :=
  let s1 := match dget (cl_events s) (txt p "group", txt p "kind", txt p "subject") with
            | Some f => settle f (Answered p) s
            | None => s
            end in
  notify on_group_event (NGroupEvent p) s1.

(** [_route_group_forward_error]: [None] when it is not one. *)
Definition route_group_forward_error (p : Packet) (s : Client) : option Client :=
  match uni_field (pk_payload p) "member", uni_field (pk_payload p) "group" with
  | Some member, Some group =>
      if group_code (txt p "code") then
        Some (notify on_group_forward_error (NGroupForwardError group member (txt p "code") (txt p "message")) s)
      else None
  | _, _ => None
  end.

(** [_schedule] *)
Definition schedule (t : Task) (s : Client) : Client := set_tasks s (cl_tasks s ++ [t]).

(** The routing of [_handle_bytes]. *)
Definition route (env : CEnv) (p : Packet) (s : Client) : Client :=
  match pk_type p with
  | PONG => resolve_pong env p s
  | PING => schedule (TReplyPing (txt p "nonce") (JFloat (ce_float env (default JNull (field (pk_payload p) "sent_at"))))) s
  | HEARTBEAT => set_heart s (ack_heartbeat (default 0 (int_field (pk_payload p) "seq")) (cl_heart s)).1
  | ATTACHED => resolve_attached p s
  | FORWARD => notify on_forward (NForward (txt p "channel") (txt p "body")) s
  | PEER => notify on_peer (NPeer (txt p "channel") (txt p "event")) s
  | INVITE_GRANTED | INVITE_STATE | REDEEMED => resolve_invite p s
  | GROUP_GRANTED | GROUP_ATTESTED | GROUP_ROSTER => resolve_group p s
  | GROUP_EVENT => route_group_event p s
  | GROUP_FORWARD => notify on_group_forward (NGroupForward p) s
  | GROUP_SIGN_REQUEST => schedule (TSign p) s
  | ERROR =>
      let kept := cl_errors s ++ [p] in
      let s1 := set_errors s (drop (length kept - MAX_ERROR_PACKETS_KEPT) kept) in
      match route_group_forward_error p s1 with
      | Some s2 => s2
      | None => reject_pending_group p (reject_pending_invite p (reject_pending_attach p s1))
      end
  | _ => s
  end.

Definition touch_client (env : CEnv) (s : Client) : Client :=
  set_session s ((λ x, mkClientSession (ss_id x) (ss_server x) (ce_wall env)
    (if decide (ss_status x = SIdle) then SActive else ss_status x)) <$> cl_session s).

(** [_handle_bytes]; a packet that does not validate is dropped. *)
Definition handle_bytes (env : CEnv) (data : bytes) : CM unit := λ s,
  match decode_packet data with
  | Err PacketValidationError => (Ok tt, s)
  | Err _ => (Err EDecode, s)
  | Ok p => (Ok tt, route env p (touch_client env s))
  end.

(** ** The end of a request *)

(** [datetime.fromtimestamp]: the years 1 to 9999. *)
Definition fromtimestamp (env : CEnv) (v : json) : result client_error Z :=
  let ranged z := if (-62135596800 * MICRO <=? z) && (z <? 253402300800 * MICRO) then Ok z else Err EValue in
  match v with
  | JInt _ => ranged (micros_of v)
  | JFloat l => if bool_decide (l ∈ cp <$> ["NaN"; "Infinity"; "-Infinity"]) then Err EValue else ranged (micros_of v)
  | _ => of_option (ce_seconds env v) EValue
  end.

Definition key (p : Packet) (name : string) : result client_error json := of_option (field (pk_payload p) name) EKey.
Definition str_of (env : CEnv) (v : json) : unicode := match v with JStr s => s | _ => ce_str env v end.
Definition int_of (env : CEnv) (v : json) : result client_error Z :=
  match v with JInt z => Ok z | _ => of_option (ce_int env v) EValue end.
Definition number_of (env : CEnv) (v : json) : result client_error json :=
  match v with JInt _ | JFloat _ => Ok v | _ => of_option (ce_seconds env v) EValue;; Ok v end.
(** [tuple(payload.get(name, []))] *)
Definition items (p : Packet) (name : string) : result client_error (list json) :=
  match field (pk_payload p) name with None => Ok [] | Some (JArr l) => Ok l | Some _ => Err EValue end.
Definition suite_of (env : CEnv) (p : Packet) : unicode := str_of env (default (text DEFAULT_CRYPTO_SUITE) (field (pk_payload p) "suite")).
(** [str(payload.get("kind", "chat"))] *)
Definition kind_of (env : CEnv) (p : Packet) : unicode := str_of env (default (text "chat") (field (pk_payload p) "kind")).

(** What the requests return. *)
Inductive Answer :=
| APing (rtt : Z)
| APeers (count : Z)
| AGrant (invite : string) (expires_at max_redemptions : Z)
| AStatus (invite state : unicode) (uses max_uses : Z) (expires_in : json) (room : option unicode)
| ARevoked (invite : unicode)
| ARoom (room : unicode) (expires_at : Z)
| AGroup (invite : string) (expires_at : Z) (group name owner owner_key : unicode) (members : list json) (epoch : Z) (suite : unicode)
| ACreated (group : unicode) (epoch : Z)
| AAttested (group role : unicode) (epoch : Z) (members events : list json) (suite : unicode)
| ARoster (group : unicode) (epoch : Z) (state : unicode) (members events : list json) (suite : unicode)
| AEvent (p : Packet).

(** What a coroutine makes of the packet it waited for. *)
Definition read_answer (env : CEnv) (c : Call) (p : Packet) : result client_error Answer :=
  match c with
  | CPing _ _ => Err EValue
  | CAttach _ _ => Ok (APeers (match field (pk_payload p) "peers" with Some (JInt z) => z | _ => 0 end))
  | CCreateInvite i n =>
      if decide (pk_type p = INVITE_GRANTED) then
        v ← key p "expires_at"; t ← fromtimestamp env v; Ok (AGrant i t n)
      else Err (EInvite InviteError)
  | CQueryInvite _ =>
      i ← key p "invite"; st ← key p "state"; u ← key p "uses"; uses ← int_of env u; m ← key p "max_uses"; max_uses ← int_of env m;
      e ← key p "expires_in"; expires ← number_of env e;
      Ok (AStatus (str_of env i) (str_of env st) uses max_uses expires (uni_field (pk_payload p) "room"))
  | CRevokeInvite _ => i ← key p "invite"; Ok (ARevoked (str_of env i))
  | CRedeem _ =>
      if decide (kind_of env p = cp "group") then Err (EInvite InviteValidationError)
      else r ← key p "room"; v ← key p "expires_at"; t ← fromtimestamp env v; Ok (ARoom (str_of env r) t)
  | CRedeemGroup i =>
      if decide (kind_of env p = cp "group") then
        members ← items p "members"; v ← key p "expires_at"; t ← fromtimestamp env v; g ← key p "group"; n ← key p "name";
        o ← key p "owner"; k ← key p "owner_key"; e ← key p "epoch"; epoch ← int_of env e;
        Ok (AGroup i t (str_of env g) (str_of env n) (str_of env o) (str_of env k) members epoch (suite_of env p))
      else Err (EGroup GroupValidationError)
  | CGroupCreate =>
      if decide (pk_type p = GROUP_GRANTED) then
        g ← key p "group"; e ← key p "epoch"; epoch ← int_of env e; Ok (ACreated (str_of env g) epoch)
      else Err (EGroup GroupError)
  | CGroupAttest _ =>
      if decide (pk_type p = GROUP_ATTESTED) then
        g ← key p "group"; r ← key p "role"; e ← key p "epoch"; epoch ← int_of env e; members ← items p "members";
        events ← items p "events"; Ok (AAttested (str_of env g) (str_of env r) epoch members events (suite_of env p))
      else Err (EGroup GroupError)
  | CGroupState _ =>
      if decide (pk_type p = GROUP_ROSTER) then
        g ← key p "group"; e ← key p "epoch"; epoch ← int_of env e; st ← key p "state"; members ← items p "members";
        events ← items p "events"; Ok (ARoster (str_of env g) epoch (str_of env st) members events (suite_of env p))
      else Err (EGroup GroupError)
  | CGroupEvent _ _ _ => Ok (AEvent p)
  end.

(** What a successful answer changes besides. *)
Definition adopt (c : Call) (a : Answer) (s : Client) : Client :=
  match c, a with
  | CAttach channel role, _ => set_attachments s (dset (cl_attachments s) channel role)
  | CRedeem _, ARoom room _ => set_attachments s (dset (cl_attachments s) room "guest")
  | _, _ => s
  end.

Definition conclude (env : CEnv) (c : Call) (v : future) : result client_error Answer :=
  match v, c with
  | Answered p, _ => read_answer env c p
  | Measured (Some r), CPing _ started => Ok (APing (if r <? 0 then ce_now env - started else r))
  | Measured None, CPing _ started => Ok (APing (ce_now env - started))
  | Measured _, _ | Waiting, _ => Err EValue
  | Refuted e, _ => Err e
  | Cancelled, _ => Err ECancelled
  end.

(** The coroutine that waits for [f] goes on, its future being done. *)
Definition resume (env : CEnv) (f : nat) (s : Client) : option (result client_error Answer * Client) :=
  match dget (cl_waits s) f with
  | None | Some (_, Waiting) => None
  | Some (c, v) =>
      let s1 := drop_wait f (cleanup f c s) in
      let r := conclude env c v in
      Some (r, match r with Ok a => adopt c a s1 | Err _ => s1 end)
  end.

(** Its time is up: [wait_for] cancels the future.  [ping] removes its entry
    then. *)
Definition expire (f : nat) (s : Client) : option (result client_error Answer * Client) :=
  match dget (cl_waits s) f with
  | Some (c, Waiting) =>
      let s1 := drop_wait f (cleanup f c s) in
      Some (match c with
            | CPing nonce _ => (Err ERelay, set_pings s1 (dpop (cl_pings s1) nonce))
            | CGroupEvent _ _ _ => (Err (EGroup GroupJoinTimeoutError), s1)
            | _ => (Err ETimeout, s1)
            end)
  | _ => None
  end.

(** ** Lifecycle *)

(** [_handshake], first half: HELLO on the fresh transport. *)
Definition greet (env : CEnv) : CM unit := λ s, put env (hello_packet (cl_name s) None) s.

(** Second half: what came back, or [None] when the relay closed. *)
Definition welcome (env : CEnv) (raw : option bytes) : CM unit := λ s,
  match raw with
  | None => (Err EHandshake, s)
  | Some data =>
      match decode_packet data with
      | Err PacketValidationError => (Err EHandshake, s)
      | Err _ => (Err EDecode, s)
      | Ok p =>
          if decide (pk_type p = WELCOME) then
            (Ok tt, set_session (set_nonce s (uni_field (pk_payload p) "attest_nonce"))
                      (Some (mkClientSession (txt p "session_id") (txt p "server") (ce_wall env) SActive)))
          else (Err EHandshake, s)
      end
  end.

(** [_post_connected]: the heartbeat starts, every channel is attached again.
    Each send is waited for: [w] is the coroutine, [l] what it still attaches.
    At its end the reader is created, unless it raised. *)
Definition reattach (env : CEnv) (w : waiter) (l : list (unicode * string)) : CM unit := λ s,
  match l with
  | [] => (Ok tt, on_manager (on_connected w true) s)
  | (channel, role) :: l' =>
      match send_packet env (new_packet ATTACH [("channel", JStr channel); ("role", text role)]) s with
      | (Ok _, s') => (Ok tt, set_welcomes s' (dset (cl_welcomes s') w l'))
      | (Err e, s') => (Err e, on_manager (on_connected w false) s')
      end
  end.
Definition post_connected (env : CEnv) (w : waiter) : CM unit :=
  update (λ s, set_heart s (start (cl_heart s)));;
  l ← reads cl_attachments; reattach env w l.

(** Its send is over, and has raised unless [ok]; a run that was cancelled is
    not among the waiters any more. *)
Definition reattached (env : CEnv) (w : waiter) (ok : bool) : CM unit := λ s,
  match dget (cl_welcomes s) w with
  | None => (Err ETransport, s)
  | Some l =>
      let s1 := set_welcomes s (dpop (cl_welcomes s) w) in
      match welcoming (cl_manager s1) w with
      | None => (Err ECancelled, s1)
      | Some _ => if ok then reattach env w l s1 else (Err EReset, on_manager (on_connected w false) s1)
      end
  end.

(** A transport has passed its handshake; [on_connected] begins, if the
    connection stands. *)
Definition established (env : CEnv) (a : Connection.step) (w : waiter) : CM unit := λ s,
  match a (cl_manager s) with
  | (Err _, m) => (Err ETransport, set_manager s m)
  | (Ok _, m) => post_connected env w (set_manager s m)
  end.

(** [connect], up to the wait for its transport. *)
Definition connect : CM unit := λ s,
  match Connection.open (cl_manager s) with
  | (Ok _, m) => (Ok tt, set_manager s m)
  | (Err _, m) => (Err ETransport, set_manager s m)
  end.

(** Its transport is open. *)
Definition connect_dialed (env : CEnv) : CM unit := λ s,
  match open_dialed (cl_manager s) with
  | (Err _, _) => (Err ETransport, s)
  | (Ok _, m) =>
      match greet env (set_manager s m) with
      | (Ok _, s') => (Ok tt, s')
      | (Err e, s') => (Err e, on_manager open_failed s')
      end
  end.

(** The relay has answered. *)
Definition connect_welcomed (env : CEnv) (raw : option bytes) : CM unit := λ s,
  match cm_opening (cl_manager s) with
  | Some t =>
      if transport_open (cl_manager s) t then
        match welcome env raw s with
        | (Err e, s') => (Err e, on_manager open_failed s')
        | (Ok _, s') => established env open_connected (Opener t) s'
        end
      else (Err ETransport, s)
  | None => (Err ETransport, s)
  end.

(** The same two waits in an attempt of [_reconnect_loop]. *)
Definition loop_greeted (env : CEnv) (i : nat) : CM unit := λ s,
  match loop_dialed i (cl_manager s) with
  | (Err _, _) => (Err ETransport, s)
  | (Ok _, m) =>
      match greet env (set_manager s m) with
      | (Ok _, s') => (Ok tt, s')
      | (Err e, s') => (Err e, on_manager (loop_failed i) s')
      end
  end.
Definition loop_welcomed (env : CEnv) (i : nat) (raw : option bytes) : CM unit := λ s,
  match dget (cm_loops (cl_manager s)) i with
  | Some (Greeting _ _) =>
      match welcome env raw s with
      | (Err e, s') => (Err e, on_manager (loop_failed i) s')
      | (Ok _, s') => established env (loop_connected i) (Run i) s'
      end
  | _ => (Err ETransport, s)
  end.

(** A message for reader [r]; what [_handle_bytes] raises ends the reader. *)
Definition read_bytes (env : CEnv) (r : nat) (data : bytes) : CM unit := λ s,
  match dget (cm_readers (cl_manager s)) r with
  | Some (Some _) =>
      match handle_bytes env data s with
      | (Ok _, s') => (Ok tt, s')
      | (Err e, s') => (Err e, on_manager (reader_ended r false) s')
      end
  | _ => (Err ETransport, s)
  end.

(** [disconnect] *)
Definition cancel_pending (s : Client) : Client :=
  let s1 := settle_all (values (cl_pings s)) Cancelled s in
  let s2 := settle_all (values (cl_invites s)) Cancelled (set_pings s1 []) in
  let s3 := settle_all (values (cl_groups s)) Cancelled (set_invites s2 []) in
  let s4 := settle_all (option_list (cl_create s)) Cancelled (set_groups s3 []) in
  let s5 := settle_all (values (cl_events s)) Cancelled (set_create s4 None) in
  set_events s5 [].
Definition close_session (s : Client) : Client :=
  set_session s ((λ x, mkClientSession (ss_id x) (ss_server x) (ss_activity x) SClosed) <$> cl_session s).
Definition disconnect (env : CEnv) (reason : string) : CM unit :=
  update (λ s, set_heart s (stop (cl_heart s)));;
  update cancel_pending;;
  usable ← reads (λ s, is_usable (cl_manager s));
  (if usable : bool then tolerate (send_packet env (disconnect_packet reason 1000)) else mret tt);;
  update (on_manager Connection.close);;
  update close_session.

(** *** Tasks *)

Definition sign_reply (group op : unicode) (signature_b64 : string) : stamp → Packet :=
  new_packet GROUP_SIGN [("group", JStr group); ("op", JStr op); ("sig", text signature_b64)].

(** A scheduled coroutine runs; what it raises is only logged. *)
Definition run_task (env : CEnv) (t : Task) (s : Client) : Client :=
  match t with
  | TReplyPing nonce sent_at => (send_packet env (pong_packet nonce sent_at (JFloat (ce_num env (ce_wall env)))) s).2
  | TSign p =>
      match (sign ← ce_signer env; message ← ascii_text (txt p "message") ≫= b64decode; sign (txt p "group") (txt p "op") message) with
      | Some sig => if decide (sig = "") then s else (send_packet env (sign_reply (txt p "group") (txt p "op") sig) s).2
      | None => s
      end
  | TRecover => match cm_transport (cl_manager s) with Some t => set_manager s (close_transport t (cl_manager s)) | None => s end
  end.

Definition next_task (env : CEnv) (s : Client) : Client :=
  match cl_tasks s with [] => s | t :: l => run_task env t (set_tasks s l) end.

(** [_tick] of the monitor, with its two sends. *)
Definition heartbeat_tick (env : CEnv) (s : Client) : Client :=
  let '(h1, fired) := reap (ce_now env) (cl_heart s) in
  let s1 := set_heart s h1 in
  let s2 := if fired then schedule TRecover s1 else s1 in
  let '(h2, q) := begin_heartbeat (cl_heart s2) in
  let '(r1, s3) := send_packet env (heartbeat_packet q (JFloat (ce_num env (ce_wall env)))) (set_heart s2 h2) in
  let s4 := set_heart s3 (begin_ping (ce_token env) (ce_now env) (end_heartbeat q (is_ok r1) (cl_heart s3))) in
  let '(r2, s5) := send_packet env (ping_packet (ce_token env) (JFloat (ce_num env (ce_now env)))) s4 in
  set_heart s5 (end_ping (ce_token env) (is_ok r2) (cl_heart s5)).

(** ** Runs *)

(** The calls of a client's owner and what the network, the clock and the event
    loop give it. *)
Inductive client_op :=
| OConnect | ODisconnect (reason : string)
| OAttach (channel role : string) | ODetach (channel : string) | OForward (channel body : unicode)
| OCreateInvite (token room_id : string) (ttl : json) (uses : Z) (kind group_id : string)
| OQueryInvite (token : string) | ORevokeInvite (token : string) | ORedeem (token : string) | ORedeemGroup (token : string)
| OGroupCreate (name public_key_hex pop_b64 handle display_name crypto_suite : string)
| OGroupAttest (group public_key_hex signature_b64 handle display_name : string)
| OGroupState (group : string) | OWaitEvent (group kind subject : string)
| OGroupLeave (group subject : string) | OGroupRemove (group subject : string) | OGroupDissolve (group owner : string)
| OGroupForward (group : string) (epoch : Z) (from to kind body_b64 : string)
| OPing
| ODialed | OWelcomed (raw : option bytes) | OGreeted (i : nat) | OLoopWelcomed (i : nat) (raw : option bytes)
| OManager (e : conn_event)
| OReattached (w : waiter) (ok : bool)
| OBytes (reader : nat) (data : bytes) | OResume (f : nat) | OExpire (f : nat) | OTask | OTick.

(** Events of the manager that involve nothing of the client. *)
Definition plain (e : conn_event) : bool :=
  match e with
  | CallReconnect | OpenTimedOut | OpenFailed | ReaderBegins _ | ReaderEnded _ _ | LoopBegins _ | LoopWoken _ | LoopFailed _ => true
  | _ => false
  end.

Definition run_client `{P : Primitives} (env : CEnv) (o : client_op) (s : Client) : Client :=
  match o with
  | OConnect => (connect s).2
  | ODisconnect reason => (disconnect env reason s).2
  | OAttach channel role => (attach env channel role s).2
  | ODetach channel => (detach env channel s).2
  | OForward channel body => (send_forward env channel body s).2
  | OCreateInvite token room ttl uses kind group => (create_invite env token room ttl uses kind group s).2
  | OQueryInvite token => (query_invite env token s).2
  | ORevokeInvite token => (revoke_invite env token s).2
  | ORedeem token => (redeem_invite env token s).2
  | ORedeemGroup token => (redeem_group_invite env token s).2
  | OGroupCreate name pk pop handle display suite => (group_create env name pk pop handle display suite s).2
  | OGroupAttest group pk sig handle display => (group_attest env group pk sig handle display s).2
  | OGroupState group => (group_state env group s).2
  | OWaitEvent group kind subject => (wait_group_event group kind subject s).2
  | OGroupLeave group subject => (group_leave env group subject s).2
  | OGroupRemove group subject => (group_remove env group subject s).2
  | OGroupDissolve group owner => (group_dissolve env group owner s).2
  | OGroupForward group epoch from to kind body => (group_forward env group epoch from to kind body s).2
  | OPing => (ping env s).2
  | ODialed => (connect_dialed env s).2
  | OWelcomed raw => (connect_welcomed env raw s).2
  | OGreeted i => (loop_greeted env i s).2
  | OLoopWelcomed i raw => (loop_welcomed env i raw s).2
  | OReattached w ok => (reattached env w ok s).2
  | OManager e => if plain e then on_manager (run_conn e) s else s
  | OBytes r data => (read_bytes env r data s).2
  | OResume f => match resume env f s with Some (_, s') => s' | None => s end
  | OExpire f => match expire f s with Some (_, s') => s' | None => s end
  | OTask => next_task env s
  | OTick => heartbeat_tick env s
  end.

(** The client after a run. *)
Definition client_after `{P : Primitives} (s : Client) (l : list (CEnv * client_op)) : Client :=
  foldl (λ s x, run_client x.1 x.2 s) s l.
