(* ===== verification/RelayClientTheorems.v ===== *)
(** * What the relay client guarantees

    The theorems on [transport/relay/client.py]: an answer goes to the
    request it answers, what a request returns, and runs of two clients through
    the relay of [RelayServer]. *)

From S2P Require Import Prelude Text Utf8 Primitives Ids Json ChannelFrames Connection Heartbeat RelayPackets RelayState RelayPacketTheorems RelayClient.

Open Scope Z_scope.

(** ** The tables of futures as one *)

Inductive Slot :=
| SPing (nonce : unicode) | SAttach (channel : unicode) | SInvite (invite : unicode)
| SGroup (request : PacketType) (group : unicode) | SCreate | SEvent (group kind subject : unicode).

Definition slot_of (c : Call) : Slot :=
  match c with
  | CPing n _ => SPing n
  | CAttach ch _ => SAttach ch
  | CCreateInvite i _ | CQueryInvite i | CRevokeInvite i | CRedeem i | CRedeemGroup i => SInvite (cp i)
  | CGroupCreate => SCreate
  | CGroupAttest g => SGroup GROUP_ATTEST g
  | CGroupState g => SGroup GROUP_STATE g
  | CGroupEvent g k u => SEvent g k u
  end.

Definition filed (s : Client) (x : Slot) : option nat :=
  match x with
  | SPing n => dget (cl_pings s) n
  | SAttach ch => dget (cl_attaches s) ch
  | SInvite i => dget (cl_invites s) i
  | SGroup t g => dget (cl_groups s) (t, g)
  | SCreate => cl_create s
  | SEvent g k u => dget (cl_events s) (g, k, u)
  end.

(** [p] answers what is filed under [x]. *)
Definition answers (p : Packet) (x : Slot) : Prop :=
  match x with
  | SPing _ => False
  | SAttach ch => pk_type p = ATTACHED ∧ txt p "channel" = ch
  | SInvite i => (pk_type p = INVITE_GRANTED ∨ pk_type p = INVITE_STATE ∨ pk_type p = REDEEMED) ∧ uni_field (pk_payload p) "invite" = Some i
  | SGroup t g => response_request (pk_type p) = Some t ∧ uni_field (pk_payload p) "group" = Some g
  | SCreate => pk_type p = GROUP_GRANTED
  | SEvent g k u => pk_type p = GROUP_EVENT ∧ txt p "group" = g ∧ txt p "kind" = k ∧ txt p "subject" = u
  end.

(** [heard f c p]: the packet [p] came in when call [c] waited for [f]. *)
Section tables.
Variable heard : nat → Call → Packet → Prop.

(** What the future [f] of call [c] can hold. *)
Definition suits (f : nat) (c : Call) (v : future) : Prop :=
  match v with
  | Answered p => answers p (slot_of c) ∧ heard f c p
  | Measured _ => ∃ n, slot_of c = SPing n
  | _ => True
  end.

Record client_wf (s : Client) : Prop := {
  kw_ids : ∀ f c v, dget (cl_waits s) f = Some (c, v) → (f < cl_next s)%nat ∧ suits f c v;
  kw_filed : ∀ x f, filed s x = Some f → (f < cl_next s)%nat ∧ ∀ c v, dget (cl_waits s) f = Some (c, v) → slot_of c = x;
  kw_waits : dict_wf (cl_waits s);
  kw_dicts : dict_wf (cl_pings s) ∧ dict_wf (cl_attaches s) ∧ dict_wf (cl_invites s) ∧ dict_wf (cl_groups s) ∧ dict_wf (cl_events s);
}.

(** The tables, the futures and their count stay. *)
Definition calm (s s' : Client) : Prop :=
  cl_waits s' = cl_waits s ∧ cl_next s' = cl_next s ∧ cl_pings s' = cl_pings s ∧ cl_attaches s' = cl_attaches s ∧
  cl_invites s' = cl_invites s ∧ cl_groups s' = cl_groups s ∧ cl_create s' = cl_create s ∧ cl_events s' = cl_events s.
#[export] Instance calm_preorder : PreOrder calm.
Proof. split; [done|]. intros s1 s2 s3 H1 H2. unfold calm in *. destruct_and?. repeat split; congruence. Qed.

Lemma calm_filed s s' x : calm s s' → filed s' x = filed s x.
Proof. intros (? & ? & ? & ? & ? & ? & ? & ?). destruct x; simpl; congruence. Qed.

Lemma calm_wf s s' : calm s s' → client_wf s → client_wf s'.
Proof.
  intros C [Hi Hf Hw Hd]. pose proof C as (E1 & E2 & E3 & E4 & E5 & E6 & E7 & E8). split.
  - rewrite E1, E2. exact Hi.
  - intros x f. rewrite (calm_filed s s' x C), E1, E2. apply Hf.
  - by rewrite E1.
  - by rewrite E3, E4, E5, E6, E8.
Qed.

(** Tables shrink. *)
Lemma shrink_wf s s' :
  client_wf s → cl_waits s' = cl_waits s → cl_next s' = cl_next s → (∀ x f, filed s' x = Some f → filed s x = Some f) →
  dict_wf (cl_pings s') ∧ dict_wf (cl_attaches s') ∧ dict_wf (cl_invites s') ∧ dict_wf (cl_groups s') ∧ dict_wf (cl_events s') →
  client_wf s'.
Proof.
  intros [Hi Hf Hw Hd] E1 E2 Hs Hd'. split; [rewrite E1, E2; exact Hi| |by rewrite E1|done].
  intros x f H%Hs. rewrite E1, E2. by apply Hf.
Qed.

Lemma settle_wf f v x s : client_wf s → filed s x = Some f →
  (∀ c, dget (cl_waits s) f = Some (c, Waiting) → slot_of c = x → suits f c v) → client_wf (settle f v s).
Proof.
  intros [Hi Hf Hw Hd] Hx Hv. unfold settle. destruct (dget (cl_waits s) f) as [[c w]|] eqn:E; [|done].
  destruct (Hf x f Hx) as [Hlt Hsl]. specialize (Hsl _ _ E). destruct w; try done. split; simpl; [| |by apply dict_wf_dset|done].
  - intros g c' v'. rewrite dget_dset. case_decide; [|apply Hi]. intros [= <- <-]. subst. auto.
  - intros y g Hy. specialize (Hf y g Hy) as [Hg Hc]. split; [done|]. intros c' v'. rewrite dget_dset.
    case_decide; [|apply Hc]. intros [= <- <-]. subst. by eapply Hc.
Qed.

Lemma settle_any_wf f v s : client_wf s → (∀ c, suits f c v) → client_wf (settle f v s).
Proof.
  intros W Hv. pose proof W as [Hi Hf Hw Hd]. unfold settle. destruct (dget (cl_waits s) f) as [[c [| | | |]]|] eqn:E; try done.
  split; simpl; [| |by apply dict_wf_dset|done].
  - intros g c' v'. rewrite dget_dset. case_decide; [|apply Hi]. intros [= <- <-]. subst. destruct (Hi _ _ _ E). done.
  - intros y g Hy. specialize (Hf y g Hy) as [Hg Hc]. split; [done|]. intros c' v'. rewrite dget_dset.
    case_decide; [|apply Hc]. intros [= <- <-]. subst. by eapply Hc.
Qed.

Lemma settle_all_wf fs v s : client_wf s → (∀ f c, suits f c v) → client_wf (settle_all fs v s).
Proof. intros W Hv. revert s W. induction fs as [|f fs IH]; intros s W; [done|]. by apply IH, settle_any_wf. Qed.

(** [settle] changes futures only. *)
Definition same_tables (s s' : Client) : Prop :=
  cl_next s' = cl_next s ∧ cl_pings s' = cl_pings s ∧ cl_attaches s' = cl_attaches s ∧
  cl_invites s' = cl_invites s ∧ cl_groups s' = cl_groups s ∧ cl_create s' = cl_create s ∧ cl_events s' = cl_events s.
#[export] Instance same_tables_preorder : PreOrder same_tables.
Proof. split; [done|]. intros s1 s2 s3 H1 H2. unfold same_tables in *. destruct_and?. repeat split; congruence. Qed.

Lemma settle_tables f v s : same_tables s (settle f v s).
Proof. unfold settle. by repeat case_match. Qed.
Lemma settle_all_tables fs v s : same_tables s (settle_all fs v s).
Proof. revert s. induction fs as [|f fs IH]; intros s; [done|]. etrans; [apply (settle_tables f v)|apply IH]. Qed.

Lemma dget_dpop_Some {K V} `{EqDecision K} (d : list (K * V)) k k' v : dict_wf d → dget (dpop d k) k' = Some v → dget d k' = Some v.
Proof. intros Hd. rewrite dget_dpop by done. by case_decide. Qed.

(** Taking something out of a table. *)
Ltac shrink W :=
  let Hd := fresh in pose proof (kw_dicts _ W) as Hd; destruct_and? Hd;
  apply (shrink_wf _ _ W); [done|done| |simpl; repeat split; try done; by first [apply dict_wf_dpop | apply dict_wf_filter | apply dict_wf_nil]];
  intros []; simpl; try done; intros ?; try (by apply dget_dpop_Some).

Lemma pop_pings_wf s n : client_wf s → client_wf (set_pings s (dpop (cl_pings s) n)).
Proof. intros W. shrink W. Qed.
Lemma pop_attaches_wf s n : client_wf s → client_wf (set_attaches s (dpop (cl_attaches s) n)).
Proof. intros W. shrink W. Qed.
Lemma pop_invites_wf s n : client_wf s → client_wf (set_invites s (dpop (cl_invites s) n)).
Proof. intros W. shrink W. Qed.
Lemma pop_groups_wf s n : client_wf s → client_wf (set_groups s (dpop (cl_groups s) n)).
Proof. intros W. shrink W. Qed.
Lemma pop_events_wf s n : client_wf s → client_wf (set_events s (dpop (cl_events s) n)).
Proof. intros W. shrink W. Qed.
Lemma pop_create_wf s f : client_wf s → client_wf (pop_create f s).
Proof.
  intros W. unfold pop_create. case_decide; [|done]. apply (shrink_wf _ _ W); [done|done| |apply (kw_dicts _ W)].
  by intros [].
Qed.

Lemma drop_wait_wf f s : client_wf s → client_wf (drop_wait f s).
Proof.
  intros [Hi Hf Hw Hd]. split; simpl; [| |by apply dict_wf_dpop|done].
  - intros g c v H%dget_dpop_Some; [|done]. by apply Hi.
  - intros x g Hx. destruct (Hf x g Hx) as [Hlt Hc]. split; [done|]. intros c v H%dget_dpop_Some; [|done]. by eapply Hc.
Qed.

#[local] Hint Resolve pop_pings_wf pop_attaches_wf pop_invites_wf pop_groups_wf pop_events_wf pop_create_wf drop_wait_wf : relay_client.

Lemma cleanup_wf f c s : client_wf s → client_wf (cleanup f c s).
Proof. destruct c; simpl; eauto with relay_client. Qed.
#[local] Hint Resolve cleanup_wf : relay_client.

(** [file] puts future [n] into the table of call [c]. *)
Definition files (c : Call) (n : nat) (file : nat → Client → Client) : Prop := ∀ s,
  cl_waits (file n s) = cl_waits s ∧ cl_next (file n s) = cl_next s ∧
  (∀ x f, filed (file n s) x = Some f → filed s x = Some f ∨ f = n ∧ x = slot_of c) ∧
  (dict_wf (cl_pings s) ∧ dict_wf (cl_attaches s) ∧ dict_wf (cl_invites s) ∧ dict_wf (cl_groups s) ∧ dict_wf (cl_events s) →
   let s2 := file n s in
   dict_wf (cl_pings s2) ∧ dict_wf (cl_attaches s2) ∧ dict_wf (cl_invites s2) ∧ dict_wf (cl_groups s2) ∧ dict_wf (cl_events s2)).

Lemma file_wf c (file : nat → Client → Client) s : client_wf s → files c (cl_next s) file →
  client_wf (file (cl_next s) (new_future c s).2).
Proof.
  intros [Hi Hf Hw Hd] Hfile. destruct (Hfile (new_future c s).2) as (E1 & E2 & Hx & Hd'). unfold new_future in *. simpl in *.
  assert (Hn : cl_next s ∉ keys (cl_waits s)).
  { intros [[c' v] H]%dget_is_Some. apply Hi in H as [? _]. lia. }
  assert (Hg : ∀ f, dget (cl_waits s ++ [(cl_next s, (c, Waiting))]) f = if decide (f = cl_next s) then Some (c, Waiting) else dget (cl_waits s) f).
  { intros f. rewrite <- dset_new by done. rewrite dget_dset. by repeat case_decide; try congruence. }
  split.
  - intros f c' v. rewrite E1, E2, Hg. case_decide as E; [intros [= <- <-]; subst; simpl; split; [lia|done]|].
    intros H%Hi. destruct H. split; [lia|done].
  - intros x f [H | [-> ->]]%Hx; rewrite E1, E2.
    + replace (filed _ x) with (filed s x) in H by (by destruct x). destruct (Hf x f H) as [Hlt Hc]. split; [lia|].
      intros c' v. rewrite Hg, decide_False by lia. apply Hc.
    + split; [lia|]. intros c' v. rewrite Hg, decide_True by done. by intros [= <- <-].
  - rewrite E1. rewrite <- dset_new by done. by apply dict_wf_dset.
  - by apply Hd'.
Qed.

(** ** Every call keeps the tables in order *)

Lemma put_calm env b s : calm s (put env b s).2.
Proof. unfold put. by repeat case_match. Qed.
Lemma send_packet_calm env b s : calm s (send_packet env b s).2.
Proof. unfold send_packet, mbind, CM_bind, reads, demand_or. destruct (is_usable _); [apply put_calm|done]. Qed.
Lemma tolerate_calm m s : calm s (m s).2 → calm s (tolerate m s).2.
Proof. unfold tolerate. intros H. destruct (m s) as [[] s']; [done|]. by case_match. Qed.

Lemma request_wf env c file b s :
  client_wf s → files c (cl_next s) file → client_wf (request env c file b s).2.
Proof.
  intros W W1%(file_wf _ _ _ W). unfold request, mbind, CM_bind, update, send_or. destruct (new_future c s) as [r s1] eqn:E.
  assert (r = Ok (cl_next s)) as -> by (unfold new_future in E; congruence). cbn [snd] in W1.
  pose proof (send_packet_calm env b (file (cl_next s) s1)) as C. destruct (send_packet env b (file (cl_next s) s1)) as [[] s2]; cbn [snd] in *.
  - by eapply calm_wf.
  - apply drop_wait_wf, cleanup_wf. by eapply calm_wf.
Qed.

(** The guard that every request starts with. *)
Lemma guarded_wf {A} (k : CM A) e (b : Client → bool) s : client_wf s → client_wf (k s).2 →
  client_wf ((u ← reads b; demand_or u e;; k) s).2.
Proof. intros W Wk. unfold mbind, CM_bind, reads, demand_or. by destruct (b s). Qed.

Lemma demand_wf {A} (k : CM A) e (b : bool) s : client_wf s → client_wf (k s).2 → client_wf ((demand_or b e;; k) s).2.
Proof. intros W Wk. unfold mbind, CM_bind, demand_or. by destruct b. Qed.

Ltac filing :=
  let s := fresh in intros s; split; [done|]; split; [done|]; split;
  [intros []; simpl; auto; intros ?; rewrite ?dget_dset; repeat case_decide; simplify_eq; naive_solver
  |simpl; intros (? & ? & ? & ? & ?); repeat split; try done; by apply dict_wf_dset].

Lemma client_attach_wf env ch role s : client_wf s → client_wf (attach env ch role s).2.
Proof.
  intros W. unfold attach. apply demand_wf; [done|]. apply demand_wf; [done|]. apply guarded_wf; [done|].
  apply request_wf; [done|]. filing.
Qed.

Lemma invite_roundtrip_wf env i c b s : client_wf s → slot_of c = SInvite (cp i) → client_wf (invite_roundtrip env i c b s).2.
Proof.
  intros W Hc. unfold invite_roundtrip. apply guarded_wf; [done|]. apply request_wf; [done|]. filing.
Qed.

Lemma group_roundtrip_wf env t g c b s : client_wf s → slot_of c = SGroup t (cp g) → client_wf (group_roundtrip env t g c b s).2.
Proof.
  intros W Hc. unfold group_roundtrip. apply guarded_wf; [done|]. apply request_wf; [done|]. filing.
Qed.

Lemma group_create_wf env a1 a2 a3 a4 a5 a6 s : client_wf s → client_wf (group_create env a1 a2 a3 a4 a5 a6 s).2.
Proof.
  intros W. unfold group_create. apply guarded_wf; [done|]. unfold reads at 1, mbind at 1, CM_bind at 1.
  apply demand_wf; [done|]. apply request_wf; [done|]. filing.
Qed.

Lemma wait_group_event_wf g k u s : client_wf s → client_wf (wait_group_event g k u s).2.
Proof.
  intros W. unfold wait_group_event, mbind, CM_bind, update, mret, CM_ret. destruct (new_future _ s) as [r s1] eqn:E.
  assert (r = Ok (cl_next s)) as -> by (unfold new_future in E; congruence). cbn [snd].
  change s1 with (Ok (cl_next s) : result client_error nat, s1).2. rewrite <- E.
  apply (file_wf (CGroupEvent (cp g) (cp k) (cp u)) (λ f s, set_events s (dset (cl_events s) (cp g, cp k, cp u) f)) s W). filing.
Qed.

Lemma membership_call_wf env g k u b s : client_wf s → client_wf (membership_call env g k u b s).2.
Proof.
  intros W%(wait_group_event_wf g k u). unfold membership_call. unfold mbind at 1, CM_bind at 1.
  destruct (wait_group_event g k u s) as [[f|] s1]; [|done]. cbn [snd] in W. unfold mbind, CM_bind, mret, CM_ret.
  pose proof (send_packet_calm env b s1) as C. destruct (send_packet env b s1) as [[] s2]; by eapply calm_wf.
Qed.

Lemma client_ping_wf env s : client_wf s → client_wf (ping env s).2.
Proof.
  intros W. unfold ping, mbind, CM_bind, update, send_or. set (c := CPing _ _). destruct (new_future c s) as [r s1] eqn:E.
  assert (r = Ok (cl_next s)) as -> by (unfold new_future in E; congruence).
  assert (W1 : client_wf (set_pings (new_future c s).2 (dset (cl_pings (new_future c s).2) (cp (ce_token env)) (cl_next s)))).
  { apply (file_wf c (λ f s, set_pings s (dset (cl_pings s) (cp (ce_token env)) f)) s W). filing. }
  rewrite E in W1. cbn [snd] in *. set (s2 := set_pings _ _) in *. set (b := ping_packet _ _).
  pose proof (send_packet_calm env b s2) as C. destruct (send_packet env b s2) as [[] s3]; cbn [snd] in *.
  - by eapply calm_wf.
  - apply drop_wait_wf. by eapply calm_wf.
Qed.

(** *** Inbound packets *)

Lemma resolve_pong_wf env p s : client_wf s → client_wf (resolve_pong env p s).
Proof.
  intros W. unfold resolve_pong. set (n := txt p "nonce").
  destruct (match ascii_text n with Some _ => _ | None => _ end) as [h r]. set (s1 := set_heart s h).
  assert (W1 : client_wf s1) by (by apply (calm_wf s)).
  destruct (dget (cl_pings s1) n) as [f|] eqn:E; [|done].
  assert (W2 : client_wf (settle f (Measured r) s1)) by (apply (settle_wf f (Measured r) (SPing n) s1 W1 E); intros c _ Hc; by exists n).
  apply (pop_pings_wf _ n) in W2. eapply calm_wf; [|exact W2].
  unfold settle. simpl. by repeat case_match.
Qed.

(** [p] is on its way to whoever waits now. *)
Definition arrives (p : Packet) (s : Client) : Prop := ∀ f c, dget (cl_waits s) f = Some (c, Waiting) → heard f c p.

Lemma calm_arrives p s s' : calm s s' → arrives p s → arrives p s'.
Proof. intros (E & _) H f c. rewrite E. apply H. Qed.

Lemma resolve_wf p f x s : client_wf s → filed s x = Some f → answers p x → arrives p s → client_wf (settle f (Answered p) s).
Proof. intros W Hf Ha Hd. apply (settle_wf f (Answered p) x s W Hf). intros c Hc <-. split; [done|by apply Hd]. Qed.

(** Refusing what is filed, and taking it out. *)
Lemma reject_pending_attach_wf p s : client_wf s → client_wf (reject_pending_attach p s).
Proof.
  intros W. unfold reject_pending_attach. repeat case_match; try done. apply settle_any_wf; [by apply pop_attaches_wf|done].
Qed.
Lemma reject_pending_invite_wf p s : client_wf s → client_wf (reject_pending_invite p s).
Proof.
  intros W. unfold reject_pending_invite. repeat case_match; try done; (apply settle_any_wf; [by apply pop_invites_wf|done]).
Qed.

Lemma dget_filter_Some {K V} `{EqDecision K} (Q : K * V → Prop) `{∀ x, Decision (Q x)} (d : list (K * V)) k v :
  dict_wf d → dget (filter Q d) k = Some v → dget d k = Some v.
Proof. intros Hd H1%dget_Some_elem. apply list_elem_of_filter in H1 as [_ H1]. by apply elem_dget. Qed.

Lemma reject_scoped_wf e g s : client_wf s → client_wf (reject_scoped e g s).
Proof.
  intros W. unfold reject_scoped.
  assert (Hk : ∀ t s, client_wf s → client_wf (reject_request e t g s)).
  { intros t s' W'. unfold reject_request. case_match; [|done]. apply settle_any_wf; [by apply pop_groups_wf|done]. }
  set (s1 := reject_request e GROUP_STATE g _). assert (W1 : client_wf s1) by (by apply Hk, Hk).
  set (s2 := settle_all _ _ s1). assert (W2 : client_wf s2) by (by apply settle_all_wf).
  assert (E : cl_events s2 = cl_events s1) by apply settle_all_tables. rewrite <- E.
  pose proof (kw_dicts _ W2) as Hd. destruct_and? Hd.
  apply (shrink_wf _ _ W2); [done|done| |simpl; repeat split; try done; by apply dict_wf_filter].
  intros []; simpl; try done. intros f. by apply dget_filter_Some.
Qed.

Lemma reject_pending_group_wf p s : client_wf s → client_wf (reject_pending_group p s).
Proof.
  intros W. unfold reject_pending_group.
  assert (Hg : ∀ e, client_wf (reject_group e p s)).
  { intros e. unfold reject_group. set (s1 := match uni_field _ _ with Some _ => _ | None => _ end).
    assert (W1 : client_wf s1) by (unfold s1; case_match; [by apply reject_scoped_wf|done]).
    case_match; [by apply settle_any_wf|done]. }
  repeat case_match; auto.
Qed.

Lemma notify_calm w n s : calm s (notify w n s).
Proof. unfold notify. by case_match. Qed.

Lemma resolve_invite_wf p s : client_wf s → arrives p s →
  (pk_type p = INVITE_GRANTED ∨ pk_type p = INVITE_STATE ∨ pk_type p = REDEEMED) → client_wf (resolve_invite p s).
Proof.
  intros W Hd Ht. unfold resolve_invite. destruct (_ ≫= _) as [f|] eqn:E; [|done].
  apply bind_Some in E as (i & Hi & Hf). by apply (resolve_wf p f (SInvite i)).
Qed.

Lemma resolve_group_wf p s : client_wf s → arrives p s → client_wf (resolve_group p s).
Proof.
  intros W Hd. unfold resolve_group. case_decide as Et.
  - destruct (cl_create s) as [f|] eqn:E; [|done]. by apply (resolve_wf p f SCreate).
  - destruct (_ ≫= _) as [f|] eqn:E; [|done]. apply bind_Some in E as (g & Hg & (t & Ht & Hf)%bind_Some).
    by apply (resolve_wf p f (SGroup t g)).
Qed.

Lemma route_wf env p s : client_wf s → arrives p s → client_wf (route env p s).
Proof.
  intros W Hd. unfold route. destruct (pk_type p) eqn:Et; try done.
  - by apply (calm_wf s).
  - by apply resolve_pong_wf.
  - set (s1 := set_errors s _). assert (W1 : client_wf s1) by (by apply (calm_wf s)).
    destruct (route_group_forward_error p s1) as [s2|] eqn:E.
    + apply (calm_wf s1); [|done]. revert E. unfold route_group_forward_error. repeat case_match; try done. intros [= <-]. apply notify_calm.
    + by apply reject_pending_group_wf, reject_pending_invite_wf, reject_pending_attach_wf.
  - by apply (calm_wf s).
  - unfold resolve_attached. destruct (dget _ _) as [f|] eqn:E; [|done]. by apply (resolve_wf p f (SAttach (txt p "channel"))).
  - apply (calm_wf s); [apply notify_calm|done].
  - apply (calm_wf s); [apply notify_calm|done].
  - by apply resolve_invite_wf; auto.
  - by apply resolve_invite_wf; auto.
  - by apply resolve_invite_wf; auto.
  - by apply resolve_group_wf; auto.
  - by apply resolve_group_wf; auto.
  - by apply resolve_group_wf; auto.
  - by apply (calm_wf s).
  - unfold route_group_event. eapply calm_wf; [apply notify_calm|].
    destruct (dget _ _) as [f|] eqn:E; [|done]. by apply (resolve_wf p f (SEvent (txt p "group") (txt p "kind") (txt p "subject"))).
  - apply (calm_wf s); [apply notify_calm|done].
Qed.

Lemma handle_bytes_wf env data s : client_wf s → (∀ p, decode_packet data = Ok p → arrives p s) → client_wf (handle_bytes env data s).2.
Proof.
  intros W Hp. unfold handle_bytes. destruct (decode_packet data) as [p|[]] eqn:E; try done.
  apply route_wf; [by apply (calm_wf s)|]. apply (calm_arrives p s); [done|by apply Hp].
Qed.

(** *** Ends of requests, lifecycle, tasks *)

Lemma adopt_calm c a s : calm s (adopt c a s).
Proof. unfold adopt. by repeat case_match. Qed.

Lemma resume_wf env f s r s' : client_wf s → resume env f s = Some (r, s') → client_wf s'.
Proof.
  intros W. unfold resume. destruct (dget (cl_waits s) f) as [[c v]|]; [|done].
  assert (W1 : client_wf (drop_wait f (cleanup f c s))) by eauto with relay_client.
  destruct v as [|p|m|e|]; try done; intros [= _ <-].
  all: repeat case_match; try done; (eapply calm_wf; [apply adopt_calm|done]).
Qed.

Lemma expire_wf f s r s' : client_wf s → expire f s = Some (r, s') → client_wf s'.
Proof.
  intros W. unfold expire. destruct (dget (cl_waits s) f) as [[c v]|]; [|done].
  assert (W1 : client_wf (drop_wait f (cleanup f c s))) by eauto with relay_client.
  destruct v; try done. destruct c; intros [= <- <-]; try done. by apply (pop_pings_wf (drop_wait f s)).
Qed.

Lemma reattach_calm env w l s : calm s (reattach env w l s).2.
Proof.
  unfold reattach. destruct l as [|[ch role] l]; [done|]. set (b := new_packet _ _).
  pose proof (send_packet_calm env b s) as C. by destruct (send_packet env b s) as [[] s1].
Qed.

Lemma post_connected_calm env w s : calm s (post_connected env w s).2.
Proof. unfold post_connected, update, reads, mbind, CM_bind. etrans; [|apply reattach_calm]. done. Qed.

Lemma reattached_calm env w ok s : calm s (reattached env w ok s).2.
Proof.
  unfold reattached. destruct (dget (cl_welcomes s) w) as [l|]; [|done]. case_match; [|done]. destruct ok; [|done].
  etrans; [|apply reattach_calm]. done.
Qed.

Lemma established_calm env a w s : calm s (established env a w s).2.
Proof. unfold established. destruct (a (cl_manager s)) as [[] m]; [|done]. etrans; [|apply post_connected_calm]. done. Qed.

Lemma welcome_calm env raw s : calm s (welcome env raw s).2.
Proof. unfold welcome. by repeat case_match. Qed.

(** The steps of a connection change no table. *)
Lemma greeted_calm env m e s : calm s (match greet env (set_manager s m) with (Ok _, s') => (Ok tt : result client_error unit, s') | (Err x, s') => (Err x, on_manager e s') end).2.
Proof.
  unfold greet. pose proof (put_calm env (hello_packet (cl_name (set_manager s m)) None) (set_manager s m)) as C.
  destruct (put _ _ _) as [[] s1]; simpl in *; (etrans; [|exact C]); done.
Qed.
Lemma welcomed_calm env raw e a w s :
  calm s (match welcome env raw s with (Err x, s') => (Err x, on_manager e s') | (Ok _, s') => established env a w s' end).2.
Proof.
  pose proof (welcome_calm env raw s) as C. destruct (welcome env raw s) as [[] s1]; simpl in *; [|done].
  etrans; [exact C|]. apply established_calm.
Qed.

Lemma cancel_pending_wf s : client_wf s → client_wf (cancel_pending s).
Proof.
  intros W. assert (Ht : ∀ fs s, client_wf s → client_wf (settle_all fs Cancelled s)) by (intros; by apply settle_all_wf).
  assert (Hempty : ∀ s' s'', client_wf s' → cl_waits s'' = cl_waits s' → cl_next s'' = cl_next s' →
    (∀ x, filed s'' x = filed s' x ∨ filed s'' x = None) →
    (dict_wf (cl_pings s'') ∧ dict_wf (cl_attaches s'') ∧ dict_wf (cl_invites s'') ∧ dict_wf (cl_groups s'') ∧ dict_wf (cl_events s'')) → client_wf s'').
  { intros s' s'' W' E1 E2 Hx Hd. apply (shrink_wf _ _ W'); try done. intros x f H. destruct (Hx x); congruence. }
  unfold cancel_pending.
  assert (Hd : ∀ s, client_wf s → client_wf (set_pings s []) ∧ client_wf (set_invites s []) ∧ client_wf (set_groups s []) ∧
    client_wf (set_create s None) ∧ client_wf (set_events s [])).
  { intros s' W'. pose proof (kw_dicts _ W') as D. destruct_and? D.
    repeat split_and!; (apply (Hempty _ _ W'); [done|done|intros []; simpl; auto|simpl; repeat split; try done; apply dict_wf_nil]). }
  apply Hd, Ht, Hd, Ht, Hd, Ht, Hd, Ht, Hd, Ht, W.
Qed.

Lemma disconnect_wf env reason s : client_wf s → client_wf (disconnect env reason s).2.
Proof.
  intros W. unfold disconnect, update, reads, mbind, CM_bind. set (s1 := cancel_pending _).
  assert (W1 : client_wf s1) by (apply cancel_pending_wf; by apply (calm_wf s)).
  destruct (is_usable (cl_manager s1)); [|by apply (calm_wf s1)].
  pose proof (tolerate_calm _ _ (send_packet_calm env (disconnect_packet reason 1000) s1)) as C.
  destruct (tolerate _ s1) as [[] s2]; cbn [snd] in *; (eapply calm_wf; [|exact W1]); (etrans; [exact C|done]).
Qed.

Lemma run_task_calm env t s : calm s (run_task env t s).
Proof. unfold run_task. repeat case_match; try done; apply send_packet_calm. Qed.

Lemma heartbeat_tick_calm env s : calm s (heartbeat_tick env s).
Proof.
  unfold heartbeat_tick. destruct (reap _ _) as [h1 fired]. set (s2 := if fired then _ else _).
  assert (C2 : calm s s2) by (unfold s2; by case_match). destruct (begin_heartbeat _) as [h2 q]. set (b1 := heartbeat_packet _ _).
  pose proof (send_packet_calm env b1 (set_heart s2 h2)) as C3. destruct (send_packet env b1 (set_heart s2 h2)) as [r1 s3].
  set (s4 := set_heart s3 _). set (b2 := ping_packet _ _). assert (C4 : calm s s4) by (etrans; [exact C2|exact C3]).
  pose proof (send_packet_calm env b2 s4) as C5. destruct (send_packet env b2 s4) as [r2 s5]. etrans; [exact C4|]. exact C5.
Qed.

Section runs.
Context `{P : Primitives}.

Lemma with_token_wf token k s : client_wf s → (∀ t i, client_wf (k t i s).2) → client_wf (with_token token k s).2.
Proof. intros W Hk. unfold with_token. by repeat case_match. Qed.

Lemma run_client_wf env o s : client_wf s → (∀ r data p, o = OBytes r data → decode_packet data = Ok p → arrives p s) →
  client_wf (run_client env o s).
Proof.
  intros W Hb. destruct o; cbn [run_client].
  - unfold connect. repeat case_match; by apply (calm_wf s).
  - by apply disconnect_wf.
  - by apply client_attach_wf.
  - unfold detach, update, reads, mbind, CM_bind. cbn [cl_manager set_attachments]. case_match; [|by apply (calm_wf s)].
    eapply calm_wf; [apply tolerate_calm, send_packet_calm|]. by apply (calm_wf s).
  - eapply calm_wf; [apply send_packet_calm|done].
  - apply with_token_wf; [done|]. intros. apply invite_roundtrip_wf; [exact W|reflexivity].
  - apply with_token_wf; [done|]. intros. apply invite_roundtrip_wf; [exact W|reflexivity].
  - apply with_token_wf; [done|]. intros. apply invite_roundtrip_wf; [exact W|reflexivity].
  - apply with_token_wf; [done|]. intros. apply invite_roundtrip_wf; [exact W|reflexivity].
  - apply with_token_wf; [done|]. intros. apply invite_roundtrip_wf; [exact W|reflexivity].
  - by apply group_create_wf.
  - unfold group_attest. apply group_roundtrip_wf; [exact W|reflexivity].
  - unfold group_state. apply group_roundtrip_wf; [exact W|reflexivity].
  - by apply wait_group_event_wf.
  - by apply membership_call_wf.
  - by apply membership_call_wf.
  - by apply membership_call_wf.
  - unfold group_forward. apply guarded_wf; [done|]. eapply calm_wf; [apply send_packet_calm|done].
  - by apply client_ping_wf.
  - unfold connect_dialed. destruct (open_dialed _) as [[] m]; [|done]. eapply calm_wf; [apply greeted_calm|done].
  - unfold connect_welcomed. repeat (case_match; [|done]). eapply calm_wf; [|done]. apply welcomed_calm.
  - unfold loop_greeted. destruct (loop_dialed _ _) as [[] m]; [|done]. eapply calm_wf; [apply greeted_calm|done].
  - unfold loop_welcomed. destruct (dget _ _) as [[]|]; try done. eapply calm_wf; [|done]. apply welcomed_calm.
  - case_match; [|done]. by apply (calm_wf s).
  - eapply calm_wf; [apply reattached_calm|done].
  - unfold read_bytes. destruct (dget _ _) as [[|]|]; try done.
    assert (W1 : client_wf (handle_bytes env data s).2) by (apply handle_bytes_wf; [done|]; intros p; by eapply Hb).
    destruct (handle_bytes env data s) as [[] s1]; [done|]. by apply (calm_wf s1).
  - destruct (resume env f s) as [[r s1]|] eqn:E; [|done]. by eapply resume_wf.
  - destruct (expire f s) as [[r s1]|] eqn:E; [|done]. by eapply expire_wf.
  - unfold next_task. case_match; [done|]. eapply calm_wf; [apply run_task_calm|]. by apply (calm_wf s).
  - eapply calm_wf; [apply heartbeat_tick_calm|done].
Qed.

Lemma init_client_wf name attempts timeout ls : client_wf (RelayClient_init name attempts timeout ls).
Proof. split; simpl; try done; [by intros []|constructor|repeat split; constructor]. Qed.
End runs.
End tables.

(** ** Answers *)

Lemma text_field d name : text_present d name → ∃ s, field d name = Some (JStr s) ∧ uni_field d name = Some s.
Proof. intros [s Hs]. exists s. split; [done|]. unfold uni_field. by rewrite Hs. Qed.

Lemma list_items p name limit check : demand_list (pk_payload p) name limit check = Ok tt → ∃ l, items p name = Ok l.
Proof. unfold demand_list, items. destruct (field (pk_payload p) name) as [[]|]; try done. eauto. Qed.
Lemma optional_items p name (m : result packet_error unit) limit check :
  m = demand_list (pk_payload p) name limit check → (if has (pk_payload p) name then m else Ok tt) = Ok tt → ∃ l, items p name = Ok l.
Proof.
  intros ->. unfold has. destruct (dmem _ _) eqn:E; [apply list_items|]. intros _. unfold items, field. apply dmem_false in E.
  rewrite E. eauto.
Qed.

(** What a request returns for a packet that answers it. *)
Definition satisfied (env : CEnv) (c : Call) (p : Packet) : Prop :=
  match c with
  | CAttach _ _ => ∃ n, 0 <= n ∧ read_answer env c p = Ok (APeers n)
  | CGroupCreate => ∃ g epoch, 1 <= epoch ∧ read_answer env c p = Ok (ACreated g epoch)
  | CGroupAttest g => ∃ role epoch ms es suite, role ∈ cp <$> GROUP_ATTEST_ROLES ∧ read_answer env c p = Ok (AAttested g role epoch ms es suite)
  | CGroupState g => ∃ epoch st ms es suite, 1 <= epoch ∧ st ∈ cp <$> GROUP_STATES ∧ read_answer env c p = Ok (ARoster g epoch st ms es suite)
  | CGroupEvent _ _ _ => read_answer env c p = Ok (AEvent p)
  | _ => True
  end.

(** The checks of a group answer. *)
Lemma group_answer d t : t ∈ [GROUP_GRANTED; GROUP_ATTESTED; GROUP_ROSTER] → validate_packet t d = Ok tt →
  ∃ g epoch, field d "group" = Some (JStr g) ∧ uni_field d "group" = Some g ∧ field d "epoch" = Some (JInt epoch) ∧
    (t ≠ GROUP_ATTESTED → 1 <= epoch).
Proof.
  intros Ht Hv. assert (Hg : text_present d "group").
  { rewrite !elem_of_cons in Ht. destruct Ht as [-> | [-> | [-> | []%not_elem_of_nil]]];
      unfold validate_packet, validate_group_packet in Hv; apply bind_Ok in Hv as ([] & H & _); by apply demand_group_text. }
  apply text_field in Hg as (g & Hg1 & Hg2). exists g.
  assert (He : ∃ z, field d "epoch" = Some (JInt z) ∧ (t ≠ GROUP_ATTESTED → 1 <= z)).
  { rewrite !elem_of_cons in Ht. destruct Ht as [-> | [-> | [-> | []%not_elem_of_nil]]];
      unfold validate_packet, validate_group_packet in Hv; demands Hv;
      match goal with H : demand_int _ "epoch" _ = Ok ?z |- _ => apply demand_int_Ok in H as [Hp Hn]; by exists z end. }
  destruct He as (z & ? & ?). by exists z.
Qed.

Lemma answer_satisfies env c p data : decode_packet data = Ok p → answers p (slot_of c) → satisfied env c p.
Proof.
  intros (_ & _ & Hv)%decode_packet_Ok Ha. destruct c; simpl in Ha; try done.
  - destruct Ha as [Ht _]. rewrite Ht in Hv. unfold validate_packet in Hv. demands Hv. clear Hv.
    match goal with H : demand_int _ "peers" _ = Ok ?z |- _ => apply demand_int_Ok in H as [Hp Hn]; exists z end.
    split; [done|]. simpl. by rewrite Hp.
  - rewrite Ha in Hv. destruct (group_answer _ GROUP_GRANTED ltac:(set_solver) Hv) as (g & z & Hg & _ & He & Hz).
    exists g, z. split; [by apply Hz|]. unfold read_answer, key. rewrite decide_True by done. by rewrite Hg, He.
  - destruct Ha as [Ht Hu]. assert (Ht' : pk_type p = GROUP_ATTESTED) by (by destruct (pk_type p)). rewrite Ht' in Hv.
    destruct (group_answer _ GROUP_ATTESTED ltac:(set_solver) Hv) as (g & z & Hg & Hg' & He & _).
    assert (g = group) as -> by congruence. unfold validate_packet, validate_group_packet in Hv. demands Hv.
    match goal with H : demand_among _ "role" _ _ = Ok ?z |- _ => apply demand_among_Ok in H as [Hr (r & Hr' & ->)] end.
    match goal with H : (if has _ "members" then _ else _) = Ok _ |- _ => apply (optional_items _ _ _ _ _ eq_refl) in H as [ms Hms] end.
    apply (optional_items _ _ _ _ _ eq_refl) in Hv as [es Hes].
    unfold satisfied, read_answer, key. rewrite decide_True by done. rewrite Hg, Hr, He, Hms, Hes.
    exists (cp r), z, ms, es, (suite_of env p). split; [by apply list_elem_of_fmap_2|done].
  - destruct Ha as [Ht Hu]. assert (Ht' : pk_type p = GROUP_ROSTER) by (by destruct (pk_type p)). rewrite Ht' in Hv.
    destruct (group_answer _ GROUP_ROSTER ltac:(set_solver) Hv) as (g & z & Hg & Hg' & He & Hz).
    assert (g = group) as -> by congruence. unfold validate_packet, validate_group_packet in Hv. demands Hv.
    match goal with H : demand_among _ "state" _ _ = Ok ?z |- _ => apply demand_among_Ok in H as [Hr (r & Hr' & ->)] end.
    match goal with H : demand_members _ = Ok _ |- _ => apply list_items in H as [ms Hms] end. apply list_items in Hv as [es Hes].
    unfold satisfied, read_answer, key. rewrite decide_True by done. rewrite Hg, Hr, He, Hms, Hes.
    exists z, (cp r), ms, es, (suite_of env p). split; [by apply Hz|]. split; [by apply list_elem_of_fmap_2|done].
Qed.

(** *** Where an answer comes from *)

Section origin.
Context `{P : Primitives} (s0 : Client).

(** [p] was read from bytes that came in when [c] waited for [f]. *)
Definition heard_in (l : list (CEnv * client_op)) (f : nat) (c : Call) (p : Packet) : Prop :=
  ∃ l1 env r data l2, l = l1 ++ (env, OBytes r data) :: l2 ∧ decode_packet data = Ok p ∧
    dget (cl_waits (client_after s0 l1)) f = Some (c, Waiting).

Lemma heard_more l x f c p : heard_in l f c p → heard_in (l ++ x) f c p.
Proof. intros (l1 & env & r & data & l2 & -> & H). exists l1, env, r, data, (l2 ++ x). split; [by rewrite <- app_assoc|done]. Qed.

Lemma heard_wf (h h' : nat → Call → Packet → Prop) s : (∀ f c p, h f c p → h' f c p) → client_wf h s → client_wf h' s.
Proof.
  intros Hh [Hi Hf Hw Hd]. split; try done. intros f c v H. destruct (Hi f c v H) as [Hlt Hs]. split; [done|].
  unfold suits in *. destruct v; try done. naive_solver.
Qed.

Lemma client_after_wf l : client_wf (heard_in []) s0 → client_wf (heard_in l) (client_after s0 l).
Proof.
  intros W. induction l as [|[env o] l IH] using rev_ind; [done|]. unfold client_after. rewrite foldl_app. simpl.
  apply run_client_wf; [eapply heard_wf; [|exact IH]; intros; by apply heard_more|].
  intros r data p -> Hp f c Hw. exists l, env, r, data, []. done.
Qed.
End origin.

(** C11: Answers reach the request they answer: however requests, packets,
    time-outs, reconnections and disconnections follow each other, a coroutine
    that goes on with a packet goes on with one that was read from the relay's
    bytes while it waited, and that is about its channel, invite, group or event
    and of the type its request asked for, except that a request about an invite
    takes any of the three answers about that invite.  So [attach],
    [group_create], [group_attest] and [group_state] return, with
    the channel or group they asked about, and their checks for an
    unexpected answer never fire.  A measured round trip only reaches a [ping].
    What is filed in a table belongs to a request of that table and key. *)
Theorem answers_reach_their_request `{P : Primitives} name attempts timeout ls l :
  let s0 := RelayClient_init name attempts timeout ls in
  let s := client_after s0 l in
  (∀ f c p, dget (cl_waits s) f = Some (c, Answered p) →
     (∃ l1 env r data l2, l = l1 ++ (env, OBytes r data) :: l2 ∧ decode_packet data = Ok p ∧
        dget (cl_waits (client_after s0 l1)) f = Some (c, Waiting)) ∧
     answers p (slot_of c) ∧ ∀ env, satisfied env c p) ∧
  (∀ f c r, dget (cl_waits s) f = Some (c, Measured r) → ∃ n t, c = CPing n t) ∧
  (∀ x f c v, filed s x = Some f → dget (cl_waits s) f = Some (c, v) → slot_of c = x).
Proof.
  intros s0 s. assert (W : client_wf (heard_in s0 l) s) by (apply client_after_wf, init_client_wf). destruct W as [Hi Hf _ _]. split; [|split].
  - intros f c p H. destruct (Hi _ _ _ H) as [_ [Ha Hd]]. split; [done|]. split; [done|]. intros env.
    destruct Hd as (l1 & env1 & r & data & l2 & _ & Hdec & _). by eapply answer_satisfies.
  - intros f c r H. destruct (Hi _ _ _ H) as [_ [n Hn]]. destruct c; try done. eauto.
  - intros x f c v Hx Hw. destruct (Hf x f Hx) as [_ Hc]. by eapply Hc.
Qed.
