(* ===== verification/RelayConversation.v ===== *)
(** * Two clients and the relay

    The client of [RelayClient] and the relay of [RelayServer] joined by the
    bytes between them: a body one client sends is the body the listener of
    the other gets, and an [attach] completes. *)

From S2P Require Import Prelude Text Utf8 Primitives Ids Events GroupAuthority GroupInvariant GroupSpec Invites Json ChannelFrames Connection Heartbeat RelayPackets RelayState RelayPacketTheorems RelayServer RelayEffects RelaySteps RelayInvariant RelayTheorems RelayClient RelayClientTheorems.

Open Scope Z_scope.

(** The identifier and time a packet draws. *)
Record stamp_wf (st : stamp) : Prop := {
  sw_ok : stamp_ok st;
  sw_scalar : Forall (λ c, is_scalar c = true) st.1;
  sw_time : timestamp_ok st.2;
}.

Lemma cp_scalar s : Forall (λ c, is_scalar c = true) (cp s).
Proof.
  unfold cp, encode. apply Forall_fmap, Forall_forall. intros c _. simpl. pose proof (code_bound c) as [H1 H2].
  unfold is_scalar. apply orb_true_iff. left. apply andb_true_iff. split; breflect; lia.
Qed.

(** A packet whose payload is a few texts and numbers. *)
Definition plain_value (v : json) : Prop := match v with JStr s => ∃ t, s = cp t | JInt z => int_ok z | _ => False end.

Lemma new_packet_wf t d st : stamp_wf st → dict_wf ((λ x, (cp x.1, x.2)) <$> d : fields) → Forall (λ x, plain_value x.2) d →
  packet_wf (new_packet t d st).
Proof.
  intros [[Hb _] Hs Ht] Hd Hv. split; simpl; [by split|done|]. constructor; [done| |].
  - apply Forall_fmap, Forall_forall. intros x _. apply cp_scalar.
  - apply Forall_fmap. eapply Forall_impl; [exact Hv|]. intros [k v]. simpl. destruct v; try done; simpl.
    + intros H. by constructor.
    + intros [t' ->]. constructor. apply cp_scalar.
Qed.

Lemma forward_packet_wf ch body st : stamp_wf st → packet_wf (forward_packet (cp ch) (cp body) st).
Proof.
  intros Hs. apply new_packet_wf; [done|apply (bool_decide_unpack _); vm_compute; exact I|].
  constructor; [by eexists|]. constructor; [by eexists|]. constructor.
Qed.

(** [send_packet] that returns has encoded its packet and put it on the wire. *)
Lemma send_packet_Ok env b s s' :
  send_packet env b s = (Ok tt, s') →
  is_usable (cl_manager s) = true ∧ s' = set_wire s (cl_wire s ++ [b (ce_stamp env (length (cl_wire s)))]) ∧
  ∃ raw, encode_packet (b (ce_stamp env (length (cl_wire s)))) = Ok raw.
Proof.
  unfold send_packet, mbind, CM_bind, reads, demand_or. destruct (is_usable (cl_manager s)); [|done]. unfold put.
  destruct (encode_packet _) as [raw|[]] eqn:E; try done. destruct (ce_link env); [done|]. intros [= <-]. eauto.
Qed.

(** C9: A body crosses the relay: when one client's [send_forward] returns,
    two clients being attached to one channel of a relay that both sockets
    still reach, then the bytes it put on the wire make the relay put
    exactly one packet on the wire, to the other client, and the bytes of that
    packet make the listener of the other client run exactly once, with the
    channel and the body that were sent; nothing else of the relay's clients,
    channels, groups and invites changes. *)
Theorem body_crosses_the_relay `{P : Primitives} env envA envB s c d x y ch body A A' B :
  relay_reachable s → d ≠ c →
  client c s = Some x → cx_conn x = Open → is_Some (cx_session x) → is_Some (dget (cx_attachments x) (cp ch)) →
  client d s = Some y → cx_conn y = Open → is_Some (dget (cx_attachments y) (cp ch)) → ev_up env d = true →
  stamp_wf (ce_stamp envA (length (cl_wire A))) → stamp_wf (ev_stamp env (length (rl_wire s))) →
  send_forward envA (cp ch) (cp body) A = (Ok tt, A') → on_forward (cl_listening B) = true →
  ∃ raw s' q raw',
    last (cl_wire A') = Some (forward_packet (cp ch) (cp body) (ce_stamp envA (length (cl_wire A)))) ∧
    encode_packet (forward_packet (cp ch) (cp body) (ce_stamp envA (length (cl_wire A)))) = Ok raw ∧
    run_event env (EData c raw) s = Some s' ∧ rl_wire s' = rl_wire s ++ [(d, q)] ∧
    rl_clients s' = rl_clients s ∧ rl_channels s' = rl_channels s ∧ rl_groups s' = rl_groups s ∧ rl_invites s' = rl_invites s ∧
    encode_packet q = Ok raw' ∧
    (handle_bytes envB raw' B).1 = Ok tt ∧
    cl_notices (handle_bytes envB raw' B).2 = cl_notices B ++ [NForward (cp ch) (cp body)].
Proof.
  intros Hr Hne Hx Hox Hsx Hax Hy Hoy Hay Hup HsA HsR Hsend Hl.
  apply send_packet_Ok in Hsend as (_ & -> & raw & Hraw). set (p := forward_packet _ _ _) in *.
  pose proof (packet_survives p raw (forward_packet_wf ch body _ HsA) Hraw) as Hdec.
  destruct (forward_is_delivered env c d x y (cp ch) (cp body) raw p s) as (s' & Hrun & Hw & H1 & H2 & H3 & H4); try done; [apply HsR|].
  set (q := forward_packet (cp ch) (cp body) (ev_stamp env (length (rl_wire s)))) in *.
  destruct (decode_packet_Ok raw p Hdec) as (_ & _ & Hv).
  destruct (forward_copy_encodes (pk_payload p) (cp ch) (cp body) (ev_stamp env (length (rl_wire s)))) as [raw' Hraw']; [done..|apply HsR|].
  pose proof (packet_survives q raw' (forward_packet_wf ch body _ HsR) Hraw') as Hdec'.
  exists raw, s', q, raw'. split; [apply last_snoc|]. repeat (split; [done|]).
  unfold handle_bytes. rewrite Hdec'. split; [done|]. cbn [snd]. unfold route. cbn [pk_type q forward_packet new_packet].
  unfold notify. cbn [cl_listening touch_client set_session]. rewrite Hl. reflexivity.
Qed.

(** ** Attaching *)

(** The relay's answer fits the wire: its channel and role were accepted. *)
Lemma attached_encodes d channel role st n :
  validate_packet ATTACH d = Ok tt → field d "channel" = Some (JStr channel) → role ∈ CHANNEL_ROLES → stamp_ok st → 0 <= n <= 1 →
  ∃ raw, encode_packet (attached_packet channel role n st) = Ok raw.
Proof.
  intros Hv Hc Hr ([_ Hid]%andb_true_iff & l & Hl & Hn) Hz. unfold encode_packet.
  assert (Hch : demand_channel d = Ok tt) by (unfold validate_packet in Hv; by apply bind_Ok in Hv as ([] & ? & _)).
  assert (Hlen : (length channel <= 64)%nat).
  { unfold demand_channel in Hch. apply bind_Ok in Hch as (s & [Hs [_ H1]]%demand_str_Ok & _). by simplify_eq/=. }
  assert (Hv' : validate_packet ATTACHED (pk_payload (attached_packet channel role n st)) = Ok tt).
  { unfold validate_packet. replace (demand_channel _) with (Ok tt : result packet_error unit)
      by (rewrite <- Hch; unfold demand_channel, demand_str; by rewrite Hc).
    assert (n = 0 ∨ n = 1) as [-> | ->] by lia;
      (apply elem_of_cons in Hr as [-> | [-> | []%not_elem_of_nil]%elem_of_cons]; reflexivity). }
  change (pk_type (attached_packet channel role n st)) with ATTACHED. rewrite Hv'. cbn [mbind result_bind].
  assert (Hsize : Z.of_nat (length (dumps (packet_dict (attached_packet channel role n st)))) <=? MAX_MESSAGE_BYTES = true); [|rewrite Hsize; by eexists].
  apply Z.leb_le. unfold packet_dict, attached_packet, new_packet, text. cbn [pk_id pk_sent_at pk_type pk_payload packet_type_name fmap list_fmap fst snd].
  rewrite Hl. cbn [dumps fmap list_fmap joined fst snd]. repeat (rewrite length_app || (cbn [length app])).
  pose proof (dump_string_length channel). pose proof (dump_string_length st.1). apply Nat.leb_le in Hid.
  assert (Hs : ∀ s : string, (length (cp s) <= 12)%nat → (length (dump_string (cp s)) <= 146)%nat).
  { intros s Hs. pose proof (dump_string_length (cp s)). lia. }
  assert (Hz1 : (length (cp (str_of_Z PROTOCOL_VERSION)) <= 12)%nat) by (vm_compute; lia).
  assert (Hz2 : (length (cp (str_of_Z n)) <= 12)%nat) by (assert (n = 0 ∨ n = 1) as [-> | ->] by lia; vm_compute; lia).
  assert (Hrole : (length (cp role) <= 12)%nat)
    by (apply elem_of_cons in Hr as [-> | [-> | []%not_elem_of_nil]%elem_of_cons]; vm_compute; lia).
  pose proof (Hs role Hrole). unfold MAX_PACKET_ID_LENGTH, MAX_MESSAGE_BYTES in *.
  pose proof (Hs "v" ltac:(vm_compute; lia)). pose proof (Hs "id" ltac:(vm_compute; lia)). pose proof (Hs "type" ltac:(vm_compute; lia)).
  pose proof (Hs "ts" ltac:(vm_compute; lia)). pose proof (Hs "payload" ltac:(vm_compute; lia)). pose proof (Hs "channel" ltac:(vm_compute; lia)).
  pose proof (Hs "role" ltac:(vm_compute; lia)). pose proof (Hs "peers" ltac:(vm_compute; lia)). pose proof (Hs "ATTACHED" ltac:(vm_compute; lia)). lia.
Qed.

(** What [handle_attach] does when there is room: the answer comes first, and
    the other member is told, or not. *)
Lemma handle_attach_result `{P : Primitives} env c x channel role s raw :
  let ms := default [] (dget (rl_channels s) channel) in
  let n := Z.of_nat (length (dset ms c role)) - 1 in
  let reply := attached_packet channel role n (ev_stamp env (length (rl_wire s))) in
  client c s = Some x → cx_conn x = Open → ev_up env c = true →
  dmem ms c || negb (CHANNEL_CAPACITY <=? length ms)%nat = true → encode_packet reply = Ok raw →
  ∃ s' rest, handle_attach env c channel role s = (Ok tt, s') ∧ rl_wire s' = rl_wire s ++ (c, reply) :: rest ∧
    client c s' = Some (RelayServer.set_attachments (dset (cx_attachments x) channel role) x) ∧
    dget (rl_channels s') channel = Some (dset ms c role).
Proof.
  intros ms n reply Hx Ho Hup Hroom Henc. unfold handle_attach, mbind, M_bind, gets, attach_membership. fold ms. rewrite Hroom. cbn [negb].
  set (s1 := alter_client _ c _).
  assert (Hc1 : client c s1 = Some (RelayServer.set_attachments (dset (cx_attachments x) channel role) x)).
  { unfold s1. rewrite client_alter, decide_True by done. unfold client in *. simpl. by rewrite Hx. }
  assert (Hch : rl_channels s1 = dset (rl_channels s) channel (dset ms c role) ∧ rl_wire s1 = rl_wire s).
  { unfold s1, alter_client. by case_match. }
  destruct Hch as [Hch Hw]. rewrite Hch, dget_dset, decide_True by done. cbn [default from_option id].
  unfold send. rewrite Hc1. cbn [fmap option_fmap option_map cx_conn RelayServer.set_attachments]. rewrite Ho, Hw. fold n reply. rewrite Henc, Hup.
  cbn [bool_decide_eq_true andb]. rewrite bool_decide_true by done. cbn [andb].
  set (s2 := RelayState.set_wire s1 _). assert (Hc2 : client c s2 = client c s1) by done.
  assert (Hdone : ∃ l, (match counterparty (dset ms c role) c with Some _ => notify_peer_joined env c channel | None => skip end) s2 =
    (Ok tt, RelayState.set_wire s2 (rl_wire s2 ++ l))).
  { destruct (counterparty _ _) as [o|]; [|exists []; rewrite app_nil_r; by destruct s2].
    unfold notify_peer_joined, mbind, M_bind, gets. case_match; [|exists []; rewrite app_nil_r; by destruct s2].
    unfold suppress, mbind, M_bind, attempted.
    destruct (send_result env z (peer_packet channel "joined") s2) as [[e He] | (He & _)]; rewrite He; [|by eexists].
    destruct (send_caught env z _ s2 e _ (encode_peer_error channel "joined") He) as [-> _]. exists []. rewrite app_nil_r. by destruct s2. }
  destruct Hdone as [l ->]. eexists _, l. split; [done|]. split; [|split].
  - unfold s2. simpl. by rewrite <- app_assoc.
  - exact Hc1.
  - unfold s2. simpl. rewrite Hch, dget_dset. by rewrite decide_True.
Qed.

(** What an [attach] that waits leaves behind. *)
Lemma attach_Ok env ch role A f A1 :
  attach env ch role A = (Ok f, A1) →
  let st := ce_stamp env (length (cl_wire A)) in
  role ∈ CHANNEL_ROLES ∧ f = cl_next A ∧ cl_wire A1 = cl_wire A ++ [attach_packet ch role st] ∧
  (∃ raw, encode_packet (attach_packet ch role st) = Ok raw) ∧
  cl_attaches A1 = dset (cl_attaches A) (cp ch) f ∧ cl_waits A1 = cl_waits A ++ [(f, (CAttach (cp ch) role, Waiting))] ∧
  cl_attachments A1 = cl_attachments A.
Proof.
  unfold attach, mbind at 1 2, CM_bind at 1 2, demand_or. destruct (bool_decide_reflect (role ∈ CHANNEL_ROLES)) as [Hr|]; [|done].
  destruct (is_valid_room_id ch); [|done]. unfold request, new_future, update, reads, send_or, mbind, CM_bind.
  destruct (is_usable (cl_manager A)); [|done].
  match goal with |- context [send_packet env _ ?a] => destruct (send_packet env (attach_packet ch role) a) as [[[]|] A2] eqn:E end; [|done].
  intros [= <- <-]. apply send_packet_Ok in E as (_ & -> & raw & Hraw). simpl. simpl in Hraw. eauto 10.
Qed.

Definition client_reachable `{P : Primitives} (A : Client) : Prop :=
  ∃ name attempts timeout ls l, A = client_after (RelayClient_init name attempts timeout ls) l.

Lemma attach_packet_wf ch role st : stamp_wf st → packet_wf (attach_packet ch role st).
Proof.
  intros Hs. apply new_packet_wf; [done|apply (bool_decide_unpack _); vm_compute; exact I|].
  constructor; [by eexists|]. constructor; [by eexists|]. constructor.
Qed.
Lemma attached_packet_wf ch role n st : stamp_wf st → int_ok n → packet_wf (attached_packet (cp ch) role n st).
Proof.
  intros Hs Hn. apply new_packet_wf; [done|apply (bool_decide_unpack _); vm_compute; exact I|].
  constructor; [by eexists|]. constructor; [by eexists|]. constructor; [done|]. constructor.
Qed.

Lemma attach_request ch role st : role ∈ CHANNEL_ROLES → request_of (attach_packet ch role st) = Some (QAttach (cp ch) role).
Proof. intros Hr. apply elem_of_cons in Hr as [-> | [-> | []%not_elem_of_nil]%elem_of_cons]; reflexivity. Qed.

(** The members besides [c] once [c] is one of them. *)
Lemma others_count (ms : members) c role : (length (dset ms c role) = S (length (dpop ms c)))%nat.
Proof. rewrite length_dset. pose proof (length_dpop ms c). case_decide; lia. Qed.

(** The waiting coroutine gets the answer. *)
Lemma attached_resumes heard envB ch role n st raw' A f A1 :
  client_wf heard A → packet_wf (attached_packet (cp ch) role n st) → encode_packet (attached_packet (cp ch) role n st) = Ok raw' →
  f = cl_next A → cl_attaches A1 = dset (cl_attaches A) (cp ch) f → cl_waits A1 = cl_waits A ++ [(f, (CAttach (cp ch) role, Waiting))] →
  (handle_bytes envB raw' A1).1 = Ok tt ∧
  ∃ A3, resume envB f (handle_bytes envB raw' A1).2 = Some (Ok (APeers n), A3) ∧ cl_attachments A3 = dset (cl_attachments A1) (cp ch) role.
Proof.
  intros WA Hwf Henc Hf Hta Hwt. pose proof (packet_survives _ raw' Hwf Henc) as Hdec.
  set (q := attached_packet (cp ch) role n st) in *.
  unfold handle_bytes. rewrite Hdec. split; [done|]. cbn [snd].
  change (route envB q (touch_client envB A1)) with (resolve_attached q (touch_client envB A1)). unfold resolve_attached. change (txt q "channel") with (cp ch).
  change (cl_attaches (touch_client envB A1)) with (cl_attaches A1). rewrite Hta, dget_dset, decide_True by done.
  unfold settle. change (cl_waits (touch_client envB A1)) with (cl_waits A1).
  assert (Hfresh : f ∉ keys (cl_waits A)).
  { intros [[c' v] H]%dget_is_Some. apply (kw_ids heard A WA) in H as [? _]. lia. }
  assert (Hw : dget (cl_waits A1) f = Some (CAttach (cp ch) role, Waiting)).
  { rewrite Hwt, <- dset_new by done. rewrite dget_dset. by rewrite decide_True. }
  rewrite Hw. unfold resume. cbn [cl_waits set_waits]. rewrite dget_dset, decide_True by done. eexists. split; reflexivity.
Qed.

(** C10: An [attach] completes: when a client's [attach] has sent its request
    and waits, and the relay has room for it in the channel and reaches its
    socket, then the relay's reaction to the request's bytes puts ATTACHED on
    the wire to this client first, and on the bytes of that packet the waiting
    coroutine returns, with the number of other members of the
    channel; the client and the relay then both hold the attachment with the
    role that was asked for. *)
Theorem attach_completes `{P : Primitives} env envA envB s c x ch role A f A1 :
  let ms := default [] (dget (rl_channels s) (cp ch)) in
  relay_reachable s → client c s = Some x → cx_conn x = Open → is_Some (cx_session x) → ev_up env c = true →
  dmem ms c || negb (CHANNEL_CAPACITY <=? length ms)%nat = true →
  stamp_wf (ce_stamp envA (length (cl_wire A))) → stamp_wf (ev_stamp env (length (rl_wire s))) →
  client_reachable A → attach envA ch role A = (Ok f, A1) →
  ∃ raw s' reply rest raw' A3,
    encode_packet (attach_packet ch role (ce_stamp envA (length (cl_wire A)))) = Ok raw ∧
    run_event env (EData c raw) s = Some s' ∧ rl_wire s' = rl_wire s ++ (c, reply) :: rest ∧
    encode_packet reply = Ok raw' ∧ (handle_bytes envB raw' A1).1 = Ok tt ∧
    resume envB f (handle_bytes envB raw' A1).2 = Some (Ok (APeers (Z.of_nat (length (dpop ms c)))), A3) ∧
    cl_attachments A3 = dset (cl_attachments A) (cp ch) role ∧
    (cx_attachments <$> client c s') = Some (dset (cx_attachments x) (cp ch) role).
Proof.
  intros ms Hr Hx Ho Hsx Hup Hroom HsA HsR (nm & at' & tm & ls & l & HA) Hat.
  set (s0 := RelayClient_init nm at' tm ls) in HA.
  assert (WA : client_wf (heard_in s0 l) A) by (subst A; apply client_after_wf, init_client_wf). clear HA.
  destruct (attach_Ok envA ch role A f A1 Hat) as (Hrole & Hf & _ & [raw Hraw] & Hta & Hwt & Hatt).
  set (p := attach_packet ch role _) in *. pose proof (packet_survives p raw (attach_packet_wf ch role _ HsA) Hraw) as Hdec.
  destruct (decode_packet_Ok raw p Hdec) as (_ & _ & Hv).
  assert (Hn : Z.of_nat (length (dset ms c role)) - 1 = Z.of_nat (length (dpop ms c)) ∧ (length (dpop ms c) <= 1)%nat).
  { rewrite others_count. split; [lia|]. pose proof (length_dpop ms c) as Hd. apply orb_true_iff in Hroom as [Hm%dmem_spec | Hm].
    - rewrite decide_True in Hd by done. assert (length ms <= 2)%nat; [|lia]. unfold ms in *.
      destruct (dget (rl_channels s) (cp ch)) as [ms'|] eqn:E; [|simpl; lia]. simpl.
      destruct (wf_members s (wf_base s (reachable_wf s Hr)) _ _ E) as [_ [_ ?]]. done.
    - apply negb_true_iff, Nat.leb_gt in Hm. unfold CHANNEL_CAPACITY in Hm. lia. }
  destruct Hn as [Hn Hn1]. set (n := Z.of_nat (length (dpop ms c))) in *.
  destruct (attached_encodes (pk_payload p) (cp ch) role (ev_stamp env (length (rl_wire s))) n) as [raw' Hraw']; [done|done|done|apply HsR|lia|].
  set (reply := attached_packet (cp ch) role n (ev_stamp env (length (rl_wire s)))) in *.
  destruct (touch_session_eq env x s) as (g & Htouch & _).
  destruct (handle_attach_result env c x (cp ch) role (set_registry s g) raw') as (s' & rest & Hh & Hw & Hc & _); try done.
  { cbn [rl_channels set_registry rl_wire]. fold ms. rewrite Hn. exact Hraw'. }
  cbn [rl_channels set_registry rl_wire] in Hw. fold ms in Hw. rewrite Hn in Hw.
  destruct (attached_resumes (heard_in s0 l) envB ch role n (ev_stamp env (length (rl_wire s))) raw' A f A1 WA) as (Hok & A3 & Hres & Hfin); try done.
  { apply attached_packet_wf; [done|]. unfold int_ok. assert (n = 0 ∨ n = 1) as [-> | ->] by lia; vm_compute; lia. }
  exists raw, s', reply, rest, raw', A3. split; [done|]. split.
  { simpl. rewrite Hx. simpl. rewrite decide_True by done. unfold dispatch. rewrite Hdec. unfold p. rewrite attach_request by done. simpl.
    unfold serve, mbind, M_bind. rewrite Htouch. cbn [serve_request]. by rewrite Hh. }
  split; [exact Hw|]. split; [done|]. split; [done|]. split; [done|]. split; [by rewrite Hfin, Hatt|]. by rewrite Hc.
Qed.

(** ** Concrete clients *)

Definition all_listeners : Listeners := mkListeners true true true true true.
Definition client_env (link : option client_error) (token : string) : CEnv :=
  mkCEnv MICRO MICRO link (λ _, (cp "0123456789abcdef", JFloat (cp "1.5"))) (λ _, cp "1.5") (λ _, cp "1.0") token (λ _, cp "?")
    (λ _, None) (λ _, None) None.
Definition well : CEnv := client_env None "00000000000000aa".

(** A client that has met the relay. *)
Definition welcome_bytes : bytes :=
  wire_bytes (welcome_packet "sess_1" "ghostlink-relay" (JFloat (cp "1.5")) (JFloat (cp "15.0")) (Some "00112233445566778899aabbccddeeff")).
Definition greeting : list (CEnv * client_op) := [(well, OConnect); (well, ODialed); (well, OWelcomed (Some welcome_bytes));
  (well, OManager (ReaderBegins 0))].
Definition met (attempts : nat) : Client := client_after (RelayClient_init "alice" attempts (5 * MICRO) all_listeners) greeting.

Example met_is_up : is_usable (cl_manager (met 0)) = true ∧ (ss_id <$> cl_session (met 0)) = Some (cp "sess_1") ∧ cm_readers (cl_manager (met 0)) = [(0, Some 0)]%nat.
Proof. by vm_compute. Qed.

Lemma demo_stamp_wf : stamp_wf (cp "0123456789abcdef", JFloat (cp "1.5")).
Proof.
  split; [|repeat constructor|].
  - split; [reflexivity|]. exists (cp "1.5"). split; [reflexivity|]. vm_compute. lia.
  - split; [|vm_compute; reflexivity]. exists false, (cp "1"), (cp ".5"), []. split; [reflexivity|]. split; [|split; [|split]].
    + right. eexists _, _. split; [reflexivity|]. split; [vm_compute; split; congruence|]. repeat constructor.
    + right. eexists _, _. split; [reflexivity|]. repeat constructor.
    + by left.
    + discriminate.
Qed.

Lemma body_crosses_the_relay_witness :
  ∃ s' raw', rl_wire s' = rl_wire demo_relay ++ [(2, forward_packet (cp demo_room) (cp "aGVsbG8=") (cp "0123456789abcdef", JFloat (cp "1.5")))] ∧
    cl_notices (handle_bytes well raw' (met 0)).2 = [NForward (cp demo_room) (cp "aGVsbG8=")].
Proof.
  edestruct (body_crosses_the_relay (demo_env 4 "sess_3") well well demo_relay 1 2 (default (mkContext "" Closed None [] 0 "") (client 1 demo_relay))
    (default (mkContext "" Closed None [] 0 "") (client 2 demo_relay)) demo_room "aGVsbG8=" (met 0)
    (send_forward well (cp demo_room) (cp "aGVsbG8=") (met 0)).2 (met 0)) as (raw & s' & q & raw' & _ & E & Hrun & Hw & _ & _ & _ & _ & _ & _ & Hn).
  - exact demo_reachable.
  - done.
  - vm_compute. reflexivity.
  - vm_compute. reflexivity.
  - vm_compute. eauto.
  - vm_compute. eauto.
  - vm_compute. reflexivity.
  - vm_compute. reflexivity.
  - vm_compute. eauto.
  - reflexivity.
  - exact demo_stamp_wf.
  - exact demo_stamp_wf.
  - vm_compute. reflexivity.
  - vm_compute. reflexivity.
  - exists s', raw'. split; [|exact Hn]. 
    assert (Hd : run_event (demo_env 4 "sess_3") (EData 1 raw) demo_relay = Some s') by exact Hrun.
    vm_compute in E. injection E as <-. vm_compute in Hd. injection Hd as <-. vm_compute. reflexivity.
Defined.

(** A client of the relay attaches to another room. *)
Definition own_room : string := "gl-room-BBBB-BBBB-BBBB".
Definition waiting : Client := (attach well own_room "host" (met 0)).2.

Lemma attach_completes_witness :
  ∃ s' raw' A3, resume well 0 (handle_bytes well raw' waiting).2 = Some (Ok (APeers 0), A3) ∧
    cl_attachments A3 = [(cp own_room, "host")] ∧
    (cx_attachments <$> client 1 s') = Some [(cp demo_room, "host"); (cp own_room, "host")].
Proof.
  edestruct (attach_completes (demo_env 4 "sess_3") well well demo_relay 1 (default (mkContext "" Closed None [] 0 "") (client 1 demo_relay))
    own_room "host" (met 0) 0%nat waiting) as (raw & s' & reply & rest & raw' & A3 & _ & _ & _ & _ & _ & Hres & Hat & Hcx).
  - exact demo_reachable.
  - vm_compute. reflexivity.
  - vm_compute. reflexivity.
  - vm_compute. eauto.
  - reflexivity.
  - vm_compute. reflexivity.
  - exact demo_stamp_wf.
  - exact demo_stamp_wf.
  - unfold client_reachable, met. by do 5 eexists.
  - vm_compute. reflexivity.
  - exists s', raw', A3. split; [exact Hres|]. split; [exact Hat|]. rewrite Hcx. vm_compute. reflexivity.
Defined.

(** ** Runs that depart from the documentation *)

(** What the coroutine waiting for [f] gets. *)
Definition outcome_of (f : nat) (s : Client) : option (result client_error Answer) := fst <$> resume well f s.

Definition status_bytes (invite : string) : bytes :=
  wire_bytes (invite_state_packet invite "active" 0 1 (JFloat (cp "60.0")) None "chat" None).
Definition error_bytes (code : string) (about : list (string * json)) : bytes := wire_bytes (scoped_error code about).

(** An error about one group fails the creation of another. *)
Example foreign_error_fails_creation :
  let s := client_after (met 0) [(well, OGroupCreate "ops" (String.concat "" (replicate 16 "abcd")) "c2ln" "alice" "Alice" "mesh-v1");
    (well, OBytes 0 (error_bytes "group/rate" [("group", text "grp-AAAA-AAAA-AAAA")]))] in
  outcome_of 0 s = Some (Err (EGroup GroupRateLimitError)).
Proof. vm_compute. reflexivity. Qed.

(** A [ping] whose send fails stays in its table. *)
Example failed_ping_leaks :
  let s := client_after (met 0) [(client_env (Some EReset) "00000000000000bb", OPing)] in
  cl_waits s = [] ∧ dget (cl_pings s) (cp "00000000000000bb") = Some 0%nat.
Proof. by vm_compute. Qed.

(** [disconnect] on a socket that was reset raises before the connection is
    closed. *)
Example reset_disconnect_stays_open :
  let '(r, s) := disconnect (client_env (Some EReset) "") "client shutdown" (met 0) in
  r = Err EReset ∧ cm_state (cl_manager s) = ChatSession.CONNECTED ∧ (ss_status <$> cl_session s) = Some SActive.
Proof. by vm_compute. Qed.

(** [disconnect] cancels every waiting request but an [attach]. *)
Example attach_outlives_disconnect :
  let s := client_after (met 0) [(well, OAttach demo_room "host"); (well, OPing); (well, ODisconnect "client shutdown")] in
  cl_waits s = [(0%nat, (CAttach (cp demo_room) "host", Waiting)); (1%nat, (CPing (cp "00000000000000aa") MICRO, Cancelled))].
Proof. by vm_compute. Qed.

(** A link that breaks while the channels are attached again leaves a
    connection that nobody reads and that never recovers. *)
Example broken_reattach_is_fatal :
  let s := client_after (met 2)
    [(well, OAttach demo_room "host"); (well, OBytes 0 (wire_bytes (attached_packet (cp demo_room) "host" 0))); (well, OResume 0);
     (well, OManager (ReaderEnded 0 true)); (well, OManager (LoopBegins 0)); (well, OManager (LoopWoken 0)); (well, OGreeted 0);
     (client_env (Some ETransport) "", OLoopWelcomed 0 (Some welcome_bytes))] in
  cm_state (cl_manager s) = ChatSession.CONNECTED ∧ cm_readers (cl_manager s) = [] ∧ cm_loops (cl_manager s) = [].
Proof. by vm_compute. Qed.

(** The same run with a link that holds: the channel is attached again, and
    the reader is created when that was sent. *)
Example attached_again :
  let s := client_after (met 2)
    [(well, OAttach demo_room "host"); (well, OBytes 0 (wire_bytes (attached_packet (cp demo_room) "host" 0))); (well, OResume 0);
     (well, OManager (ReaderEnded 0 true)); (well, OManager (LoopBegins 0)); (well, OManager (LoopWoken 0)); (well, OGreeted 0);
     (well, OLoopWelcomed 0 (Some welcome_bytes))] in
  let s' := client_after s [(well, OReattached (Run 0) true); (well, OManager (ReaderBegins 1))] in
  is_usable (cl_manager s) = true ∧ cm_readers (cl_manager s) = [] ∧ (pk_type <$> drop 1 (cl_wire s)) = [ATTACH; HELLO; ATTACH] ∧
  is_usable (cl_manager s') = true ∧ cm_readers (cl_manager s') = [(1, Some 1)]%nat.
Proof. by vm_compute. Qed.

(** Two requests about one invite: the first to end takes the future of the
    second out of the table, whose answer is then dropped. *)
Section overtaken.
Let token : string := "AAAAAAAAAAAAAAAAAAAA".
Let invite : string := default "" (invite_id_for_token token).
Example overtaken_request :
  let s := client_after (met 0) [(well, OQueryInvite token); (well, OQueryInvite token); (well, OExpire 0); (well, OBytes 0 (status_bytes invite))] in
  invite ≠ "" ∧ cl_waits s = [(1%nat, (CQueryInvite invite, Waiting))] ∧ cl_invites s = [].
Proof. split; [vm_compute; discriminate|]. split; vm_compute; reflexivity. Qed.

(** The late answer to a redemption that timed out is taken for the answer to
    a query of the same invite, which then lacks a field. *)
Example late_redemption :
  let s := client_after (met 0) [(well, ORedeem token); (well, OExpire 0); (well, OQueryInvite token);
    (well, OBytes 0 (wire_bytes (redeemed_packet invite demo_room (JFloat (cp "1.5")))))] in
  outcome_of 1 s = Some (Err EKey).
Proof. vm_compute. reflexivity. Qed.
End overtaken.
